(* ===== verification/_CoqProject ===== *)
-Q . S2P
Prelude.v
JsNum.v
AlertTiers.v
Hysteresis.v
AlertLifecycle.v
AlertThresholds.v
FiringSpans.v
JsString.v
AlertScheduler.v
EventTime.v
WarehouseTime.v
QueryWindow.v
EventModel.v
EventPredicate.v
EventSource.v
EventEnvelope.v
EventRegistry.v
EdgeCache.v
BucketCache.v
BucketService.v
GridLayout.v
IngestSha256.v
IngestRegex.v
IngestRegexTree.v
IngestRules.v
IngestDetectors.v
IngestEngine.v
IngestScan.v
IngestRedact.v
JsRatio.v
LruCache.v
JsUnits.v
Drain.v
DrainInvariant.v
DrainLearn.v
DrainTree.v
DrainPatterns.v
Formula.v
FormulaGrammar.v
FormulaResults.v
SafeAddress.v
SafeBlocks.v
SafeLiteral.v
SafeHost.v
SafeGuard.v
SafeGuardProof.v
SqlTokens.v
SqlLexer.v
SqlChecks.v
PromText.v
PromLines.v
QuerySeries.v
QueryMerge.v
QueryRows.v
QueryRunner.v
QueryLadder.v
QueryCharts.v
QueryFaults.v
WhereClause.v
WhereReads.v
WhereSplit.v
DashVariables.v
DashSafe.v
DashPlan.v
QueryLower.v
QueryBuild.v
QueryRound.v
QueryLayers.v
QueryRoundTrip.v
StatusPage.v
StatusImport.v
StatusOverlay.v
StatusReconcile.v
StatusEdge.v
StatusEdgeProof.v
StatusPosts.v
StatusHistory.v
StatusCalendar.v
