(* ===== verification/Prelude.v ===== *)
(** * Maple: a verification development for the TypeScript core

    Maple is an observability platform: telemetry is ingested and redacted,
    stored in a ClickHouse warehouse, queried for charts and dashboards, watched
    by alert rules, projected into events, and summarised on public status
    pages. This library models the parts of its TypeScript code that decide
    something and proves what makes them correct. Definitions are executable
    and keep the names of the source; the examples in the files evaluate them.

    ** How the code is represented

    - Numbers: counters, positions, times in milliseconds and bit words are
      integers ([Z]) with JavaScript's 32-bit operators written out; values that
      are measured, compared or rounded are binary64 numbers (file JsNum; JsRatio
      has quotients of integers and their rounding).
    - Texts: bytes of UTF-8 where a text is only compared and joined (JsString),
      lists of UTF-16 code units where the code counts or scans them (JsUnits).
    - Objects used as maps and [Map] are [jsmap], an association list in the
      order of insertion ([map_get], [map_set], [map_delete] below); [Set] is a
      list without repetition. [Array.prototype.sort] is [js_sort], a stable
      insertion sort, with the class [Comparator] for its laws.
    - Failure is [result] (an Effect that fails, code that throws) or [option].
      State that operations share is passed explicitly: rows of the database,
      stores of the edge, the heap of the log miner, cells of the LRU cache,
      items of a grid.
    - What lies outside the repository is an argument or the method of a class:
      the URL parser ([UrlApi]), HTTP requests ([RequestApi], [RequestLaws]),
      regular expressions ([RegExpEngine]), text decoding ([TextDecoder]),
      case folding and number printing ([JsText]), JSON codecs ([StatusJson],
      [StatusJsonLaws]), SHA-256 outside of IngestSha256, [Date.parse], [Number]
      of a text, [localeCompare], time zones, random identifiers. The clock, the
      answer of the network and which read or write fails are inputs. A theorem
      that assumes a law of such an argument has a witness that applies it with
      a concrete one.

    ** Parts and files

    Alerting ([packages/alerting-core], [packages/backend/.../alerts]). A
    scheduler tick claims the rules of its minute, evaluates each, and plans the
    change of its incident.
    - AlertTiers: tiers.ts, the severity of a history of ticks; a history as
      long as the code keeps decides as the whole one does.
    - Hysteresis: hysteresis.ts, the state machine of an incident, refined
      against the contract of breaches, recoveries and cooldown.
    - AlertLifecycle: index.ts, the plan of a tick and its coherence, retries
      and the fair order of tenants.
    - AlertThresholds: alert-thresholds.ts, validation of tiers.
    - FiringSpans: alert-firing-spans.ts, the preview as a replay of the plans.
    - AlertScheduler: AlertsService.ts and AlertRulesService.ts, intervals,
      claims as compare-and-set on rows, writes fenced by a claim; exclusion of
      writers, and that no minute of data is left unread.

    Eventing ([packages/eventing-core]). A signal is selected by a predicate and
    projected into an event.
    - EventModel: model.ts, limits.ts. EventTime: instants and scalar patterns.
    - EventPredicate: predicate.ts and input-budget.ts; compiled predicates mean
      their reference semantics.
    - EventSource, EventEnvelope, EventRegistry: source.ts, event.ts,
      registry.ts; the contract of a compiled registry.

    Ingest rules ([packages/domain/src/ingest-rules.ts], [packages/ingest-rules]).
    - IngestSha256: sha256.ts against FIPS 180-4 and RFC 2104.
    - IngestRegex, IngestRegexTree: the validator of customer patterns; it
      answers on every text, and its nesting check is that of the syntax tree.
    - IngestRules: the contract of a rule. IngestDetectors: detectors.ts.
    - IngestEngine: engine.ts. IngestScan: globs, scan window and sampling
      against their meaning. IngestRedact: the outcome of applying rules, and
      that a selected key leaks nothing.

    Time and caches ([packages/query-engine], [lib/cache]).
    - WarehouseTime, QueryWindow: datetime.ts, the two halves: date texts, and
      ranges with bucket widths.
    - EdgeCache: [lib/cache/src], interface [CacheBackend] with its laws, and the
      service [EdgeCache] over it.
    - BucketCache, BucketService: bucket-cache.ts and the range function of
      query-engine.ts; the cache never shows in an answer.

    Queries and charts ([packages/query-engine], [packages/query-model],
    [packages/domain/src/where-clause.ts]). A tile substitutes its variables, a
    draft is lowered to a specification, the queries of a set run over a window,
    their results are merged into rows and formulas are evaluated.
    - WhereClause, with WhereReads and WhereSplit: filters are read as written.
    - QueryLower, QueryBuild, with QueryRound, QueryLayers and QueryRoundTrip:
      query-builder/model.ts; filters shown as a clause are lowered to
      themselves again.
    - QueryRunner, with QueryLadder: windows, ladder of wider windows, query
      sets. QuerySeries, with QueryMerge, QueryRows, QueryCharts and QueryFaults:
      merging; the exact rows of a chart, with and without failing queries.
    - Formula, with FormulaGrammar and FormulaResults: formula-results.ts
      against the usual grammar of arithmetic.
    - DashVariables, with DashSafe and DashPlan: dashboard-variables and
      widget-request.ts; a value stays a literal, a tile keeps its window.
    - GridLayout: [lib/grid-engine/src/layout.ts].
    - LruCache, Drain, with DrainInvariant, DrainLearn and DrainTree, and
      DrainPatterns: [packages/query-engine/src/drain], the log miner.

    Guards.
    - SafeAddress, with SafeBlocks, SafeLiteral and SafeHost: address rules of
      [lib/safe-fetch]. SafeGuard, with SafeGuardProof: redirects, credentials,
      pinning and bounded reads.
    - SqlTokens, with SqlLexer and SqlChecks: [packages/domain/src/raw-sql.ts].
    - PromText, with PromLines: [lib/prometheus-otlp/src/parser.ts].

    Status pages ([packages/domain/src/status-page.ts], [apps/status],
    [packages/status-page], [packages/backend/.../status-pages]). A publisher
    writes a snapshot of the rows of a page; the edge worker serves it from three
    stores and, while Maple is down, accepts updates that are shown as an overlay
    and imported into the rows later.
    - StatusPage: status-page.ts, data, statuses, overlay, bars, freshness.
    - StatusImport: StatusPageSnapshotBuilder.ts and StatusPageReconciler.ts.
    - StatusOverlay: what visitors see is the worst of what is so; the overlay
      keeps the lifecycles apart and is applied once, in any order of listing.
    - StatusReconcile: importing an entry publishes what the overlay showed, and
      a run imports each entry once and deletes a key only when it is published.
    - StatusEdge, with StatusEdgeProof and StatusPosts: snapshot.ts, handler.ts,
      break-glass.ts; outages, who may post, and that a post stays visible.
    - StatusHistory, with StatusCalendar: history.ts and select.ts.

    ** Kinds of theorems

    Refinement of an abstract machine or a reference semantics: the incident
    contract, the recency list of the LRU cache, the rule language, the registry,
    FIPS 180-4, the transparent cache, expression trees of formulas, the import
    of an update. Safety over every sequence of steps: redirect chains, claims,
    posts. Liveness: no minute unread, learned messages match, posts stay
    visible. Round trips: filters, sample lines, shown filters. Exact functional
    results: chart rows, calendar days. Absence of exceptions and termination:
    the pattern validator, the LRU cache, the log miner. Behaviour on errors and
    bounds: failed fills write nothing, bounded reads, absence is confirmed.
    Several examples record what the code does against its intention or its
    comments; their names are in the manifest of the library.

    ** Fuel

    Loops that are not structural take fuel, and each has a lemma that its fuel
    is enough, except where a step plainly removes a unit of a text whose length
    is the fuel. Scanners of a text start with the length of the text or more
    ([validator_answers] for the ones that are not structural in it,
    [tokenize_written], [tokenize_layout], [key_selection_exact]); the guard of
    nested input with [budget_fuel], which is [MAX_PREDICATE_NODES]
    ([budget_loop_total]); redirects with one more than [MAX_REDIRECTS]
    ([hop_ends]); a drag with more than the items not yet moved
    ([moveElement_total]); widths with the rungs above ([coarsen_ends]); fair
    rounds with the number of rules ([fair_loop_spec]); free names with as many
    tries as names in use, of which the plain name is one
    ([unique_suffix_spec]). One loop need not end:
    [findAll] of the detectors on an engine that steps back, where [None] is the
    answer and [boundary_pattern_hangs] shows a pattern that reaches it.

    ** What is not modelled

    - Code whose work is input and output: HTTP routes, workers' bindings,
      database queries and schemas, React interfaces, command-line tools,
      prompts, deployment, telemetry SDKs, HTML, feeds and e-mail.
    - The ingest gateway, which is written in Rust.
    - The compilers of warehouse SQL ([packages/query-engine/src/ch]): they build
      text whose meaning is ClickHouse's.
    - Floating-point code without a discrete contract: pixel geometry of the
      grid, colours and contrast of a status page theme.
    - Checks that search texts with regular expressions after a third-party
      masker (the organisation filter of raw SQL), and inspection of prototypes
      of arbitrary objects ([isJsonValue]).
    - Observability of the code itself: log lines, spans, metrics.
    - Within modelled code: the fibers of one call ([getOrComputeBuckets] reads
      segments and fills ranges concurrently, the model in the order of the
      list, running a range even after another failed); properties that every
      object inherits (a variable named [constructor]); a content length with a
      fraction. *)

From stdpp Require Import prelude list strings.
From Stdlib Require Import ZArith Lia Sorting.Permutation Sorting.Sorted.

Open Scope Z_scope.

(** ** Notations *)

Create HintDb maple.

Declare Scope maple_scope.
Delimit Scope maple_scope with maple.

(** The result of an operation that can fail: an Effect [Result], or code that
    throws. *)
Inductive result (E A : Type) : Type :=
  | Ok (a : A)
  | Err (e : E).
Arguments Ok {E A} a.
Arguments Err {E A} e.

Definition result_bind {E A B} (m : result E A) (k : A -> result E B) : result E B :=
  match m with Ok a => k a | Err e => Err e end.

Notation "'let!' x ':=' m 'in' k" := (result_bind m (fun x => k))
  (at level 10, x pattern, m at level 100, k at level 200) : maple_scope.

Definition is_ok {E A} (m : result E A) : bool :=
  match m with Ok _ => true | Err _ => false end.

(** ** Arrays *)

(** [Array.prototype.slice(start)] for an integer [start]: a negative start
    counts from the end and is clamped to the array. *)
Definition js_slice_from {A} (start : Z) (l : list A) : list A :=
  let n := Z.of_nat (length l) in
  drop (Z.to_nat (if start <? 0 then Z.max (n + start) 0 else Z.min start n)) l.

(** The last element, [Array.prototype.at(-1)]. *)
Definition at_last {A} (l : list A) : option A := last l.

(** Effect's [Array.findLastIndex]. *)
Fixpoint find_last_index {A} (p : A -> bool) (l : list A) : option nat :=
  match l with
  | [] => None
  | x :: l' =>
      match find_last_index p l' with
      | Some i => Some (S i)
      | None => if p x then Some 0%nat else None
      end
  end.

(** [Array.from({ length: n }, () => x)]: a negative length gives no element. *)
Definition js_array_of {A} (n : Z) (x : A) : list A := replicate (Z.to_nat n) x.

Section Arrays.
Context {A : Type}.
Implicit Types (l : list A) (p : A -> bool).

Lemma js_slice_from_neg l (n : Z) :
  0 < n -> js_slice_from (- n) l = drop (length l - Z.to_nat n) l.
Proof.
  intros Hn. unfold js_slice_from.
  destruct (Z.ltb_spec (- n) 0); [|lia]. f_equal. lia.
Qed.

Lemma js_slice_from_zero l : js_slice_from (- 0) l = l.
Proof. unfold js_slice_from. simpl. rewrite Z.min_l by lia. reflexivity. Qed.

Lemma length_js_slice_from l (n : Z) :
  0 < n -> length (js_slice_from (- n) l) = Nat.min (Z.to_nat n) (length l).
Proof. intros Hn. rewrite js_slice_from_neg by done. rewrite length_drop. lia. Qed.

Lemma js_slice_from_short l (n : Z) :
  0 < n -> Z.of_nat (length l) <= n -> js_slice_from (- n) l = l.
Proof.
  intros Hn Hl. rewrite js_slice_from_neg by done.
  replace (length l - Z.to_nat n)%nat with 0%nat by lia. reflexivity.
Qed.

Lemma last_js_slice_from l (n : Z) :
  0 < n -> last (js_slice_from (- n) l) = last l.
Proof.
  intros Hn. rewrite js_slice_from_neg by done.
  destruct (decide (l = [])) as [->|Hne]; [done|].
  assert (length l <> 0%nat) by (by destruct l).
  rewrite !last_lookup, lookup_drop, length_drop. f_equal. lia.
Qed.

Lemma elem_of_js_slice x z l : x ∈ js_slice_from z l -> x ∈ l.
Proof.
  unfold js_slice_from. rewrite !list_elem_of_lookup. intros [i Hi].
  rewrite lookup_drop in Hi. eauto.
Qed.

Lemma find_last_index_lt p l i : find_last_index p l = Some i -> (i < length l)%nat.
Proof.
  revert i; induction l as [|x l IH]; intros i; simpl; [done|].
  destruct (find_last_index p l) eqn:E.
  - intros [= <-]. specialize (IH _ eq_refl). lia.
  - case_match; [intros [= <-]; lia | done].
Qed.

Lemma find_last_index_app p l1 l2 :
  find_last_index p (l1 ++ l2) =
  match find_last_index p l2 with
  | Some i => Some (length l1 + i)%nat
  | None => find_last_index p l1
  end.
Proof.
  induction l1 as [|x l1 IH]; simpl; [by destruct (find_last_index p l2)|].
  rewrite IH. by destruct (find_last_index p l2).
Qed.

Lemma find_last_index_snoc p l x :
  find_last_index p (l ++ [x]) =
  if p x then Some (length l) else find_last_index p l.
Proof.
  rewrite find_last_index_app. simpl. destruct (p x); [f_equal; lia|done].
Qed.

Lemma filter_none p l : (forall x, x ∈ l -> p x = false) -> List.filter p l = [].
Proof.
  induction l as [|x l IH]; intros H; simpl; [done|].
  rewrite H by set_solver. apply IH. set_solver.
Qed.
Lemma filter_all p l : (forall x, x ∈ l -> p x = true) -> List.filter p l = l.
Proof.
  induction l as [|x l IH]; intros Hp; [done|]. cbn. rewrite Hp by apply list_elem_of_here.
  f_equal. apply IH. intros y Hy. apply Hp. by right.
Qed.

Lemma existsb_false p l x : existsb p l = false -> x ∈ l -> p x = false.
Proof.
  intros H Hx. destruct (p x) eqn:E; [|done].
  rewrite <- H. symmetry. apply existsb_exists. exists x. split; [apply list_elem_of_In, Hx|exact E].
Qed.

End Arrays.

(** Effect's [Array.dedupe]: the first occurrence of every element, in order. *)
Definition dedupe {A} `{!EqDecision A} (l : list A) : list A :=
  fold_left (fun out x => if bool_decide (x ∈ out) then out else out ++ [x]) l [].

Section Dedupe.
Context {A : Type} `{!EqDecision A}.
Implicit Types l out : list A.

Lemma dedupe_gen l out :
  let r := fold_left (fun out x => if bool_decide (x ∈ out) then out else out ++ [x]) l out in
  (forall x, x ∈ r <-> x ∈ out \/ x ∈ l) /\ (NoDup out -> NoDup r).
Proof.
  revert out. induction l as [|y l IH]; intros out; simpl; [set_solver|].
  case_bool_decide as Hy.
  - destruct (IH out) as [H1 H2]. split; [|done]. intros x. rewrite H1. set_solver.
  - destruct (IH (out ++ [y])) as [H1 H2]. split.
    + intros x. rewrite H1. set_solver.
    + intros Hn. apply H2. apply NoDup_app. split_and!; [done|set_solver|apply NoDup_singleton].
Qed.

Lemma elem_of_dedupe l x : x ∈ dedupe l <-> x ∈ l.
Proof. unfold dedupe. rewrite (proj1 (dedupe_gen l [])). set_solver. Qed.

Lemma NoDup_dedupe l : NoDup (dedupe l).
Proof. apply dedupe_gen. constructor. Qed.

Lemma dedupe_length_NoDup l : length (dedupe l) = length l -> NoDup l.
Proof.
  intros Hl. pose proof (NoDup_dedupe l) as Hd. rewrite NoDup_ListNoDup in *.
  apply (List.NoDup_incl_NoDup (l := dedupe l)); [done|lia|]. intros x Hx.
  by rewrite <- list_elem_of_In, elem_of_dedupe, list_elem_of_In in Hx.
Qed.
End Dedupe.

#[export] Instance list_filter_Permutation {A} (p : A -> bool) :
  Proper (Permutation ==> Permutation) (List.filter p).
Proof.
  induction 1; simpl.
  - constructor.
  - destruct (p x); [by constructor|done].
  - destruct (p x), (p y); try done. constructor.
  - by etrans.
Qed.

(** ** Loops *)

(** [for (let cursor = first; cursor <= last; cursor += step) starts.push(cursor)] *)
Fixpoint count_up (fuel : nat) (cursor last step : Z) : list Z :=
  match fuel with
  | O => []
  | S f => if cursor <=? last then cursor :: count_up f (cursor + step) last step else []
  end.

Lemma elem_of_count_up fuel cursor limit step x :
  0 < step -> (limit - cursor) / step < Z.of_nat fuel ->
  x ∈ count_up fuel cursor limit step <-> cursor <= x <= limit /\ (step | x - cursor).
Proof.
  intros Hs. revert cursor. induction fuel as [|fuel IH]; intros cursor Hf; cbn [count_up].
  - split; [by intros ?%elem_of_nil|]. intros [Hx _].
    assert (0 <= (limit - cursor) / step) by (apply Z.div_pos; lia). lia.
  - destruct (Z.leb_spec cursor limit) as [Hle|Hgt]; [|split; [by intros ?%elem_of_nil|lia]].
    rewrite elem_of_cons, IH.
    + split.
      * intros [->|[Hx [k Hk]]]; [split; [lia|exists 0; lia]|]. split; [lia|]. exists (k + 1). lia.
      * intros [Hx [k Hk]]. destruct (decide (k = 0)) as [->|]; [left; lia|]. right.
        assert (0 <= k) by nia. split; [nia|]. exists (k - 1). lia.
    + replace (limit - (cursor + step)) with (limit - cursor + (-1) * step) by lia. rewrite Z.div_add by lia. lia.
Qed.

(** ** Integers as the 32-bit operators see them *)

(** ECMAScript [ToInt32] on an integer. *)
Definition to_int32 (z : Z) : Z := (z + 2 ^ 31) mod 2 ^ 32 - 2 ^ 31.
(** ECMAScript [ToUint32] on an integer, also [z >>> 0]. *)
Definition to_uint32 (z : Z) : Z := z mod 2 ^ 32.

Definition js_or (a b : Z) : Z := to_int32 (Z.lor (to_int32 a) (to_int32 b)).
Definition js_and (a b : Z) : Z := to_int32 (Z.land (to_int32 a) (to_int32 b)).
Definition js_xor (a b : Z) : Z := to_int32 (Z.lxor (to_int32 a) (to_int32 b)).
Definition js_shl (a n : Z) : Z := to_int32 (Z.shiftl (to_int32 a) (n mod 32)).
Definition js_sar (a n : Z) : Z := Z.shiftr (to_int32 a) (n mod 32).
Definition js_shr (a n : Z) : Z := Z.shiftr (to_uint32 a) (n mod 32).

(** [Math.imul] *)
Definition js_imul (a b : Z) : Z := to_int32 (to_int32 a * to_int32 b).

Lemma to_int32_small z : - 2 ^ 31 <= z < 2 ^ 31 -> to_int32 z = z.
Proof. intros H. unfold to_int32. rewrite Z.mod_small by lia. lia. Qed.

Lemma to_int32_range z : - 2 ^ 31 <= to_int32 z < 2 ^ 31.
Proof.
  unfold to_int32. pose proof (Z.mod_pos_bound (z + 2 ^ 31) (2 ^ 32) ltac:(lia)). lia.
Qed.

Lemma to_uint32_range z : 0 <= to_uint32 z < 2 ^ 32.
Proof. apply Z.mod_pos_bound. lia. Qed.

Lemma to_uint32_small z : 0 <= z < 2 ^ 32 -> to_uint32 z = z.
Proof. intros H. apply Z.mod_small. lia. Qed.

(** ** Sorting *)

(** [Array.prototype.sort] with a comparator: a stable sort. Insertion keeps
    an element before every element it does not exceed, so equal elements keep
    their order, as ECMAScript requires. *)
Fixpoint insert_by {A} (cmp : A -> A -> Z) (x : A) (l : list A) : list A :=
  match l with
  | [] => [x]
  | y :: l' => if cmp x y <=? 0 then x :: y :: l' else y :: insert_by cmp x l'
  end.

Definition js_sort {A} (cmp : A -> A -> Z) (l : list A) : list A :=
  foldr (insert_by cmp) [] l.

(** What a comparator promises: the relation [cmp a b <= 0] is a total
    preorder. *)
Class Comparator {A} (cmp : A -> A -> Z) : Prop := {
  cmp_total : forall a b, cmp a b <= 0 \/ cmp b a <= 0;
  cmp_trans : forall a b c, cmp a b <= 0 -> cmp b c <= 0 -> cmp a c <= 0
}.

#[export] Instance key_comparator {A} (key : A -> Z) :
  Comparator (fun a b => key a - key b).
Proof. split; intros; lia. Qed.

Section Sorting.
Context {A : Type} (cmp : A -> A -> Z).

Lemma insert_by_perm x l : Permutation (insert_by cmp x l) (x :: l).
Proof.
  induction l as [|y l IH]; simpl; [done|].
  case_match; [done|]. rewrite IH. constructor.
Qed.

Lemma js_sort_perm l : Permutation (js_sort cmp l) l.
Proof.
  induction l as [|x l IH]; simpl; [done|]. by rewrite insert_by_perm, IH.
Qed.

Lemma elem_of_js_sort x l : x ∈ js_sort cmp l <-> x ∈ l.
Proof. by rewrite js_sort_perm. Qed.

Lemma length_js_sort l : length (js_sort cmp l) = length l.
Proof. by rewrite js_sort_perm. Qed.

Context `{!Comparator cmp}.

Lemma insert_by_sorted x l :
  StronglySorted (fun a b => cmp a b <= 0) l ->
  StronglySorted (fun a b => cmp a b <= 0) (insert_by cmp x l).
Proof.
  induction 1 as [|y l Hl IH Hy]; simpl; [repeat constructor|].
  destruct (Z.leb_spec (cmp x y) 0) as [Hxy|Hxy].
  - constructor; [by constructor|]. constructor; [done|].
    eapply Forall_impl; [exact Hy|]. intros z Hz. by apply cmp_trans with y.
  - constructor; [done|].
    rewrite insert_by_perm. constructor; [|done].
    destruct (cmp_total x y); [lia|done].
Qed.

Lemma js_sort_sorted l : StronglySorted (fun a b => cmp a b <= 0) (js_sort cmp l).
Proof. induction l; simpl; [constructor | by apply insert_by_sorted]. Qed.

Lemma js_sort_id l :
  StronglySorted (fun a b => cmp a b <= 0) l -> js_sort cmp l = l.
Proof.
  induction 1 as [|x l Hl IH Hx]; simpl; [done|]. rewrite IH.
  destruct l as [|y l]; simpl; [done|].
  apply Forall_cons in Hx as [Hxy _]. by destruct (Z.leb_spec (cmp x y) 0); [|lia].
Qed.
End Sorting.

#[export] Hint Resolve js_sort_sorted js_sort_perm : maple.

(** ** [Map] and [Set]

    A JavaScript [Map] iterates its entries in insertion order and a [set] of a
    present key keeps that key's place: an association list without duplicate
    keys. A [Set] is the list of its members in insertion order. *)

Abbreviation jsmap K V := (list (K * V)).

Section JsMap.
Context {K V : Type} `{!EqDecision K}.
Implicit Types (m : jsmap K V).

Fixpoint map_get (k : K) (m : jsmap K V) : option V :=
  match m with
  | [] => None
  | (k', v) :: m' => if decide (k = k') then Some v else map_get k m'
  end.

Fixpoint map_set (k : K) (v : V) (m : jsmap K V) : jsmap K V :=
  match m with
  | [] => [(k, v)]
  | (k', v') :: m' => if decide (k = k') then (k, v) :: m' else (k', v') :: map_set k v m'
  end.

Definition map_has (k : K) m : bool := bool_decide (is_Some (map_get k m)).

Definition map_delete (k : K) m : jsmap K V :=
  List.filter (fun e => negb (bool_decide (e.1 = k))) m.

Definition map_keys m : list K := List.map fst m.
Definition map_values m : list V := List.map snd m.

(** [new Map(entries)]. *)
Definition map_of (entries : list (K * V)) : jsmap K V :=
  fold_left (fun m e => map_set e.1 e.2 m) entries [].

Lemma map_get_set_eq k v m : map_get k (map_set k v m) = Some v.
Proof.
  induction m as [|[k' v'] m IH]; simpl; [by rewrite decide_True|].
  destruct (decide (k = k')); simpl; [by rewrite decide_True|].
  by rewrite decide_False.
Qed.

Lemma map_get_set_ne k k' v m : k <> k' -> map_get k' (map_set k v m) = map_get k' m.
Proof.
  intros Hne. induction m as [|[k2 v2] m IH]; simpl.
  - by rewrite decide_False by congruence.
  - destruct (decide (k = k2)) as [->|]; simpl.
    + by rewrite !decide_False by congruence.
    + by rewrite IH.
Qed.

Lemma map_get_set k k' v m :
  map_get k' (map_set k v m) = if decide (k = k') then Some v else map_get k' m.
Proof.
  case_decide as H; [subst; apply map_get_set_eq | by apply map_get_set_ne].
Qed.

Lemma map_get_Some_keys k m : is_Some (map_get k m) <-> k ∈ map_keys m.
Proof.
  unfold map_keys. induction m as [|[k' v] m IH]; simpl.
  - rewrite is_Some_alt. set_solver.
  - destruct (decide (k = k')) as [->|].
    + split; [set_solver | eauto].
    + rewrite IH. set_solver.
Qed.

Lemma map_get_None_keys k m : map_get k m = None <-> k ∉ map_keys m.
Proof. by rewrite <- map_get_Some_keys, eq_None_not_Some. Qed.

(** A new key is set at the end. *)
Lemma map_set_fresh k v m : map_get k m = None -> map_set k v m = m ++ [(k, v)].
Proof.
  induction m as [|[k' v'] m IH]; [done|]. cbn. destruct (decide (k = k')); [done|]. intros Hm. by rewrite IH.
Qed.

Lemma map_has_get k m : map_has k m = true <-> exists v, map_get k m = Some v.
Proof. unfold map_has. by rewrite bool_decide_eq_true. Qed.

Lemma map_has_false k m : map_has k m = false <-> map_get k m = None.
Proof. unfold map_has. by rewrite bool_decide_eq_false, <- eq_None_not_Some. Qed.

Lemma map_get_elem_of k v m : map_get k m = Some v -> (k, v) ∈ m.
Proof.
  induction m as [|[k' v'] m IH]; simpl; [done|].
  destruct (decide (k = k')) as [->|]; [intros [= ->]|intros H; apply IH in H]; set_solver.
Qed.

Lemma elem_of_map_get k v m : NoDup (map_keys m) -> (k, v) ∈ m -> map_get k m = Some v.
Proof.
  unfold map_keys. induction m as [|[k' v'] m IH]; simpl; [set_solver|].
  rewrite NoDup_cons. intros [Hni Hnd] [[= -> ->]|Hin]%elem_of_cons.
  - by rewrite decide_True.
  - rewrite decide_False; [by apply IH|]. intros ->. apply Hni.
    apply list_elem_of_In, List.in_map_iff. exists (k', v).
    split; [done|by apply list_elem_of_In].
Qed.

Lemma map_set_keys k v m :
  map_keys (map_set k v m) = if decide (k ∈ map_keys m) then map_keys m else map_keys m ++ [k].
Proof.
  unfold map_keys. induction m as [|[k' v'] m IH]; [done|].
  cbn [map_set]. destruct (decide (k = k')) as [->|]; cbn [List.map fst].
  - rewrite decide_True by set_solver. done.
  - rewrite IH. destruct (decide (k ∈ List.map fst m)).
    + rewrite decide_True by set_solver. done.
    + rewrite decide_False by set_solver. done.
Qed.

Lemma map_set_NoDup k v m : NoDup (map_keys m) -> NoDup (map_keys (map_set k v m)).
Proof.
  intros H. rewrite map_set_keys. case_decide; [done|].
  apply NoDup_app. split_and!; [done|set_solver|apply NoDup_singleton].
Qed.

Lemma elem_of_map_set_keys k v m k' :
  k' ∈ map_keys (map_set k v m) <-> k' = k \/ k' ∈ map_keys m.
Proof. rewrite map_set_keys. case_decide; set_solver. Qed.

Lemma map_delete_get k k' m :
  map_get k' (map_delete k m) = if decide (k = k') then None else map_get k' m.
Proof.
  unfold map_delete. induction m as [|[k2 v2] m IH]; simpl; [by case_decide|].
  destruct (bool_decide_reflect (k2 = k)) as [->|Hne]; simpl.
  - rewrite IH. case_decide; [done|]. by rewrite decide_False by congruence.
  - destruct (decide (k' = k2)) as [->|]; [by rewrite decide_False by congruence|done].
Qed.

Lemma map_delete_keys k m :
  map_keys (map_delete k m) = List.filter (fun k' => negb (bool_decide (k' = k))) (map_keys m).
Proof.
  unfold map_keys, map_delete. induction m as [|[k2 v2] m IH]; simpl; [done|].
  destruct (bool_decide (k2 = k)); simpl; by rewrite IH.
Qed.

Lemma NoDup_list_filter {A} (p : A -> bool) (l : list A) : NoDup l -> NoDup (List.filter p l).
Proof.
  rewrite !NoDup_ListNoDup. apply List.NoDup_filter.
Qed.

Lemma map_delete_NoDup k m : NoDup (map_keys m) -> NoDup (map_keys (map_delete k m)).
Proof. intros H. rewrite map_delete_keys. by apply NoDup_list_filter. Qed.

Lemma map_of_NoDup_gen entries m :
  NoDup (map_keys m) -> NoDup (map_keys (fold_left (fun m e => map_set e.1 e.2 m) entries m)).
Proof.
  revert m; induction entries as [|[k v] es IH]; intros m H; simpl; [done|].
  apply IH. by apply map_set_NoDup.
Qed.

Lemma map_of_NoDup entries : NoDup (map_keys (map_of entries)).
Proof. apply map_of_NoDup_gen. constructor. Qed.
End JsMap.

#[export] Hint Resolve map_set_NoDup map_delete_NoDup map_of_NoDup : maple.
#[export] Hint Rewrite @map_get_set_eq @map_delete_get : maple.

(** ** Tactics *)

(** Turns boolean tests of the code into propositions and closes arithmetic. *)
Ltac bool_to_prop :=
  repeat match goal with
  | H : (_ && _)%bool = true |- _ => apply andb_true_iff in H as [? ?]
  | H : (_ || _)%bool = false |- _ => apply orb_false_iff in H as [? ?]
  | H : negb _ = true |- _ => apply negb_true_iff in H
  | H : negb _ = false |- _ => apply negb_false_iff in H
  | H : bool_decide _ = true |- _ => apply bool_decide_eq_true in H
  | H : bool_decide _ = false |- _ => apply bool_decide_eq_false in H
  | H : (_ <=? _) = true |- _ => apply Z.leb_le in H
  | H : (_ <=? _) = false |- _ => apply Z.leb_gt in H
  | H : (_ <? _) = true |- _ => apply Z.ltb_lt in H
  | H : (_ <? _) = false |- _ => apply Z.ltb_ge in H
  | H : (_ =? _) = true |- _ => apply Z.eqb_eq in H
  | H : (_ =? _) = false |- _ => apply Z.eqb_neq in H
  end.

(** Splits the tests in the goal, keeping what each branch assumes. *)
Ltac case_tests :=
  repeat match goal with
  | |- context [ if ?b then _ else _ ] =>
      match type of b with bool => destruct b eqn:? end
  end; bool_to_prop.
