(* ===== verification/JsNum.v ===== *)
(** * JavaScript numbers

    A JavaScript [number] is an IEEE 754 binary64 value. Where the code compares
    or rounds measured values the model keeps them as such, with Stdlib's
    [spec_float] (53 bits of precision, exponent bound 1024); counters,
    positions and epoch milliseconds are integers far below 2^53, where binary64
    arithmetic is exact, and are modelled as [Z]. *)

From stdpp Require Import prelude.
From Stdlib Require Import ZArith Lia Floats.SpecFloat.
From S2P Require Import Prelude.

Definition num := spec_float.

Definition num_prec : Z := 53.
Definition num_emax : Z := 1024.

(** The number an integer literal denotes. *)
Definition num_of_Z (z : Z) : num := binary_normalize num_prec num_emax z 0 false.

Definition num_eqb (x y : num) : bool := SFeqb x y.
Definition num_ltb (x y : num) : bool := SFltb x y.
Definition num_leb (x y : num) : bool := SFleb x y.
Definition num_gtb (x y : num) : bool := SFltb y x.
Definition num_geb (x y : num) : bool := SFleb y x.

Definition num_is_nan (x : num) : bool :=
  match x with S754_nan => true | _ => false end.

(** [Number.isFinite]. *)
Definition num_is_finite (x : num) : bool :=
  match x with S754_zero _ | S754_finite _ _ _ => true | _ => false end.

Definition num_div (x y : num) : num := SFdiv num_prec num_emax x y.

Definition num_mul (x y : num) : num := SFmul num_prec num_emax x y.

Definition num_add (x y : num) : num := SFadd num_prec num_emax x y.

(** [Math.max] of two numbers that are not [NaN]. *)
Definition num_max (x y : num) : num := if num_ltb x y then y else x.

(** [Math.round]: the nearest integer, halves towards positive infinity; a zero
    result keeps the argument's sign. A finite number with a non-negative
    exponent is an integer already; below that [floor (m * 2^e + 1/2)] is a
    quotient by [2^(1-e)]. *)
Definition num_round (x : num) : num :=
  match x with
  | S754_finite s m e =>
      if 0 <=? e then x
      else
        let v := if s then Z.neg m else Z.pos m in
        match (2 * v + 2 ^ (- e)) / 2 ^ (1 - e) with
        | 0 => S754_zero s
        | z => num_of_Z z
        end
  | _ => x
  end.

(** ** Order *)

Lemma SFcompare_nan_l x y : num_is_nan x = true -> SFcompare x y = None.
Proof. by destruct x. Qed.

Lemma SFcompare_nan_r x y : num_is_nan y = true -> SFcompare x y = None.
Proof. by destruct x, y. Qed.

Lemma SFcompare_Some x y :
  num_is_nan x = false -> num_is_nan y = false -> exists c, SFcompare x y = Some c.
Proof. destruct x, y; simpl; eauto; done. Qed.

Lemma SFcompare_swap x y : SFcompare y x = option_map CompOpp (SFcompare x y).
Proof.
  destruct x as [sx|sx| |sx mx ex], y as [sy|sy| |sy my ey]; try done;
    try (by destruct sx); try (by destruct sy); try (by destruct sx, sy).
  simpl. destruct sx, sy; simpl; try done;
    rewrite (Z.compare_antisym ex ey);
    destruct (Z.compare_spec ex ey); simpl; try done.
  all: change (PosDef.Pos.compare_cont Eq) with Pos.compare;
    rewrite (Pos.compare_antisym mx my); by destruct (Pos.compare mx my).
Qed.

(** The comparison of non-NaN numbers is the lexicographic comparison of these
    integer keys. *)
Definition num_key (x : num) : Z * Z * Z :=
  match x with
  | S754_zero _ => (0, 0, 0)
  | S754_infinity s => (if s then -2 else 2, 0, 0)
  | S754_finite s m e => if s then (-1, - e, Z.neg m) else (1, e, Z.pos m)
  | S754_nan => (3, 0, 0)
  end.

Definition key_compare (a b : Z * Z * Z) : comparison :=
  match a.1.1 ?= b.1.1 with
  | Eq => match a.1.2 ?= b.1.2 with Eq => a.2 ?= b.2 | c => c end
  | c => c
  end.

Lemma SFcompare_key x y :
  num_is_nan x = false -> num_is_nan y = false ->
  SFcompare x y = Some (key_compare (num_key x) (num_key y)).
Proof.
  destruct x as [sx|sx| |sx mx ex], y as [sy|sy| |sy my ey]; try done; intros _ _;
    try (by destruct sx); try (by destruct sy); try (by destruct sx, sy).
  destruct sx, sy; try done; unfold key_compare; cbn [num_key fst snd SFcompare].
  rewrite !Z.compare_refl, Z.compare_opp, (Z.compare_antisym ex ey).
  by destruct (Z.compare_spec ex ey).
Qed.

Lemma key_compare_Lt a b :
  key_compare a b = Lt <->
  a.1.1 < b.1.1 \/ a.1.1 = b.1.1 /\ (a.1.2 < b.1.2 \/ a.1.2 = b.1.2 /\ a.2 < b.2).
Proof.
  unfold key_compare.
  destruct (Z.compare_spec a.1.1 b.1.1); [|split; [lia|done]|split; [done|lia]].
  destruct (Z.compare_spec a.1.2 b.1.2); [|split; [lia|done]|split; [done|lia]].
  destruct (Z.compare_spec a.2 b.2); split; done || lia.
Qed.

Lemma key_compare_Gt a b : key_compare a b = Gt <-> key_compare b a = Lt.
Proof.
  rewrite key_compare_Lt. unfold key_compare.
  destruct (Z.compare_spec a.1.1 b.1.1); [|split; [done|lia]|split; [lia|done]].
  destruct (Z.compare_spec a.1.2 b.1.2); [|split; [done|lia]|split; [lia|done]].
  destruct (Z.compare_spec a.2 b.2); split; done || lia.
Qed.

Lemma num_ltb_key x y :
  num_ltb x y = true <->
  num_is_nan x = false /\ num_is_nan y = false /\ key_compare (num_key x) (num_key y) = Lt.
Proof.
  unfold num_ltb, SFltb. destruct (num_is_nan x) eqn:Hx.
  { rewrite SFcompare_nan_l by done. split; [done|]. by intros (? & _). }
  destruct (num_is_nan y) eqn:Hy.
  { rewrite SFcompare_nan_r by done. split; [done|]. by intros (_ & ? & _). }
  rewrite SFcompare_key by done.
  destruct (key_compare _ _); split; try done; by intros (_ & _ & ?).
Qed.

Lemma num_leb_key x y :
  num_leb x y = true <->
  num_is_nan x = false /\ num_is_nan y = false /\ key_compare (num_key x) (num_key y) <> Gt.
Proof.
  unfold num_leb, SFleb. destruct (num_is_nan x) eqn:Hx.
  { rewrite SFcompare_nan_l by done. split; [done|]. by intros (? & _). }
  destruct (num_is_nan y) eqn:Hy.
  { rewrite SFcompare_nan_r by done. split; [done|]. by intros (_ & ? & _). }
  rewrite SFcompare_key by done.
  destruct (key_compare _ _); split; try done; by intros (_ & _ & ?).
Qed.

Section Order.
Implicit Types x y z : num.

Lemma num_lt_le x y : num_ltb x y = true -> num_leb x y = true.
Proof.
  rewrite num_ltb_key, num_leb_key. intros (? & ? & H). rewrite H. done.
Qed.

Lemma num_lt_trans x y z :
  num_ltb x y = true -> num_ltb y z = true -> num_ltb x z = true.
Proof.
  rewrite !num_ltb_key, !key_compare_Lt. intros (? & ? & ?) (? & ? & ?).
  split_and!; [done..|lia].
Qed.

Lemma num_le_lt_trans x y z :
  num_leb x y = true -> num_ltb y z = true -> num_ltb x z = true.
Proof.
  rewrite num_leb_key, !num_ltb_key. rewrite key_compare_Gt.
  rewrite !key_compare_Lt. intros (? & ? & ?) (? & ? & ?). split_and!; [done..|lia].
Qed.

Lemma num_lt_le_trans x y z :
  num_ltb x y = true -> num_leb y z = true -> num_ltb x z = true.
Proof.
  rewrite num_leb_key, !num_ltb_key. rewrite key_compare_Gt.
  rewrite !key_compare_Lt. intros (? & ? & ?) (? & ? & ?). split_and!; [done..|lia].
Qed.

Lemma num_le_trans x y z :
  num_leb x y = true -> num_leb y z = true -> num_leb x z = true.
Proof.
  rewrite !num_leb_key. rewrite !key_compare_Gt.
  rewrite !key_compare_Lt. intros (? & ? & ?) (? & ? & ?). split_and!; [done..|lia].
Qed.

Lemma num_le_refl x : num_is_nan x = false -> num_leb x x = true.
Proof.
  intros H. rewrite num_leb_key, key_compare_Gt, key_compare_Lt. split_and!; [done..|lia].
Qed.

Lemma num_not_lt x y :
  num_is_nan x = false -> num_is_nan y = false -> num_ltb x y = false -> num_leb y x = true.
Proof.
  intros Hx Hy H. rewrite num_leb_key, key_compare_Gt. split_and!; [done..|].
  intros Hlt. assert (num_ltb x y = true) by by rewrite num_ltb_key. congruence.
Qed.

Lemma num_not_le x y :
  num_is_nan x = false -> num_is_nan y = false -> num_leb x y = false -> num_ltb y x = true.
Proof.
  intros Hx Hy H. rewrite num_ltb_key. split_and!; [done..|].
  rewrite <- key_compare_Gt. destruct (key_compare (num_key x) (num_key y)) eqn:E; [| |done];
    exfalso; assert (num_leb x y = true) by (rewrite num_leb_key, E; done); congruence.
Qed.

Lemma num_lt_asym x y : num_ltb x y = true -> num_leb y x = false.
Proof.
  intros H. destruct (num_leb y x) eqn:E; [|done].
  pose proof (num_lt_le_trans _ _ _ H E) as Hxx.
  rewrite num_ltb_key, key_compare_Lt in Hxx. lia.
Qed.

Lemma num_finite_not_nan x : num_is_finite x = true -> num_is_nan x = false.
Proof. by destruct x. Qed.
End Order.

Example num_round_half : map num_round
    [num_div (num_of_Z 5) (num_of_Z 2); num_div (num_of_Z (-5)) (num_of_Z 2);
     num_div (num_of_Z 12) (num_of_Z 5); num_div (num_of_Z (-1)) (num_of_Z 4)] =
  [num_of_Z 3; num_of_Z (-2); num_of_Z 2; S754_zero true].
Proof. vm_compute. reflexivity. Qed.
