(* ===== verification/AlertTiers.v ===== *)
(** * Alerting: severity tiers

    [packages/alerting-core/src/tiers.ts]: the comparators, the classification
    of one value against one tier, the tick history (two bits per tier) and the
    severity a history resolves to. *)

From stdpp Require Import prelude list.
From Stdlib Require Import ZArith Lia Sorting.Sorted Sorting.Permutation.
From S2P Require Import Prelude.
From S2P Require Import JsNum.

Open Scope Z_scope.

(** ** Data *)

Inductive severity := warning | critical.

#[export] Instance severity_eq_dec : EqDecision severity.
Proof. solve_decision. Defined.

Inductive comparator :=
  | cmp_gt | cmp_gte | cmp_lt | cmp_lte | cmp_eq | cmp_neq | cmp_between | cmp_not_between.

#[export] Instance comparator_eq_dec : EqDecision comparator.
Proof. solve_decision. Defined.

(** Where one tick leaves one tier. *)
Inductive tier_status := clear | hold | breach.

#[export] Instance tier_status_eq_dec : EqDecision tier_status.
Proof. solve_decision. Defined.

Record tier := {
  t_severity : severity;
  t_value : num;
  t_upper : option num;
  t_recovery : option num
}.

Record tier_level := { l_severity : severity; l_status : tier_status }.

Record tiered_policy := {
  breachesToOpen : Z;
  breachWindow : Z;
  healthyToResolve : Z
}.

(** [ALERT_SEVERITY_RANK] *)
Definition severity_rank (s : severity) : Z :=
  match s with warning => 1 | critical => 2 end.

(** ** Classification *)

Definition compareAlertThreshold (value : num) (c : comparator) (threshold : num)
    (thresholdUpper : option num) : bool :=
  match c with
  | cmp_gt => num_gtb value threshold
  | cmp_gte => num_geb value threshold
  | cmp_lt => num_ltb value threshold
  | cmp_lte => num_leb value threshold
  | cmp_eq => num_eqb value threshold
  | cmp_neq => negb (num_eqb value threshold)
  | cmp_between =>
      match thresholdUpper with
      | Some u => num_geb value threshold && num_leb value u
      | None => false
      end
  | cmp_not_between =>
      match thresholdUpper with
      | Some u => num_ltb value threshold || num_gtb value u
      | None => false
      end
  end.

Definition classifyTier (value : num) (c : comparator) (t : tier) : tier_status :=
  if compareAlertThreshold value c (t_value t) (t_upper t) then breach
  else
    match t_recovery t with
    | None => clear
    | Some r => if compareAlertThreshold value c r None then hold else clear
    end.

(** ** Tick codes *)

Definition STATUS_CODE (st : tier_status) : Z :=
  match st with clear => 0 | hold => 1 | breach => 2 end.

(** [CODE_STATUS[i] ?? "clear"] *)
Definition CODE_STATUS (i : Z) : tier_status :=
  match i with 1 => hold | 2 => breach | _ => clear end.

Definition shiftOf (s : severity) : Z := (severity_rank s - 1) * 2.

Definition encodeTick (levels : list tier_level) : Z :=
  fold_left
    (fun code level => js_or code (js_shl (STATUS_CODE (l_status level)) (shiftOf (l_severity level))))
    levels 0.

Definition tierStatusAt (code : Z) (s : severity) : tier_status :=
  CODE_STATUS (js_and (js_sar code (shiftOf s)) 3).

(** ** Histories *)

Definition historyLength (p : tiered_policy) : Z :=
  Z.max (Z.max (breachWindow p) (breachesToOpen p)) (healthyToResolve p).

Definition appendTick (history : list Z) (code : Z) (p : tiered_policy) : list Z :=
  js_slice_from (- historyLength p) (history ++ [code]).

Definition trailingRun (history : list Z) (matches : Z -> bool) : Z :=
  match find_last_index (fun code => negb (matches code)) history with
  | None => Z.of_nat (length history)
  | Some i => Z.of_nat (length history) - 1 - Z.of_nat i
  end.

Definition is_status (s : severity) (st : tier_status) (code : Z) : bool :=
  bool_decide (tierStatusAt code s = st).

Definition anyBreach (code : Z) : bool :=
  is_status warning breach code || is_status critical breach code.

Definition allClear (code : Z) : bool :=
  is_status warning clear code && is_status critical clear code.

(** The body of the loop over the tiers, highest first. *)
Fixpoint resolve_loop (ordered : list severity) (history recent : list Z) (newest : Z)
    (currentRank : Z) (p : tiered_policy) : option severity :=
  match ordered with
  | [] => None
  | s :: rest =>
      let breaches := Z.of_nat (length (List.filter (is_status s breach) recent)) in
      if is_status s breach newest && (breachesToOpen p <=? breaches) then Some s
      else if (severity_rank s <=? currentRank)
              && (trailingRun history (is_status s clear) <? healthyToResolve p)
      then Some s
      else resolve_loop rest history recent newest currentRank p
  end.

Definition rank_of (current : option severity) : Z :=
  match current with None => 0 | Some s => severity_rank s end.

Definition resolveActiveSeverity (history : list Z) (severities : list severity)
    (current : option severity) (p : tiered_policy) : option severity :=
  match at_last history with
  | None => current
  | Some newest =>
      let recent := js_slice_from (- breachWindow p) history in
      let ordered := js_sort (fun a b => severity_rank b - severity_rank a) severities in
      resolve_loop ordered history recent newest (rank_of current) p
  end.

Record counters := { c_breaches : Z; c_healthy : Z }.

Definition countersFromHistory (history : list Z) (p : tiered_policy) : counters := {|
  c_breaches := Z.min (trailingRun history anyBreach) (breachesToOpen p);
  c_healthy := Z.min (trailingRun history allClear) (healthyToResolve p)
|}.

Definition seedHistory (c : counters) (s : severity) (p : tiered_policy) : list Z :=
  let breach_code := encodeTick [{| l_severity := s; l_status := breach |}] in
  let ticks := js_array_of (c_healthy c) 0 ++ js_array_of (c_breaches c) breach_code in
  js_slice_from (- historyLength p) ticks.

(** ** Severities *)

(** [Arr.sort(tiers, alertSeverityOrder)] and the head of a non-empty array:
    the argument's first tier is separate, as the type demands one. *)
Definition sort_tiers (ts : list tier) : list tier :=
  js_sort (fun a b => severity_rank (t_severity a) - severity_rank (t_severity b)) ts.

Definition tierFor (t0 : tier) (ts : list tier) (s : severity) : tier :=
  match List.find (fun t => bool_decide (t_severity t = s)) (t0 :: ts) with
  | Some t => t
  | None => match sort_tiers (t0 :: ts) with t :: _ => t | [] => t0 end
  end.

Definition nearestSeverity (s : severity) (severities : list severity) : severity :=
  if bool_decide (s ∈ severities) then s
  else match severities with s0 :: _ => s0 | [] => s end.

Definition maxSeverity (a b : option severity) : option severity :=
  match a, b with
  | None, _ => b
  | _, None => a
  | Some x, Some y => if severity_rank y <=? severity_rank x then a else b
  end.

Definition highestBreachedLevel (levels : list tier_level) : option severity :=
  fold_left (fun highest level => maxSeverity highest (Some (l_severity level)))
    (List.filter (fun level => bool_decide (l_status level = breach)) levels) None.

(** ** Ranks and severities *)

Lemma severity_rank_inj s s' : severity_rank s = severity_rank s' -> s = s'.
Proof. by destruct s, s'. Qed.

Lemma severity_rank_pos s : 1 <= severity_rank s <= 2.
Proof. destruct s; simpl; lia. Qed.

Lemma maxSeverity_rank a b : rank_of (maxSeverity a b) = Z.max (rank_of a) (rank_of b).
Proof. by destruct a as [[]|], b as [[]|]. Qed.

(** ** Trailing runs and truncation *)

Section Runs.
Implicit Types (h : list Z) (m : Z -> bool) (p : tiered_policy).

Lemma trailingRun_nonneg h m : 0 <= trailingRun h m <= Z.of_nat (length h).
Proof.
  unfold trailingRun. destruct (find_last_index _ _) as [i|] eqn:E; [|lia].
  apply find_last_index_lt in E. lia.
Qed.

Lemma trailingRun_snoc h m c :
  trailingRun (h ++ [c]) m = if m c then trailingRun h m + 1 else 0.
Proof.
  unfold trailingRun. rewrite find_last_index_snoc, length_app. simpl.
  destruct (m c); simpl; [|lia]. destruct (find_last_index _ h); lia.
Qed.

Lemma trailingRun_nil m : trailingRun [] m = 0.
Proof. done. Qed.

Lemma trailingRun_drop h m k :
  (k <= length h)%nat ->
  trailingRun (drop k h) m = Z.min (trailingRun h m) (Z.of_nat (length h - k)).
Proof.
  intros Hk. unfold trailingRun. rewrite length_drop.
  set (q := fun code => negb (m code)).
  pose proof (find_last_index_app q (take k h) (drop k h)) as Happ.
  rewrite take_drop, length_take_le in Happ by done. rewrite Happ.
  destruct (find_last_index q (drop k h)) as [i|] eqn:E.
  - apply find_last_index_lt in E. rewrite length_drop in E. lia.
  - destruct (find_last_index q (take k h)) as [i|] eqn:E'; [|lia].
    apply find_last_index_lt in E'. rewrite length_take_le in E' by done. lia.
Qed.

Lemma trailingRun_replicate m n c h :
  m c = true -> trailingRun (h ++ replicate n c) m = trailingRun h m + Z.of_nat n.
Proof.
  intros Hm. induction n as [|n IH]; simpl; [rewrite app_nil_r; lia|].
  rewrite replicate_cons_app, app_assoc, trailingRun_snoc, Hm, IH. lia.
Qed.

Lemma trailingRun_stops m n c h :
  m c = false -> (0 < n)%nat -> trailingRun (h ++ replicate n c) m = 0.
Proof.
  intros Hm Hn. destruct n as [|n]; [lia|].
  by rewrite replicate_S_end, app_assoc, trailingRun_snoc, Hm.
Qed.

Lemma historyLength_bounds p :
  breachWindow p <= historyLength p /\ breachesToOpen p <= historyLength p /\
  healthyToResolve p <= historyLength p.
Proof. unfold historyLength. lia. Qed.

(** The history the scheduler keeps: what [appendTick] retains of [h]. *)
Definition kept p h : list Z := js_slice_from (- historyLength p) h.

Lemma kept_drop p h :
  0 < breachWindow p -> kept p h = drop (length h - Z.to_nat (historyLength p)) h.
Proof.
  intros Hw. pose proof (historyLength_bounds p). apply js_slice_from_neg. lia.
Qed.

Lemma kept_run_lt p h m (n : Z) :
  0 < breachWindow p -> n <= historyLength p ->
  Z.min (trailingRun (kept p h) m) n = Z.min (trailingRun h m) n.
Proof.
  intros Hw Hn. rewrite kept_drop by done. rewrite trailingRun_drop by lia.
  pose proof (trailingRun_nonneg h m). pose proof (historyLength_bounds p). lia.
Qed.

Lemma kept_recent p h :
  0 < breachWindow p ->
  js_slice_from (- breachWindow p) (kept p h) = js_slice_from (- breachWindow p) h.
Proof.
  intros Hw. pose proof (historyLength_bounds p).
  rewrite kept_drop, !js_slice_from_neg by lia.
  rewrite drop_drop, length_drop. f_equal. lia.
Qed.

Lemma kept_last p h : 0 < breachWindow p -> at_last (kept p h) = at_last h.
Proof.
  intros Hw. pose proof (historyLength_bounds p). apply last_js_slice_from. lia.
Qed.

Lemma appendTick_kept p h c :
  0 < breachWindow p -> appendTick (kept p h) c p = kept p (h ++ [c]).
Proof.
  intros Hw. pose proof (historyLength_bounds p).
  unfold appendTick, kept. rewrite !js_slice_from_neg by lia.
  rewrite !length_app, length_drop; simpl.
  rewrite !drop_app. f_equal; [rewrite drop_drop; f_equal; lia|].
  rewrite length_drop. f_equal. lia.
Qed.

Lemma length_kept p h :
  0 < breachWindow p -> Z.of_nat (length (kept p h)) <= historyLength p.
Proof.
  intros Hw. pose proof (historyLength_bounds p). unfold kept.
  rewrite length_js_slice_from by lia. lia.
Qed.

Lemma resolve_loop_kept p h ordered recent newest r :
  0 < breachWindow p ->
  resolve_loop ordered (kept p h) recent newest r p = resolve_loop ordered h recent newest r p.
Proof.
  intros Hw. induction ordered as [|s rest IH]; simpl; [done|]. rewrite IH.
  pose proof (kept_run_lt p h (is_status s clear) (healthyToResolve p) Hw).
  pose proof (historyLength_bounds p).
  replace (trailingRun (kept p h) (is_status s clear) <? healthyToResolve p)
    with (trailingRun h (is_status s clear) <? healthyToResolve p); [done|].
  apply eq_true_iff_eq. rewrite !Z.ltb_lt. lia.
Qed.

Lemma resolve_kept p h severities current :
  0 < breachWindow p ->
  resolveActiveSeverity (kept p h) severities current p =
  resolveActiveSeverity h severities current p.
Proof.
  intros Hw. unfold resolveActiveSeverity. rewrite kept_last by done.
  destruct (at_last h); [|done]. rewrite kept_recent by done.
  by apply resolve_loop_kept.
Qed.

Lemma counters_kept p h :
  0 < breachWindow p -> countersFromHistory (kept p h) p = countersFromHistory h p.
Proof.
  intros Hw. pose proof (historyLength_bounds p). unfold countersFromHistory.
  by rewrite !kept_run_lt by lia.
Qed.
End Runs.

(** ** Tick codes round-trip *)

Lemma NoDup_severities (l : list severity) :
  NoDup l -> l = [] \/ l = [warning] \/ l = [critical] \/
             l = [warning; critical] \/ l = [critical; warning].
Proof.
  intros H. destruct l as [|a l]; [by left|right].
  apply NoDup_cons in H as [Ha H].
  destruct l as [|b l].
  { destruct a; auto. }
  apply NoDup_cons in H as [Hb H].
  assert (a <> b) by set_solver.
  destruct l as [|c l]; [destruct a, b; auto; done|].
  exfalso. assert (a <> c) by set_solver. assert (b <> c) by set_solver.
  destruct a, b, c; congruence.
Qed.

Definition level_status (levels : list tier_level) (s : severity) : tier_status :=
  match List.find (fun l => bool_decide (l_severity l = s)) levels with
  | Some l => l_status l
  | None => clear
  end.

(** Decoding an encoded tick gives back every tier's status. *)
Theorem encodeTick_roundtrip (levels : list tier_level) (s : severity)
    (H : NoDup (map l_severity levels)) :
  tierStatusAt (encodeTick levels) s = level_status levels s.
Proof.
  apply NoDup_severities in H.
  destruct levels as [|[s1 st1] [|[s2 st2] [|]]]; simpl in H;
    destruct_or!; try discriminate; simplify_eq.
  all: destruct s; try destruct st1; try destruct st2; reflexivity.
Qed.

Example encodeTick_roundtrip_witness :
  NoDup [warning; critical] /\
  tierStatusAt (encodeTick [{| l_severity := warning; l_status := hold |};
                            {| l_severity := critical; l_status := breach |}]) critical = breach.
Proof.
  assert (H : NoDup [warning; critical]) by (repeat constructor; set_solver).
  split; [exact H|].
  exact (encodeTick_roundtrip [{| l_severity := warning; l_status := hold |};
                            {| l_severity := critical; l_status := breach |}] critical H).
Defined.

(** ** What a history resolves to *)

(** A tier is active when the newest tick breaches it and N of the last M do,
    or when it stood already and its last R ticks are not all clear. *)
Definition tier_active (h : list Z) (current : option severity) (p : tiered_policy)
    (s : severity) : bool :=
  match at_last h with
  | None => false
  | Some newest =>
      (is_status s breach newest &&
         (breachesToOpen p <=?
            Z.of_nat (length (List.filter (is_status s breach) (js_slice_from (- breachWindow p) h)))))
      || ((severity_rank s <=? rank_of current)
            && (trailingRun h (is_status s clear) <? healthyToResolve p))
  end.

Lemma resolve_loop_spec ordered h newest current p :
  at_last h = Some newest ->
  resolve_loop ordered h (js_slice_from (- breachWindow p) h) newest (rank_of current) p =
  List.find (tier_active h current p) ordered.
Proof.
  intros Hn. induction ordered as [|s rest IH]; simpl; [done|].
  rewrite IH. unfold tier_active at 2. rewrite Hn.
  destruct (is_status s breach newest && _); simpl; [done|].
  by destruct (_ && _).
Qed.

Lemma find_highest (f : severity -> bool) l s :
  StronglySorted (fun a b => severity_rank b - severity_rank a <= 0) l ->
  List.find f l = Some s <->
  s ∈ l /\ f s = true /\ forall s', s' ∈ l -> f s' = true -> severity_rank s' <= severity_rank s.
Proof.
  induction 1 as [|x l Hl IH Hx]; simpl.
  - split; [done|]. intros (? & _); set_solver.
  - rewrite Forall_forall in Hx. destruct (f x) eqn:Ef.
    + split.
      * intros [= <-]. split_and!; [set_solver|done|].
        intros s' [->|Hin]%elem_of_cons _; [lia|]. specialize (Hx _ Hin). simpl in Hx. lia.
      * intros (Hin & Hfs & Hmax). f_equal. apply severity_rank_inj.
        specialize (Hmax x ltac:(set_solver) Ef).
        apply elem_of_cons in Hin as [->|Hin]; [done|]. specialize (Hx _ Hin). simpl in Hx. lia.
    + rewrite IH. split.
      * intros (Hin & Hfs & Hmax). split_and!; [set_solver|done|].
        intros s' [->|Hin']%elem_of_cons Hfs'; [congruence|auto].
      * intros (Hin & Hfs & Hmax). split_and!; [|done|].
        -- apply elem_of_cons in Hin as [->|Hin]; [congruence|done].
        -- intros s' Hin' Hfs'. apply Hmax; [set_solver|done].
Qed.

Definition highest_first (a b : severity) : Z := severity_rank b - severity_rank a.

#[export] Instance highest_first_comparator : Comparator highest_first.
Proof. split; unfold highest_first; intros; lia. Qed.

Lemma resolveActiveSeverity_find h severities current p :
  h <> [] ->
  resolveActiveSeverity h severities current p =
  List.find (tier_active h current p) (js_sort highest_first severities).
Proof.
  intros H. unfold resolveActiveSeverity. destruct (at_last h) eqn:E.
  - by apply resolve_loop_spec.
  - apply last_None in E. done.
Qed.

(** Over a non-empty history the group's severity is the highest active
    tier of the rule, whatever order the rule lists its severities in, and none
    exactly when no tier is active. *)
Theorem resolveActiveSeverity_highest h severities current p (H : h <> []) :
  (forall s, resolveActiveSeverity h severities current p = Some s <->
     s ∈ severities /\ tier_active h current p s = true /\
     forall s', s' ∈ severities -> tier_active h current p s' = true ->
                severity_rank s' <= severity_rank s) /\
  (resolveActiveSeverity h severities current p = None <->
     forall s, s ∈ severities -> tier_active h current p s = false).
Proof.
  rewrite resolveActiveSeverity_find by done.
  pose proof (js_sort_sorted highest_first severities) as Hs. split.
  - intros s. rewrite (find_highest _ _ _ Hs). setoid_rewrite (elem_of_js_sort highest_first). done.
  - split.
    + intros Hn s Hin. apply (List.find_none _ _ Hn).
      by apply list_elem_of_In, elem_of_js_sort.
    + intros Hall. destruct (List.find _ _) as [s|] eqn:E; [|done].
      apply List.find_some in E as [Hin%list_elem_of_In Ht].
      rewrite elem_of_js_sort in Hin. by rewrite Hall in Ht.
Qed.

Definition policy_2of3 : tiered_policy :=
  {| breachesToOpen := 2; breachWindow := 3; healthyToResolve := 2 |}.

Example resolveActiveSeverity_highest_witness :
  [10; 0; 10] <> [] /\
  resolveActiveSeverity [10; 0; 10] [warning; critical] None policy_2of3 = Some critical.
Proof.
  split; [discriminate|].
  apply (proj1 (resolveActiveSeverity_highest [10; 0; 10] [warning; critical] None policy_2of3
                 ltac:(discriminate)) critical).
  split_and!; [set_solver|vm_compute; reflexivity|].
  intros s' _ _. destruct s'; simpl; lia.
Defined.

Lemma appendTick_fold p codes h0 :
  0 < breachWindow p ->
  fold_left (fun h c => appendTick h c p) codes (kept p h0) = kept p (h0 ++ codes).
Proof.
  intros Hw. revert h0. induction codes as [|c codes IH]; intros h0; simpl.
  - by rewrite app_nil_r.
  - rewrite appendTick_kept by done. rewrite IH. by rewrite <- app_assoc.
Qed.

Lemma kept_nil p : kept p [] = [].
Proof. unfold kept, js_slice_from. by destruct (Z.to_nat _). Qed.

(** C36: however many ticks a rule has seen, the bounded array the scheduler
    keeps (appending each tick with [appendTick]) never exceeds the policy's
    reach and resolves to the same severity and counters as the whole history. *)
Theorem bounded_history_suffices p severities current codes (H : 0 < breachWindow p) :
  let stored := fold_left (fun h c => appendTick h c p) codes [] in
  Z.of_nat (length stored) <= historyLength p /\
  resolveActiveSeverity stored severities current p =
    resolveActiveSeverity codes severities current p /\
  countersFromHistory stored p = countersFromHistory codes p.
Proof.
  cbv zeta. rewrite <- (kept_nil p), appendTick_fold by done. simpl.
  split_and!; [by apply length_kept|by apply resolve_kept|by apply counters_kept].
Qed.

Example bounded_history_suffices_witness :
  0 < breachWindow policy_2of3 /\
  fold_left (fun h c => appendTick h c policy_2of3) [0; 10; 10; 0; 10] [] = [10; 0; 10] /\
  resolveActiveSeverity [10; 0; 10] [warning; critical] None policy_2of3 =
    resolveActiveSeverity [0; 10; 10; 0; 10] [warning; critical] None policy_2of3.
Proof.
  split; [reflexivity|]. split; [vm_compute; reflexivity|].
  exact (proj1 (proj2 (bounded_history_suffices policy_2of3 [warning; critical] None
                         [0; 10; 10; 0; 10] ltac:(reflexivity)))).
Defined.

(** ** Rows written before histories existed *)

Lemma single_breach_status s s' st :
  is_status s' st (encodeTick [{| l_severity := s; l_status := breach |}]) =
  bool_decide (st = if decide (s = s') then breach else clear).
Proof. by destruct s, s', st. Qed.

(** The history seeded for a row that only has counters counts back to
    exactly those counters, for the trailing runs a row can hold (at most one
    is positive, each within its requirement). *)
Theorem seedHistory_replays c s p
    (Hw : 0 < breachWindow p)
    (Hb : 0 <= c_breaches c <= breachesToOpen p)
    (Hh : 0 <= c_healthy c <= healthyToResolve p)
    (H1 : c_breaches c = 0 \/ c_healthy c = 0) :
  countersFromHistory (seedHistory c s p) p = c.
Proof.
  unfold seedHistory. fold (kept p (js_array_of (c_healthy c) 0 ++
    js_array_of (c_breaches c) (encodeTick [{| l_severity := s; l_status := breach |}]))).
  rewrite counters_kept by done. destruct c as [b h]; simpl in *.
  unfold countersFromHistory, js_array_of. set (code := encodeTick _).
  assert (Hbr : anyBreach code = true) by (by destruct s).
  assert (Hcl : allClear code = false) by (by destruct s).
  destruct H1 as [-> | ->]; simpl; rewrite ?app_nil_r.
  - rewrite <- (app_nil_l (replicate (Z.to_nat h) 0)).
    rewrite (trailingRun_replicate allClear) by done.
    destruct (decide (h = 0)) as [->|Hn].
    + simpl. rewrite !trailingRun_nil. f_equal; lia.
    + rewrite (trailingRun_stops anyBreach) by (done || lia).
      rewrite trailingRun_nil. f_equal; lia.
  - rewrite <- (app_nil_l (replicate (Z.to_nat b) code)).
    rewrite (trailingRun_replicate anyBreach) by done.
    destruct (decide (b = 0)) as [->|Hn].
    + simpl. rewrite !trailingRun_nil. f_equal; lia.
    + rewrite (trailingRun_stops allClear) by (done || lia).
      rewrite trailingRun_nil. f_equal; lia.
Qed.

Example seedHistory_replays_witness :
  countersFromHistory (seedHistory {| c_breaches := 2; c_healthy := 0 |} critical policy_2of3)
    policy_2of3 = {| c_breaches := 2; c_healthy := 0 |}.
Proof.
  apply (seedHistory_replays {| c_breaches := 2; c_healthy := 0 |} critical policy_2of3);
    simpl; lia.
Defined.
