(* ===== verification/Hysteresis.v ===== *)
(** * Alerting: the breach and recovery hysteresis

    [packages/alerting-core/src/hysteresis.ts]: the state machine both incident
    paths fold their observations through. The states, the transitions and the
    emitted events are those of [IncidentHysteresis]; [plan] is the handler the
    machine runs for one event, and [foldObservation] rebuilds the machine's
    snapshot from a stored row, plans one event and reads the row back. *)

From stdpp Require Import prelude list.
From Stdlib Require Import ZArith Lia.
From S2P Require Import Prelude.

Open Scope Z_scope.

(** ** The machine *)

Record config := {
  cfg_breachesToOpen : Z;
  cfg_healthyToResolve : Z;
  cfg_cooldownMs : Z
}.

Inductive state :=
  | Clear (consecutiveHealthy : Z) (cooldownUntilMs : option Z)
  | Breaching (consecutiveBreaches : Z) (cooldownUntilMs : option Z)
  | Open (consecutiveBreaches consecutiveHealthy : Z).

Inductive event :=
  | Breached (nowMs : Z) (cfg : config)
  | Recovered (nowMs : Z) (cfg : config)
  | Skipped.

Inductive emit :=
  | IncidentOpened (atMs : Z)
  | IncidentResolved (atMs : Z).

Definition cooling (untilMs : option Z) (nowMs : Z) : bool :=
  match untilMs with Some u => nowMs <? u | None => false end.

Definition carryCooldown (untilMs : option Z) (nowMs : Z) : option Z :=
  if cooling untilMs nowMs then untilMs else None.

Definition initial_state : state := Clear 0 None.

(** The [breach] branches shared by [Clear] and [Breaching]. *)
Definition breach_branch (consecutiveBreaches : Z) (cooldown : option Z) (nowMs : Z)
    (cfg : config) : state * list emit :=
  if (cfg_breachesToOpen cfg <=? consecutiveBreaches) && negb (cooling cooldown nowMs)
  then (Open consecutiveBreaches 0, [IncidentOpened nowMs])
  else (Breaching consecutiveBreaches (carryCooldown cooldown nowMs), []).

(** [IncidentHysteresis.handle]: the next state and the emitted events. *)
Definition plan (s : state) (e : event) : state * list emit :=
  match s, e with
  | _, Skipped => (s, [])
  | Clear _ cd, Breached now cfg =>
      breach_branch (Z.min 1 (cfg_breachesToOpen cfg)) cd now cfg
  | Clear h cd, Recovered now cfg =>
      (Clear (Z.min (h + 1) (cfg_healthyToResolve cfg)) (carryCooldown cd now), [])
  | Breaching b cd, Breached now cfg =>
      breach_branch (Z.min (b + 1) (cfg_breachesToOpen cfg)) cd now cfg
  | Breaching _ cd, Recovered now cfg =>
      (Clear (Z.min 1 (cfg_healthyToResolve cfg)) (carryCooldown cd now), [])
  | Open b h, Breached now cfg =>
      (Open (Z.min (b + 1) (cfg_breachesToOpen cfg)) 0, [])
  | Open b h, Recovered now cfg =>
      let consecutiveHealthy := Z.min (h + 1) (cfg_healthyToResolve cfg) in
      if consecutiveHealthy <? cfg_healthyToResolve cfg
      then (Open 0 consecutiveHealthy, [])
      else (Clear consecutiveHealthy
              (if 0 <? cfg_cooldownMs cfg then Some (now + cfg_cooldownMs cfg) else None),
            [IncidentResolved now])
  end.

(** ** Rows *)

Record row := {
  r_breaches : Z;
  r_healthy : Z;
  r_open : bool;
  r_lastResolvedAtMs : option Z
}.

Inductive transition := t_open | t_continue | t_resolve | t_noop.

#[export] Instance transition_eq_dec : EqDecision transition.
Proof. solve_decision. Defined.

Record outcome := {
  o_transition : transition;
  o_breaches : Z;
  o_healthy : Z
}.

Inductive status := breached | healthy | skipped.

#[export] Instance status_eq_dec : EqDecision status.
Proof. solve_decision. Defined.

Definition snapshotFrom (r : row) (cfg : config) : state :=
  let cooldownUntilMs :=
    match r_lastResolvedAtMs r with
    | Some at_ms => if 0 <? cfg_cooldownMs cfg then Some (at_ms + cfg_cooldownMs cfg) else None
    | None => None
    end in
  if r_open r then Open (r_breaches r) (r_healthy r)
  else if 0 <? r_breaches r then Breaching (r_breaches r) cooldownUntilMs
  else Clear (r_healthy r) cooldownUntilMs.

Definition countersOf (s : state) : Z * Z :=
  match s with
  | Clear h _ => (0, h)
  | Breaching b _ => (b, 0)
  | Open b h => (b, h)
  end.

Definition is_opened (e : emit) : bool :=
  match e with IncidentOpened _ => true | _ => false end.
Definition is_resolved (e : emit) : bool :=
  match e with IncidentResolved _ => true | _ => false end.

Definition event_of (st : status) (cfg : config) (nowMs : Z) : event :=
  match st with
  | skipped => Skipped
  | breached => Breached nowMs cfg
  | healthy => Recovered nowMs cfg
  end.

Definition foldObservation (r : row) (st : status) (cfg : config) (nowMs : Z) : outcome :=
  let snapshot := snapshotFrom r cfg in
  let '(next, emitted) := plan snapshot (event_of st cfg nowMs) in
  let '(b, h) := countersOf next in
  let transition :=
    if existsb is_opened emitted then t_open
    else if existsb is_resolved emitted then t_resolve
    else if r_open r && bool_decide (st = breached) then t_continue
    else t_noop in
  {| o_transition := transition; o_breaches := b; o_healthy := h |}.

(** ** The abstract contract

    What the module promises, without counters or machine states: it remembers
    every observation (newest first), opens after N breaching ones in a row
    unless a cooldown runs, and resolves after M healthy ones in a row. A
    skipped window is evidence of nothing. *)

Section Contract.
Variable cfg : config.

Record spec_state := {
  sp_seen : list bool;
  sp_open : bool;
  sp_resolvedAt : option Z
}.

Definition spec_init : spec_state :=
  {| sp_seen := []; sp_open := false; sp_resolvedAt := None |}.

(** The run of [b] at the newest end. *)
Fixpoint leading_run (b : bool) (seen : list bool) : Z :=
  match seen with
  | [] => 0
  | x :: rest => if Bool.eqb x b then 1 + leading_run b rest else 0
  end.

(** No opening while less than [cooldownMs] has passed since the last resolve. *)
Definition quiet (resolvedAt : option Z) (nowMs : Z) : bool :=
  match resolvedAt with
  | Some r => (0 <? cfg_cooldownMs cfg) && (nowMs <? r + cfg_cooldownMs cfg)
  | None => false
  end.

(** One observation: its status, the tick's time, and whether the host grants
    an opening this tick (it may defer one when its budget is spent). *)
Record observation := { ob_status : status; ob_nowMs : Z; ob_grant : bool }.

Definition spec_step (s : spec_state) (o : observation) : spec_state * transition :=
  match ob_status o with
  | skipped => (s, t_noop)
  | breached =>
      let seen := true :: sp_seen s in
      if sp_open s then ({| sp_seen := seen; sp_open := true; sp_resolvedAt := sp_resolvedAt s |}, t_continue)
      else if (cfg_breachesToOpen cfg <=? leading_run true seen)
              && negb (quiet (sp_resolvedAt s) (ob_nowMs o))
      then ({| sp_seen := seen; sp_open := ob_grant o; sp_resolvedAt := sp_resolvedAt s |}, t_open)
      else ({| sp_seen := seen; sp_open := false; sp_resolvedAt := sp_resolvedAt s |}, t_noop)
  | healthy =>
      let seen := false :: sp_seen s in
      if sp_open s && (cfg_healthyToResolve cfg <=? leading_run false seen)
      then ({| sp_seen := seen; sp_open := false; sp_resolvedAt := Some (ob_nowMs o) |}, t_resolve)
      else ({| sp_seen := seen; sp_open := sp_open s; sp_resolvedAt := sp_resolvedAt s |}, t_noop)
  end.

(** The host around [foldObservation]: it stores the counters, marks an
    incident open when it grants the opening, and stamps a resolve. *)
Definition store (r : row) (out : outcome) (o : observation) : row := {|
  r_breaches := o_breaches out;
  r_healthy := o_healthy out;
  r_open := match o_transition out with
            | t_open => ob_grant o
            | t_resolve => false
            | t_continue | t_noop => r_open r
            end;
  r_lastResolvedAtMs := match o_transition out with
                        | t_resolve => Some (ob_nowMs o)
                        | _ => r_lastResolvedAtMs r
                        end
|}.

Definition row_init : row :=
  {| r_breaches := 0; r_healthy := 0; r_open := false; r_lastResolvedAtMs := None |}.

Definition row_step (r : row) (o : observation) : row * transition :=
  let out := foldObservation r (ob_status o) cfg (ob_nowMs o) in
  (store r out o, o_transition out).

Fixpoint run {S} (step : S -> observation -> S * transition) (s : S)
    (obs : list observation) : list transition :=
  match obs with
  | [] => []
  | o :: rest => let '(s', t) := step s o in t :: run step s' rest
  end.

Lemma leading_run_nonneg b seen : 0 <= leading_run b seen.
Proof. induction seen as [|x l IH]; simpl; [lia|]. destruct (Bool.eqb x b); lia. Qed.

Lemma leading_run_exclusive seen : leading_run true seen = 0 \/ leading_run false seen = 0.
Proof. destruct seen as [|[] l]; simpl; auto. Qed.

Hypothesis Hn : 1 <= cfg_breachesToOpen cfg.
Hypothesis Hm : 1 <= cfg_healthyToResolve cfg.

(** The stored row against the contract's memory. *)
Record row_rel (r : row) (s : spec_state) : Prop := {
  rel_b : r_breaches r = Z.min (leading_run true (sp_seen s)) (cfg_breachesToOpen cfg);
  rel_h : r_healthy r = Z.min (leading_run false (sp_seen s)) (cfg_healthyToResolve cfg);
  rel_open : r_open r = sp_open s;
  rel_resolved : r_lastResolvedAtMs r = sp_resolvedAt s
}.

Lemma row_rel_init : row_rel row_init spec_init.
Proof. split; simpl; lia || done. Qed.

Lemma cooling_quiet r now :
  cooling (match r with
           | Some at_ms => if 0 <? cfg_cooldownMs cfg then Some (at_ms + cfg_cooldownMs cfg) else None
           | None => None
           end) now = quiet r now.
Proof. destruct r; simpl; [|done]. by destruct (0 <? _). Qed.

Lemma row_step_rel r s o :
  row_rel r s ->
  row_rel (row_step r o).1 (spec_step s o).1 /\ (row_step r o).2 = (spec_step s o).2.
Proof.
  intros [Hb Hh Ho Hr]. destruct r as [b h op lr], s as [seen sop sr], o as [st now g].
  simpl in *; subst.
  pose proof (leading_run_nonneg true seen). pose proof (leading_run_nonneg false seen).
  pose proof (leading_run_exclusive seen).
  unfold row_step, foldObservation, snapshotFrom. simpl.
  destruct st; simpl; unfold spec_step; simpl.
  (* breached *)
  - destruct sop; simpl.
    + split; [split; simpl; lia || done|done].
    + assert (Hq : forall b' cd, b' = Z.min (1 + leading_run true seen) (cfg_breachesToOpen cfg) ->
        cooling cd now = quiet sr now ->
        breach_branch b' cd now cfg =
        if (cfg_breachesToOpen cfg <=? 1 + leading_run true seen) && negb (quiet sr now)
        then (Open b' 0, [IncidentOpened now])
        else (Breaching b' (carryCooldown cd now), [])).
      { intros b' cd -> Hc. unfold breach_branch. rewrite Hc.
        replace (cfg_breachesToOpen cfg <=? Z.min (1 + leading_run true seen) (cfg_breachesToOpen cfg))
          with (cfg_breachesToOpen cfg <=? 1 + leading_run true seen); [done|].
        apply eq_true_iff_eq. rewrite !Z.leb_le. lia. }
      destruct (Z.ltb_spec 0 (Z.min (leading_run true seen) (cfg_breachesToOpen cfg)));
        simpl; rewrite Hq by (apply cooling_quiet || lia);
        destruct (_ && _); simpl; (split; [split; simpl; lia || done|done]).
  (* healthy *)
  - destruct sop; simpl.
    + replace (cfg_healthyToResolve cfg <=? 1 + leading_run false seen)
        with (negb (Z.min (Z.min (leading_run false seen) (cfg_healthyToResolve cfg) + 1)
                      (cfg_healthyToResolve cfg) <? cfg_healthyToResolve cfg))
        by (apply eq_true_iff_eq; rewrite negb_true_iff, Z.ltb_ge, Z.leb_le; lia).
      destruct (_ <? cfg_healthyToResolve cfg); simpl;
        (split; [split; simpl; lia || done|done]).
    + destruct (Z.ltb_spec 0 (Z.min (leading_run true seen) (cfg_breachesToOpen cfg)));
        simpl; (split; [split; simpl; lia || done|done]).
  (* skipped *)
  - destruct sop; simpl; [split; [split; simpl; lia || done|done]|].
    destruct (Z.ltb_spec 0 (Z.min (leading_run true seen) (cfg_breachesToOpen cfg)));
      simpl; (split; [split; simpl; lia || done|done]).
Qed.

Lemma run_rel obs r s : row_rel r s -> run row_step r obs = run spec_step s obs.
Proof.
  revert r s. induction obs as [|o obs IH]; intros r s Hrel; cbn [run]; [done|].
  destruct (row_step_rel _ _ o Hrel) as [Hrel' Ht].
  destruct (row_step r o) as [r' t], (spec_step s o) as [s' t']. cbn [fst snd] in *.
  rewrite Ht. f_equal. by apply IH.
Qed.

(** C9: over any sequence of observations, with any openings the host defers,
    folding each one into the stored row gives exactly the transitions of the
    contract: N breaches in a row outside the cooldown open, M healthy ones
    in a row resolve, and skipped windows change nothing. *)
Theorem hysteresis_refines_contract (obs : list observation) :
  run row_step row_init obs = run spec_step spec_init obs.
Proof. apply run_rel, row_rel_init. Qed.
End Contract.

Definition config_2_2_cool : config :=
  {| cfg_breachesToOpen := 2; cfg_healthyToResolve := 2; cfg_cooldownMs := 1000 |}.

Definition obs_demo : list observation :=
  let o st now := {| ob_status := st; ob_nowMs := now; ob_grant := true |} in
  [o breached 1; o skipped 2; o breached 3; o healthy 4; o healthy 5; o breached 6; o breached 7;
   o breached 1005].

Example hysteresis_refines_contract_witness :
  run (row_step config_2_2_cool) row_init obs_demo =
    [t_noop; t_noop; t_open; t_noop; t_resolve; t_noop; t_noop; t_open].
Proof.
  rewrite (hysteresis_refines_contract config_2_2_cool ltac:(simpl; lia) ltac:(simpl; lia) obs_demo).
  vm_compute. reflexivity.
Defined.
