(* ===== verification/AlertLifecycle.v ===== *)
(** * Alerting: evaluation and lifecycle

    [packages/alerting-core/src/index.ts]: the verdict on one observation, the
    plan for one evaluated tick, delivery retries and the fair order of a
    tick's rules. Times are epoch milliseconds as [Z]; measured values are
    JavaScript numbers. A verdict's [reason] text is kept as the values it
    interpolates. *)

From stdpp Require Import prelude list strings.
From Stdlib Require Import ZArith Lia Sorting.Permutation QArith.Qround.
From S2P Require Import Prelude.
From S2P Require Import JsNum.
From S2P Require Import AlertTiers.
From S2P Require Import Hysteresis.

Open Scope Z_scope.

(** ** Evaluation *)

Record alert_observation := {
  obs_value : option num;
  obs_sampleCount : num;
  obs_hasData : bool
}.

Inductive no_data_behavior := nd_skip | nd_zero | nd_alert.

#[export] Instance no_data_behavior_eq_dec : EqDecision no_data_behavior.
Proof. solve_decision. Defined.

Record evaluation_policy := {
  ep_comparator : comparator;
  ep_threshold : num;
  ep_thresholdUpper : option num;
  ep_tiers : list tier;
  ep_minimumSampleCount : num;
  ep_noDataBehavior : no_data_behavior
}.

Inductive skip_reason := no_data | below_min_samples | no_value.

#[export] Instance skip_reason_eq_dec : EqDecision skip_reason.
Proof. solve_decision. Defined.

Inductive reason_text :=
  | reason_given (text : string)
  | reason_no_data
  | reason_below_minimum (sampleCount minimum : num)
  | reason_no_scalar.

Record evaluation := {
  ev_status : status;
  ev_value : option num;
  ev_sampleCount : num;
  ev_threshold : num;
  ev_thresholdUpper : option num;
  ev_comparator : comparator;
  ev_reason : reason_text;
  ev_skipReason : option skip_reason;
  ev_derivedFromNoData : bool;
  ev_levels : list tier_level
}.

Definition evaluateAlertObservation (policy : evaluation_policy) (o : alert_observation)
    (reason : string) : evaluation :=
  let sampleCount := num_round (obs_sampleCount o) in
  let value :=
    if obs_hasData o then
      match obs_value o with
      | Some v => if num_is_finite v then Some v else None
      | None => None
      end
    else if bool_decide (ep_noDataBehavior policy = nd_zero) then Some (num_of_Z 0)
    else None in
  let verdict st v why skip derived levels := {|
    ev_status := st; ev_value := v; ev_sampleCount := sampleCount;
    ev_threshold := ep_threshold policy; ev_thresholdUpper := ep_thresholdUpper policy;
    ev_comparator := ep_comparator policy; ev_reason := why; ev_skipReason := skip;
    ev_derivedFromNoData := derived; ev_levels := levels |} in
  if negb (obs_hasData o) && bool_decide (ep_noDataBehavior policy = nd_skip) then
    verdict skipped None reason_no_data (Some no_data) false []
  else if negb (obs_hasData o) && bool_decide (ep_noDataBehavior policy = nd_alert) then
    verdict breached None reason_no_data None true
      (map (fun t => {| l_severity := t_severity t; l_status := breach |}) (ep_tiers policy))
  else if num_ltb sampleCount (ep_minimumSampleCount policy) then
    verdict skipped value (reason_below_minimum sampleCount (ep_minimumSampleCount policy))
      (Some below_min_samples) false []
  else
    match value with
    | None => verdict skipped None reason_no_scalar (Some no_value) false []
    | Some v =>
        let levels :=
          map (fun t => {| l_severity := t_severity t;
                           l_status := classifyTier v (ep_comparator policy) t |})
              (ep_tiers policy) in
        verdict (if existsb (fun l => bool_decide (l_status l = breach)) levels
                 then breached else healthy)
          (Some v) (reason_given reason) None (negb (obs_hasData o)) levels
    end.

(** ** Lifecycle data *)

Inductive event_type := trigger | resolve | renotify | test.

#[export] Instance event_type_eq_dec : EqDecision event_type.
Proof. solve_decision. Defined.

Record lifecycle_policy := {
  lp_breachesRequired : Z;
  lp_breachWindow : Z;
  lp_healthyRequired : Z;
  lp_renotifyIntervalMinutes : Z;
  lp_severities : list severity
}.

Record lifecycle_state := {
  ls_breaches : Z;
  ls_healthy : Z;
  ls_history : list Z
}.

Record incident := {
  in_severity : severity;
  in_firstTriggeredAtMs : Z;
  in_lastNotifiedAtMs : option Z;
  in_lastDelivered : option event_type
}.

Inductive lifecycle_transition :=
  | lt_none | lt_opened | lt_continued | lt_escalated | lt_deescalated | lt_resolved.

#[export] Instance lifecycle_transition_eq_dec : EqDecision lifecycle_transition.
Proof. solve_decision. Defined.

Inductive suppression := flapping | flap_resolution.
Inductive hold_reason := missing_telemetry.

(** A stored state row: one written before histories existed has none. *)
Record stored_state := {
  ss_breaches : Z;
  ss_healthy : Z;
  ss_history : option (list Z)
}.

Record lifecycle_input := {
  li_policy : lifecycle_policy;
  li_evaluation : evaluation;
  li_state : option stored_state;
  li_openIncident : option incident;
  li_nowMs : Z;
  li_previousNotificationAtMs : option Z;
  li_allowNoDataResolution : bool
}.

Record lifecycle_plan := {
  pl_state : lifecycle_state;
  pl_transition : lifecycle_transition;
  pl_severity : option severity;
  pl_eventType : option event_type;
  pl_suppression : option suppression;
  pl_hold : option hold_reason;
  pl_inheritedNotificationAtMs : option Z;
  pl_advanceAnchor : bool
}.

Definition noTransition (state : lifecycle_state) (s : option severity)
    (hold : option hold_reason) : lifecycle_plan := {|
  pl_state := state; pl_transition := lt_none; pl_severity := s; pl_eventType := None;
  pl_suppression := None; pl_hold := hold; pl_inheritedNotificationAtMs := None;
  pl_advanceAnchor := false |}.

Definition resolutionPlan (state : lifecycle_state) (i : incident) : lifecycle_plan :=
  let flapResolutionSuppressed :=
    bool_decide (in_lastDelivered i = None) && bool_decide (is_Some (in_lastNotifiedAtMs i)) in
  {| pl_state := state; pl_transition := lt_resolved; pl_severity := None;
     pl_eventType := if flapResolutionSuppressed then None else Some resolve;
     pl_suppression := if flapResolutionSuppressed then Some flap_resolution else None;
     pl_hold := None; pl_inheritedNotificationAtMs := None; pl_advanceAnchor := false |}.

Definition hysteresis_of (p : lifecycle_policy) : tiered_policy := {|
  breachesToOpen := lp_breachesRequired p;
  breachWindow := lp_breachWindow p;
  healthyToResolve := lp_healthyRequired p |}.

(** The state a tick starts from: counters of a new group are zero, and a row
    without a history is replayed from its counters. *)
Definition previous_state (p : lifecycle_policy) (st : option stored_state)
    (current : option severity) : lifecycle_state :=
  let s0 := default {| ss_breaches := 0; ss_healthy := 0; ss_history := Some [] |} st in
  let seedSeverity :=
    match current with
    | Some s => s
    | None =>
        fold_left (fun highest s => default s (maxSeverity (Some highest) (Some s)))
          (lp_severities p) warning
    end in
  {| ls_breaches := ss_breaches s0;
     ls_healthy := ss_healthy s0;
     ls_history :=
       match ss_history s0 with
       | Some h => h
       | None => seedHistory {| c_breaches := ss_breaches s0; c_healthy := ss_healthy s0 |}
                   seedSeverity (hysteresis_of p)
       end |}.

Definition plan_closed (i : lifecycle_input) (state : lifecycle_state)
    (next : option severity) : lifecycle_plan :=
  match next with
  | None => noTransition state None None
  | Some s =>
      let previous := li_previousNotificationAtMs i in
      let flapSuppressed :=
        match previous with
        | Some at_ms => li_nowMs i - lp_renotifyIntervalMinutes (li_policy i) * 60000 <=? at_ms
        | None => false
        end in
      {| pl_state := state; pl_transition := lt_opened; pl_severity := Some s;
         pl_eventType := if flapSuppressed then None else Some trigger;
         pl_suppression := if flapSuppressed then Some flapping else None;
         pl_hold := None;
         pl_inheritedNotificationAtMs := if flapSuppressed then previous else None;
         pl_advanceAnchor := false |}
  end.

Definition plan_open (i : lifecycle_input) (state : lifecycle_state) (inc : incident)
    (current next : option severity) : lifecycle_plan :=
  let ev := li_evaluation i in
  match next with
  | None =>
      if ev_derivedFromNoData ev && negb (li_allowNoDataResolution i)
      then noTransition state current (Some missing_telemetry)
      else resolutionPlan state inc
  | Some s =>
      if negb (bool_decide (s = in_severity inc))
         && (negb (bool_decide (next = current)) || bool_decide (ev_status ev = breached))
      then
        let escalated := bool_decide (maxSeverity next (Some (in_severity inc)) = next) in
        {| pl_state := state;
           pl_transition := if escalated then lt_escalated else lt_deescalated;
           pl_severity := next;
           pl_eventType := Some (if escalated then trigger else renotify);
           pl_suppression := None; pl_hold := None; pl_inheritedNotificationAtMs := None;
           pl_advanceAnchor := true |}
      else if bool_decide (ev_status ev = breached) then
        let renotifyDueAt :=
          default (in_firstTriggeredAtMs inc) (in_lastNotifiedAtMs inc)
          + lp_renotifyIntervalMinutes (li_policy i) * 60000 in
        let renotifyDue := renotifyDueAt <=? li_nowMs i in
        {| pl_state := state; pl_transition := lt_continued; pl_severity := next;
           pl_eventType := if renotifyDue then Some renotify else None;
           pl_suppression := None; pl_hold := None; pl_inheritedNotificationAtMs := None;
           pl_advanceAnchor := renotifyDue |}
      else noTransition state next None
  end.

Definition planAlertLifecycle (i : lifecycle_input) : lifecycle_plan :=
  let ev := li_evaluation i in
  let p := li_policy i in
  let current :=
    option_map (fun inc => nearestSeverity (in_severity inc) (lp_severities p)) (li_openIncident i) in
  let hysteresis := hysteresis_of p in
  let previous := previous_state p (li_state i) current in
  match ev_status ev with
  | skipped =>
      match li_openIncident i with
      | Some inc =>
          if bool_decide (ev_skipReason ev = Some no_data) then
            if li_allowNoDataResolution i then resolutionPlan previous inc
            else noTransition previous current (Some missing_telemetry)
          else noTransition previous current None
      | None => noTransition previous current None
      end
  | _ =>
      let history := appendTick (ls_history previous) (encodeTick (ev_levels ev)) hysteresis in
      let c := countersFromHistory history hysteresis in
      let state := {| ls_breaches := c_breaches c; ls_healthy := c_healthy c; ls_history := history |} in
      let next := resolveActiveSeverity history (lp_severities p) current hysteresis in
      match li_openIncident i with
      | None => plan_closed i state next
      | Some inc => plan_open i state inc current next
      end
  end.

(** ** Delivery and fairness *)

Record retry_policy := {
  rp_maxAttempts : Z;
  rp_baseDelayMs : Z;
  rp_maxDelayMs : Z
}.

Definition DEFAULT_ALERT_DELIVERY_RETRY_POLICY : retry_policy :=
  {| rp_maxAttempts := 5; rp_baseDelayMs := 60000; rp_maxDelayMs := 15 * 60000 |}.

Definition canRetryAlertDelivery (attemptNumber : Z) (retryable : bool) (p : retry_policy) : bool :=
  retryable && (attemptNumber <? rp_maxAttempts p).

(** The host's jitter is a finite fraction of a millisecond, a rational. *)
Definition alertDeliveryRetryDelayMs (attemptNumber : Z) (jitterMs : QArith_base.Q)
    (p : retry_policy) : Z :=
  let exponent := Z.max 0 (attemptNumber - 1) in
  let base := Z.min (rp_baseDelayMs p * 2 ^ exponent) (rp_maxDelayMs p) in
  base + Z.max 0 (Qfloor jitterMs).

Section Interleave.
Context {T K : Type} `{!EqDecision K} (tenantIdOf : T -> K).

(** The queues, one per tenant in order of first appearance. *)
Fixpoint build_queues (rows : list T) (queues : jsmap K (list T)) : jsmap K (list T) :=
  match rows with
  | [] => queues
  | row :: rest =>
      let tenant := tenantIdOf row in
      build_queues rest
        (map_set tenant (default [] (map_get tenant queues) ++ [row]) queues)
  end.

(** One pass of the inner [for]: the row at [index] of every queue. *)
Definition round_at (queues : jsmap K (list T)) (index : nat) : list T :=
  omap (fun queue => queue !! index) (map_values queues).

(** The [while] loop; each pass that starts short adds at least one row. *)
Fixpoint fair_loop (fuel : nat) (queues : jsmap K (list T)) (total index : nat)
    (fair : list T) : option (list T) :=
  if (length fair <? total)%nat then
    match fuel with
    | O => None
    | S fuel' => fair_loop fuel' queues total (S index) (fair ++ round_at queues index)
    end
  else Some fair.

Definition interleaveAlertRulesByTenant (rows : list T) : option (list T) :=
  fair_loop (length rows) (build_queues rows []) (length rows) 0 [].
End Interleave.

(** ** What a plan can say *)

Lemma resolveActiveSeverity_in h sevs current p s :
  resolveActiveSeverity h sevs current p = Some s -> s ∈ sevs \/ current = Some s.
Proof.
  destruct (decide (h = [])) as [->|Hne]; [by right|].
  rewrite resolveActiveSeverity_find by done. intros Hf. left.
  apply List.find_some in Hf as [Hin%list_elem_of_In _].
  by rewrite elem_of_js_sort in Hin.
Qed.

(** How a plan relates to the incident it was made for. *)
Record coherent (i : lifecycle_input) (pl : lifecycle_plan) : Prop := {
  coh_closed : li_openIncident i = None -> pl_transition pl = lt_none \/ pl_transition pl = lt_opened;
  coh_opened : pl_transition pl = lt_opened ->
    li_openIncident i = None /\
    exists s, pl_severity pl = Some s /\ s ∈ lp_severities (li_policy i);
  coh_standing : is_Some (pl_severity pl) <->
    pl_transition pl = lt_opened \/
    (is_Some (li_openIncident i) /\ pl_transition pl <> lt_resolved);
  coh_escalated : pl_transition pl = lt_escalated ->
    pl_eventType pl = Some trigger /\
    exists inc s, li_openIncident i = Some inc /\ pl_severity pl = Some s /\
                  severity_rank (in_severity inc) < severity_rank s;
  coh_deescalated : pl_transition pl = lt_deescalated ->
    pl_eventType pl = Some renotify /\
    exists inc s, li_openIncident i = Some inc /\ pl_severity pl = Some s /\
                  severity_rank s < severity_rank (in_severity inc);
  coh_anchor : pl_advanceAnchor pl = true <->
    is_Some (pl_eventType pl) /\ is_Some (li_openIncident i) /\ pl_transition pl <> lt_resolved;
  coh_event : pl_eventType pl = Some resolve -> pl_transition pl = lt_resolved;
  coh_none : pl_transition pl = lt_none -> pl_eventType pl = None;
  coh_suppressed : is_Some (pl_suppression pl) -> pl_eventType pl = None
}.

Lemma coherent_noTransition i state hold :
  coherent i (noTransition state
    (option_map (fun inc => nearestSeverity (in_severity inc) (lp_severities (li_policy i)))
       (li_openIncident i)) hold).
Proof.
  split; simpl; rewrite ?is_Some_alt; destruct (li_openIncident i); naive_solver.
Qed.

Lemma coherent_resolution i state inc :
  li_openIncident i = Some inc -> coherent i (resolutionPlan state inc).
Proof.
  intros Hi. unfold resolutionPlan. destruct (_ && _); split; simpl; try done;
    rewrite ?Hi, ?is_Some_alt; naive_solver.
Qed.

Lemma coherent_closed i state next :
  li_openIncident i = None ->
  (forall s, next = Some s -> s ∈ lp_severities (li_policy i)) ->
  coherent i (plan_closed i state next).
Proof.
  intros Hi Hs. destruct next as [s|]; simpl.
  - destruct (match li_previousNotificationAtMs i with Some _ => _ | None => false end);
      split; simpl; rewrite ?is_Some_alt, ?Hi; naive_solver.
  - pose proof (coherent_noTransition i state None) as H. by rewrite Hi in H.
Qed.

Lemma maxSeverity_self_rank s s' :
  s <> s' ->
  if bool_decide (maxSeverity (Some s) (Some s') = Some s)
  then severity_rank s' < severity_rank s else severity_rank s < severity_rank s'.
Proof. destruct s, s'; done. Qed.

Lemma coherent_open i state inc next :
  li_openIncident i = Some inc ->
  coherent i (plan_open i state inc
    (option_map (fun inc => nearestSeverity (in_severity inc) (lp_severities (li_policy i)))
       (li_openIncident i)) next).
Proof.
  intros Hi. destruct next as [s|]; simpl.
  - case_match eqn:Hs.
    + apply andb_true_iff in Hs as [Hne%negb_true_iff%bool_decide_eq_false _].
      pose proof (maxSeverity_self_rank _ _ Hne) as Hm.
      unfold maxSeverity in Hm. destruct (bool_decide _); split; simpl;
        rewrite ?Hi, ?is_Some_alt; naive_solver.
    + case_match.
      * case_match; split; simpl; rewrite ?Hi, ?is_Some_alt; naive_solver.
      * split; simpl; rewrite ?Hi, ?is_Some_alt; naive_solver.
  - case_match; [apply coherent_noTransition|by apply coherent_resolution].
Qed.

Lemma plan_coherent i : coherent i (planAlertLifecycle i).
Proof.
  unfold planAlertLifecycle.
  destruct (ev_status (li_evaluation i)) eqn:Est.
  3: { destruct (li_openIncident i) as [inc|] eqn:Hi.
       - rewrite <- Hi. case_match; [|apply coherent_noTransition].
         case_match; [by apply coherent_resolution|apply coherent_noTransition].
       - rewrite <- Hi. apply coherent_noTransition. }
  all: destruct (li_openIncident i) as [inc|] eqn:Hi;
    [rewrite <- Hi; by apply coherent_open|];
    apply coherent_closed; [done|];
    intros s Hs; apply resolveActiveSeverity_in in Hs; naive_solver.
Qed.

(** C3: whatever the evaluation, stored row and incident, a plan opens only
    when nothing stands, resolves or moves only what stands, keeps a severity
    exactly while an incident stands, escalates strictly up and de-escalates
    strictly down, advances the reminder clock exactly when it announces
    something on a standing incident, and stays silent when it suppresses. *)
Theorem planAlertLifecycle_coherent i : coherent i (planAlertLifecycle i).
Proof. apply plan_coherent. Qed.

(** ** No resolution out of silence *)

Lemma evaluation_with_data pol o reason :
  ev_status (evaluateAlertObservation pol o reason) <> skipped ->
  ev_derivedFromNoData (evaluateAlertObservation pol o reason) = false ->
  obs_hasData o = true /\
  num_ltb (num_round (obs_sampleCount o)) (ep_minimumSampleCount pol) = false /\
  exists v, obs_value o = Some v /\ num_is_finite v = true.
Proof.
  unfold evaluateAlertObservation. destruct (obs_hasData o) eqn:Hd; simpl.
  - destruct (num_ltb _ _); simpl; [done|].
    destruct (obs_value o) as [v|]; simpl; [|done].
    destruct (num_is_finite v) eqn:Hf; simpl; [|done]. intros _ _. eauto.
  - destruct (ep_noDataBehavior pol); simpl; try done.
    destruct (num_ltb _ _); simpl; done.
Qed.

(** An open incident never resolves on an empty window (or one below the
    sample minimum, or one without a finite value) unless the host's liveness
    gate allowed it: resolving otherwise takes a finite value measured over
    enough samples. *)
Theorem resolution_needs_data i pol o reason
    (Hev : li_evaluation i = evaluateAlertObservation pol o reason)
    (Hgate : li_allowNoDataResolution i = false)
    (Hres : pl_transition (planAlertLifecycle i) = lt_resolved) :
  obs_hasData o = true /\
  num_ltb (num_round (obs_sampleCount o)) (ep_minimumSampleCount pol) = false /\
  exists v, obs_value o = Some v /\ num_is_finite v = true.
Proof.
  apply (evaluation_with_data pol o reason); rewrite <- Hev; clear Hev.
  - intros Hsk. unfold planAlertLifecycle in Hres. rewrite Hsk, Hgate in Hres.
    destruct (li_openIncident i); [|done]. by case_match.
  - apply not_true_iff_false. intros Hd. revert Hres. unfold planAlertLifecycle.
    destruct (ev_status (li_evaluation i)); [| |].
    3: { rewrite Hgate. destruct (li_openIncident i); [|done]. by case_match. }
    all: destruct (li_openIncident i) as [inc|];
      [|by destruct (resolveActiveSeverity _ _ _ _)].
    all: unfold plan_open; rewrite Hd, Hgate; destruct (resolveActiveSeverity _ _ _ _);
      [|done]; simpl; repeat case_match; done.
Qed.

Definition policy_1 : lifecycle_policy := {|
  lp_breachesRequired := 1; lp_breachWindow := 1; lp_healthyRequired := 1;
  lp_renotifyIntervalMinutes := 10; lp_severities := [warning] |}.

Definition eval_policy_1 : evaluation_policy := {|
  ep_comparator := cmp_gt; ep_threshold := num_of_Z 10; ep_thresholdUpper := None;
  ep_tiers := [{| t_severity := warning; t_value := num_of_Z 10; t_upper := None;
                  t_recovery := None |}];
  ep_minimumSampleCount := num_of_Z 1; ep_noDataBehavior := nd_zero |}.

Definition observation_9 : alert_observation :=
  {| obs_value := Some (num_of_Z 9); obs_sampleCount := num_of_Z 3; obs_hasData := true |}.

Definition input_1 : lifecycle_input := {|
  li_policy := policy_1;
  li_evaluation := evaluateAlertObservation eval_policy_1 observation_9 "above";
  li_state := None;
  li_openIncident := Some {| in_severity := warning; in_firstTriggeredAtMs := 0;
                             in_lastNotifiedAtMs := Some 0; in_lastDelivered := Some trigger |};
  li_nowMs := 60000; li_previousNotificationAtMs := None; li_allowNoDataResolution := false |}.

Example resolution_needs_data_witness :
  pl_transition (planAlertLifecycle input_1) = lt_resolved /\ obs_hasData observation_9 = true.
Proof.
  split; [vm_compute; reflexivity|].
  apply (resolution_needs_data input_1 eval_policy_1 observation_9 "above");
    [reflexivity|reflexivity|vm_compute; reflexivity].
Defined.

(** ** Retries *)

(** With a base delay that does not exceed the cap, every retry delay lies
    between the base and the cap plus the host's whole milliseconds of jitter,
    does not shrink from one attempt to the next, and no attempt at or past
    [maxAttempts] is retried. *)
Theorem retry_delay_bounds p j attempt
    (Hb : 0 <= rp_baseDelayMs p <= rp_maxDelayMs p) :
  rp_baseDelayMs p + Z.max 0 (Qfloor j) <= alertDeliveryRetryDelayMs attempt j p
    <= rp_maxDelayMs p + Z.max 0 (Qfloor j) /\
  alertDeliveryRetryDelayMs attempt j p <= alertDeliveryRetryDelayMs (attempt + 1) j p /\
  (rp_maxAttempts p <= attempt -> canRetryAlertDelivery attempt true p = false).
Proof.
  unfold alertDeliveryRetryDelayMs, canRetryAlertDelivery. simpl.
  set (e := Z.max 0 (attempt - 1)). set (e' := Z.max 0 (attempt + 1 - 1)).
  assert (He : 0 <= e <= e') by lia.
  pose proof (Z.pow_le_mono_r 2 0 e ltac:(lia) ltac:(lia)) as H1.
  pose proof (Z.pow_le_mono_r 2 e e' ltac:(lia) ltac:(lia)) as H2.
  change (2 ^ 0) with 1 in H1. generalize dependent (2 ^ e). generalize dependent (2 ^ e').
  intros. split_and!; nia.
Qed.

Example retry_delay_bounds_witness :
  alertDeliveryRetryDelayMs 3 (QArith_base.Qmake 5 2) DEFAULT_ALERT_DELIVERY_RETRY_POLICY = 240002 /\
  240002 <= 15 * 60000 + 2.
Proof.
  split; [vm_compute; reflexivity|].
  apply (retry_delay_bounds DEFAULT_ALERT_DELIVERY_RETRY_POLICY (QArith_base.Qmake 5 2) 3).
  simpl. lia.
Defined.

(** ** Fair interleaving *)

Section InterleaveFacts.
Context {T K : Type} `{!EqDecision K} (tenantIdOf : T -> K).
Implicit Types (rows : list T) (queues : jsmap K (list T)).

Definition of_tenant (k : K) (rows : list T) : list T :=
  List.filter (fun r => bool_decide (tenantIdOf r = k)) rows.

Lemma build_queues_get rows queues k :
  map_get k (build_queues tenantIdOf rows queues) =
  match of_tenant k rows with
  | [] => map_get k queues
  | l => Some (default [] (map_get k queues) ++ l)
  end.
Proof.
  revert queues. induction rows as [|r rows IH]; intros queues; simpl; [done|].
  rewrite IH, map_get_set. case_decide as Hk.
  - rewrite bool_decide_true by done. subst k. simpl.
    destruct (of_tenant _ rows); by rewrite <- ?app_assoc.
  - by rewrite bool_decide_false by done.
Qed.

Lemma build_queues_NoDup rows queues :
  NoDup (map_keys queues) -> NoDup (map_keys (build_queues tenantIdOf rows queues)).
Proof.
  revert queues. induction rows as [|r rows IH]; intros queues Hq; simpl; [done|].
  apply IH. by apply map_set_NoDup.
Qed.

(** Rows in the queues, in the order of the queues. *)
Definition queued queues : list T := concat (map_values queues).

Lemma queued_set k v queues :
  Permutation (queued (map_set k (default [] (map_get k queues) ++ [v]) queues))
    (queued queues ++ [v]).
Proof.
  unfold queued, map_values. induction queues as [|[k' q] queues IH]; simpl; [done|].
  destruct (decide (k = k')) as [->|]; simpl.
  - rewrite <- !app_assoc. apply Permutation_app_head, Permutation_app_comm.
  - rewrite <- app_assoc. by apply Permutation_app_head.
Qed.

Lemma build_queues_perm rows queues :
  Permutation (queued (build_queues tenantIdOf rows queues)) (queued queues ++ rows).
Proof.
  revert queues. induction rows as [|r rows IH]; intros queues; simpl.
  - by rewrite app_nil_r.
  - rewrite IH, queued_set, <- app_assoc. done.
Qed.

(** What the first [n] passes deliver, and what they leave. *)
Definition rounds queues (n : nat) : list T := concat (map (round_at queues) (seq 0 n)).

Lemma rounds_S queues n : rounds queues (S n) = rounds queues n ++ round_at queues n.
Proof.
  unfold rounds. rewrite seq_S, List.map_app, concat_app. simpl. by rewrite app_nil_r.
Qed.

Lemma round_at_perm queues n :
  Permutation (concat (map (take (S n)) (map_values queues)))
    (concat (map (take n) (map_values queues)) ++ round_at queues n).
Proof.
  unfold round_at. induction (map_values queues) as [|q qs IH]; [done|].
  cbn [map concat omap list_omap]. rewrite IH.
  destruct (q !! n) as [x|] eqn:E.
  - rewrite (take_S_r _ _ _ E). rewrite <- !app_assoc.
    apply Permutation_app_head. rewrite (Permutation_app_comm [x]).
    rewrite <- app_assoc. apply Permutation_app_head, Permutation_app_comm.
  - apply lookup_ge_None in E. rewrite !take_ge by lia. by rewrite <- app_assoc.
Qed.

Lemma rounds_perm queues n :
  Permutation (rounds queues n) (concat (map (take n) (map_values queues))).
Proof.
  induction n as [|n IH].
  - unfold rounds. simpl. by induction (map_values queues).
  - by rewrite rounds_S, IH, <- round_at_perm.
Qed.

Lemma take_all_full (n : nat) (qs : list (list T)) :
  (length (concat (map (take n) qs)) <= length (concat qs))%nat /\
  (length (concat (map (take n) qs)) = length (concat qs) -> map (take n) qs = qs).
Proof.
  induction qs as [|q qs [IHle IHeq]]; simpl; [done|].
  rewrite !length_app, length_take. split; [lia|]. intros H. f_equal.
  - apply take_ge. lia.
  - apply IHeq. lia.
Qed.

Lemma round_at_nil (qs : jsmap K (list T)) n :
  round_at qs n = [] -> map (take n) (map_values qs) = map_values qs.
Proof.
  unfold round_at. induction (map_values qs) as [|q l IH]; simpl; [done|].
  destruct (q !! n) as [x|] eqn:E; simpl; [done|]. intros Hr.
  apply lookup_ge_None in E. by rewrite take_ge, IH by done.
Qed.

(** The loop stops at the pass where everything has been delivered. *)
Lemma fair_loop_spec qs total fuel i :
  length (queued qs) = total ->
  (total <= length (rounds qs i) + fuel)%nat ->
  exists n, fair_loop fuel qs total i (rounds qs i) = Some (rounds qs n) /\
            (total <= length (rounds qs n))%nat.
Proof.
  intros Ht. revert i. induction fuel as [|fuel IH]; intros i Hf; simpl;
    destruct (Nat.ltb_spec (length (rounds qs i)) total); try (exists i; split; [done|lia]).
  - lia.
  - rewrite <- rounds_S. apply IH. rewrite rounds_S, length_app.
    destruct (round_at qs i) eqn:E; simpl; [|lia].
    apply round_at_nil in E. pose proof (Permutation_length (rounds_perm qs i)) as Hp.
    rewrite E in Hp. unfold queued in Ht. lia.
Qed.

Definition tenanted qs : Prop :=
  NoDup (map_keys qs) /\ forall k q, (k, q) ∈ qs -> of_tenant k q = q.

Lemma of_tenant_other k k' q : k <> k' -> of_tenant k' q = q -> of_tenant k q = [].
Proof.
  intros Hne Hq. apply filter_none. intros x Hx. rewrite <- Hq in Hx.
  apply list_elem_of_In, List.filter_In in Hx as [_ Hx%bool_decide_eq_true].
  apply bool_decide_eq_false. congruence.
Qed.

Lemma of_tenant_lookup k q n :
  of_tenant k q = q -> of_tenant k (option_list (q !! n)) = option_list (q !! n).
Proof.
  intros Hq. destruct (q !! n) as [x|] eqn:E; simpl; [|done].
  apply list_elem_of_lookup_2 in E. rewrite <- Hq in E.
  apply list_elem_of_In, List.filter_In in E as [_ Hx]. by rewrite Hx.
Qed.

Lemma round_at_cons (k : K) (q : list T) (qs : jsmap K (list T)) n :
  round_at ((k, q) :: qs : jsmap K (list T)) n = option_list (q !! n) ++ round_at qs n.
Proof. unfold round_at. simpl. by destruct (q !! n). Qed.

Lemma round_at_tenant qs n k :
  tenanted qs -> of_tenant k (round_at qs n) = option_list (map_get k qs ≫= fun q => q !! n).
Proof.
  intros [Hnd Hq]. induction qs as [|[k' q] qs IH]; [done|].
  apply NoDup_cons in Hnd as [Hni Hnd].
  rewrite round_at_cons. unfold of_tenant at 1. rewrite List.filter_app.
  fold (of_tenant k (option_list (q !! n))) (of_tenant k (round_at qs n)).
  rewrite IH by (try done; intros; apply Hq; set_solver).
  specialize (Hq k' q ltac:(set_solver)). cbn [map_get]. case_decide as Hk.
  - subst k'. rewrite of_tenant_lookup by done.
    apply map_get_None_keys in Hni. simpl in Hni. by rewrite Hni, app_nil_r.
  - destruct (q !! n) as [x|] eqn:E; [|done].
    replace (of_tenant k (option_list (Some x))) with (@nil T); [done|].
    apply list_elem_of_lookup_2 in E. rewrite <- Hq in E.
    apply list_elem_of_In, List.filter_In in E as [_ Hx%bool_decide_eq_true].
    simpl. by rewrite bool_decide_false by congruence.
Qed.

Lemma rounds_tenant qs n k :
  tenanted qs -> of_tenant k (rounds qs n) = take n (default [] (map_get k qs)).
Proof.
  intros Hqs. induction n as [|n IH]; [done|].
  rewrite rounds_S. unfold of_tenant in *. rewrite List.filter_app, IH.
  fold (of_tenant k (round_at qs n)). rewrite round_at_tenant by done.
  destruct (map_get k qs) as [q|]; simpl; [|by rewrite take_nil].
  destruct (q !! n) as [x|] eqn:E; simpl; [by rewrite (take_S_r _ _ _ E)|].
  apply lookup_ge_None in E. by rewrite app_nil_r, !take_ge by lia.
Qed.

Lemma of_tenant_idem k rows : of_tenant k (of_tenant k rows) = of_tenant k rows.
Proof.
  unfold of_tenant. induction rows as [|r rows IH]; simpl; [done|].
  destruct (bool_decide _) eqn:E; simpl; [|done]. by rewrite E, IH.
Qed.

Lemma build_queues_tenanted rows : tenanted (build_queues tenantIdOf rows []).
Proof.
  split; [apply build_queues_NoDup; constructor|]. intros k q Hq.
  apply elem_of_map_get in Hq; [|apply build_queues_NoDup; constructor].
  rewrite build_queues_get in Hq. simpl in Hq.
  assert (of_tenant k rows = q) as <- by (destruct (of_tenant k rows); congruence).
  apply of_tenant_idem.
Qed.

Lemma interleave_rounds rows :
  exists n, interleaveAlertRulesByTenant tenantIdOf rows = Some (rounds (build_queues tenantIdOf rows []) n) /\
    Permutation (rounds (build_queues tenantIdOf rows []) n) rows.
Proof.
  set (qs := build_queues tenantIdOf rows []).
  pose proof (build_queues_perm rows []) as Hperm. simpl in Hperm. fold qs in Hperm.
  destruct (fair_loop_spec qs (length rows) (length rows) 0) as (n & Hloop & Hlen);
    [by rewrite Hperm|lia|].
  exists n. split; [exact Hloop|].
  rewrite rounds_perm, <- Hperm. unfold queued.
  destruct (take_all_full n (map_values qs)) as [Hle Heq]. rewrite Heq; [done|].
  pose proof (Permutation_length (rounds_perm qs n)).
  pose proof (Permutation_length Hperm) as Hl. unfold queued in Hl. lia.
Qed.

(** The interleaving always finishes; it is a reordering of the tick's
    rules that keeps each tenant's order, made of passes in which every
    tenant that still has a rule left contributes exactly one. *)
Theorem interleave_fair rows :
  exists fair n, interleaveAlertRulesByTenant tenantIdOf rows = Some fair /\
    Permutation fair rows /\
    (forall k, of_tenant k fair = of_tenant k rows) /\
    fair = rounds (build_queues tenantIdOf rows []) n /\
    (forall i k, of_tenant k (round_at (build_queues tenantIdOf rows []) i) =
                 option_list (of_tenant k rows !! i)).
Proof.
  destruct (interleave_rounds rows) as (n & Hloop & Hp).
  pose proof (build_queues_tenanted rows) as Hqs.
  set (qs := build_queues tenantIdOf rows []) in *.
  assert (Hget : forall k, default [] (map_get k qs) = of_tenant k rows).
  { intros k. unfold qs. rewrite build_queues_get. by destruct (of_tenant k rows). }
  exists (rounds qs n), n. split_and!; [exact Hloop|done| |done|].
  - intros k. rewrite rounds_tenant, Hget by done. apply take_ge.
    assert (length (of_tenant k (rounds qs n)) = length (of_tenant k rows)) as Hl.
    { unfold of_tenant. by rewrite Hp. }
    rewrite rounds_tenant, Hget, length_take in Hl by done. lia.
  - intros i k. rewrite round_at_tenant by done. rewrite <- Hget.
    by destruct (map_get k qs).
Qed.
End InterleaveFacts.
