(* ===== verification/AlertThresholds.v ===== *)
(** * Alerting: threshold tiers of a rule

    [packages/backend/src/services/alerts/alert-thresholds.ts] and the threshold
    helpers of [packages/domain/src/http/alerts.ts]: the validation of a rule's
    tiers, and the rule as one notification sees it. A validation message is
    the text the code builds. *)

From stdpp Require Import prelude list strings.
From Stdlib Require Import ZArith Lia Floats.SpecFloat Sorting.Sorted.
From S2P Require Import Prelude.
From S2P Require Import JsNum.
From S2P Require Import AlertTiers.

Open Scope Z_scope.

(** ** Data *)

Record alert_threshold := {
  at_tier : tier;
  at_destinationIds : list string
}.

Definition at_severity (t : alert_threshold) : severity := t_severity (at_tier t).

Definition isRangeComparator (c : comparator) : bool :=
  bool_decide (c = cmp_between) || bool_decide (c = cmp_not_between).

Definition MAX_ALERT_BREACH_WINDOW : Z := 30.

Definition alertSeverityOrder (a b : alert_threshold) : Z :=
  severity_rank (at_severity a) - severity_rank (at_severity b).

Definition sortAlertThresholds (thresholds : list alert_threshold) : list alert_threshold :=
  map (fun t => {| at_tier := at_tier t; at_destinationIds := dedupe (at_destinationIds t) |})
    (js_sort alertSeverityOrder thresholds).

Definition comparator_name (c : comparator) : string :=
  match c with
  | cmp_gt => "gt" | cmp_gte => "gte" | cmp_lt => "lt" | cmp_lte => "lte"
  | cmp_eq => "eq" | cmp_neq => "neq"
  | cmp_between => "between" | cmp_not_between => "not_between"
  end.

Definition severity_name (s : severity) : string :=
  match s with warning => "warning" | critical => "critical" end.

(** ** The rule a notification sees *)

Definition destinationsUpTo (thresholds : list alert_threshold) (s : severity) : list string :=
  dedupe (concat (map at_destinationIds
    (List.filter (fun t => severity_rank (at_severity t) <=? severity_rank s) thresholds))).

Record rule_fields := {
  rf_first : alert_threshold;
  rf_rest : list alert_threshold;
  rf_severity : severity;
  rf_threshold : num;
  rf_thresholdUpper : option num;
  rf_destinationIds : list string
}.

(** [rule.thresholds], a non-empty array. *)
Definition rf_thresholds (r : rule_fields) : list alert_threshold := rf_first r :: rf_rest r.

Definition ruleAtSeverity (r : rule_fields) (s : severity) (reached : option severity)
    : rule_fields :=
  let t := tierFor (at_tier (rf_first r)) (map at_tier (rf_rest r)) s in
  {| rf_first := rf_first r; rf_rest := rf_rest r; rf_severity := s;
     rf_threshold := t_value t; rf_thresholdUpper := t_upper t;
     rf_destinationIds :=
       destinationsUpTo (rf_thresholds r) (default s (maxSeverity (Some s) reached)) |}.

(** ** Validation *)

Definition recoveryValueFits (c : comparator) (t : tier) : bool :=
  match t_recovery t with
  | None => true
  | Some r =>
      negb (isRangeComparator c) && negb (bool_decide (c = cmp_eq)) && negb (bool_decide (c = cmp_neq))
      && negb (compareAlertThreshold r c (t_value t) None)
  end.

(** [JSON.stringify] of a number: the two zeros print alike and a number that
    is not finite prints as [null]; distinct finite numbers print apart. *)
Definition json_number (x : num) : option num :=
  match x with
  | S754_zero _ => Some (S754_zero false)
  | S754_finite _ _ _ => Some x
  | _ => None
  end.

Definition condition_key (c : comparator) (thresholds : list alert_threshold)
    : string * list (severity * option num * option num * option num) :=
  (comparator_name c,
   map (fun t => (t_severity (at_tier t), json_number (t_value (at_tier t)),
                  t_upper (at_tier t) ≫= json_number, t_recovery (at_tier t) ≫= json_number))
     thresholds).

#[export] Instance num_eq_dec : EqDecision num.
Proof. unfold num. solve_decision. Defined.

Definition tierConditionChanged (ca : comparator) (a : list alert_threshold)
    (cb : comparator) (b : list alert_threshold) : bool :=
  negb (bool_decide (condition_key ca a = condition_key cb b)).

Inductive threshold_field := f_value | f_upper | f_recoveryValue.

Section Validation.
Variable c : comparator.
Variable label : nat -> threshold_field -> string.
Variable requireDestinations : bool.

Local Open Scope string_scope.

Definition singleTierOnly : bool :=
  isRangeComparator c || bool_decide (c = cmp_eq) || bool_decide (c = cmp_neq).

Definition when (b : bool) (message : string) : list string := if b then [message] else [].

Definition value_messages (t : tier) (index : nat) : list string :=
  when (negb (num_is_finite (t_value t))) (label index f_value ++ " must be a finite number").

Definition upper_messages (t : tier) (index : nat) : list string :=
  if isRangeComparator c then
    match t_upper t with
    | Some u =>
        if negb (num_is_finite u)
        then [label index f_upper ++ " is required for between / not_between comparators"]
        else when (num_ltb u (t_value t))
          (label index f_upper ++ " must be greater than or equal to " ++ label index f_value)
    | None => [label index f_upper ++ " is required for between / not_between comparators"]
    end
  else when (bool_decide (is_Some (t_upper t)))
    (label index f_upper ++ " is only supported for between / not_between comparators").

Definition recovery_messages (t : tier) (index : nat) : list string :=
  match t_recovery t with
  | None => []
  | Some r =>
      if singleTierOnly
      then [label index f_recoveryValue ++ " is not supported with the " ++ comparator_name c ++ " comparator"]
      else if negb (num_is_finite r)
      then [label index f_recoveryValue ++ " must be a finite number"]
      else when (compareAlertThreshold r c (t_value t) None)
        (label index f_recoveryValue ++ " must be on the healthy side of " ++ label index f_value)
  end.

Definition destination_messages (count : nat) (t : alert_threshold) : list string :=
  when (requireDestinations && bool_decide (at_destinationIds t = []))
    (if bool_decide (count = 1%nat) then "at least one destination must be selected"
     else "the " ++ severity_name (at_severity t) ++ " threshold needs at least one destination").

(** The body of [thresholds.forEach]. *)
Definition tier_messages (count : nat) (t : alert_threshold) (index : nat) : list string :=
  (value_messages (at_tier t) index ++ upper_messages (at_tier t) index ++
   recovery_messages (at_tier t) index ++ destination_messages count t)%list.

Definition strict : comparator :=
  match c with cmp_gte => cmp_gt | cmp_lte => cmp_lt | _ => c end.

(** The order of the tiers: the two lowest after sorting. *)
Definition order_messages (thresholds : list alert_threshold) : list string :=
  match sortAlertThresholds thresholds with
  | w :: cr :: _ =>
      let warning := at_tier w in
      let critical := at_tier cr in
      if num_is_finite (t_value warning) && num_is_finite (t_value critical) then
        (when (negb (compareAlertThreshold (t_value critical) strict (t_value warning) None))
           "the critical threshold must be worse than the warning threshold" ++
         match t_recovery critical with
         | Some r => when (compareAlertThreshold (t_value warning) strict r None)
                       "the critical recovery value must not be past the warning threshold"
         | None => []
         end)%list
      else []
  | _ => []
  end.

Definition validateThresholds (thresholds : list alert_threshold) : list string :=
  (when (negb (bool_decide (length (dedupe (map at_severity thresholds)) = length thresholds)))
     "thresholds must have at most one tier per severity" ++
   when ((1 <? length thresholds)%nat && singleTierOnly)
     ("only one threshold tier is supported with the " ++ comparator_name c ++ " comparator") ++
   concat (imap (fun index t => tier_messages (length thresholds) t index) thresholds) ++
   order_messages thresholds)%list.
End Validation.

Definition validateBreachWindow (breachesRequired : Z) (breachesOutOf : option Z) : list string :=
  match breachesOutOf with
  | None => []
  | Some m =>
      if m <? breachesRequired then ["breachesOutOf must be at least consecutiveBreachesRequired"%string]
      else if MAX_ALERT_BREACH_WINDOW <? m
      then ["breachesOutOf must be at most 30"%string]
      else []
  end.

(** ** Accepted rules have nested tiers *)

Lemma when_nil b message : when b message = [] -> b = false.
Proof. by destruct b. Qed.

Lemma when_not_nil b message : when (negb b) message = [] -> b = true.
Proof. by destruct b. Qed.

(** Beyond the stricter of two thresholds lies beyond the other one. *)
Lemma compare_strict_trans v c x y :
  isRangeComparator c = false -> c <> cmp_eq -> c <> cmp_neq ->
  compareAlertThreshold v c x None = true ->
  compareAlertThreshold x (strict c) y None = true ->
  compareAlertThreshold v c y None = true.
Proof.
  destruct c; try done; intros _ _ _ H1 H2; simpl in *; unfold num_gtb, num_geb in *;
    eauto using num_lt_trans, num_lt_le, num_le_trans.
Qed.

(** A value past a recovery value that is not past [y] is past [y]. *)
Lemma compare_recovery_trans v c r y :
  isRangeComparator c = false -> c <> cmp_eq -> c <> cmp_neq ->
  num_is_finite r = true -> num_is_finite y = true ->
  compareAlertThreshold v c r None = true ->
  compareAlertThreshold y (strict c) r None = false ->
  compareAlertThreshold v c y None = true.
Proof.
  intros Hc He Hn Hr%num_finite_not_nan Hy%num_finite_not_nan.
  destruct c; try done; intros H1 H2; simpl in *; unfold num_gtb, num_geb in *;
    apply num_not_lt in H2; eauto using num_le_lt_trans, num_lt_le_trans, num_le_trans.
Qed.

Lemma accepted_messages c label req ts t :
  validateThresholds c label req ts = [] -> t ∈ ts ->
  exists i, tier_messages c label req (length ts) t i = [].
Proof.
  intros Hv [i Hi]%list_elem_of_lookup_1. unfold validateThresholds in Hv.
  apply app_nil in Hv as [_ [_ [Hv _]%app_nil]%app_nil].
  apply concat_nil_Forall in Hv. rewrite Forall_lookup in Hv.
  exists i. apply (Hv i). by rewrite list_lookup_imap, Hi.
Qed.

Section Nesting.
Context (c : comparator) (label : nat -> threshold_field -> string) (req : bool).
Implicit Types ts : list alert_threshold.

Lemma tier_accepted ts t :
  validateThresholds c label req ts = [] -> t ∈ ts ->
  num_is_finite (t_value (at_tier t)) = true /\
  (forall r, t_recovery (at_tier t) = Some r -> singleTierOnly c = false ->
     num_is_finite r = true /\ compareAlertThreshold r c (t_value (at_tier t)) None = false).
Proof.
  intros Hv Ht. destruct (accepted_messages _ _ _ _ _ Hv Ht) as [i Hm].
  unfold tier_messages in Hm. apply app_nil in Hm as [H1 [_ [H3 _]%app_nil]%app_nil].
  split; [by eapply when_not_nil|]. intros r Hr Hs.
  unfold recovery_messages in H3. rewrite Hr, Hs in H3.
  destruct (num_is_finite r); [|done]. split; [done|]. by apply when_nil in H3.
Qed.

Lemma accepted_pair ts w cr :
  validateThresholds c label req ts = [] ->
  w ∈ ts -> cr ∈ ts -> at_severity w = warning -> at_severity cr = critical ->
  ts = [w; cr] \/ ts = [cr; w].
Proof.
  intros Hv Hw Hcr Sw Scr. unfold validateThresholds in Hv.
  apply app_nil in Hv as [Hd%when_not_nil%bool_decide_eq_true _].
  rewrite <- (List.length_map at_severity ts) in Hd. apply dedupe_length_NoDup in Hd.
  destruct ts as [|x [|y [|z ts]]]; simpl in Hd.
  - set_solver.
  - apply list_elem_of_singleton in Hw, Hcr. congruence.
  - assert (at_severity x <> at_severity y) by (rewrite !NoDup_cons in Hd; set_solver).
    apply elem_of_cons in Hw, Hcr. rewrite list_elem_of_singleton in Hw, Hcr.
    destruct Hw, Hcr; subst; auto; congruence.
  - rewrite !NoDup_cons in Hd. set_unfold.
    destruct (at_severity x), (at_severity y), (at_severity z); naive_solver.
Qed.

Lemma accepted_sorted ts w cr :
  ts = [w; cr] \/ ts = [cr; w] -> at_severity w = warning -> at_severity cr = critical ->
  map at_tier (sortAlertThresholds ts) = [at_tier w; at_tier cr].
Proof.
  intros [-> | ->] Sw Sc; unfold sortAlertThresholds, js_sort, alertSeverityOrder; simpl;
    by rewrite Sw, Sc.
Qed.

Lemma accepted_order ts w cr :
  validateThresholds c label req ts = [] ->
  w ∈ ts -> cr ∈ ts -> at_severity w = warning -> at_severity cr = critical ->
  singleTierOnly c = false /\
  compareAlertThreshold (t_value (at_tier cr)) (strict c) (t_value (at_tier w)) None = true /\
  (forall r, t_recovery (at_tier cr) = Some r ->
     compareAlertThreshold (t_value (at_tier w)) (strict c) r None = false).
Proof.
  intros Hv Hw Hcr Sw Scr. pose proof (accepted_pair _ _ _ Hv Hw Hcr Sw Scr) as Hts.
  destruct (tier_accepted _ _ Hv Hw) as [Fw _], (tier_accepted _ _ Hv Hcr) as [Fc _].
  pose proof (accepted_sorted _ _ _ Hts Sw Scr) as Hs.
  unfold validateThresholds in Hv.
  apply app_nil in Hv as [_ [Hone%when_nil [_ Ho]%app_nil]%app_nil].
  split.
  { by destruct Hts as [-> | ->]. }
  unfold order_messages in Ho.
  destruct (sortAlertThresholds ts) as [|w' [|cr' rest]]; try done.
  simpl in Hs. injection Hs as Hw' Hcr' _. rewrite Hw', Hcr', Fw, Fc in Ho. simpl in Ho.
  apply app_nil in Ho as [Ho1%when_not_nil Ho2]. split; [done|].
  intros r Hr. rewrite Hr in Ho2. by apply when_nil in Ho2.
Qed.

(** When the tiers of a rule are accepted, its tiers nest: on every
    value that is not clear of the critical tier (breaching it or still in
    its recovery band) the warning tier breaches. *)
Theorem accepted_tiers_nest ts w cr v
    (Hv : validateThresholds c label req ts = [])
    (Hw : w ∈ ts) (Hcr : cr ∈ ts)
    (Sw : at_severity w = warning) (Scr : at_severity cr = critical)
    (Hc : classifyTier v c (at_tier cr) <> clear) :
  classifyTier v c (at_tier w) = breach.
Proof.
  destruct (accepted_order _ _ _ Hv Hw Hcr Sw Scr) as (Hs & Ho & Hr).
  destruct (tier_accepted _ _ Hv Hw) as [Fw _].
  destruct (tier_accepted _ _ Hv Hcr) as [Fc Frec].
  unfold singleTierOnly in Hs. bool_to_prop.
  assert (Hup : forall x y u u', compareAlertThreshold x c y u = compareAlertThreshold x c y u').
  { intros. by destruct c. }
  unfold classifyTier in *.
  rewrite (Hup v (t_value (at_tier cr)) (t_upper _) None) in Hc.
  rewrite (Hup v (t_value (at_tier w)) (t_upper _) None).
  destruct (compareAlertThreshold v c (t_value (at_tier cr)) None) eqn:Hb.
  - by rewrite (compare_strict_trans v c (t_value (at_tier cr))).
  - destruct (t_recovery (at_tier cr)) as [r|] eqn:Er; [|done].
    destruct (compareAlertThreshold v c r None) eqn:Hrec; [|done].
    destruct (Frec r) as [Fr _]; [done| |].
    { unfold singleTierOnly. by rewrite !orb_false_iff, !bool_decide_eq_false. }
    by rewrite (compare_recovery_trans v c r) by auto.
Qed.
End Nesting.

Definition threshold_of (s : severity) (v : Z) (recovery : option Z) (ids : list string)
    : alert_threshold :=
  {| at_tier := {| t_severity := s; t_value := num_of_Z v; t_upper := None;
                   t_recovery := num_of_Z <$> recovery |};
     at_destinationIds := ids |}.

Definition plain_label (index : nat) (f : threshold_field) : string := "threshold".

Definition rule_50_90 : list alert_threshold :=
  [threshold_of critical 90 (Some 60) ["pager"%string];
   threshold_of warning 50 None ["chat"%string]].

Example accepted_tiers_nest_witness :
  classifyTier (num_of_Z 70) cmp_gt (at_tier (threshold_of critical 90 (Some 60) ["pager"%string])) = hold /\
  classifyTier (num_of_Z 70) cmp_gt (at_tier (threshold_of warning 50 None ["chat"%string])) = breach.
Proof.
  split; [vm_compute; reflexivity|].
  apply (accepted_tiers_nest cmp_gt plain_label true rule_50_90
           (threshold_of warning 50 None ["chat"%string])
           (threshold_of critical 90 (Some 60) ["pager"%string])).
  - vm_compute. reflexivity.
  - unfold rule_50_90. set_solver.
  - unfold rule_50_90. set_solver.
  - reflexivity.
  - reflexivity.
  - vm_compute. discriminate.
Defined.

(** ** An unchanged condition *)

Definition json_same (x y : num) : Prop :=
  json_number x = json_number y /\ num_is_finite x = true /\ num_is_finite y = true.

Lemma json_same_compare v x y : json_same x y -> SFcompare v x = SFcompare v y.
Proof.
  intros (Hj & Hx & Hy).
  destruct x as [sx|sx| |sx mx ex], y as [sy|sy| |sy my ey]; try done; simpl in Hj.
  by injection Hj as -> -> ->.
Qed.

Lemma json_same_compare_l v x y : json_same x y -> SFcompare x v = SFcompare y v.
Proof.
  intros H. pose proof (json_same_compare v x y H) as Hc.
  rewrite (SFcompare_swap v x), (SFcompare_swap v y). by rewrite Hc.
Qed.

Definition option_same (x y : option num) : Prop :=
  match x, y with
  | Some a, Some b => json_same a b
  | None, None => True
  | _, _ => False
  end.

Lemma compare_same v c x y u w :
  json_same x y -> option_same u w ->
  compareAlertThreshold v c x u = compareAlertThreshold v c y w.
Proof.
  intros Hx Hu.
  destruct c; simpl; unfold num_gtb, num_geb, num_ltb, num_leb, num_eqb, SFltb, SFleb, SFeqb;
    rewrite ?(json_same_compare v _ _ Hx), ?(json_same_compare_l v _ _ Hx); try done;
    destruct u, w; try done; simpl in Hu;
    by rewrite ?(json_same_compare v _ _ Hu), ?(json_same_compare_l v _ _ Hu).
Qed.

Lemma classify_same v c t t' :
  json_same (t_value t) (t_value t') -> option_same (t_upper t) (t_upper t') ->
  option_same (t_recovery t) (t_recovery t') ->
  classifyTier v c t = classifyTier v c t'.
Proof.
  intros Hv Hu Hr. unfold classifyTier. rewrite (compare_same _ _ _ _ _ _ Hv Hu).
  destruct (t_recovery t) as [r|], (t_recovery t') as [r'|]; try done.
  by rewrite (compare_same v c r r' None None).
Qed.

Definition finite_option (x : option num) : Prop :=
  match x with Some a => num_is_finite a = true | None => True end.

Lemma accepted_finite c label req ts t :
  validateThresholds c label req ts = [] -> t ∈ ts ->
  num_is_finite (t_value (at_tier t)) = true /\
  finite_option (t_upper (at_tier t)) /\ finite_option (t_recovery (at_tier t)).
Proof.
  intros Hv Ht. destruct (accepted_messages _ _ _ _ _ Hv Ht) as [i Hm].
  unfold tier_messages in Hm. apply app_nil in Hm as [H1 [H2 [H3 _]%app_nil]%app_nil].
  split_and!.
  - by eapply when_not_nil.
  - unfold upper_messages in H2. destruct (t_upper _) as [u|]; simpl; [|done].
    destruct (isRangeComparator c); [by destruct (num_is_finite u)|].
    apply when_nil, bool_decide_eq_false in H2. by destruct H2.
  - unfold recovery_messages in H3. destruct (t_recovery _) as [r|]; simpl; [|done].
    destruct (singleTierOnly c); [done|]. by destruct (num_is_finite r).
Qed.

Lemma json_option_same x y :
  x ≫= json_number = y ≫= json_number -> finite_option x -> finite_option y -> option_same x y.
Proof.
  destruct x as [x|], y as [y|]; simpl; intros Hj Hx Hy; try done.
  - by destruct x.
  - by destruct y.
Qed.

Lemma comparator_name_inj c c' : comparator_name c = comparator_name c' -> c = c'.
Proof. by destruct c, c'. Qed.

(** Between two accepted rules, when an edit is judged not to change the
    tier condition, every value classifies the same on every tier, tier by
    tier, so the tick history stays valid. *)
Theorem unchanged_condition_same_levels ca cb label req a b v
    (Ha : validateThresholds ca label req a = [])
    (Hb : validateThresholds cb label req b = [])
    (Hc : tierConditionChanged ca a cb b = false) :
  map (fun t => (at_severity t, classifyTier v ca (at_tier t))) a =
  map (fun t => (at_severity t, classifyTier v cb (at_tier t))) b.
Proof.
  unfold tierConditionChanged in Hc. bool_to_prop. injection Hc as Hn Hk.
  apply comparator_name_inj in Hn as ->.
  pose proof (fun t => accepted_finite _ _ _ _ t Ha) as Fa.
  pose proof (fun t => accepted_finite _ _ _ _ t Hb) as Fb.
  clear Ha Hb. revert b Hk Fb. induction a as [|t a IH]; intros [|t' b] Hk Fb; try done.
  simpl in Hk. injection Hk as Hs Hv Hu Hr Hk. simpl. f_equal.
  - destruct (Fa t) as (? & ? & ?); [set_solver|]. destruct (Fb t') as (? & ? & ?); [set_solver|].
    unfold at_severity. rewrite Hs. f_equal.
    apply classify_same; [done|by apply json_option_same..].
  - apply IH; [intros; apply Fa; set_solver|done|intros; apply Fb; set_solver].
Qed.

Example unchanged_condition_same_levels_witness :
  tierConditionChanged cmp_gt [threshold_of warning 50 None ["chat"%string]]
                       cmp_gt [threshold_of warning 50 None ["pager"%string]] = false /\
  map (fun t => (at_severity t, classifyTier (num_of_Z 51) cmp_gt (at_tier t)))
    [threshold_of warning 50 None ["chat"%string]] = [(warning, breach)].
Proof.
  split; [vm_compute; reflexivity|].
  rewrite (unchanged_condition_same_levels cmp_gt cmp_gt plain_label true
    [threshold_of warning 50 None ["chat"%string]] [threshold_of warning 50 None ["pager"%string]]
    (num_of_Z 51) ltac:(vm_compute; reflexivity) ltac:(vm_compute; reflexivity)
    ltac:(vm_compute; reflexivity)).
  vm_compute. reflexivity.
Defined.

(** ** Who is notified *)

(** A notification reaches exactly the destinations of the tiers up to the
    severity it concerns, widened to the peak the incident reached, each once;
    a higher peak never drops a destination. *)
Theorem ruleAtSeverity_destinations r s reached :
  (forall d, d ∈ rf_destinationIds (ruleAtSeverity r s reached) <->
     exists t, t ∈ rf_thresholds r /\ d ∈ at_destinationIds t /\
       severity_rank (at_severity t) <= Z.max (severity_rank s) (rank_of reached)) /\
  NoDup (rf_destinationIds (ruleAtSeverity r s reached)) /\
  (forall d peak, rank_of reached <= rank_of peak ->
     d ∈ rf_destinationIds (ruleAtSeverity r s reached) ->
     d ∈ rf_destinationIds (ruleAtSeverity r s peak)).
Proof.
  assert (Hd : forall reached d, d ∈ rf_destinationIds (ruleAtSeverity r s reached) <->
     exists t, t ∈ rf_thresholds r /\ d ∈ at_destinationIds t /\
       severity_rank (at_severity t) <= Z.max (severity_rank s) (rank_of reached)).
  { intros rd d. unfold ruleAtSeverity, destinationsUpTo. cbn [rf_destinationIds].
    assert (Hr : severity_rank (default s (maxSeverity (Some s) rd)) =
                 Z.max (severity_rank s) (rank_of rd)).
    { pose proof (severity_rank_pos s). pose proof (maxSeverity_rank (Some s) rd) as Hm.
      simpl in Hm. destruct rd as [x|]; simpl in *; [|lia]. by destruct (_ <=? _). }
    rewrite elem_of_dedupe, list_elem_of_In, in_concat. setoid_rewrite in_map_iff.
    setoid_rewrite filter_In. setoid_rewrite <- list_elem_of_In. setoid_rewrite Z.leb_le.
    rewrite Hr. naive_solver. }
  split_and!; [apply Hd|apply NoDup_dedupe|].
  intros d peak Hp. rewrite !Hd. intros (t & ? & ? & ?). exists t. split_and!; [done..|lia].
Qed.
