(* ===== verification/FiringSpans.v ===== *)
(** * Alerting: the firing-span preview

    [packages/backend/src/services/alerts/alert-firing-spans.ts]: a series of
    evaluated windows replayed through [planAlertLifecycle], with the wall time
    each severity would have been held open. *)

From stdpp Require Import prelude list sorting strings.
From Stdlib Require Import ZArith Lia Sorting.Sorted.
From S2P Require Import Prelude.
From S2P Require Import JsNum.
From S2P Require Import AlertTiers.
From S2P Require Import Hysteresis.
From S2P Require Import AlertLifecycle.

Open Scope Z_scope.

(** ** Data *)

Record replay_policy := {
  rp_breachesRequired : Z;
  rp_breachesOutOf : option Z;
  rp_healthyRequired : Z;
  rp_thresholds : list severity
}.

Record simulated_evaluation := {
  se_bucketMs : Z;
  se_evaluation : evaluation;
  se_provisional : bool
}.

Record firing_span := {
  fs_startMs : Z;
  fs_endMs : Z;
  fs_severity : severity
}.

Record open_span := { os_startMs : Z; os_severity : severity }.

Record replay_state := {
  rs_state : option stored_state;
  rs_incident : option incident;
  rs_open : option open_span;
  rs_recentBreaches : list (option Z);
  rs_lastCompleteBucketMs : option Z;
  rs_spans : list firing_span
}.

(** ** The replay *)

Definition MAX_SAFE_INTEGER : Z := 2 ^ 53 - 1.

Definition span_window (r : replay_policy) : Z :=
  default (rp_breachesRequired r) (rp_breachesOutOf r).

Definition policy_of (r : replay_policy) : lifecycle_policy := {|
  lp_breachesRequired := rp_breachesRequired r;
  lp_breachWindow := span_window r;
  lp_healthyRequired := rp_healthyRequired r;
  lp_renotifyIntervalMinutes := MAX_SAFE_INTEGER;
  lp_severities := rp_thresholds r |}.

Definition replay_initial : replay_state := {|
  rs_state := None; rs_incident := None; rs_open := None; rs_recentBreaches := [];
  rs_lastCompleteBucketMs := None; rs_spans := [] |}.

(** A planned state as the next tick reads it. *)
Definition stored_of (s : lifecycle_state) : stored_state := {|
  ss_breaches := ls_breaches s; ss_healthy := ls_healthy s; ss_history := Some (ls_history s) |}.

Definition replay_input (r : replay_policy) (acc : replay_state) (t : simulated_evaluation)
    : lifecycle_input := {|
  li_policy := policy_of r;
  li_evaluation := se_evaluation t;
  li_state := rs_state acc;
  li_openIncident := rs_incident acc;
  li_nowMs := se_bucketMs t;
  li_previousNotificationAtMs := None;
  li_allowNoDataResolution := negb (bool_decide (ev_status (se_evaluation t) = skipped)) |}.

Definition replay_plan (r : replay_policy) (acc : replay_state) (t : simulated_evaluation)
    : lifecycle_plan := planAlertLifecycle (replay_input r acc t).

(** [find((ms) => ms !== null)] *)
Fixpoint first_breach (l : list (option Z)) : option Z :=
  match l with
  | [] => None
  | Some ms :: _ => Some ms
  | None :: rest => first_breach rest
  end.

Definition next_incident (acc : replay_state) (bucketMs : Z) (plan : lifecycle_plan)
    : option incident :=
  match pl_severity plan with
  | None => None
  | Some s =>
      if bool_decide (pl_transition plan = lt_resolved) then None
      else Some {|
        in_severity := s;
        in_firstTriggeredAtMs :=
          match rs_incident acc with Some i => in_firstTriggeredAtMs i | None => bucketMs end;
        in_lastNotifiedAtMs := Some bucketMs;
        in_lastDelivered := Some trigger |}
  end.

Definition next_recent (r : replay_policy) (acc : replay_state) (t : simulated_evaluation)
    : list (option Z) :=
  match ev_status (se_evaluation t) with
  | skipped => rs_recentBreaches acc
  | st => js_slice_from (- span_window r)
            (rs_recentBreaches acc ++ [if bool_decide (st = breached) then Some (se_bucketMs t) else None])
  end.

(** The state after one tick: its incident and, when it opened, resolved or
    changed severity, the span that starts or ends. *)
Definition advance (r : replay_policy) (windowMs : Z) (acc : replay_state)
    (t : simulated_evaluation) (plan : lifecycle_plan) : replay_state :=
  let bucketMs := se_bucketMs t in
  let recentBreaches := next_recent r acc t in
  let base open recent spans := {|
    rs_state := Some (stored_of (pl_state plan));
    rs_incident := next_incident acc bucketMs plan;
    rs_open := open; rs_recentBreaches := recent;
    rs_lastCompleteBucketMs := Some bucketMs; rs_spans := spans |} in
  match pl_transition plan, pl_severity plan, rs_open acc with
  | lt_opened, Some s, _ =>
      base (Some {| os_startMs := default bucketMs (first_breach recentBreaches); os_severity := s |})
        recentBreaches (rs_spans acc)
  | lt_resolved, _, Some o =>
      base None []
        (rs_spans acc ++ [{| fs_startMs := os_startMs o; fs_endMs := bucketMs + windowMs;
                             fs_severity := os_severity o |}])
  | _, Some s, Some o =>
      if negb (bool_decide (s = os_severity o)) then
        base (Some {| os_startMs := bucketMs; os_severity := s |}) recentBreaches
          (rs_spans acc ++ [{| fs_startMs := os_startMs o; fs_endMs := bucketMs;
                               fs_severity := os_severity o |}])
      else base (rs_open acc) recentBreaches (rs_spans acc)
  | _, _, _ => base (rs_open acc) recentBreaches (rs_spans acc)
  end.

Definition replay_tick (r : replay_policy) (windowMs : Z) (acc : replay_state)
    (t : simulated_evaluation) : replay_state :=
  advance r windowMs acc t (replay_plan r acc t).

Definition complete_ticks (evaluations : list simulated_evaluation) : list simulated_evaluation :=
  List.filter (fun t => negb (se_provisional t)) evaluations.

(** A run still open closes at the last complete window. *)
Definition close_spans (windowMs : Z) (final : replay_state) : list firing_span :=
  match rs_open final, rs_lastCompleteBucketMs final with
  | Some o, Some b =>
      rs_spans final ++ [{| fs_startMs := os_startMs o; fs_endMs := b + windowMs;
                            fs_severity := os_severity o |}]
  | _, _ => rs_spans final
  end.

Definition simulateFiringSpans (evaluations : list simulated_evaluation) (r : replay_policy)
    (windowMs : Z) : list firing_span :=
  close_spans windowMs
    (fold_left (replay_tick r windowMs) (complete_ticks evaluations) replay_initial).

(** ** A one-tier rule is the consecutive-count machine *)

Fixpoint replay_transitions (r : replay_policy) (windowMs : Z) (acc : replay_state)
    (ticks : list simulated_evaluation) : list lifecycle_transition :=
  match ticks with
  | [] => []
  | t :: rest =>
      pl_transition (replay_plan r acc t)
      :: replay_transitions r windowMs (replay_tick r windowMs acc t) rest
  end.

Definition lifecycle_of (t : transition) : lifecycle_transition :=
  match t with
  | t_open => lt_opened
  | t_continue => lt_continued
  | t_resolve => lt_resolved
  | t_noop => lt_none
  end.

Lemma advance_incident r w acc t plan :
  rs_incident (advance r w acc t plan) = next_incident acc (se_bucketMs t) plan.
Proof. unfold advance. repeat case_match; done. Qed.

Lemma advance_state r w acc t plan :
  rs_state (advance r w acc t plan) = Some (stored_of (pl_state plan)).
Proof. unfold advance. repeat case_match; done. Qed.

Definition code_of (s : severity) (b : bool) : Z :=
  encodeTick [{| l_severity := s; l_status := if b then breach else clear |}].

(** The tick history of a run of verdicts, newest first. *)
Definition history_of (s : severity) (seen : list bool) : list Z := map (code_of s) (rev seen).

Lemma code_of_clear s b : is_status s clear (code_of s b) = negb b.
Proof. by destruct s, b. Qed.

Lemma code_of_breach s b : is_status s breach (code_of s b) = b.
Proof. by destruct s, b. Qed.

Lemma history_of_cons s b seen : history_of s (b :: seen) = history_of s seen ++ [code_of s b].
Proof. unfold history_of. simpl. by rewrite map_app. Qed.

Lemma clear_run s seen :
  trailingRun (history_of s seen) (is_status s clear) = leading_run false seen.
Proof.
  induction seen as [|b seen IH]; [done|].
  rewrite history_of_cons, trailingRun_snoc, code_of_clear, IH. destruct b; simpl; lia.
Qed.

Lemma count_take n seen :
  (n <= length (List.filter (fun b => b) (take n seen)))%nat <->
  Z.of_nat n <= leading_run true seen.
Proof.
  revert seen. induction n as [|n IH]; intros seen; simpl.
  - pose proof (leading_run_nonneg true seen). lia.
  - destruct seen as [|[] seen]; simpl; [lia|specialize (IH seen); lia|].
    pose proof (List.filter_length_le (fun b => b) (take n seen)) as Hle.
    rewrite length_take in Hle. lia.
Qed.

Lemma breach_count s l :
  length (List.filter (is_status s breach) (map (code_of s) l)) =
  length (List.filter (fun b => b) l).
Proof.
  induction l as [|b l IH]; simpl; [done|]. rewrite code_of_breach. destruct b; simpl; lia.
Qed.

(** With M = N, N breaches among the last M ticks are N in a row. *)
Lemma recent_breaches s N seen :
  1 <= N ->
  (N <=? Z.of_nat (length (List.filter (is_status s breach)
                             (js_slice_from (- N) (history_of s seen))))) =
  (N <=? leading_run true seen).
Proof.
  intros HN. unfold history_of. rewrite js_slice_from_neg, length_map, length_rev by lia.
  rewrite List.skipn_map, List.skipn_rev, breach_count.
  assert (Hl : length (List.filter (fun b => b) (rev (take (length seen - (length seen - Z.to_nat N)) seen)))
             = length (List.filter (fun b => b) (take (Z.to_nat N) seen))).
  { rewrite <- Permutation_rev. f_equal. f_equal.
    destruct (decide (Z.to_nat N <= length seen)%nat); [f_equal; lia|].
    rewrite !take_ge by lia. done. }
  rewrite Hl. pose proof (count_take (Z.to_nat N) seen).
  apply eq_true_iff_eq. rewrite !Z.leb_le. lia.
Qed.

Lemma resolve_one_tier s N R seen b current :
  1 <= N ->
  resolveActiveSeverity (history_of s (b :: seen)) [s] current
    {| breachesToOpen := N; breachWindow := N; healthyToResolve := R |} =
  if b && (N <=? leading_run true (b :: seen)) then Some s
  else if (severity_rank s <=? rank_of current) && (leading_run false (b :: seen) <? R)
  then Some s else None.
Proof.
  intros HN. unfold resolveActiveSeverity, at_last.
  rewrite history_of_cons at 1. rewrite last_snoc. cbn [js_sort foldr insert_by resolve_loop].
  cbn [breachWindow breachesToOpen healthyToResolve].
  by rewrite recent_breaches, clear_run, code_of_breach by done.
Qed.

Section OneTier.
Context (s : severity) (N R : Z) (HN : 1 <= N) (HR : 1 <= R).

Definition one_tier_rule : replay_policy := {|
  rp_breachesRequired := N; rp_breachesOutOf := None; rp_healthyRequired := R;
  rp_thresholds := [s] |}.

Definition count_config : config :=
  {| cfg_breachesToOpen := N; cfg_healthyToResolve := R; cfg_cooldownMs := 0 |}.

Definition observation_of (t : simulated_evaluation) : observation :=
  {| ob_status := ev_status (se_evaluation t); ob_nowMs := se_bucketMs t; ob_grant := true |}.

(** What the evaluator gives a rule with one tier and no recovery value. *)
Definition one_tier_levels (st : status) : list tier_level :=
  match st with
  | breached => [{| l_severity := s; l_status := breach |}]
  | healthy => [{| l_severity := s; l_status := clear |}]
  | skipped => []
  end.

Lemma one_tier_evaluation pol t o reason :
  ep_tiers pol = [t] -> t_severity t = s -> t_recovery t = None ->
  let ev := evaluateAlertObservation pol o reason in
  ev_levels ev = one_tier_levels (ev_status ev).
Proof.
  intros Ht Hs Hr. unfold evaluateAlertObservation, classifyTier.
  rewrite Ht. cbn [map existsb]. rewrite Hs, Hr.
  do 2 (destruct (negb (obs_hasData o) && _); [done|]).
  destruct (num_ltb _ _); [done|].
  destruct (if obs_hasData o then _ else _) as [v|]; [|done].
  by destruct (compareAlertThreshold v _ _ _).
Qed.

Definition one_tier_policy : tiered_policy := hysteresis_of (policy_of one_tier_rule).

(** The replayed row against the contract's memory. *)
Record replay_rel (acc : replay_state) (sp : spec_state) : Prop := {
  rr_state : match rs_state acc with
             | None => sp_seen sp = []
             | Some st => ss_history st = Some (kept one_tier_policy (history_of s (sp_seen sp)))
             end;
  rr_incident : match rs_incident acc with
                | None => sp_open sp = false
                | Some inc => sp_open sp = true /\ in_severity inc = s
                end
}.

Lemma replay_history acc sp current :
  replay_rel acc sp ->
  ls_history (previous_state (policy_of one_tier_rule) (rs_state acc) current) =
  kept one_tier_policy (history_of s (sp_seen sp)).
Proof.
  intros [Hs _]. destruct (rs_state acc) as [st|]; simpl.
  - by rewrite Hs.
  - rewrite Hs. symmetry. apply kept_nil.
Qed.

Lemma no_cooldown resolvedAt now : quiet count_config resolvedAt now = false.
Proof. by destruct resolvedAt. Qed.

Lemma window_pos : 0 < breachWindow one_tier_policy.
Proof. change (0 < N). lia. Qed.

(** The planned state and severity after a tick that was not skipped. *)
Lemma replay_history_next acc sp current b :
  replay_rel acc sp ->
  appendTick (ls_history (previous_state (policy_of one_tier_rule) (rs_state acc) current))
    (code_of s b) one_tier_policy = kept one_tier_policy (history_of s (b :: sp_seen sp)).
Proof.
  intros Hrel. rewrite (replay_history _ _ _ Hrel), appendTick_kept by apply window_pos.
  by rewrite history_of_cons.
Qed.

Lemma resolve_next seen b current :
  resolveActiveSeverity (kept one_tier_policy (history_of s (b :: seen))) [s] current one_tier_policy =
  if b && (N <=? leading_run true (b :: seen)) then Some s
  else if (severity_rank s <=? rank_of current) && (leading_run false (b :: seen) <? R)
  then Some s else None.
Proof. rewrite resolve_kept by apply window_pos. by apply resolve_one_tier. Qed.

Lemma nearest_one : nearestSeverity s [s] = s.
Proof. unfold nearestSeverity. by rewrite bool_decide_true by set_solver. Qed.

Definition next_severity (b : bool) (seen : list bool) (current : option severity) : option severity :=
  if b && (N <=? leading_run true (b :: seen)) then Some s
  else if (severity_rank s <=? rank_of current) && (leading_run false (b :: seen) <? R)
  then Some s else None.

Definition verdict (b : bool) : status := if b then breached else healthy.

Lemma replay_plan_ticked acc sp t b :
  replay_rel acc sp ->
  ev_status (se_evaluation t) = verdict b ->
  ev_levels (se_evaluation t) = one_tier_levels (ev_status (se_evaluation t)) ->
  exists st,
    ls_history st = kept one_tier_policy (history_of s (b :: sp_seen sp)) /\
    replay_plan one_tier_rule acc t =
      match rs_incident acc with
      | None => plan_closed (replay_input one_tier_rule acc t) st (next_severity b (sp_seen sp) None)
      | Some inc => plan_open (replay_input one_tier_rule acc t) st inc (Some s)
                      (next_severity b (sp_seen sp) (Some s))
      end.
Proof.
  intros Hrel Hst Hl. pose proof Hrel as [_ Hi]. rewrite Hst in Hl.
  assert (Hcode : encodeTick (ev_levels (se_evaluation t)) = code_of s b).
  { rewrite Hl. by destruct b. }
  unfold replay_plan, planAlertLifecycle. cbn zeta.
  cbn [replay_input li_evaluation li_policy li_openIncident li_state].
  fold one_tier_policy. rewrite Hst, Hcode, (replay_history_next acc sp) by done.
  cbn [policy_of lp_severities one_tier_rule rp_thresholds].
  destruct (rs_incident acc) as [inc|]; cbn [option_map].
  - destruct Hi as [_ ->]. rewrite nearest_one, resolve_next.
    destruct b; cbn [verdict]; eexists; (split; [|reflexivity]); done.
  - rewrite resolve_next. destruct b; cbn [verdict]; eexists; (split; [|reflexivity]); done.
Qed.

(** One replayed tick is one step of the contract. *)
Definition step_agrees (acc : replay_state) (sp : spec_state) (t : simulated_evaluation) : Prop :=
  let plan := replay_plan one_tier_rule acc t in
  let '(sp', tr) := spec_step count_config sp (observation_of t) in
  pl_transition plan = lifecycle_of tr /\
  ls_history (pl_state plan) = kept one_tier_policy (history_of s (sp_seen sp')) /\
  match next_incident acc (se_bucketMs t) plan with
  | None => sp_open sp' = false
  | Some inc => sp_open sp' = true /\ in_severity inc = s
  end.

Lemma replay_plan_skipped acc sp t :
  replay_rel acc sp -> ev_status (se_evaluation t) = skipped ->
  exists st hold,
    ls_history st = kept one_tier_policy (history_of s (sp_seen sp)) /\
    replay_plan one_tier_rule acc t =
      noTransition st (match rs_incident acc with Some _ => Some s | None => None end) hold.
Proof.
  intros Hrel Hst. pose proof Hrel as [_ Hi].
  unfold replay_plan, planAlertLifecycle. cbn zeta.
  cbn [replay_input li_evaluation li_policy li_openIncident li_state li_allowNoDataResolution].
  rewrite Hst. rewrite (bool_decide_true (skipped = skipped)) by done. cbn [negb].
  set (prev := previous_state _ _ _).
  assert (Hh : ls_history prev = kept one_tier_policy (history_of s (sp_seen sp)))
    by by apply replay_history.
  destruct (rs_incident acc) as [inc|]; cbn [option_map policy_of lp_severities one_tier_rule rp_thresholds].
  - destruct Hi as [_ ->]. rewrite nearest_one.
    destruct (bool_decide _); exists prev; eexists; (split; [done|reflexivity]).
  - exists prev, None. done.
Qed.

Lemma replay_step_skipped acc sp t :
  replay_rel acc sp -> ev_status (se_evaluation t) = skipped -> step_agrees acc sp t.
Proof.
  intros Hrel Hst. pose proof Hrel as [_ Hi].
  destruct (replay_plan_skipped _ _ _ Hrel Hst) as (st & h & Hh & Hp).
  unfold step_agrees, spec_step. rewrite Hp. cbn zeta. cbn [observation_of ob_status].
  rewrite Hst. split; [done|]. split; [done|].
  unfold next_incident. cbn [noTransition pl_severity pl_transition].
  destruct (rs_incident acc); [|done]. rewrite bool_decide_false by done.
  split; [by destruct Hi|done].
Qed.

Lemma next_standing b seen :
  next_severity b seen (Some s) =
  if negb b && (R <=? leading_run false (false :: seen)) then None else Some s.
Proof.
  unfold next_severity. cbn [rank_of]. rewrite Z.leb_refl.
  destruct b; cbn [negb andb].
  - destruct (_ <=? _); [done|]. simpl. by destruct (Z.ltb_spec 0 R); [|lia].
  - rewrite Z.leb_antisym. by destruct (_ <? R).
Qed.

Lemma next_closed b seen :
  next_severity b seen None = if b && (N <=? leading_run true (b :: seen)) then Some s else None.
Proof.
  unfold next_severity. cbn [rank_of]. pose proof (severity_rank_pos s).
  by destruct (Z.leb_spec (severity_rank s) 0); [lia|].
Qed.

Lemma plan_open_standing i st inc b :
  in_severity inc = s -> ev_status (li_evaluation i) = verdict b ->
  let pl := plan_open i st inc (Some s) (Some s) in
  pl_transition pl = (if b then lt_continued else lt_none) /\
  pl_state pl = st /\ pl_severity pl = Some s.
Proof.
  intros Hs Hb. unfold plan_open. rewrite Hs, Hb, bool_decide_true by done. cbn [negb andb].
  by destruct b.
Qed.

Lemma replay_step_ticked acc sp t b :
  replay_rel acc sp ->
  ev_status (se_evaluation t) = verdict b ->
  ev_levels (se_evaluation t) = one_tier_levels (ev_status (se_evaluation t)) ->
  step_agrees acc sp t.
Proof.
  intros Hrel Hst Hl. pose proof Hrel as [_ Hi].
  destruct (replay_plan_ticked _ _ _ _ Hrel Hst Hl) as (st & Hh & Hp).
  unfold step_agrees, spec_step. rewrite Hp. cbn zeta. cbn [observation_of ob_status].
  rewrite Hst, no_cooldown, andb_true_r.
  cbn [ob_grant ob_nowMs count_config cfg_breachesToOpen cfg_healthyToResolve].
  destruct (rs_incident acc) as [inc|] eqn:Ei.
  - destruct Hi as [-> Hs]. rewrite next_standing.
    destruct (negb b && (R <=? leading_run false (false :: sp_seen sp))) eqn:E.
    + apply andb_true_iff in E as [Eb%negb_true_iff ER]. subst b. cbn [verdict andb]. rewrite ER.
      unfold plan_open. cbn [replay_input li_allowNoDataResolution]. rewrite Hst.
      rewrite (bool_decide_false (verdict false = skipped)) by done. cbn [negb].
      rewrite andb_false_r. done.
    + destruct (plan_open_standing (replay_input one_tier_rule acc t) st inc b Hs Hst)
        as (Ht & Hps & Hsev).
      unfold next_incident. rewrite Ht, Hps, Hsev.
      rewrite bool_decide_false by by destruct b.
      destruct b; cbn [verdict]; [done|]. cbn [negb andb] in E |- *. rewrite E. done.
  - rewrite Hi, next_closed. destruct b; cbn [verdict andb]; [|done].
    destruct (N <=? _); done.
Qed.

Lemma replay_step acc sp t w :
  replay_rel acc sp ->
  ev_levels (se_evaluation t) = one_tier_levels (ev_status (se_evaluation t)) ->
  pl_transition (replay_plan one_tier_rule acc t) =
    lifecycle_of (spec_step count_config sp (observation_of t)).2 /\
  replay_rel (replay_tick one_tier_rule w acc t) (spec_step count_config sp (observation_of t)).1.
Proof.
  intros Hrel Hl.
  assert (Ha : step_agrees acc sp t).
  { destruct (ev_status (se_evaluation t)) eqn:Est.
    - by apply (replay_step_ticked _ _ _ true); rewrite ?Est.
    - by apply (replay_step_ticked _ _ _ false); rewrite ?Est.
    - by apply replay_step_skipped. }
  unfold step_agrees in Ha. destruct (spec_step _ _ _) as [sp' tr]. cbn zeta in Ha.
  destruct Ha as (Ht & Hh & Hn). split; [done|]. cbn [fst]. unfold replay_tick.
  split; [rewrite advance_state; cbn [stored_of ss_history]; by rewrite Hh|].
  by rewrite advance_incident.
Qed.

Lemma replay_run w ticks acc sp :
  replay_rel acc sp ->
  (forall t, t ∈ ticks ->
     ev_levels (se_evaluation t) = one_tier_levels (ev_status (se_evaluation t))) ->
  replay_transitions one_tier_rule w acc ticks =
  map lifecycle_of (run (spec_step count_config) sp (map observation_of ticks)).
Proof.
  revert acc sp. induction ticks as [|t ticks IH]; intros acc sp Hrel Hl; [done|].
  cbn [replay_transitions map run].
  destruct (replay_step acc sp t w Hrel (Hl t ltac:(set_solver))) as [Ht Hr].
  destruct (spec_step count_config sp (observation_of t)) as [sp' tr]. cbn [fst snd map] in *.
  rewrite Ht. f_equal. apply IH; [done|]. intros t' Ht'. apply Hl. set_solver.
Qed.

(** For a rule with one tier, no recovery value and M = N, the tiered
    lifecycle replayed over any observations opens, continues and resolves
    exactly as folding the same verdicts into the consecutive-count machine
    with no cooldown. *)
Theorem one_tier_is_consecutive_count pol tr w (series : list (Z * alert_observation)) reason
    (Ht : ep_tiers pol = [tr]) (Hs : t_severity tr = s) (Hr : t_recovery tr = None) :
  let ticks := map (fun e => {| se_bucketMs := e.1;
                                se_evaluation := evaluateAlertObservation pol e.2 reason;
                                se_provisional := false |}) series in
  replay_transitions one_tier_rule w replay_initial ticks =
  map lifecycle_of (run (row_step count_config) row_init (map observation_of ticks)).
Proof.
  intros ticks. rewrite (run_rel count_config HN HR _ _ _ (row_rel_init count_config HN HR)).
  apply replay_run; [by split|].
  intros t [e [-> _]]%list_elem_of_fmap. by apply (one_tier_evaluation pol tr).
Qed.
End OneTier.

Definition tier_above_5 (s : severity) : tier :=
  {| t_severity := s; t_value := num_of_Z 5; t_upper := None; t_recovery := None |}.

Definition policy_above_5 : evaluation_policy := {|
  ep_comparator := cmp_gt; ep_threshold := num_of_Z 5; ep_thresholdUpper := None;
  ep_tiers := [tier_above_5 critical]; ep_minimumSampleCount := num_of_Z 1;
  ep_noDataBehavior := nd_skip |}.

Definition sample (v : Z) : alert_observation :=
  {| obs_value := Some (num_of_Z v); obs_sampleCount := num_of_Z 9; obs_hasData := true |}.

Definition series_demo : list (Z * alert_observation) :=
  [(60, sample 9); (120, sample 9);
   (180, {| obs_value := None; obs_sampleCount := num_of_Z 0; obs_hasData := false |});
   (240, sample 9); (300, sample 1); (360, sample 1)].

Definition ticks_of (pol : evaluation_policy) (series : list (Z * alert_observation))
    : list simulated_evaluation :=
  map (fun e => {| se_bucketMs := e.1;
                   se_evaluation := evaluateAlertObservation pol e.2 String.EmptyString;
                   se_provisional := false |}) series.

Example one_tier_is_consecutive_count_witness :
  replay_transitions (one_tier_rule critical 2 2) 60 replay_initial (ticks_of policy_above_5 series_demo)
  = [lt_none; lt_opened; lt_none; lt_continued; lt_none; lt_resolved].
Proof.
  unfold ticks_of.
  rewrite (one_tier_is_consecutive_count critical 2 2 ltac:(lia) ltac:(lia) policy_above_5
             (tier_above_5 critical) 60 series_demo String.EmptyString eq_refl eq_refl eq_refl).
  vm_compute. reflexivity.
Defined.

(** ** The spans of a preview *)

(** Buckets at least one window apart, in order. *)
Fixpoint spaced (windowMs : Z) (buckets : list Z) : Prop :=
  match buckets with
  | [] => True
  | b :: rest =>
      match rest with [] => True | b' :: _ => b + windowMs <= b' end /\ spaced windowMs rest
  end.

(** The incident standing after each tick. *)
Fixpoint standing_after (r : replay_policy) (windowMs : Z) (acc : replay_state)
    (ticks : list simulated_evaluation) : list (Z * option severity) :=
  match ticks with
  | [] => []
  | t :: rest =>
      let acc' := replay_tick r windowMs acc t in
      (se_bucketMs t, option_map in_severity (rs_incident acc'))
      :: standing_after r windowMs acc' rest
  end.

Definition covers (sp : firing_span) (b : Z) (s : severity) : Prop :=
  fs_startMs sp <= b < fs_endMs sp /\ fs_severity sp = s.

Definition span_before (a b : firing_span) : Prop := fs_endMs a <= fs_startMs b.

Section Spans.
Context (r : replay_policy) (w : Z) (Hw : 0 < w).

(** The spans closed so far end by [from]. *)
Definition spans_end (spans : list firing_span) (from : Z) : Prop :=
  Forall (fun sp => fs_endMs sp <= from) spans.

Definition spans_ok (spans : list firing_span) : Prop :=
  StronglySorted span_before spans /\ Forall (fun sp => fs_startMs sp < fs_endMs sp) spans.

(** What holds after every tick: closed spans are ordered and non-empty, the
    open span starts after them and follows the incident's severity, and the
    breaches remembered while nothing is open are later than every span. *)
Record replay_inv (acc : replay_state) (last : Z) : Prop := {
  ri_last : match rs_lastCompleteBucketMs acc with
            | Some b => b = last
            | None => rs_open acc = None
            end;
  ri_spans : spans_ok (rs_spans acc);
  ri_recent : forall ms, Some ms ∈ rs_recentBreaches acc -> ms <= last;
  ri_open : match rs_open acc, rs_incident acc with
            | Some o, Some inc =>
                os_severity o = in_severity inc /\ os_startMs o <= last /\
                spans_end (rs_spans acc) (os_startMs o)
            | None, None =>
                spans_end (rs_spans acc) (last + w) /\
                forall ms, Some ms ∈ rs_recentBreaches acc -> spans_end (rs_spans acc) ms
            | _, _ => False
            end
}.

Lemma spans_end_le spans a b : spans_end spans a -> a <= b -> spans_end spans b.
Proof. intros H Hab. eapply Forall_impl; [exact H|]. simpl. lia. Qed.

Lemma spans_ok_snoc spans sp :
  spans_ok spans -> spans_end spans (fs_startMs sp) -> fs_startMs sp < fs_endMs sp ->
  spans_ok (spans ++ [sp]).
Proof.
  intros [Hs Hf] He Hlt. split.
  - apply StronglySorted_app_2; [|done|by repeat constructor].
    unfold spans_end in He. rewrite Forall_forall in He. intros a b Ha Hb.
    apply list_elem_of_singleton in Hb as ->. by apply He.
  - apply Forall_app. by split; [|repeat constructor].
Qed.

Lemma spans_end_snoc spans sp b :
  spans_end spans b -> fs_endMs sp <= b -> spans_end (spans ++ [sp]) b.
Proof. intros H Hb. apply Forall_app. by split; [|repeat constructor]. Qed.

Lemma first_breach_in l ms : first_breach l = Some ms -> Some ms ∈ l.
Proof. induction l as [|[x|] l IH]; simpl; [done|intros [= ->]; set_solver|set_solver]. Qed.

Lemma next_recent_in acc t ms :
  Some ms ∈ next_recent r acc t -> Some ms ∈ rs_recentBreaches acc \/ ms = se_bucketMs t.
Proof.
  unfold next_recent. intros H.
  destruct (ev_status (se_evaluation t)); simpl in H;
    try (apply elem_of_js_slice in H); set_solver.
Qed.

Lemma inv_closed acc last t :
  replay_inv acc last -> last + w <= se_bucketMs t -> rs_incident acc = None ->
  replay_inv (replay_tick r w acc t) (se_bucketMs t).
Proof.
  intros [_ Hs Hr Ho] Hb Hi. rewrite Hi in Ho.
  destruct (rs_open acc) as [o|] eqn:Eo; [done|]. destruct Ho as [He Hre].
  pose proof (plan_coherent (replay_input r acc t)) as Hc. fold (replay_plan r acc t) in Hc.
  assert (Hrec : forall ms, Some ms ∈ next_recent r acc t ->
            ms <= se_bucketMs t /\ spans_end (rs_spans acc) ms).
  { intros ms [Hm| ->]%next_recent_in.
    - split; [apply Hr in Hm; lia|by apply Hre].
    - split; [lia|]. by eapply spans_end_le. }
  unfold replay_tick, advance. rewrite Eo.
  destruct (coh_closed _ _ Hc Hi) as [Ht|Ht].
  - destruct (pl_severity (replay_plan r acc t)) as [sv|] eqn:Esv.
    { pose proof (proj1 (coh_standing _ _ Hc) ltac:(rewrite Esv; eauto)) as [Ho'|[[? Ho'] _]];
        [congruence|cbn in Ho'; congruence]. }
    rewrite Ht. split; cbn; [done|done|naive_solver|].
    unfold next_incident. rewrite Esv. split; [eapply spans_end_le; [done|lia]|naive_solver].
  - destruct (coh_opened _ _ Hc Ht) as (_ & sv & Esv & _). rewrite Ht, Esv.
    split; cbn; [done|done|naive_solver|].
    unfold next_incident. rewrite Esv, Ht, bool_decide_false by done. cbn.
    split; [done|]. destruct (first_breach _) as [ms|] eqn:Ef; cbn.
    + apply first_breach_in in Ef. naive_solver.
    + split; [lia|]. by eapply spans_end_le.
Qed.

Lemma inv_open acc last t inc :
  replay_inv acc last -> last + w <= se_bucketMs t -> rs_incident acc = Some inc ->
  replay_inv (replay_tick r w acc t) (se_bucketMs t).
Proof.
  intros [_ Hs Hr Ho] Hb Hi. rewrite Hi in Ho.
  destruct (rs_open acc) as [o|] eqn:Eo; [|done]. destruct Ho as (Hsv & Hol & He).
  pose proof (plan_coherent (replay_input r acc t)) as Hc. fold (replay_plan r acc t) in Hc.
  assert (Hrec : forall ms, Some ms ∈ next_recent r acc t -> ms <= se_bucketMs t).
  { intros ms [Hm| ->]%next_recent_in; [apply Hr in Hm|]; lia. }
  assert (Hno : pl_transition (replay_plan r acc t) <> lt_opened).
  { intros Ht. destruct (coh_opened _ _ Hc Ht) as [Hn _]. cbn in Hn. congruence. }
  destruct (decide (pl_transition (replay_plan r acc t) = lt_resolved)) as [Ht|Ht].
  - unfold replay_tick, advance, next_incident. rewrite Eo, Ht.
    destruct (pl_severity (replay_plan r acc t)); split; cbn; try set_solver;
      try (apply spans_ok_snoc; cbn; [done|done|lia]);
      (split; [apply spans_end_snoc; cbn; [eapply spans_end_le; [done|lia]|lia]|set_solver]).
  - destruct (pl_severity (replay_plan r acc t)) as [sv|] eqn:Esv.
    2: { exfalso. destruct (proj2 (coh_standing _ _ Hc)) as [x Hx]; [|congruence].
         right. split; [cbn; eauto|done]. }
    assert (Hadv : rs_open (replay_tick r w acc t) =
              (if negb (bool_decide (sv = os_severity o))
               then Some {| os_startMs := se_bucketMs t; os_severity := sv |} else rs_open acc) /\
            rs_spans (replay_tick r w acc t) =
              (if negb (bool_decide (sv = os_severity o))
               then rs_spans acc ++ [{| fs_startMs := os_startMs o; fs_endMs := se_bucketMs t;
                                        fs_severity := os_severity o |}]
               else rs_spans acc) /\
            rs_recentBreaches (replay_tick r w acc t) = next_recent r acc t /\
            rs_lastCompleteBucketMs (replay_tick r w acc t) = Some (se_bucketMs t)).
    { unfold replay_tick, advance. rewrite Eo, Esv.
      destruct (pl_transition _); try done; by destruct (negb _). }
    destruct Hadv as (A1 & A2 & A3 & A4).
    assert (A5 : option_map in_severity (rs_incident (replay_tick r w acc t)) = Some sv).
    { unfold replay_tick. rewrite advance_incident. unfold next_incident.
      by rewrite Esv, bool_decide_false. }
    split; rewrite ?A1, ?A2, ?A3, ?A4; [done| |done|].
    + destruct (negb _); [|done]. apply spans_ok_snoc; cbn; [done|done|lia].
    + destruct (rs_incident (replay_tick r w acc t)) as [inc'|]; [|done]. cbn in A5.
      injection A5 as A5. case_bool_decide; cbn [negb].
      * rewrite Eo. split_and!; [congruence|lia|done].
      * cbn. split_and!; [done|lia|]. apply spans_end_snoc; cbn; [|lia].
        eapply spans_end_le; [done|lia].
Qed.

Definition covered (acc : replay_state) (b : Z) (s : severity) : Prop :=
  (exists sp, sp ∈ rs_spans acc /\ covers sp b s) \/
  (exists o, rs_open acc = Some o /\ os_startMs o <= b /\ os_severity o = s).

(** What was covered stays covered. *)
Lemma covered_step acc last t b s :
  replay_inv acc last -> covered acc b s -> b <= last -> last + w <= se_bucketMs t ->
  covered (replay_tick r w acc t) b s.
Proof.
  intros Hinv [(sp & Hin & Hc)|(o & Ho & Hb & Hs)] Hl Ht; unfold replay_tick, advance.
  - left. exists sp. split; [|done]. repeat case_match; cbn; set_solver.
  - assert (Hno : pl_transition (replay_plan r acc t) <> lt_opened).
    { intros Htr. pose proof (ri_open _ _ Hinv) as Hi. rewrite Ho in Hi.
      destruct (coh_opened _ _ (plan_coherent _) Htr) as [Hn _]. cbn in Hn. by rewrite Hn in Hi. }
    rewrite Ho.
    assert (Hclose : forall e, se_bucketMs t <= e -> exists sp,
      sp ∈ rs_spans acc ++ [{| fs_startMs := os_startMs o; fs_endMs := e; fs_severity := os_severity o |}]
      /\ covers sp b s).
    { intros e He. eexists. split; [apply elem_of_app; right; by apply list_elem_of_singleton|].
      split; cbn; [lia|done]. }
    destruct (pl_transition (replay_plan r acc t)) eqn:Etr, (pl_severity (replay_plan r acc t));
      cbn; try (destruct (negb _)); cbn;
      try (right; exists o; split_and!; cbn; done);
      try (left; apply Hclose; lia).
Qed.

Lemma covered_now acc last s :
  replay_inv acc last -> option_map in_severity (rs_incident acc) = Some s -> covered acc last s.
Proof.
  intros [_ _ _ Ho] Hi. destruct (rs_incident acc) as [inc|]; [|done]. injection Hi as <-.
  destruct (rs_open acc) as [o|] eqn:E; [|done]. right. exists o. naive_solver.
Qed.

Lemma replay_inv_step acc last t :
  replay_inv acc last -> last + w <= se_bucketMs t ->
  replay_inv (replay_tick r w acc t) (se_bucketMs t).
Proof.
  intros. destruct (rs_incident acc) eqn:E; [by eapply inv_open|by eapply inv_closed].
Qed.

Lemma replay_inv_fold ticks acc last :
  replay_inv acc last ->
  (match ticks with [] => True | t :: _ => last + w <= se_bucketMs t end) ->
  spaced w (map se_bucketMs ticks) ->
  let final := fold_left (replay_tick r w) ticks acc in
  (exists last', last <= last' /\ replay_inv final last' /\
     forall b s, covered acc b s -> b <= last -> covered final b s) /\
  (forall b s, (b, Some s) ∈ standing_after r w acc ticks -> covered final b s /\
     forall x, rs_lastCompleteBucketMs final = Some x -> b <= x).
Proof.
  revert acc last. induction ticks as [|t ticks IH]; intros acc last Hinv Hfirst Hsp; cbn.
  - split; [|set_solver]. exists last. naive_solver.
  - cbn in Hsp. destruct Hsp as [Hnext Hsp].
    pose proof (replay_inv_step _ _ _ Hinv Hfirst) as Hstep.
    destruct (IH (replay_tick r w acc t) (se_bucketMs t) Hstep) as [(last' & Hle & Hfin & Hcov) Hstand];
      [by destruct ticks|done|].
    split.
    + exists last'. split_and!; [lia|done|]. intros b s Hc Hb.
      apply Hcov; [by eapply covered_step|lia].
    + intros b s [Heq|Hin]%elem_of_cons; [|by apply Hstand].
      injection Heq as -> Hs. split.
      * apply Hcov; [by eapply covered_now|lia].
      * intros x Hx. pose proof (ri_last _ _ Hfin) as Hlast. rewrite Hx in Hlast. lia.
Qed.

Lemma replay_inv_initial last : replay_inv replay_initial last.
Proof. split; cbn; repeat constructor; set_solver. Qed.

(** Over complete windows at least one window apart, the previewed spans
    are non-empty, in order and disjoint, and every tick that leaves an
    incident standing lies inside a span of that incident's severity. *)
Theorem firing_spans_sound evaluations
    (Hsp : spaced w (map se_bucketMs (complete_ticks evaluations))) :
  let spans := simulateFiringSpans evaluations r w in
  StronglySorted span_before spans /\
  Forall (fun sp => fs_startMs sp < fs_endMs sp) spans /\
  forall b s, (b, Some s) ∈ standing_after r w replay_initial (complete_ticks evaluations) ->
    exists sp, sp ∈ spans /\ covers sp b s.
Proof.
  unfold simulateFiringSpans. set (ticks := complete_ticks evaluations) in *.
  set (from := match ticks with [] => 0 | t :: _ => se_bucketMs t - w end).
  destruct (replay_inv_fold ticks replay_initial from (replay_inv_initial _)) as
    [(last & _ & Hinv & _) Hstand]; [destruct ticks; cbn; [done|lia]|done|].
  set (final := fold_left _ ticks replay_initial) in *.
  unfold close_spans. destruct Hinv as [Hl Hs _ Ho].
  destruct (rs_open final) as [o|] eqn:Eo.
  - destruct (rs_lastCompleteBucketMs final) as [b'|] eqn:El; [|done]. subst b'.
    destruct (rs_incident final) as [inc|]; [|done]. destruct Ho as (_ & Hol & He).
    destruct (spans_ok_snoc (rs_spans final) {| fs_startMs := os_startMs o; fs_endMs := last + w;
      fs_severity := os_severity o |}) as [H1 H2]; cbn; [done|done|lia|].
    split_and!; [done|done|]. intros b s [Hc Hb]%Hstand. specialize (Hb last eq_refl).
    destruct Hc as [(sp & Hin & Hc)|(o' & Ho' & Hle & <-)]; [exists sp; set_solver|].
    rewrite Eo in Ho'. injection Ho' as <-.
    eexists. split; [apply elem_of_app; right; by apply list_elem_of_singleton|].
    split; cbn; [lia|done].
  - destruct Hs. split_and!; [done|done|]. intros b s [[Hc|(o & Ho' & _)] _]%Hstand; [|congruence].
    done.
Qed.
End Spans.

Definition rule_2_of_3 : replay_policy := {|
  rp_breachesRequired := 2; rp_breachesOutOf := Some 3; rp_healthyRequired := 1;
  rp_thresholds := [critical] |}.

Example firing_spans_sound_witness :
  simulateFiringSpans (ticks_of policy_above_5 series_demo) rule_2_of_3 60 =
    [{| fs_startMs := 60; fs_endMs := 360; fs_severity := critical |}] /\
  Forall (fun sp => fs_startMs sp < fs_endMs sp)
    (simulateFiringSpans (ticks_of policy_above_5 series_demo) rule_2_of_3 60).
Proof.
  split; [vm_compute; reflexivity|].
  apply (firing_spans_sound rule_2_of_3 60 ltac:(lia) (ticks_of policy_above_5 series_demo)).
  vm_compute. split_and!; done.
Defined.
