(* ===== verification/JsString.v ===== *)
(** * JavaScript strings

    A JavaScript string is modelled by the bytes of its UTF-8 encoding, so the
    development covers well-formed strings (no lone surrogate). Equality,
    concatenation and substring search are the same on both sides, because
    UTF-8 is self-synchronising; lengths are counted in code points or in
    UTF-16 code units where the code counts those. *)

From Stdlib Require Import Ascii String.
From stdpp Require Import prelude list strings pretty.
From Stdlib Require Import ZArith Lia.
From S2P Require Import Prelude.

Open Scope Z_scope.

Definition byte_of (c : ascii) : Z := Z.of_N (N_of_ascii c).

Definition is_continuation (c : ascii) : bool := (128 <=? byte_of c) && (byte_of c <? 192).

(** [Array.from(s).length] *)
Fixpoint code_points (s : string) : Z :=
  match s with
  | EmptyString => 0
  | String c s' => (if is_continuation c then 0 else 1) + code_points s'
  end.

(** [s.length]: a code point above the basic plane, four bytes long in UTF-8,
    takes two code units. *)
Fixpoint utf16_length (s : string) : Z :=
  match s with
  | EmptyString => 0
  | String c s' =>
      (if is_continuation c then 0 else if 240 <=? byte_of c then 2 else 1) + utf16_length s'
  end.

(** [Buffer.byteLength(s, "utf8")] *)
Definition byte_length (s : string) : Z := Z.of_nat (String.length s).

(** [s.includes(t)] *)
Fixpoint includes (s t : string) : bool :=
  String.prefix t s || match s with EmptyString => false | String _ s' => includes s' t end.

Definition is_digit (c : ascii) : bool := (48 <=? byte_of c) && (byte_of c <=? 57).
Definition digit_value (c : ascii) : Z := byte_of c - 48.

(** The value of a run of decimal digits; [None] when another character is met. *)
Fixpoint digits_value (acc : Z) (s : string) : option Z :=
  match s with
  | EmptyString => Some acc
  | String c s' => if is_digit c then digits_value (10 * acc + digit_value c) s' else None
  end.

(** [BigInt(s)] on the decimal spellings the program passes to it: an optional
    minus sign and at least one digit. Any other text is outside this model of
    the conversion and gives [None]. *)
Definition string_to_bigint (s : string) : option Z :=
  match s with
  | EmptyString => None
  | String c s' =>
      if bool_decide (c = "-"%char) then
        match s' with EmptyString => None | _ => Z.opp <$> digits_value 0 s' end
      else digits_value 0 s
  end.

(** An integer inside a template literal. *)
Definition show (z : Z) : string := pretty z.

Lemma show_inj a b : show a = show b -> a = b.
Proof. apply (inj pretty). Qed.

(** [parts.join(separator)] *)
Definition join (separator : string) (parts : list string) : string := String.concat separator parts.

(** The UTF-16 code units of a string, by which JavaScript compares strings. *)
Fixpoint utf16_units (s : string) : list Z :=
  match s with
  | EmptyString => []
  | String c s' =>
      let b := byte_of c in
      let low (c : ascii) := byte_of c mod 64 in
      if b <? 128 then b :: utf16_units s'
      else if b <? 192 then utf16_units s'
      else if b <? 224 then
        match s' with
        | String c1 _ => ((b mod 32) * 64 + low c1) :: utf16_units s'
        | _ => []
        end
      else if b <? 240 then
        match s' with
        | String c1 (String c2 _) => ((b mod 16) * 4096 + low c1 * 64 + low c2) :: utf16_units s'
        | _ => []
        end
      else
        match s' with
        | String c1 (String c2 (String c3 _)) =>
            let v := (b mod 8) * 262144 + low c1 * 4096 + low c2 * 64 + low c3 - 65536 in
            (55296 + v / 1024) :: (56320 + v mod 1024) :: utf16_units s'
        | _ => []
        end
  end.

Fixpoint units_compare (a b : list Z) : Z :=
  match a, b with
  | [], [] => 0
  | [], _ => -1
  | _, [] => 1
  | x :: a', y :: b' => if x <? y then -1 else if y <? x then 1 else units_compare a' b'
  end.

Definition string_compare (a b : string) : Z := units_compare (utf16_units a) (utf16_units b).

Lemma code_points_bounds s : 0 <= code_points s <= utf16_length s /\ utf16_length s <= byte_length s + code_points s.
Proof.
  unfold byte_length. induction s as [|c s IH]; cbn [code_points utf16_length String.length]; [lia|].
  destruct (is_continuation c), (240 <=? byte_of c); lia.
Qed.

Lemma digits_value_nonneg s acc v : 0 <= acc -> digits_value acc s = Some v -> 0 <= v.
Proof.
  revert acc. induction s as [|c s IH]; intros acc Ha; simpl; [by intros [= <-]|].
  unfold is_digit. case_match eqn:E; [|done]. bool_to_prop. apply IH. unfold digit_value. lia.
Qed.

Lemma append_cons c (a b : string) : (String c a ++ b = String c (a ++ b))%string.
Proof. done. Qed.

Lemma append_nil (b : string) : (EmptyString ++ b = b)%string.
Proof. done. Qed.

Lemma string_app_inj_l (a b c : string) : (a ++ b = a ++ c)%string -> b = c.
Proof. induction a as [|x a IH]; [done|]. rewrite !append_cons. intros [= H]. auto. Qed.

Lemma length_string_app (a b : string) : String.length (a ++ b) = (String.length a + String.length b)%nat.
Proof. induction a as [|x a IH]; [done|]. rewrite append_cons. simpl. by rewrite IH. Qed.

(** Two splits of a string at the first occurrence of a character agree. *)
Fixpoint has_char (c : ascii) (s : string) : bool :=
  match s with EmptyString => false | String d s' => bool_decide (d = c) || has_char c s' end.

Lemma split_at_char (c : ascii) (a b a' b' : string) :
  has_char c a = false -> has_char c a' = false ->
  (a ++ String c b = a' ++ String c b')%string -> a = a' /\ b = b'.
Proof.
  revert a'. induction a as [|x a IH]; intros [|x' a']; rewrite ?append_cons, ?append_nil;
    simpl; intros Ha Ha' Heq; bool_to_prop; simplify_eq; [done|].
  match goal with H : _ = _ |- _ => by destruct (IH a' ltac:(done) ltac:(done) H) as [-> ->] end.
Qed.

Lemma units_compare_trans a b c :
  units_compare a b <= 0 -> units_compare b c <= 0 -> units_compare a c <= 0.
Proof.
  revert b c. induction a as [|x a IH]; intros [|y b] [|z c]; simpl; try lia.
  destruct (Z.ltb_spec x y), (Z.ltb_spec y x), (Z.ltb_spec y z), (Z.ltb_spec z y),
    (Z.ltb_spec x z), (Z.ltb_spec z x); try lia. apply IH.
Qed.

Lemma units_compare_total a b : units_compare a b <= 0 \/ units_compare b a <= 0.
Proof.
  revert b. induction a as [|x a IH]; intros [|y b]; simpl; try lia.
  destruct (Z.ltb_spec x y), (Z.ltb_spec y x); try lia. apply IH.
Qed.

#[export] Instance string_comparator {A} (key : A -> string) :
  Comparator (fun a b => string_compare (key a) (key b)).
Proof.
  split; intros; [apply units_compare_total|by eapply units_compare_trans].
Qed.
