(* ===== verification/AlertScheduler.v ===== *)
(** * Alert scheduler

    When a rule is checked, and which tick may act on the check:
    - the intervals and limits of [packages/query-engine/src/datetime.ts]
      ([alertEvaluationIntervalMinutes] to [isAlertRuleDue]);
    - the claims of [packages/backend/src/services/alerts/AlertsService.ts]: the
      batched compare-and-set on [alert_rule_claims], its release, the writes
      fenced by a claim, the slowdown after repeated query limits, and the tick
      [evaluateScheduledRules] that composes them;
    - what an edit and a delete of a rule do to its claim
      ([AlertRulesService.ts]).

    The database is explicit: the rows of [alert_rules] and a finite map of
    [alert_rule_claims]. Every statement the code sends is one function on it.
    The clock, failing statements and the outcome of each evaluation are inputs
    of a tick. Within a tick the evaluations of different rules touch disjoint
    rows, so they are run in claim order. *)

From Stdlib Require Import Ascii String.
From stdpp Require Import prelude list strings gmap.
From Stdlib Require Import ZArith Lia Sorting.Permutation Floats.SpecFloat.
From S2P Require Import Prelude.
From S2P Require Import JsNum.
From S2P Require Import AlertLifecycle.
From S2P Require Import JsString.

Open Scope Z_scope.

(** ** Intervals *)

Definition ALERT_TICK_SECONDS : Z := 60.

Definition floorToBucketMs (epochMs bucketSeconds : Z) : Z :=
  let bucketMs := bucketSeconds * 1000 in epochMs / bucketMs * bucketMs.

Definition snapAlertWindowEndMs (epochMs : Z) : Z := floorToBucketMs epochMs ALERT_TICK_SECONDS.

Definition alertWindowBucketSeconds (windowMinutes : Z) : Z := Z.max (windowMinutes * 60) 60.

Definition ALERT_MAX_EVALUATION_INTERVAL_MINUTES : Z := 5.

Definition alertEvaluationIntervalMinutes (windowMinutes : Z) : Z :=
  Z.min ALERT_MAX_EVALUATION_INTERVAL_MINUTES (Z.max 1 (windowMinutes / 5)).

(** A row of [alert_rules], as far as scheduling reads it. *)
Record rule_row := {
  r_id : string;
  r_orgId : string;
  r_enabled : bool;
  r_signalType : string;
  r_updatedAt : Z;
  r_windowMinutes : Z;
  r_evaluationIntervalMinutes : option Z;
  r_slowedIntervalMinutes : option Z;
  r_lastScheduledAt : option Z
}.

Definition alertRuleIntervalMinutes (rule : rule_row) : Z :=
  Z.max (default (alertEvaluationIntervalMinutes (r_windowMinutes rule)) (r_evaluationIntervalMinutes rule))
        (default 0 (r_slowedIntervalMinutes rule)).

Record AlertQueryLimits := { timeSeconds : Z; memoryBytes : Z }.

Definition alertQueryLimits (intervalMinutes : Z) : AlertQueryLimits :=
  if 15 <=? intervalMinutes then {| timeSeconds := 25; memoryBytes := 1000000000 |}
  else if 10 <=? intervalMinutes then {| timeSeconds := 25; memoryBytes := 512000000 |}
  else if 5 <=? intervalMinutes then {| timeSeconds := 15; memoryBytes := 512000000 |}
  else {| timeSeconds := 5; memoryBytes := 256000000 |}.

Definition ALERT_PICKABLE_INTERVALS : list Z := [1; 5; 10; 15; 30; 60].

(** The binary64 literal [0.8]. *)
Definition point_eight : num := S754_finite false 7205759403792794 (-53).

Definition alertIntervalsFitting (elapsedMs : num) : list Z :=
  List.filter (fun interval =>
    num_leb elapsedMs (num_mul (num_of_Z (timeSeconds (alertQueryLimits interval) * 1000)) point_eight))
    ALERT_PICKABLE_INTERVALS.

Example point_eight_is_eight_tenths : num_div (num_of_Z 8) (num_of_Z 10) = point_eight.
Proof. vm_compute. reflexivity. Qed.

Example intervals_fitting_twelve_seconds :
  (alertIntervalsFitting (num_of_Z 12000), alertIntervalsFitting (num_of_Z 12001)) = ([5; 10; 15; 30; 60], [10; 15; 30; 60]).
Proof. vm_compute. reflexivity. Qed.

Inductive limit_kind := limit_time | limit_memory.

Definition nextSlowerAlertInterval (intervalMinutes windowMinutes : Z) (exceeded : limit_kind) : option Z :=
  let current := alertQueryLimits intervalMinutes in
  List.find (fun candidate =>
    let limits := alertQueryLimits candidate in
    (intervalMinutes <? candidate) && (candidate <=? windowMinutes) &&
    match exceeded with
    | limit_time => timeSeconds current <? timeSeconds limits
    | limit_memory => memoryBytes current <? memoryBytes limits
    end) ALERT_PICKABLE_INTERVALS.

(** FNV-1a over the UTF-16 code units of the identifier. *)
Definition alertRulePhase (ruleId : string) (intervalMinutes : Z) : Z :=
  let hash := fold_left (fun hash code => js_imul (js_xor hash code) 0x01000193) (utf16_units ruleId) 0x811c9dc5 in
  Z.rem (to_uint32 hash) intervalMinutes.

Example fnv_vectors :
  (alertRulePhase EmptyString (2 ^ 32), alertRulePhase "a" (2 ^ 32), alertRulePhase "foobar" (2 ^ 32)) =
  (0x811c9dc5, 0xe40c292c, 0xbf9cf968).
Proof. vm_compute. reflexivity. Qed.

Record AlertRuleDueInput := {
  due_ruleId : string;
  due_intervalMinutes : Z;
  due_updatedAt : Z;
  due_lastClaimedAt : option Z;
  due_windowEndMs : Z
}.

Definition isAlertRuleDue (input : AlertRuleDueInput) : bool :=
  let tickMs := ALERT_TICK_SECONDS * 1000 in
  let intervalMinutes := due_intervalMinutes input in
  let lastClaimedAt := default 0 (due_lastClaimedAt input) in
  if (lastClaimedAt <=? 0) || (lastClaimedAt <? due_updatedAt input) then true
  else if intervalMinutes * tickMs <? due_windowEndMs input - floorToBucketMs lastClaimedAt ALERT_TICK_SECONDS then true
  else
    let tick := due_windowEndMs input / tickMs in
    Z.rem tick intervalMinutes =? alertRulePhase (due_ruleId input) intervalMinutes.

(** ** The database *)

(** A row of [alert_rule_claims]. *)
Record claim_row := { c_lastScheduledAt : Z; c_consecutiveLimitFailures : Z }.

Record db := { d_rules : list rule_row; d_claims : gmap string claim_row }.

(** Changes the rows of [alert_rules] that satisfy a condition. *)
Definition update_rules (cond : rule_row -> bool) (f : rule_row -> rule_row) (d : db) : db :=
  {| d_rules := List.map (fun r => if cond r then f r else r) (d_rules d); d_claims := d_claims d |}.

Definition update_claims (f : gmap string claim_row -> gmap string claim_row) (d : db) : db :=
  {| d_rules := d_rules d; d_claims := f (d_claims d) |}.

Definition stamp (timestamp : Z) (c : claim_row) : claim_row :=
  {| c_lastScheduledAt := timestamp; c_consecutiveLimitFailures := c_consecutiveLimitFailures c |}.

Definition with_failures (n : Z) (c : claim_row) : claim_row :=
  {| c_lastScheduledAt := c_lastScheduledAt c; c_consecutiveLimitFailures := n |}.

(** ** Claims *)

(** One row of the multi-row [INSERT ... ON CONFLICT DO UPDATE ... WHERE]. *)
Definition claim_rule (timestamp lockTtlMs : Z) (claims : gmap string claim_row) (ruleId : string)
    : option (gmap string claim_row) :=
  match claims !! ruleId with
  | None => Some (<[ruleId := {| c_lastScheduledAt := timestamp; c_consecutiveLimitFailures := 0 |}]> claims)
  | Some c =>
      if c_lastScheduledAt c <? timestamp - lockTtlMs then Some (<[ruleId := stamp timestamp c]> claims) else None
  end.

Fixpoint claim_rules (timestamp lockTtlMs : Z) (chunk : list rule_row) (claims : gmap string claim_row)
    : list string * gmap string claim_row :=
  match chunk with
  | [] => ([], claims)
  | row :: rest =>
      match claim_rule timestamp lockTtlMs claims (r_id row) with
      | Some claims' => let '(won, final) := claim_rules timestamp lockTtlMs rest claims' in (r_id row :: won, final)
      | None => claim_rules timestamp lockTtlMs rest claims
      end
  end.

Definition SCHEDULER_HEARTBEAT_MS : Z := 270000.

(** The heartbeat on [alert_rules] of the rules that were claimed; [false] when
    its statement fails, which is ignored. *)
Definition heartbeat (timestamp : Z) (won : list string) (d : db) : db :=
  update_rules (fun r => bool_decide (r_id r ∈ won) &&
      match r_lastScheduledAt r with None => true | Some t => t <? timestamp - SCHEDULER_HEARTBEAT_MS end)
    (fun r => {| r_id := r_id r; r_orgId := r_orgId r; r_enabled := r_enabled r; r_signalType := r_signalType r;
                 r_updatedAt := r_updatedAt r; r_windowMinutes := r_windowMinutes r;
                 r_evaluationIntervalMinutes := r_evaluationIntervalMinutes r;
                 r_slowedIntervalMinutes := r_slowedIntervalMinutes r; r_lastScheduledAt := Some timestamp |}) d.

Definition claimRuleChunk (chunk : list rule_row) (timestamp lockTtlMs : Z) (heartbeat_ok : bool) (d : db)
    : list string * db :=
  let '(won, claims) := claim_rules timestamp lockTtlMs chunk (d_claims d) in
  let d' := {| d_rules := d_rules d; d_claims := claims |} in
  (won, if heartbeat_ok then heartbeat timestamp won d' else d').

Definition release_claim (claims : gmap string claim_row) (claim : string * Z) : gmap string claim_row :=
  match claims !! claim.1 with
  | Some c => if c_lastScheduledAt c =? claim.2 then <[claim.1 := stamp 0 c]> claims else claims
  | None => claims
  end.

(** One statement per distinct timestamp; a row matches the claims of at most
    one of them. *)
Definition releaseClaims (released : list (string * Z)) (d : db) : db :=
  update_claims (fun claims => fold_left release_claim released claims) d.

(** The claims a tick loads: the last claim times and the query limit failures. *)
Definition lastClaimedAt (d : db) (ruleId : string) : option Z := c_lastScheduledAt <$> d_claims d !! ruleId.
Definition limitFailures (d : db) (ruleId : string) : option Z := c_consecutiveLimitFailures <$> d_claims d !! ruleId.

(** ** Writes under a claim *)

Record RuleClaim := { rc_ruleId : string; rc_claimedAt : Z; rc_ruleUpdatedAt : Z }.

Inductive claim_lost :=
  | reclaimed (currentClaimAt : option Z)
  | edited (currentClaimAt : option Z).

Definition fence (claim : RuleClaim) (d : db) : result claim_lost unit :=
  let currentClaimAt := lastClaimedAt d (rc_ruleId claim) in
  if negb (bool_decide (currentClaimAt = Some (rc_claimedAt claim))) then Err (reclaimed currentClaimAt)
  else
    let rule := List.find (fun r => bool_decide (r_id r = rc_ruleId claim)) (d_rules d) in
    if negb (bool_decide (r_updatedAt <$> rule = Some (rc_ruleUpdatedAt claim))) then Err (edited currentClaimAt)
    else Ok tt.

(** Runs [write] only while the claim owns the rule; no claim writes unfenced. *)
Definition writeUnderClaim {A} (claim : option RuleClaim) (write : db -> A * db) (d : db) : result claim_lost A * db :=
  match claim with
  | None => let '(a, d') := write d in (Ok a, d')
  | Some c =>
      match fence c d with
      | Err e => (Err e, d)
      | Ok _ => let '(a, d') := write d in (Ok a, d')
      end
  end.

(** ** Edits *)

(** The scheduling fields an upsert writes. *)
Record rule_fields := {
  f_enabled : bool;
  f_signalType : string;
  f_windowMinutes : Z;
  f_evaluationIntervalMinutes : option Z
}.

(** An upsert of an existing rule: its claim is deleted and its row rewritten. *)
Definition editRule (orgId existingId : string) (timestamp : Z) (fields : rule_fields) (d : db) : db :=
  update_rules (fun r => bool_decide (r_orgId r = orgId) && bool_decide (r_id r = existingId))
    (fun r => {| r_id := r_id r; r_orgId := r_orgId r; r_enabled := f_enabled fields;
                 r_signalType := f_signalType fields; r_updatedAt := timestamp;
                 r_windowMinutes := f_windowMinutes fields;
                 r_evaluationIntervalMinutes := f_evaluationIntervalMinutes fields;
                 r_slowedIntervalMinutes := None; r_lastScheduledAt := r_lastScheduledAt r |})
    (update_claims (delete existingId) d).

Definition deleteRuleRows (orgId ruleId : string) (d : db) : db :=
  {| d_rules := List.filter (fun r => negb (bool_decide (r_orgId r = orgId) && bool_decide (r_id r = ruleId))) (d_rules d);
     d_claims := delete ruleId (d_claims d) |}.

(** ** Query limits *)

Definition SLOWDOWN_AFTER_LIMIT_FAILURES : Z := 3.

Definition slow_down (row : rule_row) (toMinutes : Z) (d : db) : db :=
  update_claims (alter (with_failures 0) (r_id row))
    (update_rules (fun r => bool_decide (r_orgId r = r_orgId row) && bool_decide (r_id r = r_id row)
                            && (r_updatedAt r =? r_updatedAt row))
      (fun r => {| r_id := r_id r; r_orgId := r_orgId r; r_enabled := r_enabled r; r_signalType := r_signalType r;
                   r_updatedAt := r_updatedAt r; r_windowMinutes := r_windowMinutes r;
                   r_evaluationIntervalMinutes := r_evaluationIntervalMinutes r;
                   r_slowedIntervalMinutes := Some toMinutes; r_lastScheduledAt := r_lastScheduledAt r |}) d).

Definition recordQueryLimitFailure (row : rule_row) (claimedAt : Z) (kind : limit_kind) (d : db) : db :=
  match d_claims d !! r_id row with
  | Some c =>
      if c_lastScheduledAt c =? claimedAt then
        let failures := c_consecutiveLimitFailures c + 1 in
        let d1 := update_claims (insert (r_id row) (with_failures failures c)) d in
        if failures <? SLOWDOWN_AFTER_LIMIT_FAILURES then d1
        else
          match nextSlowerAlertInterval (alertRuleIntervalMinutes row) (r_windowMinutes row) kind with
          | None => d1
          | Some toMinutes => slow_down row toMinutes d1
          end
      else d
  | None => d
  end.

(** A clean check ends a run of failures. *)
Definition reset_failures (targets : list string) (d : db) : db :=
  update_claims (fun claims => fold_left (fun m ruleId =>
    alter (fun c => if 0 <? c_consecutiveLimitFailures c then with_failures 0 c else c) ruleId m) targets claims) d.

(** ** A tick *)

Inductive AlertSchedulerLane := standard | long_query.

#[export] Instance lane_eq_dec : EqDecision AlertSchedulerLane.
Proof. solve_decision. Defined.

Definition alertSchedulerLaneOf (row : rule_row) : AlertSchedulerLane :=
  if bool_decide (r_signalType row = "raw_query"%string) &&
     (timeSeconds (alertQueryLimits 1) <? timeSeconds (alertQueryLimits (alertRuleIntervalMinutes row)))
  then long_query else standard.

Definition SCHEDULER_LOCK_TTL_MS : Z := 30000.
Definition SCHEDULER_LOCK_MARGIN_MS : Z := 5000.
Definition SCHEDULER_TICK_BUDGET_MS_DEFAULT : Z := 25000.

Record lane_settings := {
  lockTtlMs : Z;
  claimChunkSize : nat;
  tickBudgetMs : Z;
  startRoomMs : rule_row -> Z
}.

Definition longQueryEvalMs (row : rule_row) : Z :=
  timeSeconds (alertQueryLimits (alertRuleIntervalMinutes row)) * 1000 + 10000.

Definition SCHEDULER_LANES (lane : AlertSchedulerLane) : lane_settings :=
  match lane with
  | standard =>
      {| lockTtlMs := SCHEDULER_LOCK_TTL_MS; claimChunkSize := 25;
         tickBudgetMs := SCHEDULER_TICK_BUDGET_MS_DEFAULT; startRoomMs := fun _ => 0 |}
  | long_query =>
      {| lockTtlMs := 100000; claimChunkSize := 2; tickBudgetMs := 60000; startRoomMs := longQueryEvalMs |}
  end.

(** How the evaluation of a rule ends: cleanly, with its query over a limit, or
    in any other failure. *)
Inductive check_outcome := check_clean | check_limit (kind : limit_kind) | check_failed.

(** What the clock, the database and the evaluations do during a tick: when it
    starts, when each chunk is reached, which claim and heartbeat statements
    fail, when each claimed rule's turn comes, and how it ends. *)
Record tick_weather := {
  t_start : Z;
  t_chunkTime : nat -> Z;
  t_claimFails : nat -> bool;
  t_heartbeatOk : nat -> bool;
  t_startedAt : string -> Z;
  t_outcome : string -> check_outcome
}.

(** What a tick has gathered: the claims to release, and the evaluations. *)
Record tick_state := {
  ts_db : db;
  ts_retry : list (string * Z);
  ts_evaluated : list (string * Z);
  ts_clean : list string
}.

Definition orderAlertRulesByLastClaim (rows : list rule_row) (claimed : string -> option Z) : list rule_row :=
  js_sort (fun a b => default 0 (claimed (r_id a)) - default 0 (claimed (r_id b))) rows.

(** [Arr.chunksOf] *)
Fixpoint chunks_of {A} (fuel : nat) (n : nat) (l : list A) : list (list A) :=
  match fuel, l with
  | Datatypes.S f, _ :: _ => take n l :: chunks_of f n (drop n l)
  | _, _ => []
  end.

Section Tick.
Context (lane : lane_settings) (w : tick_weather).

Definition deadline : Z := t_start w + Z.min (tickBudgetMs lane) (lockTtlMs lane - SCHEDULER_LOCK_MARGIN_MS).

(** The rules of a chunk that could not be claimed, with the expired claim they had. *)
Definition retryUnclaimed (claimed : string -> option Z) (chunk : list rule_row) : list (string * Z) :=
  omap (fun row =>
    let claimedAt := default 0 (claimed (r_id row)) in
    if (0 <? claimedAt) && (claimedAt <? t_start w - lockTtlMs lane) then Some (r_id row, claimedAt) else None) chunk.

(** A rule whose claim this tick won. *)
Definition run_claimed (timestamp : Z) (st : tick_state) (row : rule_row) : tick_state :=
  if deadline <=? t_startedAt w (r_id row) + startRoomMs lane row then
    {| ts_db := ts_db st; ts_retry := ts_retry st ++ [(r_id row, timestamp)];
       ts_evaluated := ts_evaluated st; ts_clean := ts_clean st |}
  else
    let evaluated := ts_evaluated st ++ [(r_id row, timestamp)] in
    match t_outcome w (r_id row) with
    | check_clean =>
        {| ts_db := ts_db st; ts_retry := ts_retry st; ts_evaluated := evaluated;
           ts_clean := ts_clean st ++ [r_id row] |}
    | check_limit kind =>
        {| ts_db := recordQueryLimitFailure row timestamp kind (ts_db st); ts_retry := ts_retry st;
           ts_evaluated := evaluated; ts_clean := ts_clean st |}
    | check_failed =>
        {| ts_db := ts_db st; ts_retry := ts_retry st ++ [(r_id row, timestamp)];
           ts_evaluated := evaluated; ts_clean := ts_clean st |}
    end.

Definition run_chunk (claimed : string -> option Z) (index : nat) (chunk : list rule_row) (st : tick_state) : tick_state :=
  let timestamp := t_chunkTime w index in
  let defer := {| ts_db := ts_db st; ts_retry := ts_retry st ++ retryUnclaimed claimed chunk;
                  ts_evaluated := ts_evaluated st; ts_clean := ts_clean st |} in
  if deadline <=? timestamp then defer
  else if t_claimFails w index then defer
  else
    let '(won, d') := claimRuleChunk chunk timestamp (lockTtlMs lane) (t_heartbeatOk w index) (ts_db st) in
    fold_left (run_claimed timestamp) (List.filter (fun row => bool_decide (r_id row ∈ won)) chunk)
      {| ts_db := d'; ts_retry := ts_retry st; ts_evaluated := ts_evaluated st; ts_clean := ts_clean st |}.

Fixpoint run_chunks (claimed : string -> option Z) (index : nat) (chunks : list (list rule_row)) (st : tick_state)
    : tick_state :=
  match chunks with
  | [] => st
  | chunk :: rest => run_chunks claimed (Datatypes.S index) rest (run_chunk claimed index chunk st)
  end.

Definition due_rows (laneName : AlertSchedulerLane) (d : db) : list rule_row :=
  let enabledRows := js_sort (fun a b => r_updatedAt a - r_updatedAt b) (List.filter r_enabled (d_rules d)) in
  let rows := List.filter (fun row => bool_decide (alertSchedulerLaneOf row = laneName)) enabledRows in
  List.filter (fun row => isAlertRuleDue
    {| due_ruleId := r_id row; due_intervalMinutes := alertRuleIntervalMinutes row; due_updatedAt := r_updatedAt row;
       due_lastClaimedAt := lastClaimedAt d (r_id row); due_windowEndMs := snapAlertWindowEndMs (t_start w) |}) rows.

(** [evaluateScheduledRules]: the database after the tick, and the rules it
    evaluated with their claim times. *)
Definition evaluateScheduledRules (laneName : AlertSchedulerLane) (d : db) : db * list (string * Z) :=
  let claimed := lastClaimedAt d in
  let due := due_rows laneName d in
  let ordered := default [] (interleaveAlertRulesByTenant r_orgId (orderAlertRulesByLastClaim due claimed)) in
  let st := run_chunks claimed 0 (chunks_of (length ordered) (claimChunkSize lane) ordered)
              {| ts_db := d; ts_retry := []; ts_evaluated := []; ts_clean := [] |} in
  let cleared := List.filter (fun ruleId => 0 <? default 0 (limitFailures d ruleId)) (ts_clean st) in
  (reset_failures cleared (releaseClaims (ts_retry st) (ts_db st)), ts_evaluated st).
End Tick.

Definition run_lane (laneName : AlertSchedulerLane) (w : tick_weather) (d : db) : db * list (string * Z) :=
  evaluateScheduledRules (SCHEDULER_LANES laneName) w laneName d.

(** Ticks of one lane, one after the other. *)
Fixpoint run_ticks (laneName : AlertSchedulerLane) (ws : list tick_weather) (d : db) : list (list (string * Z)) :=
  match ws with
  | [] => []
  | w :: rest => let '(d', evaluated) := run_lane laneName w d in evaluated :: run_ticks laneName rest d'
  end.

(** The window an evaluation reads, in epoch milliseconds. *)
Definition evaluation_window (rule : rule_row) (w : tick_weather) : Z * Z :=
  let endMs := snapAlertWindowEndMs (t_start w) in (endMs - r_windowMinutes rule * 60000, endMs).

(** ** Intervals: facts *)

Lemma default_interval_bounds w : 1 <= w -> 1 <= alertEvaluationIntervalMinutes w <= 5 /\ alertEvaluationIntervalMinutes w <= w.
Proof. intros H. unfold alertEvaluationIntervalMinutes, ALERT_MAX_EVALUATION_INTERVAL_MINUTES. Z.to_euclidean_division_equations; lia. Qed.

(** A rule whose picked and slowed intervals fit its window is checked at least
    once per window. *)
Lemma rule_interval_bounds rule :
  1 <= r_windowMinutes rule ->
  (forall n, r_evaluationIntervalMinutes rule = Some n -> 1 <= n <= r_windowMinutes rule) ->
  (forall n, r_slowedIntervalMinutes rule = Some n -> n <= r_windowMinutes rule) ->
  1 <= alertRuleIntervalMinutes rule <= r_windowMinutes rule.
Proof.
  intros Hw Hp Hs. pose proof (default_interval_bounds _ Hw). unfold alertRuleIntervalMinutes.
  destruct (r_evaluationIntervalMinutes rule) as [n|] eqn:Ep; [specialize (Hp n eq_refl)|];
    (destruct (r_slowedIntervalMinutes rule) as [m|] eqn:Es; [specialize (Hs m eq_refl)|]); simpl; lia.
Qed.

Definition limit_of (kind : limit_kind) (intervalMinutes : Z) : Z :=
  match kind with
  | limit_time => timeSeconds (alertQueryLimits intervalMinutes)
  | limit_memory => memoryBytes (alertQueryLimits intervalMinutes)
  end.

(** The slower interval is the first that raises the limit and fits the window. *)
Lemma nextSlower_spec interval window kind m :
  nextSlowerAlertInterval interval window kind = Some m ->
  m ∈ ALERT_PICKABLE_INTERVALS /\ interval < m <= window /\ limit_of kind interval < limit_of kind m /\
  (forall n, n ∈ ALERT_PICKABLE_INTERVALS -> interval < n <= window -> limit_of kind interval < limit_of kind n -> m <= n).
Proof.
  unfold nextSlowerAlertInterval, ALERT_PICKABLE_INTERVALS.
  set (p := fun candidate => _). assert (Hp : forall n, p n = true <-> interval < n <= window /\ limit_of kind interval < limit_of kind n).
  { intros n. unfold p, limit_of. destruct kind; lia. }
  clearbody p. intros Hf. assert (Hm : p m = true) by (by apply find_some in Hf as [_ ?]).
  assert (Hall : forall n, n ∈ [1; 5; 10; 15; 30; 60] -> p n = true -> m <= n).
  { intros n Hn Hpn. cbn in Hf.
    repeat match type of Hf with (if ?b then _ else _) = _ => destruct b eqn:? end; try done;
      injection Hf as <-; repeat (apply elem_of_cons in Hn as [->|Hn]); first [lia|congruence|by apply elem_of_nil in Hn]. }
  split_and!; try (apply Hp in Hm; lia).
  - apply find_some in Hf as [Hf _]. by apply list_elem_of_In.
  - intros n Hn H1 H2. apply Hall; [done|]. by apply Hp.
Qed.

Lemma phase_range ruleId interval : 1 <= interval -> 0 <= alertRulePhase ruleId interval < interval.
Proof.
  intros H. unfold alertRulePhase. set (hash := fold_left _ _ _).
  pose proof (to_uint32_range hash). rewrite Z.rem_mod_nonneg by lia. apply Z.mod_pos_bound. lia.
Qed.

(** ** Claims: facts *)

Lemma claim_rule_other ts ttl claims claims' id id' :
  claim_rule ts ttl claims id = Some claims' -> id <> id' -> claims' !! id' = claims !! id'.
Proof.
  unfold claim_rule. intros H Hne. repeat case_match; simplify_eq; by rewrite lookup_insert_ne.
Qed.

Lemma claim_rules_other ts ttl chunk claims won claims' id :
  claim_rules ts ttl chunk claims = (won, claims') -> id ∉ List.map r_id chunk ->
  claims' !! id = claims !! id /\ id ∉ won.
Proof.
  revert claims won claims'. induction chunk as [|row chunk IH]; intros claims won claims' H Hni; cbn in *.
  { simplify_eq. split; [done|apply not_elem_of_nil]. }
  apply not_elem_of_cons in Hni as [Hne Hni].
  destruct (claim_rule ts ttl claims (r_id row)) as [c1|] eqn:Hc.
  - destruct (claim_rules ts ttl chunk c1) as [won1 c2] eqn:Hr. simplify_eq.
    destruct (IH _ _ _ Hr Hni) as [-> Hw]. split; [|set_solver].
    eapply claim_rule_other; [exact Hc|congruence].
  - eauto.
Qed.

(** Whether a claim at [ts] wins against a row of the claims table. *)
Definition claimable (ts ttl : Z) (c : option claim_row) : bool :=
  match c with None => true | Some c => c_lastScheduledAt c <? ts - ttl end.

Lemma claim_rule_self ts ttl claims id :
  claim_rule ts ttl claims id =
    if claimable ts ttl (claims !! id)
    then Some (<[id := stamp ts (default {| c_lastScheduledAt := ts; c_consecutiveLimitFailures := 0 |} (claims !! id))]> claims)
    else None.
Proof. unfold claim_rule, claimable. by destruct (claims !! id) as [c|]; simpl. Qed.

Lemma claim_rules_member ts ttl chunk claims won claims' id :
  claim_rules ts ttl chunk claims = (won, claims') -> NoDup (List.map r_id chunk) -> id ∈ List.map r_id chunk ->
  (id ∈ won <-> claimable ts ttl (claims !! id) = true) /\
  (c_lastScheduledAt <$> claims' !! id) =
    if claimable ts ttl (claims !! id) then Some ts else c_lastScheduledAt <$> claims !! id.
Proof.
  revert claims won claims'. induction chunk as [|row chunk IH]; intros claims won claims' H Hnd Hin; cbn in *.
  { by apply elem_of_nil in Hin. }
  apply NoDup_cons in Hnd as [Hni Hnd]. rewrite claim_rule_self in H.
  destruct (decide (id = r_id row)) as [->|Hne].
  - destruct (claimable ts ttl (claims !! r_id row)) eqn:Hc.
    + destruct (claim_rules ts ttl chunk _) as [won1 c2] eqn:Hr. simplify_eq.
      destruct (claim_rules_other _ _ _ _ _ _ (r_id row) Hr Hni) as [-> _].
      rewrite lookup_insert_eq. split; [set_solver|done].
    + destruct (claim_rules_other _ _ _ _ _ _ (r_id row) H Hni) as [-> Hw]. split; [|done]. split; [done|done].
  - apply elem_of_cons in Hin as [?|Hin]; [done|].
    destruct (claimable ts ttl (claims !! r_id row)) eqn:Hc.
    + destruct (claim_rules ts ttl chunk _) as [won1 c2] eqn:Hr. simplify_eq.
      destruct (IH _ _ _ Hr Hnd Hin) as [Hw Hl]. rewrite lookup_insert_ne in Hw, Hl by done.
      split; [|done]. rewrite <- Hw. set_solver.
    + eauto.
Qed.

Lemma heartbeat_claims ts won d : d_claims (heartbeat ts won d) = d_claims d.
Proof. done. Qed.

Lemma claimRuleChunk_claims chunk ts ttl ok d won d' :
  claimRuleChunk chunk ts ttl ok d = (won, d') -> claim_rules ts ttl chunk (d_claims d) = (won, d_claims d').
Proof.
  unfold claimRuleChunk. destruct (claim_rules _ _ _ _) as [won1 claims]. intros. simplify_eq. by destruct ok.
Qed.

Lemma record_limit_last row ts kind d id :
  lastClaimedAt (recordQueryLimitFailure row ts kind d) id = lastClaimedAt d id.
Proof.
  unfold recordQueryLimitFailure, lastClaimedAt. destruct (d_claims d !! r_id row) as [c|] eqn:Hc; [|done].
  assert (Hi : forall n, c_lastScheduledAt <$> <[r_id row := with_failures n c]> (d_claims d) !! id =
                         c_lastScheduledAt <$> d_claims d !! id).
  { intros n. destruct (decide (id = r_id row)) as [->|]; [by rewrite lookup_insert_eq, Hc|by rewrite lookup_insert_ne]. }
  repeat case_match; try done; cbn [d_claims update_claims slow_down update_rules]; [apply Hi| |apply Hi].
  destruct (decide (id = r_id row)) as [->|].
  - by rewrite lookup_alter_eq, lookup_insert_eq, Hc.
  - by rewrite lookup_alter_ne, lookup_insert_ne.
Qed.

Lemma reset_failures_last targets d id : lastClaimedAt (reset_failures targets d) id = lastClaimedAt d id.
Proof.
  unfold reset_failures, lastClaimedAt, update_claims. simpl. generalize (d_claims d) as claims.
  induction targets as [|t targets IH]; intros claims; [done|]. cbn [fold_left]. rewrite IH.
  destruct (decide (id = t)) as [->|]; [|by rewrite lookup_alter_ne].
  rewrite lookup_alter_eq. destruct (claims !! t) as [c|]; [|done]. simpl. by case_match.
Qed.

Lemma release_claim_lookup claims id ts id' :
  c_lastScheduledAt <$> release_claim claims (id, ts) !! id' =
    if bool_decide (id = id' /\ c_lastScheduledAt <$> claims !! id = Some ts) then Some 0
    else c_lastScheduledAt <$> claims !! id'.
Proof.
  unfold release_claim. simpl. destruct (claims !! id) as [c|] eqn:Hc; simpl.
  - destruct (Z.eqb_spec (c_lastScheduledAt c) ts) as [He|He].
    + destruct (decide (id = id')) as [<-|Hne].
      * rewrite lookup_insert_eq, bool_decide_eq_true_2; [done|]. by rewrite He.
      * rewrite lookup_insert_ne, bool_decide_eq_false_2 by naive_solver. done.
    + rewrite bool_decide_eq_false_2; [done|]. by intros [_ [= ?]].
  - rewrite bool_decide_eq_false_2; [done|]. by intros [_ [=]].
Qed.

Lemma release_last released d id :
  lastClaimedAt (releaseClaims released d) id = lastClaimedAt d id \/
  lastClaimedAt (releaseClaims released d) id = Some 0 /\
    exists ts, (id, ts) ∈ released /\ (lastClaimedAt d id = Some ts \/ ts = 0).
Proof.
  unfold releaseClaims, lastClaimedAt, update_claims. simpl. generalize (d_claims d) as claims.
  induction released as [|[i ts] released IH]; intros claims; [by left|]. cbn [fold_left].
  pose proof (release_claim_lookup claims i ts id) as Hr.
  destruct (IH (release_claim claims (i, ts))) as [H|(H & t & Hin & Ht)]; rewrite H; rewrite Hr in *.
  - case_bool_decide as Hb; [|by left]. destruct Hb as [<- Hb]. right. split; [done|].
    exists ts. split; [set_solver|by left].
  - right. split; [done|]. case_bool_decide as Hb.
    + destruct Hb as [<- Hb]. exists ts. split; [set_solver|by left].
    + exists t. split; [set_solver|done].
Qed.

(** ** One writer per rule *)

Lemma claim_rules_won ts ttl chunk claims won claims' id :
  claim_rules ts ttl chunk claims = (won, claims') ->
  (id ∈ won -> c_lastScheduledAt <$> claims' !! id = Some ts) /\
  (id ∉ won -> claims' !! id = claims !! id).
Proof.
  revert claims won claims'. induction chunk as [|row chunk IH]; intros claims won claims' H; cbn in *.
  { simplify_eq. split; [by intros ?%elem_of_nil|done]. }
  rewrite claim_rule_self in H. destruct (claimable ts ttl (claims !! r_id row)) eqn:Hc; [|eauto].
  set (c1 := <[r_id row := _]> claims) in H.
  destruct (claim_rules ts ttl chunk c1) as [won1 c2] eqn:Hr. simplify_eq.
  destruct (IH _ _ _ Hr) as [Hin Hout]. destruct (decide (id ∈ won1)) as [Hw|Hw].
  - split; [auto|]. set_solver.
  - rewrite (Hout Hw). unfold c1. destruct (decide (id = r_id row)) as [->|Hne].
    + rewrite lookup_insert_eq. split; [done|set_solver].
    + rewrite lookup_insert_ne by done. split; [set_solver|done].
Qed.

(** What happens to the claims and the rules, in whatever order the ticks of the
    lanes, their releases and the users' edits interleave. *)
Inductive scheduler_event :=
  | ev_claim (chunk : list rule_row) (timestamp lockTtlMs : Z) (heartbeat_ok : bool)
  | ev_release (released : list (string * Z))
  | ev_limit (row : rule_row) (claimedAt : Z) (kind : limit_kind)
  | ev_reset (targets : list string)
  | ev_edit (orgId ruleId : string) (timestamp : Z) (fields : rule_fields)
  | ev_delete (orgId ruleId : string).

Definition exec (ev : scheduler_event) (d : db) : db :=
  match ev with
  | ev_claim chunk timestamp ttl ok => (claimRuleChunk chunk timestamp ttl ok d).2
  | ev_release released => releaseClaims released d
  | ev_limit row claimedAt kind => recordQueryLimitFailure row claimedAt kind d
  | ev_reset targets => reset_failures targets d
  | ev_edit orgId ruleId timestamp fields => editRule orgId ruleId timestamp fields d
  | ev_delete orgId ruleId => deleteRuleRows orgId ruleId d
  end.

Definition run_events (evs : list scheduler_event) (d : db) : db := fold_left (fun d ev => exec ev d) evs d.

(** The event takes the claim over or ends it. *)
Definition ends_claim (c : RuleClaim) (ev : scheduler_event) (d : db) : Prop :=
  match ev with
  | ev_claim chunk timestamp ttl ok => rc_ruleId c ∈ (claimRuleChunk chunk timestamp ttl ok d).1
  | ev_release released => (rc_ruleId c, rc_claimedAt c) ∈ released /\ lastClaimedAt d (rc_ruleId c) = Some (rc_claimedAt c)
  | ev_edit _ ruleId _ _ | ev_delete _ ruleId => ruleId = rc_ruleId c
  | _ => False
  end.

(** Claims made after [c] carry a later time. *)
Definition after_claim (c : RuleClaim) (ev : scheduler_event) : Prop :=
  match ev with ev_claim _ timestamp _ _ => rc_claimedAt c < timestamp | _ => True end.

Definition outclaimed (c : RuleClaim) (d : db) : Prop := lastClaimedAt d (rc_ruleId c) <> Some (rc_claimedAt c).

Lemma claim_last chunk ts ttl ok d id :
  lastClaimedAt (claimRuleChunk chunk ts ttl ok d).2 id =
    if decide (id ∈ (claimRuleChunk chunk ts ttl ok d).1) then Some ts else lastClaimedAt d id.
Proof.
  destruct (claimRuleChunk chunk ts ttl ok d) as [won d'] eqn:Hc. simpl.
  apply claimRuleChunk_claims in Hc. destruct (claim_rules_won _ _ _ _ _ _ id Hc) as [Hin Hout].
  unfold lastClaimedAt. case_decide as Hw; [by apply Hin|by rewrite Hout].
Qed.

Lemma delete_last id id' d f : lastClaimedAt {| d_rules := f; d_claims := delete id (d_claims d) |} id' =
  if decide (id = id') then None else lastClaimedAt d id'.
Proof.
  unfold lastClaimedAt. simpl. case_decide as H; [subst; by rewrite lookup_delete_eq|by rewrite lookup_delete_ne].
Qed.

Lemma release_hits released d id ts :
  (id, ts) ∈ released -> lastClaimedAt d id = Some ts -> lastClaimedAt (releaseClaims released d) id = Some 0.
Proof.
  unfold releaseClaims, lastClaimedAt, update_claims. simpl. generalize (d_claims d) as claims.
  assert (Hzero : forall released claims, c_lastScheduledAt <$> claims !! id = Some 0 ->
            c_lastScheduledAt <$> fold_left release_claim released claims !! id = Some 0).
  { clear. induction released as [|[i t] released IH]; intros claims H; [done|]. cbn [fold_left]. apply IH.
    rewrite release_claim_lookup. by case_bool_decide. }
  induction released as [|[i t] released IH]; intros claims Hin Hl; [by apply elem_of_nil in Hin|].
  cbn [fold_left]. pose proof (release_claim_lookup claims i t id) as Hr. case_bool_decide as Hb.
  - by apply Hzero.
  - apply IH; [|by rewrite Hr]. apply elem_of_cons in Hin as [Heq|Hin]; [|done].
    exfalso. apply Hb. by simplify_eq.
Qed.

Lemma outclaimed_stays c ev d :
  0 < rc_claimedAt c -> after_claim c ev -> outclaimed c d \/ ends_claim c ev d -> outclaimed c (exec ev d).
Proof.
  intros Hpos Hafter H. unfold outclaimed in *. destruct ev; simpl in *.
  - rewrite claim_last. case_decide as Hw; [intros [= ->]; lia|]. by destruct H.
  - destruct (release_last released d (rc_ruleId c)) as [Hr|(Hr & _)]; rewrite Hr; [|intros [= ?]; lia].
    destruct H as [H|[Hin Hl]]; [done|]. rewrite <- Hr, (release_hits released d _ _ Hin Hl). intros [= ?]; lia.
  - rewrite record_limit_last. by destruct H.
  - rewrite reset_failures_last. by destruct H.
  - unfold editRule, update_rules, update_claims. simpl.
    rewrite (delete_last ruleId (rc_ruleId c) d). case_decide; [done|]. by destruct H.
  - unfold deleteRuleRows. rewrite delete_last. case_decide; [done|]. by destruct H.
Qed.

Lemma outclaimed_run c evs d :
  0 < rc_claimedAt c -> Forall (after_claim c) evs -> outclaimed c d -> outclaimed c (run_events evs d).
Proof.
  intros Hpos. revert d. induction evs as [|ev evs IH]; intros d Hall Ho; [done|].
  apply Forall_cons in Hall as [Ha Hall]. apply IH; [done|]. apply outclaimed_stays; auto.
Qed.

Lemma fence_ok c d :
  fence c d = Ok tt <->
  lastClaimedAt d (rc_ruleId c) = Some (rc_claimedAt c) /\
  r_updatedAt <$> List.find (fun r => bool_decide (r_id r = rc_ruleId c)) (d_rules d) = Some (rc_ruleUpdatedAt c).
Proof. unfold fence. do 2 case_bool_decide; naive_solver. Qed.

(** C21: a write under a claim goes through only if, since the claim was made,
    no later tick has taken the rule, the claim was not released and the rule
    was neither edited nor deleted, and if the rule is still the version the
    claiming tick had loaded; otherwise the database is left as it is. Ticks
    of both lanes, releases and edits interleave arbitrarily; later claims
    carry later times. *)
Theorem fenced_write_exclusive {A} (c : RuleClaim) (evs : list scheduler_event) (d : db) (write : db -> A * db) :
  0 < rc_claimedAt c -> Forall (after_claim c) evs ->
  let now := run_events evs d in
  match writeUnderClaim (Some c) write now with
  | (Ok a, d') =>
      write now = (a, d') /\
      (forall evs1 ev evs2, evs = evs1 ++ ev :: evs2 -> ~ ends_claim c ev (run_events evs1 d)) /\
      (exists rule, rule ∈ d_rules now /\ r_id rule = rc_ruleId c /\ r_updatedAt rule = rc_ruleUpdatedAt c)
  | (Err _, d') => d' = now
  end.
Proof.
  intros Hpos Hall now. unfold writeUnderClaim. destruct (fence c now) as [[]|e] eqn:Hf; [|done].
  destruct (write now) as [a d'] eqn:Hw. apply fence_ok in Hf as [Hl Hu]. split_and!; [done| |].
  - intros evs1 ev evs2 -> Hend. apply Forall_app in Hall as [_ [Ha Hall]%Forall_cons].
    assert (outclaimed c now) as Ho; [|by apply Ho].
    unfold now, run_events. rewrite fold_left_app. cbn [fold_left].
    apply (outclaimed_run c evs2); [done|done|]. apply outclaimed_stays; auto.
  - destruct (List.find _ _) as [rule|] eqn:Hfind; [|done]. injection Hu as Hu.
    apply find_some in Hfind as [Hin Hid]. exists rule. split_and!; [by apply list_elem_of_In|by bool_to_prop|done].
Qed.

(** ** A tick checks what is due *)

Lemma concat_chunks_of {A} fuel n (l : list A) : (1 <= n)%nat -> (length l <= fuel)%nat -> concat (chunks_of fuel n l) = l.
Proof.
  intros Hn. revert l. induction fuel as [|fuel IH]; intros l Hl; destruct l as [|x l]; try done; [simpl in Hl; lia|].
  cbn [chunks_of concat]. rewrite IH; [apply take_drop|]. rewrite length_drop. simpl in *. lia.
Qed.

Lemma NoDup_map_filter {A B} (f : A -> B) (p : A -> bool) l : NoDup (List.map f l) -> NoDup (List.map f (List.filter p l)).
Proof.
  induction l as [|x l IH]; [done|]. cbn. intros [Hni Hnd]%NoDup_cons. destruct (p x); [|auto].
  cbn. apply NoDup_cons. split; [|auto]. intros Hin. apply Hni.
  apply list_elem_of_In, in_map_iff in Hin as (y & <- & [Hy _]%filter_In).
  by apply list_elem_of_In, in_map.
Qed.

Lemma elem_of_list_filter {A} (p : A -> bool) l x : x ∈ List.filter p l <-> x ∈ l /\ p x = true.
Proof. rewrite !list_elem_of_In. apply filter_In. Qed.

Section TickFacts.
Context (lane : lane_settings) (w : tick_weather).
Notation dl := (deadline lane w).

Lemma run_claimed_last ts st row id :
  lastClaimedAt (ts_db (run_claimed lane w ts st row)) id = lastClaimedAt (ts_db st) id.
Proof.
  unfold run_claimed. case_match; [done|]. case_match; try done. apply record_limit_last.
Qed.

Lemma run_claimed_evaluated ts st row e :
  e ∈ ts_evaluated (run_claimed lane w ts st row) <->
  e ∈ ts_evaluated st \/ e = (r_id row, ts) /\ t_startedAt w (r_id row) + startRoomMs lane row < dl.
Proof.
  unfold run_claimed. case_match eqn:Hd; simpl; [|case_match; simpl; rewrite elem_of_app, list_elem_of_singleton];
    bool_to_prop; intuition lia.
Qed.

Lemma fold_claimed_last ts rows st id :
  lastClaimedAt (ts_db (fold_left (run_claimed lane w ts) rows st)) id = lastClaimedAt (ts_db st) id.
Proof. revert st. induction rows as [|row rows IH]; intros st; [done|]. cbn. rewrite IH. apply run_claimed_last. Qed.

Lemma fold_claimed_evaluated ts rows st e :
  e ∈ ts_evaluated (fold_left (run_claimed lane w ts) rows st) <->
  e ∈ ts_evaluated st \/
  exists row, row ∈ rows /\ e = (r_id row, ts) /\ t_startedAt w (r_id row) + startRoomMs lane row < dl.
Proof.
  revert st. induction rows as [|row rows IH]; intros st; cbn.
  - split; [by left|]. intros [?|(row & []%elem_of_nil & _)]. done.
  - rewrite IH, run_claimed_evaluated. setoid_rewrite elem_of_cons. naive_solver.
Qed.

(** A claim after a chunk is the one before, or one of this tick's. *)
Lemma run_chunk_last claimed i chunk st id t :
  lastClaimedAt (ts_db (run_chunk lane w claimed i chunk st)) id = Some t ->
  lastClaimedAt (ts_db st) id = Some t \/ t = t_chunkTime w i /\ t < dl.
Proof.
  unfold run_chunk. case_match eqn:Hd; [by left|]. case_match; [by left|].
  destruct (claimRuleChunk _ _ _ _ _) as [won d'] eqn:Hc. rewrite fold_claimed_last. simpl.
  pose proof (claim_last chunk (t_chunkTime w i) (lockTtlMs lane) (t_heartbeatOk w i) (ts_db st) id) as Hl.
  rewrite Hc in Hl. simpl in Hl. rewrite Hl. case_decide; [|by left]. intros [= <-]. bool_to_prop. right. lia.
Qed.

Lemma run_chunks_last claimed i chunks st id t :
  lastClaimedAt (ts_db (run_chunks lane w claimed i chunks st)) id = Some t ->
  lastClaimedAt (ts_db st) id = Some t \/ t < dl.
Proof.
  revert i st. induction chunks as [|chunk chunks IH]; intros i st; [by left|].
  cbn [run_chunks]. intros [H|H]%IH; [|by right]. apply run_chunk_last in H as [H|H]; [by left|right; lia].
Qed.

Lemma run_chunks_evaluated_mono claimed i chunks st e :
  e ∈ ts_evaluated st -> e ∈ ts_evaluated (run_chunks lane w claimed i chunks st).
Proof.
  revert i st. induction chunks as [|chunk chunks IH]; intros i st He; [done|]. cbn [run_chunks]. apply IH.
  unfold run_chunk. case_match; [done|]. case_match; [done|]. destruct (claimRuleChunk _ _ _ _ _) as [won d'].
  apply fold_claimed_evaluated. by left.
Qed.

(** The tick reaches every chunk and every claimed rule before its deadline, and
    its claim statements succeed. *)
Definition keeps_up : Prop :=
  forall i row, t_start w <= t_chunkTime w i < dl /\ t_claimFails w i = false /\
                t_startedAt w (r_id row) + startRoomMs lane row < dl.

Lemma run_chunk_other claimed i chunk st id :
  id ∉ List.map r_id chunk -> lastClaimedAt (ts_db (run_chunk lane w claimed i chunk st)) id = lastClaimedAt (ts_db st) id.
Proof.
  intros Hni. unfold run_chunk. case_match; [done|]. case_match; [done|].
  destruct (claimRuleChunk _ _ _ _ _) as [won d'] eqn:Hc. rewrite fold_claimed_last. simpl.
  apply claimRuleChunk_claims in Hc. destruct (claim_rules_other _ _ _ _ _ _ id Hc Hni) as [Hl _].
  unfold lastClaimedAt. by rewrite Hl.
Qed.

Lemma run_chunk_evaluates claimed i chunk st row :
  keeps_up -> NoDup (List.map r_id chunk) -> row ∈ chunk ->
  (forall t, lastClaimedAt (ts_db st) (r_id row) = Some t -> t + lockTtlMs lane < t_start w) ->
  (r_id row, t_chunkTime w i) ∈ ts_evaluated (run_chunk lane w claimed i chunk st).
Proof.
  intros Hk Hnd Hin Hold. destruct (Hk i row) as (Ht & Hf & Hs). unfold run_chunk.
  case_match eqn:Hd; [bool_to_prop; lia|]. rewrite Hf.
  destruct (claimRuleChunk _ _ _ _ _) as [won d'] eqn:Hc. apply claimRuleChunk_claims in Hc.
  assert (Hid : r_id row ∈ List.map r_id chunk) by (apply list_elem_of_In, in_map; by apply list_elem_of_In).
  destruct (claim_rules_member _ _ _ _ _ _ (r_id row) Hc Hnd Hid) as [Hw _].
  apply fold_claimed_evaluated. right. exists row. split_and!; [|done|done].
  apply elem_of_list_filter. split; [done|]. apply bool_decide_eq_true. apply Hw.
  unfold claimable. destruct (d_claims (ts_db st) !! r_id row) as [c|] eqn:Hcl; [|done].
  specialize (Hold (c_lastScheduledAt c)). unfold lastClaimedAt in Hold. rewrite Hcl in Hold. specialize (Hold eq_refl). lia.
Qed.

Lemma run_chunks_evaluates claimed i chunks st row :
  keeps_up -> NoDup (List.map r_id (concat chunks)) -> row ∈ concat chunks ->
  (forall t, lastClaimedAt (ts_db st) (r_id row) = Some t -> t + lockTtlMs lane < t_start w) ->
  exists ts, (r_id row, ts) ∈ ts_evaluated (run_chunks lane w claimed i chunks st).
Proof.
  intros Hk. revert i st. induction chunks as [|chunk chunks IH]; intros i st Hnd Hin Hold; cbn in *.
  { by apply elem_of_nil in Hin. }
  rewrite map_app in Hnd. apply NoDup_app in Hnd as (Hnd1 & Hdis & Hnd2).
  apply elem_of_app in Hin as [Hin|Hin].
  - exists (t_chunkTime w i). apply run_chunks_evaluated_mono. by apply run_chunk_evaluates.
  - apply IH; [done|done|]. rewrite run_chunk_other; [done|]. intros Hc. apply (Hdis (r_id row) Hc).
    apply list_elem_of_In, in_map. by apply list_elem_of_In.
Qed.
End TickFacts.

(** *** Rules during a tick *)

(** A rule without its heartbeat. *)
Definition schedule_of (r : rule_row) : rule_row :=
  {| r_id := r_id r; r_orgId := r_orgId r; r_enabled := r_enabled r; r_signalType := r_signalType r;
     r_updatedAt := r_updatedAt r; r_windowMinutes := r_windowMinutes r;
     r_evaluationIntervalMinutes := r_evaluationIntervalMinutes r;
     r_slowedIntervalMinutes := r_slowedIntervalMinutes r; r_lastScheduledAt := None |}.

Definition has_rule (r : rule_row) (d : db) : Prop := exists r', r' ∈ d_rules d /\ schedule_of r' = schedule_of r.

Definition ids (d : db) : list string := List.map r_id (d_rules d).

Lemma update_rules_ids cond f d : (forall r, r_id (f r) = r_id r) -> ids (update_rules cond f d) = ids d.
Proof.
  intros Hf. unfold ids, update_rules. simpl. rewrite List.map_map. apply List.map_ext. intros r. by destruct (cond r).
Qed.

Lemma update_rules_has r cond f d :
  (forall r', r' ∈ d_rules d -> schedule_of r' = schedule_of r -> cond r' = true -> schedule_of (f r') = schedule_of r) ->
  has_rule r d -> has_rule r (update_rules cond f d).
Proof.
  intros Hf (r' & Hin & Hs). exists (if cond r' then f r' else r'). split.
  - simpl. apply list_elem_of_In, in_map_iff. exists r'. split; [done|]. by apply list_elem_of_In.
  - destruct (cond r') eqn:Hc; auto.
Qed.

Lemma claim_chunk_rules chunk ts ttl ok d :
  ids (claimRuleChunk chunk ts ttl ok d).2 = ids d /\
  forall r, has_rule r d -> has_rule r (claimRuleChunk chunk ts ttl ok d).2.
Proof.
  unfold claimRuleChunk. destruct (claim_rules _ _ _ _) as [won claims]. destruct ok; simpl; [|done]. split.
  - unfold heartbeat. by rewrite update_rules_ids.
  - intros r H. unfold heartbeat. apply update_rules_has; [|exact H]. by intros r' _ <- _.
Qed.

Lemma slow_down_rules row m d :
  ids (slow_down row m d) = ids d /\
  forall r, r_id r <> r_id row -> has_rule r d -> has_rule r (slow_down row m d).
Proof.
  unfold slow_down.
  split.
  - change (ids (update_claims ?g ?d')) with (ids d'). by apply update_rules_ids.
  - intros r Hne H. change (has_rule r (update_claims ?g ?d')) with (has_rule r d').
    apply update_rules_has; [|exact H].
    intros r' _ Hs Hc. exfalso. apply andb_true_iff in Hc as [[_ Hc]%andb_true_iff _]. bool_to_prop. apply Hne.
    rewrite <- Hc. by apply (f_equal r_id) in Hs.
Qed.

Lemma record_limit_rules row ts kind d :
  ids (recordQueryLimitFailure row ts kind d) = ids d /\
  forall r, r_id r <> r_id row -> has_rule r d -> has_rule r (recordQueryLimitFailure row ts kind d).
Proof.
  unfold recordQueryLimitFailure. repeat case_match; try done.
  match goal with |- ids (slow_down row ?m ?d1) = _ /\ _ => destruct (slow_down_rules row m d1) as [Hi Hr] end.
  split; [exact Hi|]. intros r Hne H'. by apply Hr.
Qed.

Section TickRules.
Context (lane : lane_settings) (w : tick_weather).

Lemma run_claimed_rules ts st row :
  ids (ts_db (run_claimed lane w ts st row)) = ids (ts_db st) /\
  forall r, (forall kind, t_outcome w (r_id r) <> check_limit kind) -> has_rule r (ts_db st) ->
            has_rule r (ts_db (run_claimed lane w ts st row)).
Proof.
  unfold run_claimed. case_match; [done|]. case_match eqn:Ho; try done. simpl.
  destruct (record_limit_rules row ts kind (ts_db st)) as [Hi Hr]. split; [done|].
  intros r Hn Hh. apply Hr; [|done]. intros He. apply (Hn kind). by rewrite He.
Qed.

Lemma fold_claimed_rules ts rows st :
  ids (ts_db (fold_left (run_claimed lane w ts) rows st)) = ids (ts_db st) /\
  forall r, (forall kind, t_outcome w (r_id r) <> check_limit kind) -> has_rule r (ts_db st) ->
            has_rule r (ts_db (fold_left (run_claimed lane w ts) rows st)).
Proof.
  revert st. induction rows as [|row rows IH]; intros st; [done|]. cbn.
  destruct (run_claimed_rules ts st row) as [Hi Hr]. destruct (IH (run_claimed lane w ts st row)) as [Hi' Hr'].
  split; [by rewrite Hi'|]. auto.
Qed.

Lemma run_chunks_rules claimed i chunks st :
  ids (ts_db (run_chunks lane w claimed i chunks st)) = ids (ts_db st) /\
  forall r, (forall kind, t_outcome w (r_id r) <> check_limit kind) -> has_rule r (ts_db st) ->
            has_rule r (ts_db (run_chunks lane w claimed i chunks st)).
Proof.
  revert i st. induction chunks as [|chunk chunks IH]; intros i st; [done|]. cbn [run_chunks].
  destruct (IH (S i) (run_chunk lane w claimed i chunk st)) as [Hi Hr].
  assert (H : ids (ts_db (run_chunk lane w claimed i chunk st)) = ids (ts_db st) /\
    forall r, (forall kind, t_outcome w (r_id r) <> check_limit kind) -> has_rule r (ts_db st) ->
              has_rule r (ts_db (run_chunk lane w claimed i chunk st))).
  { unfold run_chunk. case_match; [done|]. case_match; [done|].
    destruct (claim_chunk_rules chunk (t_chunkTime w i) (lockTtlMs lane) (t_heartbeatOk w i) (ts_db st)) as [Hci Hcr].
    destruct (claimRuleChunk _ _ _ _ _) as [won d']. simpl in *.
    edestruct fold_claimed_rules as [Hfi Hfr]. rewrite Hfi. split; [done|]. intros r Hn Hh. apply Hfr; auto. }
  destruct H as [Hi1 Hr1]. split; [by rewrite Hi|]. auto.
Qed.
End TickRules.

(** *** The tick as a whole *)

Lemma tick_rules lane w laneName d :
  ids (evaluateScheduledRules lane w laneName d).1 = ids d /\
  forall r, (forall kind, t_outcome w (r_id r) <> check_limit kind) -> has_rule r d ->
            has_rule r (evaluateScheduledRules lane w laneName d).1.
Proof.
  unfold evaluateScheduledRules. simpl. set (ordered := default [] _).
  pose proof (run_chunks_rules lane w (lastClaimedAt d) 0 (chunks_of (length ordered) (claimChunkSize lane) ordered)
    {| ts_db := d; ts_retry := []; ts_evaluated := []; ts_clean := [] |}) as [Hi Hr]. split; [exact Hi|exact Hr].
Qed.

Lemma tick_last lane w laneName d id t :
  lastClaimedAt (evaluateScheduledRules lane w laneName d).1 id = Some t ->
  lastClaimedAt d id = Some t \/ t < deadline lane w \/ t = 0.
Proof.
  unfold evaluateScheduledRules. simpl. rewrite reset_failures_last.
  edestruct release_last as [Hr|[Hr _]]; rewrite Hr; [|intros [= <-]; auto].
  intros [H|H]%run_chunks_last; auto.
Qed.

Lemma schedule_interval r r' : schedule_of r = schedule_of r' -> alertRuleIntervalMinutes r = alertRuleIntervalMinutes r'.
Proof. destruct r, r'. unfold schedule_of, alertRuleIntervalMinutes. cbn. intros [= ]. by subst. Qed.

Lemma schedule_lane r r' : schedule_of r = schedule_of r' -> alertSchedulerLaneOf r = alertSchedulerLaneOf r'.
Proof.
  intros H. unfold alertSchedulerLaneOf. rewrite (schedule_interval r r' H).
  apply (f_equal r_signalType) in H. simpl in H. by rewrite H.
Qed.

Lemma due_rows_perm_ids laneName w d : NoDup (ids d) -> NoDup (List.map r_id (due_rows w laneName d)).
Proof.
  intros Hnd. unfold due_rows. apply NoDup_map_filter, NoDup_map_filter.
  rewrite (Permutation_map r_id (js_sort_perm _ _)). by apply NoDup_map_filter.
Qed.

Section Liveness.
Context (laneName : AlertSchedulerLane).
Notation lane := (SCHEDULER_LANES laneName).

(** A due rule whose last claim has expired is evaluated by a tick that keeps up. *)
Lemma due_rule_evaluated w d rule :
  keeps_up lane w -> NoDup (ids d) -> rule ∈ d_rules d -> r_enabled rule = true -> alertSchedulerLaneOf rule = laneName ->
  (forall t, lastClaimedAt d (r_id rule) = Some t -> t + lockTtlMs lane < t_start w) ->
  isAlertRuleDue
    {| due_ruleId := r_id rule; due_intervalMinutes := alertRuleIntervalMinutes rule; due_updatedAt := r_updatedAt rule;
       due_lastClaimedAt := lastClaimedAt d (r_id rule); due_windowEndMs := snapAlertWindowEndMs (t_start w) |} = true ->
  exists ts, (r_id rule, ts) ∈ (run_lane laneName w d).2.
Proof.
  intros Hk Hnd Hin He Hl Hold Hdue. unfold run_lane, evaluateScheduledRules. simpl.
  set (ordered := orderAlertRulesByLastClaim _ _).
  destruct (interleave_rounds r_orgId ordered) as (n & -> & Hperm). simpl. set (fair := rounds _ n) in *.
  assert (Hpd : Permutation fair (due_rows w laneName d)).
  { rewrite Hperm. unfold ordered, orderAlertRulesByLastClaim. apply js_sort_perm. }
  assert (Hc : concat (chunks_of (length fair) (claimChunkSize lane) fair) = fair).
  { apply concat_chunks_of; [destruct laneName; simpl; lia|done]. }
  apply run_chunks_evaluates; [done| | |done]; rewrite Hc.
  - rewrite (Permutation_map r_id Hpd). by apply due_rows_perm_ids.
  - rewrite Hpd. unfold due_rows. rewrite elem_of_list_filter. split; [|done].
    rewrite elem_of_list_filter, elem_of_js_sort, elem_of_list_filter. by rewrite bool_decide_eq_true.
Qed.

Lemma due_on_phase r last updated windowEnd interval :
  Z.rem (windowEnd / 60000) interval = alertRulePhase r interval ->
  isAlertRuleDue {| due_ruleId := r; due_intervalMinutes := interval; due_updatedAt := updated;
                    due_lastClaimedAt := last; due_windowEndMs := windowEnd |} = true.
Proof.
  intros H. unfold isAlertRuleDue, ALERT_TICK_SECONDS.
  cbn [due_ruleId due_intervalMinutes due_updatedAt due_lastClaimedAt due_windowEndMs].
  do 2 (case_match; [done|]). by apply Z.eqb_eq.
Qed.

(** Between the start of a minute's tick and the next minute, the lane's claims
    expire: a tick starts at most [jitter] milliseconds into its minute. *)
Definition on_time (jitter minute : Z) (w : tick_weather) : Prop :=
  minute * 60000 <= t_start w <= minute * 60000 + jitter /\ keeps_up lane w.

Definition claims_expire (jitter : Z) : Prop :=
  0 <= jitter /\ jitter + Z.min (tickBudgetMs lane) (lockTtlMs lane - SCHEDULER_LOCK_MARGIN_MS) + lockTtlMs lane <= 60000.

Lemma expiring_jitter jitter : claims_expire jitter -> 0 <= jitter <= 5000 /\ laneName = standard.
Proof.
  unfold claims_expire, SCHEDULER_LOCK_MARGIN_MS. destruct laneName; cbn;
    unfold SCHEDULER_LOCK_TTL_MS, SCHEDULER_TICK_BUDGET_MS_DEFAULT; [|lia]. intros [H1 H2]. split; [lia|done].
Qed.

Lemma snap_on_time jitter minute w :
  claims_expire jitter -> on_time jitter minute w -> snapAlertWindowEndMs (t_start w) = minute * 60000.
Proof.
  intros [Hj _]%expiring_jitter [Hs _]. unfold snapAlertWindowEndMs, floorToBucketMs, ALERT_TICK_SECONDS.
  change (60 * 1000) with 60000. f_equal. Z.to_euclidean_division_equations; lia.
Qed.

(** One tick after another: the [k]-th evaluates the rule if the minute is on
    the rule's phase. *)
Lemma phase_tick_evaluates jitter minute ws d rule k w :
  claims_expire jitter -> 0 <= minute -> NoDup (ids d) -> has_rule rule d ->
  r_enabled rule = true -> alertSchedulerLaneOf rule = laneName ->
  (forall t, lastClaimedAt d (r_id rule) = Some t -> t + lockTtlMs lane < minute * 60000) ->
  (forall i w', ws !! i = Some w' -> on_time jitter (minute + Z.of_nat i) w') ->
  (forall w', w' ∈ ws -> forall kind, t_outcome w' (r_id rule) <> check_limit kind) ->
  ws !! k = Some w ->
  Z.rem (minute + Z.of_nat k) (alertRuleIntervalMinutes rule) = alertRulePhase (r_id rule) (alertRuleIntervalMinutes rule) ->
  exists evaluated ts, run_ticks laneName ws d !! k = Some evaluated /\ (r_id rule, ts) ∈ evaluated.
Proof.
  intros Hexp. revert minute d k. induction ws as [|w0 ws IH]; intros minute d k Hm Hnd Hr He Hl Hold Hon Hout Hk Hphase; [done|].
  pose proof (Hon 0%nat w0 eq_refl) as Hon0. rewrite Z.add_0_r in Hon0. cbn [run_ticks].
  destruct (run_lane laneName w0 d) as [d' evaluated] eqn:Hrun. destruct k as [|k].
  - injection Hk as ->. destruct Hr as (r' & Hin & Hs). exists evaluated. simpl.
    assert (Hid : r_id r' = r_id rule) by (by apply (f_equal r_id) in Hs).
    destruct (due_rule_evaluated w d r') as [ts Hts]; try done.
    + apply Hon0.
    + apply (f_equal r_enabled) in Hs. simpl in Hs. by rewrite Hs.
    + by rewrite (schedule_lane _ _ Hs).
    + intros t Ht. rewrite Hid in Ht. specialize (Hold t Ht). destruct Hon0 as [Hst _]. lia.
    + apply due_on_phase. rewrite (snap_on_time jitter minute w Hexp Hon0), Z.div_mul, Hid, (schedule_interval _ _ Hs) by done.
      by rewrite Z.add_0_r in Hphase.
    + rewrite Hrun, Hid in Hts. by exists ts.
  - destruct (tick_rules lane w0 laneName d) as [Hids Hrules]. fold (run_lane laneName w0 d) in Hids, Hrules.
    rewrite Hrun in Hids, Hrules. simpl in Hids, Hrules.
    apply (IH (minute + 1) d' k); try done; [lia|by rewrite Hids| | | | |].
    + apply Hrules; [|done]. apply Hout. set_solver.
    + intros t Ht. pose proof (tick_last lane w0 laneName d (r_id rule) t) as Hlast.
      fold (run_lane laneName w0 d) in Hlast. rewrite Hrun in Hlast. specialize (Hlast Ht).
      destruct Hon0 as [Hst _]. pose proof (expiring_jitter _ Hexp) as [Hj Hlane]. destruct Hexp as [_ Hb].
      unfold deadline in Hlast. rewrite Hlane in *. cbn in *.
      unfold SCHEDULER_LOCK_TTL_MS, SCHEDULER_TICK_BUDGET_MS_DEFAULT, SCHEDULER_LOCK_MARGIN_MS in *.
      destruct Hlast as [Hlast|[Hlast| ->]]; [specialize (Hold t Hlast)| |]; lia.
    + intros i w' Hw'. replace (minute + 1 + Z.of_nat i) with (minute + Z.of_nat (S i)) by lia. by apply Hon.
    + intros w' Hw'. apply Hout. set_solver.
    + by replace (minute + 1 + Z.of_nat k) with (minute + Z.of_nat (S k)) by lia.
Qed.

(** Every [interval] consecutive minutes contain one on the phase. *)
Lemma phase_minute interval phase m :
  0 <= m -> 0 <= phase < interval -> exists x, m < x <= m + interval /\ Z.rem x interval = phase.
Proof.
  intros Hm Hp. exists (m + 1 + (phase - (m + 1)) mod interval).
  pose proof (Z.mod_pos_bound (phase - (m + 1)) interval ltac:(lia)). split; [lia|].
  rewrite Z.rem_mod_nonneg by lia. rewrite Z.add_mod_idemp_r by lia.
  replace (m + 1 + (phase - (m + 1))) with phase by lia. by apply Z.mod_small.
Qed.

(** C14: no minute goes unchecked while ticks are on time. The lane ticks every
    minute; each tick starts within the jitter after its minute that lets the
    claims of one tick expire before the next (five seconds for the standard
    lane), its claim statements succeed, and it starts its rules before
    its deadline. Then an enabled rule of the lane whose interval fits its
    window, any claim on which has expired when the ticks begin and whose checks
    do not run into a query limit (repeated limits slow a rule down), is claimed
    and its check is started, whether it then succeeds or fails, at least once in
    every [interval] consecutive ticks, on whatever phase its identifier puts it;
    and every minute lies inside the window of one of these checks. *)
Theorem every_minute_is_checked jitter minute ws d rule m :
  claims_expire jitter -> 0 <= minute -> NoDup (ids d) -> rule ∈ d_rules d ->
  r_enabled rule = true -> alertSchedulerLaneOf rule = laneName ->
  1 <= alertRuleIntervalMinutes rule <= r_windowMinutes rule ->
  (forall t, lastClaimedAt d (r_id rule) = Some t -> t + lockTtlMs lane < minute * 60000) ->
  (forall i w, ws !! i = Some w -> on_time jitter (minute + Z.of_nat i) w) ->
  (forall w, w ∈ ws -> forall kind, t_outcome w (r_id rule) <> check_limit kind) ->
  minute <= m -> m + alertRuleIntervalMinutes rule < minute + Z.of_nat (length ws) ->
  exists k w evaluated ts,
    ws !! k = Some w /\ run_ticks laneName ws d !! k = Some evaluated /\ (r_id rule, ts) ∈ evaluated /\
    m * 60000 < (evaluation_window rule w).2 <= (m + alertRuleIntervalMinutes rule) * 60000 /\
    (evaluation_window rule w).1 <= m * 60000 /\ (m + 1) * 60000 <= (evaluation_window rule w).2.
Proof.
  intros Hexp Hmin Hnd Hin He Hl Hint Hold Hon Hout Hm Hlen.
  destruct (phase_minute (alertRuleIntervalMinutes rule) (alertRulePhase (r_id rule) (alertRuleIntervalMinutes rule)) m)
    as (x & Hx & Hphase); [lia|apply phase_range; lia|].
  destruct (lookup_lt_is_Some_2 ws (Z.to_nat (x - minute)) ltac:(lia)) as [w Hw].
  assert (Hx' : minute + Z.of_nat (Z.to_nat (x - minute)) = x) by lia.
  destruct (phase_tick_evaluates jitter minute ws d rule (Z.to_nat (x - minute)) w) as (evaluated & ts & Hrun & Hts);
    try done; [by exists rule|by rewrite Hx'|].
  exists (Z.to_nat (x - minute)), w, evaluated, ts. split_and!; try done; unfold evaluation_window;
    rewrite (snap_on_time jitter x w Hexp) by (rewrite <- Hx'; by apply Hon); simpl; lia.
Qed.

End Liveness.

(** ** A concrete lane *)

Definition demo_rule : rule_row :=
  {| r_id := "rule-1"; r_orgId := "org-1"; r_enabled := true; r_signalType := "error_rate"; r_updatedAt := 1000;
     r_windowMinutes := 10; r_evaluationIntervalMinutes := None; r_slowedIntervalMinutes := None; r_lastScheduledAt := None |}.

Definition demo_db : db := {| d_rules := [demo_rule]; d_claims := {[ "rule-1"%string := {| c_lastScheduledAt := 5970000; c_consecutiveLimitFailures := 0 |} ]} |}.

Definition demo_tick (minute : Z) : tick_weather :=
  {| t_start := minute * 60000 + 2000; t_chunkTime := fun _ => minute * 60000 + 2500; t_claimFails := fun _ => false;
     t_heartbeatOk := fun _ => true; t_startedAt := fun _ => minute * 60000 + 3000; t_outcome := fun _ => check_clean |}.

Lemma demo_on_time minute : on_time standard 5000 minute (demo_tick minute).
Proof.
  split; [cbn; lia|]. intros i row. unfold deadline. cbn.
  unfold SCHEDULER_TICK_BUDGET_MS_DEFAULT, SCHEDULER_LOCK_TTL_MS, SCHEDULER_LOCK_MARGIN_MS. split_and!; [lia|lia|done|lia].
Qed.

Definition demo_ticks : list tick_weather := List.map demo_tick [101; 102; 103; 104; 105].

Example demo_run : List.map (List.map snd) (run_ticks standard demo_ticks demo_db) = [[6062500]; []; [6182500]; []; [6302500]].
Proof. vm_compute. reflexivity. Qed.

Example every_minute_is_checked_witness :
  exists k w evaluated ts,
    demo_ticks !! k = Some w /\ run_ticks standard demo_ticks demo_db !! k = Some evaluated /\ ("rule-1"%string, ts) ∈ evaluated /\
    102 * 60000 < (evaluation_window demo_rule w).2 <= 104 * 60000 /\
    (evaluation_window demo_rule w).1 <= 102 * 60000 /\ 103 * 60000 <= (evaluation_window demo_rule w).2.
Proof.
  apply (every_minute_is_checked standard 5000 101 demo_ticks demo_db demo_rule 102).
  - split; vm_compute; congruence.
  - lia.
  - vm_compute. apply NoDup_singleton.
  - apply elem_of_cons. by left.
  - reflexivity.
  - vm_compute. reflexivity.
  - vm_compute. split; congruence.
  - intros t Ht. vm_compute in Ht. injection Ht as <-. vm_compute. reflexivity.
  - intros i w Hw. do 5 (destruct i as [|i]; [injection Hw as <-; apply demo_on_time|]). done.
  - intros w Hw kind. unfold demo_ticks in Hw. cbn in Hw.
    repeat (apply elem_of_cons in Hw as [->|Hw]; [done|]). by apply elem_of_nil in Hw.
  - lia.
  - vm_compute. reflexivity.
Defined.

(** A tick that lost its claim: a later tick re-claimed the rule. *)
Example fenced_write_exclusive_witness :
  let c := {| rc_ruleId := "rule-1"; rc_claimedAt := 6122500; rc_ruleUpdatedAt := 1000 |} in
  let held := exec (ev_claim [demo_rule] 6122500 30000 true) demo_db in
  let later := [ev_claim [demo_rule] 6182500 30000 true] in
  Forall (after_claim c) later /\
  writeUnderClaim (Some c) (fun d => (tt, d)) held = (Ok tt, held) /\
  (writeUnderClaim (Some c) (fun d => (tt, d)) (run_events later held)).2 = run_events later held.
Proof.
  assert (Hl : Forall (after_claim {| rc_ruleId := "rule-1"; rc_claimedAt := 6122500; rc_ruleUpdatedAt := 1000 |})
                 [ev_claim [demo_rule] 6182500 30000 true]) by (constructor; [simpl; lia|constructor]).
  split_and!; [exact Hl|vm_compute; reflexivity|].
  pose proof (fenced_write_exclusive {| rc_ruleId := "rule-1"; rc_claimedAt := 6122500; rc_ruleUpdatedAt := 1000 |}
    [ev_claim [demo_rule] 6182500 30000 true] (exec (ev_claim [demo_rule] 6122500 30000 true) demo_db)
    (fun d => (tt, d)) ltac:(simpl; lia) Hl) as H. cbv zeta in H.
  destruct (writeUnderClaim _ _ _) as [[a|e] d']; [destruct H as (Heq & _); by inversion Heq|exact H].
Defined.
