(* ===== verification/EventTime.v ===== *)
(** * Eventing: instants

    [packages/eventing-core/src/predicate.ts], the v1 RFC 3339 subset parsed to
    exact UTC nanoseconds, and the timestamp and int64 patterns of
    [scalar-patterns.ts], with a regular-expression matcher that decides them. *)

From Stdlib Require Import Ascii String.
From stdpp Require Import prelude list strings.
From Stdlib Require Import ZArith Lia.
From S2P Require Import Prelude.
From S2P Require Import JsString.

Open Scope Z_scope.

(** ** Calendar *)

Definition isLeapYear (year : Z) : bool :=
  (year mod 4 =? 0) && (negb (year mod 100 =? 0) || (year mod 400 =? 0)).

Definition daysInMonth (year month : Z) : Z :=
  match month with
  | 2 => if isLeapYear year then 29 else 28
  | 4 | 6 | 9 | 11 => 30
  | _ => 31
  end.

(** ECMAScript [DayFromYear] and [MakeDay], which [setUTCFullYear] uses, for a
    month from 1 to 12 and a day of that month. *)
Definition day_from_year (year : Z) : Z :=
  365 * (year - 1970) + (year - 1969) / 4 - (year - 1901) / 100 + (year - 1601) / 400.

Fixpoint days_before (year : Z) (months : nat) : Z :=
  match months with
  | O => 0
  | S m => days_before year m + daysInMonth year (Z.of_nat m + 1)
  end.

Definition make_day (year month day : Z) : Z :=
  day_from_year year + days_before year (Z.to_nat (month - 1)) + (day - 1).

(** [date.getTime()] after [setUTCFullYear] and [setUTCHours]. *)
Definition utc_millis (year month day hour minute second : Z) : Z :=
  make_day year month day * 86400000 + hour * 3600000 + minute * 60000 + second * 1000.

(** ** Parsing *)

(** [\d{n}] *)
Fixpoint read_digits (n : nat) (acc : Z) (s : string) : option (Z * string) :=
  match n with
  | O => Some (acc, s)
  | S n' =>
      match s with
      | String c s' => if is_digit c then read_digits n' (10 * acc + digit_value c) s' else None
      | EmptyString => None
      end
  end.

Definition read_char (c : ascii) (s : string) : option string :=
  match s with
  | String d s' => if bool_decide (d = c) then Some s' else None
  | EmptyString => None
  end.

(** The longest run of digits, and what follows. *)
Fixpoint span_digits (s : string) : string * string :=
  match s with
  | String c s' =>
      if is_digit c then let '(d, rest) := span_digits s' in (String c d, rest)
      else (EmptyString, s)
  | EmptyString => (EmptyString, EmptyString)
  end.

(** [(?:\.(\d{1,9}))?]: the digits captured. What follows in the pattern is not
    a digit, so only the longest run can match. *)
Definition read_fraction (s : string) : option (string * string) :=
  match read_char "."%char s with
  | None => Some (EmptyString, s)
  | Some rest =>
      let '(d, rest') := span_digits rest in
      if (1 <=? String.length d)%nat && (String.length d <=? 9)%nat then Some (d, rest') else None
  end.

Inductive zone :=
  | zone_utc
  | zone_offset (negative : bool) (hours minutes : Z).

(** [(Z|([+-])(\d{2}):(\d{2}))$] *)
Definition read_zone (s : string) : option zone :=
  match s with
  | String c rest =>
      if bool_decide (c = "Z"%char) then
        match rest with EmptyString => Some zone_utc | _ => None end
      else if bool_decide (c = "+"%char) || bool_decide (c = "-"%char) then
        '(h, rest) ← read_digits 2 0 rest;
        rest ← read_char ":"%char rest;
        '(m, rest) ← read_digits 2 0 rest;
        match rest with EmptyString => Some (zone_offset (bool_decide (c = "-"%char)) h m) | _ => None end
      else None
  | EmptyString => None
  end.

Record timestamp_parts := {
  tp_year : Z; tp_month : Z; tp_day : Z;
  tp_hour : Z; tp_minute : Z; tp_second : Z;
  tp_fraction : string;
  tp_zone : zone
}.

(** [TIMESTAMP.exec(value)] *)
Definition match_timestamp (s : string) : option timestamp_parts :=
  '(year, s) ← read_digits 4 0 s;
  s ← read_char "-"%char s;
  '(month, s) ← read_digits 2 0 s;
  s ← read_char "-"%char s;
  '(day, s) ← read_digits 2 0 s;
  s ← read_char "T"%char s;
  '(hour, s) ← read_digits 2 0 s;
  s ← read_char ":"%char s;
  '(minute, s) ← read_digits 2 0 s;
  s ← read_char ":"%char s;
  '(second, s) ← read_digits 2 0 s;
  '(fraction, s) ← read_fraction s;
  z ← read_zone s;
  Some {| tp_year := year; tp_month := month; tp_day := day; tp_hour := hour;
          tp_minute := minute; tp_second := second; tp_fraction := fraction; tp_zone := z |}.

(** [BigInt(fraction.padEnd(9, "0"))] *)
Definition fraction_nanos (fraction : string) : Z :=
  default 0 (digits_value 0 fraction) * 10 ^ (9 - Z.of_nat (String.length fraction)).

Definition fields_in_range (p : timestamp_parts) : bool :=
  negb ((tp_month p <? 1) || (12 <? tp_month p) || (tp_day p <? 1)
        || (daysInMonth (tp_year p) (tp_month p) <? tp_day p)
        || (23 <? tp_hour p) || (59 <? tp_minute p) || (59 <? tp_second p)).

Definition offset_minutes (z : zone) : option Z :=
  match z with
  | zone_utc => Some 0
  | zone_offset negative h m =>
      if (23 <? h) || (59 <? m) then None
      else let offset := h * 60 + m in Some (if negative then - offset else offset)
  end.

(** The milliseconds are finite for every year of four digits. *)
Definition timestampToEpochNanos (value : string) : option Z :=
  p ← match_timestamp value;
  if fields_in_range p then
    offset ← offset_minutes (tp_zone p);
    let milliseconds :=
      utc_millis (tp_year p) (tp_month p) (tp_day p) (tp_hour p) (tp_minute p) (tp_second p)
      - offset * 60000 in
    Some (milliseconds * 1000000 + fraction_nanos (tp_fraction p))
  else None.

Example epoch_instant : timestampToEpochNanos "1970-01-01T00:00:00Z" = Some 0.
Proof. vm_compute. reflexivity. Qed.

Example leap_instant :
  timestampToEpochNanos "2024-02-29T23:59:59.5+01:30" = Some 1709245799500000000.
Proof. vm_compute. reflexivity. Qed.

Example no_such_day : timestampToEpochNanos "2023-02-29T00:00:00Z" = None.
Proof. vm_compute. reflexivity. Qed.

(** ** Regular expressions *)

(** The constructs the program's patterns use. *)
Inductive regex :=
  | re_empty
  | re_char (test : ascii -> bool)
  | re_seq (a b : regex)
  | re_alt (a b : regex)
  | re_repeat (a : regex) (lo hi : nat).

(** What each way of matching a prefix leaves of the string. *)
Fixpoint run_regex (r : regex) (s : string) : list string :=
  match r with
  | re_empty => [s]
  | re_char test =>
      match s with
      | String c s' => if test c then [s'] else []
      | EmptyString => []
      end
  | re_seq a b => concat (map (run_regex b) (run_regex a s))
  | re_alt a b => run_regex a s ++ run_regex b s
  | re_repeat a lo hi =>
      let fix must n s := match n with
        | O => [s]
        | S n' => concat (map (must n') (run_regex a s))
        end in
      let fix may n s := match n with
        | O => [s]
        | S n' => s :: concat (map (may n') (run_regex a s))
        end in
      concat (map (may (hi - lo)%nat) (must lo s))
  end.

(** [new RegExp("^" + r + "$").test(s)] *)
Definition regex_test (r : regex) (s : string) : bool :=
  existsb (fun rest => bool_decide (rest = EmptyString)) (run_regex r s).

Definition re_range (lo hi : ascii) : regex :=
  re_char (fun c => (byte_of lo <=? byte_of c) && (byte_of c <=? byte_of hi)).
Definition re_one (c : ascii) : regex := re_char (fun d => bool_decide (d = c)).
Definition re_oneof (cs : string) : regex := re_char (fun d => has_char d cs).

Fixpoint re_string (s : string) : regex :=
  match s with
  | EmptyString => re_empty
  | String c s' => re_seq (re_one c) (re_string s')
  end.

Fixpoint re_any (rs : list regex) : regex :=
  match rs with
  | [] => re_char (fun _ => false)
  | [r] => r
  | r :: rs' => re_alt r (re_any rs')
  end.

Fixpoint re_all (rs : list regex) : regex :=
  match rs with
  | [] => re_empty
  | [r] => r
  | r :: rs' => re_seq r (re_all rs')
  end.

Definition digit_class : regex := re_range "0" "9".

(** ** The patterns of [scalar-patterns.ts] *)

(** [[0-9]{n}] *)
Definition digits_exactly (n : nat) : regex := re_repeat digit_class n n.

(** [(?:[0-9]{2}(?:0[48]|[2468][048]|[13579][26])|(?:[02468][048]|[13579][26])00)] *)
Definition leapYear : regex :=
  re_alt
    (re_seq (digits_exactly 2)
       (re_any [re_seq (re_one "0") (re_oneof "48");
                re_seq (re_oneof "2468") (re_oneof "048");
                re_seq (re_oneof "13579") (re_oneof "26")]))
    (re_seq (re_any [re_seq (re_oneof "02468") (re_oneof "048");
                     re_seq (re_oneof "13579") (re_oneof "26")])
       (re_string "00")).

Definition day_to (tens : string) (last : regex) : regex :=
  re_any [re_seq (re_one "0") (re_range "1" "9"); re_seq (re_oneof tens) digit_class; last].

Definition ordinaryDate : regex :=
  re_seq (digits_exactly 4) (re_seq (re_one "-")
    (re_any [
      re_all [re_any (map re_string ["01"; "03"; "05"; "07"; "08"; "10"; "12"]%string); re_one "-";
              day_to "12" (re_seq (re_one "3") (re_oneof "01"))];
      re_all [re_any (map re_string ["04"; "06"; "09"; "11"]%string); re_one "-";
              day_to "12" (re_string "30")];
      re_all [re_string "02"; re_one "-";
              day_to "1" (re_seq (re_one "2") (re_range "0" "8"))]])).

Definition hour_pattern : regex :=
  re_alt (re_seq (re_oneof "01") digit_class) (re_seq (re_one "2") (re_range "0" "3")).

Definition minuteOrSecond : regex := re_seq (re_range "0" "5") digit_class.

Definition RFC3339_TIMESTAMP_PATTERN : regex :=
  re_all [
    re_alt ordinaryDate (re_seq leapYear (re_string "-02-29"));
    re_one "T"; hour_pattern; re_one ":"; minuteOrSecond; re_one ":"; minuteOrSecond;
    re_repeat (re_seq (re_one ".") (re_repeat digit_class 1 9)) 0 1;
    re_alt (re_one "Z") (re_all [re_oneof "+-"; hour_pattern; re_one ":"; minuteOrSecond])].

(** [magnitudePattern]: the digits of the maximum, most significant first. *)
Fixpoint string_chars (s : string) : list ascii :=
  match s with EmptyString => [] | String c s' => c :: string_chars s' end.

Definition digit_char (d : Z) : ascii := ascii_of_N (Z.to_N (48 + d)).

Fixpoint smaller_alternatives (first : bool) (prefix : regex) (digits : list ascii) : list regex :=
  match digits with
  | [] => []
  | c :: rest =>
      let minimumDigit := if first then 1 else 0 in
      let lastDigit := digit_value c - 1 in
      let here :=
        if lastDigit <? minimumDigit then []
        else
          let digit := if lastDigit =? minimumDigit then re_one (digit_char lastDigit)
                       else re_range (digit_char minimumDigit) (digit_char lastDigit) in
          [re_all [prefix; digit;
                   match rest with [] => re_empty | _ => digits_exactly (length rest) end]] in
      here ++ smaller_alternatives false (re_seq prefix (re_one c)) rest
  end.

Definition magnitudePattern (maximum : Z) : regex :=
  let digits := string_chars (show maximum) in
  re_any ([re_one "0"; re_seq (re_range "1" "9") (re_repeat digit_class 0 (length digits - 2))]
          ++ smaller_alternatives true re_empty digits
          ++ [re_string (show maximum)]).

Definition INT64_MIN : Z := - (2 ^ 63).
Definition INT64_MAX : Z := 2 ^ 63 - 1.

Definition DECIMAL_INT64_PATTERN : regex :=
  re_alt (magnitudePattern INT64_MAX) (re_seq (re_one "-") (magnitudePattern (- INT64_MIN))).

Example int64_pattern_examples :
  map (regex_test DECIMAL_INT64_PATTERN)
    ["0"; "-0"; "9223372036854775807"; "9223372036854775808"; "-9223372036854775808";
     "-9223372036854775809"; "01"; "12a"; "9223372036854775799"]%string =
  [true; true; true; false; true; false; false; false; true].
Proof. vm_compute. reflexivity. Qed.

Example rfc3339_examples :
  map (regex_test RFC3339_TIMESTAMP_PATTERN)
    ["2024-02-29T23:59:59.5+01:30"; "2023-02-29T00:00:00Z"; "2024-12-31T24:00:00Z";
     "2000-02-29T00:00:00.123456789Z"; "1900-02-29T00:00:00Z"]%string =
  [true; false; false; true; false].
Proof. vm_compute. reflexivity. Qed.

(** ** The timestamp pattern and the parser agree *)

(** Matching with a continuation: some way of matching a prefix satisfies [k]
    on the rest. *)
Definition accepts (r : regex) (k : string -> bool) (s : string) : bool := existsb k (run_regex r s).

Lemma existsb_concat_map {A B} (k : B -> bool) (f : A -> list B) l :
  existsb k (concat (map f l)) = existsb (fun x => existsb k (f x)) l.
Proof. induction l as [|x l IH]; simpl; [done|]. by rewrite List.existsb_app, IH. Qed.

Lemma existsb_ext {A} (f g : A -> bool) l : (forall x, f x = g x) -> existsb f l = existsb g l.
Proof. intros H. induction l as [|x l IH]; simpl; [done|]. by rewrite H, IH. Qed.

Lemma accepts_seq a b k s : accepts (re_seq a b) k s = accepts a (accepts b k) s.
Proof. apply existsb_concat_map. Qed.

Lemma accepts_alt a b k s : accepts (re_alt a b) k s = accepts a k s || accepts b k s.
Proof. apply List.existsb_app. Qed.

Lemma accepts_empty k s : accepts re_empty k s = k s.
Proof. apply orb_false_r. Qed.

Definition on_char (test : ascii -> bool) (k : string -> bool) (s : string) : bool :=
  match s with String c s' => test c && k s' | EmptyString => false end.

Lemma accepts_char test k s : accepts (re_char test) k s = on_char test k s.
Proof.
  unfold accepts, on_char. destruct s as [|c s]; simpl; [done|].
  destruct (test c); simpl; [apply orb_false_r|done].
Qed.

Lemma accepts_repeat_more a lo hi k s :
  accepts (re_repeat a (S lo) (S hi)) k s = accepts a (accepts (re_repeat a lo hi) k) s.
Proof.
  unfold accepts. cbn [run_regex Nat.sub].
  rewrite !existsb_concat_map. apply existsb_ext. intros x. by rewrite existsb_concat_map.
Qed.

Lemma accepts_repeat_none a k s : accepts (re_repeat a 0 0) k s = k s.
Proof. unfold accepts. simpl. by rewrite orb_false_r. Qed.

Lemma accepts_repeat_may a hi k s :
  accepts (re_repeat a 0 (S hi)) k s = k s || accepts a (accepts (re_repeat a 0 hi) k) s.
Proof.
  unfold accepts. cbn [run_regex Nat.sub]. simpl. rewrite !app_nil_r. simpl. f_equal.
  rewrite existsb_concat_map. apply existsb_ext. intros x. by rewrite Nat.sub_0_r, app_nil_r.
Qed.

Lemma accepts_ext r k k' s : (forall x, k x = k' x) -> accepts r k s = accepts r k' s.
Proof. apply existsb_ext. Qed.

(** A pattern that only matches strings of one length, decided by a test on
    strings of that length. *)
Fixpoint width (r : regex) : option nat :=
  match r with
  | re_empty => Some 0%nat
  | re_char _ => Some 1%nat
  | re_seq a b => n ← width a; m ← width b; Some (n + m)%nat
  | re_alt a b =>
      n ← width a; m ← width b; if bool_decide (n = m) then Some n else None
  | re_repeat a lo hi =>
      n ← width a; if bool_decide (lo = 2%nat /\ hi = 2%nat) then Some (n + n)%nat else None
  end.

Definition is_empty (s : string) : bool := bool_decide (s = EmptyString).

Lemma split_length (n m : nat) (p : string) :
  String.length p = (n + m)%nat ->
  exists q t, p = (q ++ t)%string /\ String.length q = n /\ String.length t = m.
Proof.
  revert p. induction n as [|n IH]; intros p Hp; [by exists EmptyString, p|].
  destruct p as [|c p]; [done|]. injection Hp as Hp.
  destruct (IH p Hp) as (q & t & -> & Hq & Ht). exists (String c q), t.
  rewrite append_cons. simpl. auto.
Qed.

Lemma append_assoc (a b c : string) : (a ++ (b ++ c) = (a ++ b) ++ c)%string.
Proof.
  induction a as [|x a IH]; [done|]. rewrite !append_cons. by rewrite IH.
Qed.

(** Whether [r] matches the whole of [p], which must have the width of [r]. *)
Lemma width_accepts r n :
  width r = Some n ->
  exists P : string -> bool,
    (forall p k t, String.length p = n -> accepts r k (p ++ t)%string = P p && k t) /\
    (forall k s, (String.length s < n)%nat -> accepts r k s = false).
Proof.
  revert n. induction r as [|test|a IHa b IHb|a IHa b IHb|a IHa lo hi]; intros n Hw; cbn in Hw.
  - injection Hw as <-. exists (fun _ => true). split.
    + intros [|] k t; [|done]. by rewrite accepts_empty, append_nil.
    + lia.
  - injection Hw as <-. exists (on_char test is_empty). split.
    + intros [|c [|]] k t; try done. rewrite accepts_char, append_cons, append_nil. simpl.
      by rewrite andb_true_r.
    + intros k [|]; simpl; [by rewrite accepts_char|lia].
  - destruct (width a) as [na|]; [|done]. destruct (width b) as [nb|]; [|done].
    injection Hw as <-.
    destruct (IHa na eq_refl) as (Pa & Ha & Hsa), (IHb nb eq_refl) as (Pb & Hb & Hsb).
    exists (fun p => accepts a (fun t => Pb t) p). split.
    + intros p k t Hp. destruct (split_length _ _ _ Hp) as (q & u & -> & Hq & Hu).
      rewrite accepts_seq, <- append_assoc, !Ha, Hb by done. by rewrite andb_assoc.
    + intros k s Hs. rewrite accepts_seq.
      destruct (decide (String.length s < na)%nat) as [|Hge]; [by apply Hsa|].
      destruct (split_length na (String.length s - na) s ltac:(lia)) as (q & t & -> & Hq & Ht).
      rewrite length_string_app in *. rewrite Ha, Hsb by lia. apply andb_false_r.
  - destruct (width a) as [na|]; [|done]. destruct (width b) as [nb|]; [|done]. cbn in Hw.
    case_bool_decide; [|done]. subst. injection Hw as <-.
    destruct (IHa nb eq_refl) as (Pa & Ha & Hsa), (IHb nb eq_refl) as (Pb & Hb & Hsb).
    exists (fun p => Pa p || Pb p). split.
    + intros p k t Hp. rewrite accepts_alt, Ha, Hb by done. by rewrite andb_orb_distrib_l.
    + intros k s Hs. by rewrite accepts_alt, Hsa, Hsb.
  - destruct (width a) as [na|]; [|done]. cbn in Hw.
    case_bool_decide as Hlh; [|done]. destruct Hlh as [-> ->]. injection Hw as <-.
    destruct (IHa na eq_refl) as (Pa & Ha & Hsa).
    assert (He : forall k s, accepts (re_repeat a 2 2) k s = accepts a (accepts a k) s).
    { intros k s. rewrite accepts_repeat_more. apply accepts_ext. intros x.
      rewrite accepts_repeat_more. apply accepts_ext. intros y. apply accepts_repeat_none. }
    exists (fun p => accepts a (fun t => Pa t) p). split.
    + intros p k t Hp. destruct (split_length _ _ _ Hp) as (q & u & -> & Hq & Hu).
      rewrite He, <- append_assoc, !Ha by done. by rewrite andb_assoc.
    + intros k s Hs. rewrite He.
      destruct (decide (String.length s < na)%nat) as [|Hge]; [by apply Hsa|].
      destruct (split_length na (String.length s - na) s ltac:(lia)) as (q & t & -> & Hq & Ht).
      rewrite length_string_app in *. rewrite Ha, Hsa by lia. apply andb_false_r.
Qed.

(** Reading a number of two digits that satisfies [P]. *)
Definition two_digits (P : Z -> bool) (k : string -> bool) (s : string) : bool :=
  match read_digits 2 0 s with Some (v, rest) => P v && k rest | None => false end.

Definition all_ascii : list ascii := map ascii_of_nat (seq 0 256).

Lemma elem_of_all_ascii c : c ∈ all_ascii.
Proof.
  apply list_elem_of_In, in_map_iff. exists (nat_of_ascii c). split; [apply ascii_nat_embedding|].
  apply in_seq. pose proof (nat_ascii_bounded c). lia.
Qed.

Definition agrees_on_pairs (r : regex) (P : Z -> bool) : bool :=
  forallb (fun c => forallb (fun d =>
    let p := String c (String d EmptyString) in
    Bool.eqb (regex_test r p) (two_digits P is_empty p)) all_ascii) all_ascii.

Lemma regex_test_accepts r s : regex_test r s = accepts r is_empty s.
Proof. done. Qed.

Lemma two_digits_accepts r P :
  width r = Some 2%nat -> agrees_on_pairs r P = true ->
  forall k s, accepts r k s = two_digits P k s.
Proof.
  intros Hw Hp k s. destruct (width_accepts r 2 Hw) as (T & Hacc & Hshort).
  destruct s as [|c [|d rest]]; [by apply Hshort; simpl; lia| |].
  { rewrite Hshort by (simpl; lia). unfold two_digits. simpl. by destruct (is_digit c). }
  assert (HT : T (String c (String d EmptyString)) = two_digits P is_empty (String c (String d EmptyString))).
  { unfold agrees_on_pairs in Hp. rewrite forallb_forall in Hp.
    specialize (Hp c (proj1 (list_elem_of_In _ _) (elem_of_all_ascii c))).
    rewrite forallb_forall in Hp.
    specialize (Hp d (proj1 (list_elem_of_In _ _) (elem_of_all_ascii d))).
    apply eqb_prop in Hp. rewrite <- Hp, regex_test_accepts.
    pose proof (Hacc (String c (String d EmptyString)) is_empty EmptyString eq_refl) as Hx.
    change (is_empty EmptyString) with true in Hx. rewrite andb_true_r in Hx. by symmetry. }
  change (String c (String d rest)) with (String c (String d EmptyString) ++ rest)%string at 1.
  rewrite Hacc, HT by done. unfold two_digits. simpl.
  destruct (is_digit c), (is_digit d); simpl; by rewrite ?andb_true_r.
Qed.

Ltac by_pairs := apply two_digits_accepts; [reflexivity|vm_compute; reflexivity].

Section Pieces.
Variables (k : string -> bool) (s : string).

Lemma hour_pieces : accepts hour_pattern k s = two_digits (fun h => h <=? 23) k s.
Proof. by_pairs. Qed.

Lemma minute_pieces : accepts minuteOrSecond k s = two_digits (fun m => m <=? 59) k s.
Proof. by_pairs. Qed.

Lemma pair_pieces : accepts (digits_exactly 2) k s = two_digits (fun _ => true) k s.
Proof. by_pairs. Qed.

Definition in_months (months : list Z) (m : Z) : bool := existsb (Z.eqb m) months.

Lemma months31_pieces :
  accepts (re_any (map re_string ["01"; "03"; "05"; "07"; "08"; "10"; "12"]%string)) k s =
  two_digits (in_months [1; 3; 5; 7; 8; 10; 12]) k s.
Proof. by_pairs. Qed.

Lemma months30_pieces :
  accepts (re_any (map re_string ["04"; "06"; "09"; "11"]%string)) k s =
  two_digits (in_months [4; 6; 9; 11]) k s.
Proof. by_pairs. Qed.

Lemma february_pieces : accepts (re_string "02") k s = two_digits (Z.eqb 2) k s.
Proof. by_pairs. Qed.

Lemma day31_pieces :
  accepts (day_to "12" (re_seq (re_one "3") (re_oneof "01"))) k s =
  two_digits (fun d => (1 <=? d) && (d <=? 31)) k s.
Proof. by_pairs. Qed.

Lemma day30_pieces :
  accepts (day_to "12" (re_string "30")) k s = two_digits (fun d => (1 <=? d) && (d <=? 30)) k s.
Proof. by_pairs. Qed.

Lemma day28_pieces :
  accepts (day_to "1" (re_seq (re_one "2") (re_range "0" "8"))) k s =
  two_digits (fun d => (1 <=? d) && (d <=? 28)) k s.
Proof. by_pairs. Qed.

Lemma day29_pieces : accepts (re_string "29") k s = two_digits (Z.eqb 29) k s.
Proof. by_pairs. Qed.

Lemma leap_tail_pieces :
  accepts (re_any [re_seq (re_one "0") (re_oneof "48"); re_seq (re_oneof "2468") (re_oneof "048");
                   re_seq (re_oneof "13579") (re_oneof "26")]) k s =
  two_digits (fun y => (y mod 4 =? 0) && negb (y =? 0)) k s.
Proof. by_pairs. Qed.

Lemma leap_century_pieces :
  accepts (re_any [re_seq (re_oneof "02468") (re_oneof "048");
                   re_seq (re_oneof "13579") (re_oneof "26")]) k s =
  two_digits (fun y => y mod 4 =? 0) k s.
Proof. by_pairs. Qed.

Lemma zeros_pieces : accepts (re_string "00") k s = two_digits (Z.eqb 0) k s.
Proof. by_pairs. Qed.
End Pieces.

Lemma accepts_string_app (p t : string) k s :
  accepts (re_string (p ++ t)) k s = accepts (re_string p) (accepts (re_string t) k) s.
Proof.
  revert s. induction p as [|c p IH]; intros s.
  - by rewrite append_nil, accepts_empty.
  - rewrite append_cons. cbn [re_string]. rewrite !accepts_seq. apply accepts_ext, IH.
Qed.

(** A literal character, then [k]. *)
Definition lit (c : ascii) (k : string -> bool) (s : string) : bool :=
  match read_char c s with Some rest => k rest | None => false end.

Lemma accepts_one c k s : accepts (re_one c) k s = lit c k s.
Proof.
  unfold re_one. rewrite accepts_char. unfold on_char, lit, read_char.
  destruct s as [|d s]; [done|]. by case_bool_decide.
Qed.

Lemma accepts_literal (c : ascii) k s : accepts (re_string (String c EmptyString)) k s = lit c k s.
Proof.
  cbn [re_string]. rewrite accepts_seq, accepts_one. unfold lit.
  destruct (read_char c s); [|done]. apply accepts_empty.
Qed.

Lemma read_two_bounds s acc v rest :
  0 <= acc -> read_digits 2 acc s = Some (v, rest) -> 100 * acc <= v <= 100 * acc + 99.
Proof.
  intros Ha. destruct s as [|c [|d s]]; cbn [read_digits]; try done; unfold is_digit.
  - by case_match.
  - case_match eqn:Hc; [|done]. case_match eqn:Hd; [|done]. intros [= <- <-].
    bool_to_prop. unfold digit_value. lia.
Qed.

Lemma read_digits_add n m acc s :
  read_digits (n + m) acc s = ('(v, r) ← read_digits n acc s; read_digits m v r).
Proof.
  revert acc s. induction n as [|n IH]; intros acc s; [done|].
  destruct s as [|c s]; [done|]. cbn [Nat.add read_digits]. destruct (is_digit c); [apply IH|done].
Qed.

Lemma read_digits_acc m acc s :
  read_digits m acc s = ('(v, r) ← read_digits m 0 s; Some (acc * 10 ^ Z.of_nat m + v, r)).
Proof.
  revert acc s. induction m as [|m IH]; intros acc s.
  - cbn. do 2 f_equal. lia.
  - destruct s as [|c s]; [done|]. cbn [read_digits]. destruct (is_digit c); [|done].
    rewrite IH, (IH (10 * 0 + digit_value c)). destruct (read_digits m 0 s) as [[v r]|]; [|done].
    cbn [mbind option_bind]. do 2 f_equal.
    rewrite Nat2Z.inj_succ, Z.pow_succ_r by lia. ring.
Qed.

Lemma read_four s :
  read_digits 4 0 s = ('(a, r) ← read_digits 2 0 s; '(b, r) ← read_digits 2 0 r; Some (100 * a + b, r)).
Proof.
  rewrite (read_digits_add 2 2). destruct (read_digits 2 0 s) as [[a r]|]; [|done].
  cbn [mbind option_bind]. rewrite read_digits_acc.
  destruct (read_digits 2 0 r) as [[b r']|]; [|done]. cbn [mbind option_bind].
  change (10 ^ Z.of_nat 2) with 100. do 2 f_equal. ring.
Qed.

Definition date_in_range (year month day : Z) : bool :=
  negb ((month <? 1) || (12 <? month) || (day <? 1) || (daysInMonth year month <? day)).

Lemma leap_by_pairs a b :
  0 <= a -> 0 <= b <= 99 ->
  isLeapYear (100 * a + b) = ((b mod 4 =? 0) && negb (b =? 0)) || ((a mod 4 =? 0) && (0 =? b)).
Proof.
  intros Ha Hb. unfold isLeapYear. apply eq_true_iff_eq.
  rewrite !orb_true_iff, !andb_true_iff, !orb_true_iff, !negb_true_iff, !Z.eqb_eq, !Z.eqb_neq.
  Z.to_euclidean_division_equations. lia.
Qed.

Lemma month_cases (m : Z) :
  1 <= m <= 12 -> m = 1 \/ m = 2 \/ m = 3 \/ m = 4 \/ m = 5 \/ m = 6 \/ m = 7 \/ m = 8 \/ m = 9
                  \/ m = 10 \/ m = 11 \/ m = 12.
Proof. lia. Qed.

(** Evaluates the tests on a concrete month. *)
Ltac eval_month m :=
  repeat match goal with
  | |- context [in_months ?l m] => let v := eval vm_compute in (in_months l m) in change (in_months l m) with v
  | |- context [2 =? m] => let v := eval vm_compute in (2 =? m) in change (2 =? m) with v
  | |- context [m <? 1] => change (m <? 1) with false
  | |- context [12 <? m] => change (12 <? m) with false
  | |- context [daysInMonth ?y m] =>
      let v := eval cbv [daysInMonth] in (daysInMonth y m) in change (daysInMonth y m) with v
  end.

(** The alternatives of the date, once its numbers are read. *)
Lemma date_alternatives a b m d :
  0 <= a -> 0 <= b <= 99 ->
  ((in_months [1; 3; 5; 7; 8; 10; 12] m && ((1 <=? d) && (d <=? 31)))
   || ((in_months [4; 6; 9; 11] m && ((1 <=? d) && (d <=? 30)))
       || ((2 =? m) && ((1 <=? d) && (d <=? 28)))))
  || (((b mod 4 =? 0) && negb (b =? 0) || (a mod 4 =? 0) && (0 =? b)) && ((2 =? m) && (29 =? d)))
  = date_in_range (100 * a + b) m d.
Proof.
  intros Ha Hb. rewrite <- leap_by_pairs by done. set (y := 100 * a + b). unfold date_in_range.
  destruct (decide (1 <= m <= 12)) as [Hm|Hm].
  - apply month_cases in Hm.
    destruct Hm as [->|[->|[->|[->|[->|[->|[->|[->|[->|[->|[->| ->]]]]]]]]]]];
      match goal with |- context [daysInMonth _ ?m] => eval_month m end;
      destruct (isLeapYear y); cbn [andb orb]; apply eq_true_iff_eq;
      rewrite ?orb_true_iff, ?negb_true_iff, ?orb_false_iff, ?andb_true_iff, ?Z.leb_le, ?Z.ltb_ge,
        ?Z.eqb_eq; intuition (discriminate || lia).
  - assert (H : (m <? 1) || (12 <? m) = true).
    { destruct (Z.ltb_spec m 1), (Z.ltb_spec 12 m); simpl; lia || done. }
    rewrite H. cbn [orb negb]. unfold in_months. cbn [existsb].
    repeat match goal with |- context [m =? ?c] => destruct (Z.eqb_spec m c); [lia|] end.
    destruct (Z.eqb_spec 2 m); [lia|]. cbn. by rewrite !andb_false_r.
Qed.

Lemma accepts_digits4 k s :
  accepts (digits_exactly 4) k s = accepts (digits_exactly 2) (accepts (digits_exactly 2) k) s.
Proof.
  unfold digits_exactly. rewrite !accepts_repeat_more. apply accepts_ext. intros x.
  rewrite !accepts_repeat_more. apply accepts_ext. intros y.
  rewrite accepts_repeat_none, accepts_repeat_more. done.
Qed.

(** Reading a number of two digits and passing it on. *)
Definition with_two (P : Z -> string -> bool) (s : string) : bool :=
  match read_digits 2 0 s with Some (v, rest) => P v rest | None => false end.

Lemma two_digits_with P k s : two_digits P k s = with_two (fun v rest => P v && k rest) s.
Proof. done. Qed.

Definition DATE_PATTERN : regex := re_alt ordinaryDate (re_seq leapYear (re_string "-02-29")).

Definition date_parsed (k : string -> bool) : string -> bool :=
  with_two (fun a => with_two (fun b => lit "-" (with_two (fun m => lit "-" (with_two (fun d rest =>
    date_in_range (100 * a + b) m d && k rest)))))).

Lemma date_accepts k s : accepts DATE_PATTERN k s = date_parsed k s.
Proof.
  unfold DATE_PATTERN, ordinaryDate, leapYear, date_parsed, with_two.
  rewrite accepts_alt, !accepts_seq, accepts_alt, !accepts_seq, accepts_digits4.
  rewrite !pair_pieces, leap_century_pieces. unfold two_digits.
  destruct (read_digits 2 0 s) as [[a s1]|] eqn:Ra; [|done].
  rewrite pair_pieces, zeros_pieces, leap_tail_pieces. unfold two_digits.
  destruct (read_digits 2 0 s1) as [[b s2]|] eqn:Rb; [|by cbn; rewrite ?andb_false_r].
  apply read_two_bounds in Ra, Rb; try lia. cbn [andb].
  change "-02-29"%string with ("-" ++ ("02" ++ ("-" ++ "29")))%string.
  rewrite accepts_seq, accepts_one, accepts_string_app, accepts_literal. unfold lit.
  destruct (read_char "-" s2) as [s3|] eqn:Rc; [|by cbn; rewrite ?andb_false_r].
  cbn [re_any re_all]. rewrite !accepts_alt, !accepts_seq, accepts_string_app.
  cbn [map]. rewrite months31_pieces, months30_pieces, !february_pieces. unfold two_digits.
  destruct (read_digits 2 0 s3) as [[m s4]|] eqn:Rm; [|by cbn; rewrite ?andb_false_r].
  rewrite !accepts_seq, !accepts_one, accepts_string_app, accepts_literal. unfold lit.
  destruct (read_char "-" s4) as [s5|] eqn:Rc'; [|by cbn; rewrite ?andb_false_r].
  rewrite day31_pieces, day30_pieces, day28_pieces, day29_pieces. unfold two_digits.
  destruct (read_digits 2 0 s5) as [[d s6]|] eqn:Rd; [|by cbn; rewrite ?andb_false_r].
  rewrite <- (date_alternatives a b m d) by lia.
  destruct (k s6); rewrite ?andb_true_r, ?andb_false_r; [|done].
  by rewrite !andb_orb_distrib_l, !andb_assoc.
Qed.

(** The rest of the pattern starts with neither a digit nor a point. *)
Definition after_digits (k : string -> bool) : Prop :=
  forall c s, is_digit c = true \/ c = "."%char -> k (String c s) = false.

Lemma digits_upto n k s :
  after_digits k ->
  accepts (re_repeat digit_class 0 n) k s =
  let '(d, rest) := span_digits s in (String.length d <=? n)%nat && k rest.
Proof.
  intros Hk. revert s. induction n as [|n IH]; intros s.
  - rewrite accepts_repeat_none. destruct s as [|c s]; [done|]. cbn [span_digits].
    destruct (is_digit c) eqn:Hc; [|done].
    destruct (span_digits s). rewrite Hk by auto. done.
  - rewrite accepts_repeat_may. unfold digit_class at 1, re_range at 1. rewrite accepts_char.
    destruct s as [|c s]; [apply orb_false_r|]. cbn [on_char span_digits].
    change ((byte_of "0" <=? byte_of c) && (byte_of c <=? byte_of "9")) with (is_digit c).
    destruct (is_digit c) eqn:Hc; [|apply orb_false_r].
    rewrite Hk, IH by auto. by destruct (span_digits s).
Qed.

Definition FRACTION_PATTERN : regex :=
  re_repeat (re_seq (re_one ".") (re_repeat digit_class 1 9)) 0 1.

Lemma fraction_accepts k s :
  after_digits k ->
  accepts FRACTION_PATTERN k s = match read_fraction s with Some (_, rest) => k rest | None => false end.
Proof.
  intros Hk. unfold FRACTION_PATTERN, read_fraction.
  rewrite accepts_repeat_may, accepts_seq, accepts_one. unfold lit.
  destruct (read_char "." s) as [rest|] eqn:Hr; [|apply orb_false_r].
  destruct s as [|c s]; [done|]. cbn in Hr. case_bool_decide as Hc; [|done]. injection Hr as <-.
  rewrite Hk by auto. cbn [orb].
  rewrite (accepts_ext _ _ k) by (intros x; apply accepts_repeat_none).
  rewrite accepts_repeat_more. unfold digit_class at 1, re_range at 1. rewrite accepts_char.
  destruct s as [|d s]; [done|]. cbn [on_char span_digits].
  change ((byte_of "0" <=? byte_of d) && (byte_of d <=? byte_of "9")) with (is_digit d).
  destruct (is_digit d); [|done]. rewrite digits_upto by done.
  destruct (span_digits s) as [ds rest]. cbn [String.length Nat.leb andb].
  by destruct (String.length ds <=? 8)%nat.
Qed.

Definition ZONE_PATTERN : regex :=
  re_alt (re_one "Z") (re_all [re_oneof "+-"; hour_pattern; re_one ":"; minuteOrSecond]).

Definition zone_ok (s : string) : bool :=
  match read_zone s with Some z => bool_decide (is_Some (offset_minutes z)) | None => false end.

Lemma zone_accepts s : accepts ZONE_PATTERN is_empty s = zone_ok s.
Proof.
  unfold ZONE_PATTERN, zone_ok, read_zone. cbn [re_all].
  rewrite accepts_alt, accepts_one, !accepts_seq. unfold re_oneof, lit. rewrite accepts_char.
  destruct s as [|c s]; [done|]. cbn [on_char read_char].
  destruct (bool_decide_reflect (c = "Z"%char)) as [->|HZ].
  - cbn. rewrite orb_false_r. by destruct s.
  - cbn [orb]. cbn [has_char]. rewrite orb_false_r.
    rewrite !(bool_decide_ext (_ = c) (c = _)) by done.
    destruct (bool_decide (c = "+"%char) || bool_decide (c = "-"%char)); [|done].
    cbn [andb]. rewrite accepts_seq, hour_pieces. unfold two_digits.
    destruct (read_digits 2 0 s) as [[h s1]|]; [|done]. cbn [mbind option_bind].
    rewrite accepts_seq, accepts_one. unfold lit.
    destruct (read_char ":" s1) as [s2|]; [|by rewrite andb_false_r]. cbn [mbind option_bind].
    rewrite minute_pieces. unfold two_digits.
    destruct (read_digits 2 0 s2) as [[m s3]|]; [|by rewrite andb_false_r]. cbn [mbind option_bind].
    destruct s3 as [|x s3]; cbn [is_empty]; [|unfold is_empty; cbn; by rewrite !andb_false_r].
    unfold is_empty. rewrite (bool_decide_true (EmptyString = EmptyString)) by done.
    rewrite andb_true_r. cbn [offset_minutes]. rewrite !Z.leb_antisym.
    by destruct (23 <? h), (59 <? m).
Qed.

Lemma zone_after_digits : after_digits zone_ok.
Proof.
  intros c s Hc. unfold zone_ok, read_zone.
  rewrite !bool_decide_false; [done|..]; intros ->; by destruct Hc.
Qed.

Lemma pattern_steps k s :
  accepts RFC3339_TIMESTAMP_PATTERN k s =
  date_parsed (lit "T" (two_digits (fun h => h <=? 23) (lit ":" (two_digits (fun m => m <=? 59)
    (lit ":" (two_digits (fun x => x <=? 59) (accepts FRACTION_PATTERN (accepts ZONE_PATTERN k)))))))) s.
Proof.
  rewrite <- date_accepts. unfold RFC3339_TIMESTAMP_PATTERN. fold DATE_PATTERN FRACTION_PATTERN ZONE_PATTERN.
  cbn [re_all]. rewrite accepts_seq. apply accepts_ext. intros x1.
  rewrite accepts_seq, accepts_one. unfold lit at 1 2. destruct (read_char "T" x1) as [x2|]; [|done].
  rewrite accepts_seq, hour_pieces. unfold two_digits at 1 2.
  destruct (read_digits 2 0 x2) as [[h x3]|]; [|done]. f_equal.
  rewrite accepts_seq, accepts_one. unfold lit at 1 2. destruct (read_char ":" x3) as [x4|]; [|done].
  rewrite accepts_seq, minute_pieces. unfold two_digits at 1 2.
  destruct (read_digits 2 0 x4) as [[m x5]|]; [|done]. f_equal.
  rewrite accepts_seq, accepts_one. unfold lit. destruct (read_char ":" x5) as [x6|]; [|done].
  rewrite accepts_seq, minute_pieces. unfold two_digits.
  destruct (read_digits 2 0 x6) as [[sec x7]|]; [|done]. f_equal. apply accepts_seq.
Qed.

Lemma fields_date p :
  fields_in_range p =
  date_in_range (tp_year p) (tp_month p) (tp_day p) &&
  ((tp_hour p <=? 23) && ((tp_minute p <=? 59) && (tp_second p <=? 59))).
Proof.
  unfold fields_in_range, date_in_range. rewrite !negb_orb, !Z.leb_antisym, !andb_assoc. done.
Qed.

Lemma no_instant : false = true <-> is_Some (@None Z).
Proof. split; [done|by intros [? ?]]. Qed.

(** Reads the next number or character on both sides. *)
Ltac next_read :=
  match goal with
  | |- context [match read_digits 2 0 ?x with Some _ => _ | None => false end] =>
      destruct (read_digits 2 0 x) as [[? ?]|]; cbn [mbind option_bind]; [|try exact no_instant]
  | |- context [match read_char ?c ?x with Some _ => _ | None => false end] =>
      destruct (read_char c x) as [?|]; cbn [mbind option_bind]; [|try exact no_instant]
  end.

(** The published timestamp pattern and the parser accept exactly the same
    strings: a value passes the schema if and only if it denotes an instant. *)
Theorem timestamp_pattern_iff_instant s :
  regex_test RFC3339_TIMESTAMP_PATTERN s = true <-> is_Some (timestampToEpochNanos s).
Proof.
  rewrite regex_test_accepts, pattern_steps.
  unfold date_parsed, with_two, two_digits, lit, timestampToEpochNanos, match_timestamp.
  rewrite read_four. repeat next_read; rewrite ?andb_false_r; try exact no_instant.
  rewrite (accepts_ext FRACTION_PATTERN _ zone_ok) by (intros; apply zone_accepts).
  rewrite fraction_accepts by apply zone_after_digits.
  destruct (read_fraction _) as [[f rest]|]; cbn [mbind option_bind];
    [|rewrite !andb_false_r; exact no_instant].
  unfold zone_ok. destruct (read_zone rest) as [zn|]; cbn [mbind option_bind];
    [|rewrite !andb_false_r; exact no_instant].
  rewrite fields_date. cbn [tp_year tp_month tp_day tp_hour tp_minute tp_second tp_zone].
  rewrite !andb_assoc.
  match goal with |- context [if ?b then _ else None] => destruct b end; [|exact no_instant].
  cbn [andb].
  destruct (offset_minutes zn); cbn [mbind option_bind]; [|exact no_instant].
  split; [eauto|done].
Qed.
