(* ===== verification/WarehouseTime.v ===== *)
(** * Query engine: warehouse time

    [packages/query-engine/src/datetime.ts], the conversions between epoch
    milliseconds and the strings the warehouse reads and writes: the canonical
    formatters, the reader of tz-less strings as UTC, the grammar of accepted
    timestamps with its calendar check, and the two branded schemas and wire
    codecs built on them. [Date.prototype.toISOString] is computed with the
    civil-from-days algorithm and shown to be the inverse of ECMAScript's
    [MakeDay].

    [Date.parse], whose answer ECMAScript leaves to the implementation outside
    its own format, is an argument [date_parse] ([None] is [NaN]); so are the
    two functions of the [effect] library the wire codecs call. *)

From Stdlib Require Import Ascii String.
From stdpp Require Import prelude list strings.
From Stdlib Require Import ZArith Lia.
From S2P Require Import Prelude.
From S2P Require Import JsString.
From S2P Require Import EventTime.

Open Scope Z_scope.

(** ** Dates *)

(** [k] in decimal with [n] digits, before [s]. *)
Fixpoint pad_digits (n : nat) (k : Z) (s : string) : string :=
  match n with
  | O => s
  | Datatypes.S m => pad_digits m (k / 10) (String (digit_char (k mod 10)) s)
  end.

(** The proleptic Gregorian date of a day counted from 1970-01-01. *)
Definition civil_from_days (days : Z) : Z * Z * Z :=
  let z := days + 719468 in
  let doe := z mod 146097 in
  let yoe := (doe - doe / 1460 + doe / 36524 - doe / 146096) / 365 in
  let doy := doe - (365 * yoe + yoe / 4 - yoe / 100) in
  let mp := (5 * doy + 2) / 153 in
  let month := if mp <? 10 then mp + 3 else mp - 9 in
  (yoe + z / 146097 * 400 + (if month <=? 2 then 1 else 0), month, doy - (153 * mp + 2) / 5 + 1).

(** A year outside 0 to 9999 has a sign and six digits. *)
Definition iso_year (year : Z) (s : string) : string :=
  if (0 <=? year) && (year <=? 9999) then pad_digits 4 year s
  else String (if year <? 0 then "-"%char else "+"%char) (pad_digits 6 (Z.abs year) s).

(** The date and time of day at [ms], separated by [sep], before [tail]. *)
Definition wall (sep : ascii) (ms : Z) (tail : string) : string :=
  let '(year, month, day) := civil_from_days (ms / 86400000) in
  let t := ms mod 86400000 in
  iso_year year (String "-" (pad_digits 2 month (String "-" (pad_digits 2 day (String sep
    (pad_digits 2 (t / 3600000) (String ":" (pad_digits 2 (t / 60000 mod 60) (String ":"
      (pad_digits 2 (t / 1000 mod 60) tail)))))))))).

(** [new Date(ms).toISOString()], for a time value of a date: [|ms|] at most
    8.64e15. *)
Definition toISOString (ms : Z) : string := wall "T" ms (String "." (pad_digits 3 (ms mod 1000) "Z")).

Example iso_leap_day : toISOString 1709251199500 = "2024-02-29T23:59:59.500Z"%string.
Proof. vm_compute. reflexivity. Qed.

Example iso_expanded_year : toISOString 253402304399000 = "+010000-01-01T00:59:59.000Z"%string.
Proof. vm_compute. reflexivity. Qed.

Example iso_before_christ : toISOString (-62167222800000) = "-000001-12-31T23:00:00.000Z"%string.
Proof. vm_compute. reflexivity. Qed.

(** ** Formatting *)

(** [s.replace(c, d)]: the first occurrence. *)
Fixpoint replace_first (c d : ascii) (s : string) : string :=
  match s with
  | EmptyString => EmptyString
  | String e s' => if bool_decide (e = c) then String d s' else String e (replace_first c d s')
  end.

(** [s.replace(/Z$/, replaced by nothing)] *)
Fixpoint strip_final (c : ascii) (s : string) : string :=
  match s with
  | EmptyString => EmptyString
  | String e EmptyString => if bool_decide (e = c) then EmptyString else s
  | String e s' => String e (strip_final c s')
  end.

Definition formatWarehouseDateTime (epochMs : Z) : string :=
  String.substring 0 19 (replace_first "T" " " (toISOString epochMs)).

Definition formatWarehouseDateTimeMs (epochMs : Z) : string :=
  strip_final "Z" (replace_first "T" " " (toISOString epochMs)).

(** ** Reading tz-less strings *)

(** The code points [String.prototype.trim] removes, as the bytes that encode
    them. *)
Definition white_space : list string :=
  List.map (fun codes => List.fold_right (fun c s => String (ascii_of_nat c) s) EmptyString codes)
    [[9]; [10]; [11]; [12]; [13]; [32]; [194; 160]; [225; 154; 128];
     [226; 128; 128]; [226; 128; 129]; [226; 128; 130]; [226; 128; 131]; [226; 128; 132];
     [226; 128; 133]; [226; 128; 134]; [226; 128; 135]; [226; 128; 136]; [226; 128; 137];
     [226; 128; 138]; [226; 128; 168]; [226; 128; 169]; [226; 128; 175]; [226; 129; 159];
     [227; 128; 128]; [239; 187; 191]]%nat.

(** Removes the leading white space; every round removes one code point. *)
Fixpoint trim_start (fuel : nat) (s : string) : string :=
  match fuel with
  | O => s
  | S f =>
      match List.find (fun w => String.prefix w s) white_space with
      | Some w => trim_start f (String.substring (String.length w) (String.length s - String.length w) s)
      | None => s
      end
  end.

Fixpoint trim_end (s : string) : string :=
  if bool_decide (trim_start (String.length s) s = EmptyString) then EmptyString
  else match s with
       | EmptyString => EmptyString
       | String c s' => String c (trim_end s')
       end.

(** [s.trim()] *)
Definition trim (s : string) : string := trim_end (trim_start (String.length s) s).

(** [(\d{4}-\d{2}-\d{2})], and what follows it. *)
Definition read_date (s : string) : option (string * string) :=
  '(_, r) ← read_digits 4 0 s;
  r ← read_char "-"%char r;
  '(_, r) ← read_digits 2 0 r;
  r ← read_char "-"%char r;
  '(_, r) ← read_digits 2 0 r;
  Some (String.substring 0 10 s, r).

(** [(\d{2}:\d{2}:\d{2})], and what follows it. *)
Definition read_time (s : string) : option (string * string) :=
  '(_, r) ← read_digits 2 0 s;
  r ← read_char ":"%char r;
  '(_, r) ← read_digits 2 0 r;
  r ← read_char ":"%char r;
  '(_, r) ← read_digits 2 0 r;
  Some (String.substring 0 8 s, r).

(** [(?:\.(\d+))?$]: the digits, when there are some. *)
Definition read_tail (s : string) : option (option string) :=
  match s with
  | EmptyString => Some None
  | String c rest =>
      if bool_decide (c = "."%char) then
        match span_digits rest with
        | (String d ds, EmptyString) => Some (Some (String d ds))
        | _ => None
        end
      else None
  end.

(** [WAREHOUSE_DATETIME_PATTERN.exec(value)] *)
Definition match_warehouse (s : string) : option (string * string * option string) :=
  '(date, r) ← read_date s;
  r ← match r with
      | String c r' => if bool_decide (c = " "%char) || bool_decide (c = "T"%char) then Some r' else None
      | EmptyString => None
      end;
  '(time, r) ← read_time r;
  fractional ← read_tail r;
  Some (date, time, fractional).

Definition warehouseDateTimeToIso (value : string) : string :=
  let trimmed := trim value in
  match match_warehouse trimmed with
  | None => trimmed
  | Some (date, time, None) => (date +:+ "T" +:+ time +:+ "Z")%string
  | Some (date, time, Some fractional) =>
      (date +:+ "T" +:+ time +:+ "." +:+ String.substring 0 3 (fractional +:+ "000") +:+ "Z")%string
  end.

Example iso_of_tzless : warehouseDateTimeToIso " 2026-05-24 14:30:00.5 " = "2026-05-24T14:30:00.500Z"%string.
Proof. vm_compute. reflexivity. Qed.

Example iso_of_zoned : warehouseDateTimeToIso "2026-05-24T14:30:00Z" = "2026-05-24T14:30:00Z"%string.
Proof. vm_compute. reflexivity. Qed.

(** ** Accepted timestamps *)

(** [^\d{4}-\d{2}-\d{2}(?:[ T]\d{2}:\d{2}:\d{2}(?:\.\d{1,9})?(?:Z|[+-]\d{2}:?\d{2})?)?$] *)
Definition TIME_INPUT_PATTERN : regex :=
  re_all [digits_exactly 4; re_one "-"; digits_exactly 2; re_one "-"; digits_exactly 2;
    re_repeat (re_all [re_oneof " T"; digits_exactly 2; re_one ":"; digits_exactly 2; re_one ":"; digits_exactly 2;
      re_repeat (re_seq (re_one ".") (re_repeat digit_class 1 9)) 0 1;
      re_repeat (re_alt (re_one "Z")
        (re_all [re_oneof "+-"; digits_exactly 2; re_repeat (re_one ":") 0 1; digits_exactly 2])) 0 1]) 0 1].

(** [^(\d{4})-(\d{2})-(\d{2})(?:[ T](\d{2}):(\d{2}):(\d{2}))?] *)
Definition read_calendar (s : string) : option (Z * Z * Z * option (Z * Z * Z)) :=
  '(y, r) ← read_digits 4 0 s;
  r ← read_char "-"%char r;
  '(mo, r) ← read_digits 2 0 r;
  r ← read_char "-"%char r;
  '(d, r) ← read_digits 2 0 r;
  let clock :=
    r ← match r with
        | String c r' => if bool_decide (c = " "%char) || bool_decide (c = "T"%char) then Some r' else None
        | EmptyString => None
        end;
    '(h, r) ← read_digits 2 0 r;
    r ← read_char ":"%char r;
    '(mi, r) ← read_digits 2 0 r;
    r ← read_char ":"%char r;
    '(s, r) ← read_digits 2 0 r;
    Some (h, mi, s) in
  Some (y, mo, d, clock).

Definition hasRealCalendarFields (value : string) : bool :=
  match read_calendar value with
  | None => false
  | Some (y, month, day, clock) =>
      if (month <? 1) || (12 <? month) then false
      else if (day <? 1) || (daysInMonth y month <? day) then false
      else match clock with
           | None => true
           | Some (h, mi, s) => (h <=? 23) && (mi <=? 59) && (s <=? 59)
           end
  end.

(** Why a value is not accepted. *)
Inductive time_issue :=
  | not_a_timestamp (value : string)
  | not_a_real_time (value : string)
  | not_a_literal (value : string).

(** [^\d{4}-\d{2}-\d{2} \d{2}:\d{2}:\d{2}$] *)
Definition WAREHOUSE_LITERAL_PATTERN : regex :=
  re_all [digits_exactly 4; re_one "-"; digits_exactly 2; re_one "-"; digits_exactly 2; re_one " ";
          digits_exactly 2; re_one ":"; digits_exactly 2; re_one ":"; digits_exactly 2].

(** [^\d{4}-\d{2}-\d{2} \d{2}:\d{2}:\d{2}\.\d{3}$] *)
Definition WAREHOUSE_LITERAL64_PATTERN : regex :=
  re_all [digits_exactly 4; re_one "-"; digits_exactly 2; re_one "-"; digits_exactly 2; re_one " ";
          digits_exactly 2; re_one ":"; digits_exactly 2; re_one ":"; digits_exactly 2; re_one ".";
          digits_exactly 3].

Definition HOUR_MS : Z := 3600000.

Section Parsing.
Variable date_parse : string -> option Z.

(** [None] is [NaN]. *)
Definition parseWarehouseDateTime (value : string) : option Z :=
  date_parse (warehouseDateTimeToIso value).

(** The start and the end of the hours, and the seconds; [None] is [NaN]. *)
Definition serviceHealthSnapshotHours (startTime endTime : string) : option Z * option Z * option Z :=
  let startSecondMs := s ← parseWarehouseDateTime startTime; Some (s / 1000 * 1000) in
  let endSecondMs := e ← parseWarehouseDateTime endTime; Some (e / 1000 * 1000) in
  let startMs := s ← startSecondMs; Some (s / HOUR_MS * HOUR_MS) in
  let endMs := e ← endSecondMs; Some ((e + HOUR_MS - 1000) / HOUR_MS * HOUR_MS) in
  (startMs, endMs, s ← startMs; e ← endMs; Some (Z.max 0 (e - s) / 1000)).

Definition isWarehouseTimeInput (value : string) : option time_issue :=
  if negb (regex_test TIME_INPUT_PATTERN value) then Some (not_a_timestamp value)
  else if negb (hasRealCalendarFields value) || bool_decide (parseWarehouseDateTime value = None)
  then Some (not_a_real_time value)
  else None.

(** [WarehouseDateTime.make] *)
Definition WarehouseDateTime (value : string) : result time_issue string :=
  if negb (regex_test WAREHOUSE_LITERAL_PATTERN value) then Err (not_a_literal value)
  else match isWarehouseTimeInput value with Some issue => Err issue | None => Ok value end.

(** [WarehouseDateTime64.make] *)
Definition WarehouseDateTime64 (value : string) : result time_issue string :=
  if regex_test WAREHOUSE_LITERAL64_PATTERN value then Ok value else Err (not_a_literal value).

Definition warehouseDateTime (epochMs : Z) : result time_issue string :=
  WarehouseDateTime (formatWarehouseDateTime epochMs).

Definition warehouseDateTime64 (epochMs : Z) : result time_issue string :=
  WarehouseDateTime64 (formatWarehouseDateTimeMs epochMs).

(** Decoding a [WarehouseTimeInput]. *)
Definition decodeTimeInput (value : string) : result time_issue string :=
  match isWarehouseTimeInput value with
  | Some issue => Err issue
  | None =>
      match parseWarehouseDateTime value with
      | Some ms => warehouseDateTime ms
      | None => Err (not_a_real_time value)
      end
  end.
End Parsing.

Section Wire.
(** [DateTime.make] on a string and [DateTime.formatIso]. *)
Variables (date_time_make : string -> option Z) (format_iso : Z -> string).

Definition parseUtc (value : string) : option Z :=
  let trimmed := trim value in
  if regex_test TIME_INPUT_PATTERN trimmed && hasRealCalendarFields trimmed
  then date_time_make (warehouseDateTimeToIso trimmed)
  else None.

(** [utcToWarehouseWire] for zero or three fraction digits. *)
Definition utcToWarehouseWire (fractional : bool) (utc : Z) : string :=
  replace_first "T" " " (String.substring 0 (if fractional then 23 else 19) (format_iso utc)).
End Wire.

(** ** The calendar *)

Lemma year_of_era doe :
  0 <= doe < 146097 ->
  let yoe := (doe - doe / 1460 + doe / 36524 - doe / 146096) / 365 in
  let doy := doe - (365 * yoe + yoe / 4 - yoe / 100) in
  0 <= yoe < 400 /\ 0 <= doy <= 365.
Proof.
  intros H. cbv zeta. Z.to_euclidean_division_equations; lia.
Qed.
Lemma leap_day_of_era doe :
  0 <= doe < 146097 ->
  let yoe := (doe - doe / 1460 + doe / 36524 - doe / 146096) / 365 in
  let doy := doe - (365 * yoe + yoe / 4 - yoe / 100) in
  doy = 365 -> (yoe + 1) mod 4 = 0 /\ ((yoe + 1) mod 100 <> 0 \/ (yoe + 1) mod 400 = 0).
Proof.
  intros H. cbv zeta. Z.to_euclidean_division_equations; lia.
Qed.
Lemma leap_iff year :
  isLeapYear year = bool_decide (year mod 4 = 0 /\ (year mod 100 <> 0 \/ year mod 400 = 0)).
Proof.
  unfold isLeapYear. symmetry.
  destruct (Z.eqb_spec (year mod 4) 0), (Z.eqb_spec (year mod 100) 0), (Z.eqb_spec (year mod 400) 0);
    simpl; first [apply bool_decide_true; lia | apply bool_decide_false; lia].
Qed.

Lemma leap_of_era era yoe :
  isLeapYear (yoe + era * 400) = isLeapYear yoe.
Proof.
  rewrite !leap_iff. apply bool_decide_ext.
  replace ((yoe + era * 400) mod 4) with (yoe mod 4) by (Z.to_euclidean_division_equations; lia).
  replace ((yoe + era * 400) mod 100) with (yoe mod 100) by (Z.to_euclidean_division_equations; lia).
  by replace ((yoe + era * 400) mod 400) with (yoe mod 400) by (Z.to_euclidean_division_equations; lia).
Qed.

Lemma day_from_year_era era yoe :
  0 <= yoe < 400 ->
  day_from_year (yoe + era * 400) =
    era * 146097 + 365 * yoe + yoe / 4 - yoe / 100 - (if isLeapYear yoe then 1 else 0) - 719527.
Proof.
  intros H. rewrite leap_iff. unfold day_from_year. case_bool_decide;
    Z.to_euclidean_division_equations; lia.
Qed.

(** The days before each month of a year. *)
Lemma days_before_month year (k : nat) (v : Z) :
  let l := if isLeapYear year then 1 else 0 in
  [0; 31; 59 + l; 90 + l; 120 + l; 151 + l; 181 + l; 212 + l; 243 + l; 273 + l; 304 + l; 334 + l] !! k = Some v ->
  days_before year k = v.
Proof.
  intros l Hk. unfold l in Hk. do 12 (destruct k as [|k];
    [injection Hk as <-; cbn; unfold daysInMonth; simpl; by destruct (isLeapYear year)|]).
  done.
Qed.

Lemma civil_from_days_make days year month day :
  civil_from_days days = (year, month, day) ->
  make_day year month day = days /\ 1 <= month <= 12 /\ 1 <= day <= daysInMonth year month.
Proof.
  unfold civil_from_days.
  set (z := days + 719468). set (doe := z mod 146097).
  pose proof (Z.mod_pos_bound z 146097 ltac:(lia)) as Hdoe. fold doe in Hdoe.
  pose proof (year_of_era doe Hdoe) as Hy. pose proof (leap_day_of_era doe Hdoe) as Hl.
  cbv zeta in *. set (yoe := (doe - doe / 1460 + doe / 36524 - doe / 146096) / 365) in *.
  set (doy := doe - (365 * yoe + yoe / 4 - yoe / 100)) in *.
  set (era := z / 146097). set (mp := (5 * doy + 2) / 153).
  assert (Hmp : 0 <= mp <= 11) by (unfold mp; Z.to_euclidean_division_equations; lia).
  assert (Hdd : 153 * mp <= 5 * doy + 2 < 153 * mp + 153)
    by (unfold mp; Z.to_euclidean_division_equations; lia).
  assert (Hz : days = era * 146097 + 365 * yoe + yoe / 4 - yoe / 100 + doy - 719468).
  { unfold doy, era, z. unfold doe, z. pose proof (Z.div_mod (days + 719468) 146097 ltac:(lia)). lia. }
  clearbody doy. clearbody yoe era mp. clear Hdoe doe z.
  intros [= <- <- <-].
  assert (Hleap : doy = 365 -> isLeapYear (yoe + era * 400 + 1) = true).
  { intros E. replace (yoe + era * 400 + 1) with (yoe + 1 + era * 400) by lia.
    rewrite leap_of_era, leap_iff. apply bool_decide_true. by apply Hl. }
  assert (Hnext : day_from_year (yoe + era * 400 + 1) =
                  era * 146097 + 365 * yoe + yoe / 4 - yoe / 100 + 365 - 719527).
  { unfold day_from_year. Z.to_euclidean_division_equations; lia. }
  assert (Hthis := day_from_year_era era yoe ltac:(lia)).
  rewrite <- (leap_of_era era) in Hthis.
  unfold make_day.
  assert (Hc : mp = 0 \/ mp = 1 \/ mp = 2 \/ mp = 3 \/ mp = 4 \/ mp = 5 \/ mp = 6 \/ mp = 7 \/ mp = 8 \/
               mp = 9 \/ mp = 10 \/ mp = 11) by lia.
  destruct Hc as [->|[->|[->|[->|[->|[->|[->|[->|[->|[->|[->| ->]]]]]]]]]]].
  all: repeat match goal with
    | |- context [Z.ltb ?a 10] => let v := eval vm_compute in (Z.ltb a 10) in change (Z.ltb a 10) with v
    end; cbv iota;
    repeat match goal with
    | |- context [Z.leb ?a 2] => let v := eval vm_compute in (Z.leb a 2) in change (Z.leb a 2) with v
    end; cbv iota;
    match goal with
    | |- context [Z.to_nat ?a] => let v := eval vm_compute in (Z.to_nat a) in change (Z.to_nat a) with v
    end;
    match goal with
    | |- context [days_before ?y ?k] => rewrite (days_before_month y k _ eq_refl)
    end;
    rewrite ?Z.add_0_r, ?Hthis, ?Hnext;
    match goal with
    | |- context [Z.div ?a 5] => let v := eval vm_compute in (Z.div a 5) in change (Z.div a 5) with v
    end;
    match goal with
    | |- context [daysInMonth ?y ?m] => let v := eval vm_compute in m in change (daysInMonth y m) with (daysInMonth y v)
    end;
    cbn [daysInMonth].
  all: try (destruct (isLeapYear (yoe + era * 400)); lia).
  destruct (isLeapYear (yoe + era * 400 + 1)); [lia|]. 
  assert (doy <> 365) by (intros E; by apply Hleap in E). lia.
Qed.

(** ** Strings of digits *)

Lemma byte_of_digit_char d : 0 <= d <= 9 -> byte_of (digit_char d) = 48 + d.
Proof.
  intros H. unfold byte_of, digit_char. rewrite N_ascii_embedding; lia.
Qed.

Lemma is_digit_digit_char d : 0 <= d <= 9 -> is_digit (digit_char d) = true.
Proof. intros H. unfold is_digit. rewrite byte_of_digit_char by done. lia. Qed.

Lemma digit_value_digit_char d : 0 <= d <= 9 -> digit_value (digit_char d) = d.
Proof. intros H. unfold digit_value. rewrite byte_of_digit_char by done. lia. Qed.

Lemma mod_10_digit k : 0 <= k mod 10 <= 9.
Proof. pose proof (Z.mod_pos_bound k 10). lia. Qed.

Lemma read_digits_pad n k s acc :
  read_digits n acc (pad_digits n k s) = Some (acc * 10 ^ Z.of_nat n + k mod 10 ^ Z.of_nat n, s).
Proof.
  revert k s. induction n as [|n IH]; intros k s.
  - cbn. rewrite Z.mod_1_r. do 2 f_equal. lia.
  - replace (S n) with (n + 1)%nat by lia. rewrite read_digits_add.
    replace (n + 1)%nat with (S n) by lia. cbn [pad_digits]. rewrite IH.
    cbn [mbind option_bind read_digits]. pose proof (mod_10_digit k).
    rewrite is_digit_digit_char, digit_value_digit_char by done.
    do 2 f_equal. rewrite Nat2Z.inj_succ, Z.pow_succ_r by lia.
    rewrite (Z.mul_comm 10), (Z.mul_comm _ 10), Z.rem_mul_r by lia. lia.
Qed.

Lemma pad_digits_app n k s t : (pad_digits n k s ++ t = pad_digits n k (s ++ t))%string.
Proof. revert k s. induction n as [|n IH]; intros k s; [done|]. cbn [pad_digits]. by rewrite IH. Qed.

Lemma length_pad_digits n k s : String.length (pad_digits n k s) = (n + String.length s)%nat.
Proof.
  revert k s. induction n as [|n IH]; intros k s; [done|]. cbn [pad_digits]. rewrite IH. cbn. lia.
Qed.

(** A string is its [n] digits followed by the rest, whatever is done to each
    digit and to the rest. *)
Lemma pad_digits_snoc n k s :
  pad_digits n k s = (pad_digits n k EmptyString ++ s)%string.
Proof. by rewrite pad_digits_app, append_nil. Qed.

Definition all_digits (s : string) : Prop := forall c, c ∈ string_chars s -> is_digit c = true.

Lemma pad_all_digits n k s : all_digits s -> all_digits (pad_digits n k s).
Proof.
  revert k s. induction n as [|n IH]; intros k s Hs; [done|]. apply IH.
  intros c [->|Hc]%elem_of_cons; [|by apply Hs]. apply is_digit_digit_char, mod_10_digit.
Qed.

Lemma pads_are_digits n k : all_digits (pad_digits n k EmptyString).
Proof. apply pad_all_digits. by intros c ?%elem_of_nil. Qed.

Lemma replace_first_app c d p s :
  c ∉ string_chars p -> replace_first c d (p ++ s) = (p ++ replace_first c d s)%string.
Proof.
  induction p as [|e p IH]; intros Hp; [done|]. rewrite append_cons. cbn [replace_first string_chars] in *.
  rewrite bool_decide_eq_false_2 by set_solver. rewrite IH by set_solver. done.
Qed.

Lemma replace_first_pad c d n k s :
  is_digit c = false -> replace_first c d (pad_digits n k s) = pad_digits n k (replace_first c d s).
Proof.
  intros Hc. rewrite pad_digits_snoc, replace_first_app, <- pad_digits_snoc; [done|].
  intros Hin. by rewrite (pads_are_digits n k c Hin) in Hc.
Qed.

Lemma replace_first_other c d e s :
  e <> c -> replace_first c d (String e s) = String e (replace_first c d s).
Proof. intros H. cbn [replace_first]. by rewrite bool_decide_eq_false_2. Qed.

Lemma replace_first_here c d s : replace_first c d (String c s) = String d s.
Proof. cbn [replace_first]. by rewrite bool_decide_eq_true_2. Qed.

Lemma substring_app_length p s n :
  String.substring 0 (String.length p + n) (p ++ s) = (p ++ String.substring 0 n s)%string.
Proof. induction p as [|c p IH]; [done|]. cbn [String.length Nat.add]. rewrite append_cons. cbn. by rewrite IH. Qed.

Lemma substring_pad n k s m :
  String.substring 0 (n + m) (pad_digits n k s) = pad_digits n k (String.substring 0 m s).
Proof.
  rewrite (pad_digits_snoc n k s), (pad_digits_snoc n k (substring 0 m s)).
  rewrite <- substring_app_length. f_equal. rewrite length_pad_digits. cbn. lia.
Qed.

Lemma substring_cons c s m : String.substring 0 (S m) (String c s) = String c (String.substring 0 m s).
Proof. done. Qed.

Lemma substring_0 s : String.substring 0 0 s = EmptyString.
Proof. by destruct s. Qed.

Lemma string_chars_app a b : string_chars (a ++ b) = (string_chars a ++ string_chars b)%list.
Proof. induction a as [|c a IH]; [done|]. rewrite append_cons. cbn [string_chars app]. by rewrite IH. Qed.

(** ** The fields of a date *)

Lemma day_from_year_mono y1 y2 : y1 <= y2 -> day_from_year y1 <= day_from_year y2.
Proof. intros H. unfold day_from_year. Z.to_euclidean_division_equations; lia. Qed.

Lemma day_after_year era yoe :
  0 <= yoe < 400 ->
  day_from_year (yoe + era * 400 + 1) = era * 146097 + 365 * yoe + yoe / 4 - yoe / 100 + 365 - 719527.
Proof. intros H. unfold day_from_year. Z.to_euclidean_division_equations; lia. Qed.

Definition year_days (year : Z) : Z := if isLeapYear year then 366 else 365.

Lemma day_from_year_next year : day_from_year (year + 1) = day_from_year year + year_days year.
Proof.
  pose proof (Z.mod_pos_bound year 400 ltac:(lia)).
  assert (Hy : year = year mod 400 + year / 400 * 400) by (Z.to_euclidean_division_equations; lia).
  rewrite Hy. set (yoe := year mod 400) in *. set (era := year / 400) in *. clearbody yoe era. clear Hy.
  unfold year_days. rewrite day_after_year, day_from_year_era, leap_of_era by done.
  destruct (isLeapYear yoe); lia.
Qed.

Lemma days_before_bounds year (k : nat) :
  (k < 12)%nat -> 0 <= days_before year k /\ days_before year k + daysInMonth year (Z.of_nat k + 1) <= year_days year.
Proof.
  intros H. unfold year_days. do 12 (destruct k as [|k];
    [cbn; unfold daysInMonth; simpl; destruct (isLeapYear year); lia|]). lia.
Qed.

(** The instants of the years of four digits. *)
Definition four_digit_year (ms : Z) : Prop := -62167219200000 <= ms < 253402300800000.

Lemma civil_from_days_year days year month day :
  -719528 <= days < 2932897 -> civil_from_days days = (year, month, day) -> 0 <= year <= 9999.
Proof.
  intros Hd (Hm & Hmo & Hday)%civil_from_days_make. unfold make_day in Hm.
  pose proof (days_before_bounds year (Z.to_nat (month - 1)) ltac:(lia)) as Hb.
  replace (Z.of_nat (Z.to_nat (month - 1)) + 1) with month in Hb by lia.
  pose proof (day_from_year_next year). split.
  - destruct (Z.le_gt_cases 0 year); [done|]. pose proof (day_from_year_mono (year + 1) 0 ltac:(lia)).
    change (day_from_year 0) with (-719528) in *. lia.
  - destruct (Z.le_gt_cases year 9999); [done|]. pose proof (day_from_year_mono 10000 year ltac:(lia)).
    change (day_from_year 10000) with 2932897 in *. lia.
Qed.

Record clock := { ck_year : Z; ck_month : Z; ck_day : Z; ck_hour : Z; ck_minute : Z; ck_second : Z }.

Definition clock_ok (c : clock) : Prop :=
  0 <= ck_year c <= 9999 /\ 1 <= ck_month c <= 12 /\ 1 <= ck_day c <= daysInMonth (ck_year c) (ck_month c) /\
  0 <= ck_hour c <= 23 /\ 0 <= ck_minute c <= 59 /\ 0 <= ck_second c <= 59.

Definition clock_ms (c : clock) : Z :=
  utc_millis (ck_year c) (ck_month c) (ck_day c) (ck_hour c) (ck_minute c) (ck_second c).

Definition show_date (c : clock) (tail : string) : string :=
  pad_digits 4 (ck_year c) (String "-" (pad_digits 2 (ck_month c) (String "-" (pad_digits 2 (ck_day c) tail)))).

Definition show_time (c : clock) (tail : string) : string :=
  pad_digits 2 (ck_hour c) (String ":" (pad_digits 2 (ck_minute c) (String ":" (pad_digits 2 (ck_second c) tail)))).

Definition show_clock (c : clock) (sep : ascii) (tail : string) : string :=
  show_date c (String sep (show_time c tail)).

(** Every instant of a year of four digits is shown as the fields of a clock
    that name its second. *)
Lemma wall_clock ms :
  four_digit_year ms ->
  exists c, clock_ok c /\ clock_ms c = ms / 1000 * 1000 /\ forall sep tail, wall sep ms tail = show_clock c sep tail.
Proof.
  intros Hr. unfold four_digit_year in Hr. unfold wall.
  destruct (civil_from_days (ms / 86400000)) as [[y mo] d] eqn:Hc.
  assert (Hdays : -719528 <= ms / 86400000 < 2932897) by (clear Hc; Z.to_euclidean_division_equations; lia).
  pose proof (civil_from_days_year _ _ _ _ Hdays Hc) as Hy.
  apply civil_from_days_make in Hc as (Hm & Hmo & Hd).
  exists {| ck_year := y; ck_month := mo; ck_day := d; ck_hour := ms mod 86400000 / 3600000;
            ck_minute := ms mod 86400000 / 60000 mod 60; ck_second := ms mod 86400000 / 1000 mod 60 |}.
  split_and!.
  - unfold clock_ok; simpl. split_and!; try lia; Z.to_euclidean_division_equations; lia.
  - unfold clock_ms, utc_millis; simpl. rewrite Hm. clear. Z.to_euclidean_division_equations; lia.
  - intros sep tail. unfold iso_year. rewrite (proj2 (andb_true_iff _ _)) by lia. done.
Qed.

(** *** Reading a shown clock *)

Lemma days_in_month_le year month : daysInMonth year month <= 31.
Proof. unfold daysInMonth. repeat case_match; lia. Qed.

Lemma read_pad n k s : 0 <= k < 10 ^ Z.of_nat n -> read_digits n 0 (pad_digits n k s) = Some (k, s).
Proof. intros H. by rewrite read_digits_pad, Z.mul_0_l, Z.add_0_l, Z.mod_small. Qed.

Lemma read_char_here c s : read_char c (String c s) = Some s.
Proof. unfold read_char. by rewrite bool_decide_eq_true_2. Qed.

Ltac read_field :=
  first [rewrite read_pad by (cbn; lia) | rewrite read_char_here]; cbn [mbind option_bind].

Lemma read_date_clock c tail :
  clock_ok c -> read_date (show_date c tail) = Some (show_date c EmptyString, tail).
Proof.
  intros (H1 & H2 & H3 & _). pose proof (days_in_month_le (ck_year c) (ck_month c)).
  unfold read_date, show_date. do 5 read_field. f_equal. f_equal.
  change 10%nat with (4 + S (2 + S (2 + 0)))%nat.
  rewrite substring_pad, substring_cons, substring_pad, substring_cons, substring_pad, substring_0. done.
Qed.

Lemma read_time_clock c tail :
  clock_ok c -> read_time (show_time c tail) = Some (show_time c EmptyString, tail).
Proof.
  intros (_ & _ & _ & H4 & H5 & H6). unfold read_time, show_time. do 5 read_field. f_equal. f_equal.
  change 8%nat with (2 + S (2 + S (2 + 0)))%nat.
  rewrite substring_pad, substring_cons, substring_pad, substring_cons, substring_pad, substring_0. done.
Qed.

Lemma match_warehouse_clock c tail :
  clock_ok c ->
  match_warehouse (show_clock c " " tail) =
    (fractional ← read_tail tail; Some (show_date c EmptyString, show_time c EmptyString, fractional)).
Proof.
  intros H. unfold match_warehouse, show_clock. rewrite read_date_clock by done.
  cbn [mbind option_bind]. rewrite bool_decide_eq_true_2 by done. cbn [orb mbind option_bind].
  rewrite read_time_clock by done. done.
Qed.

Lemma match_timestamp_clock c tail :
  clock_ok c ->
  match_timestamp (show_clock c "T" tail) =
    ('(fraction, s) ← read_fraction tail; z ← read_zone s;
     Some {| tp_year := ck_year c; tp_month := ck_month c; tp_day := ck_day c; tp_hour := ck_hour c;
             tp_minute := ck_minute c; tp_second := ck_second c; tp_fraction := fraction; tp_zone := z |}).
Proof.
  intros (H1 & H2 & H3 & H4 & H5 & H6). pose proof (days_in_month_le (ck_year c) (ck_month c)).
  unfold match_timestamp, show_clock, show_date, show_time. do 11 read_field. done.
Qed.

Lemma read_calendar_clock c tail :
  clock_ok c ->
  read_calendar (show_clock c " " tail) =
    Some (ck_year c, ck_month c, ck_day c, Some (ck_hour c, ck_minute c, ck_second c)).
Proof.
  intros (H1 & H2 & H3 & H4 & H5 & H6). pose proof (days_in_month_le (ck_year c) (ck_month c)).
  unfold read_calendar, show_clock, show_date, show_time. do 5 read_field.
  rewrite bool_decide_eq_true_2 by done. cbn [orb mbind option_bind].
  do 5 read_field. done.
Qed.

Lemma real_fields_clock c tail : clock_ok c -> hasRealCalendarFields (show_clock c " " tail) = true.
Proof.
  intros H. unfold hasRealCalendarFields. rewrite read_calendar_clock by done.
  destruct H as (H1 & H2 & H3 & H4 & H5 & H6).
  rewrite (proj2 (orb_false_iff _ _)) by lia. rewrite (proj2 (orb_false_iff _ _)) by lia. lia.
Qed.

(** *** The patterns accept shown clocks *)

Lemma accepts_repeat_digits p lo hi k s :
  all_digits p -> (lo <= String.length p <= hi)%nat -> k s = true ->
  accepts (re_repeat digit_class lo hi) k (p ++ s) = true.
Proof.
  revert lo hi. induction p as [|c p IH]; intros lo hi Hp Hlen Hk.
  - destruct lo as [|lo]; [|cbn in Hlen; lia]. rewrite append_nil.
    destruct hi as [|hi]; [by rewrite accepts_repeat_none|]. by rewrite accepts_repeat_may, Hk.
  - assert (Hc : is_digit c = true) by (apply Hp; set_solver).
    assert (Hrest : all_digits p) by (intros d Hd; apply Hp; set_solver).
    cbn in Hlen. rewrite append_cons. destruct hi as [|hi]; [lia|].
    assert (Hone : forall k', accepts digit_class k' (String c (p ++ s)) = k' (p ++ s)%string).
    { intros k'. unfold digit_class, re_range. rewrite accepts_char. cbn [on_char].
      change ((byte_of "0" <=? byte_of c) && (byte_of c <=? byte_of "9")) with (is_digit c). by rewrite Hc. }
    destruct lo as [|lo].
    + rewrite accepts_repeat_may, Hone, IH by (done || lia). apply orb_true_r.
    + rewrite accepts_repeat_more, Hone. apply IH; [done|lia|done].
Qed.

Lemma accepts_pad n lo hi v k s :
  (lo <= n <= hi)%nat -> k s = true -> accepts (re_repeat digit_class lo hi) k (pad_digits n v s) = true.
Proof.
  intros Hn Hk. rewrite pad_digits_snoc. apply accepts_repeat_digits; [apply pads_are_digits| |done].
  rewrite length_pad_digits. cbn. lia.
Qed.

Lemma accepts_one_here c k s : accepts (re_one c) k (String c s) = k s.
Proof. rewrite accepts_one. unfold lit. by rewrite read_char_here. Qed.

Ltac accept_step :=
  cbn [re_all]; rewrite ?accepts_seq;
  first [ rewrite accepts_one_here | unfold digits_exactly at 1; apply accepts_pad; [lia|] ].

Lemma literal_accepts_clock c : regex_test WAREHOUSE_LITERAL_PATTERN (show_clock c " " EmptyString) = true.
Proof.
  rewrite regex_test_accepts. unfold WAREHOUSE_LITERAL_PATTERN, show_clock, show_date, show_time.
  by repeat accept_step.
Qed.

Lemma literal64_accepts_clock c n :
  regex_test WAREHOUSE_LITERAL64_PATTERN (show_clock c " " (String "." (pad_digits 3 n EmptyString))) = true.
Proof.
  rewrite regex_test_accepts. unfold WAREHOUSE_LITERAL64_PATTERN, show_clock, show_date, show_time.
  by repeat accept_step.
Qed.

(** An absent optional part. *)
Lemma accepts_absent a k s : k s = true -> accepts (re_repeat a 0 1) k s = true.
Proof. intros H. by rewrite accepts_repeat_may, H. Qed.

Lemma accepts_present a k s : accepts a k s = true -> accepts (re_repeat a 0 1) k s = true.
Proof.
  intros H. rewrite accepts_repeat_may, (accepts_ext _ _ k), H; [apply orb_true_r|].
  intros x. apply accepts_repeat_none.
Qed.

Lemma input_accepts_clock c tail :
  tail = EmptyString \/ (exists n, tail = String "." (pad_digits 3 n EmptyString)) ->
  regex_test TIME_INPUT_PATTERN (show_clock c " " tail) = true.
Proof.
  intros Ht. rewrite regex_test_accepts. unfold TIME_INPUT_PATTERN, show_clock, show_date, show_time.
  do 5 accept_step. cbn [re_all]. apply accepts_present.
  rewrite accepts_seq. unfold re_oneof at 1. rewrite accepts_char. cbn [on_char has_char].
  rewrite bool_decide_eq_true_2 by done. cbn [orb andb].
  do 5 accept_step. rewrite ?accepts_seq.
  destruct Ht as [->|[n ->]].
  - do 2 apply accepts_absent. done.
  - apply accepts_present. rewrite accepts_seq, accepts_one_here. apply accepts_pad; [lia|].
    by apply accepts_absent.
Qed.

(** *** Trimming *)

(** No white space has a byte from 33 to 127. *)
Definition plain (c : ascii) : bool := (33 <=? byte_of c) && (byte_of c <=? 127).

Lemma white_space_not_plain w c : w ∈ white_space -> c ∈ string_chars w -> plain c = false.
Proof.
  intros Hw Hc. assert (H : forallb (fun w => forallb (fun c => negb (plain c)) (string_chars w)) white_space = true)
    by (vm_compute; reflexivity).
  rewrite forallb_forall in H. specialize (H w (proj1 (list_elem_of_In _ _) Hw)).
  rewrite forallb_forall in H. specialize (H c (proj1 (list_elem_of_In _ _) Hc)). by destruct (plain c).
Qed.

Lemma prefix_split w s : String.prefix w s = true -> exists t, s = (w ++ t)%string.
Proof.
  revert s. induction w as [|c w IH]; intros s H; [by exists s|].
  destruct s as [|d s]; [done|]. cbn in H. destruct (ascii_dec c d) as [->|]; [|done].
  destruct (IH s H) as [t ->]. by exists t.
Qed.

Lemma substring_rest w t :
  String.substring (String.length w) (String.length (w ++ t) - String.length w) (w ++ t) = t.
Proof.
  rewrite length_string_app. replace (_ + _ - _)%nat with (String.length t) by lia.
  induction w as [|c w IH]; [|exact IH].
  rewrite append_nil. cbn [String.length]. induction t as [|d t IHt]; [done|]. cbn. by rewrite IHt.
Qed.

Lemma find_white_space s w :
  List.find (fun w => String.prefix w s) white_space = Some w -> w ∈ white_space /\ exists t, s = (w ++ t)%string.
Proof. intros [Hin Hp]%find_some. split; [by apply list_elem_of_In|by apply prefix_split]. Qed.

Lemma trim_start_plain fuel s :
  (exists c, c ∈ string_chars s /\ plain c = true) -> trim_start fuel s <> EmptyString.
Proof.
  revert s. induction fuel as [|fuel IH]; intros s (c & Hc & Hp).
  - intros H. cbn in H. subst s. by apply elem_of_nil in Hc.
  - cbn [trim_start]. destruct (List.find _ _) as [w|] eqn:Hf.
    + apply find_white_space in Hf as (Hw & t & ->). rewrite substring_rest. apply IH. exists c. split; [|done].
      rewrite string_chars_app in Hc. apply elem_of_app in Hc as [Hc|Hc]; [|done].
      by rewrite (white_space_not_plain w c Hw Hc) in Hp.
    + intros ->. by apply elem_of_nil in Hc.
Qed.

Lemma trim_start_here fuel c s : plain c = true -> trim_start fuel (String c s) = String c s.
Proof.
  intros Hp. destruct fuel as [|fuel]; [done|]. cbn [trim_start].
  destruct (List.find _ _) as [w|] eqn:Hf; [|done]. apply find_white_space in Hf as (Hw & t & Ht).
  destruct w as [|d w]; [by vm_compute in Hw; set_solver|].
  rewrite append_cons in Ht. injection Ht as <- _.
  by rewrite (white_space_not_plain _ c Hw) in Hp by set_solver.
Qed.

Lemma trim_end_plain p c : plain c = true -> trim_end (p ++ String c EmptyString) = (p ++ String c EmptyString)%string.
Proof.
  intros Hp. induction p as [|d p IH].
  - rewrite append_nil. cbn [trim_end]. by rewrite bool_decide_eq_false_2 by by rewrite trim_start_here.
  - rewrite append_cons. cbn [trim_end]. rewrite bool_decide_eq_false_2, IH; [done|].
    apply trim_start_plain. exists c. split; [|done].
    cbn [string_chars]. rewrite string_chars_app. set_solver.
Qed.

Lemma digit_plain c : is_digit c = true -> plain c = true.
Proof. unfold is_digit, plain. lia. Qed.

(** A string that starts and ends with a digit needs no trimming. *)
Lemma trim_digits a p c :
  is_digit a = true -> is_digit c = true ->
  trim (String a (p ++ String c EmptyString)) = String a (p ++ String c EmptyString).
Proof.
  intros Ha Hc. unfold trim. rewrite trim_start_here by by apply digit_plain.
  rewrite <- append_cons. apply trim_end_plain. by apply digit_plain.
Qed.

Lemma pad_digits_front n k s :
  pad_digits (S n) k s = String (digit_char (k / 10 ^ Z.of_nat n mod 10)) (pad_digits n k s).
Proof.
  revert k s. induction n as [|n IH]; intros k s.
  - cbn. by rewrite Z.div_1_r.
  - change (pad_digits (S (S n)) k s) with (pad_digits (S n) (k / 10) (String (digit_char (k mod 10)) s)).
    rewrite IH. f_equal. f_equal. rewrite Nat2Z.inj_succ, Z.pow_succ_r, <- Z.div_div by lia. done.
Qed.

Lemma pad_digits_last n k s :
  pad_digits (S n) k s = (pad_digits n (k / 10) EmptyString ++ String (digit_char (k mod 10)) s)%string.
Proof. cbn [pad_digits]. by rewrite pad_digits_snoc. Qed.

Definition ends_in_digit (s : string) : Prop :=
  exists p d, is_digit d = true /\ s = (p ++ String d EmptyString)%string.

Lemma ends_in_digit_cons c s : ends_in_digit s -> ends_in_digit (String c s).
Proof. intros (p & d & Hd & ->). by exists (String c p), d. Qed.

Lemma ends_in_digit_pad n k s : ends_in_digit s -> ends_in_digit (pad_digits n k s).
Proof. revert k s. induction n as [|n IH]; intros k s Hs; [done|]. by apply IH, ends_in_digit_cons. Qed.

Lemma pad_ends_in_digit n k : ends_in_digit (pad_digits (S n) k EmptyString).
Proof.
  cbn [pad_digits]. rewrite pad_digits_snoc. eexists _, _. split; [|done]. apply is_digit_digit_char, mod_10_digit.
Qed.

Lemma trim_clock c tail :
  tail = EmptyString \/ (exists n, tail = String "." (pad_digits 3 n EmptyString)) ->
  trim (show_clock c " " tail) = show_clock c " " tail.
Proof.
  intros Ht. unfold show_clock, show_date. rewrite pad_digits_front.
  set (rest := pad_digits 3 _ _). assert (ends_in_digit rest) as (p & d & Hd & ->).
  { unfold rest, show_time. destruct Ht as [->|[n ->]];
      repeat first [apply pad_ends_in_digit | apply ends_in_digit_pad | apply ends_in_digit_cons]. }
  apply trim_digits; [apply is_digit_digit_char, mod_10_digit|done].
Qed.

(** *** Shown clocks are the instants they show *)

Lemma format_clock ms c :
  (forall sep tail, wall sep ms tail = show_clock c sep tail) ->
  formatWarehouseDateTime ms = show_clock c " " EmptyString /\
  formatWarehouseDateTimeMs ms = show_clock c " " (String "." (pad_digits 3 (ms mod 1000) EmptyString)) /\
  String.substring 0 23 (replace_first "T" " " (toISOString ms)) =
    show_clock c " " (String "." (pad_digits 3 (ms mod 1000) EmptyString)).
Proof.
  intros Hw. unfold formatWarehouseDateTime, formatWarehouseDateTimeMs, toISOString. rewrite !Hw.
  assert (Hr : forall tail, replace_first "T" " " (show_clock c "T" tail) = show_clock c " " tail).
  { intros tail. unfold show_clock, show_date.
    do 2 (rewrite replace_first_pad, replace_first_other by done).
    rewrite replace_first_pad, replace_first_here by done. done. }
  assert (Hs : forall n tail, String.substring 0 (19 + n) (show_clock c " " tail) =
                              show_clock c " " (String.substring 0 n tail)).
  { intros n tail. unfold show_clock, show_date, show_time.
    change (19 + n)%nat with (4 + S (2 + S (2 + S (2 + S (2 + S (2 + n))))))%nat.
    do 5 rewrite substring_pad, substring_cons. by rewrite substring_pad. }
  rewrite !Hr. split_and!.
  - pose proof (Hs 0%nat) as H0. cbn [Nat.add] in H0. by rewrite H0, substring_0.
  - assert (Hc : forall e s, s <> EmptyString -> strip_final "Z" (String e s) = String e (strip_final "Z" s))
      by (intros e [|f s] ?; done).
    assert (Hp : forall n k s, s <> EmptyString -> strip_final "Z" (pad_digits n k s) = pad_digits n k (strip_final "Z" s)).
    { induction n as [|n IH]; intros k s Hs'; [done|]. cbn [pad_digits]. by rewrite IH, Hc. }
    assert (Hne : forall n k s, s <> EmptyString -> pad_digits n k s <> EmptyString).
    { intros n k s Hs'. rewrite pad_digits_snoc. by destruct (pad_digits n k EmptyString), s. }
    unfold show_clock, show_date, show_time.
    repeat first [rewrite Hp by (repeat first [done | apply Hne]) | rewrite Hc by (repeat first [done | apply Hne])].
    done.
  - pose proof (Hs 4%nat) as H4. cbn [Nat.add] in H4. by rewrite H4.
Qed.

Lemma span_digits_app p s :
  all_digits p -> span_digits (p ++ s) = let '(d, rest) := span_digits s in ((p ++ d)%string, rest).
Proof.
  induction p as [|c p IH]; intros Hp.
  - rewrite append_nil. destruct (span_digits s). by rewrite append_nil.
  - rewrite append_cons. cbn [span_digits]. rewrite (Hp c) by set_solver.
    rewrite IH by (intros d Hd; apply Hp; set_solver). destruct (span_digits s). by rewrite append_cons.
Qed.

Lemma append_empty_r (s : string) : (s ++ EmptyString)%string = s.
Proof. induction s as [|c s IH]; [done|]. by rewrite append_cons, IH. Qed.

Lemma span_pad n k s :
  span_digits s = (EmptyString, s) -> span_digits (pad_digits n k s) = (pad_digits n k EmptyString, s).
Proof.
  intros Hs. rewrite pad_digits_snoc, span_digits_app, Hs by apply pads_are_digits. by rewrite append_empty_r.
Qed.

Lemma read_tail_pad k :
  read_tail (String "." (pad_digits 3 k EmptyString)) = Some (Some (pad_digits 3 k EmptyString)).
Proof.
  cbn [read_tail]. rewrite bool_decide_eq_true_2 by done. rewrite span_pad by done.
  by rewrite pad_digits_front.
Qed.

Definition milliseconds_tail (k : option Z) : string :=
  match k with None => EmptyString | Some n => String "." (pad_digits 3 n EmptyString) end.

Lemma tail_cases k :
  milliseconds_tail k = EmptyString \/ exists n, milliseconds_tail k = String "." (pad_digits 3 n EmptyString).
Proof. destruct k; [right; by eexists|by left]. Qed.

Lemma iso_of_clock c k :
  clock_ok c ->
  warehouseDateTimeToIso (show_clock c " " (milliseconds_tail k)) =
    show_clock c "T" (milliseconds_tail k ++ "Z").
Proof.
  intros H. unfold warehouseDateTimeToIso. rewrite trim_clock by apply tail_cases.
  rewrite match_warehouse_clock by done.
  assert (Hj : forall tail, (show_date c EmptyString ++ "T" ++ show_time c EmptyString ++ tail = show_clock c "T" tail)%string).
  { intros tail. unfold show_clock, show_date, show_time.
    repeat first [rewrite pad_digits_app | rewrite append_cons | rewrite append_nil]. done. }
  destruct k as [n|]; cbn [milliseconds_tail].
  - rewrite read_tail_pad. cbn [mbind option_bind]. by rewrite <- Hj.
  - cbn [read_tail mbind option_bind]. rewrite append_nil. exact (Hj _).
Qed.

Lemma read_digits_value n acc s v : read_digits n acc s = Some (v, EmptyString) -> digits_value acc s = Some v.
Proof.
  revert acc s. induction n as [|n IH]; intros acc s; [by intros [= <- ->]|].
  destruct s as [|c s]; [done|]. cbn [read_digits digits_value]. destruct (is_digit c); [apply IH|done].
Qed.

Lemma instant_of_clock c k :
  clock_ok c -> match k with Some n => 0 <= n < 1000 | None => True end ->
  timestampToEpochNanos (show_clock c "T" (milliseconds_tail k ++ "Z")) =
    Some ((clock_ms c + default 0 k) * 1000000).
Proof.
  intros H Hk. unfold timestampToEpochNanos. rewrite match_timestamp_clock by done.
  assert (Hf : read_fraction (milliseconds_tail k ++ "Z") =
               Some (match k with Some n => pad_digits 3 n EmptyString | None => EmptyString end, "Z"%string)).
  { destruct k as [n|]; [|done]. cbn [milliseconds_tail]. rewrite append_cons, pad_digits_app, append_nil.
    unfold read_fraction. rewrite read_char_here, span_pad by done. rewrite !length_pad_digits. done. }
  rewrite Hf. cbn [mbind option_bind]. change (read_zone "Z") with (Some zone_utc). cbn [mbind option_bind].
  assert (Hr : forall f z, fields_in_range {| tp_year := ck_year c; tp_month := ck_month c; tp_day := ck_day c;
      tp_hour := ck_hour c; tp_minute := ck_minute c; tp_second := ck_second c; tp_fraction := f; tp_zone := z |} = true).
  { intros f z. unfold fields_in_range; simpl. destruct H as (H1 & H2 & H3 & H4 & H5 & H6).
    rewrite negb_true_iff, !orb_false_iff. split_and!; lia. }
  rewrite Hr. cbn [offset_minutes tp_zone mbind option_bind tp_year tp_month tp_day tp_hour tp_minute tp_second tp_fraction].
  f_equal. fold (clock_ms c). rewrite Z.mul_0_l, Z.sub_0_r.
  destruct k as [n|]; cbn [default from_option].
  - unfold fraction_nanos. rewrite length_pad_digits. cbn [String.length].
    assert (digits_value 0 (pad_digits 3 n EmptyString) = Some n) as ->; [|cbn [default from_option]; simpl; lia].
    apply (read_digits_value 3). by apply read_pad.
  - change (fraction_nanos EmptyString) with 0. lia.
Qed.

#[export] Instance four_digit_year_dec ms : Decision (four_digit_year ms).
Proof. unfold four_digit_year. apply _. Defined.

Lemma wall_floor sep ms tail : wall sep (ms / 1000 * 1000) tail = wall sep ms tail.
Proof.
  unfold wall.
  replace (ms / 1000 * 1000 / 86400000) with (ms / 86400000) by (Z.to_euclidean_division_equations; lia).
  replace ((ms / 1000 * 1000) mod 86400000 / 3600000) with (ms mod 86400000 / 3600000)
    by (Z.to_euclidean_division_equations; lia).
  replace ((ms / 1000 * 1000) mod 86400000 / 60000) with (ms mod 86400000 / 60000)
    by (Z.to_euclidean_division_equations; lia).
  by replace ((ms / 1000 * 1000) mod 86400000 / 1000) with (ms mod 86400000 / 1000)
    by (Z.to_euclidean_division_equations; lia).
Qed.

Lemma format_floor ms :
  four_digit_year ms -> formatWarehouseDateTime (ms / 1000 * 1000) = formatWarehouseDateTime ms.
Proof.
  intros (c & _ & _ & Hw)%wall_clock. rewrite (proj1 (format_clock ms c Hw)).
  apply format_clock. intros sep tail. rewrite wall_floor. apply Hw.
Qed.

Lemma floor_four_digit ms : four_digit_year ms -> four_digit_year (ms / 1000 * 1000).
Proof. unfold four_digit_year. intros H. Z.to_euclidean_division_equations; lia. Qed.

Lemma clock_literal ms :
  four_digit_year ms ->
  exists c, clock_ok c /\ clock_ms c = ms / 1000 * 1000 /\
    formatWarehouseDateTime ms = show_clock c " " (milliseconds_tail None) /\
    formatWarehouseDateTimeMs ms = show_clock c " " (milliseconds_tail (Some (ms mod 1000))) /\
    toISOString ms = show_clock c "T" (milliseconds_tail (Some (ms mod 1000)) ++ "Z").
Proof.
  intros (c & Hok & Hms & Hw)%wall_clock. exists c.
  destruct (format_clock ms c Hw) as (H1 & H2 & _). split_and!; try done.
  unfold toISOString. rewrite Hw. cbn [milliseconds_tail]. rewrite append_cons. by rewrite pad_digits_app.
Qed.

(** *** Instants outside the years of four digits *)

Lemma wall_other_year sep ms tail :
  ~ four_digit_year ms -> exists e s, is_digit e = false /\ e <> "T"%char /\ wall sep ms tail = String e s.
Proof.
  intros Hn. unfold wall. destruct (civil_from_days (ms / 86400000)) as [[y mo] d] eqn:Hc.
  apply civil_from_days_make in Hc as (Hm & Hmo & Hd). unfold iso_year.
  destruct ((0 <=? y) && (y <=? 9999)) eqn:Hy; [|eexists _, _; split_and!; [| |done]; by destruct (y <? 0)].
  exfalso. apply Hn. unfold make_day in Hm.
  pose proof (days_before_bounds y (Z.to_nat (mo - 1)) ltac:(lia)) as Hb.
  replace (Z.of_nat (Z.to_nat (mo - 1)) + 1) with mo in Hb by lia.
  pose proof (day_from_year_next y). pose proof (day_from_year_mono 0 y ltac:(lia)).
  pose proof (day_from_year_mono (y + 1) 10000 ltac:(lia)).
  change (day_from_year 0) with (-719528) in *. change (day_from_year 10000) with 2932897 in *.
  assert (Hr : -719528 <= ms / 86400000 < 2932897) by lia. unfold four_digit_year.
  clear - Hr. Z.to_euclidean_division_equations; lia.
Qed.

Lemma literal_needs_digit e s : is_digit e = false -> regex_test WAREHOUSE_LITERAL_PATTERN (String e s) = false.
Proof.
  intros He. rewrite regex_test_accepts. unfold WAREHOUSE_LITERAL_PATTERN. cbn [re_all]. rewrite accepts_seq.
  unfold digits_exactly. rewrite accepts_repeat_more. unfold digit_class at 1, re_range. rewrite accepts_char.
  cbn [on_char]. change ((byte_of "0" <=? byte_of e) && (byte_of e <=? byte_of "9")) with (is_digit e). by rewrite He.
Qed.

Lemma format_other_year ms :
  ~ four_digit_year ms -> exists e s, is_digit e = false /\ formatWarehouseDateTime ms = String e s.
Proof.
  intros (e & s & He & HT & Hw)%(wall_other_year "T" ms (String "." (pad_digits 3 (ms mod 1000) "Z"))).
  unfold formatWarehouseDateTime, toISOString. rewrite Hw, replace_first_other by done.
  change 19%nat with (S 18). rewrite substring_cons. by eexists _, _.
Qed.

(** Cutting before or after the separator is replaced is the same. *)
Lemma slice_then_replace ms :
  four_digit_year ms ->
  replace_first "T" " " (String.substring 0 23 (toISOString ms)) = formatWarehouseDateTimeMs ms /\
  replace_first "T" " " (String.substring 0 19 (toISOString ms)) = formatWarehouseDateTime ms.
Proof.
  intros Hr. pose proof (clock_literal ms Hr) as (c & _ & _ & H1 & H2 & H3).
  assert (Hs : forall n tail, replace_first "T" " " (String.substring 0 (19 + n) (show_clock c "T" tail)) =
                              show_clock c " " (String.substring 0 n tail)).
  { intros n tail. unfold show_clock, show_date, show_time.
    change (19 + n)%nat with (4 + S (2 + S (2 + S (2 + S (2 + S (2 + n))))))%nat.
    do 5 rewrite substring_pad, substring_cons. rewrite substring_pad.
    do 2 (rewrite replace_first_pad, replace_first_other by done).
    rewrite replace_first_pad, replace_first_here by done. done. }
  rewrite H1, H2, H3. split.
  - exact (Hs 4%nat _).
  - exact (Hs 0%nat _).
Qed.

(** ** What the literals mean *)

(** A parser of dates that reads every RFC 3339 instant as its milliseconds. *)
Definition reads_instants (parse : string -> option Z) : Prop :=
  forall s n, timestampToEpochNanos s = Some n -> parse s = Some (n / 1000000).

Section Meaning.
Variable date_parse : string -> option Z.
Hypothesis Hparse : reads_instants date_parse.

Lemma parse_clock c k :
  clock_ok c -> match k with Some n => 0 <= n < 1000 | None => True end ->
  date_parse (warehouseDateTimeToIso (show_clock c " " (milliseconds_tail k))) = Some (clock_ms c + default 0 k).
Proof.
  intros Hok Hk. rewrite iso_of_clock by done. rewrite (Hparse _ _ (instant_of_clock c k Hok Hk)).
  by rewrite Z.div_mul.
Qed.

Lemma parse_formatted ms :
  four_digit_year ms ->
  parseWarehouseDateTime date_parse (formatWarehouseDateTime ms) = Some (ms / 1000 * 1000) /\
  parseWarehouseDateTime date_parse (formatWarehouseDateTimeMs ms) = Some ms /\
  date_parse (toISOString ms) = Some ms.
Proof.
  intros (c & Hok & Hms & H1 & H2 & H3)%clock_literal. unfold parseWarehouseDateTime.
  pose proof (Z.mod_pos_bound ms 1000 ltac:(lia)).
  rewrite H1, H2, H3, !parse_clock, (Hparse _ _ (instant_of_clock c (Some (ms mod 1000)) Hok ltac:(done))) by done.
  rewrite Hms. cbn [from_option id]. unfold id. pose proof (Z.div_mod ms 1000 ltac:(lia)).
  split_and!; f_equal; [lia|lia|]. rewrite Z.div_mul; lia.
Qed.

Lemma formatted_accepted ms :
  four_digit_year ms ->
  isWarehouseTimeInput date_parse (formatWarehouseDateTime ms) = None /\
  regex_test WAREHOUSE_LITERAL_PATTERN (formatWarehouseDateTime ms) = true /\
  regex_test WAREHOUSE_LITERAL64_PATTERN (formatWarehouseDateTimeMs ms) = true /\
  hasRealCalendarFields (formatWarehouseDateTime ms) = true.
Proof.
  intros Hr. pose proof (parse_formatted ms Hr) as (Hp & _).
  apply clock_literal in Hr as (c & Hok & Hms & H1 & H2 & H3). rewrite H1, H2 in *.
  split_and!; [|apply literal_accepts_clock|apply literal64_accepts_clock|by apply real_fields_clock].
  unfold isWarehouseTimeInput. rewrite input_accepts_clock by apply tail_cases.
  rewrite real_fields_clock, Hp by done. done.
Qed.

Lemma mint_literal ms :
  warehouseDateTime date_parse ms =
    if bool_decide (four_digit_year ms) then Ok (formatWarehouseDateTime ms)
    else Err (not_a_literal (formatWarehouseDateTime ms)).
Proof.
  unfold warehouseDateTime, WarehouseDateTime. case_bool_decide as Hr.
  - pose proof (formatted_accepted ms Hr) as (Ha & Hl & _). by rewrite Hl, Ha.
  - apply format_other_year in Hr as (e & s & He & ->). by rewrite literal_needs_digit.
Qed.

(** C40: a timestamp that passes the input check decodes to the canonical literal
    of the second it names, which is a real date the warehouse pattern accepts,
    reads back as that second and decodes to itself, whenever that second falls
    in a year of four digits; an offset can carry an accepted input out of
    those years, and then minting the literal fails, although the code calls
    the decoding total. *)
Theorem decoded_time_is_canonical value ms :
  isWarehouseTimeInput date_parse value = None ->
  parseWarehouseDateTime date_parse value = Some ms ->
  (four_digit_year ms ->
     exists w, decodeTimeInput date_parse value = Ok w /\
       w = formatWarehouseDateTime ms /\
       regex_test WAREHOUSE_LITERAL_PATTERN w = true /\ hasRealCalendarFields w = true /\
       parseWarehouseDateTime date_parse w = Some (ms / 1000 * 1000) /\
       decodeTimeInput date_parse w = Ok w) /\
  (~ four_digit_year ms -> exists literal, decodeTimeInput date_parse value = Err (not_a_literal literal)).
Proof.
  intros Hin Hms. unfold decodeTimeInput at 1. rewrite Hin, Hms. unfold decodeTimeInput at 2.
  rewrite Hin, Hms, mint_literal. split; intros Hr.
  - rewrite bool_decide_eq_true_2 by done. exists (formatWarehouseDateTime ms).
    pose proof (parse_formatted ms Hr) as (Hp & _). pose proof (formatted_accepted ms Hr) as (Ha & Hl & _ & Hf).
    split_and!; try done. unfold decodeTimeInput. rewrite Ha, Hp, mint_literal.
    rewrite bool_decide_eq_true_2 by by apply floor_four_digit. by rewrite format_floor.
  - rewrite bool_decide_eq_false_2 by done. by eexists.
Qed.
End Meaning.

Section Codec.
Variables (date_time_make : string -> option Z) (format_iso : Z -> string).
Hypothesis Hmake : reads_instants date_time_make.
Hypothesis Hiso : forall ms, four_digit_year ms -> format_iso ms = toISOString ms.

(** A UTC instant of a year of four digits written on the wire as a
    [DateTime64(3)] column and read back is the same instant, and written as a
    [DateTime] column it is the instant rounded down to its second; the
    formatters of the string plumbing agree with the codec. *)
Theorem warehouse_wire_roundtrip ms :
  four_digit_year ms ->
  parseUtc date_time_make (utcToWarehouseWire format_iso true ms) = Some ms /\
  parseUtc date_time_make (utcToWarehouseWire format_iso false ms) = Some (ms / 1000 * 1000) /\
  utcToWarehouseWire format_iso true ms = formatWarehouseDateTimeMs ms /\
  utcToWarehouseWire format_iso false ms = formatWarehouseDateTime ms.
Proof.
  intros Hr. pose proof (parse_formatted date_time_make Hmake ms Hr) as (Hs & Hms & _).
  assert (H23 : utcToWarehouseWire format_iso true ms = formatWarehouseDateTimeMs ms /\
                utcToWarehouseWire format_iso false ms = formatWarehouseDateTime ms).
  { unfold utcToWarehouseWire. rewrite Hiso by done. by destruct (slice_then_replace ms Hr). }
  destruct H23 as [H3 H0]. rewrite H3, H0.
  assert (Hp : forall s k c, s = show_clock c " " (milliseconds_tail k) -> clock_ok c ->
                 parseUtc date_time_make s = parseWarehouseDateTime date_time_make s).
  { intros s k c -> Hok. unfold parseUtc, parseWarehouseDateTime.
    rewrite trim_clock, input_accepts_clock, real_fields_clock by (done || apply tail_cases). done. }
  apply clock_literal in Hr as (c & Hok & _ & H1 & H2 & _).
  rewrite (Hp _ _ _ H1 Hok), (Hp _ _ _ H2 Hok). done.
Qed.
End Codec.


(** [Date.parse] on RFC 3339 instants. *)
Definition rfc3339_parse (s : string) : option Z := option_map (fun n => n / 1000000) (timestampToEpochNanos s).

Lemma rfc3339_reads : reads_instants rfc3339_parse.
Proof. intros s n H. unfold rfc3339_parse. by rewrite H. Qed.

Example decoded_time_is_canonical_witness :
  decodeTimeInput rfc3339_parse "2026-08-25T10:47:52.041+02:00" = Ok "2026-08-25 08:47:52"%string /\
  (exists literal, decodeTimeInput rfc3339_parse "9999-12-31T23:59:59-01:00" = Err (not_a_literal literal)).
Proof.
  split.
  - destruct (decoded_time_is_canonical rfc3339_parse rfc3339_reads "2026-08-25T10:47:52.041+02:00" 1787647672041)
      as [H _]; [vm_compute; reflexivity|vm_compute; reflexivity|].
    destruct H as (w & Hw & -> & _); [unfold four_digit_year; lia|].
    rewrite Hw. f_equal; vm_compute; reflexivity.
  - apply (decoded_time_is_canonical rfc3339_parse rfc3339_reads "9999-12-31T23:59:59-01:00" 253402304399000);
      [vm_compute; reflexivity|vm_compute; reflexivity|unfold four_digit_year; lia].
Defined.

Example warehouse_wire_roundtrip_witness :
  parseUtc rfc3339_parse (utcToWarehouseWire toISOString true 1709251199541) = Some 1709251199541 /\
  utcToWarehouseWire toISOString true 1709251199541 = "2024-02-29 23:59:59.541"%string.
Proof.
  pose proof (warehouse_wire_roundtrip rfc3339_parse toISOString rfc3339_reads (fun _ _ => eq_refl) 1709251199541
                ltac:(unfold four_digit_year; lia)) as (H1 & _).
  split; [exact H1|vm_compute; reflexivity].
Defined.

(** The hours read cover the window's seconds, start and end on the hour, and
    the rate divides by exactly the seconds read. *)
Lemma snapshot_hours_cover date_parse startTime endTime s e :
  parseWarehouseDateTime date_parse startTime = Some s -> parseWarehouseDateTime date_parse endTime = Some e -> s <= e ->
  exists startMs endMs, serviceHealthSnapshotHours date_parse startTime endTime =
      (Some startMs, Some endMs, Some ((endMs - startMs) / 1000)) /\
    startMs mod HOUR_MS = 0 /\ endMs mod HOUR_MS = 0 /\ startMs <= s < startMs + HOUR_MS /\
    e / 1000 * 1000 <= endMs < e / 1000 * 1000 + HOUR_MS.
Proof.
  intros Hs He Hle. unfold serviceHealthSnapshotHours. rewrite Hs, He. cbn [mbind option_bind].
  set (startMs := s / 1000 * 1000 / HOUR_MS * HOUR_MS).
  set (endMs := (e / 1000 * 1000 + HOUR_MS - 1000) / HOUR_MS * HOUR_MS).
  assert (startMs <= endMs) by (unfold startMs, endMs, HOUR_MS; clear - Hle; Z.to_euclidean_division_equations; lia).
  exists startMs, endMs. split_and!.
  - by rewrite Z.max_r by lia.
  - unfold startMs. by apply Z.mod_mul.
  - unfold endMs. by apply Z.mod_mul.
  - unfold startMs, HOUR_MS. clear. Z.to_euclidean_division_equations; lia.
  - unfold startMs, HOUR_MS. clear. Z.to_euclidean_division_equations; lia.
  - unfold endMs, HOUR_MS. clear. Z.to_euclidean_division_equations; lia.
  - unfold endMs, HOUR_MS. clear. Z.to_euclidean_division_equations; lia.
Qed.
