(* ===== verification/QueryWindow.v ===== *)
(** * Query engine: time ranges and bucket sizes

    The second half of [packages/query-engine/src/datetime.ts]: the relative
    range shorthand and its resolution on a calendar, the grid that holds cache
    keys still, the resolver of a stored time range, and the rules that pick a
    bucket width for a window.

    Epoch milliseconds and seconds are integers. A window's length in seconds,
    which the code divides to a fraction, is kept as milliseconds over 1000, so
    every comparison and rounding is exact; the binary64 quotients agree, since
    a window is far below 2^53 milliseconds and its quotients are multiples of a
    fraction far above the rounding error. A time zone is the function [Intl]
    gives: the wall clock of an instant. The branches for a call without a zone,
    which go through the runtime's own calendar, are not modelled; the day
    windows of a UTC runtime are those of the UTC zone. *)

From Stdlib Require Import Ascii String.
From stdpp Require Import prelude list strings.
From Stdlib Require Import ZArith Lia Sorting.Permutation Sorting.Sorted.
From S2P Require Import Prelude.
From S2P Require Import JsString.
From S2P Require Import EventTime.
From S2P Require Import WarehouseTime.

Open Scope Z_scope.

(** ** Calendar arithmetic in a zone *)

Record ZonedDateParts := {
  zp_year : Z; zp_month : Z; zp_day : Z; zp_hour : Z; zp_minute : Z; zp_second : Z
}.

#[export] Instance zoned_parts_eq_dec : EqDecision ZonedDateParts.
Proof. solve_decision. Defined.

(** [Date.UTC] for a month counted from zero, with roll-over. *)
Definition date_utc (year month0 day hour minute second : Z) : Z :=
  let year := if (0 <=? year) && (year <=? 99) then 1900 + year else year in
  utc_millis (year + month0 / 12) (month0 mod 12 + 1) day hour minute second.

Definition parts_utc (p : ZonedDateParts) : Z :=
  date_utc (zp_year p) (zp_month p - 1) (zp_day p) (zp_hour p) (zp_minute p) (zp_second p).

(** The UTC getters of [new Date(ms)]. *)
Definition utc_parts (ms : Z) : ZonedDateParts :=
  let '(year, month, day) := civil_from_days (ms / 86400000) in
  let t := ms mod 86400000 in
  {| zp_year := year; zp_month := month; zp_day := day;
     zp_hour := t / 3600000; zp_minute := t / 60000 mod 60; zp_second := t / 1000 mod 60 |}.

Definition HALF_DAY_MS : Z := 43200000.

Definition MS (unit : string) : option Z :=
  if bool_decide (unit = "m"%string) then Some 60000
  else if bool_decide (unit = "h"%string) then Some 3600000
  else if bool_decide (unit = "d"%string) then Some 86400000
  else if bool_decide (unit = "w"%string) then Some 604800000
  else None.

Section Zone.
(** The wall clock at an instant. *)
Variable zonedDateParts : Z -> ZonedDateParts.

Definition timeZoneOffsetMs (epochMs : Z) : Z := parts_utc (zonedDateParts epochMs) - epochMs / 1000 * 1000.

Definition reads_back (asUtc instant : Z) : bool := bool_decide (zonedDateParts instant = utc_parts asUtc).

Definition zonedPartsToEpochMs (parts : ZonedDateParts) : Z :=
  let asUtc := parts_utc parts in
  let offsets := dedupe (List.map timeZoneOffsetMs [asUtc - HALF_DAY_MS; asUtc; asUtc + HALF_DAY_MS]) in
  let candidates := js_sort (fun a b => a - b) (List.map (fun offset => asUtc - offset) offsets) in
  match List.find (reads_back asUtc) candidates with
  | Some instant => instant
  | None => default asUtc (last candidates)
  end.

Definition at_midnight (p : ZonedDateParts) (day : Z) : ZonedDateParts :=
  {| zp_year := zp_year p; zp_month := zp_month p; zp_day := day; zp_hour := 0; zp_minute := 0; zp_second := 0 |}.

Definition startOfDayInTimeZone (epochMs : Z) : Z :=
  let parts := zonedDateParts epochMs in zonedPartsToEpochMs (at_midnight parts (zp_day parts)).

(** [new Date(Date.UTC(year, month + 1, 0)).getUTCDate()] *)
Definition days_in_month_of (year month : Z) : Z := zp_day (utc_parts (date_utc year month 0 0 0 0)).

Definition addCalendarMonths (epochMs months : Z) : Z :=
  let parts := zonedDateParts epochMs in
  let target := utc_parts (date_utc (zp_year parts) (zp_month parts - 1 + months) 1 0 0 0) in
  let daysInTargetMonth := days_in_month_of (zp_year target) (zp_month target) in
  zonedPartsToEpochMs
    {| zp_year := zp_year target; zp_month := zp_month target; zp_day := Z.min (zp_day parts) daysInTargetMonth;
       zp_hour := zp_hour parts; zp_minute := zp_minute parts; zp_second := zp_second parts |}.

Definition startOfDayDaysBack (epochMs daysBack : Z) : Z :=
  let parts := zonedDateParts epochMs in zonedPartsToEpochMs (at_midnight parts (zp_day parts - daysBack)).
End Zone.

(** ** Shorthand *)

(** [toLowerCase] on the letters of ASCII; no other letter becomes one the
    shorthand uses. *)
Definition lower_char (c : ascii) : ascii :=
  if (65 <=? byte_of c) && (byte_of c <=? 90) then ascii_of_N (Z.to_N (byte_of c + 32)) else c.

Fixpoint to_lower (s : string) : string :=
  match s with EmptyString => EmptyString | String c s' => String (lower_char c) (to_lower s') end.

(** [/^(\d+)(mo|m|h|d|w)$/]: the amount and the unit. *)
Definition match_relative (s : string) : option (Z * string) :=
  let '(digits, unit) := span_digits s in
  match digits with
  | EmptyString => None
  | _ =>
      if bool_decide (unit ∈ ["mo"; "m"; "h"; "d"; "w"]%string)
      then amount ← digits_value 0 digits; Some (amount, unit)
      else None
  end.

(** In seconds; every unit is whole seconds. *)
Definition relativeRangeSeconds (shorthand : string) : option Z :=
  let trimmed := to_lower (trim shorthand) in
  if bool_decide (trimmed = "today"%string) then Some 86400
  else
    '(amount, unit) ← match_relative trimmed;
    if amount <=? 0 then None
    else
      unitMs ← (if bool_decide (unit = "mo"%string) then Some (30 * 86400000) else MS unit);
      Some (amount * unitMs / 1000).

Record epoch_range := { er_startMs : Z; er_endMs : Z }.

Section Resolve.
Variable zone : Z -> ZonedDateParts.

(** A window ending at [nowMs]. *)
Definition resolveRelativeRange (shorthand : string) (nowMs : Z) : option epoch_range :=
  let trimmed := to_lower (trim shorthand) in
  if bool_decide (trimmed = "today"%string) then Some {| er_startMs := startOfDayInTimeZone zone nowMs; er_endMs := nowMs |}
  else
    '(amount, unit) ← match_relative trimmed;
    if amount <=? 0 then None
    else if bool_decide (unit = "mo"%string) then
      Some {| er_startMs := addCalendarMonths zone nowMs (- amount); er_endMs := nowMs |}
    else if bool_decide (unit = "d"%string) || bool_decide (unit = "w"%string) then
      let days := if bool_decide (unit = "w"%string) then amount * 7 else amount in
      Some {| er_startMs := startOfDayDaysBack zone nowMs (days - 1); er_endMs := nowMs |}
    else
      unitMs ← MS unit;
      Some {| er_startMs := nowMs - amount * unitMs; er_endMs := nowMs |}.

Definition resolveRelativeRangeToWarehouse (shorthand : string) (nowMs : Z) : option (string * string) :=
  resolved ← resolveRelativeRange shorthand nowMs;
  Some (formatWarehouseDateTime (er_startMs resolved), formatWarehouseDateTime (er_endMs resolved)).
End Resolve.

(** ** The cache grid *)

Definition CACHE_SNAP_LADDER : list (Z * Z) :=
  [(60 * 60 * 1000, 15); (6 * 60 * 60 * 1000, 60); (24 * 60 * 60 * 1000, 300); (7 * 24 * 60 * 60 * 1000, 900)].

Definition CACHE_SNAP_FALLBACK_SECONDS : Z := 1800.

(** For a finite width. *)
Definition cacheSnapSecondsForRange (rangeMs : Z) : Z :=
  if rangeMs <=? 0 then 15
  else match List.find (fun rung => rangeMs <=? rung.1) CACHE_SNAP_LADDER with
       | Some rung => rung.2
       | None => CACHE_SNAP_FALLBACK_SECONDS
       end.

Section Snap.
Variable date_parse : string -> option Z.

Definition snapRangeForCache (startTime endTime : string) (anchoredStart : bool) : string * string :=
  match parseWarehouseDateTime date_parse startTime, parseWarehouseDateTime date_parse endTime with
  | Some startMs, Some endMs =>
      if endMs <? startMs then (startTime, endTime)
      else
        let gridMs := cacheSnapSecondsForRange (endMs - startMs) * 1000 in
        let snappedEndMs := endMs / gridMs * gridMs in
        (if anchoredStart then formatWarehouseDateTime startMs
         else formatWarehouseDateTime (snappedEndMs - (endMs - startMs)),
         formatWarehouseDateTime snappedEndMs)
  | _, _ => (startTime, endTime)
  end.

(** [/^\d+[dw]$/] *)
Definition isCalendarAlignedShorthand (shorthand : string) : bool :=
  let trimmed := to_lower (trim shorthand) in
  bool_decide (trimmed = "today"%string) ||
  match span_digits trimmed with
  | (String _ _, unit) => bool_decide (unit = "d"%string) || bool_decide (unit = "w"%string)
  | (EmptyString, _) => false
  end.

Inductive TimeRangeInput :=
  | relative (value : string)
  | absolute (startTime endTime : string).

Definition resolveTimeRangeWindow (zone : Z -> ZonedDateParts) (snap : bool) (nowMs : Z) (timeRange : TimeRangeInput)
    : option (string * string) :=
  match timeRange with
  | absolute startTime endTime =>
      startMs ← parseWarehouseDateTime date_parse startTime;
      endMs ← parseWarehouseDateTime date_parse endTime;
      Some (formatWarehouseDateTime startMs, formatWarehouseDateTime endMs)
  | relative value =>
      resolved ← resolveRelativeRangeToWarehouse zone value nowMs;
      Some (if snap then snapRangeForCache resolved.1 resolved.2 (isCalendarAlignedShorthand value) else resolved)
  end.
End Snap.

(** ** Bucket sizes *)

Definition cdiv (a b : Z) : Z := - (- a / b).

Definition AUTO_BUCKET_LADDER : list Z := [60; 120; 300; 900; 1800; 3600; 14400; 86400].

Record ComputeBucketSecondsOptions := { targetPoints : Z; minBuckets : Z; minBucketSeconds : Z }.

(** [Math.max((endMs - startMs) / 1000, 1)], in milliseconds. *)
Definition range_ms (startMs endMs : Z) : Z := Z.max (endMs - startMs) 1000.

Definition nearest (raw best candidate : Z) : Z :=
  if Z.abs (candidate - raw) <? Z.abs (best - raw) then candidate else best.

(** The coarsest rung that keeps enough buckets, else the finest rung. *)
Definition keep_min_buckets (rungs : list Z) (maxBucketForMin bucket : Z) : Z :=
  if maxBucketForMin <? bucket then
    default (default 0 (head rungs)) (last (List.filter (fun candidate => candidate <=? maxBucketForMin) rungs))
  else bucket.

Definition computeBucketSeconds (startMs endMs : Z) (o : ComputeBucketSecondsOptions) : Z :=
  let rangeMs := range_ms startMs endMs in
  let raw := Z.max (cdiv rangeMs (1000 * targetPoints o)) 1 in
  let ladder := List.filter (fun candidate => minBucketSeconds o <=? candidate) AUTO_BUCKET_LADDER in
  let rungs := match ladder with [] => [86400] | _ => ladder end in
  let bucket := fold_left (nearest raw) rungs (default 0 (head rungs)) in
  keep_min_buckets rungs (rangeMs / (1000 * minBuckets o)) bucket.

Inductive BucketPolicyName := chart | alert | rawSql.

(** The options and the fallback of a policy, with the defaults filled in. *)
Definition BUCKET_POLICIES (name : BucketPolicyName) : ComputeBucketSecondsOptions * Z :=
  match name with
  | chart => ({| targetPoints := 100; minBuckets := 6; minBucketSeconds := 0 |}, 300)
  | alert => ({| targetPoints := 30; minBuckets := 6; minBucketSeconds := 0 |}, 300)
  | rawSql => ({| targetPoints := 30; minBuckets := 6; minBucketSeconds := 300 |}, 300)
  end.

Definition WIDTH_INTERVAL_LADDER : list (Z * Z) :=
  [(90, 60); (210, 120); (450, 300); (750, 600); (1050, 900); (1500, 1200); (2700, 1800); (5400, 3600);
   (9000, 7200); (16200, 10800); (32400, 21600); (86400, 43200); (604800, 86400)].

Definition WIDTH_INTERVAL_MAX_SECONDS : Z := 604800.

(** For [n / d] seconds, [d] positive. *)
Definition roundIntervalSeconds (n d : Z) : Z :=
  match List.find (fun rung => n <? rung.1 * d) WIDTH_INTERVAL_LADDER with
  | Some rung => rung.2
  | None => WIDTH_INTERVAL_MAX_SECONDS
  end.

Definition MAX_AUTO_DATA_POINTS : Z := 1000.
Definition MIN_AUTO_DATA_POINTS : Z := 30.

(** The [while] loop; each round moves up the ladder. *)
Fixpoint coarsen (fuel : nat) (rangeMs bucket : Z) : option Z :=
  if MAX_AUTO_DATA_POINTS <? cdiv rangeMs (1000 * bucket) then
    match List.find (fun rung => bucket <? rung.2) WIDTH_INTERVAL_LADDER with
    | None => Some bucket
    | Some rung => match fuel with O => None | Datatypes.S f => coarsen f rangeMs rung.2 end
    end
  else Some bucket.

Definition computeBucketSecondsForWidth (startMs endMs maxDataPoints minBuckets : Z) : option Z :=
  let maxDataPoints := Z.min MAX_AUTO_DATA_POINTS (Z.max MIN_AUTO_DATA_POINTS maxDataPoints) in
  let rangeMs := range_ms startMs endMs in
  bucket ← coarsen (length WIDTH_INTERVAL_LADDER) rangeMs (roundIntervalSeconds rangeMs (1000 * maxDataPoints));
  Some (keep_min_buckets (List.map snd WIDTH_INTERVAL_LADDER) (rangeMs / (1000 * minBuckets)) bucket).

Section Ranges.
Variable date_parse : string -> option Z.

(** [None] is an absent bound; an empty string is falsy too. *)
Definition parsed_range (startTime endTime : option string) : option (Z * Z) :=
  s ← startTime; e ← endTime;
  if bool_decide (s = EmptyString) || bool_decide (e = EmptyString) then None
  else
    startMs ← parseWarehouseDateTime date_parse s;
    endMs ← parseWarehouseDateTime date_parse e;
    if endMs <=? startMs then None else Some (startMs, endMs).

Definition computeBucketSecondsForRange (startTime endTime : option string) (policyName : BucketPolicyName)
    (target : option Z) : Z :=
  let '(policy, fallback) := BUCKET_POLICIES policyName in
  match parsed_range startTime endTime with
  | None => fallback
  | Some (startMs, endMs) =>
      computeBucketSeconds startMs endMs
        {| targetPoints := default (targetPoints policy) target; minBuckets := minBuckets policy;
           minBucketSeconds := minBucketSeconds policy |}
  end.

Definition computeBucketSecondsForWidthRange (startTime endTime : option string) (maxDataPoints minBuckets : Z)
    : option Z :=
  match parsed_range startTime endTime with
  | None => Some (BUCKET_POLICIES chart).2
  | Some (startMs, endMs) => computeBucketSecondsForWidth startMs endMs maxDataPoints minBuckets
  end.
End Ranges.

Definition formatBucketSecondsShort (seconds : Z) : string :=
  if Z.rem seconds 604800 =? 0 then (show (seconds / 604800) +:+ "w")%string
  else if Z.rem seconds 86400 =? 0 then (show (seconds / 86400) +:+ "d")%string
  else if Z.rem seconds 3600 =? 0 then (show (seconds / 3600) +:+ "h")%string
  else if Z.rem seconds 60 =? 0 then (show (seconds / 60) +:+ "m")%string
  else (show seconds +:+ "s")%string.

Definition floorToBucketMs (epochMs bucketSeconds : Z) : Z :=
  let bucketMs := bucketSeconds * 1000 in epochMs / bucketMs * bucketMs.

Definition ceilToBucketMs (epochMs bucketSeconds : Z) : Z :=
  let bucketMs := bucketSeconds * 1000 in cdiv epochMs bucketMs * bucketMs.

(** For finite bounds. *)
Definition bucketTimeline (startMs endMs bucketSeconds : Z) : list string :=
  if (endMs <? startMs) || (bucketSeconds <=? 0) then []
  else
    let bucketMs := bucketSeconds * 1000 in
    let firstBucketMs := ceilToBucketMs startMs bucketSeconds in
    let lastBucketMs := floorToBucketMs endMs bucketSeconds in
    if lastBucketMs <? firstBucketMs then [toISOString (floorToBucketMs startMs bucketSeconds)]
    else
      List.map toISOString
        (count_up (Z.to_nat ((lastBucketMs - firstBucketMs) / bucketMs + 1)) firstBucketMs lastBucketMs bucketMs).

(** ** Bucket sizes: facts *)

Lemma cdiv_le a b n : 0 < b -> cdiv a b <= n <-> a <= n * b.
Proof. intros Hb. unfold cdiv. split; intros H; Z.to_euclidean_division_equations; nia. Qed.

Lemma cdiv_mono a b c : 0 < b <= c -> 0 <= a -> cdiv a c <= cdiv a b.
Proof. intros H Ha. apply cdiv_le; [lia|]. pose proof (proj1 (cdiv_le a b (cdiv a b) ltac:(lia)) ltac:(lia)). unfold cdiv in *. nia. Qed.

Definition width_rungs : list Z := List.map snd WIDTH_INTERVAL_LADDER.

Definition all_widths : list Z := width_rungs ++ [WIDTH_INTERVAL_MAX_SECONDS].

Lemma round_in_widths n d : roundIntervalSeconds n d ∈ all_widths.
Proof.
  unfold roundIntervalSeconds, all_widths, width_rungs. destruct (List.find _ _) as [rung|] eqn:Hf.
  - apply elem_of_app. left. apply list_elem_of_In, in_map. by apply find_some in Hf as [Hf _].
  - apply elem_of_app. right. by apply list_elem_of_singleton.
Qed.

Definition above (b : Z) : nat := length (List.filter (fun rung => b <? rung.2) WIDTH_INTERVAL_LADDER).

(** The loop ends: at a width the window fits, or at the end of the ladder. *)
Lemma coarsen_ends fuel rangeMs b :
  (above b <= fuel)%nat -> b ∈ all_widths ->
  exists b', coarsen fuel rangeMs b = Some b' /\ b' ∈ all_widths /\ b <= b' /\
    (cdiv rangeMs (1000 * b') <= MAX_AUTO_DATA_POINTS \/ 86400 <= b').
Proof.
  revert b. induction fuel as [|fuel IH]; intros b Hf Hb; cbn [coarsen];
    (destruct (Z.ltb_spec MAX_AUTO_DATA_POINTS (cdiv rangeMs (1000 * b))); [|exists b; split_and!; auto; lia]);
    (destruct (List.find _ _) as [rung|] eqn:Hr;
      [|exists b; split_and!; [done|done|lia|right; pose proof (find_none _ _ Hr (604800, 86400) ltac:(simpl; tauto)) as Hn; simpl in Hn; lia]]).
  - exfalso. apply find_some in Hr as [Hin Hlt]. unfold above in Hf.
    assert (rung ∈ List.filter (fun rung => b <? rung.2) WIDTH_INTERVAL_LADDER) as Hx.
    { apply list_elem_of_In, filter_In. done. }
    destruct (List.filter _ _); [by apply elem_of_nil in Hx|simpl in Hf; lia].
  - assert (Hlt : b < rung.2) by (apply find_some in Hr as [_ ?]; lia).
    assert (Hin : rung ∈ WIDTH_INTERVAL_LADDER) by (apply find_some in Hr as [? _]; by apply list_elem_of_In).
    destruct (IH rung.2) as (b' & -> & Hb' & Hle & Hc).
    + unfold above in *. clear - Hf Hlt Hin.
      assert (Hs : forall l : list (Z * Z), rung ∈ l ->
        (length (List.filter (fun r : Z * Z => Z.ltb rung.2 r.2) l) < length (List.filter (fun r : Z * Z => Z.ltb b r.2) l))%nat).
      { assert (Hle : forall l : list (Z * Z),
          (length (List.filter (fun r : Z * Z => Z.ltb rung.2 r.2) l) <= length (List.filter (fun r : Z * Z => Z.ltb b r.2) l))%nat).
        { induction l as [|r l IHl]; [done|]. cbn.
          destruct (Z.ltb_spec rung.2 r.2), (Z.ltb_spec b r.2); simpl; lia. }
        induction l as [|r l IHl]; intros Hl; [by apply elem_of_nil in Hl|]. cbn.
        apply elem_of_cons in Hl as [<-|Hl].
        - rewrite Z.ltb_irrefl. destruct (Z.ltb_spec b rung.2); [|lia]. simpl. specialize (Hle l). lia.
        - specialize (IHl Hl). destruct (Z.ltb_spec rung.2 r.2), (Z.ltb_spec b r.2); simpl; lia. }
      specialize (Hs _ Hin). lia.
    + apply elem_of_app. left. by apply list_elem_of_In, in_map, list_elem_of_In.
    + exists b'. split_and!; [done|done|lia|done].
Qed.

Lemma last_filter_spec (p : Z -> bool) l x :
  last (List.filter p l) = Some x ->
  x ∈ l /\ p x = true /\ (StronglySorted Z.lt l -> forall y, y ∈ l -> p y = true -> y <= x).
Proof.
  intros H. assert (Hin : x ∈ List.filter p l) by (by apply last_Some_elem_of).
  apply list_elem_of_In, filter_In in Hin as [Hin Hp]. split_and!; [by apply list_elem_of_In|done|].
  intros Hs y Hy Hpy. induction l as [|z l IH]; [by apply elem_of_nil in Hy|].
  apply StronglySorted_inv in Hs as [Hs Hz]. cbn in H. rewrite Forall_forall in Hz.
  assert (Hnil : List.filter p l = [] -> y ∈ l -> False).
  { intros Hn Hyl. assert (y ∈ List.filter p l) as Hf by (apply list_elem_of_In, filter_In; split; [by apply list_elem_of_In|done]).
    rewrite Hn in Hf. by apply elem_of_nil in Hf. }
  destruct (p z) eqn:Hpz.
  - destruct (List.filter p l) as [|f fs] eqn:Hf.
    + injection H as ->. apply elem_of_cons in Hy as [->|Hy]; [lia|by destruct Hnil].
    + assert (Hx : last (List.filter p l) = Some x) by (by rewrite Hf).
      assert (Hxl : x ∈ l).
      { apply last_Some_elem_of in Hx. apply list_elem_of_In, filter_In in Hx as [Hx _]. by apply list_elem_of_In. }
      apply elem_of_cons in Hy as [->|Hy]; [specialize (Hz x Hxl); lia|].
      apply IH; try done. by apply list_elem_of_In.
  - assert (Hxl : x ∈ l).
    { apply last_Some_elem_of in H. apply list_elem_of_In, filter_In in H as [Hx _]. by apply list_elem_of_In. }
    apply elem_of_cons in Hy as [->|Hy]; [congruence|]. apply IH; try done. by apply list_elem_of_In.
Qed.

Lemma last_filter_none (p : Z -> bool) l : last (List.filter p l) = None -> forall x, x ∈ l -> p x = false.
Proof.
  intros H x Hx. apply last_None in H. destruct (p x) eqn:Hp; [|done].
  assert (x ∈ List.filter p l) as Hf by (apply list_elem_of_In, filter_In; split; [by apply list_elem_of_In|done]).
  rewrite H in Hf. by apply elem_of_nil in Hf.
Qed.

Lemma width_bounds b : b ∈ all_widths -> 60 <= b <= 604800.
Proof.
  intros Hb. assert (H : Forall (fun b => 60 <= b <= 604800) all_widths)
    by (apply (bool_decide_unpack _); vm_compute; done).
  rewrite Forall_forall in H. by apply H.
Qed.

(** Every width but the widest has another at most seven times as wide. *)
Lemma next_width x : x ∈ width_rungs -> exists y, (y ∈ width_rungs \/ y = 604800) /\ x < y <= 7 * x.
Proof.
  intros Hx. assert (H : Forall (fun x => Exists (fun y => x < y <= 7 * x) all_widths) width_rungs).
  { apply (bool_decide_unpack _). vm_compute. done. }
  rewrite Forall_forall in H. specialize (H x Hx). apply Exists_exists in H as (y & Hy & Hxy). exists y. split; [|done].
  unfold all_widths in Hy. apply elem_of_app in Hy as [Hy|Hy]; [by left|right]. by apply list_elem_of_singleton in Hy.
Qed.

Lemma width_rungs_sorted : StronglySorted Z.lt width_rungs.
Proof. repeat constructor. Qed.

(** The largest rung that keeps [m] buckets, or the finest: the next coarser
    width would not. *)
Lemma keep_min_widths m b :
  b ∈ all_widths ->
  let b' := keep_min_buckets width_rungs m b in
  b' ∈ all_widths /\ (60 <= m -> b' <= m) /\ (b' = b \/ m < Z.max 60 (7 * b')).
Proof.
  intros Hb. unfold keep_min_buckets. cbv zeta. pose proof (width_bounds b Hb).
  destruct (Z.ltb_spec m b) as [Hlt|Hge]; [|split_and!; [done|lia|by left]].
  destruct (last (List.filter (fun c => c <=? m) width_rungs)) as [x|] eqn:Hl; cbn [default from_option id].
  - apply last_filter_spec in Hl as (Hx & Hxm & Hmax). specialize (Hmax width_rungs_sorted). unfold id.
    split_and!; [by apply elem_of_app; left|lia|right].
    destruct (next_width x Hx) as (y & [Hy| ->] & Hxy); [|lia].
    destruct (Z.leb_spec y m); [specialize (Hmax y Hy ltac:(lia)); lia|lia].
  - assert (Hm : (60 <=? m) = false) by (by apply (last_filter_none _ _ Hl), list_elem_of_here).
    change (default 0 (head width_rungs)) with 60. split_and!; [by apply elem_of_app; left; apply list_elem_of_here|lia|right; lia].
Qed.

(** The width model always picks a width of its ladder; over any
    window of up to a thousand days it stays within its budget of 1000 points,
    and a window that has room for the requested number of one-minute buckets
    gets at least that many. Beyond a thousand days the ladder has nothing
    coarser than a day to move to and the budget is exceeded. *)
Theorem width_budget_kept startMs endMs maxDataPoints minBuckets :
  1 <= minBuckets <= 142 ->
  exists b, computeBucketSecondsForWidth startMs endMs maxDataPoints minBuckets = Some b /\ b ∈ all_widths /\
    (range_ms startMs endMs <= 1000 * 86400 * 1000 -> cdiv (range_ms startMs endMs) (1000 * b) <= MAX_AUTO_DATA_POINTS) /\
    (60 * 1000 * minBuckets <= range_ms startMs endMs -> minBuckets <= range_ms startMs endMs / (1000 * b)).
Proof.
  intros Hm. unfold computeBucketSecondsForWidth. set (R := range_ms startMs endMs).
  assert (HR : 1000 <= R) by (unfold R, range_ms; lia).
  set (n := roundIntervalSeconds _ _). assert (Hn : n ∈ all_widths) by apply round_in_widths.
  destruct (coarsen_ends (length WIDTH_INTERVAL_LADDER) R n) as (b & -> & Hb & _ & Hc);
    [unfold above; apply filter_length_le|done|].
  cbn [mbind option_bind]. set (m := R / (1000 * minBuckets)).
  pose proof (keep_min_widths m b Hb) as Hk. cbv zeta in Hk. fold width_rungs.
  set (b' := keep_min_buckets width_rungs m b) in *. destruct Hk as (Hb' & Hlow & Hhigh).
  assert (Hpos : 60 <= b') by (by apply width_bounds).
  exists b'. split_and!; [done|done| |].
  - intros Hr. unfold MAX_AUTO_DATA_POINTS in *. apply cdiv_le; [lia|].
    clearbody b'. destruct Hhigh as [->|Hhigh].
    + destruct Hc as [Hc|Hc]; [apply cdiv_le in Hc; [lia|lia]|lia].
    + assert (R < 1000 * minBuckets * (m + 1)).
      { unfold m. pose proof (Z.mul_succ_div_gt R (1000 * minBuckets) ltac:(lia)). lia. }
      assert (m + 1 <= Z.max 60 (7 * b')) by lia.
      assert (Hx : 1000 * minBuckets * (m + 1) <= 1000 * 142 * Z.max 60 (7 * b')).
      { assert (0 <= m) by (unfold m; apply Z.div_pos; lia). clearbody m. nia. }
      set (x := 1000 * minBuckets * (m + 1)) in *. clearbody x. lia.
  - intros Hr. assert (60 <= m) by (unfold m; apply Z.div_le_lower_bound; lia).
    apply Z.div_le_lower_bound; [lia|].
    assert (1000 * minBuckets * m <= R) by (unfold m; apply Z.mul_div_le; lia).
    specialize (Hlow ltac:(lia)). nia.
Qed.

Example width_budget_kept_witness :
  computeBucketSecondsForWidth 0 (7 * 86400000) 1400 6 = Some 900 /\ cdiv (7 * 86400000) (1000 * 900) <= MAX_AUTO_DATA_POINTS.
Proof.
  destruct (width_budget_kept 0 (7 * 86400000) 1400 6 ltac:(lia)) as (b & Hb & _ & Hbudget & _).
  assert (b = 900) as -> by (vm_compute in Hb; congruence). split; [exact Hb|].
  apply Hbudget. vm_compute. congruence.
Defined.

(** Two thousand days at a thousand pixels: 2000 points. *)
Example width_budget_exceeded :
  computeBucketSecondsForWidth 0 (2000 * 86400000) 1000 6 = Some 86400 /\
  cdiv (2000 * 86400000) (1000 * 86400) = 2000.
Proof. split; vm_compute; reflexivity. Qed.

Lemma nearest_spec raw rungs best :
  let b := fold_left (nearest raw) rungs best in
  (b = best \/ b ∈ rungs) /\ Z.abs (b - raw) <= Z.abs (best - raw) /\
  (forall r, r ∈ rungs -> Z.abs (b - raw) <= Z.abs (r - raw)).
Proof.
  revert best. induction rungs as [|r rungs IH]; intros best; cbn [fold_left].
  { split_and!; [by left|lia|]. by intros r ?%elem_of_nil. }
  destruct (IH (nearest raw best r)) as (Hin & Hle & Hall). cbv zeta in *.
  set (b := fold_left (nearest raw) rungs (nearest raw best r)) in *.
  assert (Hn : (nearest raw best r = best \/ nearest raw best r = r) /\
               Z.abs (nearest raw best r - raw) <= Z.abs (best - raw) /\
               Z.abs (nearest raw best r - raw) <= Z.abs (r - raw)).
  { unfold nearest. destruct (Z.ltb_spec (Z.abs (r - raw)) (Z.abs (best - raw))); auto with lia. }
  split_and!.
  - destruct Hin as [->|Hin]; [destruct Hn as [[->| ->] _]; [by left|right; by apply list_elem_of_here]|right; set_solver].
  - lia.
  - intros x [->|Hx]%elem_of_cons; [lia|by apply Hall].
Qed.

(** The fixed-target model picks a rung not below the caller's floor; the
    rung nearest to the target width when that leaves enough buckets, and
    otherwise a rung that leaves enough, or the finest one there is. *)
Theorem auto_bucket_choice startMs endMs o :
  1 <= minBuckets o ->
  let rangeMs := range_ms startMs endMs in
  let raw := Z.max (cdiv rangeMs (1000 * targetPoints o)) 1 in
  let rungs := List.filter (fun r => minBucketSeconds o <=? r) AUTO_BUCKET_LADDER in
  let b := computeBucketSeconds startMs endMs o in
  b ∈ AUTO_BUCKET_LADDER /\
  (minBucketSeconds o <= 86400 -> minBucketSeconds o <= b) /\
  (minBuckets o <= rangeMs / (1000 * b) \/ forall r, r ∈ rungs -> b <= r) /\
  ((forall r, r ∈ rungs -> Z.abs (b - raw) <= Z.abs (r - raw)) \/
   exists r, r ∈ rungs /\ b < r /\ rangeMs / (1000 * r) < minBuckets o \/ rungs = []).
Proof.
  intros Hm. cbv zeta. unfold computeBucketSeconds. set (R := range_ms startMs endMs).
  set (raw := Z.max _ 1). set (ladder := List.filter _ AUTO_BUCKET_LADDER).
  assert (HR : 1000 <= R) by (unfold R, range_ms; lia).
  assert (Hladder : ladder = [] /\ 86400 < minBucketSeconds o \/
                    exists r rest, ladder = r :: rest /\ (forall x, x ∈ rest -> r <= x)).
  { unfold ladder, AUTO_BUCKET_LADDER. cbn [List.filter].
    repeat match goal with |- context [minBucketSeconds o <=? ?c] => destruct (Z.leb_spec (minBucketSeconds o) c); try lia end;
      first [left; split; [done|lia] | right; eexists _, _; split; [reflexivity|intros x Hx;
        repeat (apply elem_of_cons in Hx as [->|Hx]; [lia|]); by apply elem_of_nil in Hx]]. }
  destruct Hladder as [[-> Hbig]|(r0 & rest & Hl & Hmin)].
  { assert (Hb : keep_min_buckets [86400] (R / (1000 * minBuckets o)) (fold_left (nearest raw) [86400] (default 0 (head [86400]))) = 86400).
    { cbn. unfold nearest. rewrite Z.ltb_irrefl. unfold keep_min_buckets. cbn. by repeat case_match. }
    rewrite Hb. split_and!; [unfold AUTO_BUCKET_LADDER; set_solver|lia|right; by intros r ?%elem_of_nil|right].
    exists 0. by right. }
  assert (Hsub : forall x, x ∈ ladder -> x ∈ AUTO_BUCKET_LADDER /\ minBucketSeconds o <= x).
  { intros x Hx. apply list_elem_of_In, filter_In in Hx as [H1 H2]. split; [by apply list_elem_of_In|lia]. }
  assert (Hpos : forall x, x ∈ AUTO_BUCKET_LADDER -> 60 <= x).
  { intros x Hx. unfold AUTO_BUCKET_LADDER in Hx. repeat (apply elem_of_cons in Hx as [->|Hx]; [lia|]). by apply elem_of_nil in Hx. }
  replace (match ladder with [] => [86400] | _ :: _ => ladder end) with ladder by (by rewrite Hl).
  assert (Hhead : default 0 (head ladder) = r0) by (by rewrite Hl). rewrite Hhead.
  assert (Hr0 : r0 ∈ ladder) by (rewrite Hl; apply list_elem_of_here).
  assert (Hfin : forall x, x ∈ ladder -> r0 <= x).
  { intros x Hx. rewrite Hl in Hx. apply elem_of_cons in Hx as [->|Hx]; [lia|by apply Hmin]. }
  destruct (nearest_spec raw ladder r0) as (Hin & _ & Hnear). cbv zeta in *.
  set (b0 := fold_left (nearest raw) ladder r0) in *.
  assert (Hb0 : b0 ∈ ladder) by (destruct Hin as [->|]; done).
  unfold keep_min_buckets. rewrite Hhead. set (m := R / (1000 * minBuckets o)).
  assert (Hbuckets : forall x, 60 <= x -> (x <= m <-> minBuckets o <= R / (1000 * x))).
  { intros x Hx. unfold m. split; intros H.
    - apply Z.div_le_lower_bound; [lia|]. pose proof (Z.mul_div_le R (1000 * minBuckets o) ltac:(lia)). nia.
    - apply Z.div_le_lower_bound; [lia|]. pose proof (Z.mul_div_le R (1000 * x) ltac:(lia)). nia. }
  assert (Hb60 : 60 <= b0) by (by apply Hpos, Hsub).
  destruct (Z.ltb_spec m b0) as [Hlt|Hge].
  - assert (Hover : exists r, (r ∈ ladder /\ b0 <= r /\ R / (1000 * r) < minBuckets o)).
    { exists b0. split_and!; [done|lia|]. pose proof (Hbuckets b0 Hb60). lia. }
    destruct (last (List.filter (fun c => c <=? m) ladder)) as [x|] eqn:Hlast; cbn [default from_option].
    + apply last_filter_spec in Hlast as (Hx & Hxm & _). unfold id.
      split_and!; [by apply Hsub|intros _; by apply Hsub|left; apply Hbuckets; [by apply Hpos, Hsub|lia]|right].
      destruct Hover as (r & H1 & H2 & H3). exists r. left. split_and!; [done|lia|done].
    + split_and!; [by apply Hsub|intros _; by apply Hsub|by right|].
      destruct (decide (r0 = b0)) as [Heq|Hne]; [left; rewrite Heq; exact Hnear|right]. exists b0. left.
      split_and!; [done|specialize (Hfin b0 Hb0); lia|]. pose proof (Hbuckets b0 Hb60). lia.
  - split_and!; [by apply Hsub|intros _; by apply Hsub|left; by apply Hbuckets|by left].
Qed.

(** ** The cache grid: facts *)

Lemma snap_seconds rangeMs :
  cacheSnapSecondsForRange rangeMs ∈ [15; 60; 300; 900; 1800] /\
  (cacheSnapSecondsForRange rangeMs = 15 \/ 60000 * cacheSnapSecondsForRange rangeMs < rangeMs).
Proof.
  unfold cacheSnapSecondsForRange, CACHE_SNAP_FALLBACK_SECONDS. destruct (rangeMs <=? 0) eqn:H0; [split; [set_solver|by left]|].
  unfold CACHE_SNAP_LADDER. cbn [List.find fst snd].
  repeat match goal with |- context [rangeMs <=? ?c] => destruct (Z.leb_spec rangeMs c) end;
    cbn [snd]; (split; [rewrite !elem_of_cons; tauto|first [by left | right; lia]]).
Qed.

Section SnapFacts.
Variable date_parse : string -> option Z.
Hypothesis Hparse : reads_instants date_parse.

(** Snapping a window to the cache grid keeps its width, moves its end back
    by less than a grid step, which is at most a sixtieth of the window or of
    fifteen minutes, and gives every window of the same width that ends in the
    same grid step the same pair of strings. *)
Theorem snapped_window_holds_still startTime endTime s e :
  parseWarehouseDateTime date_parse startTime = Some s -> parseWarehouseDateTime date_parse endTime = Some e ->
  s <= e -> (e - s) mod 1000 = 0 -> four_digit_year (s - 1800000) -> four_digit_year e ->
  let grid := cacheSnapSecondsForRange (e - s) * 1000 in
  exists s' e',
    (parseWarehouseDateTime date_parse (snapRangeForCache date_parse startTime endTime false).1 = Some s' /\
     parseWarehouseDateTime date_parse (snapRangeForCache date_parse startTime endTime false).2 = Some e') /\
    e' - s' = e - s /\ e' <= e < e' + grid /\ 60 * grid <= Z.max (e - s) 900000 /\
    (forall startTime2 endTime2 s2 e2,
       parseWarehouseDateTime date_parse startTime2 = Some s2 -> parseWarehouseDateTime date_parse endTime2 = Some e2 ->
       e2 - s2 = e - s -> e' <= e2 < e' + grid ->
       snapRangeForCache date_parse startTime2 endTime2 false = snapRangeForCache date_parse startTime endTime false).
Proof.
  intros Hs He Hle Hw Hs4 He4 grid.
  pose proof (snap_seconds (e - s)) as [Hin Hsnap].
  assert (Hg : 15000 <= grid <= 1800000 /\ grid mod 1000 = 0).
  { unfold grid. split; [|by apply Z.mod_mul]. clear Hsnap.
    repeat (apply elem_of_cons in Hin as [->|Hin]; [lia|]). by apply elem_of_nil in Hin. }
  assert (Hsnap2 : forall st en s0 e0, parseWarehouseDateTime date_parse st = Some s0 ->
    parseWarehouseDateTime date_parse en = Some e0 -> e0 - s0 = e - s ->
    snapRangeForCache date_parse st en false =
      (formatWarehouseDateTime (e0 / grid * grid - (e - s)), formatWarehouseDateTime (e0 / grid * grid))).
  { intros st en s0 e0 H1 H2 H3. unfold snapRangeForCache. rewrite H1, H2.
    destruct (Z.ltb_spec e0 s0); [lia|]. cbv zeta. rewrite H3. done. }
  rewrite (Hsnap2 _ _ s e) by done. cbn [fst snd].
  assert (He' : e / grid * grid <= e < e / grid * grid + grid).
  { pose proof (Z.mul_div_le e grid ltac:(lia)). pose proof (Z.mul_succ_div_gt e grid ltac:(lia)). lia. }
  assert (Hsec : (e / grid * grid) mod 1000 = 0).
  { destruct Hg as [_ Hg]. apply Z.mod_divide in Hg as [k Hk]; [|done]. rewrite Hk.
    rewrite Z.mul_assoc. by apply Z.mod_mul. }
  set (e' := e / grid * grid) in *.
  assert (Hwhole : forall x, x mod 1000 = 0 -> four_digit_year x ->
            parseWarehouseDateTime date_parse (formatWarehouseDateTime x) = Some x).
  { intros x Hx H4. rewrite (proj1 (parse_formatted date_parse Hparse x H4)). f_equal.
    Z.to_euclidean_division_equations; lia. }
  exists (e' - (e - s)), e'. unfold four_digit_year in *. split_and!; try lia.
  - apply Hwhole; [|unfold four_digit_year; lia]. rewrite Zminus_mod, Hsec, Hw. done.
  - apply Hwhole; [done|]. unfold four_digit_year; lia.
  - intros st2 en2 s2 e2 H1 H2 H3 H4. rewrite (Hsnap2 _ _ s2 e2) by done.
    assert (e2 / grid * grid = e') as ->; [|done]. unfold e' in *. f_equal.
    symmetry. apply (Z.div_unique e2 grid _ (e2 - e / grid * grid)); lia.
Qed.
End SnapFacts.

Example snapped_window_holds_still_witness :
  let w := snapRangeForCache rfc3339_parse "2026-08-25 07:47:52" "2026-08-25 08:47:52" false in
  w = ("2026-08-25 07:47:45", "2026-08-25 08:47:45")%string /\
  snapRangeForCache rfc3339_parse "2026-08-25 07:47:58" "2026-08-25 08:47:58" false = w.
Proof.
  split; [vm_compute; reflexivity|].
  destruct (snapped_window_holds_still rfc3339_parse rfc3339_reads "2026-08-25 07:47:52" "2026-08-25 08:47:52"
    1787644072000 1787647672000) as (s' & e' & [_ He'] & _ & _ & _ & H);
    [vm_compute; reflexivity|vm_compute; reflexivity|lia|vm_compute; reflexivity|unfold four_digit_year; lia|unfold four_digit_year; lia|].
  apply (H _ _ 1787644078000 1787647678000); [vm_compute; reflexivity|vm_compute; reflexivity|lia|].
  vm_compute in He'. injection He' as <-. vm_compute. split; congruence.
Defined.

(** A window of five minutes drifts by up to a twentieth of its width. *)
Example short_window_drift : cacheSnapSecondsForRange (5 * 60000) * 1000 * 20 = 5 * 60000.
Proof. vm_compute. reflexivity. Qed.

(** ** Timelines *)

Lemma cdiv_bounds a b : 0 < b -> a <= cdiv a b * b < a + b.
Proof. intros Hb. unfold cdiv. Z.to_euclidean_division_equations; nia. Qed.

(** The timeline of a window is never empty; its buckets are the aligned
    instants of the window, or one bucket around its start when none lies inside. *)
Lemma bucketTimeline_spec startMs endMs bucketSeconds :
  startMs <= endMs -> 0 < bucketSeconds ->
  exists starts, bucketTimeline startMs endMs bucketSeconds = List.map toISOString starts /\ starts <> [] /\
    (forall x, x ∈ starts -> (bucketSeconds * 1000 | x)) /\
    ((forall x, startMs <= x <= endMs -> (bucketSeconds * 1000 | x) -> x ∈ starts) /\
     ((exists x, startMs <= x <= endMs /\ (bucketSeconds * 1000 | x)) -> forall x, x ∈ starts -> startMs <= x <= endMs)).
Proof.
  intros Hle Hb. unfold bucketTimeline. destruct (endMs <? startMs) eqn:H1; [lia|]. destruct (bucketSeconds <=? 0) eqn:H2; [lia|].
  simpl orb. cbv iota zeta. set (step := bucketSeconds * 1000).
  set (first := ceilToBucketMs startMs bucketSeconds). set (stop := floorToBucketMs endMs bucketSeconds).
  assert (Hf : startMs <= first < startMs + step) by (apply cdiv_bounds; lia).
  assert (Hl : stop <= endMs < stop + step).
  { unfold stop, floorToBucketMs. fold step. pose proof (Z.mul_div_le endMs step ltac:(lia)).
    pose proof (Z.mul_succ_div_gt endMs step ltac:(lia)). lia. }
  assert (Hfd : (step | first)) by (by exists (cdiv startMs step)).
  assert (Hld : (step | stop)) by (by exists (endMs / step)).
  assert (Hin : forall x, (step | x) -> startMs <= x <= endMs -> first <= x <= stop).
  { intros x [k ->] Hx. destruct Hfd as [a Ha], Hld as [b Hb'].
    assert (0 < step) by lia. clearbody step first stop.
    assert (a - 1 < k) by (apply (Z.mul_lt_mono_pos_r step); lia).
    assert (k < b + 1) by (apply (Z.mul_lt_mono_pos_r step); lia).
    rewrite Ha, Hb'. split; apply Z.mul_le_mono_nonneg_r; lia. }
  destruct (Z.ltb_spec stop first) as [Hlt|Hge].
  - exists [floorToBucketMs startMs bucketSeconds]. split_and!; [done|done| |intros x Hx Hd; specialize (Hin x Hd Hx); lia|].
    + intros x ->%list_elem_of_singleton. by exists (startMs / step).
    + intros (x & Hx & Hd). specialize (Hin x Hd Hx). lia.
  - eexists. split; [reflexivity|].
    assert (Hel : forall x, x ∈ count_up (Z.to_nat ((stop - first) / step + 1)) first stop step <->
                            first <= x <= stop /\ (step | x - first)).
    { intros x. apply elem_of_count_up; [lia|]. assert (0 <= (stop - first) / step) by (apply Z.div_pos; lia). lia. }
    split_and!.
    + intros Hnil. assert (first ∈ count_up (Z.to_nat ((stop - first) / step + 1)) first stop step) as Hx.
      { apply Hel. split; [lia|]. rewrite Z.sub_diag. apply Z.divide_0_r. }
      rewrite Hnil in Hx. by apply elem_of_nil in Hx.
    + intros x [_ Hx]%Hel. replace x with (x - first + first) by lia. by apply Z.divide_add_r.
    + intros x Hx Hd. apply Hel. split; [by apply Hin|]. by apply Z.divide_sub_r.
    + intros _ x [Hx _]%Hel. lia.
Qed.

(** ** Wall clocks and relative windows: facts *)

(** From the year 100 on, where [Date.UTC] takes the year as it is. *)
Definition plain_year (ms : Z) : Prop := -59011459200000 <= ms.

Lemma plain_year_civil days year month day :
  -683003 <= days -> civil_from_days days = (year, month, day) -> 100 <= year.
Proof.
  intros Hd (Hm & Hmo & Hday)%civil_from_days_make. unfold make_day in Hm.
  pose proof (days_before_bounds year (Z.to_nat (month - 1)) ltac:(lia)) as Hb.
  replace (Z.of_nat (Z.to_nat (month - 1)) + 1) with month in Hb by lia.
  pose proof (day_from_year_next year).
  destruct (Z.le_gt_cases 100 year); [done|]. pose proof (day_from_year_mono (year + 1) 100 ltac:(lia)).
  change (day_from_year 100) with (-683003) in *. lia.
Qed.

(** The day [back] days before that of [ms], at a time of day. *)
Lemma date_utc_days_back ms back hour minute second :
  plain_year ms ->
  let p := utc_parts ms in
  date_utc (zp_year p) (zp_month p - 1) (zp_day p - back) hour minute second =
    (ms / 86400000 - back) * 86400000 + hour * 3600000 + minute * 60000 + second * 1000.
Proof.
  intros Hp. cbv zeta. unfold utc_parts. destruct (civil_from_days (ms / 86400000)) as [[y m] d] eqn:Hc. simpl.
  assert (Hd : -683003 <= ms / 86400000) by (unfold plain_year in Hp; clear Hc; Z.to_euclidean_division_equations; lia).
  pose proof (plain_year_civil _ _ _ _ Hd Hc) as Hy. apply civil_from_days_make in Hc as (Hm & Hmo & Hday).
  unfold date_utc. rewrite (proj2 (andb_false_iff _ _)) by lia.
  rewrite (Z.div_small (m - 1) 12), (Z.mod_small (m - 1) 12) by lia.
  replace (y + 0) with y by lia. replace (m - 1 + 1) with m by lia.
  unfold utc_millis, make_day in *. lia.
Qed.

Lemma parts_utc_parts ms : plain_year ms -> parts_utc (utc_parts ms) = ms / 1000 * 1000.
Proof.
  intros Hp. unfold parts_utc. pose proof (date_utc_days_back ms 0 (zp_hour (utc_parts ms)) (zp_minute (utc_parts ms))
    (zp_second (utc_parts ms)) Hp) as H. cbv zeta in H. rewrite Z.sub_0_r in H. rewrite H.
  unfold utc_parts. destruct (civil_from_days _) as [[y m] d]. simpl. clear. Z.to_euclidean_division_equations; lia.
Qed.

Lemma find_sorted_le (p : Z -> bool) l t :
  StronglySorted (fun a b => a - b <= 0) l -> t ∈ l -> p t = true -> exists r, List.find p l = Some r /\ p r = true /\ r <= t.
Proof.
  induction l as [|x l IH]; intros Hs Ht Hp; [by apply elem_of_nil in Ht|]. cbn.
  apply StronglySorted_inv in Hs as [Hs Hall]. destruct (p x) eqn:Hx.
  - exists x. split_and!; [done|done|]. apply elem_of_cons in Ht as [->|Ht]; [lia|].
    rewrite Forall_forall in Hall. specialize (Hall t Ht). lia.
  - apply elem_of_cons in Ht as [->|Ht]; [congruence|auto].
Qed.

Lemma utc_millis_whole y m d h mi s :
  utc_millis y m d h mi s = (make_day y m d * 86400 + h * 3600 + mi * 60 + s) * 1000.
Proof. unfold utc_millis. lia. Qed.

(** In any zone, the instant computed for a wall clock shows that clock
    again, and is the earliest that does among the offsets tried, whenever some
    whole second shows it at one of the offsets the zone uses within half a day. *)
Theorem wall_clock_reads_back (zone : Z -> ZonedDateParts) (parts : ZonedDateParts) (t : Z) :
  let asUtc := parts_utc parts in
  plain_year asUtc -> t mod 1000 = 0 -> zone t = utc_parts asUtc ->
  timeZoneOffsetMs zone t ∈ List.map (timeZoneOffsetMs zone) [asUtc - HALF_DAY_MS; asUtc; asUtc + HALF_DAY_MS] ->
  zone (zonedPartsToEpochMs zone parts) = utc_parts asUtc /\ zonedPartsToEpochMs zone parts <= t.
Proof.
  intros asUtc Hp Ht Hzone Hoff. unfold zonedPartsToEpochMs. fold asUtc.
  set (candidates := js_sort _ _).
  assert (Hfloor : asUtc mod 1000 = 0).
  { unfold asUtc, parts_utc, date_utc. by rewrite utc_millis_whole, Z.mod_mul. }
  assert (Hin : t ∈ candidates).
  { unfold candidates. rewrite elem_of_js_sort. apply list_elem_of_In, in_map_iff.
    exists (timeZoneOffsetMs zone t). split.
    - unfold timeZoneOffsetMs. rewrite Hzone, parts_utc_parts by done. clear - Ht Hfloor.
      Z.to_euclidean_division_equations; lia.
    - apply list_elem_of_In, elem_of_dedupe. exact Hoff. }
  destruct (find_sorted_le (reads_back zone asUtc) candidates t) as (r & -> & Hr & Hle); [|done| |].
  - apply js_sort_sorted. split; intros; lia.
  - unfold reads_back. by apply bool_decide_eq_true.
  - split; [|done]. unfold reads_back in Hr. by apply bool_decide_eq_true in Hr.
Qed.

Lemma utc_offset ms : plain_year ms -> timeZoneOffsetMs utc_parts ms = 0.
Proof. intros H. unfold timeZoneOffsetMs. rewrite parts_utc_parts by done. lia. Qed.

(** In UTC a wall clock is the instant its components name. *)
Lemma utc_zone_instant parts :
  plain_year (parts_utc parts - HALF_DAY_MS) -> zonedPartsToEpochMs utc_parts parts = parts_utc parts.
Proof.
  intros H. unfold zonedPartsToEpochMs. set (asUtc := parts_utc parts) in *.
  assert (HALF_DAY_MS = 43200000) as Hh by done. unfold plain_year in *. cbn [List.map].
  rewrite !utc_offset by (unfold plain_year; lia).
  change (dedupe [0; 0; 0]) with [0]. cbn [List.map js_sort insert_by List.find]. rewrite Z.sub_0_r.
  change (js_sort _ [asUtc]) with [asUtc]. cbn [List.find]. unfold reads_back. by rewrite bool_decide_eq_true_2.
Qed.

Lemma utc_day_back ms back :
  plain_year ms -> plain_year ((ms / 86400000 - back) * 86400000 - HALF_DAY_MS) ->
  startOfDayDaysBack utc_parts ms back = (ms / 86400000 - back) * 86400000.
Proof.
  intros Hms Hp. unfold startOfDayDaysBack.
  assert (Hu : parts_utc (at_midnight (utc_parts ms) (zp_day (utc_parts ms) - back)) = (ms / 86400000 - back) * 86400000).
  { unfold parts_utc, at_midnight. cbn [zp_year zp_month zp_day zp_hour zp_minute zp_second]. pose proof (date_utc_days_back ms back 0 0 0 Hms) as H. cbv zeta in H. rewrite H. lia. }
  rewrite utc_zone_instant; rewrite Hu; [done|exact Hp].
Qed.

Lemma start_of_day_is_day_back ms : startOfDayInTimeZone utc_parts ms = startOfDayDaysBack utc_parts ms 0.
Proof. unfold startOfDayInTimeZone, startOfDayDaysBack. by rewrite Z.sub_0_r. Qed.

Lemma relative_unit s amount unit :
  match_relative s = Some (amount, unit) -> unit ∈ ["mo"; "m"; "h"; "d"; "w"]%string.
Proof.
  unfold match_relative. destruct (span_digits s) as [[|c ds] u]; [done|]. case_bool_decide as Hu; [|done].
  destruct (digits_value _ _); [|done]. cbn. by intros [= _ <-].
Qed.

(** In the UTC zone a shorthand that does not count months resolves to a
    window ending now, at least as recent as its nominal duration; minutes and
    hours span exactly that duration, days and weeks start at the midnight that
    makes today the last of them, and a shorthand the grammar refuses has
    neither a duration nor a window. *)
Theorem relative_window_within_nominal shorthand nowMs :
  (forall amount, match_relative (to_lower (trim shorthand)) <> Some (amount, "mo"%string)) ->
  match relativeRangeSeconds shorthand with
  | None => resolveRelativeRange utc_parts shorthand nowMs = None
  | Some seconds =>
      plain_year (nowMs - seconds * 1000 - HALF_DAY_MS) ->
      exists startMs, resolveRelativeRange utc_parts shorthand nowMs = Some {| er_startMs := startMs; er_endMs := nowMs |} /\
        nowMs - seconds * 1000 <= startMs <= nowMs /\
        (startMs = nowMs - seconds * 1000 \/
         startMs mod 86400000 = 0 /\ nowMs - seconds * 1000 < startMs /\ (seconds * 1000) mod 86400000 = 0)
  end.
Proof.
  intros Hmo. unfold relativeRangeSeconds, resolveRelativeRange. set (s := to_lower (trim shorthand)) in *.
  assert (Hdays : forall n, 1 <= n -> plain_year (nowMs - n * 86400 * 1000 - HALF_DAY_MS) ->
    let startMs := startOfDayDaysBack utc_parts nowMs (n - 1) in
    nowMs - n * 86400 * 1000 < startMs <= nowMs /\ startMs mod 86400000 = 0).
  { intros n Hn Hp. cbv zeta. unfold plain_year, HALF_DAY_MS in Hp.
    rewrite utc_day_back by (unfold plain_year, HALF_DAY_MS; Z.to_euclidean_division_equations; lia).
    split; [Z.to_euclidean_division_equations; lia|by apply Z.mod_mul]. }
  case_bool_decide as Ht.
  - intros Hp. eexists. split; [reflexivity|]. rewrite start_of_day_is_day_back.
    pose proof (Hdays 1 ltac:(lia) Hp) as [H1 H2]. change (1 - 1) with 0 in *.
    split; [lia|right]. split_and!; [done|lia|done].
  - destruct (match_relative s) as [[amount unit]|] eqn:Hm; [|done]. cbn [mbind option_bind].
    destruct (Z.leb_spec amount 0); [done|]. pose proof (relative_unit _ _ _ Hm) as Hu.
    unfold MS. rewrite !elem_of_cons in Hu.
    destruct Hu as [->|[->|[->|[->|[->|Hu]]]]]; [by destruct (Hmo amount)| | | | |by apply elem_of_nil in Hu];
      repeat match goal with |- context [bool_decide (?a = ?b)] =>
        first [rewrite (bool_decide_eq_true_2 (a = b)) by done | rewrite (bool_decide_eq_false_2 (a = b)) by done] end;
      cbn [mbind option_bind orb];
      intros Hp; eexists; (split; [reflexivity|]).
    + replace (amount * 60000 / 1000) with (amount * 60) in * by (Z.to_euclidean_division_equations; lia). lia.
    + replace (amount * 3600000 / 1000) with (amount * 3600) in * by (Z.to_euclidean_division_equations; lia). lia.
    + replace (amount * 86400000 / 1000) with (amount * 86400) in * by (Z.to_euclidean_division_equations; lia).
      pose proof (Hdays amount ltac:(lia) Hp) as [H1 H2]. cbv zeta in *.
      split; [lia|right]. split_and!; [done|lia|]. replace (amount * 86400 * 1000) with (amount * 86400000) by lia. by apply Z.mod_mul.
    + replace (amount * 604800000 / 1000) with (amount * 7 * 86400) in * by (Z.to_euclidean_division_equations; lia).
      pose proof (Hdays (amount * 7) ltac:(lia) Hp) as [H1 H2]. cbv zeta in *.
      split; [lia|right]. split_and!; [done|lia|]. replace (amount * 7 * 86400 * 1000) with (amount * 7 * 86400000) by lia. by apply Z.mod_mul.
Qed.

Example auto_bucket_choice_witness :
  computeBucketSeconds 0 3600000 (BUCKET_POLICIES chart).1 = 60 /\ 60 ∈ AUTO_BUCKET_LADDER /\
  6 <= range_ms 0 3600000 / (1000 * 60).
Proof.
  destruct (auto_bucket_choice 0 3600000 (BUCKET_POLICIES chart).1 ltac:(simpl; lia)) as (H1 & _ & [H2|H2] & _).
  - split_and!; [vm_compute; reflexivity|exact H1|exact H2].
  - split_and!; [vm_compute; reflexivity|exact H1|vm_compute; congruence].
Defined.

(** A zone that moves from one hour ahead of UTC to two on 2026-03-29. *)
Definition spring_zone (t : Z) : ZonedDateParts := utc_parts (t + (if t <? 1774746000000 then 3600000 else 7200000)).

Example wall_clock_reads_back_witness :
  let midnight := {| zp_year := 2026; zp_month := 3; zp_day := 30; zp_hour := 0; zp_minute := 0; zp_second := 0 |} in
  zonedPartsToEpochMs spring_zone midnight = 1774821600000 /\ spring_zone (zonedPartsToEpochMs spring_zone midnight) = midnight.
Proof.
  cbv zeta. split; [vm_compute; reflexivity|].
  destruct (wall_clock_reads_back spring_zone
    {| zp_year := 2026; zp_month := 3; zp_day := 30; zp_hour := 0; zp_minute := 0; zp_second := 0 |} 1774821600000) as [H _];
    [unfold plain_year; vm_compute; congruence|vm_compute; reflexivity|vm_compute; reflexivity| |].
  - vm_compute. apply list_elem_of_here.
  - rewrite H. vm_compute. reflexivity.
Defined.

(** The hour the clocks skip: 02:30 does not exist on 2026-03-29, and is moved forward. *)
Example skipped_hour :
  spring_zone (zonedPartsToEpochMs spring_zone
    {| zp_year := 2026; zp_month := 3; zp_day := 29; zp_hour := 2; zp_minute := 30; zp_second := 0 |}) =
  {| zp_year := 2026; zp_month := 3; zp_day := 29; zp_hour := 3; zp_minute := 30; zp_second := 0 |}.
Proof. vm_compute. reflexivity. Qed.

Example relative_window_within_nominal_witness :
  exists startMs, resolveRelativeRange utc_parts " 7D " 1787647672000 = Some {| er_startMs := startMs; er_endMs := 1787647672000 |} /\
    1787647672000 - 604800000 <= startMs <= 1787647672000.
Proof.
  assert (Hmo : forall amount, match_relative (to_lower (trim " 7D ")) <> Some (amount, "mo"%string))
    by (intros amount H; vm_compute in H; congruence).
  pose proof (relative_window_within_nominal " 7D " 1787647672000 Hmo) as H.
  assert (Hs : relativeRangeSeconds " 7D " = Some 604800) by (vm_compute; reflexivity). rewrite Hs in H.
  destruct H as (startMs & H1 & H2 & _); [unfold plain_year; vm_compute; congruence|].
  exists startMs. split; [exact H1|lia].
Defined.

(** A month back from the 31st lands on the last day of a shorter month. *)
Example month_clamps :
  utc_parts (addCalendarMonths utc_parts 1774958400000 (-1)) =
  {| zp_year := 2026; zp_month := 2; zp_day := 28; zp_hour := 12; zp_minute := 0; zp_second := 0 |}.
Proof. vm_compute. reflexivity. Qed.
