(* ===== verification/EventModel.v ===== *)
(** * Eventing: data model

    [packages/eventing-core/src/model.ts] and [limits.ts]: scalars, field
    references, predicates, signals, projection specs, and the bounds their
    schemas state. *)

From Stdlib Require Import Ascii String.
From stdpp Require Import prelude list strings.
From Stdlib Require Import ZArith Lia.
From S2P Require Import Prelude.
From S2P Require Import JsNum.
From S2P Require Import JsString.
From S2P Require Import EventTime.

Open Scope Z_scope.

(** ** Limits *)

Definition MAX_PREDICATE_DEPTH : Z := 8.
Definition MAX_PREDICATE_NODES : Z := 64.
Definition MAX_IN_VALUES : Z := 100.
Definition MAX_DECIMAL_INT64_LENGTH : Z := 20.
Definition MAX_STRING_LITERAL_CHARACTERS : Z := 1024.

(** ** Scalars and fields *)

Inductive scalar_type :=
  | ty_string | ty_boolean | ty_int64 | ty_float64 | ty_timestamp | ty_duration.

#[export] Instance scalar_type_eq_dec : EqDecision scalar_type.
Proof. solve_decision. Defined.

Inductive scalar :=
  | sc_string (value : string)
  | sc_boolean (value : bool)
  | sc_int64 (value : string)
  | sc_float64 (value : num)
  | sc_timestamp (value : string)
  | sc_duration (value : string).

Definition type_of (s : scalar) : scalar_type :=
  match s with
  | sc_string _ => ty_string
  | sc_boolean _ => ty_boolean
  | sc_int64 _ => ty_int64
  | sc_float64 _ => ty_float64
  | sc_timestamp _ => ty_timestamp
  | sc_duration _ => ty_duration
  end.

Definition type_name (t : scalar_type) : string :=
  match t with
  | ty_string => "string" | ty_boolean => "boolean" | ty_int64 => "int64"
  | ty_float64 => "float64" | ty_timestamp => "timestamp" | ty_duration => "duration"
  end.

Inductive field_namespace := ns_signal | ns_resource | ns_scope | ns_attribute | ns_body.

#[export] Instance field_namespace_eq_dec : EqDecision field_namespace.
Proof. solve_decision. Defined.

Definition namespace_name (n : field_namespace) : string :=
  match n with
  | ns_signal => "signal" | ns_resource => "resource" | ns_scope => "scope"
  | ns_attribute => "attribute" | ns_body => "body"
  end.

Record field_ref := {
  fr_namespace : field_namespace;
  fr_key : string;
  fr_type : scalar_type
}.

#[export] Instance field_ref_eq_dec : EqDecision field_ref.
Proof. solve_decision. Defined.

Definition fieldKey_of (n : field_namespace) (key : string) : string :=
  (namespace_name n ++ ":" ++ key)%string.

Definition fieldKey (f : field_ref) : string := fieldKey_of (fr_namespace f) (fr_key f).

Definition defineSignalFields (fields : list (field_ref * scalar)) : jsmap string scalar :=
  map_of (map (fun e => (fieldKey e.1, e.2)) fields).

(** ** Predicates *)

Inductive comparison_op := op_eq | op_neq | op_gt | op_gte | op_lt | op_lte | op_contains.

Inductive predicate :=
  | p_all (clauses : list predicate)
  | p_any (clauses : list predicate)
  | p_not (clause : predicate)
  | p_exists (field : field_ref)
  | p_compare (op : comparison_op) (field : field_ref) (value : scalar)
  | p_in (field : field_ref) (values : list scalar).

Section PredicateInd.
Variable P : predicate -> Prop.
Hypothesis Hall : forall cs, Forall P cs -> P (p_all cs).
Hypothesis Hany : forall cs, Forall P cs -> P (p_any cs).
Hypothesis Hnot : forall c, P c -> P (p_not c).
Hypothesis Hexists : forall f, P (p_exists f).
Hypothesis Hcompare : forall op f v, P (p_compare op f v).
Hypothesis Hin : forall f vs, P (p_in f vs).

Fixpoint predicate_ind' (p : predicate) : P p :=
  let clauses := fix clauses (cs : list predicate) : Forall P cs :=
    match cs with
    | [] => Forall_nil_2 P
    | c :: cs' => Forall_cons_2 P c cs' (predicate_ind' c) (clauses cs')
    end in
  match p with
  | p_all cs => Hall cs (clauses cs)
  | p_any cs => Hany cs (clauses cs)
  | p_not c => Hnot c (predicate_ind' c)
  | p_exists f => Hexists f
  | p_compare op f v => Hcompare op f v
  | p_in f vs => Hin f vs
  end.
End PredicateInd.

(** ** Signals and projections *)

Inductive identity_quality := iq_source | iq_derived | iq_none.

#[export] Instance identity_quality_eq_dec : EqDecision identity_quality.
Proof. solve_decision. Defined.

(** The data of a signal is whatever its source adapter produced. *)
Record signal (D : Type) := {
  sg_sourceKind : string;
  sg_source : string;
  sg_tenantId : string;
  sg_occurrenceId : option string;
  sg_identityQuality : identity_quality;
  sg_occurredAt : string;
  sg_observedAt : string;
  sg_subject : option string;
  sg_fields : jsmap string scalar;
  sg_data : D
}.
Arguments sg_sourceKind {D}. Arguments sg_source {D}. Arguments sg_tenantId {D}.
Arguments sg_occurrenceId {D}. Arguments sg_identityQuality {D}. Arguments sg_occurredAt {D}.
Arguments sg_observedAt {D}. Arguments sg_subject {D}. Arguments sg_fields {D}. Arguments sg_data {D}.

(** A projection: [C] is the type of the projector's raw configuration. *)
Record projection_spec (C : Type) := {
  ps_id : string;
  ps_revision : Z;
  ps_enabled : bool;
  ps_tenantId : string;
  ps_sourceKind : string;
  ps_selector : predicate;
  ps_projectorId : string;
  ps_projectorVersion : Z;
  ps_config : C;
  ps_activeFrom : string
}.
Arguments ps_id {C}. Arguments ps_revision {C}. Arguments ps_enabled {C}. Arguments ps_tenantId {C}.
Arguments ps_sourceKind {C}. Arguments ps_selector {C}. Arguments ps_projectorId {C}.
Arguments ps_projectorVersion {C}. Arguments ps_config {C}. Arguments ps_activeFrom {C}.

(** ** Keys *)

Lemma namespace_no_colon n : has_char ":" (namespace_name n) = false.
Proof. by destruct n. Qed.

Lemma namespace_name_inj n n' : namespace_name n = namespace_name n' -> n = n'.
Proof. by destruct n, n'. Qed.

(** Fields with the same key are the same field of the same namespace. *)
Lemma fieldKey_inj n k n' k' : fieldKey_of n k = fieldKey_of n' k' -> n = n' /\ k = k'.
Proof.
  unfold fieldKey_of. change (":" ++ k)%string with (String ":" k).
  change (":" ++ k')%string with (String ":" k'). intros H.
  apply split_at_char in H as [H ->]; [|apply namespace_no_colon..].
  split; [by apply namespace_name_inj|done].
Qed.
