(* ===== verification/EventPredicate.v ===== *)
(** * Eventing: predicates

    [packages/eventing-core/src/predicate.ts] and [input-budget.ts]: the budget
    guard over untrusted input, the validation of a predicate, and its compiled
    evaluation on a signal. *)

From Stdlib Require Import Ascii String.
From stdpp Require Import prelude list strings.
From Stdlib Require Import ZArith Lia.
From S2P Require Import Prelude.
From S2P Require Import JsNum.
From S2P Require Import JsString.
From S2P Require Import EventTime.
From S2P Require Import EventModel.

Open Scope Z_scope.

#[global] Arguments timestampToEpochNanos : simpl never.
#[global] Arguments string_to_bigint : simpl never.

Record issue := { is_path : string; is_message : string }.

(** ** The input budget *)

(** How the guard sees a value of an untrusted object graph [U]: whether it is a
    record, the [op] it has and the members the guard reads. The graph may
    share nodes and have cycles. *)
Inductive text_type := tt_string | tt_int64 | tt_duration | tt_other.

Inductive literal_view :=
  | lv_other
  | lv_text (type : text_type) (value : string).

Inductive node_view (U : Type) :=
  | nv_other
  | nv_clauses (clauses : option (list U))
  | nv_not (clause : U)
  | nv_in (values : option (list literal_view))
  | nv_leaf (value : literal_view).
Arguments nv_other {U}. Arguments nv_clauses {U}. Arguments nv_not {U}.
Arguments nv_in {U}. Arguments nv_leaf {U}.

Definition literalIssue (v : literal_view) : option string :=
  match v with
  | lv_text tt_string value =>
      if MAX_STRING_LITERAL_CHARACTERS <? code_points value
      then Some "selector string exceeds 1024 Unicode code points"%string else None
  | lv_text tt_int64 value =>
      if MAX_DECIMAL_INT64_LENGTH <? utf16_length value
      then Some "int64 literal exceeds 20 characters"%string else None
  | lv_text tt_duration value =>
      if MAX_DECIMAL_INT64_LENGTH <? utf16_length value
      then Some "duration literal exceeds 20 characters"%string else None
  | _ => None
  end.

Fixpoint first_issue (values : list literal_view) : option string :=
  match values with
  | [] => None
  | v :: rest => match literalIssue v with Some m => Some m | None => first_issue rest end
  end.

Section Budget.
Context {U : Type} (view : U -> node_view U).

(** The [while] loop; the top of the stack is the head of the list, so an array
    of clauses is pushed in reverse. [None] is running out of fuel. *)
Fixpoint budget_loop (fuel : nat) (stack : list (U * Z)) (nodes : Z) : option (option string) :=
  match stack with
  | [] => Some None
  | (value, depth) :: rest =>
      if MAX_PREDICATE_DEPTH <? depth then Some (Some "predicate depth exceeds 8"%string)
      else if MAX_PREDICATE_NODES <? nodes + 1 then Some (Some "predicate exceeds 64 nodes"%string)
      else
        match fuel with
        | O => None
        | S fuel' =>
            let continue stack := budget_loop fuel' stack (nodes + 1) in
            match view value with
            | nv_other => continue rest
            | nv_clauses None => continue rest
            | nv_clauses (Some clauses) =>
                if MAX_PREDICATE_NODES <? Z.of_nat (length clauses)
                then Some (Some "predicate clause list exceeds 64 entries"%string)
                else continue (rev (map (fun c => (c, depth + 1)) clauses) ++ rest)
            | nv_not clause => continue ((clause, depth + 1) :: rest)
            | nv_in None => continue rest
            | nv_in (Some values) =>
                if MAX_IN_VALUES <? Z.of_nat (length values)
                then Some (Some "in exceeds 100 values"%string)
                else match first_issue values with
                     | Some m => Some (Some m)
                     | None => continue rest
                     end
            | nv_leaf value =>
                match literalIssue value with
                | Some m => Some (Some m)
                | None => continue rest
                end
            end
        end
  end.

Definition predicateInputBudgetIssue (fuel : nat) (candidate : U) : option (option string) :=
  budget_loop fuel [(candidate, 1)] 0.
End Budget.

(** One pass per counted node, and the count stops at the budget. *)
Definition budget_fuel : nat := 64.

Definition view_literal (s : scalar) : literal_view :=
  match s with
  | sc_string v => lv_text tt_string v
  | sc_int64 v => lv_text tt_int64 v
  | sc_duration v => lv_text tt_duration v
  | sc_timestamp v => lv_text tt_other v
  | sc_boolean _ | sc_float64 _ => lv_other
  end.

(** A decoded predicate as the guard sees it. *)
Definition view_predicate (p : predicate) : node_view predicate :=
  match p with
  | p_all cs | p_any cs => nv_clauses (Some cs)
  | p_not c => nv_not c
  | p_exists _ => nv_leaf lv_other
  | p_compare _ _ v => nv_leaf (view_literal v)
  | p_in _ vs => nv_in (Some (map view_literal vs))
  end.

Definition checkSignalProjectionInputBudget (selector : predicate) : result (list issue) unit :=
  match predicateInputBudgetIssue view_predicate budget_fuel selector with
  | Some (Some m) => Err [{| is_path := "selector"; is_message := m |}]
  | _ => Ok tt
  end.

(** ** Validation *)

Definition op_name (op : comparison_op) : string :=
  match op with
  | op_eq => "eq" | op_neq => "neq" | op_gt => "gt" | op_gte => "gte"
  | op_lt => "lt" | op_lte => "lte" | op_contains => "contains"
  end.

Definition is_ordered (t : scalar_type) : bool :=
  match t with ty_int64 | ty_float64 | ty_timestamp | ty_duration => true | _ => false end.

(** What the program relies on of the library codec from a string to a bigint:
    where it decodes, it decodes what [BigInt] reads. *)
Class BigIntCodec (decode : string -> option Z) : Prop := {
  codec_reads : forall s z, decode s = Some z -> string_to_bigint s = Some z
}.

#[export] Instance string_to_bigint_codec : BigIntCodec string_to_bigint.
Proof. by split. Qed.

Section Validation.
Variable decode : string -> option Z.

Definition parseInt64 (value : string) : option Z :=
  match decode value with
  | Some z => if (INT64_MIN <=? z) && (z <=? INT64_MAX) then Some z else None
  | None => None
  end.

Definition validateSignalScalar (s : scalar) (path : string) : list issue :=
  match s with
  | sc_string _ | sc_boolean _ => []
  | sc_int64 v | sc_duration v =>
      match parseInt64 v with
      | None => [{| is_path := path;
                    is_message := type_name (type_of s) ++ " must be a signed 64-bit decimal integer" |}]
      | Some _ => []
      end
  | sc_float64 v =>
      if num_is_finite v then [] else [{| is_path := path; is_message := "float64 must be finite" |}]
  | sc_timestamp v =>
      match timestampToEpochNanos v with
      | None => [{| is_path := path;
                    is_message := "timestamp must be a valid RFC 3339 instant with an explicit offset" |}]
      | Some _ => []
      end
  end%string.

Definition validateSignalLiteral (s : scalar) (path : string) : list issue :=
  validateSignalScalar s path ++
  match s with
  | sc_string v =>
      if MAX_STRING_LITERAL_CHARACTERS <? code_points v
      then [{| is_path := path; is_message := "string exceeds 1024 Unicode code points" |}] else []
  | _ => []
  end.

Definition types_differ (path : string) (f : field_ref) (value : scalar) : list issue :=
  if bool_decide (fr_type f = type_of value) then []
  else [{| is_path := path; is_message := "field and literal types must match" |}].

Definition index_path (path : string) (index : nat) : string :=
  (path ++ "[" ++ show (Z.of_nat index) ++ "]")%string.

Definition compare_issues (op : comparison_op) (f : field_ref) (value : scalar) (path : string) : list issue :=
  match op with
  | op_contains =>
      if bool_decide (fr_type f = ty_string) && bool_decide (type_of value = ty_string) then []
      else [{| is_path := path; is_message := "contains requires a string field and string literal" |}]
  | op_gt | op_gte | op_lt | op_lte =>
      (if is_ordered (fr_type f) then []
       else [{| is_path := path;
                is_message := op_name op ++ " is not supported for " ++ type_name (fr_type f) |}%string])
      ++ types_differ path f value
  | op_eq | op_neq => types_differ path f value
  end ++ validateSignalLiteral value (path ++ ".value")%string.

Definition in_issues (f : field_ref) (values : list scalar) (path : string) : list issue :=
  let values_path := (path ++ ".values")%string in
  (if bool_decide (values = [])
   then [{| is_path := values_path; is_message := "in requires at least one value" |}] else []) ++
  (if MAX_IN_VALUES <? Z.of_nat (length values)
   then [{| is_path := values_path; is_message := "in exceeds 100 values" |}] else []) ++
  concat (imap (fun i v => types_differ (index_path values_path i) f v
                           ++ validateSignalLiteral v (index_path values_path i)) values).

(** The state of [visit]: nodes counted and issues found. *)
Definition visit_state : Type := Z * list issue.

Definition visit_clauses (visit : predicate -> string -> visit_state -> visit_state) (path : string) :
    nat -> list predicate -> visit_state -> visit_state :=
  fix go i clauses st :=
    match clauses with
    | [] => st
    | c :: rest => go (S i) rest (visit c (index_path path i) st)
    end.

Definition empty_clauses (op : string) (clauses : list predicate) (path : string) : list issue :=
  match clauses with
  | [] => [{| is_path := path ++ ".clauses"; is_message := op ++ " requires at least one clause" |}]
  | _ => []
  end%string.

Fixpoint visit (node : predicate) (depth : Z) (path : string) (st : visit_state) : visit_state :=
  let '(nodes, issues) := st in
  let nodes := nodes + 1 in
  if MAX_PREDICATE_NODES <? nodes then (nodes, issues)
  else if MAX_PREDICATE_DEPTH <? depth then
    (nodes, issues ++ [{| is_path := path; is_message := "predicate depth exceeds 8" |}])
  else
    match node with
    | p_all clauses =>
        visit_clauses (fun c => visit c (depth + 1)) (path ++ ".clauses")%string 0 clauses
          (nodes, issues ++ empty_clauses "all" clauses path)
    | p_any clauses =>
        visit_clauses (fun c => visit c (depth + 1)) (path ++ ".clauses")%string 0 clauses
          (nodes, issues ++ empty_clauses "any" clauses path)
    | p_not clause => visit clause (depth + 1) (path ++ ".clause")%string (nodes, issues)
    | p_exists _ => (nodes, issues)
    | p_compare op f v => (nodes, issues ++ compare_issues op f v path)
    | p_in f vs => (nodes, issues ++ in_issues f vs path)
    end.

Definition validateSignalPredicate (p : predicate) : list issue :=
  let '(nodes, issues) := visit p 1 "selector" (0, []) in
  if MAX_PREDICATE_NODES <? nodes
  then issues ++ [{| is_path := "selector"; is_message := "predicate exceeds 64 nodes" |}]
  else issues.

Definition validateSignalProjectionSpec {C} (spec : projection_spec C) : list issue :=
  match timestampToEpochNanos (ps_activeFrom spec) with
  | None => [{| is_path := "activeFrom";
                is_message := "must be a valid RFC 3339 instant with an explicit offset" |}]
  | Some _ => []
  end ++ validateSignalPredicate (ps_selector spec).

(** ** Evaluation

    [BigInt] throws on a text that is no integer: comparing two scalars gives
    [None] when it throws. *)

Definition bigint_eq (a b : string) : option bool :=
  x ← string_to_bigint a; y ← string_to_bigint b; Some (x =? y).

Definition scalarEquals (l r : scalar) : option bool :=
  match l, r with
  | sc_string a, sc_string b => Some (bool_decide (a = b))
  | sc_boolean a, sc_boolean b => Some (Bool.eqb a b)
  | sc_float64 a, sc_float64 b => Some (num_eqb a b)
  | sc_int64 a, sc_int64 b => bigint_eq a b
  | sc_duration a, sc_duration b => bigint_eq a b
  | sc_timestamp a, sc_timestamp b =>
      Some (bool_decide (timestampToEpochNanos a = timestampToEpochNanos b))
  | _, _ => Some false
  end.

Definition order_of (x y : Z) : Z := if x <? y then -1 else if y <? x then 1 else 0.

Definition bigint_order (a b : string) : option (option Z) :=
  x ← string_to_bigint a; y ← string_to_bigint b; Some (Some (order_of x y)).

(** [Some None] is a [null] order. *)
Definition scalarOrder (l r : scalar) : option (option Z) :=
  match l, r with
  | sc_int64 a, sc_int64 b => bigint_order a b
  | sc_duration a, sc_duration b => bigint_order a b
  | sc_float64 a, sc_float64 b =>
      Some (Some (if num_ltb a b then -1 else if num_gtb a b then 1 else 0))
  | sc_timestamp a, sc_timestamp b =>
      Some (x ← timestampToEpochNanos a; y ← timestampToEpochNanos b; Some (order_of x y))
  | _, _ => Some None
  end.

(** The [typeMismatches] array grows as fields are read. *)
Definition readField (fields : jsmap string scalar) (f : field_ref) (mm : list field_ref)
    : option scalar * list field_ref :=
  match map_get (fieldKey f) fields with
  | None => (None, mm)
  | Some value =>
      if negb (bool_decide (type_of value = fr_type f))
         || negb (bool_decide (validateSignalScalar value "value" = []))
      then (None, mm ++ [f])
      else (Some value, mm)
  end.

(** [Array.every] and [Array.some] with a callback that reads fields and may throw. *)
Definition every_reading {A S} (f : A -> S -> option (bool * S)) : list A -> S -> option (bool * S) :=
  fix go l s :=
    match l with
    | [] => Some (true, s)
    | x :: rest =>
        match f x s with
        | Some (true, s') => go rest s'
        | r => r
        end
    end.

Definition some_reading {A S} (f : A -> S -> option (bool * S)) : list A -> S -> option (bool * S) :=
  fix go l s :=
    match l with
    | [] => Some (false, s)
    | x :: rest =>
        match f x s with
        | Some (false, s') => go rest s'
        | r => r
        end
    end.

Fixpoint some_equals (value : scalar) (candidates : list scalar) : option bool :=
  match candidates with
  | [] => Some false
  | c :: rest => b ← scalarEquals value c; if (b : bool) then Some true else some_equals value rest
  end.

Definition evaluate_compare (op : comparison_op) (value literal : scalar) : option bool :=
  match op with
  | op_eq => scalarEquals value literal
  | op_neq => negb <$> scalarEquals value literal
  | op_contains =>
      match value, literal with
      | sc_string v, sc_string l => Some (includes v l)
      | _, _ => Some false
      end
  | _ =>
      order ← scalarOrder value literal;
      Some match order with
           | None => false
           | Some o =>
               match op with
               | op_gt => 0 <? o
               | op_gte => 0 <=? o
               | op_lt => o <? 0
               | _ => o <=? 0
               end
           end
  end.

Fixpoint evaluate (fields : jsmap string scalar) (node : predicate) (mm : list field_ref)
    : option (bool * list field_ref) :=
  match node with
  | p_all clauses => every_reading (evaluate fields) clauses mm
  | p_any clauses => some_reading (evaluate fields) clauses mm
  | p_not clause =>
      match evaluate fields clause mm with
      | Some (b, mm') => Some (negb b, mm')
      | None => None
      end
  | p_exists f =>
      let '(value, mm') := readField fields f mm in Some (bool_decide (is_Some value), mm')
  | p_compare op f literal =>
      let '(value, mm') := readField fields f mm in
      match value with
      | None => Some (false, mm')
      | Some v => b ← evaluate_compare op v literal; Some (b, mm')
      end
  | p_in f values =>
      let '(value, mm') := readField fields f mm in
      match value with
      | None => Some (false, mm')
      | Some v => b ← some_equals v values; Some (b, mm')
      end
  end.

Record evaluation_result := { er_matches : bool; er_typeMismatches : list field_ref }.

(** A compiled predicate: [None] is a throw. *)
Definition compiled_predicate : Type := jsmap string scalar -> option evaluation_result.

Definition run_compiled (p : predicate) : compiled_predicate := fun fields =>
  '(b, mm) ← evaluate fields p [];
  Some {| er_matches := b; er_typeMismatches := mm |}.

Definition compileSignalPredicate (p : predicate) : result (list issue) compiled_predicate :=
  match checkSignalProjectionInputBudget p with
  | Err e => Err e
  | Ok _ =>
      match validateSignalPredicate p with
      | [] => Ok (run_compiled p)
      | issues => Err issues
      end
  end.
End Validation.

(** ** What the budget guarantees *)

(** On any object graph, cyclic or not, the guard stops within its fuel. *)
Lemma budget_loop_total {U} (view : U -> node_view U) fuel stack nodes :
  0 <= nodes -> MAX_PREDICATE_NODES <= Z.of_nat fuel + nodes ->
  exists r, budget_loop view fuel stack nodes = Some r.
Proof.
  unfold MAX_PREDICATE_NODES.
  revert stack nodes. induction fuel as [|fuel IH]; intros [|[v d] stack] nodes Hn Hf; cbn [budget_loop];
    try (by eexists); destruct (_ <? d); try (by eexists);
    destruct (Z.ltb_spec MAX_PREDICATE_NODES (nodes + 1)) as [|Hle]; try (by eexists);
    unfold MAX_PREDICATE_NODES in *; [lia|].
  pose proof (fun s => IH s (nodes + 1) ltac:(lia) ltac:(lia)) as Hgo.
  destruct (view v) as [|[cs|]|c|[vs|]|l]; try apply Hgo.
  - case_match; [by eexists|apply Hgo].
  - case_match; [by eexists|]. case_match; [by eexists|apply Hgo].
  - case_match; [by eexists|apply Hgo].
Qed.

(** The budget guard answers on every input, even a cyclic object graph:
    it never visits more than the 64 nodes it is willing to count. *)
Theorem budget_guard_terminates {U} (view : U -> node_view U) candidate :
  exists answer, predicateInputBudgetIssue view budget_fuel candidate = Some answer.
Proof. apply budget_loop_total; unfold MAX_PREDICATE_NODES, budget_fuel; lia. Qed.

Definition sum_Z (l : list Z) : Z := foldr Z.add 0 l.
Definition max_Z (l : list Z) : Z := foldr Z.max 0 l.

Fixpoint psize (p : predicate) : Z :=
  match p with
  | p_all cs | p_any cs => 1 + sum_Z (map psize cs)
  | p_not c => 1 + psize c
  | _ => 1
  end.

Fixpoint pdepth (p : predicate) : Z :=
  match p with
  | p_all cs | p_any cs => 1 + max_Z (map pdepth cs)
  | p_not c => 1 + pdepth c
  | _ => 1
  end.

Definition literals_short (vs : list scalar) : Prop :=
  Forall (fun v => literalIssue (view_literal v) = None) vs.

(** The literal lists and texts the guard bounds. *)
Fixpoint pliterals (p : predicate) : Prop :=
  match p with
  | p_all cs | p_any cs => foldr and True (map pliterals cs)
  | p_not c => pliterals c
  | p_exists _ => True
  | p_compare _ _ v => literals_short [v]
  | p_in _ vs => Z.of_nat (length vs) <= MAX_IN_VALUES /\ literals_short vs
  end.

Lemma foldr_and {A} (P : A -> Prop) l : foldr and True (map P l) <-> Forall P l.
Proof.
  induction l as [|x l IH]; simpl; [split; constructor|]. rewrite IH, Forall_cons. done.
Qed.

Lemma first_issue_short vs : first_issue (map view_literal vs) = None <-> literals_short vs.
Proof.
  unfold literals_short. induction vs as [|v vs IH]; simpl; [split; [constructor|done]|].
  rewrite Forall_cons, <- IH. destruct (literalIssue (view_literal v)); naive_solver.
Qed.

Lemma psize_pos p : 1 <= psize p.
Proof.
  assert (Hs : forall cs, Forall (fun c => 1 <= psize c) cs -> 0 <= sum_Z (map psize cs)).
  { intros cs H. induction H; simpl; lia. }
  induction p using predicate_ind'; cbn [psize]; try lia; apply Hs in H; lia.
Qed.

Lemma sum_Z_app l1 l2 : sum_Z (l1 ++ l2) = sum_Z l1 + sum_Z l2.
Proof. unfold sum_Z. induction l1 as [|x l1 IH]; simpl; lia. Qed.

Lemma sum_Z_rev l : sum_Z (rev l) = sum_Z l.
Proof. induction l as [|x l IH]; simpl; [done|]. rewrite sum_Z_app, IH. simpl. lia. Qed.

Lemma sum_Z_length cs : Z.of_nat (length cs) <= sum_Z (map psize cs).
Proof.
  induction cs as [|c cs IH]; simpl; [lia|]. pose proof (psize_pos c). lia.
Qed.

Lemma max_Z_nonneg l : 0 <= max_Z l.
Proof. induction l; simpl; lia. Qed.

Lemma max_Z_le l b : 0 <= b -> max_Z l <= b <-> Forall (fun x => x <= b) l.
Proof.
  intros Hb. unfold max_Z. induction l as [|x l IH]; simpl; [split; [constructor|lia]|].
  rewrite Forall_cons, <- IH. lia.
Qed.

(** What the guard demands of the stacked nodes. *)
Definition within (e : predicate * Z) : Prop :=
  e.2 - 1 + pdepth e.1 <= MAX_PREDICATE_DEPTH /\ pliterals e.1.

Definition stack_size (stack : list (predicate * Z)) : Z := sum_Z (map (fun e => psize e.1) stack).

Lemma stack_size_clauses cs d stack :
  stack_size (rev (map (fun c => (c, d)) cs) ++ stack) = sum_Z (map psize cs) + stack_size stack.
Proof.
  unfold stack_size. rewrite List.map_app, sum_Z_app, List.map_rev, sum_Z_rev, List.map_map. done.
Qed.

Lemma Forall_within_clauses cs d :
  Forall within (rev (map (fun c => (c, d)) cs)) <-> Forall (fun c => within (c, d)) cs.
Proof. rewrite <- Permutation_rev, Forall_map. done. Qed.

Lemma within_all cs d (p : predicate) :
  (p = p_all cs \/ p = p_any cs) ->
  d <= MAX_PREDICATE_DEPTH ->
  within (p, d) <-> Forall (fun c => within (c, d + 1)) cs.
Proof.
  intros Hp Hd. unfold within. cbn [fst snd].
  assert (H1 : d - 1 + pdepth p <= MAX_PREDICATE_DEPTH <->
               Forall (fun c => d + 1 - 1 + pdepth c <= MAX_PREDICATE_DEPTH) cs).
  { replace (pdepth p) with (1 + max_Z (map pdepth cs)) by (by destruct Hp as [-> | ->]).
    assert (Hle : d - 1 + (1 + max_Z (map pdepth cs)) <= MAX_PREDICATE_DEPTH <->
      max_Z (map pdepth cs) <= MAX_PREDICATE_DEPTH - d) by lia.
    rewrite Hle, max_Z_le, Forall_map by lia. apply Forall_iff. intros x. simpl. lia. }
  assert (H2 : pliterals p <-> Forall pliterals cs).
  { destruct Hp as [-> | ->]; apply foldr_and. }
  rewrite H1, H2, <- Forall_and. done.
Qed.

Lemma stack_size_nonneg stack : 0 <= stack_size stack.
Proof.
  unfold stack_size. induction stack as [|[p d] s IH]; simpl; [lia|]. pose proof (psize_pos p). lia.
Qed.

Lemma pdepth_pos p : 1 <= pdepth p.
Proof.
  pose proof max_Z_nonneg as Hm.
  destruct p; cbn [pdepth]; try lia; try (pose proof (Hm (map pdepth clauses)); lia).
  assert (1 <= 1 + pdepth p); [|done].
  induction p using predicate_ind'; cbn [pdepth]; try lia; pose proof (Hm (map pdepth cs)); lia.
Qed.

Lemma within_not c d : within (p_not c, d) <-> within (c, d + 1).
Proof. unfold within. cbn. split; intros [? ?]; (split; [lia|done]). Qed.

Lemma within_leaf p d :
  psize p = 1 -> pdepth p = 1 -> d <= MAX_PREDICATE_DEPTH -> within (p, d) <-> pliterals p.
Proof. unfold within. cbn. intros _ -> Hd. split; [by intros [_ ?]|]. split; [lia|done]. Qed.

Lemma budget_loop_spec fuel stack nodes :
  0 <= nodes <= MAX_PREDICATE_NODES -> MAX_PREDICATE_NODES <= Z.of_nat fuel + nodes ->
  budget_loop view_predicate fuel stack nodes = Some None <->
  nodes + stack_size stack <= MAX_PREDICATE_NODES /\ Forall within stack.
Proof.
  revert stack nodes. induction fuel as [|fuel IH]; intros [|[p d] stack] nodes Hn Hf; cbn [budget_loop].
  1, 3: cbn; split; [split; [lia|constructor]|done].
  all: pose proof (psize_pos p) as Hp; pose proof (pdepth_pos p) as Hpd;
    pose proof (stack_size_nonneg stack) as Hs;
    change (stack_size ((p, d) :: stack)) with (psize p + stack_size stack);
    rewrite Forall_cons;
    (destruct (Z.ltb_spec MAX_PREDICATE_DEPTH d) as [Hd|Hd];
      [split; [done|]; intros (_ & [Hw _] & _); cbn in Hw; lia|]);
    (destruct (Z.ltb_spec MAX_PREDICATE_NODES (nodes + 1)) as [Hm|Hm]; [split; [done|lia]|]).
  { lia. }
  specialize (fun s => IH s (nodes + 1) ltac:(lia) ltac:(lia)).
  assert (Hclauses : forall cs, p = p_all cs \/ p = p_any cs ->
    (if MAX_PREDICATE_NODES <? Z.of_nat (length cs)
     then Some (Some "predicate clause list exceeds 64 entries"%string)
     else budget_loop view_predicate fuel (rev (map (fun c => (c, d + 1)) cs) ++ stack) (nodes + 1))
    = Some None <->
    nodes + (psize p + stack_size stack) <= MAX_PREDICATE_NODES /\ within (p, d) /\ Forall within stack).
  { intros cs Hcs. rewrite (within_all cs) by done.
    replace (psize p) with (1 + sum_Z (map psize cs)) by (by destruct Hcs as [-> | ->]).
    pose proof (sum_Z_length cs).
    destruct (Z.ltb_spec MAX_PREDICATE_NODES (Z.of_nat (length cs))); [split; [done|lia]|].
    rewrite IH, stack_size_clauses, Forall_app, Forall_within_clauses.
    split; intros (? & ? & ?); (split_and!; [lia|done|done]). }
  assert (Hleaf : psize p = 1 -> pdepth p = 1 ->
    budget_loop view_predicate fuel stack (nodes + 1) = Some None /\ pliterals p <->
    nodes + (psize p + stack_size stack) <= MAX_PREDICATE_NODES /\ within (p, d) /\ Forall within stack).
  { intros H1 H2. rewrite IH, within_leaf, H1 by done.
    split; [intros [[? ?] ?]|intros (? & ? & ?)]; split_and!; done || lia. }
  destruct p as [cs|cs|c|f|op f v|f vs]; cbn [view_predicate].
  - apply Hclauses. by left.
  - apply Hclauses. by right.
  - rewrite IH, within_not. change (stack_size ((c, d + 1) :: stack)) with (psize c + stack_size stack).
    cbn [psize]. rewrite Forall_cons. split; intros (? & ? & ?); (split_and!; [lia|done|done]).
  - rewrite <- Hleaf by done. cbn. naive_solver.
  - rewrite <- Hleaf by done. cbn [pliterals]. unfold literals_short.
    rewrite Forall_singleton. destruct (literalIssue (view_literal v)); naive_solver.
  - rewrite <- Hleaf by done. cbn [pliterals]. rewrite List.length_map, <- first_issue_short.
    destruct (Z.ltb_spec MAX_IN_VALUES (Z.of_nat (length vs))); [split; [done|lia]|].
    destruct (first_issue _); naive_solver.
Qed.

Lemma check_budget_spec p :
  is_ok (checkSignalProjectionInputBudget p) = true <->
  psize p <= MAX_PREDICATE_NODES /\ pdepth p <= MAX_PREDICATE_DEPTH /\ pliterals p.
Proof.
  unfold checkSignalProjectionInputBudget.
  destruct (budget_loop_total view_predicate budget_fuel [(p, 1)] 0 ltac:(lia) ltac:(done)) as [r Hr].
  pose proof (budget_loop_spec budget_fuel [(p, 1)] 0 ltac:(done) ltac:(done)) as Hspec.
  unfold predicateInputBudgetIssue. rewrite Hr in *.
  change (stack_size [(p, 1)]) with (psize p + 0) in Hspec. rewrite Forall_singleton in Hspec.
  unfold within in Hspec. cbn [fst snd] in Hspec.
  destruct r as [m|]; cbn; split; try done.
  - intros (? & ? & ?). exfalso. assert (Some (Some m) = Some (@None string)); [|done].
    apply Hspec. split_and!; [lia|lia|done].
  - intros _. destruct (proj1 Hspec eq_refl) as (? & ? & ?). split_and!; [lia|lia|done].
Qed.

(** ** What validation accepts *)

Section Accepted.
Context (decode : string -> option Z).

Definition scalar_ok (v : scalar) : Prop :=
  match v with
  | sc_string _ | sc_boolean _ => True
  | sc_int64 s | sc_duration s => is_Some (parseInt64 decode s)
  | sc_float64 x => num_is_finite x = true
  | sc_timestamp s => is_Some (timestampToEpochNanos s)
  end.

Definition literal_ok (v : scalar) : Prop :=
  scalar_ok v /\ match v with sc_string s => code_points s <= MAX_STRING_LITERAL_CHARACTERS | _ => True end.

Definition operands_ok (op : comparison_op) (f : field_ref) (v : scalar) : Prop :=
  match op with
  | op_contains => fr_type f = ty_string /\ type_of v = ty_string
  | op_gt | op_gte | op_lt | op_lte => is_ordered (fr_type f) = true /\ fr_type f = type_of v
  | op_eq | op_neq => fr_type f = type_of v
  end.

(** A predicate whose every node is well formed and well typed. *)
Fixpoint pred_ok (p : predicate) : Prop :=
  match p with
  | p_all cs | p_any cs => cs <> [] /\ foldr and True (map pred_ok cs)
  | p_not c => pred_ok c
  | p_exists _ => True
  | p_compare op f v => operands_ok op f v /\ literal_ok v
  | p_in f vs =>
      vs <> [] /\ Z.of_nat (length vs) <= MAX_IN_VALUES /\
      Forall (fun v => fr_type f = type_of v /\ literal_ok v) vs
  end.

Lemma option_issue {A B} (o : option A) (x : B) :
  match o with None => [x] | Some _ => [] end = [] <-> is_Some o.
Proof.
  by destruct o as [a|]; split; intros H.
Qed.

Lemma scalar_issues v path : validateSignalScalar decode v path = [] <-> scalar_ok v.
Proof.
  destruct v as [s|b|s|x|s|s]; cbn; try done.
  - apply option_issue.
  - by destruct (num_is_finite x).
  - apply option_issue.
  - apply option_issue.
Qed.

Lemma literal_issues v path : validateSignalLiteral decode v path = [] <-> literal_ok v.
Proof.
  unfold validateSignalLiteral, literal_ok. rewrite app_nil, scalar_issues.
  destruct v as [s|b|s|x|s|s]; try (by split; intros [? _]).
  destruct (Z.ltb_spec MAX_STRING_LITERAL_CHARACTERS (code_points s)) as [Hl|Hl]; split; intros [? H];
    try done; lia.
Qed.

Lemma types_differ_nil path f v : types_differ path f v = [] <-> fr_type f = type_of v.
Proof. unfold types_differ. case_bool_decide; split; done. Qed.

Lemma compare_issues_nil op f v path :
  compare_issues decode op f v path = [] <-> operands_ok op f v /\ literal_ok v.
Proof.
  unfold compare_issues. rewrite app_nil, literal_issues.
  assert (Hord : forall m, (if is_ordered (fr_type f) then [] else [m : issue]) ++ types_differ path f v = [] <->
            is_ordered (fr_type f) = true /\ fr_type f = type_of v).
  { intros m. rewrite app_nil, types_differ_nil. destruct (is_ordered (fr_type f)); by split; intros [? ?]. }
  destruct op; cbn [operands_ok]; rewrite ?types_differ_nil, ?Hord; try done.
  do 2 case_bool_decide; cbn; naive_solver.
Qed.

Lemma imap_concat_nil {A B} (g : nat -> A -> list B) (P : A -> Prop) l :
  (forall i x, g i x = [] <-> P x) -> concat (imap g l) = [] <-> Forall P l.
Proof.
  intros Hg. rewrite concat_nil_Forall. revert g Hg. induction l as [|x l IH]; intros g Hg.
  - split; constructor.
  - rewrite imap_cons, !Forall_cons, Hg, (IH (g ∘ S)); [done|]. intros. apply Hg.
Qed.

Lemma in_issues_nil f vs path :
  in_issues decode f vs path = [] <->
  vs <> [] /\ Z.of_nat (length vs) <= MAX_IN_VALUES /\
  Forall (fun v => fr_type f = type_of v /\ literal_ok v) vs.
Proof.
  unfold in_issues. rewrite !app_nil.
  rewrite (imap_concat_nil _ (fun v => fr_type f = type_of v /\ literal_ok v)).
  2: { intros i v. by rewrite app_nil, types_differ_nil, literal_issues. }
  case_bool_decide; destruct (Z.ltb_spec MAX_IN_VALUES (Z.of_nat (length vs)));
    split; intros (? & ? & ?); split_and!; done || lia.
Qed.

(** Within the node and depth budgets a visit counts every node and finds an
    issue exactly when the predicate is not well formed. *)
Definition visits (p : predicate) : Prop := forall d path n iss,
  n + psize p <= MAX_PREDICATE_NODES -> d - 1 + pdepth p <= MAX_PREDICATE_DEPTH ->
  exists extra, visit decode p d path (n, iss) = (n + psize p, iss ++ extra) /\
                (extra = [] <-> pred_ok p).

Lemma visit_clauses_cons v path i c cs st :
  visit_clauses v path i (c :: cs) st = visit_clauses v path (S i) cs (v c (index_path path i) st).
Proof. done. Qed.

Lemma visit_clauses_spec cs d path : Forall visits cs -> forall i n iss,
  n + sum_Z (map psize cs) <= MAX_PREDICATE_NODES ->
  Forall (fun c => d - 1 + pdepth c <= MAX_PREDICATE_DEPTH) cs ->
  exists extra,
    visit_clauses (fun c => visit decode c d) path i cs (n, iss) =
      (n + sum_Z (map psize cs), iss ++ extra) /\
    (extra = [] <-> Forall pred_ok cs).
Proof.
  induction 1 as [|c cs Hc Hcs IH]; intros i n iss Hn Hd.
  - exists []. cbn. rewrite app_nil_r, Z.add_0_r. done.
  - cbn [map sum_Z foldr] in Hn. fold (sum_Z (map psize cs)) in Hn.
    apply Forall_cons in Hd as [Hd Hds]. rewrite visit_clauses_cons.
    assert (0 <= sum_Z (map psize cs)) by (pose proof (sum_Z_length cs); lia).
    destruct (Hc d (index_path path i) n iss) as (e1 & -> & H1); [lia|done|].
    destruct (IH (S i) (n + psize c) (iss ++ e1)) as (e2 & H2 & H3); [lia|done|].
    exists (e1 ++ e2). rewrite H2, app_assoc. split.
    + f_equal. cbn. fold (sum_Z (map psize cs)). lia.
    + rewrite app_nil, Forall_cons, H1, H3. done.
Qed.

Lemma empty_clauses_nil op cs path : empty_clauses op cs path = [] <-> cs <> [].
Proof. by destruct cs. Qed.

Lemma visit_spec p : visits p.
Proof.
  assert (Hclauses : forall cs op, Forall visits cs -> forall d path n iss,
    n + (1 + sum_Z (map psize cs)) <= MAX_PREDICATE_NODES ->
    d - 1 + (1 + max_Z (map pdepth cs)) <= MAX_PREDICATE_DEPTH ->
    exists extra,
      visit_clauses (fun c => visit decode c (d + 1)) (path ++ ".clauses")%string 0 cs
        (n + 1, iss ++ empty_clauses op cs path) = (n + (1 + sum_Z (map psize cs)), iss ++ extra) /\
      (extra = [] <-> cs <> [] /\ foldr and True (map pred_ok cs))).
  { intros cs op Hcs d path n iss Hn Hd.
    assert (Hds : Forall (fun c => d + 1 - 1 + pdepth c <= MAX_PREDICATE_DEPTH) cs).
    { assert (Hm : max_Z (map pdepth cs) <= MAX_PREDICATE_DEPTH - d) by lia.
      pose proof (max_Z_nonneg (map pdepth cs)).
      rewrite max_Z_le, Forall_map in Hm by lia. eapply Forall_impl; [exact Hm|]. cbn. lia. }
    destruct (visit_clauses_spec cs (d + 1) (path ++ ".clauses")%string Hcs 0 (n + 1)
      (iss ++ empty_clauses op cs path)) as (e & -> & He); [lia|done|].
    exists (empty_clauses op cs path ++ e). rewrite app_assoc. split; [f_equal; lia|].
    by rewrite app_nil, empty_clauses_nil, He, foldr_and. }
  induction p as [cs IH|cs IH|c IH|f|op f v|f vs] using predicate_ind'; intros d path n iss Hn Hd;
    cbn [visit]; cbn [psize] in Hn; cbn [pdepth] in Hd;
    try (assert (0 <= sum_Z (map psize cs)) by (pose proof (sum_Z_length cs); lia));
    try (pose proof (max_Z_nonneg (map pdepth cs)));
    try (pose proof (psize_pos c); pose proof (pdepth_pos c));
    (destruct (Z.ltb_spec MAX_PREDICATE_NODES (n + 1)); [lia|]);
    (destruct (Z.ltb_spec MAX_PREDICATE_DEPTH d); [lia|]).
  - by apply Hclauses.
  - by apply Hclauses.
  - destruct (IH (d + 1) (path ++ ".clause")%string (n + 1) iss) as (e & -> & He); [lia|lia|].
    exists e. split; [f_equal; cbn; lia|done].
  - exists []. by rewrite app_nil_r.
  - eexists. split; [done|]. apply compare_issues_nil.
  - eexists. split; [done|]. apply in_issues_nil.
Qed.

Lemma validate_spec p :
  psize p <= MAX_PREDICATE_NODES -> pdepth p <= MAX_PREDICATE_DEPTH ->
  validateSignalPredicate decode p = [] <-> pred_ok p.
Proof.
  intros Hs Hd. unfold validateSignalPredicate.
  destruct (visit_spec p 1 "selector"%string 0 []) as (e & -> & He); [lia|lia|].
  destruct (Z.ltb_spec MAX_PREDICATE_NODES (0 + psize p)); [lia|]. done.
Qed.

(** Compilation accepts a predicate exactly when it has at most 64 nodes,
    is at most 8 deep, keeps its literal lists and texts within their limits,
    and every node is well formed and well typed. *)
Theorem compile_accepts_iff p :
  is_ok (compileSignalPredicate decode p) = true <->
  psize p <= MAX_PREDICATE_NODES /\ pdepth p <= MAX_PREDICATE_DEPTH /\ pliterals p /\ pred_ok p.
Proof.
  unfold compileSignalPredicate. pose proof (check_budget_spec p) as Hb.
  destruct (checkSignalProjectionInputBudget p) as [u|e]; cbn [is_ok] in *.
  - destruct (proj1 Hb eq_refl) as (Hs & Hd & Hl). pose proof (validate_spec p Hs Hd) as Hv.
    destruct (validateSignalPredicate decode p); cbn; naive_solver.
  - split; [done|]. intros (? & ? & ? & _). by apply Hb.
Qed.
End Accepted.

#[global] Arguments parseInt64 : simpl never.

(** ** The meaning of an accepted predicate

    Scalars denote values; a field reference denotes the value the signal
    carries under its key when it has the type asked for. *)

Inductive value :=
  | v_string (s : string)
  | v_boolean (b : bool)
  | v_int64 (z : Z)
  | v_float64 (x : num)
  | v_instant (nanos : Z)
  | v_duration (z : Z).

Definition value_equals (v w : value) : bool :=
  match v, w with
  | v_string a, v_string b => bool_decide (a = b)
  | v_boolean a, v_boolean b => Bool.eqb a b
  | v_float64 a, v_float64 b => num_eqb a b
  | v_int64 a, v_int64 b | v_instant a, v_instant b | v_duration a, v_duration b => a =? b
  | _, _ => false
  end.

Definition value_less (v w : value) : bool :=
  match v, w with
  | v_float64 a, v_float64 b => num_ltb a b
  | v_int64 a, v_int64 b | v_instant a, v_instant b | v_duration a, v_duration b => a <? b
  | _, _ => false
  end.

Definition value_contains (v w : value) : bool :=
  match v, w with v_string a, v_string b => includes a b | _, _ => false end.

Definition holds_op (op : comparison_op) (v w : value) : bool :=
  match op with
  | op_eq => value_equals v w
  | op_neq => negb (value_equals v w)
  | op_gt => value_less w v
  | op_gte => negb (value_less v w)
  | op_lt => value_less v w
  | op_lte => negb (value_less w v)
  | op_contains => value_contains v w
  end.

Section Meaning.
Context (decode : string -> option Z) `{!BigIntCodec decode}.

Definition value_of (s : scalar) : option value :=
  match s with
  | sc_string v => Some (v_string v)
  | sc_boolean b => Some (v_boolean b)
  | sc_int64 v => v_int64 <$> parseInt64 decode v
  | sc_float64 x => if num_is_finite x then Some (v_float64 x) else None
  | sc_timestamp v => v_instant <$> timestampToEpochNanos v
  | sc_duration v => v_duration <$> parseInt64 decode v
  end.

Definition field_value (fields : jsmap string scalar) (f : field_ref) : option value :=
  match map_get (fieldKey f) fields with
  | Some s => if bool_decide (type_of s = fr_type f) then value_of s else None
  | None => None
  end.

(** The reference semantics: no state, no failure. *)
Fixpoint holds (fields : jsmap string scalar) (p : predicate) : bool :=
  match p with
  | p_all cs => forallb (holds fields) cs
  | p_any cs => existsb (holds fields) cs
  | p_not c => negb (holds fields c)
  | p_exists f => bool_decide (is_Some (field_value fields f))
  | p_compare op f literal =>
      match field_value fields f, value_of literal with
      | Some v, Some w => holds_op op v w
      | _, _ => false
      end
  | p_in f literals =>
      match field_value fields f with
      | Some v => existsb (fun l => match value_of l with Some w => value_equals v w | None => false end)
                    literals
      | None => false
      end
  end.

Fixpoint fields_of (p : predicate) : list field_ref :=
  match p with
  | p_all cs | p_any cs => concat (map fields_of cs)
  | p_not c => fields_of c
  | p_exists f | p_compare _ f _ | p_in f _ => [f]
  end.

Lemma value_of_ok s : scalar_ok decode s <-> is_Some (value_of s).
Proof.
  destruct s as [v|b|v|x|v|v]; cbn; rewrite ?fmap_is_Some; try done;
    try (split; [intros _; eauto|done]).
  destruct (num_is_finite x); split; intros H; eauto; [done|by destruct H].
Qed.

Lemma parse_reads s z : parseInt64 decode s = Some z -> string_to_bigint s = Some z.
Proof.
  unfold parseInt64. destruct (decode s) as [z'|] eqn:E; [|done]. case_match; [|done].
  intros [= ->]. by apply codec_reads.
Qed.

Lemma value_of_type s v w s' :
  value_of s = Some v -> value_of s' = Some w -> type_of s = type_of s' ->
  match v, w with
  | v_string _, v_string _ | v_boolean _, v_boolean _ | v_int64 _, v_int64 _
  | v_float64 _, v_float64 _ | v_instant _, v_instant _ | v_duration _, v_duration _ => True
  | _, _ => False
  end.
Proof.
  destruct s, s'; cbn; try done; rewrite ?fmap_Some; try case_match; try case_match; naive_solver.
Qed.

Lemma scalarEquals_value s s' v w :
  value_of s = Some v -> value_of s' = Some w -> scalarEquals s s' = Some (value_equals v w).
Proof.
  assert (Hbig : forall a b x y, parseInt64 decode a = Some x -> parseInt64 decode b = Some y ->
            bigint_eq a b = Some (x =? y)).
  { intros a b x y Ha Hb. unfold bigint_eq. by rewrite (parse_reads _ _ Ha), (parse_reads _ _ Hb). }
  destruct s, s'; cbn; rewrite ?fmap_Some; try case_match; try case_match; try done;
    try (intros [? [? ->]]); try (intros [= <-]); try (intros [? [? ->]]); try (intros [= <-]);
    try done; eauto.
  match goal with H1 : _ = Some ?x, H2 : _ = Some ?y |- _ => rewrite H1, H2 end. cbn.
  f_equal. destruct (Z.eqb_spec x x0); case_bool_decide; congruence.
Qed.
Lemma scalarOrder_value s s' v w :
  value_of s = Some v -> value_of s' = Some w -> type_of s = type_of s' ->
  is_ordered (type_of s) = true ->
  exists o, scalarOrder s s' = Some (Some o) /\
    (0 <? o) = value_less w v /\ (o <? 0) = value_less v w.
Proof.
  assert (Hord : forall x y, (0 <? order_of x y) = (y <? x) /\ (order_of x y <? 0) = (x <? y)).
  { intros x y. unfold order_of. destruct (Z.ltb_spec x y), (Z.ltb_spec y x); done || lia. }
  assert (Hbig : forall a b x y, parseInt64 decode a = Some x -> parseInt64 decode b = Some y ->
            bigint_order a b = Some (Some (order_of x y))).
  { intros a b x y Ha Hb. unfold bigint_order. by rewrite (parse_reads _ _ Ha), (parse_reads _ _ Hb). }
  destruct s, s'; cbn; try done; rewrite ?fmap_Some.
  - intros (x & Hx & ->) (y & Hy & ->) _ _. eexists. split; [by apply Hbig|]. apply Hord.
  - case_match; [|done]. intros [= <-]. case_match; [|done]. intros [= <-] _ _.
    eexists. split; [reflexivity|]. cbn. change (num_gtb value0 value1) with (num_ltb value1 value0).
    destruct (num_ltb value0 value1) eqn:E1, (num_ltb value1 value0) eqn:E2; try done.
    apply num_lt_asym in E1. apply num_lt_le in E2. congruence.
  - intros (x & Hx & ->) (y & Hy & ->) _ _. rewrite Hx, Hy. eexists. split; [reflexivity|]. apply Hord.
  - intros (x & Hx & ->) (y & Hy & ->) _ _. eexists. split; [by apply Hbig|]. apply Hord.
Qed.

Lemma evaluate_compare_value op f s l v w :
  value_of s = Some v -> value_of l = Some w -> type_of s = fr_type f ->
  operands_ok op f l -> evaluate_compare op s l = Some (holds_op op v w).
Proof.
  intros Hv Hw Ht Hop.
  assert (Hcmp : is_ordered (fr_type f) = true /\ fr_type f = type_of l ->
    exists o, scalarOrder s l = Some (Some o) /\
      (0 <? o) = value_less w v /\ (o <? 0) = value_less v w).
  { intros [Ho Hl]. apply scalarOrder_value; congruence. }
  destruct op; cbn [operands_ok] in Hop; cbn [evaluate_compare holds_op].
  1, 2: by rewrite (scalarEquals_value _ _ _ _ Hv Hw).
  1-4: destruct (Hcmp Hop) as (o & -> & Hg & Hl); cbn; rewrite ?Z.leb_antisym, ?Hg, ?Hl; done.
  destruct Hop as [Hf Hl]. rewrite Hf in Ht. destruct s; try done. destruct l; try done.
  cbn in Hv, Hw. by simplify_eq.
Qed.

Lemma readField_value fields f mm :
  match field_value fields f with
  | Some v => exists s, readField decode fields f mm = (Some s, mm) /\
                type_of s = fr_type f /\ value_of s = Some v
  | None => exists extra, readField decode fields f mm = (None, mm ++ extra) /\
              forall g, g ∈ extra -> g = f /\ is_Some (map_get (fieldKey f) fields)
  end.
Proof.
  unfold field_value, readField. destruct (map_get (fieldKey f) fields) as [s|] eqn:Eg.
  2: { exists []. rewrite app_nil_r. split; [done|set_solver]. }
  pose proof (scalar_issues decode s "value") as Hi. pose proof (value_of_ok s) as Hok.
  case_bool_decide as Ht; cbn.
  - destruct (value_of s) as [v|] eqn:Ev.
    + exists s. rewrite bool_decide_true by (apply Hi, Hok; eauto). done.
    + exists [f]. rewrite bool_decide_false by (rewrite Hi, Hok; by intros [? ?]).
      split; [done|]. intros g ->%list_elem_of_singleton. eauto.
  - exists [f]. split; [done|]. intros g ->%list_elem_of_singleton. eauto.
Qed.

(** Fields reported as mismatches: read by the predicate, carried by the signal,
    without a value of the type asked for. *)
Definition mismatched (fields : jsmap string scalar) (p : predicate) (f : field_ref) : Prop :=
  f ∈ fields_of p /\ is_Some (map_get (fieldKey f) fields) /\ field_value fields f = None.

Definition evaluates (fields : jsmap string scalar) (p : predicate) : Prop := forall mm,
  exists extra, evaluate decode fields p mm = Some (holds fields p, mm ++ extra) /\
    forall f, f ∈ extra -> mismatched fields p f.

Lemma clauses_evaluate fields cs (stop : bool) :
  Forall (evaluates fields) cs -> forall mm,
  exists extra,
    (if stop then some_reading (evaluate decode fields) cs mm
     else every_reading (evaluate decode fields) cs mm) =
      Some (if stop then existsb (holds fields) cs else forallb (holds fields) cs, mm ++ extra) /\
    forall f, f ∈ extra -> exists c, c ∈ cs /\ mismatched fields c f.
Proof.
  induction 1 as [|c cs Hc Hcs IH]; intros mm.
  - exists []. rewrite app_nil_r. destruct stop; cbn; (split; [done|set_solver]).
  - destruct (Hc mm) as (e1 & E1 & Hf1). destruct (IH (mm ++ e1)) as (e2 & E2 & Hf2).
    destruct stop; cbn; rewrite E1; destruct (holds fields c); cbn;
      try (exists e1; split; [done|]; intros f Hf; exists c; split; [set_solver|by apply Hf1]);
      (exists (e1 ++ e2); rewrite app_assoc; split; [exact E2|];
       intros f [Hf|Hf]%elem_of_app; [exists c; split; [set_solver|by apply Hf1]|];
       apply Hf2 in Hf as (c' & ? & ?); exists c'; split; [set_solver|done]).
Qed.

Lemma some_equals_value s v literals :
  value_of s = Some v -> Forall (fun l => literal_ok decode l) literals ->
  some_equals s literals =
  Some (existsb (fun l => match value_of l with Some w => value_equals v w | None => false end) literals).
Proof.
  intros Hv. induction 1 as [|l ls Hl Hls IH]; [done|]. cbn [some_equals existsb].
  destruct Hl as [Hl _]. apply value_of_ok in Hl as [w Hw].
  rewrite (scalarEquals_value _ _ _ _ Hv Hw), Hw. cbn. by destruct (value_equals v w).
Qed.

Lemma mismatched_clause fields p c f cs :
  (p = p_all cs \/ p = p_any cs) -> c ∈ cs -> mismatched fields c f -> mismatched fields p f.
Proof.
  intros Hp Hc (Hf & Hs). split; [|done].
  assert (f ∈ concat (map fields_of cs)); [|by destruct Hp as [-> | ->]].
  apply list_elem_of_In, in_concat. exists (fields_of c).
  split; [by apply in_map, list_elem_of_In|by apply list_elem_of_In].
Qed.

Lemma evaluate_holds fields p : pred_ok decode p -> evaluates fields p.
Proof.
  induction p as [cs IH|cs IH|c IH|f|op f l|f ls] using predicate_ind'; intros Hok mm;
    cbn [evaluate holds].
  1, 2: destruct Hok as [_ Hok]; rewrite foldr_and in Hok;
    assert (Hcs : Forall (evaluates fields) cs) by
      (rewrite Forall_forall in *; intros c Hc; by apply IH, Hok).
  - destruct (clauses_evaluate fields cs false Hcs mm) as (e & He & Hf). exists e. split; [done|].
    intros f (c & Hc & Hm)%Hf. eapply mismatched_clause; eauto.
  - destruct (clauses_evaluate fields cs true Hcs mm) as (e & He & Hf). exists e. split; [done|].
    intros f (c & Hc & Hm)%Hf. eapply mismatched_clause; eauto.
  - destruct (IH Hok mm) as (e & -> & Hf). by exists e.
  - pose proof (readField_value fields f mm) as Hr. destruct (field_value fields f) as [v|] eqn:Ev.
    + destruct Hr as (s & -> & _). exists []. rewrite app_nil_r. split; [done|set_solver].
    + destruct Hr as (e & -> & He). exists e. split; [done|]. intros g [-> Hs]%He.
      split; [cbn; set_solver|done].
  - destruct Hok as [Hop [Hl _]]. apply value_of_ok in Hl as [w Hw].
    pose proof (readField_value fields f mm) as Hr. destruct (field_value fields f) as [v|] eqn:Ev.
    + destruct Hr as (s & -> & Ht & Hv). exists []. rewrite app_nil_r.
      rewrite (evaluate_compare_value op f s l v w), Hw by done. split; [done|set_solver].
    + destruct Hr as (e & -> & He). exists e. split; [done|]. intros g [-> Hs]%He.
      split; [cbn; set_solver|done].
  - destruct Hok as (_ & _ & Hls).
    pose proof (readField_value fields f mm) as Hr. destruct (field_value fields f) as [v|] eqn:Ev.
    + destruct Hr as (s & -> & Ht & Hv). exists []. rewrite app_nil_r.
      rewrite (some_equals_value s v) by (done || by eapply Forall_impl; [exact Hls|intros ? [_ ?]]).
      split; [done|set_solver].
    + destruct Hr as (e & -> & He). exists e. split; [done|]. intros g [-> Hs]%He.
      split; [cbn; set_solver|done].
Qed.

Lemma compile_ok p f :
  compileSignalPredicate decode p = Ok f -> pred_ok decode p /\ f = run_compiled decode p.
Proof.
  unfold compileSignalPredicate. pose proof (check_budget_spec p) as Hb.
  destruct (checkSignalProjectionInputBudget p) as [u|e]; [|done]. cbn [is_ok] in Hb.
  destruct (proj1 Hb eq_refl) as (Hs & Hd & _).
  pose proof (validate_spec decode p Hs Hd) as Hv.
  destruct (validateSignalPredicate decode p); [|done].
  intros [= <-]. split; [by apply Hv|done].
Qed.

(** C29: a compiled predicate never throws: on every signal it answers with the
    typed meaning of the predicate, in which a field of the wrong type is the
    same as an absent one, and the fields it reports are ones the predicate
    reads and the signal carries without a value of the type asked for. *)
Theorem compiled_predicate_meaning p f fields
    (Hc : compileSignalPredicate decode p = Ok f) :
  exists mm, f fields = Some {| er_matches := holds fields p; er_typeMismatches := mm |} /\
    forall g, g ∈ mm -> mismatched fields p g.
Proof.
  destruct (compile_ok p f Hc) as [Hok ->].
  destruct (evaluate_holds fields p Hok []) as (e & He & Hf). exists e.
  unfold run_compiled. rewrite He. done.
Qed.
End Meaning.

Definition status_field : field_ref :=
  {| fr_namespace := ns_attribute; fr_key := "http.status"; fr_type := ty_int64 |}.

Definition server_error : predicate :=
  p_all [p_compare op_gte status_field (sc_int64 "500");
         p_not (p_compare op_eq status_field (sc_int64 "503"))].

Definition fields_502 : jsmap string scalar :=
  defineSignalFields [(status_field, sc_int64 "502")].

Definition compiled_demo : compiled_predicate :=
  match compileSignalPredicate string_to_bigint server_error with
  | Ok f => f
  | Err _ => fun _ => None
  end.

Lemma server_error_accepted : is_ok (compileSignalPredicate string_to_bigint server_error) = true.
Proof. vm_compute. reflexivity. Qed.

Lemma server_error_compiles : compileSignalPredicate string_to_bigint server_error = Ok compiled_demo.
Proof.
  unfold compiled_demo. pose proof server_error_accepted as H.
  destruct (compileSignalPredicate string_to_bigint server_error); done.
Qed.

Lemma fields_502_hold : holds string_to_bigint fields_502 server_error = true.
Proof. vm_compute. reflexivity. Qed.

Example compiled_predicate_meaning_witness :
  compileSignalPredicate string_to_bigint server_error = Ok compiled_demo /\
  exists mm, compiled_demo fields_502 = Some {| er_matches := true; er_typeMismatches := mm |}.
Proof.
  split; [exact server_error_compiles|].
  destruct (compiled_predicate_meaning string_to_bigint server_error compiled_demo fields_502
              server_error_compiles) as (mm & Hf & _).
  exists mm. rewrite <- fields_502_hold. exact Hf.
Defined.
