(* ===== verification/EventSource.v ===== *)
(** * Eventing: signal sources

    [packages/eventing-core/src/source.ts]: the catalog of fields a source
    offers, the registry of sources, and the check of a predicate against the
    source it selects from. *)

From Stdlib Require Import Ascii String.
From stdpp Require Import prelude list strings.
From Stdlib Require Import ZArith Lia.
From S2P Require Import Prelude.
From S2P Require Import JsString.
From S2P Require Import EventModel.
From S2P Require Import EventPredicate.

Open Scope Z_scope.

(** ** Data *)

Inductive leaf_operator := lo_exists | lo_compare (op : comparison_op) | lo_in.

#[export] Instance comparison_op_eq_dec : EqDecision comparison_op.
Proof. solve_decision. Defined.

#[export] Instance leaf_operator_eq_dec : EqDecision leaf_operator.
Proof. solve_decision. Defined.

Inductive sensitivity := sn_public | sn_sensitive.
Inductive replay_capability := rc_exact | rc_coerced | rc_unavailable.

Record field_policy := {
  fp_operators : list leaf_operator;
  fp_sensitivity : sensitivity;
  fp_replay : replay_capability
}.

(** A catalog entry names one type with its field, or lists several. *)
Inductive catalog_field :=
  | cf_typed (field : field_ref)
  | cf_listed (namespace : field_namespace) (key : string) (types : list scalar_type).

Record catalog_entry := { ce_policy : field_policy; ce_field : catalog_field }.

Record open_policy := {
  ol_policy : field_policy;
  ol_namespace : field_namespace;
  ol_types : list scalar_type
}.

Record source_definition := {
  sd_sourceKind : string;
  sd_fields : list catalog_entry;
  sd_openFields : option (list open_policy)
}.

Record registered_source := {
  rg_definition : source_definition;
  rg_fields : jsmap string catalog_entry;
  rg_openFields : jsmap field_namespace open_policy
}.

Definition entry_key (e : catalog_entry) : string :=
  match ce_field e with
  | cf_typed f => fieldKey f
  | cf_listed n k _ => fieldKey_of n k
  end.

Definition catalogEntryTypes (e : catalog_entry) : list scalar_type :=
  match ce_field e with
  | cf_typed f => [fr_type f]
  | cf_listed _ _ types => types
  end.

(** ** Registration *)

Section Registry.
(** The library's check for surrounding white space, and its error texts. *)
Variable isTrimmed : string -> bool.
Variable schema_message : source_definition -> string.

Definition key_in_bounds (key : string) : bool :=
  (1 <=? utf16_length key) && (utf16_length key <=? 512).

Definition has_operators (p : field_policy) : bool := negb (bool_decide (fp_operators p = [])).

Definition entry_schema_ok (e : catalog_entry) : bool :=
  has_operators (ce_policy e) &&
  match ce_field e with
  | cf_typed f => key_in_bounds (fr_key f)
  | cf_listed _ k types => key_in_bounds k && negb (bool_decide (types = []))
  end.

Definition open_schema_ok (p : open_policy) : bool :=
  has_operators (ol_policy p) && negb (bool_decide (ol_types p = [])).

Definition source_schema_ok (d : source_definition) : bool :=
  negb (bool_decide (sd_sourceKind d = EmptyString)) && isTrimmed (sd_sourceKind d) &&
  forallb entry_schema_ok (sd_fields d) && forallb open_schema_ok (default [] (sd_openFields d)).

Record source_invalid := { si_sourceKind : string; si_message : string }.

Definition registry : Type := jsmap string registered_source.

(** The shape of the loops that index the catalog and the open namespaces. *)
Fixpoint index_unique {K V} `{!EqDecision K} (key : V -> K) (duplicate : V -> source_invalid)
    (entries : list V) (index : jsmap K V) : result source_invalid (jsmap K V) :=
  match entries with
  | [] => Ok index
  | e :: rest =>
      if map_has (key e) index then Err (duplicate e)
      else index_unique key duplicate rest (map_set (key e) e index)
  end.

Definition duplicate_field (kind : string) (e : catalog_entry) : source_invalid :=
  {| si_sourceKind := kind;
     si_message := "duplicate field catalog entry: " ++ kind ++ ":" ++ entry_key e |}%string.

Definition duplicate_open (kind : string) (p : open_policy) : source_invalid :=
  {| si_sourceKind := kind;
     si_message := "duplicate open field policy: " ++ kind ++ ":" ++ namespace_name (ol_namespace p) |}%string.

Local Open Scope maple_scope.

Definition register (sources : registry) (d : source_definition) : result source_invalid registry :=
  let kind := sd_sourceKind d in
  if negb (source_schema_ok d)
  then Err {| si_sourceKind := kind; si_message := schema_message d |}
  else if map_has kind sources
  then Err {| si_sourceKind := kind; si_message := "duplicate source registration: " ++ kind |}%string
  else
    let! fields := index_unique entry_key (duplicate_field kind) (sd_fields d) [] in
    let! open := index_unique ol_namespace (duplicate_open kind) (default [] (sd_openFields d)) [] in
    Ok (map_set kind {| rg_definition := d; rg_fields := fields; rg_openFields := open |} sources).

Definition get_source (sources : registry) (kind : string) : option registered_source :=
  map_get kind sources.
End Registry.

(** ** Predicates against a source *)

Record leaf := { lf_field : field_ref; lf_operator : leaf_operator; lf_path : string }.

Definition operator_name (o : leaf_operator) : string :=
  match o with lo_exists => "exists" | lo_compare op => op_name op | lo_in => "in" end.

Definition leaf_clauses (visit : predicate -> string -> list leaf) (path : string) :
    nat -> list predicate -> list leaf :=
  fix go i clauses :=
    match clauses with
    | [] => []
    | c :: rest => visit c (index_path path i) ++ go (S i) rest
    end.

Fixpoint leaf_visit (node : predicate) (path : string) : list leaf :=
  match node with
  | p_all cs | p_any cs => leaf_clauses leaf_visit (path ++ ".clauses")%string 0 cs
  | p_not c => leaf_visit c (path ++ ".clause")%string
  | p_exists f => [{| lf_field := f; lf_operator := lo_exists; lf_path := path |}]
  | p_compare op f _ => [{| lf_field := f; lf_operator := lo_compare op; lf_path := path |}]
  | p_in f _ => [{| lf_field := f; lf_operator := lo_in; lf_path := path |}]
  end.

Definition leafFields (p : predicate) : list leaf := leaf_visit p "selector".

Definition unless (b : bool) (path message : string) : list issue :=
  if b then [] else [{| is_path := path; is_message := message |}].

Definition leaf_issues (source : registered_source) (l : leaf) : list issue :=
  let f := lf_field l in
  let key := fieldKey f in
  let operator := operator_name (lf_operator l) in
  match map_get key (rg_fields source) with
  | Some entry =>
      let types := catalogEntryTypes entry in
      unless (bool_decide (fr_type f ∈ types)) (lf_path l ++ ".field.type")
        ("catalog field " ++ key ++ " allows " ++ join ", " (map type_name types)) ++
      unless (bool_decide (lf_operator l ∈ fp_operators (ce_policy entry))) (lf_path l ++ ".op")
        (operator ++ " is not allowed for catalog field " ++ key)
  | None =>
      match map_get (fr_namespace f) (rg_openFields source) with
      | None =>
          [{| is_path := lf_path l ++ ".field";
              is_message := "unknown field " ++ key ++ " for source " ++
                            sd_sourceKind (rg_definition source) |}%string]
      | Some open =>
          let ns := namespace_name (fr_namespace f) in
          unless (bool_decide (fr_type f ∈ ol_types open)) (lf_path l ++ ".field.type")
            (type_name (fr_type f) ++ " is not allowed for open " ++ ns ++ " fields") ++
          unless (bool_decide (lf_operator l ∈ fp_operators (ol_policy open))) (lf_path l ++ ".op")
            (operator ++ " is not allowed for open " ++ ns ++ " fields")
      end
  end%list.

Definition validatePredicateAgainstSource (p : predicate) (source : registered_source) : list issue :=
  concat (map (leaf_issues source) (leafFields p)).

(** ** What registration guarantees *)

Section Index.
Context {K V : Type} `{!EqDecision K} (key : V -> K) (duplicate : V -> source_invalid).

Lemma index_unique_spec entries index :
  (is_ok (index_unique key duplicate entries index) = true <->
     NoDup (map key entries) /\ Forall (fun e => map_get (key e) index = None) entries) /\
  forall index', index_unique key duplicate entries index = Ok index' -> forall k,
    map_get k index' =
    match List.find (fun e => bool_decide (key e = k)) entries with
    | Some e => Some e
    | None => map_get k index
    end.
Proof.
  revert index. induction entries as [|e es IH]; intros index; cbn [index_unique map List.find].
  - split; [split; [repeat constructor|done]|]. intros index' [= <-] k. done.
  - rewrite NoDup_cons, Forall_cons.
    destruct (map_has (key e) index) eqn:Eh.
    + split; [|done]. split; [done|]. intros (_ & Hn & _). apply map_has_false in Hn. congruence.
    + apply map_has_false in Eh. destruct (IH (map_set (key e) e index)) as [IH1 IH2]. split.
      * rewrite IH1. setoid_rewrite map_get_set. split.
        -- intros [Hnd Hf]. rewrite Forall_forall in Hf. split_and!; [|done|done|].
           ++ intros Hin. apply list_elem_of_fmap in Hin as (e' & Hk & Hin). specialize (Hf e' Hin).
              rewrite decide_True in Hf; done.
           ++ apply Forall_forall. intros e' Hin. specialize (Hf e' Hin). by case_decide.
        -- intros ([Hni Hnd] & _ & Hf). split; [done|]. rewrite Forall_forall in *.
           intros e' Hin. rewrite decide_False; [by apply Hf|]. intros Hk. apply Hni.
           rewrite Hk. apply list_elem_of_fmap. eauto.
      * intros index' Hi k. rewrite (IH2 _ Hi), map_get_set.
        assert (Hnd : NoDup (map key es) /\ Forall (fun e' => map_get (key e') (map_set (key e) e index) = None) es).
        { apply IH1. by rewrite Hi. }
        destruct Hnd as [_ Hf]. rewrite Forall_forall in Hf.
        case_bool_decide as Hk; [|by destruct (List.find _ es); rewrite ?decide_False].
        rewrite decide_True by done. destruct (List.find _ es) as [e'|] eqn:Ef; [|done].
        apply List.find_some in Ef as [Hin%list_elem_of_In Hk'%bool_decide_eq_true].
        specialize (Hf e' Hin). rewrite map_get_set, decide_True in Hf by congruence. done.
Qed.

End Index.

Section Find.
Context {K V : Type} `{!EqDecision K} (key : V -> K).

Lemma find_key entries k e :
  NoDup (map key entries) ->
  List.find (fun e => bool_decide (key e = k)) entries = Some e <-> e ∈ entries /\ key e = k.
Proof.
  induction entries as [|x es IH]; cbn [List.find map]; [split; [done|set_solver]|].
  rewrite NoDup_cons. intros [Hni Hnd]. case_bool_decide as Hk.
  - split; [intros [= ->]; split; [set_solver|done]|].
    intros [[->|Hin]%elem_of_cons He]; [done|]. exfalso. apply Hni.
    rewrite Hk, <- He. apply list_elem_of_fmap. eauto.
  - rewrite IH by done. set_solver.
Qed.

Lemma find_no_key entries k :
  List.find (fun e => bool_decide (key e = k)) entries = None <-> forall e, e ∈ entries -> key e <> k.
Proof.
  split.
  - intros H e Hin. apply list_elem_of_In in Hin. pose proof (List.find_none _ _ H e Hin) as Hb.
    by apply bool_decide_eq_false in Hb.
  - intros H. destruct (List.find _ _) as [e|] eqn:E; [|done].
    apply List.find_some in E as [Hin%list_elem_of_In Hk%bool_decide_eq_true]. by destruct (H e Hin).
Qed.
End Find.

(** A leaf the source's definition allows: by its catalog entry, or, for a field
    outside the catalog, by the policy of its open namespace. *)
Definition policy_allows (policy : field_policy) (types : list scalar_type) (l : leaf) : Prop :=
  fr_type (lf_field l) ∈ types /\ lf_operator l ∈ fp_operators policy.

Definition leaf_allowed (d : source_definition) (l : leaf) : Prop :=
  (exists e, e ∈ sd_fields d /\ entry_key e = fieldKey (lf_field l) /\
             policy_allows (ce_policy e) (catalogEntryTypes e) l) \/
  ((forall e, e ∈ sd_fields d -> entry_key e <> fieldKey (lf_field l)) /\
   exists o, o ∈ default [] (sd_openFields d) /\ ol_namespace o = fr_namespace (lf_field l) /\
             policy_allows (ol_policy o) (ol_types o) l).

Lemma unless_nil b path message : unless b path message = [] <-> b = true.
Proof. by destruct b. Qed.

Section Registered.
Context (isTrimmed : string -> bool) (schema_message : source_definition -> string).

(** What a definition must satisfy to be registered. *)
Definition registrable (sources : registry) (d : source_definition) : Prop :=
  source_schema_ok isTrimmed d = true /\ get_source sources (sd_sourceKind d) = None /\
  NoDup (map entry_key (sd_fields d)) /\ NoDup (map ol_namespace (default [] (sd_openFields d))).

Lemma leaf_issues_nil d src l :
  NoDup (map entry_key (sd_fields d)) -> NoDup (map ol_namespace (default [] (sd_openFields d))) ->
  (forall k, map_get k (rg_fields src) =
             List.find (fun e => bool_decide (entry_key e = k)) (sd_fields d)) ->
  (forall n, map_get n (rg_openFields src) =
             List.find (fun o => bool_decide (ol_namespace o = n)) (default [] (sd_openFields d))) ->
  leaf_issues src l = [] <-> leaf_allowed d l.
Proof.
  intros Hnd Hno Hf Ho. unfold leaf_issues, leaf_allowed, policy_allows. rewrite Hf, Ho.
  destruct (List.find _ (sd_fields d)) as [e|] eqn:Ef.
  - apply (find_key entry_key _ _ _ Hnd) in Ef as [Hin Hk].
    rewrite app_nil, !unless_nil, !bool_decide_eq_true. split.
    + intros [Ht Hop]. left. exists e. done.
    + intros [(e' & Hin' & Hk' & Ht & Hop)|[Hno' _]]; [|by destruct (Hno' e Hin)].
      assert (e' = e) as ->; [|done].
      assert (Some e' = Some e); [|congruence].
      rewrite <- (proj2 (find_key entry_key _ _ _ Hnd) (conj Hin' Hk')).
      by apply (find_key entry_key _ _ _ Hnd).
  - pose proof (proj1 (find_no_key entry_key _ _) Ef) as Hne.
    destruct (List.find _ (default [] _)) as [o|] eqn:Eo.
    + apply (find_key ol_namespace _ _ _ Hno) in Eo as [Hin Hk].
      rewrite app_nil, !unless_nil, !bool_decide_eq_true. split.
      * intros [Ht Hop]. right. split; [done|]. exists o. done.
      * intros [(e' & Hin' & Hk' & _)|[_ (o' & Hin' & Hk' & Ht & Hop)]]; [by destruct (Hne e' Hin')|].
        assert (Some o' = Some o) as [= ->]; [|done].
        rewrite <- (proj2 (find_key ol_namespace _ _ _ Hno) (conj Hin' Hk')).
        by apply (find_key ol_namespace _ _ _ Hno).
    + pose proof (proj1 (find_no_key ol_namespace _ _) Eo) as Hneo. split; [done|].
      intros [(e' & Hin' & Hk' & _)|[_ (o' & Hin' & Hk' & _)]];
        [by destruct (Hne e' Hin')|by destruct (Hneo o' Hin')].
Qed.

(** A source is registered exactly when its definition passes the schema,
    its kind is new and neither its catalog nor its open namespaces repeat a
    key; registering it leaves every other source as it was, and a predicate
    raises no issue against it exactly when every leaf is allowed by the
    definition. *)
Theorem register_source_contract sources d :
  (is_ok (register isTrimmed schema_message sources d) = true <-> registrable sources d) /\
  forall sources', register isTrimmed schema_message sources d = Ok sources' ->
    (forall kind, kind <> sd_sourceKind d -> get_source sources' kind = get_source sources kind) /\
    exists src, get_source sources' (sd_sourceKind d) = Some src /\ rg_definition src = d /\
      forall p, validatePredicateAgainstSource p src = [] <->
                Forall (leaf_allowed d) (leafFields p).
Proof.
  unfold register, registrable. cbn zeta.
  destruct (source_schema_ok isTrimmed d); cbn [negb]; [|by split; [split; [done|intros [? ?]]|]].
  destruct (map_has (sd_sourceKind d) sources) eqn:Eh.
  { split; [|done]. split; [done|]. intros (_ & Hn & _). apply map_has_false in Hn. congruence. }
  apply map_has_false in Eh.
  destruct (index_unique_spec entry_key (duplicate_field (sd_sourceKind d)) (sd_fields d) []) as [F1 F2].
  destruct (index_unique_spec ol_namespace (duplicate_open (sd_sourceKind d))
              (default [] (sd_openFields d)) []) as [O1 O2].
  assert (Hall : forall {V K} (g : V -> K) (l : list V), Forall (fun e => @None V = None) l)
    by (intros; by apply Forall_true).
  destruct (index_unique entry_key _ _ _) as [fields|err]; cbn [result_bind is_ok] in *.
  2: { split; [|done]. split; [done|]. intros (_ & _ & Hnd & _). apply F1. split; [done|by apply Forall_true]. }
  destruct (index_unique ol_namespace _ _ _) as [open|err]; cbn [result_bind is_ok] in *.
  2: { split; [|done]. split; [done|]. intros (_ & _ & _ & Hnd). apply O1. split; [done|by apply Forall_true]. }
  destruct (proj1 F1 eq_refl) as [Hnf _], (proj1 O1 eq_refl) as [Hno _].
  split; [done|]. intros sources' [= <-]. unfold get_source. split.
  - intros kind Hk. by apply map_get_set_ne.
  - eexists. rewrite map_get_set_eq. split_and!; [done|done|]. intros p.
    unfold validatePredicateAgainstSource. rewrite concat_nil_Forall, Forall_map.
    apply Forall_iff. intros l. apply leaf_issues_nil; [done|done|..]; cbn.
    + intros k. rewrite (F2 _ eq_refl). by destruct (List.find _ _).
    + intros n. rewrite (O2 _ eq_refl). by destruct (List.find _ _).
Qed.
End Registered.
