(* ===== verification/EventEnvelope.v ===== *)
(** * Eventing: the event envelope

    [packages/eventing-core/src/event.ts]: the identity of an event, canonical
    JSON, and the envelope a projection produces. SHA-256 and the conversion of
    a number to text belong to the platform, and the texts of schema errors to
    the schema library: they are parameters. *)

From Stdlib Require Import Ascii String.
From stdpp Require Import prelude list strings.
From Stdlib Require Import ZArith Lia.
From S2P Require Import Prelude.
From S2P Require Import JsNum.
From S2P Require Import JsString.
From S2P Require Import EventTime.
From S2P Require Import EventModel.

Open Scope Z_scope.

(** ** Identity *)

Record event_identity := {
  ei_tenantId : string;
  ei_sourceKind : string;
  ei_source : string;
  ei_occurrenceId : string;
  ei_projectionId : string;
  ei_projectionRevision : Z
}.

Definition byte_char (z : Z) : ascii := ascii_of_N (Z.to_N (z mod 256)).

(** [length.writeUInt32BE(n)] *)
Definition uint32_be (n : Z) : string :=
  String (byte_char (n / 2 ^ 24)) (String (byte_char (n / 2 ^ 16))
    (String (byte_char (n / 2 ^ 8)) (String (byte_char n) EmptyString))).

(** The bytes [updateLengthDelimited] adds to the hash. *)
Definition length_delimited (value : string) : string :=
  (uint32_be (byte_length value) ++ value)%string.

Fixpoint string_concat (parts : list string) : string :=
  match parts with [] => EmptyString | p :: rest => (p ++ string_concat rest)%string end.

Definition identity_fields (i : event_identity) : list string :=
  ["maple-event-v1"%string; ei_tenantId i; ei_sourceKind i; ei_source i; ei_occurrenceId i;
   ei_projectionId i; show (ei_projectionRevision i)].

Definition event_preimage (i : event_identity) : string :=
  string_concat (map length_delimited (identity_fields i)).

Definition makeEventId (sha256_hex : string -> string) (i : event_identity) : string :=
  ("sha256:" ++ sha256_hex (event_preimage i))%string.

(** ** JSON *)

(** A JSON value; an object's members are in the order of its properties. *)
Inductive json :=
  | j_null
  | j_boolean (b : bool)
  | j_number (x : num)
  | j_string (s : string)
  | j_array (items : list json)
  | j_object (members : list (string * json)).

(** An array index, a key that an object lists before its other keys. *)
Definition array_index (key : string) : option Z :=
  match digits_value 0 key with
  | Some z => if bool_decide (show z = key) && (z <? 2 ^ 32 - 1) then Some z else None
  | None => None
  end.

(** [Object.fromEntries] on entries with distinct keys. *)
Definition from_entries (entries : list (string * json)) : list (string * json) :=
  js_sort (fun a b => default 0 (array_index a.1) - default 0 (array_index b.1))
    (List.filter (fun e => bool_decide (is_Some (array_index e.1))) entries)
  ++ List.filter (fun e => negb (bool_decide (is_Some (array_index e.1)))) entries.

Fixpoint canonicalizeJson (j : json) : json :=
  match j with
  | j_array items => j_array (map canonicalizeJson items)
  | j_object members =>
      j_object (from_entries
        (js_sort (fun a b => string_compare a.1 b.1)
           (map (fun e => (e.1, canonicalizeJson e.2)) members)))
  | _ => j
  end.

(** [Schema.Json]: every number is finite. *)
Fixpoint json_finite (j : json) : bool :=
  match j with
  | j_number x => num_is_finite x
  | j_array items => forallb json_finite items
  | j_object members => forallb (fun e => json_finite e.2) members
  | _ => true
  end.

Definition hex_digit (d : Z) : ascii := ascii_of_N (Z.to_N (if d <? 10 then 48 + d else 87 + d)).

(** One character inside a JSON string; the quote is character 34. *)
Definition escape_char (c : ascii) : string :=
  let b := byte_of c in
  let escaped (d : ascii) := String "\"%char (String d EmptyString) in
  if (b =? 34) || (b =? 92) then escaped c
  else if b =? 8 then escaped "b"%char else if b =? 9 then escaped "t"%char
  else if b =? 10 then escaped "n"%char else if b =? 12 then escaped "f"%char else if b =? 13 then escaped "r"%char
  else if b <? 32 then
    ("\u00" ++ String (hex_digit (b / 16)) (String (hex_digit (b mod 16)) EmptyString))%string
  else String c EmptyString.

Fixpoint escape (s : string) : string :=
  match s with EmptyString => EmptyString | String c s' => (escape_char c ++ escape s')%string end.

Definition quote : string := String (ascii_of_N 34) EmptyString.

Definition quoted (s : string) : string := (quote ++ escape s ++ quote)%string.

Section Envelope.
Variable sha256_hex : string -> string.
Variable number_to_string : num -> string.
Variable isTrimmed : string -> bool.

(** [JSON.stringify] *)
Fixpoint stringify (j : json) : string :=
  match j with
  | j_null => "null"
  | j_boolean b => if b then "true" else "false"
  | j_number x => if num_is_finite x then number_to_string x else "null"
  | j_string s => quoted s
  | j_array items => ("[" ++ join "," (map stringify items) ++ "]")
  | j_object members =>
      ("{" ++ join "," (map (fun e => quoted e.1 ++ ":" ++ stringify e.2) members) ++ "}")
  end%string.

(** ** The envelope *)

Record cloud_event := {
  ce_id : string;
  ce_source : string;
  ce_type : string;
  ce_subject : option string;
  ce_time : string;
  ce_dataschema : string;
  ce_tenantid : string;
  ce_projectionid : string;
  ce_projectionrevision : Z;
  ce_projectorid : string;
  ce_projectorversion : Z;
  ce_sourceoccurrenceid : string;
  ce_identityquality : identity_quality;
  ce_data : json
}.

Definition quality_name (q : identity_quality) : string :=
  match q with iq_source => "source" | iq_derived => "derived" | iq_none => "none" end.

Definition event_json (e : cloud_event) : json :=
  j_object ([
    ("specversion", j_string "1.0"); ("id", j_string (ce_id e)); ("source", j_string (ce_source e));
    ("type", j_string (ce_type e)); ("time", j_string (ce_time e));
    ("datacontenttype", j_string "application/json"); ("dataschema", j_string (ce_dataschema e));
    ("tenantid", j_string (ce_tenantid e)); ("projectionid", j_string (ce_projectionid e));
    ("projectionrevision", j_number (num_of_Z (ce_projectionrevision e)));
    ("projectorid", j_string (ce_projectorid e));
    ("projectorversion", j_number (num_of_Z (ce_projectorversion e)));
    ("sourceoccurrenceid", j_string (ce_sourceoccurrenceid e));
    ("identityquality", j_string (quality_name (ce_identityquality e))); ("data", ce_data e)]%string
    ++ match ce_subject e with Some s => [("subject"%string, j_string s)] | None => [] end).

Definition identifier_ok (s : string) : bool :=
  (1 <=? utf16_length s) && (utf16_length s <=? 256) && isTrimmed s.

(** [MapleCloudEventSchema] on an envelope of this shape. *)
Definition event_schema_ok (e : cloud_event) : bool :=
  forallb identifier_ok [ce_id e; ce_source e; ce_type e; ce_dataschema e; ce_tenantid e;
                         ce_projectionid e; ce_projectorid e; ce_sourceoccurrenceid e] &&
  regex_test RFC3339_TIMESTAMP_PATTERN (ce_time e) &&
  (0 <? ce_projectionrevision e) && (0 <? ce_projectorversion e) && json_finite (ce_data e).

Definition MAX_CLOUD_EVENT_BYTES : Z := 256 * 1024.

(** Why an envelope is refused; the texts of schema errors are the library's. *)
Inductive cloud_event_invalid :=
  | ev_no_identity
  | ev_bad_time
  | ev_schema
  | ev_too_large.

Definition validateMapleCloudEvent (e : cloud_event) : result cloud_event_invalid (cloud_event * string * Z) :=
  if negb (event_schema_ok e) then Err ev_schema
  else
    let eventJson := stringify (canonicalizeJson (event_json e)) in
    let byteLength := byte_length eventJson in
    if byteLength <=? MAX_CLOUD_EVENT_BYTES then Ok (e, eventJson, byteLength) else Err ev_too_large.

Record cloud_event_input (D C : Type) := {
  ci_signal : signal D;
  ci_projection : projection_spec C;
  ci_projectorId : string;
  ci_projectorVersion : Z;
  ci_outputType : string;
  ci_dataSchema : string;
  ci_subject : option (option string);
  ci_time : option string;
  ci_data : json
}.

Local Open Scope maple_scope.

(** [Schema.decodeUnknownResult] of the identity fields of a signal. *)
Definition stable_identity {D} (s : signal D) : option string :=
  match sg_occurrenceId s with
  | Some o =>
      if negb (bool_decide (o = EmptyString)) && isTrimmed o
         && negb (bool_decide (sg_identityQuality s = iq_none))
      then Some o else None
  | None => None
  end.

Definition makeCloudEvent {D C} (i : cloud_event_input D C) : result cloud_event_invalid cloud_event :=
  let s := ci_signal _ _ i in
  let p := ci_projection _ _ i in
  match stable_identity s with
  | None => Err ev_no_identity
  | Some occurrenceId =>
      let subject := match ci_subject _ _ i with None => sg_subject s | Some x => x end in
      let time := default (sg_occurredAt s) (ci_time _ _ i) in
      match timestampToEpochNanos time with
      | None => Err ev_bad_time
      | Some _ =>
          let! checked := validateMapleCloudEvent {|
            ce_id := makeEventId sha256_hex {|
              ei_tenantId := sg_tenantId s; ei_sourceKind := sg_sourceKind s;
              ei_source := sg_source s; ei_occurrenceId := occurrenceId;
              ei_projectionId := ps_id p; ei_projectionRevision := ps_revision p |};
            ce_source := sg_source s; ce_type := ci_outputType _ _ i; ce_subject := subject;
            ce_time := time; ce_dataschema := ci_dataSchema _ _ i; ce_tenantid := sg_tenantId s;
            ce_projectionid := ps_id p; ce_projectionrevision := ps_revision p;
            ce_projectorid := ci_projectorId _ _ i; ce_projectorversion := ci_projectorVersion _ _ i;
            ce_sourceoccurrenceid := occurrenceId; ce_identityquality := sg_identityQuality s;
            ce_data := ci_data _ _ i |} in
          Ok checked.1.1
      end
  end.
End Envelope.

(** ** Identities do not collide *)

Lemma byte_of_byte_char z : byte_of (byte_char z) = z mod 256.
Proof.
  unfold byte_of, byte_char. pose proof (Z.mod_pos_bound z 256 ltac:(lia)).
  rewrite N_ascii_embedding by lia. lia.
Qed.

(** What a reader of the length prefix computes. *)
Definition uint32_of (c1 c2 c3 c4 : ascii) : Z :=
  byte_of c1 * 2 ^ 24 + byte_of c2 * 2 ^ 16 + byte_of c3 * 2 ^ 8 + byte_of c4.

Lemma uint32_be_reads n :
  0 <= n < 2 ^ 32 ->
  uint32_of (byte_char (n / 2 ^ 24)) (byte_char (n / 2 ^ 16)) (byte_char (n / 2 ^ 8)) (byte_char n) = n.
Proof.
  intros Hn. unfold uint32_of. rewrite !byte_of_byte_char.
  change (2 ^ 24) with 16777216. change (2 ^ 16) with 65536. change (2 ^ 8) with 256.
  change (2 ^ 32) with 4294967296 in Hn. Z.to_euclidean_division_equations. lia.
Qed.

Lemma append_same_length (a b x y : string) :
  String.length a = String.length b -> (a ++ x = b ++ y)%string -> a = b /\ x = y.
Proof.
  revert b. induction a as [|c a IH]; intros [|d b] Hl; try done.
  rewrite !append_cons. intros [= -> H]. injection Hl as Hl.
  destruct (IH b Hl H) as [-> ->]. done.
Qed.

Definition short (s : string) : Prop := byte_length s < 2 ^ 32.

Lemma length_delimited_inj a b x y :
  short a -> short b ->
  (length_delimited a ++ x = length_delimited b ++ y)%string -> a = b /\ x = y.
Proof.
  unfold short, length_delimited. intros Ha Hb H. rewrite <- !append_assoc in H.
  unfold uint32_be in H. rewrite !append_cons, !append_nil in H. injection H as H1 H2 H3 H4 H.
  assert (Hl : byte_length a = byte_length b).
  { rewrite <- (uint32_be_reads (byte_length a)), <- (uint32_be_reads (byte_length b))
      by (unfold byte_length in *; lia). congruence. }
  apply append_same_length in H; [done|]. unfold byte_length in Hl. lia.
Qed.

Lemma delimited_fields_inj fields fields' :
  Forall short fields -> Forall short fields' -> length fields = length fields' ->
  string_concat (map length_delimited fields) = string_concat (map length_delimited fields') ->
  fields = fields'.
Proof.
  intros Hf. revert fields'. induction Hf as [|a l Ha Hl IH]; intros [|b l'] Hf' Hlen H; try done.
  apply Forall_cons in Hf' as [Hb Hl']. cbn in H. injection Hlen as Hlen.
  apply length_delimited_inj in H as [-> H]; [|done..]. f_equal. by apply IH.
Qed.

Definition fits_uint32 (i : event_identity) : Prop := Forall short (identity_fields i).

(** Two identities that differ in any field are hashed from different
    bytes, so their event ids are equal only for equal identities or a
    collision of SHA-256. *)
Theorem event_identity_unambiguous sha256_hex a b
    (Ha : fits_uint32 a) (Hb : fits_uint32 b)
    (Hid : makeEventId sha256_hex a = makeEventId sha256_hex b) :
  a = b \/ (event_preimage a <> event_preimage b /\
            sha256_hex (event_preimage a) = sha256_hex (event_preimage b)).
Proof.
  unfold makeEventId in Hid. apply string_app_inj_l in Hid.
  destruct (decide (event_preimage a = event_preimage b)) as [He|He]; [left|by right].
  apply delimited_fields_inj in He; [|done..]. unfold identity_fields in He.
  injection He as H1 H2 H3 H4 H5 H6. apply show_inj in H6.
  destruct a, b. cbn in *. congruence.
Qed.

Definition identity_demo (tenant id : string) : event_identity := {|
  ei_tenantId := tenant; ei_sourceKind := "otel.log"; ei_source := "urn:maple:source"; 
  ei_occurrenceId := "o1"; ei_projectionId := id; ei_projectionRevision := 1 |}.

Example event_identity_unambiguous_witness :
  identity_demo "a" "b:c" <> identity_demo "a:b" "c" /\
  (identity_demo "a" "b" = identity_demo "a" "b" \/
   (event_preimage (identity_demo "a" "b") <> event_preimage (identity_demo "a" "b") /\
    event_preimage (identity_demo "a" "b") = event_preimage (identity_demo "a" "b"))).
Proof.
  split; [discriminate|].
  apply (event_identity_unambiguous (fun s => s) (identity_demo "a" "b") (identity_demo "a" "b"));
    [..|reflexivity];
    unfold fits_uint32, identity_fields, identity_demo, short; cbn [ei_tenantId ei_sourceKind ei_source
      ei_occurrenceId ei_projectionId ei_projectionRevision];
    repeat (apply Forall_cons; split; [vm_compute; reflexivity|]); constructor.
Defined.

(** ** What an event promises its readers *)

(** The interface a host of projections relies on: an event built from a signal
    and a projection carries their tenant, projection and revision, names the
    signal's occurrence and is within the size budget. *)
Section EnvelopeFacts.
Context (sha256_hex : string -> string) (number_to_string : num -> string) (isTrimmed : string -> bool).

Record faithful_event {D C} (i : cloud_event_input D C) (e : cloud_event) : Prop := {
  fe_tenant : ce_tenantid e = sg_tenantId (ci_signal _ _ i);
  fe_projection : ce_projectionid e = ps_id (ci_projection _ _ i);
  fe_revision : ce_projectionrevision e = ps_revision (ci_projection _ _ i);
  fe_occurrence : sg_occurrenceId (ci_signal _ _ i) = Some (ce_sourceoccurrenceid e);
  fe_quality : ce_identityquality e <> iq_none;
  fe_instant : is_Some (timestampToEpochNanos (ce_time e));
  fe_schema : event_schema_ok isTrimmed e = true;
  fe_size : byte_length (stringify number_to_string (canonicalizeJson (event_json e)))
            <= MAX_CLOUD_EVENT_BYTES
}.

Lemma makeCloudEvent_faithful {D C} (i : cloud_event_input D C) e :
  makeCloudEvent sha256_hex number_to_string isTrimmed i = Ok e -> faithful_event i e.
Proof.
  unfold makeCloudEvent, stable_identity. cbn zeta.
  destruct (sg_occurrenceId (ci_signal D C i)) as [o|] eqn:Eo; [|done].
  destruct (negb (bool_decide (o = EmptyString)) && isTrimmed o &&
            negb (bool_decide (sg_identityQuality (ci_signal D C i) = iq_none))) eqn:Eq; [|done].
  apply andb_true_iff in Eq as [_ Eq]. apply negb_true_iff, bool_decide_eq_false in Eq.
  destruct (timestampToEpochNanos _) as [t|] eqn:Et; [|done].
  match goal with |- context [validateMapleCloudEvent _ _ ?ev] => set (event := ev) end.
  unfold validateMapleCloudEvent. destruct (event_schema_ok isTrimmed event) eqn:Es; [|done]. cbn [negb].
  destruct (Z.leb_spec (byte_length (stringify number_to_string (canonicalizeJson (event_json event))))
              MAX_CLOUD_EVENT_BYTES) as [Hsz|]; [|done].
  cbn [result_bind fst]. intros [= <-]. by split.
Qed.
End EnvelopeFacts.
