(* ===== verification/EventRegistry.v ===== *)
(** * Eventing: projections

    [packages/eventing-core/src/registry.ts]: the registry of projectors, the
    compilation of projection specs against sources and projectors, and the
    evaluation of a signal. Projectors are code of the host: values of a record
    of functions, which may throw. *)

From Stdlib Require Import Ascii String.
From stdpp Require Import prelude list strings.
From Stdlib Require Import ZArith Lia.
From S2P Require Import Prelude.
From S2P Require Import JsNum.
From S2P Require Import JsString.
From S2P Require Import EventTime.
From S2P Require Import EventModel.
From S2P Require Import EventPredicate.
From S2P Require Import EventSource.
From S2P Require Import EventEnvelope.

Open Scope Z_scope.

(** ** Projectors *)

(** A thrown value, as the registry reports it: an object with a message, or
    the text of anything else. *)
Inductive thrown :=
  | thrown_message (message : string)
  | thrown_text (text : string).

Definition failure_message (t : thrown) : string :=
  match t with thrown_message m => m | thrown_text s => s end.

Record projected := {
  pj_subject : option (option string);
  pj_time : option string;
  pj_data : json
}.

(** [D] is the data of signals and [C] the raw configuration of projectors. *)
Record signal_projector (D C T : Type) := {
  sp_id : string;
  sp_version : Z;
  sp_sourceKinds : list string;
  sp_outputType : string;
  sp_dataSchema : string;
  sp_decodeConfig : C -> result thrown T;
  sp_decodeOutput : json -> result thrown json;
  sp_project : signal D -> T -> result thrown projected
}.

Record erased_projector (D C : Type) := {
  ep_id : string;
  ep_version : Z;
  ep_sourceKinds : list string;
  ep_outputType : string;
  ep_dataSchema : string;
  ep_decodeOutput : json -> result thrown json;
  ep_prepare : C -> result thrown (signal D -> result thrown projected)
}.
Arguments ep_id {D C}. Arguments ep_version {D C}. Arguments ep_sourceKinds {D C}.
Arguments ep_outputType {D C}. Arguments ep_dataSchema {D C}. Arguments ep_decodeOutput {D C}.
Arguments ep_prepare {D C}.

Record projection_invalid := { pi_projectionId : option string; pi_message : string }.

Section Registry.
Context {D C : Type}.
Variable sha256_hex : string -> string.
Variable number_to_string : num -> string.
Variable isTrimmed : string -> bool.
Variable decode : string -> option Z.
(** The texts of the schema library and of an envelope's refusal. *)
Variable projector_message : string -> string.
Variable spec_message : projection_spec C -> string.
Variable envelope_message : cloud_event_invalid -> string.

Definition projectors : Type := jsmap string (erased_projector D C).

Definition projector_key (id : string) (version : Z) : string := (id ++ "@" ++ show version)%string.

Definition nonempty_trimmed (s : string) : bool := negb (bool_decide (s = EmptyString)) && isTrimmed s.

(** [ProjectorMetadataSchema] *)
Definition projector_schema_ok {T} (p : signal_projector D C T) : bool :=
  nonempty_trimmed (sp_id _ _ _ p) && (0 <? sp_version _ _ _ p) &&
  negb (bool_decide (sp_sourceKinds _ _ _ p = [])) &&
  forallb (fun k => negb (bool_decide (k = EmptyString))) (sp_sourceKinds _ _ _ p) &&
  nonempty_trimmed (sp_outputType _ _ _ p) && nonempty_trimmed (sp_dataSchema _ _ _ p).

Definition erase {T} (p : signal_projector D C T) : erased_projector D C := {|
  ep_id := sp_id _ _ _ p; ep_version := sp_version _ _ _ p;
  ep_sourceKinds := sp_sourceKinds _ _ _ p; ep_outputType := sp_outputType _ _ _ p;
  ep_dataSchema := sp_dataSchema _ _ _ p; ep_decodeOutput := sp_decodeOutput _ _ _ p;
  ep_prepare := fun value =>
    match sp_decodeConfig _ _ _ p value with
    | Ok config => Ok (fun s => sp_project _ _ _ p s config)
    | Err e => Err e
    end |}.

Definition register_projector {T} (ps : projectors) (p : signal_projector D C T)
    : result projection_invalid projectors :=
  if negb (projector_schema_ok p)
  then Err {| pi_projectionId := None; pi_message := projector_message (sp_id _ _ _ p) |}
  else
    let key := projector_key (sp_id _ _ _ p) (sp_version _ _ _ p) in
    if map_has key ps
    then Err {| pi_projectionId := None;
                pi_message := ("duplicate projector registration: " ++ key)%string |}
    else Ok (map_set key (erase p) ps).

Definition get_projector (ps : projectors) (id : string) (version : Z) : option (erased_projector D C) :=
  map_get (projector_key id version) ps.

(** ** The schema of a projection spec *)

Definition decimal_ok (s : string) : bool :=
  (utf16_length s <=? MAX_DECIMAL_INT64_LENGTH) && regex_test DECIMAL_INT64_PATTERN s.

Definition literal_schema_ok (v : scalar) : bool :=
  match v with
  | sc_string s => code_points s <=? MAX_STRING_LITERAL_CHARACTERS
  | sc_boolean _ => true
  | sc_int64 s | sc_duration s => decimal_ok s
  | sc_float64 x => num_is_finite x
  | sc_timestamp s => regex_test RFC3339_TIMESTAMP_PATTERN s
  end.

Definition field_schema_ok (f : field_ref) : bool := key_in_bounds (fr_key f).

Definition between (lo : Z) (n : nat) (hi : Z) : bool := (lo <=? Z.of_nat n) && (Z.of_nat n <=? hi).

(** [RecursiveSignalPredicateSchema] *)
Fixpoint predicate_schema_ok (p : predicate) : bool :=
  match p with
  | p_all cs | p_any cs => between 1 (length cs) MAX_PREDICATE_NODES && forallb predicate_schema_ok cs
  | p_not c => predicate_schema_ok c
  | p_exists f => field_schema_ok f
  | p_compare _ f v => field_schema_ok f && literal_schema_ok v
  | p_in f vs => field_schema_ok f && between 1 (length vs) MAX_IN_VALUES && forallb literal_schema_ok vs
  end.

(** [SignalProjectionSpecSchema], whose selector passes the budget guard first. *)
Definition spec_schema_ok (spec : projection_spec C) : bool :=
  forallb (identifier_ok isTrimmed)
    [ps_id spec; ps_tenantId spec; ps_sourceKind spec; ps_projectorId spec] &&
  (0 <? ps_revision spec) && (0 <? ps_projectorVersion spec) &&
  is_ok (checkSignalProjectionInputBudget (ps_selector spec)) &&
  predicate_schema_ok (ps_selector spec) &&
  regex_test RFC3339_TIMESTAMP_PATTERN (ps_activeFrom spec).

(** ** Compilation *)

Record compiled_projection := {
  cp_spec : projection_spec C;
  cp_evaluate : compiled_predicate;
  cp_projector : erased_projector D C;
  cp_project : signal D -> result thrown projected;
  cp_activeFromNanos : Z
}.

Definition compiled_registry : Type := jsmap string (list compiled_projection).

Definition show_issues (issues : list issue) : string :=
  join "; " (map (fun i => is_path i ++ ": " ++ is_message i)%string issues).

Definition spec_label (spec : projection_spec C) : string :=
  (ps_id spec ++ "@" ++ show (ps_revision spec))%string.

Definition invalid (spec : projection_spec C) (message : string) : projection_invalid :=
  {| pi_projectionId := Some (ps_id spec); pi_message := message |}.

Definition revision_key (spec : projection_spec C) : string :=
  (ps_tenantId spec ++ ":" ++ ps_id spec ++ "@" ++ show (ps_revision spec))%string.

(** An enabled spec against the projectors. *)
Definition compile_enabled (ps : projectors) (spec : projection_spec C)
    : result projection_invalid compiled_projection :=
  match get_projector ps (ps_projectorId spec) (ps_projectorVersion spec) with
  | None =>
      Err (invalid spec ("projection " ++ spec_label spec ++ " references an unregistered projector " ++
                         projector_key (ps_projectorId spec) (ps_projectorVersion spec)))
  | Some projector =>
      if negb (bool_decide (ps_sourceKind spec ∈ ep_sourceKinds projector))
      then Err (invalid spec ("projector " ++ projector_key (ep_id projector) (ep_version projector) ++
                              " does not accept " ++ ps_sourceKind spec))
      else
        match timestampToEpochNanos (ps_activeFrom spec) with
        | None => Err (invalid spec "invalid projection activeFrom timestamp")
        | Some activeFromNanos =>
            match compileSignalPredicate decode (ps_selector spec) with
            | Err issues => Err (invalid spec (show_issues issues))
            | Ok evaluate =>
                match ep_prepare projector (ps_config spec) with
                | Err _ => Err (invalid spec "invalid projector config")
                | Ok project =>
                    Ok {| cp_spec := spec; cp_evaluate := evaluate; cp_projector := projector;
                          cp_project := project; cp_activeFromNanos := activeFromNanos |}
                end
            end
        end
  end%string.

(** The checks every spec passes, enabled or not. *)
Definition check_spec (sources : registry) (revisions : list string) (spec : projection_spec C)
    : result projection_invalid unit :=
  if negb (spec_schema_ok spec)
  then Err {| pi_projectionId := None; pi_message := spec_message spec |}
  else
    match get_source sources (ps_sourceKind spec) with
    | None =>
        Err (invalid spec ("projection " ++ spec_label spec ++ " references an unregistered source " ++
                           ps_sourceKind spec))
    | Some source =>
        match (validateSignalProjectionSpec decode spec ++
               validatePredicateAgainstSource (ps_selector spec) source)%list with
        | [] =>
            if bool_decide (revision_key spec ∈ revisions)
            then Err (invalid spec ("duplicate projection revision: " ++ revision_key spec))
            else Ok tt
        | issues => Err (invalid spec ("invalid projection " ++ spec_label spec ++ ": " ++ show_issues issues))
        end
    end%string.

Local Open Scope maple_scope.

Fixpoint compile_loop (sources : registry) (ps : projectors) (specs : list (projection_spec C))
    (revisions : list string) (bySourceKind : compiled_registry)
    : result projection_invalid compiled_registry :=
  match specs with
  | [] => Ok bySourceKind
  | spec :: rest =>
      let! _ := check_spec sources revisions spec in
      let revisions := revisions ++ [revision_key spec] in
      if ps_enabled spec then
        let! compiled := compile_enabled ps spec in
        compile_loop sources ps rest revisions
          (map_set (ps_sourceKind spec)
             (default [] (map_get (ps_sourceKind spec) bySourceKind) ++ [compiled]) bySourceKind)
      else compile_loop sources ps rest revisions bySourceKind
  end.

Definition compile (specs : list (projection_spec C)) (sources : registry) (ps : projectors)
    : result projection_invalid compiled_registry := compile_loop sources ps specs [] [].

(** ** Evaluation *)

Record projection_failure := {
  pf_projectionId : string;
  pf_projectionRevision : Z;
  pf_occurrenceId : option string;
  pf_message : string
}.

Record batch_result := {
  br_events : list cloud_event;
  br_failures : list projection_failure;
  br_typeMismatchFields : list string
}.

(** [Result.try] around projecting and building the event. *)
Definition project_event (cp : compiled_projection) (s : signal D) : result thrown cloud_event :=
  let! out := cp_project cp s in
  let! data := ep_decodeOutput (cp_projector cp) (pj_data out) in
  match makeCloudEvent sha256_hex number_to_string isTrimmed {|
    ci_signal := s; ci_projection := cp_spec cp;
    ci_projectorId := ep_id (cp_projector cp); ci_projectorVersion := ep_version (cp_projector cp);
    ci_outputType := ep_outputType (cp_projector cp); ci_dataSchema := ep_dataSchema (cp_projector cp);
    ci_subject := pj_subject out; ci_time := pj_time out; ci_data := data |} with
  | Ok e => Ok e
  | Err e => Err (thrown_message (envelope_message e))
  end.

Definition failure_of (spec : projection_spec C) (s : signal D) (t : thrown) : projection_failure := {|
  pf_projectionId := ps_id spec; pf_projectionRevision := ps_revision spec;
  pf_occurrenceId := sg_occurrenceId s; pf_message := failure_message t |}.

(** The body of the loop over the projections of a source kind; [None] is a
    throw of the compiled predicate. *)
Definition evaluate_one (s : signal D) (acceptedAtNanos : Z) (cp : compiled_projection) (b : batch_result)
    : option batch_result :=
  if negb (bool_decide (ps_tenantId (cp_spec cp) = sg_tenantId s)) then Some b
  else if acceptedAtNanos <? cp_activeFromNanos cp then Some b
  else
    evaluation ← cp_evaluate cp (sg_fields s);
    let fields :=
      fold_left (fun set f => if bool_decide (fieldKey f ∈ set) then set else set ++ [fieldKey f])
        (er_typeMismatches evaluation) (br_typeMismatchFields b) in
    let b := {| br_events := br_events b; br_failures := br_failures b; br_typeMismatchFields := fields |} in
    if negb (er_matches evaluation) then Some b
    else
      Some match project_event cp s with
      | Ok e => {| br_events := br_events b ++ [e]; br_failures := br_failures b;
                   br_typeMismatchFields := fields |}
      | Err t => {| br_events := br_events b; br_failures := br_failures b ++ [failure_of (cp_spec cp) s t];
                    br_typeMismatchFields := fields |}
      end.

Fixpoint evaluate_loop (s : signal D) (acceptedAtNanos : Z) (cps : list compiled_projection)
    (b : batch_result) : option batch_result :=
  match cps with
  | [] => Some b
  | cp :: rest => b ← evaluate_one s acceptedAtNanos cp b; evaluate_loop s acceptedAtNanos rest b
  end.

Definition evaluate_signal (reg : compiled_registry) (s : signal D) (acceptedAt : string)
    : option (result projection_invalid batch_result) :=
  match timestampToEpochNanos acceptedAt with
  | None => Some (Err {| pi_projectionId := None;
                         pi_message := "projection acceptance time must be a valid instant" |})
  | Some at_nanos =>
      Ok <$> evaluate_loop s at_nanos (default [] (map_get (sg_sourceKind s) reg))
               {| br_events := []; br_failures := []; br_typeMismatchFields := [] |}
  end.
End Registry.

(** ** What a compiled registry does with a signal *)

Section Contract.
Context {D C : Type} (sha256_hex : string -> string) (number_to_string : num -> string)
  (isTrimmed : string -> bool) (decode : string -> option Z) `{!BigIntCodec decode}
  (spec_message : projection_spec C -> string) (envelope_message : cloud_event_invalid -> string).
Implicit Types (ps : @projectors D C) (spec : projection_spec C) (s : signal D).

Lemma compile_enabled_ok ps spec cp :
  compile_enabled decode ps spec = Ok cp ->
  cp_spec cp = spec /\ compileSignalPredicate decode (ps_selector spec) = Ok (cp_evaluate cp) /\
  timestampToEpochNanos (ps_activeFrom spec) = Some (cp_activeFromNanos cp) /\
  get_projector ps (ps_projectorId spec) (ps_projectorVersion spec) = Some (cp_projector cp) /\
  ps_sourceKind spec ∈ ep_sourceKinds (cp_projector cp).
Proof.
  unfold compile_enabled. destruct (get_projector _ _ _) as [pr|]; [|done].
  case_bool_decide as Hk; [|done]. cbn [negb].
  destruct (timestampToEpochNanos _) as [t|]; [|done].
  destruct (compileSignalPredicate _ _) as [f|]; [|done].
  destruct (ep_prepare _ _) as [g|]; [|done]. by intros [= <-].
Qed.

Definition of_kind (kind : string) spec : bool := ps_enabled spec && bool_decide (ps_sourceKind spec = kind).

(** What a spec must satisfy to be part of a compiled set. *)
Definition spec_valid (sources : registry) spec : Prop :=
  spec_schema_ok isTrimmed spec = true /\
  exists source, get_source sources (ps_sourceKind spec) = Some source /\
    validateSignalProjectionSpec decode spec = [] /\
    validatePredicateAgainstSource (ps_selector spec) source = [].

Lemma check_spec_ok sources revisions spec u :
  check_spec isTrimmed decode spec_message sources revisions spec = Ok u ->
  spec_valid sources spec /\ revision_key spec ∉ revisions.
Proof.
  unfold check_spec, spec_valid. destruct (spec_schema_ok isTrimmed spec); [|done]. cbn [negb].
  destruct (get_source _ _) as [source|]; [|done].
  destruct (validateSignalProjectionSpec decode spec ++ _)%list eqn:E; [|done].
  apply app_nil in E as [E1 E2]. case_bool_decide; [done|]. intros _.
  split; [|done]. split; [done|]. by exists source.
Qed.

Lemma compile_loop_ok sources ps specs revisions by_kind reg :
  compile_loop isTrimmed decode spec_message sources ps specs revisions by_kind = Ok reg ->
  Forall (spec_valid sources) specs /\
  (NoDup revisions -> NoDup (revisions ++ map revision_key specs)) /\
  forall kind, exists cps,
    default [] (map_get kind reg) = default [] (map_get kind by_kind) ++ cps /\
    Forall2 (fun spec cp => compile_enabled decode ps spec = Ok cp)
      (List.filter (of_kind kind) specs) cps.
Proof.
  revert revisions by_kind. induction specs as [|spec specs IH]; intros revisions by_kind; cbn [compile_loop].
  - intros [= <-]. split_and!; [constructor|by rewrite app_nil_r|].
    intros kind. exists []. rewrite app_nil_r. split; [done|constructor].
  - destruct (check_spec _ _ _ _ _ _) as [u|e] eqn:Ec; [|done]. cbn [result_bind].
    apply check_spec_ok in Ec as [Hv Hrev].
    assert (Hnd : (NoDup (revisions ++ [revision_key spec]) ->
                   NoDup ((revisions ++ [revision_key spec]) ++ map revision_key specs)) ->
                  NoDup revisions -> NoDup (revisions ++ map revision_key (spec :: specs))).
    { intros H Hr. rewrite <- app_assoc in H. apply H. apply NoDup_app.
      split_and!; [done|set_solver|apply NoDup_singleton]. }
    cbn [List.filter]. unfold of_kind at 1. destruct (ps_enabled spec); cbn [andb].
    + destruct (compile_enabled decode ps spec) as [cp|e] eqn:Ece; [|done]. cbn [result_bind].
      intros (H1 & H2 & H3)%IH. split_and!; [by constructor|by apply Hnd|].
      intros kind. destruct (H3 kind) as (cps & Hcps & Hf). rewrite map_get_set in Hcps.
      destruct (decide (ps_sourceKind spec = kind)) as [Hk|Hk].
      * rewrite bool_decide_true by done. exists (cp :: cps). subst kind. cbn in Hcps.
        rewrite Hcps, <- app_assoc. split; [done|]. by constructor.
      * rewrite bool_decide_false by done. by exists cps.
    + intros (H1 & H2 & H3)%IH. split_and!; [by constructor|by apply Hnd|done].
Qed.

(** The projections a signal concerns, and what each of them makes of it. *)
Definition in_force s (acceptedAtNanos : Z) spec : bool :=
  of_kind (sg_sourceKind s) spec && bool_decide (ps_tenantId spec = sg_tenantId s) &&
  match timestampToEpochNanos (ps_activeFrom spec) with Some t => t <=? acceptedAtNanos | None => false end &&
  holds decode (sg_fields s) (ps_selector spec).

Definition outcome_of ps s spec : result thrown cloud_event :=
  match compile_enabled decode ps spec with
  | Ok cp => project_event sha256_hex number_to_string isTrimmed envelope_message cp s
  | Err e => Err (thrown_message (pi_message e))
  end.

Definition event_of_outcome {A} (r : result thrown A) : option A :=
  match r with Ok e => Some e | Err _ => None end.

Definition failure_of_outcome {A} s spec (r : result thrown A) : option projection_failure :=
  match r with Ok _ => None | Err t => Some (failure_of spec s t) end.

Lemma evaluate_one_ok ps s n spec cp b :
  compile_enabled decode ps spec = Ok cp -> of_kind (sg_sourceKind s) spec = true ->
  exists fields,
    evaluate_one sha256_hex number_to_string isTrimmed envelope_message s n cp b = Some {|
      br_events := br_events b ++
        (if in_force s n spec then option_list (event_of_outcome (outcome_of ps s spec)) else []);
      br_failures := br_failures b ++
        (if in_force s n spec then option_list (failure_of_outcome s spec (outcome_of ps s spec)) else []);
      br_typeMismatchFields := fields |}.
Proof.
  intros Hc Hk. pose proof (compile_enabled_ok _ _ _ Hc) as (Hs & Hp & Ht & _).
  unfold evaluate_one, in_force, outcome_of. rewrite Hc, Hs, Hk, Ht. cbn [andb].
  case_bool_decide as Hten; cbn [negb andb].
  2: { exists (br_typeMismatchFields b). rewrite !app_nil_r. by destruct b. }
  rewrite Z.leb_antisym. destruct (n <? cp_activeFromNanos cp); cbn [negb andb].
  { exists (br_typeMismatchFields b). rewrite !app_nil_r. by destruct b. }
  destruct (compile_ok decode (ps_selector spec) _ Hp) as [Hok ->].
  destruct (evaluate_holds decode (sg_fields s) (ps_selector spec) Hok []) as (mm & He & _).
  unfold run_compiled. rewrite He. cbn [mbind option_bind er_matches er_typeMismatches].
  destruct (holds decode (sg_fields s) (ps_selector spec)); cbn [negb].
  - eexists. destruct (project_event _ _ _ _ _ _); cbn [event_of_outcome failure_of_outcome option_list];
      rewrite ?app_nil_r; reflexivity.
  - eexists. rewrite !app_nil_r. reflexivity.
Qed.

Definition selected s n (specs : list (projection_spec C)) : list (projection_spec C) :=
  List.filter (in_force s n) specs.

Lemma evaluate_loop_ok ps s n specs cps b :
  Forall2 (fun spec cp => compile_enabled decode ps spec = Ok cp)
    (List.filter (of_kind (sg_sourceKind s)) specs) cps ->
  exists fields,
    evaluate_loop sha256_hex number_to_string isTrimmed envelope_message s n cps b = Some {|
      br_events := br_events b ++
        omap (fun spec => event_of_outcome (outcome_of ps s spec)) (selected s n specs);
      br_failures := br_failures b ++
        omap (fun spec => failure_of_outcome s spec (outcome_of ps s spec)) (selected s n specs);
      br_typeMismatchFields := fields |}.
Proof.
  unfold selected. revert cps b. induction specs as [|spec specs IH]; intros cps b; cbn [List.filter].
  - intros Hf. inversion Hf. exists (br_typeMismatchFields b). cbn. rewrite !app_nil_r. by destruct b.
  - destruct (of_kind (sg_sourceKind s) spec) eqn:Ek.
    + intros Hf. inversion Hf as [|? cp ? cps' Hc Hf']; subst. cbn [evaluate_loop].
      destruct (evaluate_one_ok ps s n spec cp b Hc Ek) as (f1 & ->). cbn [mbind option_bind].
      match goal with |- context [evaluate_loop _ _ _ _ _ _ cps' ?b'] =>
        destruct (IH cps' b' Hf') as (f2 & ->) end.
      cbn [br_events br_failures]. exists f2.
      destruct (in_force s n spec); rewrite ?app_nil_r; [|done]. rewrite <- !app_assoc. cbn [omap list_omap].
      destruct (outcome_of ps s spec); reflexivity.
    + intros Hf. assert (Hn : in_force s n spec = false) by (unfold in_force; by rewrite Ek).
      rewrite Hn. by apply IH.
Qed.

(** C27: once a set of specs compiles, every spec is valid and no revision
    repeats, and evaluating a signal at a valid time never throws: it yields,
    in the order of the specs, the outcome of each enabled projection of the
    signal's own tenant and kind that is active and whose selector holds, each
    independently of the others, so one failing projection costs no event of
    another. *)
Theorem compiled_registry_contract specs sources ps reg s acceptedAt n
    (Hreg : compile isTrimmed decode spec_message specs sources ps = Ok reg)
    (Hat : timestampToEpochNanos acceptedAt = Some n) :
  Forall (spec_valid sources) specs /\ NoDup (map revision_key specs) /\
  exists fields,
    evaluate_signal sha256_hex number_to_string isTrimmed envelope_message reg s acceptedAt = Some (Ok {|
      br_events := omap (fun spec => event_of_outcome (outcome_of ps s spec)) (selected s n specs);
      br_failures := omap (fun spec => failure_of_outcome s spec (outcome_of ps s spec)) (selected s n specs);
      br_typeMismatchFields := fields |}).
Proof.
  apply compile_loop_ok in Hreg as (Hv & Hnd & Hk).
  split_and!; [done|apply Hnd; constructor|].
  destruct (Hk (sg_sourceKind s)) as (cps & Hc & Hf). cbn in Hc.
  unfold evaluate_signal. rewrite Hat, Hc.
  destruct (evaluate_loop_ok ps s n specs cps
    {| br_events := []; br_failures := []; br_typeMismatchFields := [] |} Hf) as (fields & ->).
  by exists fields.
Qed.

(** Every event a registry emits for a signal belongs to the signal's
    tenant and to a valid spec of that tenant, carries that spec's id and
    revision and the signal's stable occurrence, and fits the size budget. *)
Theorem emitted_events_faithful specs sources ps reg s acceptedAt b e
    (Hreg : compile isTrimmed decode spec_message specs sources ps = Ok reg)
    (Hev : evaluate_signal sha256_hex number_to_string isTrimmed envelope_message reg s acceptedAt = Some (Ok b))
    (He : e ∈ br_events b) :
  ce_tenantid e = sg_tenantId s /\
  (exists spec, spec ∈ specs /\ spec_valid sources spec /\ ps_tenantId spec = sg_tenantId s /\
     ps_sourceKind spec = sg_sourceKind s /\
     ce_projectionid e = ps_id spec /\ ce_projectionrevision e = ps_revision spec) /\
  sg_occurrenceId s = Some (ce_sourceoccurrenceid e) /\
  byte_length (stringify number_to_string (canonicalizeJson (event_json e))) <= MAX_CLOUD_EVENT_BYTES.
Proof.
  destruct (timestampToEpochNanos acceptedAt) as [n|] eqn:Hat.
  2: { unfold evaluate_signal in Hev. by rewrite Hat in Hev. }
  pose proof (compile_loop_ok _ _ _ _ _ _ Hreg) as (Hv & _ & Hk).
  destruct (Hk (sg_sourceKind s)) as (cps & Hc & Hf). cbn in Hc.
  unfold evaluate_signal in Hev. rewrite Hat, Hc in Hev.
  destruct (evaluate_loop_ok ps s n specs cps
    {| br_events := []; br_failures := []; br_typeMismatchFields := [] |} Hf) as (fields & Hl).
  rewrite Hl in Hev. cbn in Hev. injection Hev as <-. cbn in He.
  apply list_elem_of_omap in He as (spec & Hin & Ho).
  apply list_elem_of_In, List.filter_In in Hin as [Hin%list_elem_of_In Hforce].
  unfold in_force, of_kind in Hforce. bool_to_prop.
  unfold outcome_of in Ho. destruct (compile_enabled decode ps spec) as [cp|] eqn:Ece; [|done].
  apply compile_enabled_ok in Ece as (Hs & _). unfold project_event in Ho.
  destruct (cp_project cp s) as [out|]; [|done]. cbn [result_bind] in Ho.
  destruct (ep_decodeOutput _ _) as [data|]; [|done]. cbn [result_bind] in Ho.
  destruct (makeCloudEvent _ _ _ _) as [e'|] eqn:Em; [|done]. cbn in Ho. injection Ho as ->.
  apply makeCloudEvent_faithful in Em as [F1 F2 F3 F4 _ _ _ F8]. cbn in F1, F2, F3, F4.
  rewrite Forall_forall in Hv. subst spec.
  split_and!; [done| |done|done]. exists (cp_spec cp). split_and!; try done. by apply Hv.
Qed.
End Contract.

(** ** A concrete registry *)

Definition ascii_trimmed (s : string) : bool :=
  match s with
  | EmptyString => true
  | String c _ =>
      negb (byte_of c <=? 32) &&
      match String.get (String.length s - 1) s with Some d => negb (byte_of d <=? 32) | None => true end
  end.

Definition demo_source : source_definition := {|
  sd_sourceKind := "otel.log";
  sd_fields := [{| ce_policy := {| fp_operators := [lo_exists; lo_compare op_gte; lo_compare op_eq];
                                   fp_sensitivity := sn_public; fp_replay := rc_exact |};
                   ce_field := cf_typed status_field |}];
  sd_openFields := None |}.

Definition demo_sources : registry :=
  match register ascii_trimmed (fun _ => "schema"%string) [] demo_source with
  | Ok r => r
  | Err _ => []
  end.

(** A projector that throws on signals without a subject. *)
Definition demo_projector : signal_projector unit unit unit := {|
  sp_id := "http.error"; sp_version := 1; sp_sourceKinds := ["otel.log"%string];
  sp_outputType := "dev.maple.http.error.v1"; sp_dataSchema := "urn:maple:event-schema:http-error:v1";
  sp_decodeConfig := fun _ => Ok tt; sp_decodeOutput := fun j => Ok j;
  sp_project := fun s _ =>
    match sg_subject s with
    | Some _ => Ok {| pj_subject := None; pj_time := None; pj_data := j_null |}
    | None => Err (thrown_message "no subject")
    end |}.

Definition demo_projectors : @projectors unit unit :=
  match register_projector ascii_trimmed (fun id => id) [] demo_projector with
  | Ok r => r
  | Err _ => []
  end.

Definition demo_spec (tenant id : string) (enabled : bool) : projection_spec unit := {|
  ps_id := id; ps_revision := 1; ps_enabled := enabled; ps_tenantId := tenant;
  ps_sourceKind := "otel.log"; ps_selector := server_error; ps_projectorId := "http.error";
  ps_projectorVersion := 1; ps_config := tt; ps_activeFrom := "2026-01-01T00:00:00Z" |}.

Definition demo_signal (subject : option string) : signal unit := {|
  sg_sourceKind := "otel.log"; sg_source := "urn:maple:source:otel"; sg_tenantId := "acme";
  sg_occurrenceId := Some "o-1"%string; sg_identityQuality := iq_source;
  sg_occurredAt := "2026-08-07T19:42:00Z"; sg_observedAt := "2026-08-07T19:42:01Z";
  sg_subject := subject; sg_fields := fields_502; sg_data := tt |}.

Definition demo_compile (specs : list (projection_spec unit)) :
    result projection_invalid (@compiled_registry unit unit) :=
  compile ascii_trimmed string_to_bigint (fun _ => "schema"%string) specs demo_sources demo_projectors.

Definition demo_specs : list (projection_spec unit) :=
  [demo_spec "acme" "errors" true; demo_spec "other" "errors" true; demo_spec "acme" "off" false].

Definition demo_registry : @compiled_registry unit unit :=
  match demo_compile demo_specs with Ok r => r | Err _ => [] end.

Lemma demo_compile_accepted : is_ok (demo_compile demo_specs) = true.
Proof. vm_compute. reflexivity. Qed.

Lemma demo_compiles : demo_compile demo_specs = Ok demo_registry.
Proof.
  unfold demo_registry. pose proof demo_compile_accepted as H. by destruct (demo_compile demo_specs).
Qed.

Definition demo_evaluate (s : signal unit) : option (result projection_invalid batch_result) :=
  evaluate_signal (fun _ => "00"%string) (fun _ => "1"%string) ascii_trimmed (fun _ => "refused"%string)
    demo_registry s "2026-08-07T19:42:02Z".

Definition demo_outcomes (s : signal unit) : list (option cloud_event) :=
  map (fun spec => event_of_outcome (outcome_of (fun _ => "00"%string) (fun _ => "1"%string) ascii_trimmed
         string_to_bigint (fun _ => "refused"%string) demo_projectors s spec))
    (selected string_to_bigint s 1786131722000000000 demo_specs).

Lemma demo_instant : timestampToEpochNanos "2026-08-07T19:42:02Z" = Some 1786131722000000000.
Proof. vm_compute. reflexivity. Qed.

Example compiled_registry_contract_witness :
  exists fields b, demo_evaluate (demo_signal None) = Some (Ok b) /\
    br_events b = [] /\ map pf_message (br_failures b) = ["no subject"%string] /\
    br_typeMismatchFields b = fields.
Proof.
  destruct (compiled_registry_contract (fun _ => "00"%string) (fun _ => "1"%string) ascii_trimmed
    string_to_bigint (fun _ => "schema"%string) (fun _ => "refused"%string) demo_specs demo_sources
    demo_projectors demo_registry (demo_signal None) "2026-08-07T19:42:02Z" 1786131722000000000
    demo_compiles demo_instant) as (_ & _ & fields & He).
  exists fields. eexists. split; [exact He|].
  split; [vm_compute; reflexivity|]. split; [vm_compute; reflexivity|]. reflexivity.
Defined.

Definition demo_batch : batch_result :=
  match demo_evaluate (demo_signal (Some "errors"%string)) with
  | Some (Ok b) => b
  | _ => {| br_events := []; br_failures := []; br_typeMismatchFields := [] |}
  end.

Definition answered (r : option (result projection_invalid batch_result)) : bool :=
  match r with Some (Ok _) => true | _ => false end.

Lemma demo_answered : answered (demo_evaluate (demo_signal (Some "errors"%string))) = true.
Proof. vm_compute. reflexivity. Qed.

Lemma demo_batch_eq : demo_evaluate (demo_signal (Some "errors"%string)) = Some (Ok demo_batch).
Proof.
  unfold demo_batch. pose proof demo_answered as H.
  by destruct (demo_evaluate _) as [[b|e]|].
Qed.

Lemma demo_events : length (br_events demo_batch) = 1%nat.
Proof. vm_compute. reflexivity. Qed.

Example emitted_events_faithful_witness :
  exists e, e ∈ br_events demo_batch /\ ce_tenantid e = "acme"%string.
Proof.
  destruct (br_events demo_batch) as [|e rest] eqn:Ee;
    [pose proof demo_events as H; rewrite Ee in H; discriminate|].
  exists e. split; [apply elem_of_cons; left; reflexivity|].
  apply (emitted_events_faithful (fun _ => "00"%string) (fun _ => "1"%string) ascii_trimmed
    string_to_bigint (fun _ => "schema"%string) (fun _ => "refused"%string) demo_specs demo_sources
    demo_projectors demo_registry (demo_signal (Some "errors"%string)) "2026-08-07T19:42:02Z"
    demo_batch e demo_compiles demo_batch_eq).
  rewrite Ee. apply elem_of_cons. left. reflexivity.
Defined.

(** The key that detects a repeated revision does not delimit the tenant:
    two valid specs of different tenants, each of which compiles on its own,
    are refused together as a duplicate. *)
Theorem revision_key_collides :
  exists a b, ps_tenantId a <> ps_tenantId b /\
    is_ok (demo_compile [a]) = true /\ is_ok (demo_compile [b]) = true /\
    demo_compile [a; b] =
      Err (invalid b ("duplicate projection revision: " ++ revision_key b)%string).
Proof.
  exists (demo_spec "acme" "eu:errors" true), (demo_spec "acme:eu" "errors" true).
  split_and!; [discriminate|vm_compute; reflexivity..].
Qed.
