(* ===== verification/EdgeCache.v ===== *)
(** * Edge cache

    [lib/cache/src]: the storage interface with its in-memory implementation
    ([cache-backend.ts]), and the service over it ([edge-cache.ts]): reads with
    a deadline, the per-bucket breaker that skips reads on a bucket that is
    timing out, raw reads and writes, and [getOrCompute]. What the network does
    to a read, what the clock says and how many connection slots are held are
    inputs of an operation. [CacheBackend] and [EdgeCache] are the interfaces
    other components are proved against. *)

From Stdlib Require Import Ascii String.
From stdpp Require Import prelude list strings.
From Stdlib Require Import ZArith Lia Sorting.Sorted Floats.SpecFloat.
From S2P Require Import Prelude.
From S2P Require Import JsNum.
From S2P Require Import JsString.

Open Scope Z_scope.

(** ** Storage *)

(** [EdgeCacheBackend]: what is kept, and what a read may answer. *)
Class CacheBackend (V S : Type) := {
  be_get : S -> string -> string -> Z -> option V * S;
  be_put : S -> string -> string -> V -> Z -> Z -> S;
  be_delete : S -> string -> string -> S
}.

(** A backend answers only with what was put under that bucket and hash; it may
    forget at any time. *)
Class CacheBackendLaws V S `{!CacheBackend V S} := {
  be_holds : S -> string -> V -> Prop;
  be_key : string -> string -> string;
  be_get_holds s bucket hash now v s' :
    be_get s bucket hash now = (Some v, s') -> be_holds s (be_key bucket hash) v;
  be_get_keeps s bucket hash now r s' k v :
    be_get s bucket hash now = (r, s') -> be_holds s' k v -> be_holds s k v;
  be_put_holds s bucket hash v ttl now k w :
    be_holds (be_put s bucket hash v ttl now) k w ->
    k = be_key bucket hash /\ w = v \/ be_holds s k w;
  be_delete_keeps s bucket hash k v : be_holds (be_delete s bucket hash) k v -> be_holds s k v
}.

Section Memory.
Context {V : Type}.

Record memory_entry := { me_value : V; me_expiresAt : Z }.

Definition memory := jsmap string memory_entry.

Definition composite (bucket hash : string) : string := (bucket +:+ ":" +:+ hash)%string.

Definition memory_get (store : memory) (bucket hash : string) (nowMs : Z) : option V * memory :=
  match map_get (composite bucket hash) store with
  | None => (None, store)
  | Some entry =>
      if me_expiresAt entry <=? nowMs then (None, map_delete (composite bucket hash) store)
      else (Some (me_value entry), store)
  end.

Definition memory_put (store : memory) (bucket hash : string) (value : V) (ttlSeconds nowMs : Z) : memory :=
  map_set (composite bucket hash) {| me_value := value; me_expiresAt := nowMs + ttlSeconds * 1000 |} store.

Definition memory_delete (store : memory) (bucket hash : string) : memory :=
  map_delete (composite bucket hash) store.

#[export] Instance memory_backend : CacheBackend V memory := {
  be_get := memory_get;
  be_put := memory_put;
  be_delete := memory_delete
}.
End Memory.
Arguments memory_entry V : clear implicits.
Arguments memory V : clear implicits.

(** ** The service *)

Record breaker_state := { br_ratio : num; br_samples : Z; br_skipUntil : Z }.

Definition READ_BREAKER_WINDOW_MS : Z := 2000.
Definition READ_BREAKER_DECAY : num := num_div (num_of_Z 1) (num_of_Z 3).
Definition READ_BREAKER_OPEN_RATIO : num := num_div (num_of_Z 1) (num_of_Z 2).
Definition READ_BREAKER_MIN_SAMPLES : Z := 2.

Definition breakers := jsmap string breaker_state.

Definition shouldSkipRead (readBreaker : breakers) (bucket : string) (nowMs : Z) : bool :=
  match map_get bucket readBreaker with
  | Some state => nowMs <? br_skipUntil state
  | None => false
  end.

Definition num_add (x y : num) : num := SFadd num_prec num_emax x y.
Definition num_sub (x y : num) : num := SFsub num_prec num_emax x y.
Definition num_mul (x y : num) : num := SFmul num_prec num_emax x y.

Definition recordReadOutcome (readBreaker : breakers) (bucket : string) (timedOut : bool) (nowMs : Z)
    : breakers :=
  let state := map_get bucket readBreaker in
  let previousRatio := from_option br_ratio (num_of_Z 0) state in
  let samples := Z.min (from_option br_samples 0 state + 1) READ_BREAKER_MIN_SAMPLES in
  let ratio := num_add previousRatio
    (num_mul READ_BREAKER_DECAY (num_sub (num_of_Z (if timedOut then 1 else 0)) previousRatio)) in
  let open := (READ_BREAKER_MIN_SAMPLES <=? samples) && num_geb ratio READ_BREAKER_OPEN_RATIO in
  map_set bucket {| br_ratio := ratio; br_samples := samples;
                    br_skipUntil := if open then nowMs + READ_BREAKER_WINDOW_MS else 0 |} readBreaker.

(** What becomes of one backend read: it settles in time, the deadline
    abandons it, or the backend fails. *)
Inductive read_fate := fate_settles | fate_abandoned | fate_fails.

Inductive read_status := status_hit | status_miss | status_timeout | status_skipped.

Section Service.
Context {V S : Type} `{!CacheBackend V S}.

Record service := { sv_backend : S; sv_breaker : breakers }.

(** [readBackend]: the read runs to its end even when the deadline gives up on
    it. *)
Definition readBackend (st : S) (bucket key : string) (nowMs : Z) (fate : read_fate)
    : result unit (option V * bool) * S :=
  let '(value, st') := be_get st bucket key nowMs in
  match fate with
  | fate_settles => (Ok (value, false), st')
  | fate_abandoned => (Ok (None, true), st')
  | fate_fails => (Err tt, st)
  end.

(** [rawGetDetailed]; [Err] is an [EdgeCacheIOError], after which the breaker
    has recorded nothing. *)
Definition rawGetDetailed (sv : service) (bucket key : string) (nowMs : Z) (fate : read_fate)
    : result unit (read_status * option V) * service :=
  if shouldSkipRead (sv_breaker sv) bucket nowMs then (Ok (status_skipped, None), sv)
  else
    let '(read, st) := readBackend (sv_backend sv) bucket key nowMs fate in
    match read with
    | Err _ => (Err tt, {| sv_backend := st; sv_breaker := sv_breaker sv |})
    | Ok (value, timedOut) =>
        (Ok (if timedOut then status_timeout
             else match value with Some _ => status_hit | None => status_miss end, value),
         {| sv_backend := st; sv_breaker := recordReadOutcome (sv_breaker sv) bucket timedOut nowMs |})
    end.

(** [rawPut]; a write that fails stores nothing. *)
Definition rawPut (sv : service) (bucket key : string) (value : V) (ttlSeconds nowMs : Z) (fails : bool)
    : result unit unit * service :=
  if fails then (Err tt, sv)
  else (Ok tt, {| sv_backend := be_put (sv_backend sv) bucket key value ttlSeconds nowMs;
                  sv_breaker := sv_breaker sv |}).

(** The codec of a [getOrCompute] entry: [encode] dies on a programmer's
    mistake, [decode] may refuse. Without a schema both are the identity. *)
Section GetOrCompute.
Context {A E : Type} (sha256Hex : string -> string) (encode : A -> V) (decode : V -> option A).

(** What the environment does to one call. *)
Record environment := {
  env_nowMs : Z;
  env_writeNowMs : Z;
  env_slotsHeld : Z;
  env_fate : read_fate;
  env_write_fails : bool
}.

(** The value, whether it was a hit, and whether [compute] ran. *)
Definition getOrCompute (sv : service) (bucket key : string) (ttlSeconds : A -> Z) (skipReadWhenSlotsHeld : bool)
    (compute : result E A) (env : environment) : result E (A * bool) * bool * service :=
  let hash := sha256Hex key in
  let nowMs := env_nowMs env in
  let skipForSlots := skipReadWhenSlotsHeld && (0 <? env_slotsHeld env) in
  let skipForBreaker := shouldSkipRead (sv_breaker sv) bucket nowMs in
  let '(read, sv1) :=
    if skipForBreaker || skipForSlots then (None, sv)
    else
      let '(r, st) := readBackend (sv_backend sv) bucket hash nowMs (env_fate env) in
      let '(value, timedOut) := match r with Ok v => v | Err _ => (None, false) end in
      (value, {| sv_backend := st; sv_breaker := recordReadOutcome (sv_breaker sv) bucket timedOut nowMs |}) in
  match read ≫= decode with
  | Some value => (Ok (value, true), false, sv1)
  | None =>
      match compute with
      | Err e => (Err e, true, sv1)
      | Ok value =>
          let sv2 :=
            if env_write_fails env then sv1
            else {| sv_backend := be_put (sv_backend sv1) bucket hash (encode value) (ttlSeconds value)
                                    (env_writeNowMs env);
                    sv_breaker := sv_breaker sv1 |} in
          (Ok (value, false), true, sv2)
      end
  end.

(** [invalidate]; a failing delete is swallowed. *)
Definition invalidate (sv : service) (bucket key : string) (fails : bool) : service :=
  if fails then sv
  else {| sv_backend := be_delete (sv_backend sv) bucket (sha256Hex key); sv_breaker := sv_breaker sv |}.
End GetOrCompute.
End Service.
Arguments service S : clear implicits.

(** ** The in-memory backend keeps the interface *)

Lemma map_get_delete_Some {V} k k' (m : jsmap string V) v :
  map_get k' (map_delete k m) = Some v -> map_get k' m = Some v.
Proof. rewrite map_delete_get. by case_decide. Qed.

#[export] Program Instance memory_backend_laws V : CacheBackendLaws V (memory V) := {
  be_holds s k v := exists e, map_get k s = Some e /\ me_value e = v;
  be_key := composite
}.
Next Obligation.
  intros V s bucket hash now v s'. simpl. unfold memory_get.
  destruct (map_get _ s) as [e|] eqn:E; [|done]. case_match; [done|]. intros [= <- <-]. eauto.
Qed.
Next Obligation.
  intros V s bucket hash now r s' k v. simpl. unfold memory_get.
  destruct (map_get (composite bucket hash) s) as [e|]; [case_match|]; intros [= <- <-] (e' & He & Hv); eauto.
  exists e'. split; [|done]. by eapply map_get_delete_Some.
Qed.
Next Obligation.
  intros V s bucket hash v ttl now k w. simpl. unfold memory_put. rewrite map_get_set.
  intros (e & He & <-). case_decide; [left; by simplify_eq|right; eauto].
Qed.
Next Obligation.
  intros V s bucket hash k v. simpl. intros (e & He & <-). exists e. split; [|done].
  by eapply map_get_delete_Some.
Qed.

(** A history of the in-memory backend. *)
Inductive memory_op (V : Type) :=
  | op_get (bucket hash : string) (now : Z)
  | op_put (bucket hash : string) (value : V) (ttlSeconds now : Z)
  | op_delete (bucket hash : string) (now : Z).
Arguments op_get {V}. Arguments op_put {V}. Arguments op_delete {V}.

Section History.
Context {V : Type}.
Implicit Types (ops : list (memory_op V)).

Definition op_time (op : memory_op V) : Z :=
  match op with op_get _ _ now | op_put _ _ _ _ now | op_delete _ _ now => now end.

Definition memory_step (store : memory V) (op : memory_op V) : memory V :=
  match op with
  | op_get bucket hash now => snd (memory_get store bucket hash now)
  | op_put bucket hash value ttlSeconds now => memory_put store bucket hash value ttlSeconds now
  | op_delete bucket hash _ => memory_delete store bucket hash
  end.

Definition memory_run ops : memory V := fold_left memory_step ops [].

(** The specification: the last write to a key decides. *)
Definition live_step (k : string) (live : option (V * Z)) (op : memory_op V) : option (V * Z) :=
  match op with
  | op_get _ _ _ => live
  | op_put bucket hash value ttlSeconds now =>
      if decide (composite bucket hash = k) then Some (value, now + ttlSeconds * 1000) else live
  | op_delete bucket hash _ => if decide (composite bucket hash = k) then None else live
  end.

Definition live_entry ops (k : string) : option (V * Z) := fold_left (live_step k) ops None.

(** An entry and what the specification says of its key: the same, or gone
    because it had expired by [now]. *)
Definition agrees (now : Z) (entry : option (memory_entry V)) (live : option (V * Z)) : Prop :=
  match entry, live with
  | Some e, Some (v, expires) => me_value e = v /\ me_expiresAt e = expires
  | None, Some (_, expires) => expires <= now
  | None, None => True
  | Some _, None => False
  end.

Lemma agrees_later now now' e l : agrees now e l -> now <= now' -> agrees now' e l.
Proof. destruct e, l as [[]|]; simpl; try done. lia. Qed.

Lemma memory_run_agrees ops now k :
  StronglySorted (fun a b => op_time a <= op_time b) ops ->
  Forall (fun op => op_time op <= now) ops ->
  agrees now (map_get k (memory_run ops)) (live_entry ops k).
Proof.
  unfold memory_run, live_entry. revert now. induction ops as [|op ops IH] using rev_ind; intros now Hs Hn; [done|].
  assert (Hs' : StronglySorted (fun a b => op_time a <= op_time b) ops /\ Forall (fun a => op_time a <= op_time op) ops).
  { clear -Hs. induction ops as [|a ops IH]; [split; constructor|]. simpl in Hs.
    apply StronglySorted_inv in Hs as [Hs Ha]. destruct (IH Hs) as [H1 H2].
    apply Forall_app in Ha as [Ha Hl]. rewrite Forall_singleton in Hl.
    split; constructor; [exact H1|exact Ha|exact Hl|exact H2]. }
  destruct Hs' as [Hs1 Hle]. specialize (IH (op_time op) Hs1 Hle).
  apply Forall_app in Hn as [_ Hn]. rewrite Forall_singleton in Hn.
  rewrite !fold_left_app. cbn [fold_left]. eapply agrees_later; [|exact Hn].
  set (store := fold_left memory_step ops []) in *. set (live := fold_left (live_step k) ops None) in *.
  clearbody store live. destruct op as [b h t|b h v ttl t|b h t]; simpl in *.
  - unfold memory_get. destruct (map_get (composite b h) store) as [e|] eqn:E; [|done].
    destruct (Z.leb_spec (me_expiresAt e) t) as [Hexp|]; [|done]. simpl.
    rewrite map_delete_get. case_decide as Hk; [|done]. rewrite Hk in E. rewrite E in IH.
    simpl in IH. destruct live as [[]|]; [|done]. simpl. destruct IH. lia.
  - unfold memory_put. rewrite map_get_set. by case_decide.
  - unfold memory_delete. rewrite map_delete_get. by case_decide.
Qed.
End History.

(** Whatever was put, read and deleted before, at times that never run
    backwards, the in-memory backend answers a read with the value last put
    under that key if nothing deleted it since and its time to live has not run
    out, and with nothing otherwise; dropping an expired entry on the way never
    shows. *)
Theorem memory_backend_latest {V} (ops : list (memory_op V)) bucket hash now :
  StronglySorted (fun a b => op_time a <= op_time b) ops ->
  Forall (fun op => op_time op <= now) ops ->
  fst (memory_get (memory_run ops) bucket hash now) =
  match live_entry ops (composite bucket hash) with
  | Some (v, expires) => if expires <=? now then None else Some v
  | None => None
  end.
Proof.
  intros Hs Hn. pose proof (memory_run_agrees ops now (composite bucket hash) Hs Hn) as Ha.
  unfold memory_get. destruct (map_get _ _) as [e|], (live_entry _ _) as [[v x]|]; simpl in *; try done.
  - destruct Ha as [-> ->]. by case_match.
  - destruct (Z.leb_spec x now); [done|lia].
Qed.

Example memory_backend_latest_witness :
  fst (memory_get (memory_run [op_put "b" "h" 1 1 0; op_get "b" "h" 500; op_put "b" "h" 2 1 600; op_get "b" "h" 1200]%string)
    "b" "h" 1500) = Some 2.
Proof.
  rewrite (memory_backend_latest [op_put "b" "h" 1 1 0; op_get "b" "h" 500; op_put "b" "h" 2 1 600; op_get "b" "h" 1200]%string
    "b" "h" 1500); [vm_compute; reflexivity| |].
  - repeat constructor; vm_compute; discriminate.
  - repeat constructor; vm_compute; discriminate.
Defined.

(** ** The breaker *)

(** One outcome the service recorded. *)
Record outcome := { oc_bucket : string; oc_timedOut : bool; oc_now : Z }.

Definition record_all (outcomes : list outcome) : breakers :=
  fold_left (fun b o => recordReadOutcome b (oc_bucket o) (oc_timedOut o) (oc_now o)) outcomes [].

Lemma recordReadOutcome_get b bucket timedOut now bucket' :
  bucket <> bucket' -> map_get bucket' (recordReadOutcome b bucket timedOut now) = map_get bucket' b.
Proof. apply map_get_set_ne. Qed.

Lemma record_all_snoc outcomes o :
  record_all (outcomes ++ [o]) = recordReadOutcome (record_all outcomes) (oc_bucket o) (oc_timedOut o) (oc_now o).
Proof. unfold record_all. by rewrite fold_left_app. Qed.

(** The state of a bucket counts its outcomes up to two and opens only on the
    second or later one, until two seconds after it. *)
Lemma record_all_state outcomes bucket :
  let mine := List.filter (fun o => bool_decide (oc_bucket o = bucket)) outcomes in
  match map_get bucket (record_all outcomes) with
  | None => mine = []
  | Some st =>
      br_samples st = Z.min (Z.of_nat (length mine)) 2 /\ 0 < br_samples st
      /\ exists o, last mine = Some o
         /\ (br_skipUntil st = 0 \/ 2 <= br_samples st /\ br_skipUntil st = oc_now o + READ_BREAKER_WINDOW_MS)
  end.
Proof.
  induction outcomes as [|o outcomes IH] using rev_ind; [done|].
  rewrite record_all_snoc, List.filter_app. cbn [List.filter].
  set (b := record_all outcomes) in *. simpl in IH. case_bool_decide as Ho; cbv zeta.
  - rewrite <- Ho in *. unfold recordReadOutcome. rewrite map_get_set_eq. cbn [br_samples br_skipUntil].
    rewrite last_snoc, length_app. unfold READ_BREAKER_MIN_SAMPLES. simpl.
    set (mine := List.filter _ outcomes) in *. destruct (map_get (oc_bucket o) b) as [st|]; simpl.
    + destruct IH as (H1 & H2 & _). split_and!; [lia|lia|]. exists o. split; [done|].
      case_match eqn:E; [right|by left]. bool_to_prop. lia.
    + rewrite IH. simpl. split_and!; [done|done|]. exists o. split; [done|]. by left.
  - rewrite recordReadOutcome_get, app_nil_r by done. exact IH.
Qed.

(** The breaker never keeps a bucket closed for long, nor on one sample:
    when a read of a bucket is skipped, at least two reads of that bucket were
    issued before, and the latest of them less than two seconds ago. *)
Theorem breaker_skips_briefly outcomes bucket now :
  0 <= now -> shouldSkipRead (record_all outcomes) bucket now = true ->
  let mine := List.filter (fun o => bool_decide (oc_bucket o = bucket)) outcomes in
  (2 <= length mine)%nat /\ exists o, last mine = Some o /\ now < oc_now o + READ_BREAKER_WINDOW_MS.
Proof.
  intros Hnow. pose proof (record_all_state outcomes bucket) as H. unfold shouldSkipRead.
  destruct (map_get bucket (record_all outcomes)) as [st|]; [|done]. intros Hs%Z.ltb_lt.
  destruct H as (H1 & H2 & o & Ho & [Hz|[H3 H4]]); [lia|]. split; [lia|]. exists o. split; [done|lia].
Qed.

Definition two_timeouts : list outcome :=
  [{| oc_bucket := "qe"; oc_timedOut := true; oc_now := 1000 |};
   {| oc_bucket := "qe"; oc_timedOut := true; oc_now := 1050 |}].

Example breaker_skips_briefly_witness :
  shouldSkipRead (record_all two_timeouts) "qe" 3000 = true
  /\ shouldSkipRead (record_all two_timeouts) "qe" 3050 = false
  /\ exists o, last two_timeouts = Some o /\ 3000 < oc_now o + READ_BREAKER_WINDOW_MS.
Proof.
  split; [vm_compute; reflexivity|]. split; [vm_compute; reflexivity|].
  apply (breaker_skips_briefly two_timeouts "qe" 3000); [lia|vm_compute; reflexivity].
Defined.

(** ** Transparency *)

Section Transparency.
Context {V S : Type} `{!CacheBackend V S, !CacheBackendLaws V S}.
Context {A E : Type} (sha256Hex : string -> string) (encode : A -> V) (decode : V -> option A).

(** What is held for a key decodes, if at all, to [v0]. *)
Definition holds_only (sv : service S) (bucket key : string) (v0 : A) : Prop :=
  forall raw v, be_holds (sv_backend sv) (be_key bucket (sha256Hex key)) raw -> decode raw = Some v -> v = v0.

(** Whatever happens to the read and the write (a deadline, a failure, a
    skip, an entry that no longer decodes), a cached computation gives the value
    the computation gives; it runs exactly when the answer is not a hit, and
    the cache still holds only that value for the key. *)
Theorem getOrCompute_transparent (sv : service S) bucket key ttl skipSlots (v0 : A) env :
  holds_only sv bucket key v0 ->
  (forall v, decode (encode v0) = Some v -> v = v0) ->
  let '(r, ran, sv') := getOrCompute (E:=E) sha256Hex encode decode sv bucket key ttl skipSlots (Ok v0) env in
  r = Ok (v0, negb ran) /\ holds_only sv' bucket key v0.
Proof.
  intros Hh Hcodec. unfold getOrCompute.
  set (start := if _ || _ then _ else _).
  assert (Hstart : holds_only (snd start) bucket key v0
    /\ forall v, (fst start ≫= decode) = Some v -> v = v0).
  { subst start. destruct (_ || _); [split; [done|intros v [=]]|]. unfold readBackend.
    destruct (be_get _ _ _ _) as [value st] eqn:Eg.
    assert (Hst : forall raw v, be_holds st (be_key bucket (sha256Hex key)) raw -> decode raw = Some v -> v = v0).
    { intros raw v Hr. apply Hh. eapply be_get_keeps; eauto. }
    destruct (env_fate env); simpl; split; try done.
    destruct value as [raw|]; [|intros v [=]]. simpl. intros v Hv.
    eapply Hh; [eapply be_get_holds; exact Eg|exact Hv]. }
  destruct start as [read sv1]. simpl in Hstart. destruct Hstart as [H1 H2].
  destruct (read ≫= decode) as [v|]; simpl.
  { rewrite (H2 v eq_refl). done. }
  split; [done|]. destruct (env_write_fails env); [done|].
  intros raw v [[_ ->]|Hr]%be_put_holds Hv; [by apply Hcodec|by eapply H1].
Qed.
End Transparency.

Example getOrCompute_transparent_witness :
  let sv := {| sv_backend := memory_put [] "cfg" "key" 7 60 0; sv_breaker := [] |} in
  fst (fst (getOrCompute (E:=unit) id id Some sv "cfg" "key" (fun _ => 60) true (Ok 7)
    {| env_nowMs := 10; env_writeNowMs := 10; env_slotsHeld := 0; env_fate := fate_settles; env_write_fails := false |}))
  = Ok (7, true).
Proof.
  pose proof (getOrCompute_transparent (E:=unit) id id Some
    {| sv_backend := memory_put [] "cfg" "key" 7 60 0; sv_breaker := [] |} "cfg" "key" (fun _ => 60) true 7
    {| env_nowMs := 10; env_writeNowMs := 10; env_slotsHeld := 0; env_fate := fate_settles; env_write_fails := false |})
    as H.
  vm_compute in H |- *. apply H.
  - intros raw v (e & [= <-] & <-) [= <-]. reflexivity.
  - intros v [= <-]. reflexivity.
Defined.
