(* ===== verification/BucketCache.v ===== *)
(** * Query engine: the time-bucket cache, ranges and buckets

    The pure half of [packages/query-engine/src/caching/bucket-cache.ts]: which
    ranges of a request are missing from the cached buckets, how the gaps are
    coalesced into at most two warehouse queries, how points are grouped into
    buckets that may be persisted, and the guard that a value read back from
    the shared cache is a segment this request can use. The service that
    composes them is in [BucketService].

    Epoch milliseconds and bucket widths are integers ([Z]); [%] is [Z.rem].
    [Date.parse], whose answer ECMAScript leaves to the implementation outside
    its own format, is an argument [date_parse]. *)

From Stdlib Require Import Ascii String.
From stdpp Require Import prelude list strings.
From Stdlib Require Import ZArith Lia Sorting.Permutation Sorting.Sorted.
From S2P Require Import Prelude.
From S2P Require Import JsString.
From S2P Require Import EventTime.
From S2P Require Import WarehouseTime.

Open Scope Z_scope.

(** ** Data *)

(** A value read from the shared cache, of which nothing is known. [js_number
    None] stands for every number that is not an integer. *)
Inductive js :=
  | js_undefined
  | js_null
  | js_bool (b : bool)
  | js_number (n : option Z)
  | js_string (s : string)
  | js_array (items : list js)
  | js_object (members : list (string * js)).

(** [value.key]; a member that is absent, or of a value that has none, is
    [undefined]. *)
Definition member (key : string) (v : js) : js :=
  match v with
  | js_object members => default js_undefined (map_get key members)
  | _ => js_undefined
  end.

Record time_range := { startMs : Z; endMs : Z }.

(** [TimeseriesPoint] *)
Record point := { p_bucket : string; p_series : js }.

Record cached_bucket := { b_start : Z; b_end : Z; b_points : list point }.

Record missing_range := { range : time_range; cachable : bool }.

Record segment_data := {
  sd_version : Z;
  sd_fingerprint : string;
  sd_bucketSeconds : Z;
  sd_segmentStartMs : Z;
  sd_segmentEndMs : Z;
  sd_buckets : list cached_bucket
}.

Definition CACHE_VERSION : Z := 2.

(** ** Gaps *)

(** [emit]: a gap, split at the flux boundary. *)
Definition emit (flux from to : Z) : list missing_range :=
  if to <=? from then []
  else if to <=? flux then [{| range := {| startMs := from; endMs := to |}; cachable := true |}]
  else if flux <=? from then [{| range := {| startMs := from; endMs := to |}; cachable := false |}]
  else [{| range := {| startMs := from; endMs := flux |}; cachable := true |};
        {| range := {| startMs := flux; endMs := to |}; cachable := false |}].

Definition aligned_start (bucketMs start : Z) : Z :=
  if Z.rem start bucketMs =? 0 then start else start - Z.rem start bucketMs + bucketMs.

Definition bucket_end (bucketMs end_ limit : Z) : Z :=
  let e := Z.min end_ limit in
  if negb (Z.rem e bucketMs =? 0) && (e <? limit) then e - Z.rem e bucketMs else e.

(** The walk over the sorted buckets: the gaps before and between them, and
    where the cursor stops. *)
Fixpoint gap_loop (limit bucketMs flux : Z) (sorted : list cached_bucket) (cursor : Z)
    : list missing_range * Z :=
  match sorted with
  | [] => ([], cursor)
  | bucket :: rest =>
      if b_end bucket <=? cursor then gap_loop limit bucketMs flux rest cursor
      else if limit <=? b_start bucket then ([], cursor)
      else
        let alignedStart := aligned_start bucketMs (b_start bucket) in
        let gap :=
          if (cursor <? alignedStart) && (cursor <? limit)
          then emit flux cursor (Z.min alignedStart limit) else [] in
        let '(gaps, stop) :=
          gap_loop limit bucketMs flux rest (Z.max cursor (bucket_end bucketMs (b_end bucket) limit)) in
        (gap ++ gaps, stop)
  end.

(** The partial bucket in front of the first whole one, and the cursor. *)
Definition leading_gap (start limit bucketMs flux : Z) : list missing_range * Z :=
  if negb (Z.rem start bucketMs =? 0) then
    let nextAligned := start - Z.rem start bucketMs + bucketMs in
    (emit flux start (Z.min nextAligned limit), nextAligned)
  else ([], start).

Definition findMissingRanges (buckets : list cached_bucket) (start limit bucketMs flux : Z)
    : list missing_range :=
  if limit <=? start then []
  else
    let sorted := js_sort (fun a b => b_start a - b_start b) buckets in
    let '(head, cursor) := leading_gap start limit bucketMs flux in
    let '(gaps, cursor) := gap_loop limit bucketMs flux sorted cursor in
    head ++ gaps ++ (if cursor <? limit then emit flux cursor limit else []).

(** One gap folded into the span of its class. *)
Definition widen (spans : jsmap bool time_range) (m : missing_range) : jsmap bool time_range :=
  match map_get (cachable m) spans with
  | Some span =>
      map_set (cachable m)
        {| startMs := Z.min (startMs span) (startMs (range m));
           endMs := Z.max (endMs span) (endMs (range m)) |} spans
  | None => map_set (cachable m) (range m) spans
  end.

Definition coalesceMissingRanges (missing : list missing_range) : list missing_range :=
  let spans := fold_left widen missing [] in
  List.flat_map (fun c =>
    match map_get c spans with
    | Some span => [{| range := span; cachable := c |}]
    | None => []
    end) [true; false].

(** ** Buckets *)

Section Buckets.
Variable date_parse : string -> option Z.

(** The points by the start of their bucket. *)
Definition group_points (bucketMs : Z) (points : list point) : jsmap Z (list point) :=
  fold_left (fun m p =>
    match parseWarehouseDateTime date_parse (p_bucket p) with
    | None => m
    | Some ms =>
        let aligned := ms / bucketMs * bucketMs in
        match map_get aligned m with
        | Some existing => map_set aligned (existing ++ [p]) m
        | None => map_set aligned [p] m
        end
    end) points [].

Definition pointsToBuckets (points : list point) (bucketMs flux : Z) : list cached_bucket :=
  js_sort (fun a b => b_start a - b_start b)
    (List.flat_map (fun e =>
       let stop := e.1 + bucketMs in
       if flux <? stop then [] else [{| b_start := e.1; b_end := stop; b_points := e.2 |}])
       (group_points bucketMs points)).

(** The buckets that lie whole in a range, up to the flux boundary. *)
Fixpoint covered_loop (fuel : nat) (grouped : jsmap Z (list point)) (limit bucketMs flux start : Z)
    : list cached_bucket :=
  match fuel with
  | O => []
  | S f =>
      if start + bucketMs <=? limit then
        let stop := start + bucketMs in
        if flux <? stop then []
        else {| b_start := start; b_end := stop; b_points := default [] (map_get start grouped) |}
             :: covered_loop f grouped limit bucketMs flux (start + bucketMs)
      else []
  end.

(** [Math.ceil(x / y) * y] *)
Definition ceil_to (x y : Z) : Z := - (- x / y) * y.

Definition pointsToCoveredBuckets (points : list point) (r : time_range) (bucketMs flux : Z)
    : list cached_bucket :=
  let firstFullBucket := ceil_to (startMs r) bucketMs in
  covered_loop (Z.to_nat ((endMs r - firstFullBucket) / bucketMs + 1)) (group_points bucketMs points)
    (endMs r) bucketMs flux firstFullBucket.

(** The points of the cached buckets that lie in the window; the buckets are
    sorted, so the first one past the window ends the walk. *)
Fixpoint slicePointsFromBuckets (buckets : list cached_bucket) (start limit : Z) : list point :=
  match buckets with
  | [] => []
  | bucket :: rest =>
      if b_end bucket <=? start then slicePointsFromBuckets rest start limit
      else if limit <=? b_start bucket then []
      else
        List.filter (fun p =>
          match parseWarehouseDateTime date_parse (p_bucket p) with
          | None => false
          | Some ms => (start <=? ms) && (ms <? limit)
          end) (b_points bucket)
        ++ slicePointsFromBuckets rest start limit
  end.
End Buckets.

Definition mergeAndDeduplicateBuckets (existing fresh : list cached_bucket) : list cached_bucket :=
  js_sort (fun a b => b_start a - b_start b)
    (map_values (fold_left (fun m b => map_set (b_start b) b m) fresh
       (fold_left (fun m b => map_set (b_start b) b m) existing []))).

(** The starts of the [step]-wide windows a range touches. *)
Definition window_starts (start limit step : Z) : list Z :=
  if limit <=? start then []
  else
    let first := start / step * step in
    let last := (limit - 1) / step * step in
    count_up (Z.to_nat ((last - first) / step + 1)) first last step.

Definition requestedBucketStarts (start limit bucketMs : Z) : list Z :=
  window_starts start limit bucketMs.

Definition segmentStartsForRange (start limit segmentMs : Z) : list Z :=
  window_starts start limit segmentMs.

(** ** The guard on cached values *)

Record expected_segment := {
  ex_fingerprint : string;
  ex_bucketSeconds : Z;
  ex_bucketMs : Z;
  ex_segmentStartMs : Z;
  ex_segmentEndMs : Z
}.

(** [value === n] for an integer [n]. *)
Definition is_number (n : Z) (v : js) : bool :=
  match v with js_number (Some m) => m =? n | _ => false end.

Definition is_string (s : string) (v : js) : bool :=
  match v with js_string t => bool_decide (t = s) | _ => false end.

(** [typeof value === "object"], [null] aside. *)
Definition is_object (v : js) : bool :=
  match v with js_array _ | js_object _ => true | _ => false end.

Definition point_ok (v : js) : bool :=
  is_object v
  && match member "bucket" v with js_string _ => true | _ => false end
  && is_object (member "series" v).

(** A number that is no integer cannot pass: the width of a bucket is one, and
    so is a start it divides. *)
Definition bucket_ok (expected : expected_segment) (v : js) : bool :=
  match v, member "startMs" v, member "endMs" v, member "points" v with
  | (js_object _ | js_array _), js_number (Some start), js_number (Some stop), js_array points =>
      (ex_segmentStartMs expected <=? start) && (stop <=? ex_segmentEndMs expected)
      && (stop - start =? ex_bucketMs expected) && (Z.rem start (ex_bucketMs expected) =? 0)
      && forallb point_ok points
  | _, _, _, _ => false
  end.

Definition isBucketCacheSegmentData (value : js) (expected : expected_segment) : bool :=
  is_object value
  && is_number CACHE_VERSION (member "version" value)
  && is_string (ex_fingerprint expected) (member "fingerprint" value)
  && is_number (ex_bucketSeconds expected) (member "bucketSeconds" value)
  && is_number (ex_segmentStartMs expected) (member "segmentStartMs" value)
  && is_number (ex_segmentEndMs expected) (member "segmentEndMs" value)
  && match member "buckets" value with
     | js_array buckets => forallb (bucket_ok expected) buckets
     | _ => false
     end.

(** A guarded value at its type: what the code reads of [data.buckets]. *)
Definition point_of (v : js) : point :=
  {| p_bucket := match member "bucket" v with js_string s => s | _ => EmptyString end;
     p_series := member "series" v |}.

Definition number_of (v : js) : Z := match v with js_number (Some n) => n | _ => 0 end.
Definition items_of (v : js) : list js := match v with js_array items => items | _ => [] end.

Definition bucket_of (v : js) : cached_bucket :=
  {| b_start := number_of (member "startMs" v);
     b_end := number_of (member "endMs" v);
     b_points := List.map point_of (items_of (member "points" v)) |}.

Definition buckets_of (v : js) : list cached_bucket :=
  List.map bucket_of (items_of (member "buckets" v)).

(** The payload as the cache stores it. *)
Definition point_js (p : point) : js :=
  js_object [("bucket", js_string (p_bucket p)); ("series", p_series p)]%string.

Definition bucket_js (b : cached_bucket) : js :=
  js_object [("startMs", js_number (Some (b_start b))); ("endMs", js_number (Some (b_end b)));
             ("points", js_array (List.map point_js (b_points b)))]%string.

Definition segment_js (d : segment_data) : js :=
  js_object [("version", js_number (Some (sd_version d)));
             ("fingerprint", js_string (sd_fingerprint d));
             ("bucketSeconds", js_number (Some (sd_bucketSeconds d)));
             ("segmentStartMs", js_number (Some (sd_segmentStartMs d)));
             ("segmentEndMs", js_number (Some (sd_segmentEndMs d)));
             ("buckets", js_array (List.map bucket_js (sd_buckets d)))]%string.

(** ** The gaps of a request *)

Definition inside (r : time_range) (t : Z) : Prop := startMs r <= t < endMs r.

Definition missing_at (gaps : list missing_range) (t : Z) : Prop :=
  exists m, m ∈ gaps /\ inside (range m) t.

Definition cached_at (buckets : list cached_bucket) (t : Z) : Prop :=
  exists b, b ∈ buckets /\ b_start b <= t < b_end b.

(** A bucket the guard lets through: one whole window. *)
Definition whole (bucketMs : Z) (b : cached_bucket) : Prop :=
  (bucketMs | b_start b) /\ b_end b = b_start b + bucketMs.

(** Non-empty ranges, in order, without overlap, from [lo] to [hi]. *)
Definition in_order (lo hi : Z) (gaps : list missing_range) : Prop :=
  Forall (fun m => lo <= startMs (range m) < endMs (range m) /\ endMs (range m) <= hi) gaps
  /\ StronglySorted (fun m m' => endMs (range m) <= startMs (range m')) gaps.

(** A range is cachable when it ends by the flux boundary, and is not when it
    starts there or later. *)
Definition split_at (flux : Z) (m : missing_range) : Prop :=
  if cachable m then endMs (range m) <= flux else flux <= startMs (range m).

Lemma missing_at_app g1 g2 t : missing_at (g1 ++ g2) t <-> missing_at g1 t \/ missing_at g2 t.
Proof. unfold missing_at. set_solver. Qed.

Lemma missing_at_nil t : ~ missing_at [] t.
Proof. intros (m & Hm & _). set_solver. Qed.

Lemma cached_at_cons b bs t : cached_at (b :: bs) t <-> b_start b <= t < b_end b \/ cached_at bs t.
Proof. unfold cached_at. set_solver. Qed.

Lemma in_order_nil lo hi : in_order lo hi [].
Proof. split; constructor. Qed.

Lemma in_order_app lo mid hi g1 g2 :
  in_order lo mid g1 -> in_order mid hi g2 -> lo <= mid <= hi -> in_order lo hi (g1 ++ g2).
Proof.
  intros [Hb1 Hs1] [Hb2 Hs2] Hm. split.
  - rewrite Forall_app. split; eapply Forall_impl; try eassumption; simpl; intros; lia.
  - induction Hs1 as [|m g1 Hs1 IH Hm1]; [done|]. apply Forall_cons in Hb1 as [Hb Hb1].
    simpl. constructor; [by apply IH|]. apply Forall_app. split; [done|].
    eapply Forall_impl; [exact Hb2|]. simpl. intros; lia.
Qed.

Lemma in_order_weaken lo lo' hi hi' gaps :
  in_order lo hi gaps -> lo' <= lo -> hi <= hi' -> in_order lo' hi' gaps.
Proof.
  intros [Hb Hs] Hl Hh. split; [|done]. eapply Forall_impl; [exact Hb|]. simpl. intros; lia.
Qed.

Section Emit.
Context (flux from to : Z).

Lemma emit_missing t : missing_at (emit flux from to) t <-> from <= t < to.
Proof.
  unfold emit, missing_at, inside. split.
  - intros (m & Hm & Ht). revert Hm Ht. case_tests; set_unfold; intros Hm Ht;
      naive_solver lia.
  - intros Ht. case_tests; [lia| | |].
    1-2: eexists; split; [left|simpl; lia].
    destruct (Z.ltb_spec t flux); eexists; (split; [|]); [left|simpl; lia|right; left|simpl; lia].
Qed.

Lemma emit_in_order : in_order from (Z.max from to) (emit flux from to).
Proof.
  unfold emit. case_tests; split; repeat constructor; simpl; lia.
Qed.

Lemma emit_split : Forall (split_at flux) (emit flux from to).
Proof. unfold emit, split_at. case_tests; repeat constructor; simpl; lia. Qed.
End Emit.

#[export] Hint Resolve in_order_nil emit_in_order emit_split : maple.

Section Gaps.
Context (bucketMs flux limit : Z) (Hb : 0 < bucketMs).

Lemma divide_rem x : (bucketMs | x) <-> Z.rem x bucketMs = 0.
Proof. rewrite Z.rem_divide by lia. done. Qed.

Lemma aligned_start_whole x : (bucketMs | x) -> aligned_start bucketMs x = x.
Proof. intros H. unfold aligned_start. rewrite divide_rem in H. by rewrite H. Qed.

Lemma bucket_end_whole e : (bucketMs | e) -> bucket_end bucketMs e limit = Z.min e limit.
Proof.
  intros He. unfold bucket_end. destruct (Z.ltb_spec (Z.min e limit) limit).
  - replace (Z.min e limit) with e by lia. apply divide_rem in He. by rewrite He.
  - by rewrite andb_false_r.
Qed.

Lemma whole_end b : whole bucketMs b -> (bucketMs | b_end b).
Proof. intros [H ->]. apply Z.divide_add_r; [done|reflexivity]. Qed.

(** Aligned instants are a whole bucket apart. *)
Lemma divide_gap x y : (bucketMs | x) -> (bucketMs | y) -> x < y + bucketMs -> x <= y.
Proof.
  intros [u ->] [v ->] H.
  apply Z.mul_le_mono_nonneg_r; [lia|]. enough (u < v + 1) by lia.
  apply (Z.mul_lt_mono_pos_r bucketMs); lia.
Qed.

(** The invariant of the walk: what lies between the cursor and where it stops
    is missing exactly when it is not cached, and nothing later is cached. *)
Lemma gap_loop_spec sorted cursor gaps stop :
  Forall (whole bucketMs) sorted ->
  StronglySorted (fun a b => b_start a - b_start b <= 0) sorted ->
  (bucketMs | cursor) \/ limit <= cursor ->
  gap_loop limit bucketMs flux sorted cursor = (gaps, stop) ->
  cursor <= stop /\ (stop <= limit \/ stop = cursor)
  /\ in_order cursor stop gaps /\ Forall (split_at flux) gaps
  /\ forall t, cursor <= t < limit ->
       (missing_at gaps t -> ~ cached_at sorted t /\ t < stop)
       /\ (~ cached_at sorted t -> t < stop -> missing_at gaps t)
       /\ (stop <= t -> ~ cached_at sorted t).
Proof.
  intros Hw Hs. revert cursor gaps stop.
  induction Hs as [|b rest Hs IH Hall]; intros cursor gaps stop Hcur; cbn [gap_loop].
  { intros [= <- <-]. split_and!; try lia; auto with maple. intros t Ht. split_and!.
    - intros H. by apply missing_at_nil in H.
    - lia.
    - intros _ (x & Hx & _). set_solver. }
  apply Forall_cons in Hw as [Hwb Hw]. pose proof (whole_end _ Hwb) as Hend.
  destruct Hwb as [Hst Hen].
  destruct (Z.leb_spec (b_end b) cursor) as [Hle|Hgt].
  { intros Heq. destruct (IH Hw _ _ _ Hcur Heq) as (H1 & H2 & H3 & H4 & H5).
    split_and!; try done. intros t Ht. destruct (H5 t Ht) as (Ha & Hc & Hd).
    rewrite cached_at_cons.
    assert (~ (b_start b <= t < b_end b)) by lia. tauto. }
  destruct (Z.leb_spec limit (b_start b)) as [Hpast|Hbefore].
  { intros [= <- <-]. split_and!; try lia; auto with maple.
    assert (Hnone : forall t, t < limit -> ~ cached_at (b :: rest) t).
    { intros t Ht (x & Hx & Hxt). apply elem_of_cons in Hx as [->|Hx]; [lia|].
      rewrite Forall_forall in Hall. specialize (Hall x Hx). lia. }
    intros t Ht. split_and!; [intros H; by apply missing_at_nil in H|lia|intros _; by apply Hnone; lia]. }
  rewrite aligned_start_whole, bucket_end_whole by done.
  set (gap := if (cursor <? b_start b) && (cursor <? limit)
    then emit flux cursor (Z.min (b_start b) limit) else []).
  set (next := Z.max cursor (Z.min (b_end b) limit)).
  destruct (gap_loop limit bucketMs flux rest next) as [gs c] eqn:Heq. intros [= <- <-].
  assert (Hnext : (bucketMs | next) \/ limit <= next).
  { unfold next. destruct (Z.le_ge_cases (Z.min (b_end b) limit) cursor).
    - rewrite Z.max_l by done. done.
    - rewrite Z.max_r by done. destruct (Z.le_ge_cases (b_end b) limit); [left|right; lia].
      by rewrite Z.min_l. }
  destruct (IH Hw _ _ _ Hnext Heq) as (H1 & H2 & H3 & H4 & H5).
  assert (Hstart : cursor < limit -> cursor <= b_start b).
  { intros Hlim. destruct Hcur as [Hcur|]; [|lia]. apply divide_gap; [done..|lia]. }
  assert (Hgap : in_order cursor next gap /\ Forall (split_at flux) gap
    /\ forall t, missing_at gap t <-> cursor <= t < b_start b /\ cursor < limit).
  { subst gap. destruct (Z.ltb_spec cursor (b_start b)), (Z.ltb_spec cursor limit); simpl.
    1: { split_and!; [|apply emit_split|].
         - eapply in_order_weaken; [apply emit_in_order|lia|unfold next; lia].
         - intros t. rewrite emit_missing. lia. }
    all: split_and!; auto with maple; intros t; split; [intros H'; by apply missing_at_nil in H'|lia]. }
  destruct Hgap as (Hgo & Hgs & Hgm).
  assert (Hlater : forall t, cached_at rest t -> b_start b <= t).
  { intros t (x & Hx & Hxt). rewrite Forall_forall in Hall. specialize (Hall x Hx). lia. }
  split_and!.
  - unfold next in *. lia.
  - unfold next in *. lia.
  - eapply in_order_app; [exact Hgo|exact H3|unfold next in *; lia].
  - by apply Forall_app.
  - intros t Ht. rewrite cached_at_cons, missing_at_app, Hgm. specialize (Hstart ltac:(lia)).
    destruct (Z.lt_ge_cases t next) as [Hlt|Hge].
    + (* before the next cursor: the gap, then the bucket itself *)
      assert (Hno : ~ missing_at gs t).
      { intros (m & Hm & Hmt). destruct H3 as [H3 _]. rewrite Forall_forall in H3.
        specialize (H3 m Hm). unfold inside in Hmt. simpl in H3. lia. }
      assert (Hnx : next = Z.min (b_end b) limit) by (unfold next in *; lia).
      split_and!; [|intros; left|].
      * intros [Hg|Hg]; [|done]. split; [|lia]. intros [?|Hc]; [lia|]. apply Hlater in Hc. lia.
      * destruct (Z.lt_ge_cases t (b_start b)); [lia|]. exfalso. naive_solver lia.
      * lia.
    + assert (Hbe : b_end b <= t) by (unfold next in *; lia).
      destruct (H5 t ltac:(lia)) as (Ha & Hc & Hd).
      assert (~ (b_start b <= t < b_end b)) by lia.
      assert (~ (cursor <= t < b_start b /\ cursor < limit)) by lia. tauto.
Qed.
End Gaps.


Lemma cached_at_sorted buckets t :
  cached_at (js_sort (fun a b => b_start a - b_start b) buckets) t <-> cached_at buckets t.
Proof.
  unfold cached_at. split; intros (b & Hb & Ht); exists b; (split; [|done]);
    [by rewrite elem_of_js_sort in Hb|by rewrite elem_of_js_sort].
Qed.

(** The first instant at or after the start of a request that is aligned. *)
Definition first_aligned (start bucketMs : Z) : Z :=
  if Z.rem start bucketMs =? 0 then start else (start / bucketMs + 1) * bucketMs.

Lemma leading_gap_spec start limit bucketMs flux :
  0 < bucketMs -> 0 <= start < limit ->
  let '(gaps, cursor) := leading_gap start limit bucketMs flux in
  cursor = first_aligned start bucketMs /\ (bucketMs | cursor) /\ start <= cursor
  /\ in_order start (Z.min cursor limit) gaps /\ Forall (split_at flux) gaps
  /\ forall t, missing_at gaps t <-> start <= t < Z.min cursor limit.
Proof.
  intros Hb Hs. unfold leading_gap, first_aligned. rewrite Z.rem_mod_nonneg by lia.
  destruct (Z.eqb_spec (start mod bucketMs) 0) as [Hz|Hnz]; simpl.
  - split_and!; try done; try lia; auto with maple.
    + by apply Z.mod_divide; [lia|].
    + intros t. split; [intros H; by apply missing_at_nil in H|lia].
  - pose proof (Z.div_mod start bucketMs ltac:(lia)).
    pose proof (Z.mod_pos_bound start bucketMs ltac:(lia)).
    replace (start - start mod bucketMs + bucketMs) with ((start / bucketMs + 1) * bucketMs) by lia.
    split_and!; [done|apply Z.divide_factor_r|lia| |apply emit_split|apply emit_missing].
    eapply in_order_weaken; [apply emit_in_order|lia|lia].
Qed.

(** The gaps of a request against the buckets it has. *)
Lemma missing_ranges_exact_cover buckets start limit bucketMs flux :
  0 < bucketMs -> 0 <= start -> Forall (whole bucketMs) buckets ->
  let missing := findMissingRanges buckets start limit bucketMs flux in
  in_order start (Z.max start limit) missing /\ Forall (split_at flux) missing
  /\ forall t, start <= t < limit ->
       (missing_at missing t <-> ~ cached_at buckets t \/ t < first_aligned start bucketMs).
Proof.
  intros Hb Hs Hw. unfold findMissingRanges. destruct (Z.leb_spec limit start) as [Hle|Hlt].
  { simpl. split_and!; auto with maple. intros; lia. }
  pose proof (leading_gap_spec start limit bucketMs flux Hb ltac:(lia)) as Hlead.
  destruct (leading_gap _ _ _ _) as [head cursor].
  destruct Hlead as (Hcur & Hdiv & Hsc & Hho & Hhs & Hhm). rewrite <- Hcur.
  destruct (gap_loop _ _ _ _ _) as [gaps stop] eqn:Heq.
  apply gap_loop_spec in Heq as (H1 & H2 & H3 & H4 & H5);
    [|done|by rewrite (js_sort_perm _ buckets)|by apply js_sort_sorted, _|by left].
  setoid_rewrite cached_at_sorted in H5.
  set (tail := if stop <? limit then emit flux stop limit else []).
  assert (Htail : in_order (Z.min stop limit) limit tail /\ Forall (split_at flux) tail
    /\ forall t, missing_at tail t <-> stop <= t < limit).
  { subst tail. destruct (Z.ltb_spec stop limit).
    - split_and!; [|apply emit_split|apply emit_missing].
      eapply in_order_weaken; [apply emit_in_order|lia|lia].
    - split_and!; auto with maple. intros t. split; [intros H'; by apply missing_at_nil in H'|lia]. }
  destruct Htail as (Hto & Hts & Htm). rewrite (Z.max_r start limit) by lia. simpl. split_and!.
  - eapply in_order_app; [exact Hho| |lia].
    eapply in_order_app; [|exact Hto|lia]. destruct (Z.le_gt_cases cursor limit).
    + rewrite Z.min_l by lia. by rewrite Z.min_l by lia.
    + assert (gaps = []) as ->; [|auto with maple].
      destruct gaps as [|m gaps]; [done|]. destruct H3 as [H3 _]. apply Forall_cons in H3 as [Hm _].
      simpl in Hm. lia.
  - by rewrite !Forall_app.
  - intros t Ht. rewrite !missing_at_app, Hhm, Htm.
    destruct (Z.lt_ge_cases t cursor) as [Hbef|Haft]; [split; [by right|left; lia]|].
    destruct (H5 t ltac:(lia)) as (Ha & Hc & Hd).
    destruct (Z.lt_ge_cases t stop); split.
    + intros [?|[?|?]]; [lia|left; tauto|lia].
    + intros [?|?]; [tauto|lia].
    + intros _. left. tauto.
    + intros _. right. right. lia.
Qed.

(** For cached buckets that are whole windows, in any order, the missing
    ranges of a request are non-empty, in order, disjoint and inside it; each
    ends by the flux boundary or starts there or later, as its tag says; and an
    instant of the request is in one of them exactly when no cached bucket
    holds it or it lies in the partial bucket the request starts with. *)
Theorem missing_ranges_exact buckets start limit bucketMs flux :
  0 < bucketMs -> 0 <= start -> Forall (whole bucketMs) buckets ->
  let missing := findMissingRanges buckets start limit bucketMs flux in
  in_order start (Z.max start limit) missing /\ Forall (split_at flux) missing
  /\ forall t, start <= t < limit ->
       (missing_at missing t <-> ~ cached_at buckets t \/ t < first_aligned start bucketMs).
Proof. apply missing_ranges_exact_cover. Qed.

Example missing_ranges_exact_witness :
  missing_at (findMissingRanges
    [{| b_start := 180; b_end := 240; b_points := [] |}; {| b_start := 60; b_end := 120; b_points := [] |}]
    30 300 60 200) 130.
Proof.
  apply (missing_ranges_exact
    [{| b_start := 180; b_end := 240; b_points := [] |}; {| b_start := 60; b_end := 120; b_points := [] |}]
    30 300 60 200); [lia|lia| |lia|].
  - rewrite !Forall_cons, Forall_nil. split; [split; [by exists 3|done]|split; [split; [by exists 1|done]|done]].
  - left. intros (b & Hb & Ht). rewrite !elem_of_cons in Hb.
    destruct Hb as [->|[->|Hb]]; simpl in Ht; [lia|lia|by apply not_elem_of_nil in Hb].
Defined.

(** ** Coalescing *)

(** What the span of a class is: absent without a gap of the class, otherwise
    from the start of one of its gaps to the end of one, around all of them. *)
Definition span_of_class (missing : list missing_range) (c : bool) (span : option time_range) : Prop :=
  match span with
  | None => forall m, m ∈ missing -> cachable m <> c
  | Some r =>
      (exists m, m ∈ missing /\ cachable m = c /\ startMs r = startMs (range m))
      /\ (exists m, m ∈ missing /\ cachable m = c /\ endMs r = endMs (range m))
      /\ forall m, m ∈ missing -> cachable m = c ->
           startMs r <= startMs (range m) /\ endMs (range m) <= endMs r
  end.

Lemma widen_span missing spans m c :
  span_of_class missing c (map_get c spans) ->
  span_of_class (missing ++ [m]) c (map_get c (widen spans m)).
Proof.
  unfold widen. intros H. destruct (decide (cachable m = c)) as [<-|Hne].
  - destruct (map_get (cachable m) spans) as [r|]; rewrite map_get_set_eq; simpl in *.
    + destruct H as ((m1 & Hm1 & Hc1 & Hr1) & (m2 & Hm2 & Hc2 & Hr2) & Hall). split_and!.
      * destruct (Z.le_ge_cases (startMs r) (startMs (range m)));
          [exists m1|exists m]; (split; [set_solver|split; [done|lia]]).
      * destruct (Z.le_ge_cases (endMs r) (endMs (range m)));
          [exists m|exists m2]; (split; [set_solver|split; [done|lia]]).
      * intros m' [Hm'| ->%list_elem_of_singleton]%elem_of_app Hc'; [specialize (Hall m' Hm' Hc')|]; lia.
    + split_and!; [exists m; set_solver|exists m; set_solver|].
      intros m' [Hm'| ->%list_elem_of_singleton]%elem_of_app Hc'; [by destruct (H m' Hm')|lia].
  - destruct (map_get (cachable m) spans); rewrite map_get_set_ne by done;
    destruct (map_get c spans) as [r|]; simpl in *; set_solver.
Qed.

Lemma widen_spans missing c : span_of_class missing c (map_get c (fold_left widen missing [])).
Proof.
  induction missing as [|m missing IH] using rev_ind; [simpl; set_solver|].
  rewrite fold_left_app. by apply widen_span.
Qed.

Lemma elem_of_coalesce missing f :
  f ∈ coalesceMissingRanges missing <->
  map_get (cachable f) (fold_left widen missing []) = Some (range f).
Proof.
  unfold coalesceMissingRanges. simpl. destruct f as [r c].
  destruct (map_get true _) eqn:Et, (map_get false _) eqn:Ef, c; simpl; rewrite ?Et, ?Ef; set_solver.
Qed.

(** What the fill ranges of a gap list are. *)
Lemma coalesce_spec missing :
  (forall m, m ∈ missing -> exists f, f ∈ coalesceMissingRanges missing /\ cachable f = cachable m
     /\ startMs (range f) <= startMs (range m) /\ endMs (range m) <= endMs (range f))
  /\ (forall f, f ∈ coalesceMissingRanges missing ->
        (exists m, m ∈ missing /\ cachable m = cachable f /\ startMs (range f) = startMs (range m))
        /\ (exists m, m ∈ missing /\ cachable m = cachable f /\ endMs (range f) = endMs (range m))).
Proof.
  split.
  - intros m Hm. pose proof (widen_spans missing (cachable m)) as H.
    destruct (map_get _ _) as [r|] eqn:E; simpl in H; [|by destruct (H m Hm)].
    exists {| range := r; cachable := cachable m |}. rewrite elem_of_coalesce. simpl.
    split_and!; [done..|apply H; done|apply H; done].
  - intros f Hf. apply elem_of_coalesce in Hf. pose proof (widen_spans missing (cachable f)) as H.
    rewrite Hf in H. simpl in H. naive_solver.
Qed.

Lemma coalesce_length missing : (length (coalesceMissingRanges missing) <= 2)%nat.
Proof.
  unfold coalesceMissingRanges. simpl. destruct (map_get true _), (map_get false _); simpl; lia.
Qed.

(** A request costs at most two warehouse queries. The fill ranges of a
    gap list split at the flux boundary take in every gap within the range of
    its own class, start where a gap of that class starts and end where one
    ends, and stay on their side of the boundary, so a result that may be
    written back never reaches into the live tail. *)
Theorem coalesced_fill missing flux :
  Forall (split_at flux) missing ->
  let fill := coalesceMissingRanges missing in
  (length fill <= 2)%nat /\ Forall (split_at flux) fill
  /\ (forall m, m ∈ missing -> exists f, f ∈ fill /\ cachable f = cachable m
        /\ startMs (range f) <= startMs (range m) /\ endMs (range m) <= endMs (range f))
  /\ (forall f, f ∈ fill ->
        (exists m, m ∈ missing /\ cachable m = cachable f /\ startMs (range f) = startMs (range m))
        /\ (exists m, m ∈ missing /\ cachable m = cachable f /\ endMs (range f) = endMs (range m))).
Proof.
  intros Hs. destruct (coalesce_spec missing) as [H1 H2].
  split_and!; [apply coalesce_length| |done|done].
  rewrite Forall_forall in Hs |- *. intros f Hf.
  destruct (H2 f Hf) as [(m & Hm & Hc & Hst) (m' & Hm' & Hc' & Hen)].
  pose proof (Hs m Hm) as Hsm. pose proof (Hs m' Hm') as Hsm'. unfold split_at in *.
  rewrite Hc in Hsm. rewrite Hc' in Hsm'. destruct (cachable f); lia.
Qed.

Example coalesced_fill_witness :
  let fill := coalesceMissingRanges (findMissingRanges
    [{| b_start := 60; b_end := 120; b_points := [] |}] 0 300 60 200) in
  (length fill <= 2)%nat
  /\ fill = [{| range := {| startMs := 0; endMs := 200 |}; cachable := true |};
             {| range := {| startMs := 200; endMs := 300 |}; cachable := false |}].
Proof.
  split; [|vm_compute; reflexivity].
  apply (coalesced_fill (findMissingRanges
    [{| b_start := 60; b_end := 120; b_points := [] |}] 0 300 60 200) 200).
  vm_compute. repeat constructor; done.
Defined.

(** ** Grouping and slicing points *)

Section Points.
Context (date_parse : string -> option Z) (bucketMs : Z) (Hb : 0 < bucketMs).

(** The instant of a point. *)
Definition at_ms (p : point) (ms : Z) : Prop :=
  parseWarehouseDateTime date_parse (p_bucket p) = Some ms.

Lemma group_points_spec points start p :
  p ∈ default [] (map_get start (group_points date_parse bucketMs points)) <->
  p ∈ points /\ exists ms, at_ms p ms /\ ms / bucketMs * bucketMs = start.
Proof.
  unfold group_points. induction points as [|q points IH] using rev_ind; [simpl; set_solver|].
  rewrite fold_left_app. cbn [fold_left]. set (m := fold_left _ points []) in *. unfold at_ms in *.
  rewrite elem_of_app, list_elem_of_singleton.
  destruct (parseWarehouseDateTime date_parse (p_bucket q)) as [ms|] eqn:Eq.
  - set (a := ms / bucketMs * bucketMs).
    assert (Hget : default [] (map_get start (match map_get a m with
        | Some existing => map_set a (existing ++ [q]) m | None => map_set a [q] m end))
      = if decide (a = start) then default [] (map_get start m) ++ [q] else default [] (map_get start m)).
    { case_decide as Ha; [subst start|]; destruct (map_get a m) eqn:Em;
        rewrite ?map_get_set_eq, ?map_get_set_ne by done; reflexivity. }
    rewrite Hget. case_decide as Ha.
    + rewrite elem_of_app, IH, list_elem_of_singleton. split; [|naive_solver].
      intros [?| ->]; [naive_solver|]. split; [by right|]. by exists ms.
    + rewrite IH. split; [naive_solver|]. intros [[?| ->] (ms' & Hms & Hst)]; [naive_solver|].
      by rewrite Eq in Hms; simplify_eq.
  - rewrite IH. split; [naive_solver|]. intros [[?| ->] (ms' & Hms & Hst)]; [naive_solver|congruence].
Qed.

Lemma covered_loop_elem fuel grouped limit flux start b :
  (bucketMs | start) -> limit - start <= Z.of_nat fuel * bucketMs ->
  b ∈ covered_loop fuel grouped limit bucketMs flux start <->
  whole bucketMs b /\ start <= b_start b /\ b_end b <= limit /\ b_end b <= flux
  /\ b_points b = default [] (map_get (b_start b) grouped).
Proof.
  revert start. induction fuel as [|f IH]; intros start Hd Hf; cbn [covered_loop].
  { split; [set_solver|]. unfold whole. intros ([Hw He] & ? & ? & _). lia. }
  assert (Hbnd : whole bucketMs b -> start <= b_start b -> b_start b = start \/ start + bucketMs <= b_start b).
  { intros [Hw _] Hge. destruct (decide (b_start b = start)); [by left|right].
    apply (divide_gap bucketMs Hb); [apply Z.divide_add_r; [done|reflexivity]|done|lia]. }
  unfold whole in *. destruct (Z.leb_spec (start + bucketMs) limit).
  - destruct (Z.ltb_spec flux (start + bucketMs)).
    + split; [set_solver|]. intros ([Hw He] & ? & ? & ? & _). lia.
    + rewrite elem_of_cons, IH; [|by apply Z.divide_add_r; [|reflexivity]|lia]. split.
      * intros [->|Hrest]; simpl; [split_and!; lia || done|]. naive_solver lia.
      * intros (Hw & Hge & Hlim & Hfl & Hpts). destruct (Hbnd Hw Hge) as [Heq|Hgt]; [left|right; done].
        destruct b as [bs be bp]; simpl in *. destruct Hw as [_ ->]. by subst.
  - split; [set_solver|]. intros ([Hw He] & ? & ? & _). lia.
Qed.

(** The buckets a fill result may write back are exactly the whole windows of
    its range that have settled, each with its points. *)
Lemma covered_buckets_spec points r flux b :
  b ∈ pointsToCoveredBuckets date_parse points r bucketMs flux <->
  whole bucketMs b /\ startMs r <= b_start b /\ b_end b <= endMs r /\ b_end b <= flux
  /\ b_points b = default [] (map_get (b_start b) (group_points date_parse bucketMs points)).
Proof.
  unfold pointsToCoveredBuckets, ceil_to.
  pose proof (Z.div_mod (- startMs r) bucketMs ltac:(lia)).
  pose proof (Z.mod_pos_bound (- startMs r) bucketMs ltac:(lia)).
  set (first := - (- startMs r / bucketMs) * bucketMs) in *.
  assert (Hd : (bucketMs | first)) by apply Z.divide_factor_r.
  pose proof (Z.div_mod (endMs r - first) bucketMs ltac:(lia)).
  pose proof (Z.mod_pos_bound (endMs r - first) bucketMs ltac:(lia)).
  rewrite covered_loop_elem; [|done|].
  - split; intros (Hw & Hge & ?); (split_and!; [done| |naive_solver..]); [lia|].
    apply (divide_gap bucketMs Hb); [done|apply Hw|lia].
  - destruct (Z.le_gt_cases 0 ((endMs r - first) / bucketMs + 1)); [rewrite Z2Nat.id by lia|]; nia.
Qed.

End Points.

Lemma slice_points_spec date_parse buckets start limit p :
  StronglySorted (fun a b => b_start a - b_start b <= 0) buckets ->
  Forall (fun b => forall q ms, q ∈ b_points b -> at_ms date_parse q ms -> b_start b <= ms < b_end b) buckets ->
  p ∈ slicePointsFromBuckets date_parse buckets start limit <->
  (exists b, b ∈ buckets /\ p ∈ b_points b) /\ exists ms, at_ms date_parse p ms /\ start <= ms < limit.
Proof.
  intros Hs Hin. induction Hs as [|b rest Hs IH Hall]; cbn [slicePointsFromBuckets]; [set_solver|].
  apply Forall_cons in Hin as [Hib Hin]. specialize (IH Hin).
  destruct (Z.leb_spec (b_end b) start) as [Hle|Hgt].
  - rewrite IH. split; [set_solver|].
    intros [(b' & [->|Hb']%elem_of_cons & Hp) (ms & Hms & Ht)]; [|naive_solver].
    specialize (Hib p ms Hp Hms). lia.
  - destruct (Z.leb_spec limit (b_start b)) as [Hpast|Hbefore].
    + split; [set_solver|]. intros [(b' & Hb' & Hp) (ms & Hms & Ht)]. exfalso.
      apply elem_of_cons in Hb' as [->|Hb']; [specialize (Hib p ms Hp Hms); lia|].
      rewrite Forall_forall in Hall, Hin. specialize (Hall b' Hb'). specialize (Hin b' Hb' p ms Hp Hms). lia.
    + rewrite elem_of_app, IH, list_elem_of_In, List.filter_In, <- list_elem_of_In. unfold at_ms.
      destruct (parseWarehouseDateTime date_parse (p_bucket p)) as [ms|] eqn:Ep.
      * rewrite andb_true_iff, Z.leb_le, Z.ltb_lt. set_solver.
      * split; [naive_solver|]. intros [_ (ms & Hms & _)]. congruence.
Qed.

Lemma fold_set_elem bs m b :
  b ∈ map_values (fold_left (fun m b => map_set (b_start b) b m) bs m) -> b ∈ bs \/ b ∈ map_values m.
Proof.
  revert m. induction bs as [|b' bs IH]; intros m; simpl; [auto|].
  intros [H|H]%IH; [set_solver|]. enough (b = b' \/ b ∈ map_values m) by set_solver.
  clear -H. induction m as [|[k v] m IH]; simpl in *; [set_solver|].
  case_decide; simpl in *; set_solver.
Qed.

Lemma merge_elem existing fresh b :
  b ∈ mergeAndDeduplicateBuckets existing fresh -> b ∈ existing \/ b ∈ fresh.
Proof.
  unfold mergeAndDeduplicateBuckets. rewrite elem_of_js_sort.
  intros [?|[?|?]%fold_set_elem]%fold_set_elem; set_solver.
Qed.

(** ** Stored segments *)

Lemma point_of_js p : point_of (point_js p) = p.
Proof. by destruct p. Qed.

Lemma bucket_of_js b : bucket_of (bucket_js b) = b.
Proof.
  destruct b as [s e ps]. unfold bucket_of, bucket_js. simpl. f_equal.
  induction ps as [|p ps IH]; [done|]. cbn [List.map]. by rewrite point_of_js, IH.
Qed.

Lemma buckets_of_segment d : buckets_of (segment_js d) = sd_buckets d.
Proof.
  unfold buckets_of, segment_js. simpl.
  induction (sd_buckets d) as [|b bs IH]; [done|]. cbn [List.map]. by rewrite bucket_of_js, IH.
Qed.

(** The contract of one stored bucket: a whole window of the segment whose
    points carry a series. *)
Definition storable (ex : expected_segment) (b : cached_bucket) : Prop :=
  ex_segmentStartMs ex <= b_start b /\ b_end b <= ex_segmentEndMs ex
  /\ whole (ex_bucketMs ex) b /\ Forall (fun p => is_object (p_series p) = true) (b_points b).

Lemma bucket_ok_js ex b : 0 < ex_bucketMs ex -> bucket_ok ex (bucket_js b) = true <-> storable ex b.
Proof.
  intros Hb. destruct b as [s e ps]. unfold bucket_ok, bucket_js, storable, whole. simpl.
  rewrite !andb_true_iff, !Z.leb_le, !Z.eqb_eq, <- (divide_rem _ Hb).
  assert (forallb point_ok (List.map point_js ps) = true <-> Forall (fun p => is_object (p_series p) = true) ps) as ->.
  { induction ps as [|p ps IH]; simpl; [done|]. rewrite andb_true_iff, Forall_cons, IH. done. }
  intuition lia.
Qed.

Lemma guard_whole value ex :
  0 < ex_bucketMs ex -> isBucketCacheSegmentData value ex = true -> Forall (whole (ex_bucketMs ex)) (buckets_of value).
Proof.
  intros Hb. unfold isBucketCacheSegmentData, buckets_of. rewrite !andb_true_iff. intros [_ H].
  destruct (member "buckets" value) as [| | | | |items|]; try done. simpl.
  rewrite Forall_forall. intros b (v & <- & Hv%list_elem_of_In)%list_elem_of_In%List.in_map_iff.
  rewrite forallb_forall in H. rewrite list_elem_of_In in Hv. specialize (H v Hv).
  unfold bucket_ok, bucket_of, whole in *. destruct v as [| | | | |its|ms]; try done;
    destruct (member "startMs" _) as [| | |[s|]| | |]; try done;
    destruct (member "endMs" _) as [| | |[e|]| | |]; try done;
    destruct (member "points" _) as [| | | | |pts|]; try done; simpl;
    bool_to_prop; rewrite (divide_rem _ Hb); split; done || lia.
Qed.

(** A segment comes back from the shared cache as it was written: the
    guard accepts a written payload exactly when the reader asks for that
    fingerprint, width and segment and every bucket is a whole window inside
    it, and the buckets read are the buckets written. *)
Theorem segment_roundtrip d ex :
  0 < ex_bucketMs ex ->
  buckets_of (segment_js d) = sd_buckets d
  /\ (isBucketCacheSegmentData (segment_js d) ex = true <->
      sd_version d = CACHE_VERSION /\ sd_fingerprint d = ex_fingerprint ex
      /\ sd_bucketSeconds d = ex_bucketSeconds ex /\ sd_segmentStartMs d = ex_segmentStartMs ex
      /\ sd_segmentEndMs d = ex_segmentEndMs ex /\ Forall (storable ex) (sd_buckets d)).
Proof.
  intros Hb. split; [apply buckets_of_segment|]. unfold isBucketCacheSegmentData, segment_js. simpl.
  rewrite !andb_true_iff, !Z.eqb_eq, !bool_decide_eq_true.
  assert (forallb (bucket_ok ex) (List.map bucket_js (sd_buckets d)) = true
    <-> Forall (storable ex) (sd_buckets d)) as ->; [|tauto].
  induction (sd_buckets d) as [|b bs IH]; [done|]. cbn [List.map forallb].
  by rewrite andb_true_iff, Forall_cons, IH, bucket_ok_js.
Qed.

Example segment_roundtrip_witness :
  let d := {| sd_version := 2; sd_fingerprint := "fp"; sd_bucketSeconds := 60; sd_segmentStartMs := 0;
              sd_segmentEndMs := 120000; sd_buckets := [{| b_start := 60000; b_end := 120000; b_points := [] |}] |} in
  isBucketCacheSegmentData (segment_js d)
    {| ex_fingerprint := "fp"; ex_bucketSeconds := 60; ex_bucketMs := 60000; ex_segmentStartMs := 0;
       ex_segmentEndMs := 120000 |} = true.
Proof.
  apply (segment_roundtrip
    {| sd_version := 2; sd_fingerprint := "fp"; sd_bucketSeconds := 60; sd_segmentStartMs := 0;
       sd_segmentEndMs := 120000; sd_buckets := [{| b_start := 60000; b_end := 120000; b_points := [] |}] |}
    {| ex_fingerprint := "fp"; ex_bucketSeconds := 60; ex_bucketMs := 60000; ex_segmentStartMs := 0;
       ex_segmentEndMs := 120000 |}); [simpl; lia|].
  simpl. split_and!; try done. apply Forall_cons; split; [|done]. unfold storable, whole. simpl.
  split_and!; try lia; [by exists 1|done].
Defined.
