(* ===== verification/BucketService.v ===== *)
(** * Query engine: the bucket cache service

    [BucketCacheService.getOrComputeBuckets] of
    [packages/query-engine/src/caching/bucket-cache.ts] over the edge cache of
    [EdgeCache], and the executor's grouping of rows into a filled timeline
    ([packages/query-engine/src/runtime/query-engine.ts]), the range function
    the service is called with. The clock, the fate of every read and write and
    the warehouse are inputs; [computeRange] is a function of the range, so the
    order in which concurrent fills finish does not matter. *)

From Stdlib Require Import Ascii String.
From stdpp Require Import prelude list strings.
From Stdlib Require Import ZArith Lia Sorting.Permutation Sorting.Sorted.
From S2P Require Import Prelude.
From S2P Require Import JsString.
From S2P Require Import EventTime.
From S2P Require Import WarehouseTime.
From S2P Require Import EdgeCache.
From S2P Require Import BucketCache.

Open Scope Z_scope.

(** ** Data *)

(** The request; its query enters through the fingerprint alone. *)
Record request := {
  rq_orgId : string;
  rq_bucketSeconds : Z;
  rq_startMs : Z;
  rq_endMs : Z
}.

Record cache_config := {
  cf_ttlSeconds : Z;
  cf_fluxSeconds : Z;
  cf_fillConcurrency : Z;
  cf_segmentBucketCount : Z
}.

(** What the clock and the network do during a request. *)
Record weather := {
  w_now : Z;
  w_read_fate : string -> read_fate;
  w_write_fails : string -> bool
}.

Inductive segment_status := seg_hit | seg_miss | seg_timeout | seg_skipped | seg_error.

#[export] Instance segment_status_eq_dec : EqDecision segment_status.
Proof. solve_decision. Defined.

Record segment_read := {
  sr_segmentStartMs : Z;
  sr_status : segment_status;
  sr_buckets : list cached_bucket
}.

(** [BucketCacheOutcome] *)
Record bucket_outcome := {
  oc_points : list point;
  oc_requestedBuckets : Z;
  oc_bucketsHit : Z;
  oc_bucketsMissed : Z;
  oc_missingRangeCount : Z;
  oc_warehouseQueryCount : Z;
  oc_segmentsHit : Z;
  oc_segmentsMissed : Z;
  oc_segmentsTimedOut : Z;
  oc_segmentsSkipped : Z;
  oc_segmentsErrored : Z
}.

Definition BUCKET_CACHE_NAMESPACE : string := "qe-ts-buckets".

(** ** The service *)

Section Service.
Context {S : Type} `{!CacheBackend js S} {E : Type}.
Variable date_parse : string -> option Z.

Definition segment_key (rq : request) (fingerprint : string) (segmentStartMs : Z) : string :=
  ("v" +:+ show CACHE_VERSION +:+ ":" +:+ rq_orgId rq +:+ ":" +:+ fingerprint +:+ ":" +:+ show segmentStartMs)%string.

Definition bucket_ms (rq : request) : Z := rq_bucketSeconds rq * 1000.

Definition segment_ms (cf : cache_config) (rq : request) : Z :=
  bucket_ms rq * Z.max 1 (cf_segmentBucketCount cf).

Definition expected_of (cf : cache_config) (rq : request) (fingerprint : string) (segmentStartMs : Z) : expected_segment :=
  {| ex_fingerprint := fingerprint;
     ex_bucketSeconds := rq_bucketSeconds rq;
     ex_bucketMs := bucket_ms rq;
     ex_segmentStartMs := segmentStartMs;
     ex_segmentEndMs := segmentStartMs + segment_ms cf rq |}.

Definition status_of (s : read_status) : segment_status :=
  match s with
  | status_hit => seg_hit
  | status_miss => seg_miss
  | status_timeout => seg_timeout
  | status_skipped => seg_skipped
  end.

Definition read_segment (cf : cache_config) (rq : request) (fingerprint : string) (w : weather)
    (sv : service S) (segmentStartMs : Z) : segment_read * service S :=
  let key := segment_key rq fingerprint segmentStartMs in
  let '(read, sv') := rawGetDetailed sv BUCKET_CACHE_NAMESPACE key (w_now w) (w_read_fate w key) in
  let made status buckets :=
    {| sr_segmentStartMs := segmentStartMs; sr_status := status; sr_buckets := buckets |} in
  (match read with
   | Err _ => made seg_error []
   | Ok (status_hit, Some data) =>
       if isBucketCacheSegmentData data (expected_of cf rq fingerprint segmentStartMs)
       then made seg_hit (buckets_of data) else made seg_miss []
   | Ok (status, _) => made (status_of status) []
   end, sv').

Fixpoint read_segments (cf : cache_config) (rq : request) (fingerprint : string) (w : weather)
    (sv : service S) (starts : list Z) : list segment_read * service S :=
  match starts with
  | [] => ([], sv)
  | start :: rest =>
      let '(read, sv) := read_segment cf rq fingerprint w sv start in
      let '(reads, sv) := read_segments cf rq fingerprint w sv rest in
      (read :: reads, sv)
  end.

(** [Effect.forEach] over the fill ranges. One at a time it stops at the first
    failure; otherwise both ranges are started. The ranges computed come
    second. *)
Fixpoint fill_sequential (compute : time_range -> result E (list point)) (items : list missing_range)
    : result (list E) (list (missing_range * list point)) * list time_range :=
  match items with
  | [] => (Ok [], [])
  | item :: rest =>
      match compute (range item) with
      | Err e => (Err [e], [range item])
      | Ok points =>
          let '(r, computed) := fill_sequential compute rest in
          (match r with Ok done => Ok ((item, points) :: done) | Err es => Err es end, range item :: computed)
      end
  end.

Fixpoint fill_concurrent (compute : time_range -> result E (list point)) (items : list missing_range)
    : result (list E) (list (missing_range * list point)) :=
  match items with
  | [] => Ok []
  | item :: rest =>
      match compute (range item), fill_concurrent compute rest with
      | Err e, Err es => Err (e :: es)
      | Err e, Ok _ => Err [e]
      | Ok _, Err es => Err es
      | Ok points, Ok done => Ok ((item, points) :: done)
      end
  end.

Definition fill (concurrency : Z) (compute : time_range -> result E (list point)) (items : list missing_range)
    : result (list E) (list (missing_range * list point)) * list time_range :=
  if Z.max 1 concurrency =? 1 then fill_sequential compute items
  else (fill_concurrent compute items, List.map range items).

(** The fresh buckets by segment. *)
Definition group_segments (segmentMs : Z) (fresh : list cached_bucket) : jsmap Z (list cached_bucket) :=
  fold_left (fun m b =>
    let segmentStartMs := b_start b / segmentMs * segmentMs in
    match map_get segmentStartMs m with
    | Some grouped => map_set segmentStartMs (grouped ++ [b]) m
    | None => map_set segmentStartMs [b] m
    end) fresh [].

(** What is written back for one segment: never merged against a segment whose
    read gave no answer. *)
Definition merged_buckets (reads : list segment_read) (segmentStartMs : Z) (fresh : list cached_bucket)
    : list cached_bucket :=
  let existingBySegment := map_of (List.map (fun r => (sr_segmentStartMs r, sr_buckets r)) reads) in
  let readStatusBySegment := map_of (List.map (fun r => (sr_segmentStartMs r, sr_status r)) reads) in
  match default seg_miss (map_get segmentStartMs readStatusBySegment) with
  | seg_timeout | seg_skipped | seg_error => js_sort (fun a b => b_start a - b_start b) fresh
  | _ => mergeAndDeduplicateBuckets (default [] (map_get segmentStartMs existingBySegment)) fresh
  end.

Definition payload_of (cf : cache_config) (rq : request) (fingerprint : string) (reads : list segment_read)
    (segmentStartMs : Z) (fresh : list cached_bucket) : segment_data :=
  {| sd_version := CACHE_VERSION;
     sd_fingerprint := fingerprint;
     sd_bucketSeconds := rq_bucketSeconds rq;
     sd_segmentStartMs := segmentStartMs;
     sd_segmentEndMs := segmentStartMs + segment_ms cf rq;
     sd_buckets := merged_buckets reads segmentStartMs fresh |}.

(** The write of one segment; its failure is ignored. *)
Definition write_segment (cf : cache_config) (rq : request) (fingerprint : string) (w : weather)
    (reads : list segment_read) (sv : service S) (entry : Z * list cached_bucket) : service S :=
  let key := segment_key rq fingerprint entry.1 in
  snd (rawPut sv BUCKET_CACHE_NAMESPACE key (segment_js (payload_of cf rq fingerprint reads entry.1 entry.2))
         (cf_ttlSeconds cf) (w_now w) (w_write_fails w key)).

(** The points by their bucket, later ones replacing earlier ones in place. *)
Definition index_points (points : list point) (m : jsmap string point) : jsmap string point :=
  fold_left (fun m p => map_set (p_bucket p) p m) points m.

Definition in_request (rq : request) (p : point) : bool :=
  match parseWarehouseDateTime date_parse (p_bucket p) with
  | None => false
  | Some ms => (rq_startMs rq <=? ms) && (ms <? rq_endMs rq)
  end.

Definition response_points (rq : request) (existing : list cached_bucket)
    (results : list (missing_range * list point)) : list point :=
  let cached := index_points (slicePointsFromBuckets date_parse existing (rq_startMs rq) (rq_endMs rq)) [] in
  let indexed := fold_left (fun m r => index_points (List.filter (in_request rq) r.2) m) results cached in
  js_sort (fun a b => string_compare (p_bucket a) (p_bucket b)) (map_values indexed).

Definition count_status (reads : list segment_read) (s : segment_status) : Z :=
  Z.of_nat (length (List.filter (fun r => bool_decide (sr_status r = s)) reads)).

(** What a request leaves behind: its result, whether the warm-up ran, the
    ranges computed, and the cache. *)
Record run := {
  rn_result : result (list E) bucket_outcome;
  rn_prepared : bool;
  rn_computed : list time_range;
  rn_service : service S
}.

Definition getOrComputeBuckets (cf : cache_config) (rq : request) (fingerprint : string)
    (compute : time_range -> result E (list point)) (prepare : bool) (w : weather) (sv : service S) : run :=
  let bucketMs := bucket_ms rq in
  let segmentMs := segment_ms cf rq in
  let fluxBoundaryMs := w_now w - cf_fluxSeconds cf * 1000 in
  let requestedStarts := requestedBucketStarts (rq_startMs rq) (rq_endMs rq) bucketMs in
  let segmentStarts := segmentStartsForRange (rq_startMs rq) (rq_endMs rq) segmentMs in
  let '(reads, sv) := read_segments cf rq fingerprint w sv segmentStarts in
  let existing := js_sort (fun a b => b_start a - b_start b) (List.flat_map sr_buckets reads) in
  let cachedRequestedStarts :=
    dedupe (List.filter (fun s => bool_decide (s ∈ requestedStarts)) (List.map b_start existing)) in
  let bucketsHit := Z.of_nat (length cachedRequestedStarts) in
  let missing := findMissingRanges existing (rq_startMs rq) (rq_endMs rq) bucketMs fluxBoundaryMs in
  let fillRanges := coalesceMissingRanges missing in
  let prepared := prepare && (1 <? Z.of_nat (length fillRanges)) in
  let '(filled, computed) := fill (cf_fillConcurrency cf) compute fillRanges in
  match filled with
  | Err es => {| rn_result := Err es; rn_prepared := prepared; rn_computed := computed; rn_service := sv |}
  | Ok results =>
      let freshCachable :=
        List.flat_map (fun r =>
          if cachable r.1 then pointsToCoveredBuckets date_parse r.2 (range r.1) bucketMs fluxBoundaryMs
          else []) results in
      let sv := fold_left (write_segment cf rq fingerprint w reads) (group_segments segmentMs freshCachable) sv in
      {| rn_result := Ok {|
           oc_points := response_points rq existing results;
           oc_requestedBuckets := Z.of_nat (length requestedStarts);
           oc_bucketsHit := bucketsHit;
           oc_bucketsMissed := Z.max 0 (Z.of_nat (length requestedStarts) - bucketsHit);
           oc_missingRangeCount := Z.of_nat (length missing);
           oc_warehouseQueryCount := Z.of_nat (length fillRanges);
           oc_segmentsHit := count_status reads seg_hit;
           oc_segmentsMissed := count_status reads seg_miss;
           oc_segmentsTimedOut := count_status reads seg_timeout;
           oc_segmentsSkipped := count_status reads seg_skipped;
           oc_segmentsErrored := count_status reads seg_error |};
         rn_prepared := prepared; rn_computed := computed; rn_service := sv |}
  end.
End Service.
Arguments run S E : clear implicits.

(** ** Indexing points *)

Lemma index_points_app l1 l2 m : index_points (l1 ++ l2) m = index_points l2 (index_points l1 m).
Proof. apply fold_left_app. Qed.

Lemma index_points_spec l :
  let m := index_points l [] in
  NoDup (map_keys m) /\ (forall k p, (k, p) ∈ m -> p_bucket p = k /\ p ∈ l)
  /\ (forall p, p ∈ l -> p_bucket p ∈ map_keys m).
Proof.
  induction l as [|p l IH] using rev_ind; [simpl; split_and!; [constructor|set_solver..]|].
  rewrite index_points_app. simpl in IH |- *. destruct IH as (H1 & H2 & H3).
  set (m := index_points l []) in *. unfold index_points. cbn [fold_left]. split_and!.
  - by apply map_set_NoDup.
  - intros k q Hq. apply elem_of_map_get in Hq; [|by apply map_set_NoDup].
    rewrite map_get_set in Hq. case_decide as Hk; [simplify_eq; set_solver|].
    apply map_get_elem_of in Hq. destruct (H2 _ _ Hq). set_solver.
  - intros q [Hq| ->%list_elem_of_singleton]%elem_of_app; rewrite elem_of_map_set_keys; [right; auto|by left].
Qed.

Lemma index_results p0 (f : point -> bool) results m :
  m = index_points p0 [] ->
  fold_left (fun m r => index_points (List.filter f r.2) m) results m
  = index_points (p0 ++ List.flat_map (fun r : missing_range * list point => List.filter f r.2) results) [].
Proof.
  revert p0 m. induction results as [|r results IH]; intros p0 m ->; cbn [fold_left List.flat_map].
  - by rewrite app_nil_r.
  - rewrite (IH (p0 ++ List.filter f r.2)); [by rewrite app_assoc|by rewrite index_points_app].
Qed.

(** ** Fills *)

Section Fills.
Context {E : Type} (compute : time_range -> result E (list point)).

Definition answers (r : missing_range * list point) : Prop := compute (range r.1) = Ok r.2.

Lemma fill_sequential_ok items results computed :
  fill_sequential compute items = (Ok results, computed) ->
  List.map fst results = items /\ Forall answers results /\ computed = List.map range items.
Proof.
  revert results computed. induction items as [|item rest IH]; intros results computed; cbn [fill_sequential].
  { by intros [= <- <-]. }
  destruct (compute (range item)) as [pts|] eqn:Ec; [|done].
  destruct (fill_sequential compute rest) as [[done_|es] c]; [|done]. intros [= <- <-].
  destruct (IH _ _ eq_refl) as (H1 & H2 & H3). simpl. rewrite H1, H3. split_and!; try done.
  by constructor.
Qed.

Lemma fill_concurrent_ok items results :
  fill_concurrent compute items = Ok results -> List.map fst results = items /\ Forall answers results.
Proof.
  revert results. induction items as [|item rest IH]; intros results; cbn [fill_concurrent].
  { by intros [= <-]. }
  destruct (compute (range item)) as [pts|] eqn:Ec, (fill_concurrent compute rest) as [done_|es]; try done.
  intros [= <-]. destruct (IH _ eq_refl) as (H1 & H2). simpl. rewrite H1. split; [done|by constructor].
Qed.

Lemma fill_ok concurrency items results computed :
  fill concurrency compute items = (Ok results, computed) ->
  List.map fst results = items /\ Forall answers results /\ computed = List.map range items.
Proof.
  unfold fill. case_match; [apply fill_sequential_ok|]. intros [= Hr <-].
  apply fill_concurrent_ok in Hr as [H1 H2]. done.
Qed.

Lemma fill_total concurrency items :
  (forall r, exists pts, compute r = Ok pts) ->
  exists results, fill concurrency compute items = (Ok results, List.map range items).
Proof.
  intros Hc. unfold fill. case_match.
  - induction items as [|item rest [results IH]]; cbn [fill_sequential]; [by eexists|].
    destruct (Hc (range item)) as [pts ->]. rewrite IH. by eexists.
  - enough (exists results, fill_concurrent compute items = Ok results) as [results ->] by (by eexists).
    induction items as [|item rest [results IH]]; cbn [fill_concurrent]; [by eexists|].
    destruct (Hc (range item)) as [pts ->]. rewrite IH. by eexists.
Qed.
End Fills.

(** ** Write-back *)

Lemma map_of_elem {A} (l : list (Z * A)) k v : map_get k (map_of l) = Some v -> exists k', (k', v) ∈ l.
Proof.
  unfold map_of. intros H. enough (Hg : forall m, (forall k v, map_get k m = Some v -> exists k', (k', v) ∈ l) ->
    forall l', (forall e, e ∈ l' -> e ∈ l) -> forall k v,
    map_get k (fold_left (fun m e => map_set e.1 e.2 m) l' m) = Some v -> exists k', (k', v) ∈ l).
  { by eapply (Hg []); [|intros e He; exact He|exact H]. }
  clear. intros m Hm l'. revert m Hm. induction l' as [|[k1 v1] l' IH]; intros m Hm Hl k v; simpl; [apply Hm|].
  apply IH; [|set_solver]. intros k2 v2. rewrite map_get_set. case_decide; [|apply Hm].
  intros [= <-]. exists k1. apply Hl. set_solver.
Qed.

Lemma merged_buckets_elem reads start fresh b :
  b ∈ merged_buckets reads start fresh -> b ∈ fresh \/ exists r, r ∈ reads /\ b ∈ sr_buckets r.
Proof.
  unfold merged_buckets. set (m := map_of (List.map (fun r => (sr_segmentStartMs r, sr_buckets r)) reads)).
  assert (Hm : b ∈ mergeAndDeduplicateBuckets (default [] (map_get start m)) fresh ->
    b ∈ fresh \/ exists r, r ∈ reads /\ b ∈ sr_buckets r).
  { intros [Hb|Hb]%merge_elem; [right|by left].
    destruct (map_get start m) as [bs|] eqn:Em; simpl in Hb; [|set_solver].
    apply map_of_elem in Em as [k Hk]. apply list_elem_of_In, List.in_map_iff in Hk as (r & [= <- <-] & Hr).
    exists r. by rewrite list_elem_of_In. }
  assert (Hf : b ∈ js_sort (fun a b => b_start a - b_start b) fresh ->
    b ∈ fresh \/ exists r, r ∈ reads /\ b ∈ sr_buckets r) by (rewrite elem_of_js_sort; by left).
  destruct (default seg_miss _); auto.
Qed.

Lemma group_segments_elem segmentMs fresh k bs b :
  (k, bs) ∈ group_segments segmentMs fresh -> b ∈ bs -> b ∈ fresh.
Proof.
  unfold group_segments. revert k bs. induction fresh as [|x fresh IH] using rev_ind; intros k bs; [set_solver|].
  rewrite fold_left_app. cbn [fold_left]. set (m := fold_left _ fresh []) in *.
  assert (Hset : forall v, (b ∈ v -> b ∈ fresh ++ [x]) -> forall start,
    (k, bs) ∈ map_set start v m -> b ∈ bs -> b ∈ fresh ++ [x]).
  { intros v Hv start Hin Hb. clear -IH Hv Hin Hb. clearbody m.
    induction m as [|[k' v'] m IHm]; simpl in Hin; [set_solver|]. case_decide; [set_solver|].
    apply elem_of_cons in Hin as [[= -> ->]|Hin]; [set_solver|]. apply IHm; [|done].
    intros k1 bs1 H1. apply (IH k1 bs1). set_solver. }
  cbv zeta. destruct (map_get _ m) as [grouped|] eqn:Eg.
  - intros Hin. revert Hin. apply (Hset (grouped ++ [x])). apply map_get_elem_of in Eg. set_solver.
  - intros Hin. revert Hin. apply (Hset [x]). set_solver.
Qed.

(** ** Segments *)

Section Segments.
Context {S : Type} `{!CacheBackend js S, !CacheBackendLaws js S}.
Context (date_parse : string -> option Z) (truth : list point).
Context (cf : cache_config) (rq : request) (fingerprint : string) (w : weather).

(** A bucket holds exactly the true points of its window. *)
Definition faithful (b : cached_bucket) : Prop :=
  forall p, p ∈ b_points b <->
    p ∈ truth /\ exists ms, at_ms date_parse p ms /\ b_start b <= ms < b_end b.

(** Every segment held for this fingerprint and width that the guard would let
    through holds true buckets. *)
Definition faithful_cache (sv : service S) : Prop :=
  forall k v ex, be_holds (sv_backend sv) k v ->
    ex_fingerprint ex = fingerprint -> ex_bucketSeconds ex = rq_bucketSeconds rq ->
    isBucketCacheSegmentData v ex = true -> Forall faithful (buckets_of v).

(** What a segment read may bring: whole, true buckets. *)
Definition good_read (r : segment_read) : Prop :=
  Forall (whole (bucket_ms rq)) (sr_buckets r) /\ Forall faithful (sr_buckets r).

Lemma readBackend_holds (st : S) bucket key now fate r st' :
  readBackend st bucket key now fate = (r, st') ->
  (forall k v, be_holds st' k v -> be_holds st k v)
  /\ (forall v timedOut, r = Ok (Some v, timedOut) -> be_holds st (be_key bucket key) v).
Proof.
  unfold readBackend. destruct (be_get st bucket key now) as [value st1] eqn:Eg.
  assert (forall k v, be_holds st1 k v -> be_holds st k v) by (intros; by eapply be_get_keeps).
  destruct fate; intros [= <- <-]; (split; [done|]); intros v t; try done.
  intros [= -> <-]. by eapply be_get_holds.
Qed.

Lemma read_segment_good sv start r sv' :
  0 < rq_bucketSeconds rq -> faithful_cache sv ->
  read_segment cf rq fingerprint w sv start = (r, sv') ->
  good_read r /\ faithful_cache sv' /\ sr_segmentStartMs r = start.
Proof.
  intros Hb Hf. unfold read_segment, rawGetDetailed.
  assert (Hempty : forall st, good_read {| sr_segmentStartMs := start; sr_status := st; sr_buckets := [] |})
    by (split; constructor).
  destruct (shouldSkipRead _ _ _); [by intros [= <- <-]|].
  destruct (readBackend _ _ _ _ _) as [read st] eqn:Er.
  apply readBackend_holds in Er as [Hk Hv].
  assert (Hf' : forall br, faithful_cache {| sv_backend := st; sv_breaker := br |}).
  { intros br k v ex Hh. eapply Hf. by apply Hk. }
  destruct read as [[value timedOut]|]; [|by intros [= <- <-]].
  destruct timedOut, value as [data|]; try (by intros [= <- <-]).
  destruct (isBucketCacheSegmentData _ _) eqn:Eg; [|by intros [= <- <-]].
  intros [= <- <-]. split_and!; [|done|done]. split; simpl.
  - apply (guard_whole _ _) in Eg; [exact Eg|]. simpl. unfold bucket_ms. lia.
  - eapply Hf; [by eapply Hv| | |exact Eg]; done.
Qed.

Lemma read_segments_good sv starts reads sv' :
  0 < rq_bucketSeconds rq -> faithful_cache sv ->
  read_segments cf rq fingerprint w sv starts = (reads, sv') ->
  Forall good_read reads /\ faithful_cache sv'.
Proof.
  intros Hb. revert sv reads. induction starts as [|start rest IH]; intros sv reads Hf; cbn [read_segments].
  { intros [= <- <-]. split; [constructor|done]. }
  destruct (read_segment _ _ _ _ _ _) as [r sv1] eqn:Er.
  apply read_segment_good in Er as (Hr & Hf1 & _); [|done|done].
  destruct (read_segments _ _ _ _ sv1 rest) as [rs sv2] eqn:Es. intros [= <- <-].
  destruct (IH _ _ Hf1 Es). split; [by constructor|done].
Qed.

Lemma write_segments_faithful reads entries sv :
  faithful_cache sv -> Forall good_read reads ->
  (forall k bs b, (k, bs) ∈ entries -> b ∈ bs -> faithful b) ->
  faithful_cache (fold_left (write_segment cf rq fingerprint w reads) entries sv).
Proof.
  intros Hf Hr. revert sv Hf. induction entries as [|[k bs] entries IH]; intros sv Hf He; [done|].
  cbn [fold_left]. apply IH; [|set_solver]. unfold write_segment, rawPut.
  destruct (w_write_fails _ _); [done|]. simpl. intros k' v ex Hh Hfp Hbs Hg.
  apply be_put_holds in Hh as [[_ ->]|Hh]; [|by eapply Hf].
  rewrite buckets_of_segment. simpl. rewrite Forall_forall. intros b [Hb|(r & Hin & Hb)]%merged_buckets_elem.
  - eapply (He k bs); [set_solver|done].
  - rewrite Forall_forall in Hr. destruct (Hr r Hin) as [_ Hfa]. rewrite Forall_forall in Hfa. auto.
Qed.
End Segments.

(** ** Transparency *)

Section Transparency.
Context {S : Type} `{!CacheBackend js S, !CacheBackendLaws js S} {E : Type}.
Context (date_parse : string -> option Z) (truth : list point).
Context (rq : request) (Hb : 0 < rq_bucketSeconds rq) (Hs : 0 <= rq_startMs rq).
Context (Hkeys : NoDup (List.map p_bucket truth)).

(** What the cache asks of the range function: it answers every range, with
    true points only, and with all those whose instant is in the range. *)
Definition serves (compute : time_range -> result E (list point)) : Prop :=
  forall r, exists pts, compute r = Ok pts /\ (forall p, p ∈ pts -> p ∈ truth)
    /\ (forall p ms, p ∈ truth -> at_ms date_parse p ms -> inside r ms -> p ∈ pts).

Definition true_result (r : missing_range * list point) : Prop :=
  (forall p, p ∈ r.2 -> p ∈ truth)
  /\ (forall p ms, p ∈ truth -> at_ms date_parse p ms -> inside (range r.1) ms -> p ∈ r.2).

Lemma answers_true compute r : serves compute -> answers compute r -> true_result r.
Proof.
  intros Hc Ha. destruct (Hc (range r.1)) as (pts & Hp & H1 & H2). unfold answers in Ha.
  rewrite Hp in Ha. simplify_eq. by split.
Qed.

(** A bucket written back holds the true points of its window. *)
Lemma covered_faithful r flux b :
  true_result r -> b ∈ pointsToCoveredBuckets date_parse r.2 (range r.1) (bucket_ms rq) flux ->
  faithful date_parse truth b.
Proof.
  intros [H1 H2] Hin. assert (Hbm : 0 < bucket_ms rq) by (unfold bucket_ms; lia).
  apply (covered_buckets_spec date_parse _ Hbm) in Hin as ([Hd He] & Hst & Hlim & _ & Hpts).
  intros p. rewrite Hpts, He, (group_points_spec date_parse (bucket_ms rq) Hbm).
  assert (Hwin : forall ms, ms / bucket_ms rq * bucket_ms rq = b_start b <-> b_start b <= ms < b_start b + bucket_ms rq).
  { intros ms. pose proof (Z.div_mod ms (bucket_ms rq) ltac:(lia)).
    pose proof (Z.mod_pos_bound ms (bucket_ms rq) ltac:(lia)). split; [lia|]. intros Hms.
    destruct Hd as [u Hu]. rewrite Hu in *. rewrite (Z.div_unique ms (bucket_ms rq) u (ms - u * bucket_ms rq)); lia. }
  setoid_rewrite Hwin. split.
  - intros [Hp (ms & Hms & Hr)]. split; [auto|eauto].
  - intros [Hp (ms & Hms & Hr)]. split; [|eauto]. eapply H2; [done|exact Hms|]. unfold inside. lia.
Qed.

Lemma in_request_spec p :
  in_request date_parse rq p = true <-> exists ms, at_ms date_parse p ms /\ rq_startMs rq <= ms < rq_endMs rq.
Proof.
  unfold in_request, at_ms. destruct (parseWarehouseDateTime _ _) as [ms|].
  - rewrite andb_true_iff, Z.leb_le, Z.ltb_lt. naive_solver.
  - naive_solver.
Qed.

(** The answer, when cached buckets are true and the fills take in whatever
    they do not hold. *)
Lemma response_points_exact existing results :
  StronglySorted (fun a b => b_start a - b_start b <= 0) existing ->
  Forall (faithful date_parse truth) existing -> Forall true_result results ->
  (forall t, rq_startMs rq <= t < rq_endMs rq ->
     cached_at existing t \/ exists r, r ∈ results /\ inside (range r.1) t) ->
  Permutation (response_points date_parse rq existing results) (List.filter (in_request date_parse rq) truth)
  /\ StronglySorted (fun a b => string_compare (p_bucket a) (p_bucket b) <= 0)
       (response_points date_parse rq existing results).
Proof.
  intros Hsort Hf Hr Hcov. unfold response_points. split; [|apply js_sort_sorted, _].
  rewrite js_sort_perm. erewrite index_results by reflexivity.
  set (all := _ ++ _). destruct (index_points_spec all) as (Hnd & Hval & Hkey).
  set (m := index_points all []) in *. rewrite Forall_forall in Hf. rewrite Forall_forall in Hr.
  assert (Hall : forall p, p ∈ all <-> p ∈ List.filter (in_request date_parse rq) truth).
  { intros p. unfold all. rewrite elem_of_app, !list_elem_of_In, List.filter_In, List.in_flat_map, <- !list_elem_of_In.
    rewrite slice_points_spec, in_request_spec; [|done|].
    2:{ rewrite Forall_forall. intros b Hbin q ms Hq Hms. apply (Hf b Hbin) in Hq as (_ & ms' & Hms' & ?).
        unfold at_ms in *. by simplify_eq. }
    split.
    - intros [[(b & Hbin & Hp) Hin]|(r & Hrin & Hp)].
      + split; [by apply (Hf b Hbin)|done].
      + rewrite <- list_elem_of_In in Hrin. apply List.filter_In in Hp as [Hp Hin].
        rewrite <- list_elem_of_In in Hp. apply in_request_spec in Hin. split; [by eapply Hr|done].
    - intros [Hp (ms & Hms & Hin)]. destruct (Hcov ms Hin) as [(b & Hbin & Hbt)|(r & Hrin & Hrt)].
      + left. split; [exists b; split; [done|]; apply (Hf b Hbin)|]; eauto.
      + right. exists r. rewrite <- list_elem_of_In. split; [done|]. apply List.filter_In.
        rewrite <- list_elem_of_In, in_request_spec. split; [by eapply Hr|eauto]. }
  assert (Hmap : List.map p_bucket (map_values m) = map_keys m).
  { unfold map_values, map_keys. rewrite List.map_map. apply List.map_ext_in. intros [k p] Hin.
    rewrite <- list_elem_of_In in Hin. simpl. by destruct (Hval k p Hin). }
  apply NoDup_Permutation.
  - rewrite <- Hmap in Hnd. apply NoDup_ListNoDup in Hnd. by eapply List.NoDup_map_inv.
  - apply List.NoDup_filter. apply NoDup_ListNoDup in Hkeys. by eapply List.NoDup_map_inv.
  - intros p. rewrite <- !list_elem_of_In, <- Hall. split.
    + intros (e & <- & He)%list_elem_of_In%List.in_map_iff. rewrite <- list_elem_of_In in He.
      destruct e as [k q]. by destruct (Hval k q He).
    + intros Hp. pose proof (Hkey p Hp) as Hk. rewrite <- Hmap in Hk.
      apply list_elem_of_In, List.in_map_iff in Hk as (q & Hqk & Hq). rewrite <- list_elem_of_In in Hq.
      assert (q ∈ all) as Hqa.
      { apply list_elem_of_In, List.in_map_iff in Hq as ([k q'] & <- & He).
        rewrite <- list_elem_of_In in He. by destruct (Hval k q' He). }
      apply Hall, list_elem_of_In, List.filter_In in Hqa as [Hqt _].
      apply Hall, list_elem_of_In, List.filter_In in Hp as [Hpt _].
      enough (q = p) as -> by done. clear -Hkeys Hqt Hpt Hqk.
      induction truth as [|x l IH]; [done|]. simpl in *. apply NoDup_cons in Hkeys as [Hx Hl].
      destruct Hqt as [->|Hqt], Hpt as [->|Hpt]; [done| | |by apply IH]; exfalso; apply Hx;
        rewrite list_elem_of_In, List.in_map_iff; eauto.
Qed.
End Transparency.

(** ** The service *)

Section Requests.
Context {S : Type} `{!CacheBackend js S, !CacheBackendLaws js S} {E : Type}.
Context (date_parse : string -> option Z) (cf : cache_config) (rq : request) (fingerprint : string).

Lemma missing_filled existing results t bucketMs flux :
  0 < bucketMs -> 0 <= rq_startMs rq -> Forall (whole bucketMs) existing ->
  List.map fst results =
    coalesceMissingRanges (findMissingRanges existing (rq_startMs rq) (rq_endMs rq) bucketMs flux) ->
  rq_startMs rq <= t < rq_endMs rq ->
  (forall t, rq_startMs rq <= t < rq_endMs rq ->
     missing_at (findMissingRanges existing (rq_startMs rq) (rq_endMs rq) bucketMs flux) t
     \/ cached_at existing t) ->
  cached_at existing t \/ exists r : missing_range * list point, r ∈ results /\ inside (range r.1) t.
Proof.
  intros Hb Hs Hw Hres Ht Hmc. destruct (Hmc t Ht) as [(m & Hm & Hin)|Hc]; [right|by left].
  destruct (coalesce_spec (findMissingRanges existing (rq_startMs rq) (rq_endMs rq) bucketMs flux)) as [Hcov _].
  destruct (Hcov m Hm) as (f & Hf & _ & Hl & Hr). rewrite <- Hres in Hf.
  apply list_elem_of_In, List.in_map_iff in Hf as (r & <- & Hr'). exists r.
  split; [by apply list_elem_of_In|]. unfold inside in *. lia.
Qed.

Lemma fill_ranges_inside existing bucketMs flux f :
  in_order (rq_startMs rq) (Z.max (rq_startMs rq) (rq_endMs rq))
    (findMissingRanges existing (rq_startMs rq) (rq_endMs rq) bucketMs flux) ->
  f ∈ coalesceMissingRanges (findMissingRanges existing (rq_startMs rq) (rq_endMs rq) bucketMs flux) ->
  rq_startMs rq <= startMs (range f) /\ endMs (range f) <= rq_endMs rq.
Proof.
  intros [Ho _] Hf. rewrite Forall_forall in Ho.
  destruct (coalesce_spec (findMissingRanges existing (rq_startMs rq) (rq_endMs rq) bucketMs flux)) as [_ Hof].
  destruct (Hof f Hf) as [(m & Hm & _ & ->) (m' & Hm' & _ & ->)].
  pose proof (Ho m Hm). pose proof (Ho m' Hm'). simpl in *. lia.
Qed.

Lemma missing_or_cached existing bucketMs flux :
  0 < bucketMs -> 0 <= rq_startMs rq -> Forall (whole bucketMs) existing ->
  forall t, rq_startMs rq <= t < rq_endMs rq ->
    missing_at (findMissingRanges existing (rq_startMs rq) (rq_endMs rq) bucketMs flux) t
    \/ cached_at existing t.
Proof.
  intros Hb Hs Hw t Ht.
  destruct (missing_ranges_exact_cover existing (rq_startMs rq) (rq_endMs rq) bucketMs flux Hb Hs Hw) as (_ & _ & H).
  destruct (decide (Exists (fun b => b_start b <= t < b_end b) existing)) as [He|He].
  - right. rewrite Exists_exists in He. exact He.
  - left. apply H; [done|]. left. intros (b & Hbin & Hbt). apply He. rewrite Exists_exists. eauto.
Qed.

(** C1: the cache never shows. For a range function that answers with the true
    points of its range, over an edge cache whose segments hold true buckets,
    and whatever the reads and writes meet (misses, deadlines, skips, errors,
    values the guard refuses), a request is answered with exactly the true
    points of its window, in the order of their buckets; it computes at most two
    ranges, all inside the window; and what the cache holds stays true. *)
Theorem cache_transparent (truth : list point) (compute : time_range -> result E (list point))
    prepare (w : weather) (sv : service S) :
  0 < rq_bucketSeconds rq -> 0 <= rq_startMs rq -> NoDup (List.map p_bucket truth) ->
  serves date_parse truth compute -> faithful_cache date_parse truth rq fingerprint sv ->
  let rn := getOrComputeBuckets date_parse cf rq fingerprint compute prepare w sv in
  (exists o, rn_result rn = Ok o
     /\ Permutation (oc_points o) (List.filter (in_request date_parse rq) truth)
     /\ StronglySorted (fun a b => string_compare (p_bucket a) (p_bucket b) <= 0) (oc_points o))
  /\ faithful_cache date_parse truth rq fingerprint (rn_service rn)
  /\ (length (rn_computed rn) <= 2)%nat
  /\ Forall (fun r => rq_startMs rq <= startMs r /\ endMs r <= rq_endMs rq) (rn_computed rn).
Proof.
  intros Hb Hs Hkeys Hserve Hf. assert (Hbm : 0 < bucket_ms rq) by (unfold bucket_ms; lia).
  unfold getOrComputeBuckets. destruct (read_segments _ _ _ _ _ _) as [reads sv1] eqn:Er.
  apply (read_segments_good date_parse truth) in Er as [Hreads Hf1]; [|done|done].
  set (existing := js_sort _ _). set (flux := w_now w - _).
  assert (Hex : Forall (whole (bucket_ms rq)) existing /\ Forall (faithful date_parse truth) existing).
  { unfold existing. rewrite !(js_sort_perm _ (List.flat_map sr_buckets reads)).
    clear -Hreads. induction Hreads as [|r reads [H1 H2] _ [IH1 IH2]]; simpl; [done|].
    split; apply Forall_app; done. }
  destruct Hex as [Hw Hfa].
  assert (Hsort : StronglySorted (fun a b => b_start a - b_start b <= 0) existing) by apply js_sort_sorted, _.
  pose proof (missing_or_cached existing _ flux Hbm Hs Hw) as Hmc.
  pose proof (missing_ranges_exact_cover existing (rq_startMs rq) (rq_endMs rq) _ flux Hbm Hs Hw) as (Hord & _ & _).
  destruct (fill_total compute (cf_fillConcurrency cf)
    (coalesceMissingRanges (findMissingRanges existing (rq_startMs rq) (rq_endMs rq) (bucket_ms rq) flux)))
    as [results Hfill].
  { intros r. destruct (Hserve r) as (pts & ? & _). by exists pts. }
  rewrite Hfill. apply fill_ok in Hfill as (Hitems & Hans & _).
  assert (Htrue : Forall (true_result date_parse truth) results).
  { eapply Forall_impl; [exact Hans|]. intros r. by apply answers_true. }
  simpl. split_and!.
  - eexists. split; [done|]. simpl. apply response_points_exact; try done.
    intros t Ht. by eapply missing_filled.
  - apply write_segments_faithful; [done|done|]. intros k bs b Hk Hbin.
    eapply group_segments_elem in Hbin; [|exact Hk].
    apply list_elem_of_In, List.in_flat_map in Hbin as (r & Hr & Hbr). rewrite <- list_elem_of_In in Hr. rewrite <- list_elem_of_In in Hbr.
    destruct (cachable r.1); [|by apply not_elem_of_nil in Hbr].
    rewrite Forall_forall in Htrue. by eapply covered_faithful; [|apply Htrue|].
  - rewrite List.length_map. apply coalesce_length.
  - rewrite Forall_forall. intros r (f & <- & Hfin)%list_elem_of_In%List.in_map_iff.
    apply list_elem_of_In in Hfin. by eapply fill_ranges_inside.
Qed.
End Requests.

(** ** Failing fills *)

Section Failures.
Context {S : Type} `{!CacheBackend js S, !CacheBackendLaws js S} {E : Type}.

Lemma fill_sequential_err (compute : time_range -> result E (list point)) items es computed :
  fill_sequential compute items = (Err es, computed) ->
  es <> [] /\ forall e, e ∈ es -> exists r, r ∈ computed /\ compute r = Err e.
Proof.
  revert computed. induction items as [|item rest IH]; intros computed; cbn [fill_sequential]; [done|].
  destruct (compute (range item)) as [pts|e] eqn:Ec.
  - destruct (fill_sequential compute rest) as [[done_|es'] c]; [done|]. intros [= -> <-].
    destruct (IH _ eq_refl) as [H1 H2]. split; [done|]. intros e He. destruct (H2 e He) as (r & Hr & Hc).
    exists r. split; [by right|done].
  - intros [= <- <-]. split; [done|]. intros e' ->%list_elem_of_singleton. exists (range item). split; [by left|done].
Qed.

Lemma fill_concurrent_err (compute : time_range -> result E (list point)) items es :
  fill_concurrent compute items = Err es ->
  es <> [] /\ forall e, e ∈ es -> exists r, r ∈ List.map range items /\ compute r = Err e.
Proof.
  revert es. induction items as [|item rest IH]; intros es; cbn [fill_concurrent]; [done|].
  assert (Hlift : forall e, (exists r, r ∈ List.map range rest /\ compute r = Err e) ->
    exists r, r ∈ List.map range (item :: rest) /\ compute r = Err e).
  { intros e (r & Hr & Hc). exists r. split; [by right|done]. }
  assert (Hhead : forall e, compute (range item) = Err e ->
    exists r, r ∈ List.map range (item :: rest) /\ compute r = Err e).
  { intros e He. exists (range item). split; [by left|done]. }
  destruct (compute (range item)) as [pts|e0] eqn:Ec, (fill_concurrent compute rest) as [done_|es'] eqn:Ef;
    try done; intros [= <-].
  - destruct (IH _ eq_refl) as [H1 H2]. split; [done|]. intros e He. auto.
  - split; [done|]. intros e ->%list_elem_of_singleton. by apply Hhead.
  - destruct (IH _ eq_refl) as [H1 H2]. split; [done|]. intros e [->|He]%elem_of_cons; [by apply Hhead|auto].
Qed.

Lemma fill_err concurrency (compute : time_range -> result E (list point)) items es computed :
  fill concurrency compute items = (Err es, computed) ->
  es <> [] /\ forall e, e ∈ es -> exists r, r ∈ computed /\ compute r = Err e.
Proof.
  unfold fill. case_match; [apply fill_sequential_err|]. intros [= Hf <-]. by apply fill_concurrent_err.
Qed.

Lemma read_segments_keep cf rq fingerprint w (sv : service S) starts reads sv' :
  read_segments cf rq fingerprint w sv starts = (reads, sv') ->
  forall k v, be_holds (sv_backend sv') k v -> be_holds (sv_backend sv) k v.
Proof.
  revert sv reads. induction starts as [|start rest IH]; intros sv reads; cbn [read_segments]; [by intros [= _ ->]|].
  destruct (read_segment _ _ _ _ sv start) as [r sv1] eqn:Er.
  destruct (read_segments _ _ _ _ sv1 rest) as [rs sv2] eqn:Es. intros [= _ <-] k v Hh.
  eapply (IH _ _ Es) in Hh. clear Es IH. revert Er Hh. unfold read_segment, rawGetDetailed.
  destruct (shouldSkipRead _ _ _); [by intros [= _ <-]|].
  destruct (readBackend _ _ _ _ _) as [read st] eqn:Er. apply readBackend_holds in Er as [Hk _].
  destruct read as [[value timedOut]|]; intros [= _ <-]; apply Hk.
Qed.

(** C39: a request whose warehouse fails reports failures of ranges it computed
    and leaves the shared cache with nothing it did not hold before. *)
Theorem failed_fill_writes_nothing date_parse cf rq fingerprint (compute : time_range -> result E (list point))
    prepare (w : weather) (sv : service S) es :
  let rn := getOrComputeBuckets date_parse cf rq fingerprint compute prepare w sv in
  rn_result rn = Err es ->
  es <> [] /\ (forall e, e ∈ es -> exists r, r ∈ rn_computed rn /\ compute r = Err e)
  /\ forall k v, be_holds (sv_backend (rn_service rn)) k v -> be_holds (sv_backend sv) k v.
Proof.
  unfold getOrComputeBuckets. destruct (read_segments _ _ _ _ _ _) as [reads sv1] eqn:Er.
  destruct (fill _ _ _) as [[results|es'] computed] eqn:Ef; [done|]. simpl. intros [= ->].
  apply fill_err in Ef as [H1 H2]. split_and!; [done|done|]. by eapply read_segments_keep.
Qed.
End Failures.

(** ** The executor's range function *)

Definition floorToBucketMs (epochMs bucketSeconds : Z) : Z :=
  let bucketMs := bucketSeconds * 1000 in epochMs / bucketMs * bucketMs.

Definition buildBucketTimeline (start stop bucketSeconds : Z) : list string :=
  let bucketMs := bucketSeconds * 1000 in
  let firstBucketMs := floorToBucketMs start bucketSeconds in
  let lastBucketMs := floorToBucketMs stop bucketSeconds in
  List.map toISOString
    (count_up (Z.to_nat ((lastBucketMs - firstBucketMs) / bucketMs + 1)) firstBucketMs lastBucketMs bucketMs).

(** A decoded row: its bucket is an instant. *)
Record row := { row_bucket : Z; row_groupName : string; row_value : Z }.

(** [groupTimeSeriesRows] with a fill: every bucket of the timeline, with the
    series its rows gave or none. *)
Definition groupTimeSeriesRows (rows : list row) (start stop bucketSeconds : Z) : list point :=
  let bucketOrder := buildBucketTimeline start stop bucketSeconds in
  let bucketMap :=
    fold_left (fun (m : jsmap string (list (string * js))) r =>
      let bucket := toISOString (row_bucket r) in
      let series := default [] (map_get bucket m) in
      map_set bucket (map_set (row_groupName r) (js_number (Some (row_value r))) series) m) rows [] in
  List.map (fun bucket =>
    {| p_bucket := bucket; p_series := js_object (default [] (map_get bucket bucketMap)) |}) bucketOrder.

(** [toEpochMs(msToTinybirdDateTime(ms))]: whole seconds. *)
Definition whole_seconds (ms : Z) : Z := ms / 1000 * 1000.

(** The range function [bucketCachedExecute] passes: [rows] is what the
    warehouse answers for a start and an end. *)
Definition computeRange {E} (rows : Z -> Z -> list row) (bucketSeconds : Z) (r : time_range)
    : result E (list point) :=
  let start := whole_seconds (startMs r) in
  let stop := whole_seconds (endMs r) in
  Ok (groupTimeSeriesRows (rows start stop) start stop bucketSeconds).

(** ** Concrete requests *)

(** [Date.parse] on the strings [toISOString] gives. *)
Definition demo_parse (s : string) : option Z := option_map (fun n => n / 1000000) (timestampToEpochNanos s).

Definition demo_config : cache_config :=
  {| cf_ttlSeconds := 86400; cf_fluxSeconds := 60; cf_fillConcurrency := 4; cf_segmentBucketCount := 120 |}.

Definition demo_request (start stop : Z) : request :=
  {| rq_orgId := "org"; rq_bucketSeconds := 60; rq_startMs := start; rq_endMs := stop |}.

Definition demo_weather (now : Z) : weather :=
  {| w_now := now; w_read_fate := fun _ => fate_settles; w_write_fails := fun _ => false |}.

Definition cold_cache : service (memory js) := {| sv_backend := []; sv_breaker := [] |}.

Definition demo_point (ms : Z) : point := {| p_bucket := toISOString ms; p_series := js_object [] |}.

Definition demo_truth : list point := [demo_point 0; demo_point 60000; demo_point 180000].

(** A warehouse that answers with the points whose instant is in the range. *)
Definition window_compute (date_parse : string -> option Z) (truth : list point) (r : time_range)
    : result unit (list point) :=
  Ok (List.filter (fun p => match parseWarehouseDateTime date_parse (p_bucket p) with
                            | Some ms => (startMs r <=? ms) && (ms <? endMs r)
                            | None => false end) truth).

Lemma window_serves date_parse truth : serves date_parse truth (window_compute date_parse truth).
Proof.
  intros r. eexists. split; [done|]. split.
  - intros p Hp%list_elem_of_In%List.filter_In. apply list_elem_of_In, Hp.
  - intros p ms Hp Hms Hin. apply list_elem_of_In, List.filter_In. split; [by apply list_elem_of_In|].
    unfold at_ms in Hms. rewrite Hms. unfold inside in Hin. rewrite andb_true_iff, Z.leb_le, Z.ltb_lt. lia.
Qed.

Lemma demo_keys : NoDup (List.map p_bucket demo_truth).
Proof.
  assert (List.map p_bucket demo_truth =
    ["1970-01-01T00:00:00.000Z"; "1970-01-01T00:01:00.000Z"; "1970-01-01T00:03:00.000Z"]%string) as ->
    by (vm_compute; reflexivity).
  rewrite NoDup_ListNoDup. repeat constructor; simpl; intuition discriminate.
Qed.

Example cache_transparent_witness :
  (exists o, rn_result (getOrComputeBuckets demo_parse demo_config (demo_request 30000 240000) "fp" (window_compute demo_parse demo_truth) true
     (demo_weather 210000) cold_cache) = Ok o
   /\ Permutation (oc_points o) (List.filter (in_request demo_parse (demo_request 30000 240000)) demo_truth)
   /\ StronglySorted (fun a b => string_compare (p_bucket a) (p_bucket b) <= 0) (oc_points o)).
Proof.
  apply (cache_transparent demo_parse demo_config (demo_request 30000 240000) "fp" demo_truth (window_compute demo_parse demo_truth) true
    (demo_weather 210000) cold_cache); [simpl; lia|simpl; lia| |apply window_serves|].
  - apply demo_keys.
  - intros k v ex (e & He & _). discriminate He.
Defined.

Example failed_fill_writes_nothing_witness :
  let compute := fun r : time_range => Err (A := list point) (startMs r) in
  let rn := getOrComputeBuckets demo_parse demo_config (demo_request 0 240000) "fp" compute true
    (demo_weather 180000) cold_cache in
  rn_result rn = Err [0; 120000] /\ rn_prepared rn = true
  /\ forall k v, be_holds (sv_backend (rn_service rn)) k v -> be_holds (sv_backend cold_cache) k v.
Proof.
  split; [vm_compute; reflexivity|]. split; [vm_compute; reflexivity|].
  apply (failed_fill_writes_nothing demo_parse demo_config (demo_request 0 240000) "fp"
    (fun r : time_range => Err (A := list point) (startMs r)) true (demo_weather 180000) cold_cache [0; 120000]).
  vm_compute. reflexivity.
Defined.

(** A warehouse that counts the events of a range by minute; [Timestamp] lies
    between the start and the end, both included. *)
Definition counted_rows (events : list Z) (start stop : Z) : list row :=
  let hits := List.filter (fun t => (start <=? t) && (t <=? stop)) events in
  List.map (fun b =>
      {| row_bucket := b; row_groupName := "all";
         row_value := Z.of_nat (length (List.filter (fun t => floorToBucketMs t 60 =? b) hits)) |})
    (dedupe (List.map (fun t => floorToBucketMs t 60) hits)).

Definition series_at (ms : Z) (points : list point) : option js :=
  map_get (toISOString ms) (List.map (fun p => (p_bucket p, p_series p)) points).

Definition points_of {S E} (rn : run S E) : list point :=
  match rn_result rn with Ok o => oc_points o | Err _ => [] end.

(** The count of a minute, as a series. *)
Definition count_of (n : Z) : js := js_object [("all"%string, js_number (Some n))].

Definition minute_request (events : list Z) (start stop now : Z) (sv : service (memory js)) : run (memory js) unit :=
  getOrComputeBuckets demo_parse demo_config (demo_request start stop) "fp"
    (computeRange (counted_rows events) 60) false (demo_weather now) sv.

Definition executed (events : list Z) (start stop : Z) : list point :=
  match computeRange (E:=unit) (counted_rows events) 60 {| startMs := start; endMs := stop |} with
  | Ok points => points
  | Err _ => []
  end.

(** The executor's ranges end inclusively and the cache's exclusively. The
    executor's timeline has a bucket for the instant the range ends at, so when
    a gap ends where a cached bucket begins, the fill returns that bucket with
    no series and it replaces the cached one: with the second minute cached,
    asking for both minutes shows the second one empty, while the executor
    alone counts its two events. *)
Theorem gap_blanks_next_cached_bucket :
  let events := [10000; 70000; 80000] in
  let warm := minute_request events 60000 120000 1000000 cold_cache in
  let second := minute_request events 0 120000 1000000 (rn_service warm) in
  series_at 60000 (points_of warm) = Some (count_of 2)
  /\ series_at 60000 (executed events 0 120000) = Some (count_of 2)
  /\ series_at 60000 (points_of second) = Some (js_object [])
  /\ series_at 0 (points_of second) = Some (count_of 1).
Proof. split_and!; vm_compute; reflexivity. Qed.

(** The flux boundary need not be aligned. A bucket it falls into is
    computed in two halves, one per fill range, and the later half replaces the
    earlier: of two events a minute apart only by the boundary, the cache shows
    one, where the executor counts both. *)
Theorem flux_boundary_splits_a_bucket :
  let events := [70000; 100000] in
  let run := minute_request events 0 180000 150000 cold_cache in
  rn_computed run = [{| startMs := 0; endMs := 90000 |}; {| startMs := 90000; endMs := 180000 |}]
  /\ series_at 60000 (executed events 0 180000) = Some (count_of 2)
  /\ series_at 60000 (points_of run) = Some (count_of 1).
Proof. split_and!; vm_compute; reflexivity. Qed.
