(* ===== verification/GridLayout.v ===== *)
(** * Dashboard grid layout

    [lib/grid-engine/src/layout.ts]: collision, vertical compaction, and the
    drag, resize and keyboard operations built on it. Grid units are integers.

    The code works on shared mutable items; the model passes them explicitly.
    Compaction visits the sorted items in order and a push only changes items
    after the one being placed, so its state is the list of items still to come;
    a drag mutates items in place, so its state is the list of all working items
    and an item is named by its position. Item identifiers are taken to be
    distinct, which the callers ensure (they are keys). That an unchanged item
    is returned as the same object is not modelled, only its value. *)

From stdpp Require Import prelude list strings sorting.
From Stdlib Require Import ZArith Lia Sorting.Permutation Sorting.Sorted.
From S2P Require Import Prelude.

Open Scope Z_scope.

(** ** Data *)

(** [GridItem]; an absent maximum is [Infinity]. *)
Record grid_item := {
  i : string;
  x : Z; y : Z; w : Z; h : Z;
  minW : option Z; maxW : option Z;
  minH : option Z; maxH : option Z
}.

#[export] Instance grid_item_eq_dec : EqDecision grid_item.
Proof. solve_decision. Defined.

Abbreviation layout := (list grid_item).

Inductive compaction := vertical | none.

Definition at_y (item : grid_item) (y' : Z) : grid_item :=
  {| i := i item; x := x item; y := y'; w := w item; h := h item;
     minW := minW item; maxW := maxW item; minH := minH item; maxH := maxH item |}.

Definition at_x (item : grid_item) (x' : Z) : grid_item :=
  {| i := i item; x := x'; y := y item; w := w item; h := h item;
     minW := minW item; maxW := maxW item; minH := minH item; maxH := maxH item |}.

Definition sized (item : grid_item) (w' h' : Z) : grid_item :=
  {| i := i item; x := x item; y := y item; w := w'; h := h';
     minW := minW item; maxW := maxW item; minH := minH item; maxH := maxH item |}.

(** [WorkItem] *)
Record work := { item_of : grid_item; moved : bool }.

Definition toWork (item : grid_item) : work := {| item_of := item; moved := false |}.

Definition same_box (a b : grid_item) : bool :=
  (x a =? x b) && (y a =? y b) && (w a =? w b) && (h a =? h b).

(** [fromWork]: the working item back, or the original when it is unchanged. *)
Definition fromWork (item : grid_item) (original : option grid_item) : grid_item :=
  match original with
  | Some o => if same_box o item then o else item
  | None => item
  end.

Definition by_id (items : layout) : jsmap string grid_item :=
  map_of (List.map (fun item => (i item, item)) items).

Definition finish (items : list grid_item) (input : layout) : layout :=
  List.map (fun item => fromWork item (map_get (i item) (by_id input))) items.

(** ** Collision *)

Definition collides (a b : grid_item) : bool :=
  negb (bool_decide (i a = i b))
  && negb (x a + w a <=? x b) && negb (x b + w b <=? x a)
  && negb (y a + h a <=? y b) && negb (y b + h b <=? y a).

Definition firstCollision (items : list grid_item) (item : grid_item) : option grid_item :=
  List.find (fun other => collides other item) items.

Definition bottom (items : list grid_item) : Z :=
  fold_left (fun max item => Z.max max (y item + h item)) items 0.

Definition row_col (a b : grid_item) : Z := if y a - y b =? 0 then x a - x b else y a - y b.

(** Pull items wider or further right than the grid back inside it. *)
Definition correct_item (cols : Z) (item : grid_item) : grid_item :=
  let item := if cols <? x item + w item then at_x item (cols - w item) else item in
  if x item <? 0 then sized (at_x item 0) cols (h item) else item.

Definition correctBounds (items : list grid_item) (cols : Z) : list grid_item :=
  List.map (correct_item cols) items.

(** ** Compaction *)

(** [resolveCompactionCollision(sorted, item, moveTo)] on the items after
    [item]: those it would meet one row down are pushed below it, and push the
    ones after them in turn; [n] is how many there are. The caller sets
    [item.y = moveTo]. *)
Fixpoint resolve_after (n : nat) (after : list grid_item) (item : grid_item) (moveTo : Z) : list grid_item :=
  match n, after with
  | S n', other :: rest =>
      if y item + h item <? y other then after
      else if collides item other then
        let rest := resolve_after n' rest (at_y other (y other + 1)) (moveTo + h item) in
        at_y other (moveTo + h item) :: resolve_after n' rest item moveTo
      else other :: resolve_after n' rest item moveTo
  | _, _ => after
  end.

Definition resolveCompactionCollision (after : list grid_item) (item : grid_item) (moveTo : Z)
    : list grid_item * grid_item :=
  (resolve_after (length after) after (at_y item (y item + 1)) moveTo, at_y item moveTo).

(** [while (item.y > 0 && !firstCollision(placed, item)) item.y--], from row
    [n]. *)
Fixpoint float_up (n : nat) (placed : list grid_item) (item : grid_item) : grid_item :=
  match n with
  | O => at_y item 0
  | S n' =>
      let item := at_y item (Z.of_nat n) in
      match firstCollision placed item with
      | Some _ => item
      | None => float_up n' placed item
      end
  end.

(** The loop that pushes an item below what it meets. *)
Fixpoint push_down (fuel : nat) (placed after : list grid_item) (item : grid_item)
    : list grid_item * grid_item :=
  match fuel with
  | O => (after, item)
  | S f =>
      match firstCollision placed item with
      | None => (after, item)
      | Some collision =>
          let '(after, item) := resolveCompactionCollision after item (y collision + h collision) in
          push_down f placed after item
      end
  end.

(** One item placed among those already placed; the items after it may move. *)
Definition place_item (placed after : list grid_item) (maxY : Z) (original : grid_item)
    : list grid_item * grid_item :=
  let item := at_x original (Z.max (x original) 0) in
  let row := Z.min maxY (Z.max (y item) 0) in
  let item := float_up (Z.to_nat row) placed item in
  let '(after, item) := push_down (Z.to_nat (bottom placed - y item) + 1) placed after item in
  (after, at_y item (Z.max (y item) 0)).

(** The sorted items carry their place in the layout, which a push leaves
    alone. *)
Fixpoint compact_loop (n : nat) (sorted : list (nat * grid_item)) (placed : list grid_item) (maxY : Z)
    : list (nat * grid_item) :=
  match n, sorted with
  | S n', (index, original) :: rest =>
      let '(after, item) := place_item placed (List.map snd rest) maxY original in
      (index, item) :: compact_loop n' (combine (List.map fst rest) after) (placed ++ [item])
                         (Z.max maxY (y item + h item))
  | _, _ => []
  end.

(** The placed items back at their places: [out[layout.indexOf(original)] = item]. *)
Definition in_place (placed : list (nat * grid_item)) : list grid_item :=
  List.map snd (js_sort (fun a b => Z.of_nat (fst a) - Z.of_nat (fst b)) placed).

Definition sortByRowCol (items : list (nat * grid_item)) : list (nat * grid_item) :=
  js_sort (fun a b => row_col (snd a) (snd b)) items.

Definition indexed (items : list grid_item) : list (nat * grid_item) := combine (seq 0 (length items)) items.

Definition compactVerticalWork (items : list grid_item) : list grid_item :=
  let sorted := sortByRowCol (indexed items) in
  in_place (compact_loop (length sorted) sorted [] 0).

Definition compactWork (items : list grid_item) (c : compaction) : list grid_item :=
  match c with vertical => compactVerticalWork items | none => items end.

Definition compact (items : layout) (c : compaction) : layout := finish (compactWork items c) items.

Definition normalizeLayout (items : layout) (cols : Z) (c : compaction) : layout :=
  finish (compactWork (correctBounds items cols) c) items.

(** ** Moving *)

Definition box_at (items : list work) (index : nat) : grid_item :=
  match items !! index with Some item => item_of item | None => Build_grid_item EmptyString 0 0 0 0 None None None None end.

Definition is_moved (items : list work) (index : nat) : bool :=
  match items !! index with Some item => moved item | None => true end.

(** The items an item collides with, as [moveElement] visits them: in reading
    order, or nearest first when moving up. *)
Definition collisions (items : list work) (item : grid_item) (up : bool) : list nat :=
  let sorted := sortByRowCol (indexed (List.map item_of items)) in
  let sorted := if up then rev sorted else sorted in
  List.map fst (List.filter (fun e => collides (snd e) item) sorted).

(** [moveElement] and [moveAwayFromCollision], which call each other. [None]
    is a recursion that did not end within [fuel]. When the hop is blocked
    [moveAwayFromCollision] moves the item down one row whether or not the
    blocking item reaches below [collidesWith.y]. *)
Fixpoint moveElement (fuel : nat) (items : list work) (index : nat) (x' y' : option Z) (isUserAction : bool)
    : option (list work) :=
  match fuel with
  | O => None
  | S f =>
      let item := box_at items index in
      if bool_decide (y' = Some (y item)) && bool_decide (x' = Some (x item)) then Some items
      else
        let oldY := y item in
        let item := at_y (at_x item (default (x item) x')) (default oldY y') in
        let items := <[index := {| item_of := item; moved := true |}]> items in
        let up := match y' with Some v => v <=? oldY | None => false end in
        fold_left (fun items other =>
          items ← items;
          if is_moved items other then Some items
          else
            let collidesWith := box_at items index in
            let itemToMove := box_at items other in
            let one_down := moveElement f items other None (Some (y itemToMove + 1)) false in
            if isUserAction then
              let fake := {| i := "-1"; x := x itemToMove; y := Z.max (y collidesWith - h itemToMove) 0;
                             w := w itemToMove; h := h itemToMove;
                             minW := None; maxW := None; minH := None; maxH := None |} in
              match firstCollision (List.map item_of items) fake with
              | None => moveElement f items other None (Some (y fake)) false
              | Some first => one_down
              end
            else one_down)
          (collisions items item up) (Some items)
  end.

Definition clamp (value min max : Z) : Z := Z.max min (Z.min max value).

(** A maximum that may be [Infinity]. *)
Definition clamp_opt (value min : Z) (max : option Z) : Z :=
  match max with Some m => clamp value min m | None => Z.max min value end.

Definition clampPosition (item : grid_item) (x' y' cols : Z) : Z * Z :=
  (clamp x' 0 (Z.max 0 (cols - w item)), Z.max 0 y').

Definition clampSize (item : grid_item) (w' h' cols : Z) : Z * Z :=
  let inGridW := clamp w' 1 (Z.max 1 (cols - x item)) in
  let inGridH := Z.max 1 h' in
  (clamp_opt inGridW (default 1 (minW item)) (maxW item),
   clamp_opt inGridH (default 1 (minH item)) (maxH item)).

Definition sameLayout (a b : layout) : bool :=
  (Z.of_nat (length a) =? Z.of_nat (length b))
  && forallb (fun item => match map_get (i item) (by_id b) with
                          | Some other => same_box other item
                          | None => false
                          end) a.

Definition index_of (items : layout) (id : string) : option nat :=
  fst <$> list_find (fun item => i item = id) items.

Definition moveStep (items : layout) (id : string) (x' y' : Z) : option layout :=
  match index_of items id with
  | None => Some items
  | Some index =>
      moved ← moveElement (length items + 1) (List.map toWork items) index (Some x') (Some y') true;
      Some (finish (compactVerticalWork (List.map item_of moved)) items)
  end.

(** The steps of [moveItem], of which there are at most [n]. *)
Fixpoint move_loop (n : nat) (current : layout) (id : string) (x' y' : Z) : option layout :=
  match n with
  | O => Some current
  | S n' =>
      next ← moveStep current id x' y';
      if sameLayout next current then Some current else move_loop n' next id x' y'
  end.

Definition moveItem (items : layout) (id : string) (x' y' : Z) : option layout :=
  move_loop (length items + 1) items id x' y'.

Definition resizeItem (items : layout) (id : string) (w' h' : Z) : layout :=
  match index_of items id with
  | None => items
  | Some index => finish (compactVerticalWork (alter (fun item => sized item w' h') index items)) items
  end.

(** The steps of [nudgeItem], from [step] on. *)
Fixpoint nudge_loop (n : nat) (step : Z) (items : layout) (item : grid_item) (dx dy cols : Z) : option layout :=
  match n with
  | O => Some items
  | S n' =>
      let target := clampPosition item (x item + dx * step) (y item + dy * step) cols in
      if (target.1 =? x item) && (target.2 =? y item) then Some items
      else
        next ← moveItem items (i item) target.1 target.2;
        if negb (sameLayout next items) then Some next else nudge_loop n' (step + 1) items item dx dy cols
  end.

Definition nudgeItem (items : layout) (id : string) (dx dy cols : Z) : option layout :=
  match List.find (fun item => bool_decide (i item = id)) items with
  | None => Some items
  | Some item =>
      let limit := if dy =? 0 then cols else bottom items + 1 in
      nudge_loop (Z.to_nat limit) 1 items item dx dy cols
  end.

Definition changedItems (previous next : layout) : layout :=
  List.filter (fun item => match map_get (i item) (by_id previous) with
                           | Some before => negb (same_box before item)
                           | None => true
                           end) next.

Definition tile (id : string) (x' y' w' h' : Z) : grid_item :=
  {| i := id; x := x'; y := y'; w := w'; h := h'; minW := None; maxW := None; minH := None; maxH := None |}.

Definition boxes (items : layout) : list (string * (Z * Z * Z * Z)) :=
  List.map (fun item => (i item, (x item, y item, w item, h item))) items.

Example compact_floats :
  boxes (compact [tile "a" 0 4 2 2; tile "b" 0 0 2 1; tile "c" 1 0 2 3] vertical)
  = [("a", (0, 4, 2, 2)); ("b", (0, 0, 2, 1)); ("c", (1, 1, 2, 3))]%string.
Proof. vm_compute. reflexivity. Qed.

Example move_swaps :
  boxes <$> moveItem [tile "a" 0 0 2 2; tile "b" 0 2 2 2] "a" 0 2
  = Some [("a", (0, 2, 2, 2)); ("b", (0, 0, 2, 2))]%string.
Proof. vm_compute. reflexivity. Qed.

(** ** Packed layouts *)

(** The same item at another place. *)
Definition keeps (a b : grid_item) : Prop := b = at_y (at_x a (x b)) (y b).

Definition overlap_x (a b : grid_item) : Prop := x a < x b + w b /\ x b < x a + w a.

(** An item that cannot float up: on row 0, or on top of another. *)
Definition rests (items : list grid_item) (item : grid_item) : Prop :=
  y item = 0
  \/ exists other, other ∈ items /\ i other <> i item /\ y other + h other = y item /\ overlap_x other item.

Definition no_overlap (items : list grid_item) : Prop :=
  forall a b, a ∈ items -> b ∈ items -> collides a b = false.

(** A board's items: distinct identifiers, real sizes. *)
Definition board (items : list grid_item) : Prop :=
  NoDup (List.map i items) /\ Forall (fun item => 0 < w item /\ 0 < h item) items.

(** What compaction promises. *)
Definition packed (items : list grid_item) : Prop :=
  no_overlap items /\ Forall (fun item => 0 <= x item /\ 0 <= y item /\ rests items item) items.

Lemma keeps_refl a : keeps a a.
Proof. by destruct a. Qed.

Lemma keeps_trans a b c : keeps a b -> keeps b c -> keeps a c.
Proof. unfold keeps. destruct a, b, c; unfold at_x, at_y; simpl. intros [=] [=]. subst. done. Qed.

Lemma keeps_at_y a y' : keeps a (at_y a y').
Proof. by destruct a. Qed.

Lemma keeps_at_x a x' : keeps a (at_x a x').
Proof. by destruct a. Qed.

Lemma keeps_fields a b : keeps a b -> i b = i a /\ w b = w a /\ h b = h a.
Proof. intros ->. done. Qed.

#[export] Hint Resolve keeps_refl keeps_at_y keeps_at_x keeps_trans : maple.

(** The same item in another row of its columns. *)
Definition pushed (a b : grid_item) : Prop := b = at_y a (y b).

Lemma pushed_refl a : pushed a a.
Proof. by destruct a. Qed.

Lemma pushed_at_y a y' : pushed a (at_y a y').
Proof. by destruct a. Qed.

Lemma pushed_trans a b c : pushed a b -> pushed b c -> pushed a c.
Proof. unfold pushed. destruct a, b, c; unfold at_y; simpl. intros [=] [=]. subst. done. Qed.

Lemma pushed_keeps a b : pushed a b -> keeps a b /\ x b = x a.
Proof. unfold pushed, keeps. intros ->. by destruct a. Qed.

Lemma all_pushed_refl l : Forall2 pushed l l.
Proof. induction l; constructor; auto using pushed_refl. Qed.

Lemma all_pushed_trans l1 l2 l3 : Forall2 pushed l1 l2 -> Forall2 pushed l2 l3 -> Forall2 pushed l1 l3.
Proof.
  intros H. revert l3. induction H; intros l3 H3; inversion H3; subst; constructor; eauto using pushed_trans.
Qed.

#[export] Hint Resolve pushed_refl pushed_at_y pushed_trans all_pushed_refl all_pushed_trans : maple.

Lemma collides_spec a b :
  collides a b = true <->
  i a <> i b /\ overlap_x a b /\ y a < y b + h b /\ y b < y a + h a.
Proof.
  unfold collides, overlap_x. rewrite !andb_true_iff, !negb_true_iff, bool_decide_eq_false, !Z.leb_gt. tauto.
Qed.

Lemma collides_false a b :
  collides a b = false <->
  ~ (i a <> i b /\ overlap_x a b /\ y a < y b + h b /\ y b < y a + h a).
Proof. rewrite <- collides_spec, not_true_iff_false. done. Qed.

Lemma collides_comm a b : collides a b = collides b a.
Proof. apply eq_true_iff_eq. rewrite !collides_spec. unfold overlap_x. intuition. Qed.

Lemma firstCollision_Some items item c :
  firstCollision items item = Some c -> c ∈ items /\ collides c item = true.
Proof. unfold firstCollision. intros [H1 H2]%List.find_some. by rewrite list_elem_of_In. Qed.

Lemma firstCollision_None items item :
  firstCollision items item = None <-> forall c, c ∈ items -> collides c item = false.
Proof.
  unfold firstCollision. split.
  - intros Hn c Hc. apply (List.find_none _ _ Hn). by apply list_elem_of_In.
  - intros Hn. destruct (List.find _ _) as [c|] eqn:E; [|done]. apply List.find_some in E as [H1 H2].
    rewrite Hn in H2; [done|]. by apply list_elem_of_In.
Qed.

Lemma bottom_ge items item : item ∈ items -> y item + h item <= bottom items.
Proof.
  unfold bottom. assert (Hmono : forall l m, m <= fold_left (fun max item => Z.max max (y item + h item)) l m).
  { induction l as [|a l IH]; intros m; simpl; [lia|]. specialize (IH (Z.max m (y a + h a))). lia. }
  generalize 0. induction items as [|a items IH]; intros m Hin; [set_solver|]. simpl.
  apply elem_of_cons in Hin as [->|Hin]; [|by apply IH].
  specialize (Hmono items (Z.max m (y a + h a))). lia.
Qed.

(** ** Placing one item *)

Lemma resolve_after_pushed n after item moveTo : Forall2 pushed after (resolve_after n after item moveTo).
Proof.
  revert after item moveTo. induction n as [|n IH]; intros after item moveTo; cbn [resolve_after].
  { auto with maple. }
  destruct after as [|other rest]; [constructor|].
  destruct (_ <? _); [auto with maple|]. destruct (collides item other); constructor; eauto with maple.
Qed.

Lemma float_up_at n placed item v : float_up n placed (at_y item v) = float_up n placed item.
Proof. by destruct n. Qed.

Lemma float_up_spec n placed item :
  exists row, 0 <= row <= Z.of_nat n /\ float_up n placed item = at_y item row
    /\ (row = 0 \/ exists c, firstCollision placed (at_y item row) = Some c).
Proof.
  induction n as [|n (row & Hr & He & Hc)]; cbn [float_up].
  - exists 0. split_and!; [lia|lia|done|by left].
  - destruct (firstCollision placed (at_y item (Z.of_nat (S n)))) as [c|] eqn:E.
    + exists (Z.of_nat (S n)). split_and!; [lia|lia|done|right; eauto].
    + exists row. rewrite float_up_at, He. split_and!; [lia|lia|done|done].
Qed.

(** Pushing down ends with the item on top of what it met last, or where it
    was. *)
Lemma push_down_spec fuel placed after item :
  bottom placed - y item + 1 <= Z.of_nat fuel ->
  let '(after', item') := push_down fuel placed after item in
  Forall2 pushed after after' /\ keeps item item' /\ x item' = x item /\ y item <= y item'
  /\ firstCollision placed item' = None
  /\ (item' = item \/ rests placed item').
Proof.
  revert after item. induction fuel as [|f IH]; intros after item Hf; cbn [push_down].
  - split_and!; auto with maple; try lia.
    apply firstCollision_None. intros c Hc. apply collides_false. pose proof (bottom_ge placed c Hc). lia.
  - destruct (firstCollision placed item) as [c|] eqn:E.
    2:{ split_and!; auto with maple; lia. }
    destruct (firstCollision_Some _ _ _ E) as [Hc Hcol]. apply collides_spec in Hcol as (Hid & Hx & Hy1 & Hy2).
    unfold resolveCompactionCollision. set (moveTo := y c + h c) in *.
    set (after1 := resolve_after _ _ _ _). specialize (IH after1 (at_y item moveTo)). simpl in IH.
    pose proof (bottom_ge placed c Hc). specialize (IH ltac:(lia)).
    destruct (push_down f placed after1 (at_y item moveTo)) as [after' item'].
    destruct IH as (H1 & H2 & H3 & H4 & H5 & H6). split_and!; try done; try lia.
    + eapply all_pushed_trans; [apply resolve_after_pushed|exact H1].
    + right. destruct H6 as [->|H6]; [|done]. right. exists c. split_and!; try done.
Qed.

(** Where an item is placed: it meets nothing placed before and rests. *)
Lemma place_item_spec placed after maxY original :
  0 <= maxY ->
  let '(after', item) := place_item placed after maxY original in
  Forall2 pushed after after' /\ keeps original item /\ x item = Z.max (x original) 0 /\ 0 <= y item
  /\ firstCollision placed item = None /\ rests placed item.
Proof.
  intros Hm. unfold place_item. set (item0 := at_x original (Z.max (x original) 0)).
  set (row := Z.min maxY (Z.max (y item0) 0)).
  destruct (float_up_spec (Z.to_nat row) placed item0) as (r & Hr & He & Hc). rewrite He.
  pose proof (push_down_spec (Z.to_nat (bottom placed - y (at_y item0 r)) + 1) placed after (at_y item0 r)) as Hp.
  simpl in Hp |- *. specialize (Hp ltac:(lia)).
  destruct (push_down _ placed after (at_y item0 r)) as [after' item].
  destruct Hp as (H1 & H2 & H3 & H4 & H5 & H6).
  assert (Hy : at_y item (Z.max (y item) 0) = item).
  { rewrite Z.max_l by lia. by destruct item. }
  rewrite Hy. split_and!; try done; try lia.
  destruct H6 as [->|H6]; [|done]. left. simpl. destruct Hc as [->|[c Hc]]; [done|congruence].
Qed.

(** ** The loop *)

Lemma rests_app l1 l2 item : rests l1 item -> rests (l1 ++ l2) item.
Proof. intros [?|(o & Ho & ?)]; [by left|right]. exists o. split; [set_solver|done]. Qed.

Lemma rests_mono l1 l2 item : l1 ⊆ l2 -> rests l1 item -> rests l2 item.
Proof. intros Hs [?|(o & Ho & ?)]; [by left|right]. exists o. split; [by apply Hs|done]. Qed.

(** What [item] becomes when it is placed. *)
Definition placed_as (original item : grid_item) : Prop :=
  keeps original item /\ x item = Z.max (x original) 0.

Lemma compact_loop_spec n sorted placed maxY :
  length sorted = n -> 0 <= maxY ->
  packed placed -> (forall a, a ∈ placed -> i a ∉ List.map (fun e => i e.2) sorted) ->
  NoDup (List.map (fun e => i e.2) sorted) ->
  let out := compact_loop n sorted placed maxY in
  packed (placed ++ List.map snd out)
  /\ Forall2 (fun e e' => e.1 = e'.1 /\ placed_as e.2 e'.2) sorted out.
Proof.
  revert sorted placed maxY. induction n as [|n IH]; intros sorted placed maxY Hn Hm Hp Hdis Hnd.
  { destruct sorted; [|done]. simpl. rewrite app_nil_r. split; [done|constructor]. }
  destruct sorted as [|[index original] rest]; [done|]. cbn [compact_loop]. simpl in Hn.
  pose proof (place_item_spec placed (List.map snd rest) maxY original Hm) as Hpl.
  destruct (place_item _ _ _ _) as [after item] eqn:Epl.
  destruct Hpl as (Hk & Hko & Hx & Hy & Hnone & Hrest).
  assert (Hrest' : Forall2 (fun e e' => e.1 = e'.1 /\ pushed e.2 e'.2) rest (combine (List.map fst rest) after)).
  { clear -Hk. revert after Hk. induction rest as [|[k r] rest IH]; intros after Hk; inversion Hk; subst; simpl;
      constructor; auto. }
  assert (Hids : List.map (fun e : nat * grid_item => i e.2) (combine (List.map fst rest) after)
    = List.map (fun e => i e.2) rest).
  { clear -Hrest'. induction Hrest' as [|[] [] ? ? [_ Hk]]; simpl; [done|]. f_equal; [|done].
    simpl in Hk. by rewrite Hk. }
  simpl in Hnd, Hdis. apply NoDup_cons in Hnd as [Hfresh Hnd]. destruct (keeps_fields _ _ Hko) as (Hi & Hw & Hh).
  assert (Hcol : forall a, a ∈ placed -> collides a item = false) by (by apply firstCollision_None).
  specialize (IH (combine (List.map fst rest) after) (placed ++ [item]) (Z.max maxY (y item + h item))).
  destruct IH as [IH1 IH2].
  - rewrite <- (Forall2_length _ _ _ Hrest'). lia.
  - lia.
  - destruct Hp as [Hno Hall]. split.
    + intros a b. rewrite !elem_of_app, !list_elem_of_singleton. intros [Ha| ->] [Hb| ->]; auto.
      * rewrite collides_comm. auto.
      * apply collides_false. tauto.
    + apply Forall_app. split; [|constructor; [|constructor]].
      * eapply Forall_impl; [exact Hall|]. simpl. intros a (? & ? & ?). split_and!; [done|done|]. by apply rests_app.
      * split_and!; [rewrite Hx; lia|done|]. by apply rests_app.
  - rewrite Hids. intros a. rewrite elem_of_app, list_elem_of_singleton. intros [Ha| ->].
    + specialize (Hdis a Ha). set_solver.
    + by rewrite Hi.
  - by rewrite Hids.
  - simpl. rewrite <- app_assoc in IH1. split; [exact IH1|]. constructor; [by split|].
    clear -IH2 Hrest'. revert IH2. generalize (compact_loop n (combine (List.map fst rest) after) (placed ++ [item])
      (Z.max maxY (y item + h item))). intros out IH2.
    revert out IH2. induction Hrest' as [|e e1 l l1 [He Hk] _ IHl]; intros out IH2;
      inversion IH2 as [|? e2 ? out2 [He2 [Hk2 Hx2]]]; subst; constructor; [|by apply IHl].
    apply pushed_keeps in Hk as [Hk Hxk]. split; [congruence|]. split; [by eapply keeps_trans|congruence].
Qed.

(** ** Back in place *)

Lemma elem_of_indexed (items : list grid_item) k a : (k, a) ∈ indexed items <-> items !! k = Some a.
Proof.
  unfold indexed. assert (H : forall s, (k, a) ∈ combine (seq s (length items)) items <->
    (s <= k)%nat /\ items !! (k - s)%nat = Some a).
  { induction items as [|b items IH]; intros s; simpl.
    - split; [set_solver|]. by intros [_ ?].
    - rewrite elem_of_cons, IH. split.
      + intros [[= -> ->]|[Hle Hl]]; [split; [lia|]; by rewrite Nat.sub_diag|].
        split; [lia|]. by replace (k - s)%nat with (S (k - S s)) by lia.
      + intros [Hle Hl]. destruct (decide (k = s)) as [->|]; [left; rewrite Nat.sub_diag in Hl; by simplify_eq/=|].
        right. split; [lia|]. by replace (k - s)%nat with (S (k - S s)) in Hl by lia. }
  rewrite H, Nat.sub_0_r. split; [by intros [_ ?]|split; [lia|done]].
Qed.

Lemma map_combine {A B} (l : list A) (l' : list B) :
  length l = length l' -> List.map fst (combine l l') = l /\ List.map snd (combine l l') = l'.
Proof.
  revert l'. induction l as [|a l IH]; intros [|b l']; try done. intros [= Hl]. simpl.
  destruct (IH l' Hl) as [-> ->]. done.
Qed.

Lemma map_fst_indexed items : List.map fst (indexed items) = seq 0 (length items).
Proof. apply map_combine. by rewrite List.length_seq. Qed.

Lemma map_snd_indexed items : List.map snd (indexed items) = items.
Proof. apply map_combine. by rewrite List.length_seq. Qed.

Lemma sorted_indices (l : list (nat * grid_item)) n :
  Permutation (List.map fst l) (seq 0 n) ->
  List.map fst (js_sort (fun a b => Z.of_nat (fst a) - Z.of_nat (fst b)) l) = seq 0 n.
Proof.
  intros Hp. apply (StronglySorted_unique le).
  - assert (Hs : StronglySorted (fun a b => Z.of_nat (fst a) - Z.of_nat (fst b) <= 0)
      (js_sort (fun a b => Z.of_nat (fst a) - Z.of_nat (fst b)) l))
      by (apply js_sort_sorted, (key_comparator (fun a => Z.of_nat (fst a)))).
    induction Hs as [|a l' Hs IH Ha]; simpl; constructor; [done|].
    apply Forall_forall. intros k (b & <- & Hb)%list_elem_of_In%List.in_map_iff.
    rewrite Forall_forall in Ha. specialize (Ha b ltac:(by apply list_elem_of_In)). simpl in Ha. lia.
  - clear. generalize 0%nat. induction n as [|n IH]; intros s; simpl; constructor; [done|].
    apply Forall_forall. intros k. rewrite elem_of_seq. lia.
  - rewrite <- Hp. apply Permutation_map, js_sort_perm.
Qed.

Lemma in_place_spec (R : grid_item -> grid_item -> Prop) items (l : list (nat * grid_item)) :
  Permutation (List.map fst l) (seq 0 (length items)) ->
  (forall k a, (k, a) ∈ l -> exists b, items !! k = Some b /\ R b a) ->
  Forall2 R items (in_place l) /\ Permutation (in_place l) (List.map snd l).
Proof.
  intros Hp HR. split; [|apply Permutation_map, js_sort_perm].
  pose proof (sorted_indices l (length items) Hp) as Hidx. unfold in_place.
  set (s := js_sort _ l) in *. assert (Hlen : length items = length s).
  { rewrite <- (List.length_map fst s), Hidx. by rewrite List.length_seq. }
  apply Forall2_same_length_lookup. split; [by rewrite List.length_map|].
  intros k a b Ha Hb. rewrite list_lookup_fmap in Hb.
  destruct (s !! k) as [[k' b']|] eqn:Es; [|done]. simpl in Hb. simplify_eq.
  assert (Hk : List.map fst s !! k = Some k').
  { change (List.map fst s) with (fst <$> s). by rewrite list_lookup_fmap, Es. }
  rewrite Hidx in Hk. apply lookup_seq in Hk as [-> _]. simpl in *.
  destruct (HR k b) as (a' & Ha' & Hr).
  { apply (elem_of_js_sort (fun a b => Z.of_nat (fst a) - Z.of_nat (fst b))).
    apply list_elem_of_lookup. by exists k. }
  by simplify_eq.
Qed.

Lemma packed_perm l l' : Permutation l l' -> packed l -> packed l'.
Proof.
  intros Hp [Hno Hall]. split.
  - intros a b. rewrite <- Hp. apply Hno.
  - rewrite <- Hp. eapply Forall_impl; [exact Hall|]. simpl. intros a (? & ? & Hr). split_and!; [done|done|].
    eapply rests_mono; [|exact Hr]. intros b. by rewrite Hp.
Qed.

Lemma sorted_ids items :
  NoDup (List.map i items) -> NoDup (List.map (fun e => i e.2) (sortByRowCol (indexed items))).
Proof.
  intros Hnd. unfold sortByRowCol. rewrite (js_sort_perm _ (indexed items)).
  by rewrite <- (List.map_map snd i), map_snd_indexed.
Qed.

Lemma compactVerticalWork_spec items :
  board items ->
  Forall2 placed_as items (compactVerticalWork items) /\ packed (compactVerticalWork items).
Proof.
  intros [Hnd _]. unfold compactVerticalWork. set (sorted := sortByRowCol (indexed items)).
  destruct (compact_loop_spec (length sorted) sorted [] 0) as [Hpk Hf]; try done.
  - split; [intros a b Ha; by apply not_elem_of_nil in Ha|constructor].
  - intros a Ha. by apply not_elem_of_nil in Ha.
  - by apply sorted_ids.
  - simpl in Hpk. set (out := compact_loop _ _ _ _) in *.
    assert (Hfst : List.map fst out = List.map fst sorted).
    { clear -Hf. induction Hf as [|? ? ? ? [H _]]; simpl; [done|]. by f_equal. }
    destruct (in_place_spec placed_as items out) as [H1 H2].
    + rewrite Hfst, <- map_fst_indexed. apply Permutation_map, js_sort_perm.
    + intros k a Hka. assert (exists b, (k, b) ∈ sorted /\ placed_as b a) as (b & Hb & Hpa).
      { clear -Hf Hka. induction Hf as [|[k1 b1] [k2 a2] ? ? [H1 H2] _ IH]; [set_solver|].
        simpl in *. apply elem_of_cons in Hka as [[= -> ->]|Hka].
        - subst. exists b1. split; [left|done].
        - destruct (IH Hka) as (b & ? & ?). exists b. split; [by right|done]. }
      exists b. split; [|done]. apply elem_of_indexed. unfold sorted, sortByRowCol in Hb.
      by rewrite elem_of_js_sort in Hb.
    + split; [done|]. eapply packed_perm; [symmetry; exact H2|done].
Qed.

(** ** Finishing *)

Lemma map_get_by_id items k a :
  NoDup (List.map i items) -> items !! k = Some a -> map_get (i a) (by_id items) = Some a.
Proof.
  intros Hnd Hk. unfold by_id, map_of.
  enough (H : forall m, map_get (i a) (fold_left (fun m e => map_set e.1 e.2 m)
     (List.map (fun item => (i item, item)) items) m) = Some a) by apply H.
  revert k Hk. induction items as [|b items IH]; intros k Hk m; [done|].
  simpl in Hnd. apply NoDup_cons in Hnd as [Hb Hnd]. destruct k as [|k]; simpl in *.
  - simplify_eq. assert (Hother : forall l m', i a ∉ List.map i l -> map_get (i a) (fold_left
      (fun m e => map_set e.1 e.2 m) (List.map (fun item => (i item, item)) l) m') = map_get (i a) m').
    { induction l as [|c l IHl]; intros m' Hni; simpl; [done|].
      rewrite IHl by set_solver. apply map_get_set_ne. set_solver. }
    rewrite Hother by done. apply map_get_set_eq.
  - by eapply IH.
Qed.

Lemma same_box_keeps a b : keeps a b -> same_box a b = true -> a = b.
Proof.
  unfold same_box. intros Hk H. bool_to_prop. rewrite Hk. destruct a; unfold at_y, at_x; simpl in *. congruence.
Qed.

(** An item is handed back as the original only when it is equal to it. *)
Lemma finish_spec input items :
  NoDup (List.map i input) ->
  Forall2 (fun a b => i b = i a /\ (same_box a b = true -> a = b)) input items -> finish items input = items.
Proof.
  intros Hnd Hf. unfold finish. rewrite <- (List.map_id items) at 2. apply List.map_ext_in. intros b Hb%list_elem_of_In.
  apply list_elem_of_lookup in Hb as [k Hk].
  destruct (Forall2_lookup_r _ _ _ _ _ Hf Hk) as (a & Ha & Hi & Hs).
  rewrite Hi, (map_get_by_id input k a Hnd Ha). unfold fromWork. destruct (same_box a b); [|done]. by rewrite Hs.
Qed.

(** ** Packed boards are left alone *)

#[export] Instance row_col_comparator : Comparator (fun a b : nat * grid_item => row_col (snd a) (snd b)).
Proof.
  split; intros [? a] [? b].
  - simpl. unfold row_col. case_tests; lia.
  - intros [? c]. simpl. unfold row_col. case_tests; lia.
Qed.

Lemma row_col_rows a b : row_col a b <= 0 -> y a <= y b.
Proof. unfold row_col. case_tests; lia. Qed.

Lemma resolve_after_clear n after item moveTo :
  (forall b, b ∈ after -> collides item b = false) -> resolve_after n after item moveTo = after.
Proof.
  revert after. induction n as [|n IH]; intros after Hc; [done|]. cbn [resolve_after].
  destruct after as [|b rest]; [done|]. destruct (_ <? _); [done|].
  rewrite Hc by set_solver. f_equal. apply IH. set_solver.
Qed.

Lemma at_y_same a : at_y a (y a) = a.
Proof. by destruct a. Qed.

Lemma at_y_at a v v' : at_y (at_y a v) v' = at_y a v'.
Proof. done. Qed.

(** Pushing an item that is one row too high brings it back to its row. *)
Lemma push_down_back placed after a fuel :
  (forall b, b ∈ placed -> collides b a = false) -> (forall b, b ∈ after -> collides a b = false) ->
  (exists b, b ∈ placed /\ i b <> i a /\ y b + h b = y a /\ overlap_x b a /\ 0 < h b) -> 0 < h a ->
  (2 <= fuel)%nat ->
  push_down fuel placed after (at_y a (y a - 1)) = (after, a).
Proof.
  intros Hp Ha (b & Hb & Hid & Hon & Hx & Hhb) Hh Hf. destruct fuel as [|[|fuel]]; [lia|lia|].
  cbn [push_down]. destruct (firstCollision placed (at_y a (y a - 1))) as [c|] eqn:E.
  2:{ pose proof (proj1 (firstCollision_None _ _) E b Hb) as Hn. apply collides_false in Hn.
      destruct Hn. split_and!; [done|done| |]; simpl; lia. }
  apply firstCollision_Some in E as [Hc Hcol]. apply collides_spec in Hcol as (Hcid & Hcx & Hc1 & Hc2).
  simpl in *. pose proof (Hp c Hc) as Hn. apply collides_false in Hn.
  assert (Hbot : y c + h c = y a).
  { destruct (Z.eq_dec (y c + h c) (y a)); [done|]. destruct Hn. split_and!; [done|done|lia|lia]. }
  unfold resolveCompactionCollision. cbn [at_y y]. rewrite !at_y_at, Hbot.
  replace (y a - 1 + 1) with (y a) by lia. rewrite at_y_same, resolve_after_clear by done.
  destruct (firstCollision placed a) as [d|] eqn:Ed; [|done].
  apply firstCollision_Some in Ed as [Hd Hdc]. by rewrite Hp in Hdc.
Qed.

Lemma place_item_back placed after maxY a :
  (forall b, b ∈ placed -> collides b a = false) -> (forall b, b ∈ after -> collides a b = false) ->
  Forall (fun b => 0 < h b /\ y b + h b <= maxY) placed -> 0 < h a -> 0 <= x a -> 0 <= y a -> 0 <= maxY ->
  rests placed a -> place_item placed after maxY a = (after, a).
Proof.
  intros Hp Ha Hm Hh Hx Hy Hm0 Hr. unfold place_item.
  replace (at_x a (Z.max (x a) 0)) with a by (rewrite Z.max_l by lia; by destruct a).
  rewrite (Z.max_l (y a)) by lia.
  assert (Hnone : firstCollision placed a = None) by (by apply firstCollision_None).
  destruct (Z.eq_dec (y a) 0) as [H0|H0].
  - assert (Ha0 : at_y a 0 = a) by (rewrite <- (at_y_same a) at 2; by rewrite H0).
    rewrite H0, Z.min_r by lia. change (float_up (Z.to_nat 0) placed a) with (at_y a 0). rewrite Ha0.
    destruct (Z.to_nat (bottom placed - y a) + 1)%nat; cbn [push_down]; rewrite ?Hnone;
      by rewrite Z.max_l, at_y_same by lia.
  - destruct Hr as [?|(b & Hb & Hid & Hon & Hov)]; [done|]. rewrite Forall_forall in Hm.
    destruct (Hm b Hb) as [Hhb Hbm]. rewrite Z.min_r by lia.
    assert (Hfloat : float_up (Z.to_nat (y a)) placed a = at_y a (y a - 1)).
    { destruct (Z.to_nat (y a)) as [|[|n]] eqn:En; [lia| |]; cbn [float_up].
      - replace (Z.of_nat 1) with (y a) by lia. rewrite at_y_same, Hnone. f_equal. lia.
      - replace (Z.of_nat (S (S n))) with (y a) by lia. rewrite at_y_same, Hnone.
        replace (Z.of_nat (S n)) with (y a - 1) by lia.
        destruct (firstCollision placed (at_y a (y a - 1))) as [c|] eqn:E; [done|].
        pose proof (proj1 (firstCollision_None _ _) E b Hb) as Hn. apply collides_false in Hn.
        destruct Hn. split_and!; [done|done| |]; simpl; lia. }
    rewrite Hfloat. pose proof (bottom_ge placed b Hb).
    rewrite push_down_back; try done; [|by exists b|simpl; lia].
    by rewrite Z.max_l, at_y_same by lia.
Qed.

Lemma compact_loop_back items pre suf maxY :
  packed items -> Forall (fun a => 0 < w a /\ 0 < h a) items ->
  Permutation (List.map snd (pre ++ suf)) items ->
  StronglySorted (fun a b => row_col (snd a) (snd b) <= 0) suf ->
  Forall (fun b => y b + h b <= maxY) (List.map snd pre) -> 0 <= maxY ->
  compact_loop (length suf) suf (List.map snd pre) maxY = suf.
Proof.
  intros [Hno Hall] Hsz Hp Hs. revert pre maxY Hp. rewrite Forall_forall in Hall, Hsz.
  induction Hs as [|[k a] suf Hs IH Hlater]; intros pre maxY Hp Hm H0; [done|].
  assert (Hin : forall b, b ∈ List.map snd pre ++ a :: List.map snd suf -> b ∈ items).
  { intros b Hb. rewrite <- Hp, List.map_app. exact Hb. }
  assert (Ha : a ∈ items) by (apply Hin; set_solver). destruct (Hall a Ha) as (Hxa & Hya & Hra).
  destruct (Hsz a Ha) as [Hwa Hha].
  assert (Hrest : rests (List.map snd pre) a).
  { destruct Hra as [?|(b & Hb & Hid & Hon & Hov)]; [by left|right]. exists b. split; [|done].
    rewrite <- Hp, List.map_app, elem_of_app in Hb. destruct Hb as [Hb|Hb]; [done|exfalso].
    simpl in Hb. apply elem_of_cons in Hb as [->|Hb]; [done|].
    pose proof (Hsz b ltac:(apply Hin; set_solver)) as [_ Hhb].
    apply list_elem_of_In, List.in_map_iff in Hb as ([k' b'] & <- & Hb). apply list_elem_of_In in Hb.
    rewrite Forall_forall in Hlater. specialize (Hlater _ Hb). apply row_col_rows in Hlater. simpl in *. lia. }
  cbn [length compact_loop]. rewrite place_item_back; try done.
  - assert (Hcomb : combine (List.map fst suf) (List.map snd suf) = suf).
    { clear. induction suf as [|[] suf IH]; simpl; [done|]. by rewrite IH. }
    rewrite Hcomb. f_equal. specialize (IH (pre ++ [(k, a)]) (Z.max maxY (y a + h a))).
    replace (List.map snd pre ++ [a]) with (List.map snd (pre ++ [(k, a)])) by (by rewrite List.map_app).
    apply IH.
    + by rewrite <- app_assoc.
    + rewrite List.map_app. apply Forall_app. split.
      * eapply Forall_impl; [exact Hm|]. simpl. intros; lia.
      * constructor; [simpl; lia|constructor].
    + lia.
  - intros b Hb. apply Hno; [apply Hin; set_solver|done].
  - intros b Hb. apply Hno; [done|apply Hin; set_solver].
  - apply Forall_forall. intros b Hb. rewrite Forall_forall in Hm. split; [|by apply Hm].
    apply Hsz, Hin. set_solver.
Qed.

Lemma compactVerticalWork_packed items :
  board items -> packed items -> compactVerticalWork items = items.
Proof.
  intros [Hnd Hsz] Hpk. unfold compactVerticalWork. set (sorted := sortByRowCol (indexed items)).
  assert (Hperm : Permutation sorted (indexed items)) by apply js_sort_perm.
  pose proof (compact_loop_back items [] sorted 0 Hpk Hsz) as Hl. simpl in Hl. rewrite Hl.
  - destruct (in_place_spec (fun a b => a = b) items sorted) as [Hf _].
    + by rewrite Hperm, map_fst_indexed.
    + intros k a Hka. rewrite Hperm, elem_of_indexed in Hka. eauto.
    + clear -Hf. induction Hf as [|? ? ? ? -> _ IH]; [done|]. by rewrite <- IH.
  - by rewrite Hperm, map_snd_indexed.
  - by apply js_sort_sorted, row_col_comparator.
  - constructor.
  - lia.
Qed.

(** ** Compaction and normalisation *)

(** The same item at another place, perhaps with another size. *)
Definition tracks (a b : grid_item) : Prop := b = sized (at_y (at_x a (x b)) (y b)) (w b) (h b).

Lemma keeps_tracks a b : keeps a b -> tracks a b.
Proof. unfold keeps, tracks. intros ->. by destruct a. Qed.

Lemma tracks_trans a b c : tracks a b -> tracks b c -> tracks a c.
Proof. unfold tracks. destruct a, b, c; unfold sized, at_x, at_y; simpl. intros [=] [=]. subst. done. Qed.

Lemma all_tracks_trans l1 l2 l3 : Forall2 tracks l1 l2 -> Forall2 tracks l2 l3 -> Forall2 tracks l1 l3.
Proof.
  intros H. revert l3. induction H; intros l3 H3; inversion H3; subst; constructor; eauto using tracks_trans.
Qed.

Lemma finish_tracks input items :
  NoDup (List.map i input) -> Forall2 tracks input items -> finish items input = items.
Proof.
  intros Hnd Hf. apply finish_spec; [done|]. eapply Forall2_impl; [exact Hf|]. intros a b Ht. split; [by rewrite Ht|].
  unfold same_box. intros H. bool_to_prop. rewrite Ht. destruct a; unfold sized, at_y, at_x; simpl in *. congruence.
Qed.

Lemma tracks_ids l l' : Forall2 tracks l l' -> List.map i l' = List.map i l.
Proof. induction 1 as [|a b l l' Hk _ IH]; simpl; [done|]. rewrite IH, Hk. done. Qed.

Lemma keeps_board l l' : board l -> Forall2 keeps l l' -> board l'.
Proof.
  intros [Hnd Hsz] Hf. split.
  - erewrite tracks_ids; [exact Hnd|]. eapply Forall2_impl; [exact Hf|]. apply keeps_tracks.
  - clear Hnd. induction Hf as [|a b l l' Hk _ IH]; [constructor|]. apply Forall_cons in Hsz as [Hs Hsz].
    destruct (keeps_fields _ _ Hk) as (_ & Hw & Hh). constructor; [simpl in *; lia|auto].
Qed.

Lemma placed_as_keeps l l' : Forall2 placed_as l l' -> Forall2 keeps l l'.
Proof. intros H. eapply Forall2_impl; [exact H|]. by intros a b [? _]. Qed.

Lemma all_keeps_trans l1 l2 l3 : Forall2 keeps l1 l2 -> Forall2 keeps l2 l3 -> Forall2 keeps l1 l3.
Proof.
  intros H. revert l3. induction H; intros l3 H3; inversion H3; subst; constructor; eauto with maple.
Qed.

Lemma all_keeps_refl l : Forall2 keeps l l.
Proof. induction l; constructor; auto with maple. Qed.

Lemma all_keeps_tracks l l' : Forall2 keeps l l' -> Forall2 tracks l l'.
Proof. intros H. eapply Forall2_impl; [exact H|]. apply keeps_tracks. Qed.

#[export] Hint Resolve placed_as_keeps all_keeps_trans all_keeps_refl all_keeps_tracks : maple.

Lemma compact_vertical items :
  board items -> compact items vertical = compactVerticalWork items.
Proof.
  intros Hb. unfold compact. simpl. destruct (compactVerticalWork_spec items Hb) as [Hf _].
  apply finish_tracks; [apply Hb|auto with maple].
Qed.

Lemma compact_vertical_back items : board items -> packed items -> compact items vertical = items.
Proof. intros Hb Hp. rewrite compact_vertical by done. by apply compactVerticalWork_packed. Qed.

(** Compaction packs any board. Every item keeps its place in the list,
    its size and, clamped at the left edge, its column; no two items overlap;
    every item is on row 0 or on top of another; and compacting again changes
    nothing, so a layout is a fixed point exactly when it is packed. *)
Theorem compact_packs items :
  board items ->
  let out := compact items vertical in
  Forall2 placed_as items out /\ packed out /\ compact out vertical = out
  /\ (packed items <-> compact items vertical = items).
Proof.
  intros Hb. simpl. rewrite (compact_vertical items) by done.
  destruct (compactVerticalWork_spec items Hb) as [Hf Hp].
  assert (Hb' : board (compactVerticalWork items)) by (eapply keeps_board; [done|auto with maple]).
  split_and!; [done|done|by apply compact_vertical_back|]. split.
  - by apply compactVerticalWork_packed.
  - intros He. by rewrite He in Hp.
Qed.

Definition demo_board : layout := [tile "a" 0 4 2 2; tile "b" 0 0 2 1; tile "c" 1 0 2 3].

Lemma demo_board_ok : board demo_board.
Proof.
  split; [rewrite NoDup_ListNoDup; repeat constructor; simpl; intuition discriminate|].
  repeat constructor; simpl; lia.
Qed.

Example compact_packs_witness :
  packed (compact demo_board vertical) /\ compact demo_board vertical <> demo_board.
Proof. split; [apply (compact_packs demo_board demo_board_ok)|vm_compute; discriminate]. Defined.

Lemma correct_item_spec cols item :
  0 < cols -> 0 < w item -> 0 < h item ->
  let b := correct_item cols item in
  tracks item b /\ 0 <= x b /\ x b + w b <= cols /\ 0 < w b /\ 0 < h b.
Proof.
  intros Hc Hw Hh. unfold correct_item, tracks. destruct item; simpl in *.
  case_tests; simpl in *; unfold sized, at_x, at_y; simpl; split_and!; done || lia.
Qed.

Lemma correct_item_inside cols item : 0 <= x item -> x item + w item <= cols -> correct_item cols item = item.
Proof.
  intros Hx Hw. unfold correct_item. destruct (Z.ltb_spec cols (x item + w item)); [lia|].
  by destruct (Z.ltb_spec (x item) 0); [lia|].
Qed.

Lemma correctBounds_spec items cols :
  0 < cols -> board items ->
  board (correctBounds items cols) /\ Forall2 tracks items (correctBounds items cols)
  /\ Forall (fun b => 0 <= x b /\ x b + w b <= cols) (correctBounds items cols).
Proof.
  intros Hc [Hnd Hsz].
  assert (Hall : Forall2 tracks items (correctBounds items cols)
    /\ Forall (fun b => (0 <= x b /\ x b + w b <= cols) /\ 0 < w b /\ 0 < h b) (correctBounds items cols)).
  { clear Hnd. induction Hsz as [|a l [Hw Hh] _ [IH1 IH2]]; simpl; [split; constructor|].
    destruct (correct_item_spec cols a Hc Hw Hh) as (? & ? & ? & ? & ?). split; constructor; auto. }
  destruct Hall as [Ht Hb]. split_and!; [|done|].
  - split; [by rewrite (tracks_ids _ _ Ht)|]. eapply Forall_impl; [exact Hb|]. simpl. tauto.
  - eapply Forall_impl; [exact Hb|]. simpl. tauto.
Qed.

Lemma inside_drawn items cols l : 0 < cols -> Forall2 tracks items l ->
  board items -> Forall (fun item => 0 <= x item /\ x item + w item <= cols) l -> correctBounds l cols = l.
Proof.
  intros Hc Ht Hb Hin. unfold correctBounds. rewrite <- (List.map_id l) at 2. apply List.map_ext_in. intros a Ha%list_elem_of_In.
  rewrite Forall_forall in Hin. destruct (Hin a Ha). by apply correct_item_inside.
Qed.

(** C37: whatever board was stored (items with identifiers of their own and of
    positive size, on a grid with a column at least), what is drawn lies inside
    the grid, has the same items in the same order, and is what drawing it again
    would give. With vertical compaction it is packed: no two items overlap and
    none can move up. Without compaction every item keeps its row and its height,
    and an item inside the grid stays as it is. *)
Theorem normalize_draws items cols c :
  0 < cols -> board items ->
  let out := normalizeLayout items cols c in
  Forall (fun item => 0 <= x item /\ x item + w item <= cols) out
  /\ List.map i out = List.map i items /\ normalizeLayout out cols c = out
  /\ match c with
     | vertical => packed out
     | none => Forall2 (fun item drawn => y drawn = y item /\ h drawn = h item /\
                          (0 <= x item -> x item + w item <= cols -> drawn = item)) items out
     end.
Proof.
  intros Hc Hb. destruct (correctBounds_spec items cols Hc Hb) as (Hb1 & Ht & Hin). destruct c.
  - destruct (compactVerticalWork_spec (correctBounds items cols) Hb1) as [Hf Hp].
    set (out1 := compactVerticalWork (correctBounds items cols)) in *.
    assert (Htr : Forall2 tracks items out1).
    { assert (Hk : Forall2 tracks (correctBounds items cols) out1) by auto with maple.
      eapply all_tracks_trans; [exact Ht|exact Hk]. }
    assert (Hout : normalizeLayout items cols vertical = out1).
    { unfold normalizeLayout, compactWork. apply finish_tracks; [apply Hb|done]. }
    simpl. rewrite Hout.
    assert (Hin' : Forall (fun item => 0 <= x item /\ x item + w item <= cols) out1).
    { clear -Hf Hin. induction Hf as [|a b l l' [Hk Hx] _ IH]; [constructor|]. apply Forall_cons in Hin as [Ha Hin].
      constructor; [|by apply IH]. apply keeps_fields in Hk as (_ & Hw & _). simpl in *. lia. }
    assert (Hb' : board out1) by (eapply keeps_board; [done|auto with maple]).
    split_and!; [done|by apply tracks_ids| |done].
    unfold normalizeLayout, compactWork. rewrite (inside_drawn items cols out1), compactVerticalWork_packed by done.
    apply finish_tracks; [apply Hb'|]. apply all_keeps_tracks, all_keeps_refl.
  - assert (Hout : normalizeLayout items cols none = correctBounds items cols).
    { unfold normalizeLayout, compactWork. apply finish_tracks; [apply Hb|done]. }
    simpl. rewrite Hout. split_and!; [done|by apply tracks_ids| |].
    + unfold normalizeLayout, compactWork. rewrite (inside_drawn items cols (correctBounds items cols)) by done.
      apply finish_tracks; [apply Hb1|]. apply all_keeps_tracks, all_keeps_refl.
    + destruct Hb as [_ Hsz]. unfold correctBounds. clear -Hc Hsz.
      induction Hsz as [|a l [Hw Hh] _ IH]; cbn [List.map]; constructor; [|done]. split_and!.
      * unfold correct_item. destruct a; simpl. case_tests; done.
      * unfold correct_item. destruct a; simpl. case_tests; done.
      * apply correct_item_inside.
Qed.

Example normalize_draws_witness :
  packed (normalizeLayout demo_board 2 vertical)
  /\ boxes (normalizeLayout demo_board 2 vertical)
     = [("a", (0, 4, 2, 2)); ("b", (0, 0, 2, 1)); ("c", (0, 1, 2, 3))]%string.
Proof.
  split; [|vm_compute; reflexivity].
  apply (normalize_draws demo_board 2 vertical); [lia|apply demo_board_ok].
Defined.

(** ** Edits *)

Definition unmoved (items : list work) : nat := length (List.filter (fun item => negb (moved item)) items).

(** A drag changes where items are and marks more of them as moved. *)
Definition dragged (a b : work) : Prop :=
  keeps (item_of a) (item_of b) /\ (moved a = true -> moved b = true).

Lemma dragged_refl items : Forall2 dragged items items.
Proof. induction items; constructor; [split; auto with maple|done]. Qed.

Lemma dragged_trans l1 l2 l3 : Forall2 dragged l1 l2 -> Forall2 dragged l2 l3 -> Forall2 dragged l1 l3.
Proof.
  intros H. revert l3. induction H as [|a b l1 l2 [Hk Hm] _ IH]; intros l3 H3; inversion H3 as [|? c ? ? [Hk' Hm']]; subst;
    constructor; [|by apply IH]. split; [by eapply keeps_trans|auto].
Qed.

Lemma dragged_unmoved l l' : Forall2 dragged l l' -> (unmoved l' <= unmoved l)%nat.
Proof.
  unfold unmoved. induction 1 as [|a b l l' [_ Hm] _ IH]; [done|]. simpl.
  destruct (moved a), (moved b); simpl; lia || naive_solver.
Qed.

Lemma unmoved_insert items index item :
  is_moved items index = false ->
  S (unmoved (<[index := {| item_of := item; moved := true |}]> items)) = unmoved items.
Proof.
  unfold is_moved, unmoved. revert index. induction items as [|a items IH]; intros [|index]; simpl; try done.
  - by intros ->.
  - intros H. specialize (IH _ H). destruct (moved a); simpl; lia.
Qed.

Lemma insert_dragged items index item :
  keeps (box_at items index) item -> is_moved items index = false ->
  Forall2 dragged items (<[index := {| item_of := item; moved := true |}]> items).
Proof.
  unfold is_moved, box_at. revert index. induction items as [|a items IH]; intros [|index]; simpl; try done.
  - intros Hk _. constructor; [by split|apply dragged_refl].
  - intros Hk Hm. constructor; [split; auto with maple|]. by apply IH.
Qed.

(** Every drag ends: each call marks an item that was not marked, so the calls
    nest no deeper than there are unmarked items. *)
Lemma moveElement_total fuel items index x' y' isUserAction :
  is_moved items index = false -> (unmoved items < fuel)%nat ->
  exists items', moveElement fuel items index x' y' isUserAction = Some items' /\ Forall2 dragged items items'.
Proof.
  revert items index x' y' isUserAction. induction fuel as [|f IH]; intros items index x' y' isUserAction Hm Hf; [lia|].
  cbn [moveElement]. set (item := box_at items index).
  destruct (_ && _); [exists items; split; [done|apply dragged_refl]|].
  set (item1 := at_y (at_x item _) _). set (items1 := <[index := _]> items).
  assert (H1 : Forall2 dragged items items1).
  { apply insert_dragged; [|done]. unfold keeps, item1. reflexivity. }
  assert (Hu : (unmoved items1 < f)%nat).
  { pose proof (unmoved_insert items index item1 Hm). unfold items1 in *. lia. }
  generalize (collisions items1 item1 (match y' with Some v => v <=? y item | None => false end)). intros others.
  assert (Hfold : forall s, Forall2 dragged items1 s -> exists s', fold_left (fun items other =>
      items ← items;
      if is_moved items other then Some items
      else
        let collidesWith := box_at items index in
        let itemToMove := box_at items other in
        let one_down := moveElement f items other None (Some (y itemToMove + 1)) false in
        if isUserAction then
          let fake := {| i := "-1"; x := x itemToMove; y := Z.max (y collidesWith - h itemToMove) 0;
                         w := w itemToMove; h := h itemToMove;
                         minW := None; maxW := None; minH := None; maxH := None |} in
          match firstCollision (List.map item_of items) fake with
          | None => moveElement f items other None (Some (y fake)) false
          | Some first => one_down
          end
        else one_down) others (Some s) = Some s' /\ Forall2 dragged items1 s').
  { induction others as [|other others IHo]; intros s Hs; [by exists s|]. cbn [fold_left].
    change (Some s ≫= ?k) with (k s). cbv beta. destruct (is_moved s other) eqn:Em; [by apply IHo|].
    assert (Hcall : forall yy, exists s', moveElement f s other None (Some yy) false = Some s' /\ Forall2 dragged items1 s').
    { intros yy. destruct (IH s other None (Some yy) false Em) as (s' & Hs' & Hd).
      - apply dragged_unmoved in Hs. lia.
      - exists s'. split; [done|]. by eapply dragged_trans. }
    cbv zeta. set (fake := Build_grid_item _ _ _ _ _ _ _ _ _).
    assert (Hstep : exists s', (if isUserAction
      then match firstCollision (List.map item_of s) fake with
           | None => moveElement f s other None (Some (y fake)) false
           | Some first => moveElement f s other None (Some (y (box_at s other) + 1)) false
           end
      else moveElement f s other None (Some (y (box_at s other) + 1)) false) = Some s' /\ Forall2 dragged items1 s').
    { destruct isUserAction; [destruct (firstCollision _ _)|]; apply Hcall. }
    destruct Hstep as (s' & Hs' & Hd'). rewrite Hs'. by apply IHo. }
  destruct (Hfold items1 (dragged_refl items1)) as (s' & Hs' & Hd). exists s'. split; [exact Hs'|].
  by eapply dragged_trans.
Qed.

Lemma works_fresh items : unmoved (List.map toWork items) = length items.
Proof. unfold unmoved. induction items as [|a items IH]; [done|]. simpl. by rewrite IH. Qed.

Lemma index_of_lookup items id index : index_of items id = Some index -> is_Some (items !! index).
Proof.
  unfold index_of. destruct (list_find _ items) as [[k a]|] eqn:E; [|done]. simpl. intros [= ->].
  apply list_find_Some in E as [E _]. eauto.
Qed.

Lemma moveStep_spec items id x' y' :
  board items -> packed items ->
  exists out, moveStep items id x' y' = Some out /\ packed out /\ Forall2 keeps items out.
Proof.
  intros Hb Hp. unfold moveStep. destruct (index_of items id) as [index|] eqn:Ei.
  2:{ exists items. split_and!; auto with maple. }
  apply index_of_lookup in Ei as [a Ha].
  destruct (moveElement_total (length items + 1) (List.map toWork items) index (Some x') (Some y') true)
    as (moved_ & Hm & Hd).
  - unfold is_moved. change (List.map toWork items) with (toWork <$> items). by rewrite list_lookup_fmap, Ha.
  - rewrite works_fresh. lia.
  - rewrite Hm. change (Some moved_ ≫= ?k) with (k moved_). cbv beta.
    assert (Hk : Forall2 keeps items (List.map item_of moved_)).
    { clear -Hd. remember (List.map toWork items) as ws eqn:E. revert items E.
      induction Hd as [|a b l l' [Hk _] _ IH]; intros [|c items] [=]; simpl; constructor; [by subst|by apply IH]. }
    assert (Hb' : board (List.map item_of moved_)) by by eapply keeps_board.
    destruct (compactVerticalWork_spec _ Hb') as [Hf Hpk].
    assert (Hko : Forall2 keeps items (compactVerticalWork (List.map item_of moved_))).
    { eapply all_keeps_trans; [exact Hk|auto with maple]. }
    exists (compactVerticalWork (List.map item_of moved_)).
    rewrite finish_tracks; [done|apply Hb|auto with maple].
Qed.

Lemma move_loop_spec n items id x' y' :
  board items -> packed items ->
  exists out, move_loop n items id x' y' = Some out /\ packed out /\ Forall2 keeps items out.
Proof.
  revert items. induction n as [|n IH]; intros items Hb Hp; cbn [move_loop].
  { exists items. split_and!; auto with maple. }
  destruct (moveStep_spec items id x' y' Hb Hp) as (next & Hs & Hpn & Hk). rewrite Hs.
  change (Some next ≫= ?k) with (k next). cbv beta. destruct (sameLayout next items).
  { exists items. split_and!; auto with maple. }
  destruct (IH next) as (out & Ho & Hpo & Hko); [by eapply keeps_board|done|].
  exists out. split_and!; [done|done|by eapply all_keeps_trans].
Qed.

Lemma moveItem_spec items id x' y' :
  board items -> packed items ->
  exists out, moveItem items id x' y' = Some out /\ packed out /\ Forall2 keeps items out.
Proof. apply move_loop_spec. Qed.

Lemma nudge_loop_spec n step items item dx dy cols :
  board items -> packed items ->
  exists out, nudge_loop n step items item dx dy cols = Some out /\ packed out /\ Forall2 keeps items out.
Proof.
  intros Hb Hp. revert step. induction n as [|n IH]; intros step; cbn [nudge_loop].
  { exists items. split_and!; auto with maple. }
  destruct (clampPosition _ _ _ _) as [tx ty]. destruct (_ && _).
  { exists items. split_and!; auto with maple. }
  cbn [fst snd]. destruct (moveItem_spec items (i item) tx ty Hb Hp) as (next & Hs & Hpn & Hk). rewrite Hs.
  change (Some next ≫= ?k) with (k next). cbv beta. destruct (negb _); [|apply IH].
  exists next. done.
Qed.

(** On a packed board every drag step, drag and keyboard move comes to an
    end (the pushes of a drag never run away) and leaves a packed board with
    the same items in the same order at their own sizes; a resize to a real
    size leaves a packed board with the same items in the same order. *)
Theorem edits_keep_packed items id :
  board items -> packed items ->
  (forall x' y', exists out, moveItem items id x' y' = Some out /\ packed out /\ Forall2 keeps items out)
  /\ (forall dx dy cols, exists out, nudgeItem items id dx dy cols = Some out /\ packed out /\ Forall2 keeps items out)
  /\ (forall w' h', 0 < w' -> 0 < h' ->
        packed (resizeItem items id w' h') /\ List.map i (resizeItem items id w' h') = List.map i items).
Proof.
  intros Hb Hp. split_and!.
  - intros x' y'. by apply moveItem_spec.
  - intros dx dy cols. unfold nudgeItem. destruct (List.find _ _) as [item|]; [by apply nudge_loop_spec|].
    exists items. split_and!; auto with maple.
  - intros w' h' Hw Hh. unfold resizeItem. destruct (index_of items id) as [index|]; [|done].
    set (items1 := alter _ index items).
    assert (Ht : Forall2 tracks items items1 /\ Forall (fun a => 0 < w a /\ 0 < h a) items1).
    { destruct Hb as [_ Hsz]. unfold items1. clear -Hsz Hw Hh. revert index.
      induction Hsz as [|a l Ha Hl IH]; intros [|index]; simpl; [split; constructor..| |].
      - split; [|by constructor]. constructor; [by destruct a|]. apply all_keeps_tracks, all_keeps_refl.
      - destruct (IH index) as [H1 H2]. split; [|by constructor]. constructor; [|done]. apply keeps_tracks, keeps_refl. }
    destruct Ht as [Ht Hsz1].
    assert (Hb1 : board items1) by (split; [rewrite (tracks_ids _ _ Ht); apply Hb|done]).
    destruct (compactVerticalWork_spec items1 Hb1) as [Hf Hpk].
    assert (Htr : Forall2 tracks items (compactVerticalWork items1)).
    { eapply all_tracks_trans; [exact Ht|]. auto with maple. }
    rewrite finish_tracks; [|apply Hb|done]. split; [done|]. by apply tracks_ids.
Qed.

Definition packed_board : layout := [tile "a" 0 0 2 2; tile "b" 0 2 2 2; tile "c" 2 0 1 1].

Lemma packed_board_ok : board packed_board /\ packed packed_board.
Proof.
  assert (Hb : board packed_board).
  { split; [rewrite NoDup_ListNoDup; repeat constructor; simpl; intuition discriminate|].
    repeat constructor; simpl; lia. }
  split; [done|]. destruct (compactVerticalWork_spec packed_board Hb) as [_ H].
  assert (Hc : compactVerticalWork packed_board = packed_board) by (vm_compute; reflexivity).
  by rewrite Hc in H.
Qed.

Example edits_keep_packed_witness :
  exists out, moveItem packed_board "a" 0 2 = Some out /\ packed out
  /\ Forall2 keeps packed_board out.
Proof.
  destruct (edits_keep_packed packed_board "a" (proj1 packed_board_ok) (proj2 packed_board_ok)) as (H & _ & _).
  apply H.
Defined.
