(* ===== verification/IngestSha256.v ===== *)
(** * SHA-256, HMAC-SHA256 and the encoders of the rule engine

    [packages/ingest-rules/src/sha256.ts]: the hash the ingest rules sample and
    pseudonymise with, written with JavaScript's 32-bit operators on signed
    intermediate values, typed arrays and big-endian views. [Module FIPS] is the
    standard's own description (FIPS 180-4, and RFC 2104 for HMAC): unsigned
    words, sums modulo [2^32], the padding by its congruence, constants derived
    from primes. [hash_refines_standard] says that the code computes it.

    A JavaScript string is here the list of its UTF-16 code units, lone
    surrogates included; bytes are integers from 0 to 255. *)

From Stdlib Require Import ZArith Lia.
From stdpp Require Import prelude list.
From S2P Require Import Prelude.

Open Scope Z_scope.

(** A JavaScript string as its UTF-16 code units. *)
Notation text := (list Z) (only parsing).

Notation bytes := (list Z) (only parsing).

Definition is_byte (b : Z) : Prop := 0 <= b < 256.

(** The table [K]. *)
Definition words_of_row (row : Z) : list Z :=
  List.map (fun i => Z.land (Z.shiftr row (32 * i)) 0xffffffff) [7; 6; 5; 4; 3; 2; 1; 0].

Definition K : list Z := Eval vm_compute in
  List.concat (List.map words_of_row
    [ 0x428a2f98_71374491_b5c0fbcf_e9b5dba5_3956c25b_59f111f1_923f82a4_ab1c5ed5;
      0xd807aa98_12835b01_243185be_550c7dc3_72be5d74_80deb1fe_9bdc06a7_c19bf174;
      0xe49b69c1_efbe4786_0fc19dc6_240ca1cc_2de92c6f_4a7484aa_5cb0a9dc_76f988da;
      0x983e5152_a831c66d_b00327c8_bf597fc7_c6e00bf3_d5a79147_06ca6351_14292967;
      0x27b70a85_2e1b2138_4d2c6dfc_53380d13_650a7354_766a0abb_81c2c92e_92722c85;
      0xa2bfe8a1_a81a664b_c24b8b70_c76c51a3_d192e819_d6990624_f40e3585_106aa070;
      0x19a4c116_1e376c08_2748774c_34b0bcb5_391c0cb3_4ed8aa4a_5b9cca4f_682e6ff3;
      0x748f82ee_78a5636f_84c87814_8cc70208_90befffa_a4506ceb_bef9a3f7_c67178f2 ]).

(** The initial value of the typed array [h]. *)
Definition h_init : list Z :=
  [ 0x6a09e667; 0xbb67ae85; 0x3c6ef372; 0xa54ff53a; 0x510e527f; 0x9b05688c; 0x1f83d9ab; 0x5be0cd19 ].

(** JavaScript's [~x]. *)
Definition js_not (a : Z) : Z := to_int32 (Z.lnot (to_int32 a)).

Definition rotr (x n : Z) : Z := js_or (js_shr x n) (js_shl x (32 - n)).

(** ** Typed arrays and views *)

(** [buffer.set(source, offset)], for a source that fits. *)
Definition typed_set (buffer : bytes) (offset : nat) (source : bytes) : bytes :=
  take offset buffer ++ source ++ drop (offset + length source) buffer.

(** The four bytes [DataView.setUint32] writes. *)
Definition be_bytes (v : Z) : bytes :=
  let u := to_uint32 v in
  [Z.shiftr u 24 mod 256; Z.shiftr u 16 mod 256; Z.shiftr u 8 mod 256; u mod 256].

Definition setUint32 (buffer : bytes) (offset : nat) (v : Z) : bytes :=
  typed_set buffer offset (be_bytes v).

Definition getUint32 (buffer : bytes) (offset : nat) : Z :=
  Z.shiftl (buffer !!! offset) 24 + Z.shiftl (buffer !!! (offset + 1)%nat) 16 +
  Z.shiftl (buffer !!! (offset + 2)%nat) 8 + buffer !!! (offset + 3)%nat.

(** ** The hash *)

(** [padded.length]. *)
Definition padded_length (n : Z) : Z := js_shl (js_sar (n + 9 + 63) 6) 6.

Definition padded (message : bytes) : bytes :=
  let n := length message in
  let bitLength := Z.of_nat n * 8 in
  let total := Z.to_nat (padded_length (Z.of_nat n)) in
  let buffer := replicate total 0 in
  let buffer := typed_set buffer 0 message in
  let buffer := typed_set buffer n [0x80] in
  let buffer := setUint32 buffer (total - 8) (bitLength / 2 ^ 32) in
  setUint32 buffer (total - 4) (to_uint32 bitLength).

(** One step of [for (let i = 0; i < 16; i++)]. *)
Definition load_word (view : bytes) (offset : nat) (w : list Z) (i : nat) : list Z :=
  <[i := to_uint32 (getUint32 view (offset + i * 4))]> w.

(** One step of [for (let i = 16; i < 64; i++)]. *)
Definition extend_word (w : list Z) (i : nat) : list Z :=
  let w15 := w !!! (i - 15)%nat in
  let w2 := w !!! (i - 2)%nat in
  let s0 := js_xor (js_xor (rotr w15 7) (rotr w15 18)) (js_shr w15 3) in
  let s1 := js_xor (js_xor (rotr w2 17) (rotr w2 19)) (js_shr w2 10) in
  <[i := to_uint32 (w !!! (i - 16)%nat + s0 + w !!! (i - 7)%nat + s1)]> w.

(** The eight working variables. *)
Record regs := { ra : Z; rb : Z; rc : Z; rd : Z; re : Z; rf : Z; rg : Z; rh : Z }.

(** One round of the compression loop. *)
Definition round (w : list Z) (r : regs) (i : nat) : regs :=
  let '{| ra := a; rb := b; rc := c; rd := d; re := e; rf := f; rg := g; rh := hh |} := r in
  let t1 :=
    to_uint32 (hh + js_xor (js_xor (rotr e 6) (rotr e 11)) (rotr e 25)
                  + js_xor (js_and e f) (js_and (js_not e) g) + K !!! i + w !!! i) in
  let t2 :=
    to_uint32 (js_xor (js_xor (rotr a 2) (rotr a 13)) (rotr a 22)
                  + js_xor (js_xor (js_and a b) (js_and a c)) (js_and b c)) in
  {| ra := to_uint32 (t1 + t2); rb := a; rc := b; rd := c;
     re := to_uint32 (d + t1); rf := e; rg := f; rh := g |}.

Definition regs_of (h : list Z) : regs :=
  {| ra := h !!! 0%nat; rb := h !!! 1%nat; rc := h !!! 2%nat; rd := h !!! 3%nat;
     re := h !!! 4%nat; rf := h !!! 5%nat; rg := h !!! 6%nat; rh := h !!! 7%nat |}.

Definition regs_list (r : regs) : list Z :=
  let '{| ra := a; rb := b; rc := c; rd := d; re := e; rf := f; rg := g; rh := hh |} := r in
  [a; b; c; d; e; f; g; hh].

(** The body of the block loop: [w] keeps the previous block's words. *)
Definition block_step (view : bytes) (offset : nat) (w h : list Z) : list Z * list Z :=
  let w := foldl (load_word view offset) w (seq 0 16) in
  let w := foldl extend_word w (seq 16 48) in
  let r := foldl (round w) (regs_of h) (seq 0 64) in
  (w, zip_with (fun x y => to_uint32 (x + y)) h (regs_list r)).

Fixpoint block_loop (fuel : nat) (view : bytes) (offset : nat) (w h : list Z) : list Z :=
  match fuel with
  | O => h
  | S fuel' =>
      if (offset <? length view)%nat then
        let '(w', h') := block_step view offset w h in
        block_loop fuel' view (offset + 64) w' h'
      else h
  end.

(** [h.forEach((word, i) => outView.setUint32(i * 4, word))]. *)
Definition digest_bytes (h : list Z) : bytes :=
  foldl (fun out i => setUint32 out (i * 4) (h !!! i)) (replicate 32 0) (seq 0 (length h)).

Definition sha256 (message : bytes) : bytes :=
  let view := padded message in
  digest_bytes (block_loop (length view) view 0 (replicate 64 0) h_init).

Definition hmacSha256 (key message : bytes) : bytes :=
  let block := typed_set (replicate 64 0) 0 (if (64 <? length key)%nat then sha256 key else key) in
  let inner := List.map (fun b => js_xor b 0x36 mod 256) block ++ replicate (length message) 0 in
  let outer := List.map (fun b => js_xor b 0x5c mod 256) block ++ replicate 32 0 in
  sha256 (typed_set outer 64 (sha256 (typed_set inner 64 message))).

(** ** Encoders *)

Definition hex_digit (d : Z) : Z := if d <? 10 then 48 + d else 87 + d.

(** [byte.toString(16).padStart(2, "0")]. *)
Definition hex_byte (b : Z) : text :=
  if b <? 16 then [48; hex_digit b] else [hex_digit (b / 16); hex_digit (b mod 16)].

Definition toHex (bs : bytes) : text := List.concat (List.map hex_byte bs).

Definition is_lead (u : Z) : bool := (0xd800 <=? u) && (u <=? 0xdbff).
Definition is_trail (u : Z) : bool := (0xdc00 <=? u) && (u <=? 0xdfff).

(** The UTF-8 bytes of one code point. *)
Definition utf8_bytes (c : Z) : bytes :=
  if c <? 0x80 then [c]
  else if c <? 0x800 then [0xc0 + c / 64; 0x80 + c mod 64]
  else if c <? 0x10000 then [0xe0 + c / 4096; 0x80 + c / 64 mod 64; 0x80 + c mod 64]
  else [0xf0 + c / 262144; 0x80 + c / 4096 mod 64; 0x80 + c / 64 mod 64; 0x80 + c mod 64].

(** [TextEncoder.encode]: a surrogate without its partner is encoded as U+FFFD. *)
Fixpoint utf8 (t : text) : bytes :=
  match t with
  | [] => []
  | u :: t' =>
      if is_lead u then
        match t' with
        | v :: t'' =>
            if is_trail v then utf8_bytes (0x10000 + (u - 0xd800) * 1024 + (v - 0xdc00)) ++ utf8 t''
            else utf8_bytes 0xfffd ++ utf8 t'
        | [] => utf8_bytes 0xfffd
        end
      else if is_trail u then utf8_bytes 0xfffd ++ utf8 t'
      else utf8_bytes u ++ utf8 t'
  end.

(** ** The standard *)

Module FIPS.

Definition wrap (z : Z) : Z := z mod 2 ^ 32.

Definition ROTR (n x : Z) : Z := Z.lor (Z.shiftr x n) (wrap (Z.shiftl x (32 - n))).
Definition SHR (n x : Z) : Z := Z.shiftr x n.
Definition Ch (x y z : Z) : Z := Z.lxor (Z.land x y) (Z.land (wrap (Z.lnot x)) z).
Definition Maj (x y z : Z) : Z := Z.lxor (Z.lxor (Z.land x y) (Z.land x z)) (Z.land y z).
Definition Sigma0 (x : Z) : Z := Z.lxor (Z.lxor (ROTR 2 x) (ROTR 13 x)) (ROTR 22 x).
Definition Sigma1 (x : Z) : Z := Z.lxor (Z.lxor (ROTR 6 x) (ROTR 11 x)) (ROTR 25 x).
Definition sigma0 (x : Z) : Z := Z.lxor (Z.lxor (ROTR 7 x) (ROTR 18 x)) (SHR 3 x).
Definition sigma1 (x : Z) : Z := Z.lxor (Z.lxor (ROTR 17 x) (ROTR 19 x)) (SHR 10 x).

(** The first 64 primes, and the largest integer whose cube is at most [z]. *)
Definition is_prime (p : Z) : bool :=
  forallb (fun d => negb (p mod d =? 0)) (seqZ 2 (p - 2)).
Definition primes : list Z := List.filter is_prime (seqZ 2 310).

Fixpoint cube_root_bits (n : nat) (root z : Z) : Z :=
  match n with
  | O => root
  | S n' =>
      let more := root + 2 ^ Z.of_nat n' in
      cube_root_bits n' (if more ^ 3 <=? z then more else root) z
  end.

(** The first 32 bits of the fractional parts of the roots of the primes. *)
Definition H0 : list Z := List.map (fun p => wrap (Z.sqrt (p * 2 ^ 64))) (take 8 primes).
Definition K : list Z := List.map (fun p => wrap (cube_root_bits 36 0 (p * 2 ^ 96))) primes.

(** [l + 1 + k = 448 mod 512] in bits is [n + 1 + k = 56 mod 64] in bytes. *)
Definition pad (message : bytes) : bytes :=
  let n := Z.of_nat (length message) in
  message ++ [0x80] ++ replicate (Z.to_nat ((55 - n) mod 64)) 0 ++
  List.map (fun i => 8 * n / 256 ^ i mod 256) [7; 6; 5; 4; 3; 2; 1; 0].

Fixpoint words (l : bytes) : list Z :=
  match l with
  | a :: b :: c :: d :: l' => a * 2 ^ 24 + b * 2 ^ 16 + c * 2 ^ 8 + d :: words l'
  | _ => []
  end.

(** The next word of the message schedule [W]. *)
Definition next (W : list Z) : Z :=
  let t := length W in
  wrap (sigma1 (W !!! (t - 2)%nat) + W !!! (t - 7)%nat + sigma0 (W !!! (t - 15)%nat) + W !!! (t - 16)%nat).

Fixpoint schedule (n : nat) (M : list Z) : list Z :=
  match n with O => M | S n' => schedule n' M ++ [next (schedule n' M)] end.

Definition step (r : regs) (kw : Z * Z) : regs :=
  let T1 := wrap (rh r + Sigma1 (re r) + Ch (re r) (rf r) (rg r) + kw.1 + kw.2) in
  let T2 := wrap (Sigma0 (ra r) + Maj (ra r) (rb r) (rc r)) in
  {| ra := wrap (T1 + T2); rb := ra r; rc := rb r; rd := rc r;
     re := wrap (rd r + T1); rf := re r; rg := rf r; rh := rg r |}.

Definition compress (H : list Z) (block : bytes) : list Z :=
  let r := foldl step (regs_of H) (zip K (schedule 48 (words block))) in
  zip_with (fun x y => wrap (x + y)) H (regs_list r).

Fixpoint blocks (n : nat) (l : bytes) : list bytes :=
  match n with O => [] | S n' => take 64 l :: blocks n' (drop 64 l) end.

Definition hash (message : bytes) : bytes :=
  let m := pad message in
  List.concat (List.map (fun x => List.map (fun i => x / 256 ^ i mod 256) [3; 2; 1; 0])
                        (foldl compress H0 (blocks (length m / 64) m))).

(** RFC 2104. *)
Definition hmac (key message : bytes) : bytes :=
  let k := if (64 <? length key)%nat then hash key else key in
  let k := k ++ replicate (64 - length k) 0 in
  hash (List.map (fun b => Z.lxor b 0x5c) k ++ hash (List.map (fun b => Z.lxor b 0x36) k ++ message)).

End FIPS.

(** ** Words *)

Definition word (x : Z) : Prop := 0 <= x < 2 ^ 32.

Lemma to_uint32_land z : to_uint32 z = Z.land z (Z.ones 32).
Proof. unfold to_uint32. rewrite Z.land_ones by lia. reflexivity. Qed.

Ltac bitwise :=
  rewrite ?to_uint32_land; apply Z.bits_inj; intros i;
  rewrite ?Z.land_spec, ?Z.lor_spec, ?Z.lxor_spec, ?Z.land_spec;
  repeat match goal with |- context [Z.testbit ?x i] => destruct (Z.testbit x i) end; reflexivity.

Lemma u32_lor a b : to_uint32 (Z.lor a b) = Z.lor (to_uint32 a) (to_uint32 b).
Proof. bitwise. Qed.
Lemma u32_land a b : to_uint32 (Z.land a b) = Z.land (to_uint32 a) (to_uint32 b).
Proof. bitwise. Qed.
Lemma u32_lxor a b : to_uint32 (Z.lxor a b) = Z.lxor (to_uint32 a) (to_uint32 b).
Proof. bitwise. Qed.

Lemma u32_int32 z : to_uint32 (to_int32 z) = to_uint32 z.
Proof. unfold to_uint32, to_int32. Z.to_euclidean_division_equations. lia. Qed.

Lemma u32_u32 z : to_uint32 (to_uint32 z) = to_uint32 z.
Proof. apply to_uint32_small, to_uint32_range. Qed.

Lemma u32_word x : word x -> to_uint32 x = x.
Proof. apply to_uint32_small. Qed.

Lemma word_u32 z : word (to_uint32 z).
Proof. apply to_uint32_range. Qed.

Lemma u32_js_or a b : to_uint32 (js_or a b) = Z.lor (to_uint32 a) (to_uint32 b).
Proof. unfold js_or. rewrite u32_int32, u32_lor, !u32_int32. reflexivity. Qed.
Lemma u32_js_and a b : to_uint32 (js_and a b) = Z.land (to_uint32 a) (to_uint32 b).
Proof. unfold js_and. rewrite u32_int32, u32_land, !u32_int32. reflexivity. Qed.
Lemma u32_js_xor a b : to_uint32 (js_xor a b) = Z.lxor (to_uint32 a) (to_uint32 b).
Proof. unfold js_xor. rewrite u32_int32, u32_lxor, !u32_int32. reflexivity. Qed.

Lemma u32_js_not a : to_uint32 (js_not a) = to_uint32 (Z.lnot (to_uint32 a)).
Proof.
  unfold js_not. rewrite u32_int32. unfold Z.lnot, to_uint32, to_int32.
  Z.to_euclidean_division_equations. lia.
Qed.

Lemma u32_shiftr x n : word x -> 0 <= n -> to_uint32 (Z.shiftr x n) = Z.shiftr x n.
Proof.
  intros Hx Hn. apply to_uint32_small. rewrite Z.shiftr_div_pow2 by lia. unfold word in Hx.
  split; [apply Z.div_pos; lia|].
  apply Z.le_lt_trans with x; [apply Z.div_le_upper_bound; nia|lia].
Qed.

Lemma u32_js_shr a n : 0 <= n < 32 -> to_uint32 (js_shr a n) = Z.shiftr (to_uint32 a) n.
Proof.
  intros Hn. unfold js_shr. rewrite Z.mod_small by lia.
  apply u32_shiftr; [apply word_u32|lia].
Qed.

Lemma u32_js_shl a n :
  0 <= n < 32 -> to_uint32 (js_shl a n) = to_uint32 (Z.shiftl (to_uint32 a) n).
Proof.
  intros Hn. unfold js_shl. rewrite u32_int32, (Z.mod_small n) by lia.
  rewrite !Z.shiftl_mul_pow2 by lia. rewrite <- (u32_int32 a) at 1.
  unfold to_uint32. rewrite Z.mul_mod_idemp_l by lia. reflexivity.
Qed.

Lemma u32_rotr x n : 0 < n < 32 -> to_uint32 (rotr x n) = FIPS.ROTR n (to_uint32 x).
Proof.
  intros Hn. unfold rotr, FIPS.ROTR.
  rewrite u32_js_or, u32_js_shr, u32_js_shl by lia. reflexivity.
Qed.

Lemma u32_ROTR x n : word x -> 0 <= n -> to_uint32 (FIPS.ROTR n x) = FIPS.ROTR n x.
Proof.
  intros Hx Hn. unfold FIPS.ROTR. rewrite u32_lor, u32_shiftr by done.
  fold (to_uint32 (Z.shiftl x (32 - n))). rewrite u32_u32. reflexivity.
Qed.

(** Sums are compared modulo [2^32], summand by summand. *)
Lemma u32_add a a' b b' :
  to_uint32 a = to_uint32 a' -> to_uint32 b = to_uint32 b' -> to_uint32 (a + b) = to_uint32 (a' + b').
Proof.
  unfold to_uint32. intros Ha Hb. rewrite (Z.add_mod a b), (Z.add_mod a' b') by lia. congruence.
Qed.

#[export] Hint Rewrite u32_js_or u32_js_and u32_js_xor u32_js_not u32_lor u32_land u32_lxor u32_u32 : u32.
#[export] Hint Rewrite u32_rotr u32_js_shr u32_ROTR u32_shiftr using (assumption || lia) : u32.

Lemma rounds_constants : K = FIPS.K /\ h_init = FIPS.H0.
Proof. split; vm_compute; reflexivity. Qed.

(** ** The message schedule *)

Definition next_word (w : list Z) (i : nat) : Z :=
  let w15 := w !!! (i - 15)%nat in
  let w2 := w !!! (i - 2)%nat in
  let s0 := js_xor (js_xor (rotr w15 7) (rotr w15 18)) (js_shr w15 3) in
  let s1 := js_xor (js_xor (rotr w2 17) (rotr w2 19)) (js_shr w2 10) in
  to_uint32 (w !!! (i - 16)%nat + s0 + w !!! (i - 7)%nat + s1).

Lemma word_lookup w i : Forall word w -> word (w !!! i).
Proof.
  intros H. destruct (decide (i < length w)%nat) as [Hi|Hi].
  - apply (Forall_lookup_total_1 word); done.
  - rewrite list_lookup_total_alt, lookup_ge_None_2 by lia. unfold word. cbn. lia.
Qed.

Lemma next_word_spec V w :
  (16 <= length V)%nat -> Forall word V -> next_word (V ++ w) (length V) = FIPS.next V.
Proof.
  intros Hl HV. unfold next_word, FIPS.next.
  rewrite !lookup_total_app_l by lia. fold (to_uint32 (
    FIPS.sigma1 (V !!! (length V - 2)%nat) + V !!! (length V - 7)%nat
    + FIPS.sigma0 (V !!! (length V - 15)%nat) + V !!! (length V - 16)%nat)).
  pose proof (word_lookup V (length V - 15) HV). pose proof (word_lookup V (length V - 2) HV).
  generalize dependent (V !!! (length V - 15)%nat). intros x Hx.
  generalize dependent (V !!! (length V - 2)%nat). intros y Hy.
  rewrite (Z.add_comm (_ + _ + _) (V !!! (length V - 16)%nat)).
  rewrite (Z.add_comm (FIPS.sigma1 y + _) (FIPS.sigma0 x)), (Z.add_comm (FIPS.sigma1 y) _).
  rewrite !Z.add_assoc.
  repeat apply u32_add; try reflexivity;
    unfold FIPS.sigma0, FIPS.sigma1, FIPS.SHR; autorewrite with u32;
    rewrite ?(u32_word x), ?(u32_word y) by done; reflexivity.
Qed.

Lemma insert_after (V w : list Z) x :
  (length V < length w)%nat ->
  <[length V := x]> (V ++ drop (length V) w) = (V ++ [x]) ++ drop (S (length V)) w.
Proof.
  intros Hl. rewrite <- (Nat.add_0_r (length V)) at 1. rewrite insert_app_r.
  destruct (drop (length V) w) as [|y w'] eqn:E.
  - apply (f_equal length) in E. rewrite length_drop in E. cbn in E. lia.
  - rewrite <- app_assoc. cbn. f_equal. f_equal.
    replace (S (length V)) with (length V + 1)%nat by lia. rewrite <- drop_drop, E. reflexivity.
Qed.

Lemma word_next V : word (FIPS.next V).
Proof. apply word_u32. Qed.

Lemma schedule_spec n M :
  length M = 16%nat -> Forall word M ->
  length (FIPS.schedule n M) = (16 + n)%nat /\ Forall word (FIPS.schedule n M).
Proof.
  intros Hl HM. induction n as [|n [IHl IHw]]; cbn [FIPS.schedule]; [auto with lia|].
  rewrite length_app, IHl. split; [cbn; lia|].
  apply Forall_app. split; [done|]. constructor; [apply word_next|constructor].
Qed.

Lemma extend_loop n M w :
  length M = 16%nat -> Forall word M -> (16 + n <= length w)%nat ->
  foldl extend_word (M ++ drop 16 w) (seq 16 n) = FIPS.schedule n M ++ drop (16 + n) w.
Proof.
  intros Hl HM. induction n as [|n IH]; intros Hw; [reflexivity|].
  destruct (schedule_spec n M Hl HM) as [Hsl Hsw].
  rewrite seq_S, foldl_app, IH by lia. cbn [foldl FIPS.schedule].
  rewrite <- Hsl. change (extend_word ?w ?i) with (<[i := next_word w i]> w).
  rewrite next_word_spec by (done || lia). rewrite insert_after by lia.
  rewrite Nat.add_succ_r, Hsl. reflexivity.
Qed.

(** A loop that fills the first cells of an array. *)
Lemma fill_loop (f : nat -> Z) n w :
  (n <= length w)%nat ->
  foldl (fun w i => <[i := f i]> w) w (seq 0 n) = List.map f (seq 0 n) ++ drop n w.
Proof.
  induction n as [|n IH]; intros Hn; [reflexivity|].
  rewrite seq_S, foldl_app, IH, List.map_app by lia. cbn [foldl List.map].
  assert (El : length (List.map f (seq 0 n)) = n) by (rewrite List.length_map, length_seq; done).
  rewrite Nat.add_0_l. clear IH. revert El. generalize (List.map f (seq 0 n)). intros V <-.
  rewrite insert_after by lia. reflexivity.
Qed.

Lemma words_lookup (l : bytes) n :
  length l = (4 * n)%nat -> Forall is_byte l ->
  FIPS.words l = List.map (fun i => to_uint32 (getUint32 l (i * 4))) (seq 0 n).
Proof.
  revert l. induction n as [|n IH]; intros l Hl Hb; [destruct l; done|].
  destruct l as [|a [|b [|c [|d l]]]]; cbn in Hl; try lia.
  inversion_clear Hb as [|? ? Ha Hb1]. inversion_clear Hb1 as [|? ? Hb' Hb2].
  inversion_clear Hb2 as [|? ? Hc Hb3]. inversion_clear Hb3 as [|? ? Hd Hb4].
  cbn [FIPS.words]. rewrite IH by (done || lia). cbn [seq List.map]. f_equal.
  - unfold getUint32. cbn. rewrite !Z.shiftl_mul_pow2 by lia. unfold is_byte in *.
    rewrite to_uint32_small; lia.
  - rewrite <- seq_shift, List.map_map. apply map_ext. intros i.
    unfold getUint32. f_equal.
Qed.

Lemma getUint32_block (view : bytes) offset i :
  (offset + 64 <= length view)%nat -> (i < 16)%nat ->
  getUint32 (take 64 (drop offset view)) (i * 4) = getUint32 view (offset + i * 4).
Proof.
  intros Hl Hi. unfold getUint32.
  assert (E : forall j, (j < 64)%nat ->
    take 64 (drop offset view) !!! j = view !!! (offset + j)%nat).
  { intros j Hj. rewrite !list_lookup_total_alt, lookup_take, lookup_drop, decide_True by lia.
    reflexivity. }
  rewrite !E by lia. rewrite <- !Nat.add_assoc. reflexivity.
Qed.

Lemma load_loop (view : bytes) offset w :
  (offset + 64 <= length view)%nat -> Forall is_byte view -> length w = 64%nat ->
  foldl (load_word view offset) w (seq 0 16)
  = FIPS.words (take 64 (drop offset view)) ++ drop 16 w.
Proof.
  intros Hl Hb Hw.
  transitivity (List.map (fun i => to_uint32 (getUint32 view (offset + i * 4))) (seq 0 16) ++ drop 16 w);
    [apply (fill_loop (fun i => to_uint32 (getUint32 view (offset + i * 4)))); lia|].
  f_equal. rewrite (words_lookup _ 16).
  - apply List.map_ext_in. intros i Hi%in_seq. rewrite getUint32_block by lia. reflexivity.
  - rewrite length_take, length_drop. lia.
  - apply Forall_take, Forall_drop, Hb.
Qed.

(** ** The rounds *)

Lemma round_spec w r i :
  Forall word (regs_list r) ->
  round w r i = FIPS.step r (K !!! i, w !!! i) /\ Forall word (regs_list (round w r i)).
Proof.
  destruct r as [a b c d e f g h]. cbn [regs_list].
  rewrite !Forall_cons, Forall_nil. intros (Ha & Hb & Hc & Hd & He & Hf & Hg & Hh & _).
  unfold round, FIPS.step. cbn [ra rb rc rd re rf rg rh fst snd].
  set (t1 := to_uint32 (h + _ + _ + _ + _)). set (t2 := to_uint32 (js_xor _ _ + _)).
  assert (E1 : t1 = FIPS.wrap (h + FIPS.Sigma1 e + FIPS.Ch e f g + K !!! i + w !!! i)).
  { unfold t1. fold (to_uint32 (h + FIPS.Sigma1 e + FIPS.Ch e f g + K !!! i + w !!! i)).
    repeat apply u32_add; try reflexivity;
      unfold FIPS.Sigma1, FIPS.Ch; autorewrite with u32;
      rewrite ?(u32_word e), ?(u32_word f), ?(u32_word g) by done; reflexivity. }
  assert (E2 : t2 = FIPS.wrap (FIPS.Sigma0 a + FIPS.Maj a b c)).
  { unfold t2. fold (to_uint32 (FIPS.Sigma0 a + FIPS.Maj a b c)).
    apply u32_add; unfold FIPS.Sigma0, FIPS.Maj; autorewrite with u32;
      rewrite ?(u32_word a), ?(u32_word b), ?(u32_word c) by done; reflexivity. }
  rewrite <- E1, <- E2. split; [reflexivity|].
  cbn [regs_list]. repeat (apply Forall_cons; split); try apply word_u32; try assumption.
  apply Forall_nil. done.
Qed.

Lemma rounds_loop w n r :
  length w = 64%nat -> (n <= 64)%nat -> Forall word (regs_list r) ->
  foldl (round w) r (seq 0 n) = foldl FIPS.step r (zip (take n K) (take n w)) /\
  Forall word (regs_list (foldl (round w) r (seq 0 n))).
Proof.
  intros Hw. induction n as [|n IH]; intros Hn Hr; [auto|].
  destruct (IH ltac:(lia) Hr) as [E HF].
  rewrite seq_S, foldl_app. cbn [foldl]. rewrite Nat.add_0_l.
  destruct (round_spec w (foldl (round w) r (seq 0 n)) n HF) as [E' HF'].
  split; [|exact HF']. rewrite E', E.
  assert (HK : K !! n = Some (K !!! n)).
  { apply list_lookup_lookup_total_lt. change (length K) with 64%nat. lia. }
  assert (Hwn : w !! n = Some (w !!! n)) by (apply list_lookup_lookup_total_lt; lia).
  rewrite (take_S_r K n _ HK), (take_S_r w n _ Hwn), zip_with_app, foldl_app; [reflexivity|].
  rewrite !length_take. change (length K) with 64%nat. lia.
Qed.

(** ** Blocks *)

Definition is_digest_state (h : list Z) : Prop := length h = 8%nat /\ Forall word h.

Lemma regs_of_words h : Forall word h -> Forall word (regs_list (regs_of h)).
Proof.
  intros Hh. unfold regs_of. cbn [regs_list].
  repeat (apply Forall_cons; split); try apply word_lookup, Hh. apply Forall_nil. done.
Qed.

Lemma length_regs_list r : length (regs_list r) = 8%nat.
Proof. destruct r. reflexivity. Qed.

Lemma compress_state H block : length H = 8%nat -> is_digest_state (FIPS.compress H block).
Proof.
  intros HH. unfold FIPS.compress. split.
  - rewrite length_zip_with, length_regs_list, HH. reflexivity.
  - apply Forall_lookup_2. intros i x Hx.
    apply lookup_zip_with_Some in Hx. destruct Hx as (y & z & -> & _). apply word_u32.
Qed.

Lemma words_spec (l : bytes) n :
  length l = (4 * n)%nat -> Forall is_byte l ->
  length (FIPS.words l) = n /\ Forall word (FIPS.words l).
Proof.
  intros Hl Hb. rewrite (words_lookup l n) by done. split.
  - rewrite List.length_map, length_seq. reflexivity.
  - apply Forall_forall. intros x Hx%list_elem_of_In. apply in_map_iff in Hx.
    destruct Hx as (i & <- & _). apply word_u32.
Qed.

Lemma block_step_spec view offset w h :
  (offset + 64 <= length view)%nat -> Forall is_byte view -> length w = 64%nat -> is_digest_state h ->
  let '(w', h') := block_step view offset w h in
  length w' = 64%nat /\ h' = FIPS.compress h (take 64 (drop offset view)).
Proof.
  intros Hl Hb Hw [Hh Hhw]. unfold block_step. rewrite load_loop by done.
  set (M := FIPS.words (take 64 (drop offset view))).
  assert (HM : length M = 16%nat /\ Forall word M).
  { apply words_spec; [rewrite length_take, length_drop; lia|apply Forall_take, Forall_drop, Hb]. }
  destruct HM as [HMl HMw].
  rewrite extend_loop by (done || lia).
  destruct (schedule_spec 48 M HMl HMw) as [Hsl Hsw].
  rewrite (drop_ge w) by lia. rewrite app_nil_r.
  split; [rewrite Hsl; reflexivity|].
  unfold FIPS.compress. fold M.
  destruct (rounds_loop (FIPS.schedule 48 M) 64 (regs_of h)) as [-> _];
    [rewrite Hsl; reflexivity|lia|apply regs_of_words, Hhw|].
  rewrite <- (proj1 rounds_constants), (firstn_all2 K), firstn_all2 by (rewrite ?Hsl; cbn; lia).
  reflexivity.
Qed.

Lemma block_loop_spec n fuel view offset w h :
  (n < fuel)%nat -> length view = (offset + 64 * n)%nat -> Forall is_byte view ->
  length w = 64%nat -> is_digest_state h ->
  block_loop fuel view offset w h = foldl FIPS.compress h (FIPS.blocks n (drop offset view)).
Proof.
  revert fuel offset w h. induction n as [|n IH]; intros [|fuel] offset w h Hf Hl Hb Hw Hh; try lia.
  - cbn [block_loop FIPS.blocks foldl].
    destruct (Nat.ltb_spec offset (length view)); [lia|reflexivity].
  - cbn [block_loop FIPS.blocks foldl].
    destruct (Nat.ltb_spec offset (length view)); [|lia].
    pose proof (block_step_spec view offset w h ltac:(lia) Hb Hw Hh) as Hs.
    destruct (block_step view offset w h) as [w' h']. destruct Hs as [Hw' ->].
    rewrite IH by (lia || done || apply compress_state, Hh).
    rewrite drop_drop. reflexivity.
Qed.

Lemma fold_state blocks h : is_digest_state h -> is_digest_state (foldl FIPS.compress h blocks).
Proof.
  revert h. induction blocks as [|b blocks IH]; intros h Hh; [done|].
  cbn. apply IH, compress_state, Hh.
Qed.

Lemma be_bytes_spec x :
  word x -> be_bytes x = List.map (fun i => x / 256 ^ i mod 256) [3; 2; 1; 0].
Proof.
  intros Hx. unfold be_bytes. rewrite u32_word, !Z.shiftr_div_pow2 by (done || lia).
  cbn [List.map]. rewrite Z.div_1_r. reflexivity.
Qed.

Lemma digest_bytes_spec h :
  is_digest_state h ->
  digest_bytes h = List.concat (List.map (fun x => List.map (fun i => x / 256 ^ i mod 256) [3; 2; 1; 0]) h).
Proof.
  intros [Hl Hw]. rewrite <- (List.map_ext_in be_bytes).
  - do 9 (destruct h as [|? h]; try discriminate Hl). reflexivity.
  - intros x Hx. apply be_bytes_spec. rewrite Forall_forall in Hw. apply Hw, list_elem_of_In, Hx.
Qed.

(** ** Padding *)

Lemma typed_set_app (pre post s : bytes) n :
  typed_set (pre ++ replicate (length s + n) 0 ++ post) (length pre) s = pre ++ s ++ replicate n 0 ++ post.
Proof.
  unfold typed_set. rewrite take_app_length, replicate_add, <- !app_assoc. f_equal. f_equal.
  rewrite app_assoc, drop_app_length'; [reflexivity|].
  rewrite length_app, length_replicate. reflexivity.
Qed.

Lemma padded_length_spec n :
  0 <= n < 2 ^ 31 - 128 -> padded_length n = n + 9 + (55 - n) mod 64.
Proof.
  intros Hn. unfold padded_length, js_shl, js_sar.
  rewrite (to_int32_small (n + 9 + 63)) by lia. change (6 mod 32) with 6.
  rewrite Z.shiftr_div_pow2, Z.shiftl_mul_pow2 by lia. change (2 ^ 6) with 64.
  assert (0 <= (n + 9 + 63) / 64 * 64 <= n + 72) by (Z.to_euclidean_division_equations; lia).
  rewrite !to_int32_small by (rewrite ?to_int32_small; Z.to_euclidean_division_equations; lia).
  Z.to_euclidean_division_equations. lia.
Qed.

Lemma length_bytes_spec n :
  0 <= n < 2 ^ 60 ->
  be_bytes (n * 8 / 2 ^ 32) ++ be_bytes (to_uint32 (n * 8))
  = List.map (fun i => 8 * n / 256 ^ i mod 256) [7; 6; 5; 4; 3; 2; 1; 0].
Proof.
  intros Hn. rewrite !be_bytes_spec by (apply word_u32 || (unfold word; Z.to_euclidean_division_equations; lia)).
  assert (E : forall i, 0 <= i <= 3 -> to_uint32 (n * 8) / 256 ^ i mod 256 = n * 8 / 256 ^ i mod 256).
  { intros i Hi. unfold to_uint32. change 256 with (2 ^ 8). rewrite <- Z.pow_mul_r by lia.
    rewrite <- !Z.shiftr_div_pow2, <- !Z.land_ones by lia.
    apply Z.bits_inj. intros k. rewrite !Z.land_spec.
    destruct (Z.ltb_spec k 0); [rewrite !Z.testbit_neg_r by lia; reflexivity|].
    rewrite !Z.shiftr_spec, Z.land_spec by lia.
    destruct (Z.ltb_spec k 8).
    - rewrite (Z.ones_spec_low 32) by lia. rewrite andb_true_r. reflexivity.
    - rewrite (Z.ones_spec_high 8) by lia. rewrite !andb_false_r. reflexivity. }
  cbn [List.map app]. rewrite !E, !Z.div_div by lia. rewrite (Z.mul_comm n 8). reflexivity.
Qed.

Lemma padded_spec message :
  Z.of_nat (length message) < 2 ^ 31 - 128 -> padded message = FIPS.pad message.
Proof.
  intros Hn. unfold padded, FIPS.pad, setUint32.
  set (n := Z.of_nat (length message)) in *.
  rewrite padded_length_spec by lia.
  pose proof (Z.mod_pos_bound (55 - n) 64 ltac:(lia)) as Hk.
  set (k := Z.to_nat ((55 - n) mod 64)).
  replace (Z.to_nat (n + 9 + (55 - n) mod 64)) with (length message + (1 + (k + 8)))%nat by lia.
  set (z8 := be_bytes (n * 8 / 2 ^ 32)). set (z4 := be_bytes (to_uint32 (n * 8))).
  assert (E1 : typed_set (replicate (length message + (1 + (k + 8))) 0) 0 message
               = message ++ replicate (1 + (k + 8)) 0).
  { pose proof (typed_set_app [] [] message (1 + (k + 8))) as H. cbn in H.
    rewrite !app_nil_r in H. exact H. }
  assert (E2 : typed_set (message ++ replicate (1 + (k + 8)) 0) (length message) [0x80]
               = (message ++ [0x80] ++ replicate k 0) ++ replicate (4 + 4) 0).
  { pose proof (typed_set_app message [] [0x80] (k + 8)) as H. cbn [length] in H.
    rewrite !app_nil_r in H. rewrite H, replicate_add, <- !app_assoc. reflexivity. }
  rewrite E1, E2. set (pre := message ++ [0x80] ++ replicate k 0).
  assert (Hpre : length pre = (length message + 1 + k)%nat).
  { unfold pre. rewrite !length_app, length_replicate. cbn. lia. }
  replace (length message + (1 + (k + 8)) - 8)%nat with (length pre) by lia.
  pose proof (typed_set_app pre [] z8 4) as E3. rewrite !app_nil_r in E3.
  change (length z8) with 4%nat in E3. rewrite E3.
  replace (length message + (1 + (k + 8)) - 4)%nat with (length (pre ++ z8))
    by (rewrite length_app, Hpre; change (length z8) with 4%nat; lia).
  pose proof (typed_set_app (pre ++ z8) [] z4 0) as E4. rewrite !app_nil_r in E4.
  rewrite app_assoc. change (length z4 + 0)%nat with 4%nat in E4. rewrite E4.
  unfold z8, z4, pre. rewrite <- length_bytes_spec by lia. rewrite <- !app_assoc. reflexivity.
Qed.

Lemma pad_spec message :
  Forall is_byte message ->
  Forall is_byte (FIPS.pad message) /\
  length (FIPS.pad message) = (64 * (length (FIPS.pad message) / 64))%nat.
Proof.
  intros Hb. split.
  - unfold FIPS.pad. rewrite !Forall_app. repeat split; [done| | |].
    + repeat constructor; unfold is_byte; lia.
    + apply Forall_replicate. unfold is_byte. lia.
    + apply Forall_forall. intros x Hx%list_elem_of_In. apply in_map_iff in Hx.
      destruct Hx as (i & <- & _). apply Z.mod_pos_bound. lia.
  - unfold FIPS.pad. rewrite !length_app, length_replicate, List.length_map. cbn [length].
    set (n := Z.of_nat (length message)).
    pose proof (Z.div_mod (55 - n) 64 ltac:(lia)) as Hd.
    pose proof (Z.mod_pos_bound (55 - n) 64 ltac:(lia)) as Hr.
    set (r := (55 - n) mod 64) in *. set (q := (55 - n) / 64) in *. clearbody q r.
    replace (length message + (1 + (Z.to_nat r + 8)))%nat with (Z.to_nat (1 - q) * 64)%nat by lia.
    rewrite Nat.div_mul by lia. lia.
Qed.

Lemma sha256_spec message :
  Forall is_byte message -> Z.of_nat (length message) < 2 ^ 31 - 128 ->
  sha256 message = FIPS.hash message.
Proof.
  intros Hb Hl. unfold sha256, FIPS.hash. rewrite padded_spec by done.
  destruct (pad_spec message Hb) as [Hpb Hpl].
  assert (HH : is_digest_state h_init).
  { split; [reflexivity|]. unfold h_init. repeat constructor; unfold word; lia. }
  assert (Hpos : (0 < length (FIPS.pad message))%nat).
  { unfold FIPS.pad. rewrite !length_app. cbn. lia. }
  rewrite (block_loop_spec (length (FIPS.pad message) / 64)); rewrite ?length_replicate; try done; try lia.
  rewrite digest_bytes_spec by apply fold_state, HH.
  rewrite drop_0, (proj2 rounds_constants). reflexivity.
Qed.

Lemma hash_bytes message : length (FIPS.hash message) = 32%nat /\ Forall is_byte (FIPS.hash message).
Proof.
  assert (Hs : is_digest_state (foldl FIPS.compress FIPS.H0
                (FIPS.blocks (length (FIPS.pad message) / 64) (FIPS.pad message)))).
  { apply fold_state. rewrite <- (proj2 rounds_constants).
    split; [reflexivity|]. unfold h_init. repeat constructor; unfold word; lia. }
  unfold FIPS.hash. destruct Hs as [Hl Hw]. revert Hl.
  generalize (foldl FIPS.compress FIPS.H0 (FIPS.blocks (length (FIPS.pad message) / 64) (FIPS.pad message))).
  intros h Hl. split.
  - do 9 (destruct h as [|? h]; try discriminate Hl). reflexivity.
  - apply Forall_forall. intros x Hx%list_elem_of_In. apply in_concat in Hx.
    destruct Hx as (l & Hl' & Hx). apply in_map_iff in Hl'. destruct Hl' as (y & <- & _).
    apply in_map_iff in Hx. destruct Hx as (i & <- & _). apply Z.mod_pos_bound. lia.
Qed.

(** The two operands of an HMAC byte stay bytes. *)
Lemma byte_xor b m : is_byte b -> is_byte m -> js_xor b m mod 256 = Z.lxor b m /\ is_byte (Z.lxor b m).
Proof.
  unfold is_byte. intros Hb Hm.
  assert (H : 0 <= Z.lxor b m < 256).
  { pose proof (proj2 (Z.lxor_nonneg b m) ltac:(lia)) as Hp. split; [done|].
    destruct (Z.eq_dec (Z.lxor b m) 0) as [->|Hne]; [lia|].
    apply (Z.log2_lt_pow2 _ 8); [lia|].
    apply Z.le_lt_trans with (Z.max (Z.log2 b) (Z.log2 m)); [apply Z.log2_lxor; lia|].
    assert (Hlog : forall x, 0 <= x < 256 -> Z.log2 x < 8).
    { intros x Hx. destruct (Z.eq_dec x 0) as [->|]; [reflexivity|]. apply Z.log2_lt_pow2; lia. }
    apply Z.max_lub_lt; apply Hlog; done. }
  split; [|lia]. unfold js_xor. rewrite !to_int32_small by (rewrite ?to_int32_small; lia).
  apply Z.mod_small, H.
Qed.

Lemma hmac_block_spec (message source : bytes) m :
  Forall is_byte source -> is_byte m ->
  List.map (fun b => js_xor b m mod 256) source = List.map (fun b => Z.lxor b m) source /\
  Forall is_byte (List.map (fun b => Z.lxor b m) source).
Proof.
  intros Hs Hm. rewrite Forall_forall in Hs. split.
  - apply List.map_ext_in. intros b Hb%list_elem_of_In. apply byte_xor; auto.
  - apply Forall_forall. intros x Hx%list_elem_of_In. apply in_map_iff in Hx.
    destruct Hx as (b & <- & Hb%list_elem_of_In). apply byte_xor; auto.
Qed.

Lemma hmac_spec key message :
  Forall is_byte key -> Forall is_byte message ->
  Z.of_nat (length key) < 2 ^ 31 - 128 -> Z.of_nat (length message) < 2 ^ 31 - 192 ->
  hmacSha256 key message = FIPS.hmac key message.
Proof.
  intros Hk Hm Hkl Hml. unfold hmacSha256, FIPS.hmac. rewrite (sha256_spec key) by done.
  set (k := if (64 <? length key)%nat then FIPS.hash key else key).
  assert (Hk' : (length k <= 64)%nat /\ Forall is_byte k).
  { unfold k. destruct (Nat.ltb_spec 64 (length key)); [|auto].
    destruct (hash_bytes key) as [-> ?]. split; [lia|done]. }
  clearbody k. destruct Hk' as [Hkl' Hkb].
  assert (E : typed_set (replicate 64 0) 0 k = k ++ replicate (64 - length k) 0).
  { pose proof (typed_set_app [] [] k (64 - length k)) as H. cbn [app length] in H.
    rewrite !app_nil_r in H. rewrite Nat.add_comm, Nat.sub_add in H by lia. exact H. }
  rewrite E. set (block := k ++ replicate (64 - length k) 0).
  assert (Hbl : length block = 64%nat) by (unfold block; rewrite length_app, length_replicate; lia).
  assert (Hbb : Forall is_byte block).
  { apply Forall_app. split; [done|]. apply Forall_replicate. unfold is_byte. lia. }
  clearbody block.
  destruct (hmac_block_spec message block 0x36 Hbb ltac:(unfold is_byte; lia)) as [-> Hi].
  destruct (hmac_block_spec message block 0x5c Hbb ltac:(unfold is_byte; lia)) as [-> Ho].
  assert (Hset : forall m s n, (length s = n)%nat ->
    typed_set (List.map (fun b => Z.lxor b m) block ++ replicate n 0) 64 s
    = List.map (fun b => Z.lxor b m) block ++ s).
  { intros m s n <-. pose proof (typed_set_app (List.map (fun b => Z.lxor b m) block) [] s 0) as H.
    rewrite !app_nil_r, Nat.add_0_r, List.length_map, Hbl in H. exact H. }
  rewrite !Hset; [|reflexivity|].
  - rewrite (sha256_spec (_ ++ message)).
    + apply sha256_spec; [apply Forall_app; split; [done|apply hash_bytes]|].
      rewrite length_app, List.length_map, Hbl, (proj1 (hash_bytes _)). lia.
    + apply Forall_app. done.
    + rewrite length_app, List.length_map, Hbl. lia.
  - rewrite Hset by reflexivity. rewrite sha256_spec; [apply hash_bytes|apply Forall_app; done|].
    rewrite length_app, List.length_map, Hbl. lia.
Qed.

(** C34: The hash code is the standard: for every message the typed arrays can
    hold, [sha256] and [hmacSha256], with their signed 32-bit operators and
    shared word buffer, return what FIPS 180-4 and RFC 2104 define. *)
Theorem hash_refines_standard key message :
  Forall is_byte key -> Forall is_byte message ->
  Z.of_nat (length key) < 2 ^ 31 - 128 -> Z.of_nat (length message) < 2 ^ 31 - 192 ->
  sha256 message = FIPS.hash message /\
  hmacSha256 key message = FIPS.hmac key message /\
  K = FIPS.K /\ h_init = FIPS.H0.
Proof.
  intros Hk Hm Hkl Hml. split; [apply sha256_spec; [done|lia]|].
  split; [apply hmac_spec; done|apply rounds_constants].
Qed.

(** RFC 4231, test case 2. *)
Definition jefe : bytes := [0x4a; 0x65; 0x66; 0x65].
Definition what_do_ya_want : bytes :=
  [0x77; 0x68; 0x61; 0x74; 0x20; 0x64; 0x6f; 0x20; 0x79; 0x61; 0x20; 0x77; 0x61; 0x6e;
   0x74; 0x20; 0x66; 0x6f; 0x72; 0x20; 0x6e; 0x6f; 0x74; 0x68; 0x69; 0x6e; 0x67; 0x3f].

Example hmac_vector :
  List.firstn 8 (hmacSha256 jefe what_do_ya_want) = [0x5b; 0xdc; 0xc1; 0x46; 0xbf; 0x60; 0x75; 0x4e].
Proof. vm_compute. reflexivity. Qed.

Lemma hash_refines_standard_witness :
  sha256 what_do_ya_want = FIPS.hash what_do_ya_want /\
  hmacSha256 jefe what_do_ya_want = FIPS.hmac jefe what_do_ya_want /\
  K = FIPS.K /\ h_init = FIPS.H0.
Proof.
  apply hash_refines_standard; try (cbn; lia);
    unfold jefe, what_do_ya_want; repeat constructor; unfold is_byte; lia.
Defined.
