(* ===== verification/IngestRegexTree.v ===== *)
(** * Nested repetition on syntax trees

    [hasRepeatedVariableGroup] of [packages/domain/src/ingest-rules.ts] decides
    on characters whether a repeated group contains a variable-width repetition
    or an alternation. Here a pattern is a syntax tree with a printer, the
    question is asked of the tree ([nested]), and [repeated_group_check_exact]
    says that the scan of the printed pattern answers it. *)

From Stdlib Require Import Ascii String.
From stdpp Require Import prelude list strings.
From Stdlib Require Import ZArith Lia.
From S2P Require Import Prelude.
From S2P Require Import JsString.
From S2P Require Import IngestSha256.
From S2P Require Import IngestRegex.

Open Scope Z_scope.

(** ** Trees *)

Inductive quantifier :=
  | qu_none
  | qu_star (lazy : bool)
  | qu_plus (lazy : bool)
  | qu_optional (lazy : bool)
  | qu_exactly (count : text) (lazy : bool)
  | qu_between (low high : text) (lazy : bool).

Inductive escape :=
  | es_char (c : Z)
  | es_hex (h1 h2 : Z)
  | es_unicode (h1 h2 h3 h4 : Z)
  | es_property (k : Z) (name : text).

(** What a class contains: characters and escaped characters. *)
Inductive member :=
  | me_char (c : Z)
  | me_escape (c : Z).

Inductive opening :=
  | op_capture
  | op_plain
  | op_named (name : text).

(** Alternatives of sequences of quantified atoms. *)
Inductive alternatives :=
  | al_last (s : pieces)
  | al_more (s : pieces) (r : alternatives)
with pieces :=
  | pi_nil
  | pi_cons (a : atom) (q : quantifier) (s : pieces)
with atom :=
  | at_char (c : Z)
  | at_escape (e : escape)
  | at_class (ms : list member)
  | at_group (o : opening) (r : alternatives).

Scheme alternatives_mut := Induction for alternatives Sort Prop
with pieces_mut := Induction for pieces Sort Prop
with atom_mut := Induction for atom Sort Prop.
Combined Scheme tree_ind from alternatives_mut, pieces_mut, atom_mut.

(** ** Printing *)

Definition print_lazy (lazy : bool) : text := if lazy then [chr "?"] else [].

Definition print_quantifier (q : quantifier) : text :=
  match q with
  | qu_none => []
  | qu_star l => chr "*" :: print_lazy l
  | qu_plus l => chr "+" :: print_lazy l
  | qu_optional l => chr "?" :: print_lazy l
  | qu_exactly n l => chr "{" :: n ++ chr "}" :: print_lazy l
  | qu_between low high l => chr "{" :: low ++ chr "," :: high ++ chr "}" :: print_lazy l
  end.

Definition print_escape (e : escape) : text :=
  match e with
  | es_char c => [chr "\"; c]
  | es_hex h1 h2 => [chr "\"; chr "x"; h1; h2]
  | es_unicode h1 h2 h3 h4 => [chr "\"; chr "u"; h1; h2; h3; h4]
  | es_property k name => chr "\" :: k :: chr "{" :: name ++ [chr "}"]
  end.

Definition print_member (m : member) : text :=
  match m with me_char c => [c] | me_escape c => [chr "\"; c] end.

Definition print_members (ms : list member) : text := List.concat (List.map print_member ms).

Definition print_opening (o : opening) : text :=
  match o with
  | op_capture => [chr "("]
  | op_plain => [chr "("; chr "?"; chr ":"]
  | op_named name => chr "(" :: chr "?" :: chr "<" :: name ++ [chr ">"]
  end.

Fixpoint print_alternatives (r : alternatives) : text :=
  match r with
  | al_last s => print_pieces s
  | al_more s r => print_pieces s ++ chr "|" :: print_alternatives r
  end
with print_pieces (s : pieces) : text :=
  match s with
  | pi_nil => []
  | pi_cons a q s => print_atom a ++ print_quantifier q ++ print_pieces s
  end
with print_atom (a : atom) : text :=
  match a with
  | at_char c => [c]
  | at_escape e => print_escape e
  | at_class ms => chr "[" :: print_members ms ++ [chr "]"]
  | at_group o r => print_opening o ++ print_alternatives r ++ [chr ")"]
  end.

(** ** Well-formed trees: what the characters of a leaf may be *)

Definition quantifier_chars : text := lit "*+?{".

Definition ok_digits (d : text) : Prop := d <> [] /\ Forall (fun c => is_decimal c = true) d.

Definition ok_quantifier (q : quantifier) : Prop :=
  match q with
  | qu_exactly n _ => ok_digits n
  | qu_between low high _ => ok_digits low /\ Forall (fun c => is_decimal c = true) high
  | _ => True
  end.

Definition ok_escape (e : escape) : Prop :=
  match e with
  | es_char c => c ∉ lit "pPux"
  | es_hex h1 _ => h1 <> chr "{"
  | es_unicode h1 _ _ _ => h1 <> chr "{"
  | es_property k name => k ∈ lit "pP" /\ chr "}" ∉ name
  end.

Definition ok_member (m : member) : Prop :=
  match m with me_char c => c <> chr "]" /\ c <> chr "\" | me_escape _ => True end.

Definition ok_opening (o : opening) : Prop :=
  match o with
  | op_named name => chr ">" ∉ name /\ head name <> Some (chr "=") /\ head name <> Some (chr "!")
  | _ => True
  end.

Fixpoint ok_alternatives (r : alternatives) : Prop :=
  match r with
  | al_last s => ok_pieces s
  | al_more s r => ok_pieces s /\ ok_alternatives r
  end
with ok_pieces (s : pieces) : Prop :=
  match s with
  | pi_nil => True
  | pi_cons a q s => ok_atom a /\ ok_quantifier q /\ ok_pieces s
  end
with ok_atom (a : atom) : Prop :=
  match a with
  | at_char c => c ∉ lit "\[()|*+?{"
  | at_escape e => ok_escape e
  | at_class ms => ms <> [] /\ Forall ok_member ms
  | at_group o r => ok_opening o /\ ok_alternatives r
  end.

(** ** The question *)

(** The quantifier can repeat its atom more than once. *)
Definition may_repeat (q : quantifier) : bool :=
  match q with
  | qu_none | qu_optional _ => false
  | qu_star _ | qu_plus _ => true
  | qu_exactly n _ => 1 <? number_of n
  | qu_between _ [] _ => true
  | qu_between _ high _ => 1 <? number_of high
  end.

(** The atom can take different numbers of turns. *)
Definition is_variable (q : quantifier) : bool :=
  match q with
  | qu_none | qu_exactly _ _ => false
  | qu_star _ | qu_plus _ | qu_optional _ => true
  | qu_between _ [] _ => true
  | qu_between low high _ => negb (number_of low =? number_of high)
  end.

(** A variable repetition or an alternation, at any depth. *)
Fixpoint variable_alternatives (r : alternatives) : bool :=
  match r with al_last s => variable_pieces s | al_more _ _ => true end
with variable_pieces (s : pieces) : bool :=
  match s with
  | pi_nil => false
  | pi_cons a q s => variable_atom a || is_variable q || variable_pieces s
  end
with variable_atom (a : atom) : bool :=
  match a with at_group _ r => variable_alternatives r | _ => false end.

(** Some group that repeats is variable. *)
Fixpoint nested_alternatives (r : alternatives) : bool :=
  match r with
  | al_last s => nested_pieces s
  | al_more s r => nested_pieces s || nested_alternatives r
  end
with nested_pieces (s : pieces) : bool :=
  match s with
  | pi_nil => false
  | pi_cons a q s => nested_atom a || (variable_atom a && may_repeat q) || nested_pieces s
  end
with nested_atom (a : atom) : bool :=
  match a with at_group _ r => nested_alternatives r | _ => false end.

(** ** Reading a printed text by index *)

Lemma lookup_suffix (pre rest : text) k : (pre ++ rest) !! (length pre + k)%nat = rest !! k.
Proof. rewrite lookup_app_r by lia. f_equal. lia. Qed.

Lemma lookup_suffix_0 (pre rest : text) : (pre ++ rest) !! length pre = rest !! 0%nat.
Proof. rewrite <- (Nat.add_0_r (length pre)) at 1. apply lookup_suffix. Qed.

Lemma drop_suffix (pre rest : text) : drop (length pre) (pre ++ rest) = rest.
Proof. apply drop_app_length. Qed.

(** No quantifier starts here. *)
Definition stops (rest : text) : bool := negb (head_in quantifier_chars rest).

Lemma span_decimal_app d c rest :
  Forall (fun c => is_decimal c = true) d -> is_decimal c = false -> span_decimal (d ++ c :: rest) = (d, c :: rest).
Proof.
  intros Hd Hc. induction Hd as [|x d Hx _ IH]; cbn [app span_decimal]; [rewrite Hc; done|].
  rewrite Hx, IH. reflexivity.
Qed.

(** The semantics of a printed quantifier. *)
Definition quantifier_value (q : quantifier) : option (Z * option Z) :=
  match q with
  | qu_none => None
  | qu_star _ => Some (0, None)
  | qu_plus _ => Some (1, None)
  | qu_optional _ => Some (0, Some 1)
  | qu_exactly n _ => Some (number_of n, Some (number_of n))
  | qu_between low [] _ => Some (number_of low, None)
  | qu_between low high _ => Some (number_of low, Some (number_of high))
  end.

Lemma quantifier_chars_eq : quantifier_chars = [chr "*"; chr "+"; chr "?"; chr "{"].
Proof. reflexivity. Qed.

Lemma stops_head rest c rest' : rest = c :: rest' -> stops rest = true -> c ∉ quantifier_chars.
Proof. intros ->. unfold stops, head_in. intros H%negb_true_iff%bool_decide_eq_false. exact H. Qed.

Lemma stops_not_lazy rest : stops rest = true -> is_char (rest !! 0%nat) (chr "?") = false.
Proof.
  destruct rest as [|c rest]; [done|]. intros H. pose proof (stops_head _ c rest eq_refl H) as Hc.
  cbn [lookup list_lookup is_char]. apply Z.eqb_neq. intros ->. apply Hc.
  rewrite quantifier_chars_eq, !elem_of_cons. auto.
Qed.

Lemma stops_none rest :
  stops rest = true ->
  is_char (rest !! 0%nat) (chr "*") = false /\ is_char (rest !! 0%nat) (chr "+") = false /\
  is_char (rest !! 0%nat) (chr "?") = false /\ counted rest = None.
Proof.
  intros H. destruct rest as [|c rest]; [done|]. pose proof (stops_head _ c rest eq_refl H) as Hc.
  assert (Hne : forall d, d ∈ quantifier_chars -> (c =? d) = false).
  { intros d Hd. apply Z.eqb_neq. intros ->. done. }
  cbn [lookup list_lookup is_char counted].
  rewrite !Hne by (rewrite quantifier_chars_eq, !elem_of_cons; auto 6). auto.
Qed.

Lemma lazy_length (pre rest : text) lazy n :
  stops rest = true -> length pre = n ->
  (if is_char ((pre ++ print_lazy lazy ++ rest) !! n) (chr "?") then S n else n)
  = (n + length (print_lazy lazy))%nat.
Proof.
  intros Hs <-. rewrite lookup_suffix_0. destruct lazy; cbn [print_lazy app length].
  - cbn. rewrite Nat.add_1_r. reflexivity.
  - rewrite stops_not_lazy by done. symmetry. apply Nat.add_0_r.
Qed.

Lemma lazy_length_at (pre front rest : text) lazy :
  stops rest = true ->
  (if is_char ((pre ++ front ++ print_lazy lazy ++ rest) !! (length pre + length front)%nat) (chr "?")
   then S (length front) else length front)
  = (length front + length (print_lazy lazy))%nat.
Proof. intros Hs. rewrite lookup_suffix. apply lazy_length; done. Qed.

Lemma counted_exactly n lazy rest :
  ok_digits n ->
  counted (chr "{" :: n ++ chr "}" :: print_lazy lazy ++ rest) = Some (n, None, (length n + 2)%nat).
Proof.
  intros [Hne Hd]. cbn [counted]. rewrite Z.eqb_refl, span_decimal_app by done.
  destruct n as [|d n]; [done|]. rewrite Z.eqb_refl. reflexivity.
Qed.

Lemma counted_between low high lazy rest :
  ok_digits low -> Forall (fun c => is_decimal c = true) high ->
  counted (chr "{" :: low ++ chr "," :: high ++ chr "}" :: print_lazy lazy ++ rest)
  = Some (low, Some high, (length low + length high + 3)%nat).
Proof.
  intros [Hne Hd] Hh. cbn [counted]. rewrite Z.eqb_refl, span_decimal_app by done.
  destruct low as [|d low]; [done|]. change (chr "," =? chr "}") with false.
  rewrite Z.eqb_refl, span_decimal_app by done. rewrite Z.eqb_refl. reflexivity.
Qed.

Lemma quantifierAt_printed (pre rest : text) q :
  ok_quantifier q -> stops rest = true ->
  quantifierAt (pre ++ print_quantifier q ++ rest) (length pre)
  = match quantifier_value q with
    | None => None
    | Some (low, high) =>
        Some {| q_min := low; q_max := high; q_length := length (print_quantifier q) |}
    end.
Proof.
  intros Hq Hs. unfold quantifierAt. rewrite lookup_suffix_0.
  destruct q as [|l|l|l|n l|low high l]; cbn [print_quantifier quantifier_value].
  - rewrite drop_suffix. cbn [app]. destruct (stops_none rest Hs) as (-> & -> & -> & ->). reflexivity.
  - cbn [app lookup list_lookup is_char]. rewrite Z.eqb_refl.
    pose proof (lazy_length_at pre [chr "*"] rest l Hs) as H. cbn [app length] in H. rewrite H. reflexivity.
  - cbn [app lookup list_lookup is_char]. change (chr "+" =? chr "*") with false. rewrite Z.eqb_refl.
    pose proof (lazy_length_at pre [chr "+"] rest l Hs) as H. cbn [app length] in H. rewrite H. reflexivity.
  - cbn [app lookup list_lookup is_char]. change (chr "?" =? chr "*") with false.
    change (chr "?" =? chr "+") with false. rewrite Z.eqb_refl.
    pose proof (lazy_length_at pre [chr "?"] rest l Hs) as H. cbn [app length] in H. rewrite H. reflexivity.
  - rewrite drop_suffix. cbn [app lookup list_lookup is_char].
    change (chr "{" =? chr "*") with false. change (chr "{" =? chr "+") with false.
    change (chr "{" =? chr "?") with false. cbv iota.
    rewrite <- !app_assoc. cbn [app]. rewrite counted_exactly by done.
    replace (length n + 2)%nat with (length (chr "{" :: n ++ [chr "}"])) by (cbn; rewrite length_app; cbn; lia).
    pose proof (lazy_length_at pre (chr "{" :: n ++ [chr "}"]) rest l Hs) as H.
    cbn [app] in H. rewrite <- app_assoc in H. cbn [app] in H. rewrite H.
    do 2 f_equal. cbn [length]. rewrite !length_app. cbn [length]. lia.
  - destruct Hq as [Hl Hh]. rewrite drop_suffix. cbn [app lookup list_lookup is_char].
    change (chr "{" =? chr "*") with false. change (chr "{" =? chr "+") with false.
    change (chr "{" =? chr "?") with false. cbv iota.
    rewrite <- !app_assoc. cbn [app]. rewrite <- !app_assoc. cbn [app]. rewrite counted_between by done.
    set (front := chr "{" :: low ++ chr "," :: high ++ [chr "}"]).
    replace (length low + length high + 3)%nat with (length front)
      by (unfold front; cbn; rewrite !length_app; cbn; rewrite !length_app; cbn; lia).
    assert (E : chr "{" :: low ++ chr "," :: high ++ chr "}" :: print_lazy l ++ rest
                = front ++ print_lazy l ++ rest)
      by (unfold front; cbn [app]; rewrite <- app_assoc; cbn [app]; rewrite <- app_assoc; reflexivity).
    rewrite E, (lazy_length_at pre front rest l Hs). unfold front.
    destruct high; (do 2 f_equal; cbn [length]; rewrite !length_app; cbn [length]; rewrite ?length_app; cbn [length]; lia).
Qed.

Lemma index_of_printed c (pre a rest : text) :
  c ∉ a -> index_of c (pre ++ a ++ c :: rest) (length pre) = Some (length pre + length a)%nat.
Proof.
  intros Ha. induction pre as [|x pre IH]; cbn [app index_of length].
  - induction a as [|y a IHa]; cbn [app index_of length].
    + rewrite Z.eqb_refl. reflexivity.
    + apply not_elem_of_cons in Ha as [Hy Ha].
      destruct (Z.eqb_spec y c); [congruence|]. rewrite IHa by done. reflexivity.
  - rewrite IH. reflexivity.
Qed.

Lemma escape_kinds : lit "pPux" = [chr "p"; chr "P"; chr "u"; chr "x"] /\ lit "pP" = [chr "p"; chr "P"].
Proof. split; reflexivity. Qed.

Lemma is_char_ne c d : c <> d -> is_char (Some c) d = false.
Proof. intros H. apply Z.eqb_neq, H. Qed.

Lemma escape_end_printed (pre rest : text) e :
  ok_escape e ->
  escape_end (pre ++ print_escape e ++ rest) (length pre) = (length pre + length (print_escape e))%nat.
Proof.
  intros He. unfold escape_end. rewrite !lookup_suffix.
  destruct e as [c|h1 h2|h1 h2 h3 h4|k name]; cbn [print_escape ok_escape] in *;
    cbn [app lookup list_lookup].
  - unfold char_in. rewrite bool_decide_eq_false_2 by done. cbn [andb].
    rewrite !is_char_ne; [reflexivity| |]; intros ->; apply He; rewrite (proj1 escape_kinds), !elem_of_cons; auto 6.
  - rewrite (is_char_ne h1) by done. rewrite andb_false_r. reflexivity.
  - rewrite (is_char_ne h1) by done. rewrite andb_false_r. reflexivity.
  - destruct He as [Hk Hn]. unfold char_in.
    rewrite (proj2 escape_kinds), !elem_of_cons in Hk.
    rewrite bool_decide_eq_true_2 by (rewrite (proj1 escape_kinds), !elem_of_cons; tauto).
    cbn [is_char andb]. rewrite Z.eqb_refl.
    pose proof (index_of_printed (chr "}") pre (chr "\" :: k :: chr "{" :: name) rest) as Hi.
    cbn [app] in Hi. rewrite <- app_assoc. cbn [app]. rewrite Hi.
    + cbn [length]. rewrite length_app. cbn [length]. lia.
    + rewrite !not_elem_of_cons. repeat split; try (cbv; discriminate); [|exact Hn].
      intros <-. destruct Hk as [H|[H|H]]; try discriminate. inversion H.
Qed.

Lemma class_loop_printed fuel (pre rest : text) ms :
  Forall ok_member ms -> (length (print_members ms) < fuel)%nat ->
  class_loop fuel (pre ++ print_members ms ++ chr "]" :: rest) (length pre)
  = Some (length pre + length (print_members ms))%nat.
Proof.
  intros Hms. revert pre fuel. induction Hms as [|m ms Hm _ IH]; intros pre fuel Hf.
  - destruct fuel; [cbn in Hf; lia|]. cbn [class_loop print_members List.map List.concat app].
    rewrite lookup_suffix_0. cbn [lookup list_lookup]. rewrite Z.eqb_refl, Nat.add_0_r. reflexivity.
  - change (print_members (m :: ms)) with (print_member m ++ print_members ms) in *.
    rewrite length_app in Hf |- *. destruct fuel as [|fuel]; [lia|]. cbn [class_loop].
    rewrite <- app_assoc, lookup_suffix_0.
    specialize (IH (pre ++ print_member m) fuel). rewrite <- !app_assoc, !length_app in IH.
    destruct m as [c|c]; cbn [print_member app lookup list_lookup length] in *.
    + destruct Hm as [H1 H2]. destruct (Z.eqb_spec c (chr "]")); [done|].
      destruct (Z.eqb_spec c (chr "\")); [done|]. rewrite IH by lia. f_equal. lia.
    + change (chr "\" =? chr "]") with false. change (chr "\" =? chr "\") with true.
      cbv iota. rewrite IH by lia. f_equal. lia.
Qed.

Lemma class_end_printed (pre rest : text) ms :
  Forall ok_member ms ->
  class_end (pre ++ print_members ms ++ chr "]" :: rest) (length pre)
  = Some (length pre + length (print_members ms))%nat.
Proof.
  intros Hms. apply class_loop_printed; [done|]. rewrite !length_app. cbn. lia.
Qed.

Lemma name_loop_printed fuel (pre a rest : text) :
  chr ">" ∉ a -> (length a < fuel)%nat ->
  name_loop fuel (pre ++ a ++ chr ">" :: rest) (length pre) = Some (length pre + length a)%nat.
Proof.
  revert pre fuel. induction a as [|y a IH]; intros pre fuel Ha Hf;
    (destruct fuel as [|fuel]; [cbn in Hf; lia|]); cbn [name_loop app].
  - rewrite lookup_suffix_0. cbn [lookup list_lookup length].
    rewrite Z.eqb_refl, Nat.add_0_r. reflexivity.
  - apply not_elem_of_cons in Ha as [Hy Ha]. cbn [length] in Hf. rewrite lookup_suffix_0.
    cbn [lookup list_lookup length]. destruct (Z.eqb_spec y (chr ">")); [congruence|].
    specialize (IH (pre ++ [y]) fuel Ha ltac:(lia)). rewrite <- app_assoc, length_app in IH.
    cbn [app length] in IH. rewrite IH. f_equal. lia.
Qed.

Lemma group_start_printed (pre rest : text) o :
  ok_opening o -> is_char (rest !! 0%nat) (chr "?") = false ->
  group_start (pre ++ print_opening o ++ rest) (length pre) = Some (length pre + length (print_opening o))%nat.
Proof.
  intros Ho Hr. unfold group_start. rewrite <- !Nat.add_assoc, !lookup_suffix.
  destruct o as [| |name]; cbn [print_opening app Nat.add length ok_opening] in *.
  - change ((chr "(" :: rest) !! 1%nat) with (rest !! 0%nat). rewrite Hr. reflexivity.
  - cbn [lookup list_lookup is_char]. change (chr "?" =? chr "?") with true.
    change (chr ":" =? chr "<") with false. cbn. f_equal. lia.
  - destruct Ho as (Hn & H1 & H2). cbn [lookup list_lookup is_char].
    change (chr "?" =? chr "?") with true. change (chr "<" =? chr "<") with true.
    rewrite <- app_assoc. cbn [app].
    assert (Hne : forall d, d <> chr ">" -> head name <> Some d ->
      is_char ((name ++ chr ">" :: rest) !! 0%nat) d = false).
    { intros d Hd Hh. destruct name as [|y name]; cbn [app lookup list_lookup]; apply is_char_ne;
        [congruence|]. intros ->. apply Hh. reflexivity. }
    rewrite !Hne by (done || discriminate). cbn [negb andb].
    pose proof (name_loop_printed (S (length (pre ++ chr "(" :: chr "?" :: chr "<" :: name ++ chr ">" :: rest)))
      (pre ++ [chr "("; chr "?"]) (chr "<" :: name) rest) as Hl.
    rewrite <- app_assoc, !length_app in Hl. cbn [app length] in Hl.
    rewrite !length_app. cbn [length] in *. rewrite length_app in Hl |- *. cbn [length] in *.
    rewrite Hl; [cbn; f_equal; lia| |lia].
    apply not_elem_of_cons. split; [discriminate|exact Hn].
Qed.

(** ** The scan *)

Lemma repeated_loop_fuel f1 f2 pattern s :
  (length pattern - sc_at s < f1)%nat -> (length pattern - sc_at s < f2)%nat ->
  repeated_loop f1 pattern s = repeated_loop f2 pattern s.
Proof.
  revert f2 s. induction f1 as [|f1 IH]; intros [|f2] s H1 H2; try lia. cbn [repeated_loop].
  destruct (pattern !! sc_at s) as [c|] eqn:E; [|done]. apply lookup_lt_Some in E.
  assert (Hafter : forall end_ stack variable, (sc_at s < end_)%nat ->
    match afterAtom pattern end_ stack variable with
    | None => Some true | Some s' => repeated_loop f1 pattern s' end =
    match afterAtom pattern end_ stack variable with
    | None => Some true | Some s' => repeated_loop f2 pattern s' end).
  { intros end_ stack variable He. destruct (afterAtom pattern end_ stack variable) as [s'|] eqn:Ea; [|done].
    apply afterAtom_progress in Ea. apply IH; lia. }
  destruct (c =? chr "\"); [apply Hafter, escape_end_progress; done|].
  destruct (c =? chr "[").
  { destruct (class_end_answers pattern
      (if is_char (pattern !! (sc_at s + 1)%nat) (chr "]") then sc_at s + 2 else sc_at s + 1)%nat)
      as (e & -> & He). apply Hafter. destruct (is_char _ _); lia. }
  destruct (c =? chr "(").
  { destruct (group_start_answers pattern (sc_at s)) as (e & -> & He). apply IH; cbn; lia. }
  destruct (c =? chr ")"); [destruct (sc_stack s) as [|v [|v' below]]; apply Hafter; lia|].
  destruct (c =? chr "|"); [apply IH; cbn; lia|apply Hafter; lia].
Qed.

(** The scan from a position, whatever the fuel. *)
Definition scan_from (pattern : text) (at_ : nat) (stack : list bool) : option bool :=
  repeated_loop (S (length pattern)) pattern {| sc_at := at_; sc_stack := stack |}.

(** The scan after an atom that ends at [end_]. *)
Definition scan_after (pattern : text) (end_ : nat) (stack : list bool) (variable : bool) : option bool :=
  match afterAtom pattern end_ stack variable with
  | None => Some true
  | Some s => scan_from pattern (sc_at s) (sc_stack s)
  end.

Lemma scan_step pattern at_ stack char :
  pattern !! at_ = Some char ->
  scan_from pattern at_ stack =
    if char =? chr "\" then scan_after pattern (escape_end pattern at_) stack false
    else if char =? chr "[" then
      let from := if is_char (pattern !! (at_ + 1)%nat) (chr "]") then (at_ + 2)%nat else (at_ + 1)%nat in
      match class_end pattern from with None => None | Some e => scan_after pattern (e + 1)%nat stack false end
    else if char =? chr "(" then
      match group_start pattern at_ with None => None | Some at' => scan_from pattern at' (false :: stack) end
    else if char =? chr ")" then
      match stack with
      | variable :: (_ :: _) as below => scan_after pattern (at_ + 1)%nat below variable
      | _ => scan_after pattern (at_ + 1)%nat stack false
      end
    else if char =? chr "|" then scan_from pattern (at_ + 1)%nat (mark_top stack)
    else scan_after pattern (at_ + 1)%nat stack false.
Proof.
  intros E. pose proof (lookup_lt_Some _ _ _ E) as Hl.
  assert (Hafter : forall end_ stack variable, (at_ < end_)%nat ->
    match afterAtom pattern end_ stack variable with
    | None => Some true | Some s' => repeated_loop (length pattern) pattern s' end
    = scan_after pattern end_ stack variable).
  { intros end_ st variable He. unfold scan_after, scan_from.
    destruct (afterAtom pattern end_ st variable) as [[at' st']|] eqn:Ea; [|done].
    apply afterAtom_progress in Ea. cbn [sc_at sc_stack] in *.
    apply repeated_loop_fuel; cbn [sc_at]; lia. }
  unfold scan_from at 1. cbn [repeated_loop sc_at sc_stack]. rewrite E.
  destruct (char =? chr "\"); [apply Hafter, escape_end_progress; done|].
  destruct (char =? chr "[").
  { cbv zeta. destruct (class_end_answers pattern
      (if is_char (pattern !! (at_ + 1)%nat) (chr "]") then at_ + 2 else at_ + 1)%nat)
      as (e & -> & He). apply Hafter. destruct (is_char _ _); lia. }
  destruct (char =? chr "(").
  { destruct (group_start_answers pattern at_) as (e & -> & He). apply repeated_loop_fuel; cbn; lia. }
  destruct (char =? chr ")"); [destruct stack as [|v [|v' below]]; apply Hafter; lia|].
  destruct (char =? chr "|"); [apply repeated_loop_fuel; cbn; lia|apply Hafter; lia].
Qed.

(** What the quantifier after an atom does to the flags. *)
Lemma scan_after_printed (pre rest : text) q v below variable :
  ok_quantifier q -> stops rest = true ->
  scan_after (pre ++ print_quantifier q ++ rest) (length pre) (v :: below) variable
  = if variable && may_repeat q then Some true
    else scan_from (pre ++ print_quantifier q ++ rest) (length pre + length (print_quantifier q))
           ((v || variable || is_variable q) :: below).
Proof.
  intros Hq Hs. unfold scan_after, afterAtom. rewrite quantifierAt_printed by done.
  assert (Hm : forall b : bool, (if b then mark_top (v :: below) else v :: below) = (v || b) :: below)
    by (intros []; cbn; rewrite ?orb_true_r, ?orb_false_r; reflexivity).
  destruct q as [|l|l|l|n l|low [|d high] l]; cbn [quantifier_value];
    unfold repeats, varies; cbn [q_max q_min q_length]; unfold may_repeat, is_variable.
  1: { cbn [sc_at sc_stack print_quantifier length]. rewrite Nat.add_0_r, andb_false_r, Hm, orb_false_r.
       reflexivity. }
  all: rewrite ?Z.eqb_refl; destruct (variable && _) eqn:Ev; [done|]; cbn [sc_at sc_stack];
    rewrite ?Hm, ?orb_assoc; reflexivity.
Qed.

Lemma stops_atom a rest : ok_atom a -> stops (print_atom a ++ rest) = true.
Proof.
  unfold stops, head_in. rewrite quantifier_chars_eq.
  destruct a as [c|e|ms|o r]; cbn [ok_atom print_atom].
  - intros Hc. cbn [app]. rewrite bool_decide_eq_false_2; [done|]. intros Hin. apply Hc.
    assert (E : lit "\[()|*+?{" = [chr "\"; chr "["; chr "("; chr ")"; chr "|"; chr "*"; chr "+"; chr "?"; chr "{"])
      by reflexivity.
    rewrite E. rewrite !elem_of_cons in Hin. rewrite !elem_of_cons. tauto.
  - intros _. destruct e; reflexivity.
  - intros _. reflexivity.
  - intros _. destruct o; reflexivity.
Qed.

Lemma stops_pieces s rest : ok_pieces s -> stops rest = true -> stops (print_pieces s ++ rest) = true.
Proof.
  destruct s as [|a q s]; cbn [ok_pieces print_pieces]; [done|].
  intros (Ha & _) _. rewrite <- app_assoc. apply stops_atom, Ha.
Qed.

Lemma stops_alternatives r rest : ok_alternatives r -> stops rest = true -> stops (print_alternatives r ++ rest) = true.
Proof.
  destruct r as [s|s r]; cbn [ok_alternatives print_alternatives]; intros Hr Hs.
  - apply stops_pieces; done.
  - destruct Hr as [H1 _]. rewrite <- app_assoc. apply stops_pieces; done.
Qed.

(** ** The scan of a printed tree *)

Lemma at_printed (pre a rest : text) : pre ++ a ++ rest = (pre ++ a) ++ rest.
Proof. apply app_assoc. Qed.

(** A leaf: the scan lands on its quantifier with nothing variable inside. *)
Lemma scan_leaf (pre leaf rest : text) q v below :
  ok_quantifier q -> stops rest = true ->
  scan_from (pre ++ leaf ++ print_quantifier q ++ rest) (length pre) (v :: below)
  = scan_after (pre ++ leaf ++ print_quantifier q ++ rest) (length pre + length leaf) (v :: below) false ->
  scan_from (pre ++ leaf ++ print_quantifier q ++ rest) (length pre) (v :: below)
  = scan_from (pre ++ leaf ++ print_quantifier q ++ rest)
      (length pre + length (leaf ++ print_quantifier q)) ((v || is_variable q) :: below).
Proof.
  intros Hq Hs ->. rewrite at_printed, <- length_app.
  rewrite scan_after_printed by done. cbn [andb]. rewrite orb_false_r. f_equal.
  rewrite !length_app. lia.
Qed.

Lemma scan_char (pre rest : text) c v below :
  c ∉ lit "\[()|*+?{" ->
  scan_from (pre ++ [c] ++ rest) (length pre) (v :: below)
  = scan_after (pre ++ [c] ++ rest) (length pre + 1) (v :: below) false.
Proof.
  intros Hc. rewrite (scan_step _ _ _ c) by apply lookup_suffix_0.
  assert (Hne : forall d, d ∈ lit "\[()|*+?{" -> (c =? d) = false)
    by (intros d Hd; apply Z.eqb_neq; congruence).
  rewrite !Hne; [reflexivity|..]; apply (bool_decide_unpack _); vm_compute; exact I.
Qed.

Lemma scan_escape (pre rest : text) e v below :
  ok_escape e ->
  scan_from (pre ++ print_escape e ++ rest) (length pre) (v :: below)
  = scan_after (pre ++ print_escape e ++ rest) (length pre + length (print_escape e)) (v :: below) false.
Proof.
  intros He. rewrite (scan_step _ _ _ (chr "\")) by (rewrite lookup_suffix_0; destruct e; reflexivity).
  rewrite Z.eqb_refl, escape_end_printed by done. reflexivity.
Qed.

Lemma scan_class (pre rest : text) ms v below :
  ms <> [] -> Forall ok_member ms ->
  let leaf := chr "[" :: print_members ms ++ [chr "]"] in
  scan_from (pre ++ leaf ++ rest) (length pre) (v :: below)
  = scan_after (pre ++ leaf ++ rest) (length pre + length leaf) (v :: below) false.
Proof.
  intros Hne Hms leaf. rewrite (scan_step _ _ _ (chr "[")) by apply lookup_suffix_0.
  change (chr "[" =? chr "\") with false. change (chr "[" =? chr "[") with true. cbv iota zeta.
  rewrite lookup_suffix.
  assert (Hfirst : is_char ((leaf ++ rest) !! 1%nat) (chr "]") = false).
  { unfold leaf. destruct ms as [|m ms]; [done|]. apply Forall_cons in Hms as [Hm _].
    destruct m as [c|c]; [apply is_char_ne, Hm|reflexivity]. }
  rewrite Hfirst.
  pose proof (class_end_printed (pre ++ [chr "["]) rest ms Hms) as Hc.
  rewrite <- app_assoc, length_app in Hc. cbn [app length] in Hc.
  unfold leaf. cbn [app]. rewrite <- app_assoc. cbn [app]. rewrite Hc.
  f_equal. cbn [length]. rewrite length_app. cbn [length]. lia.
Qed.

Lemma scan_open (pre rest : text) o stack :
  ok_opening o -> stops rest = true ->
  scan_from (pre ++ print_opening o ++ rest) (length pre) stack
  = scan_from (pre ++ print_opening o ++ rest) (length pre + length (print_opening o)) (false :: stack).
Proof.
  intros Ho Hs. rewrite (scan_step _ _ _ (chr "(")) by (rewrite lookup_suffix_0; destruct o; reflexivity).
  change (chr "(" =? chr "\") with false. change (chr "(" =? chr "[") with false.
  change (chr "(" =? chr "(") with true. cbv iota.
  rewrite group_start_printed by (done || apply stops_not_lazy, Hs). reflexivity.
Qed.

Lemma scan_close (pre rest : text) variable v below :
  scan_from (pre ++ chr ")" :: rest) (length pre) (variable :: v :: below)
  = scan_after (pre ++ chr ")" :: rest) (length pre + 1) (v :: below) variable.
Proof. rewrite (scan_step _ _ _ (chr ")")) by apply lookup_suffix_0. reflexivity. Qed.

Lemma scan_bar (pre rest : text) v below :
  scan_from (pre ++ chr "|" :: rest) (length pre) (v :: below)
  = scan_from (pre ++ chr "|" :: rest) (length pre + 1) (true :: below).
Proof. rewrite (scan_step _ _ _ (chr "|")) by apply lookup_suffix_0. reflexivity. Qed.

(** What the scan does over a printed part [a] of the pattern: stop with
    [Some true] when [bad], and else go on behind it, with the flag [variable]
    added to the innermost group. *)
Definition scans (a : text) (bad variable : bool) : Prop :=
  forall pre rest v below, stops rest = true ->
  scan_from (pre ++ a ++ rest) (length pre) (v :: below)
  = if bad then Some true
    else scan_from (pre ++ a ++ rest) (length pre + length a) ((v || variable) :: below).

Lemma scans_app a b bad1 bad2 var1 var2 :
  (forall rest, stops rest = true -> stops (b ++ rest) = true) ->
  scans a bad1 var1 -> scans b bad2 var2 -> scans (a ++ b) (bad1 || bad2) (var1 || var2).
Proof.
  intros Hb H1 H2 pre rest v below Hs. rewrite <- app_assoc. rewrite H1 by auto.
  destruct bad1; [done|]. cbn [orb].
  specialize (H2 (pre ++ a) rest (v || var1) below Hs). rewrite <- !app_assoc, length_app in H2.
  rewrite H2, <- orb_assoc, length_app, Nat.add_assoc. reflexivity.
Qed.

Lemma scans_leaf leaf q :
  ok_quantifier q ->
  (forall pre rest v below,
   scan_from (pre ++ leaf ++ rest) (length pre) (v :: below)
   = scan_after (pre ++ leaf ++ rest) (length pre + length leaf) (v :: below) false) ->
  scans (leaf ++ print_quantifier q) false (is_variable q).
Proof.
  intros Hq Hl pre rest v below Hs. rewrite <- app_assoc. apply scan_leaf; [done|done|]. apply Hl.
Qed.

Lemma scans_bar : scans [chr "|"] false true.
Proof. intros pre rest v below _. rewrite orb_true_r. apply scan_bar. Qed.

Lemma scans_group o r q bad variable :
  ok_opening o -> ok_alternatives r -> ok_quantifier q -> scans (print_alternatives r) bad variable ->
  scans ((print_opening o ++ print_alternatives r ++ [chr ")"]) ++ print_quantifier q)
    (bad || (variable && may_repeat q)) (variable || is_variable q).
Proof.
  intros Ho Hr Hq Hscan pre rest v below Hs.
  set (body := print_alternatives r) in *. set (close := chr ")" :: print_quantifier q ++ rest).
  assert (E : (pre ++ ((print_opening o ++ body ++ [chr ")"]) ++ print_quantifier q) ++ rest)
              = pre ++ print_opening o ++ body ++ close)
    by (unfold close; rewrite <- !app_assoc; reflexivity).
  rewrite E. rewrite scan_open by (done || apply stops_alternatives; done).
  rewrite at_printed, <- length_app. rewrite Hscan by done.
  destruct bad; [done|]. cbn [orb].
  rewrite at_printed, <- length_app. unfold close. rewrite scan_close.
  set (front := (pre ++ print_opening o) ++ body).
  pose proof (scan_after_printed (front ++ [chr ")"]) rest q v below variable Hq Hs) as Ha.
  rewrite <- app_assoc, length_app in Ha. cbn [app length] in Ha. rewrite Ha.
  destruct (variable && may_repeat q); [done|]. rewrite orb_assoc. f_equal.
  unfold front. rewrite !length_app. cbn [length]. lia.
Qed.

Lemma tree_scans :
  (forall r, ok_alternatives r -> scans (print_alternatives r) (nested_alternatives r) (variable_alternatives r)) /\
  (forall s, ok_pieces s -> scans (print_pieces s) (nested_pieces s) (variable_pieces s)) /\
  (forall a, ok_atom a -> forall q, ok_quantifier q ->
     scans (print_atom a ++ print_quantifier q) (nested_atom a || (variable_atom a && may_repeat q))
       (variable_atom a || is_variable q)).
Proof.
  apply tree_ind; cbn [print_alternatives print_pieces print_atom nested_alternatives nested_pieces nested_atom
    variable_alternatives variable_pieces variable_atom ok_alternatives ok_pieces ok_atom].
  - auto.
  - intros s IHs r IHr [Hs Hr].
    pose proof (scans_app (print_pieces s) (chr "|" :: print_alternatives r) (nested_pieces s)
      (nested_alternatives r) (variable_pieces s) true) as H. rewrite orb_true_r in H.
    apply H; [done|auto|].
    apply (scans_app [chr "|"] _ false _ true (variable_alternatives r)); [|apply scans_bar|auto].
    intros rest. apply stops_alternatives, Hr.
  - intros _ pre rest v below _. cbn [app length]. rewrite orb_false_r, Nat.add_0_r. reflexivity.
  - intros a IHa q s IHs (Ha & Hq & Hs). rewrite app_assoc.
    apply scans_app; [intros rest; apply stops_pieces, Hs|auto|auto].
  - intros c Hc q Hq. apply scans_leaf; [done|]. intros. apply scan_char, Hc.
  - intros e He q Hq. apply scans_leaf; [done|]. intros. apply scan_escape, He.
  - intros ms [Hne Hms] q Hq. apply scans_leaf; [done|]. intros. apply scan_class; done.
  - intros o r IHr [Ho Hr] q Hq. apply scans_group; auto.
Qed.

(** The nested-repetition check is exact: on every pattern printed from a
    well-formed syntax tree, [hasRepeatedVariableGroup] answers, and answers
    yes precisely when some group that may repeat contains, at any depth, a
    repetition of variable width or an alternation. *)
Theorem repeated_group_check_exact r :
  ok_alternatives r -> hasRepeatedVariableGroup (print_alternatives r) = Some (nested_alternatives r).
Proof.
  intros Hr. destruct tree_scans as [H _]. specialize (H r Hr [] [] false [] eq_refl).
  cbn [app length] in H. rewrite app_nil_r in H. unfold hasRepeatedVariableGroup.
  fold (scan_from (print_alternatives r) 0 [false]). rewrite H.
  destruct (nested_alternatives r); [done|].
  unfold scan_from. cbn [repeated_loop sc_at]. rewrite lookup_ge_None_2 by lia. reflexivity.
Qed.

(** The pattern [(?:a[b]{1,2}\d|c)+$] with its group repeated. *)
Definition sample_tree : alternatives :=
  let body := al_more (pi_cons (at_char (chr "a")) qu_none
                        (pi_cons (at_class [me_char (chr "b")]) (qu_between (lit "1") (lit "2") false)
                        (pi_cons (at_escape (es_char (chr "d"))) qu_none pi_nil)))
                      (al_last (pi_cons (at_char (chr "c")) qu_none pi_nil)) in
  al_last (pi_cons (at_group op_plain body) (qu_plus false) (pi_cons (at_char (chr "$")) qu_none pi_nil)).

Lemma repeated_group_check_exact_witness :
  print_alternatives sample_tree = lit "(?:a[b]{1,2}\d|c)+$" /\
  hasRepeatedVariableGroup (print_alternatives sample_tree) = Some true.
Proof.
  split; [reflexivity|]. rewrite (repeated_group_check_exact sample_tree); [reflexivity|].
  unfold sample_tree, ok_digits. cbn [ok_alternatives ok_pieces ok_atom ok_quantifier ok_escape ok_opening].
  assert (Hchar : forall (c : Z) (set : list Z), bool_decide (c ∉ set) = true -> c ∉ set)
    by (intros c set; apply bool_decide_eq_true_1).
  repeat split; try (apply Hchar; reflexivity); try discriminate; repeat constructor; discriminate.
Defined.
