(* ===== verification/IngestRules.v ===== *)
(** * Ingest rules: the contract

    [packages/domain/src/ingest-rules.ts], the rule language: what a rule may
    say ([IngestRuleSpec]) and [ingestRuleProblems], the list of everything
    wrong with one, whose emptiness the engine takes for validity. The pattern
    checks are those of [IngestRegex]; [accepted_rules] states what an accepted
    rule guarantees the engine. *)

From Stdlib Require Import Ascii String.
From stdpp Require Import prelude list strings.
From Stdlib Require Import ZArith Lia Floats.SpecFloat.
From S2P Require Import Prelude.
From S2P Require Import JsNum.
From S2P Require Import JsString.
From S2P Require Import IngestSha256.
From S2P Require Import IngestRegex.

Open Scope Z_scope.

(** ** Vocabulary *)

(** [INGEST_RULE_LIMITS]. *)
Definition conditionsPerRule : Z := 20.
Definition valuesPerCondition : Z := 100.
Definition valueLength : Z := 1024.
Definition keysPerRule : Z := 32.
Definition patternsPerRule : Z := 10.
Definition scanBytes : Z := 16 * 1024.

Inductive IngestRuleSignal := traces | logs | metrics.
#[export] Instance signal_eq : EqDecision IngestRuleSignal.
Proof. solve_decision. Defined.

Inductive IngestRuleField :=
  | service_name | name | attribute | resource_attribute | body | severity | span_kind | span_status.
#[export] Instance field_eq : EqDecision IngestRuleField.
Proof. solve_decision. Defined.

Inductive IngestRuleOp :=
  | eq_op | neq_op | in_op | not_in_op | prefix_op | contains_op | regex_op | exists_op | not_exists_op
  | lt_op | gte_op.
#[export] Instance op_eq : EqDecision IngestRuleOp.
Proof. solve_decision. Defined.

Record IngestRuleCondition := {
  c_field : IngestRuleField;
  c_key : option text;
  c_op : IngestRuleOp;
  c_value : option text;
  c_values : option (list text);
}.

Inductive IngestRuleDetector := email | credit_card | jwt | api_token | ipv4 | ipv6 | phone | iban.
#[export] Instance detector_eq : EqDecision IngestRuleDetector.
Proof. solve_decision. Defined.

Inductive IngestRuleScope := attributes_scope | resource_scope | events_scope | body_scope.
#[export] Instance scope_eq : EqDecision IngestRuleScope.
Proof. solve_decision. Defined.

Inductive IngestRuleRedactMethod := mask_method | hash_method | remove_method.
#[export] Instance method_eq : EqDecision IngestRuleRedactMethod.
Proof. solve_decision. Defined.

Record IngestRuleRedactAction := {
  a_keys : list text;
  a_detectors : list IngestRuleDetector;
  a_patterns : list text;
  a_scopes : list IngestRuleScope;
  a_method : IngestRuleRedactMethod;
}.

Inductive IngestRuleAction :=
  | drop_action (keepPercent : num)
  | redact_action (action : IngestRuleRedactAction).

Record IngestRuleSpec := {
  s_signals : list IngestRuleSignal;
  s_conditions : list IngestRuleCondition;
  s_action : IngestRuleAction;
}.

(** The literals' own spelling, which the messages quote. *)
Definition signal_name (s : IngestRuleSignal) : text :=
  match s with traces => lit "traces" | logs => lit "logs" | metrics => lit "metrics" end.

Definition field_name (f : IngestRuleField) : text :=
  match f with
  | service_name => lit "service_name" | name => lit "name" | attribute => lit "attribute"
  | resource_attribute => lit "resource_attribute" | body => lit "body" | severity => lit "severity"
  | span_kind => lit "span_kind" | span_status => lit "span_status"
  end.

Definition detector_name (d : IngestRuleDetector) : text :=
  match d with
  | email => lit "email" | credit_card => lit "credit_card" | jwt => lit "jwt" | api_token => lit "api_token"
  | ipv4 => lit "ipv4" | ipv6 => lit "ipv6" | phone => lit "phone" | iban => lit "iban"
  end.

Definition op_name (o : IngestRuleOp) : text :=
  match o with
  | eq_op => lit "eq" | neq_op => lit "neq" | in_op => lit "in" | not_in_op => lit "not_in"
  | prefix_op => lit "prefix" | contains_op => lit "contains" | regex_op => lit "regex"
  | exists_op => lit "exists" | not_exists_op => lit "not_exists" | lt_op => lit "lt" | gte_op => lit "gte"
  end.

Definition SEVERITY_LEVELS : jsmap text Z :=
  [ (lit "trace", 1); (lit "debug", 5); (lit "info", 9); (lit "warn", 13); (lit "error", 17);
    (lit "fatal", 21) ].

Definition SPAN_KINDS : list text :=
  [ lit "unspecified"; lit "internal"; lit "server"; lit "client"; lit "producer"; lit "consumer" ].
Definition SPAN_STATUSES : list text := [ lit "unset"; lit "ok"; lit "error" ].

Definition is_stamp_char (c : Z) : bool :=
  ((97 <=? c) && (c <=? 122)) || is_decimal c || (c =? chr "_").

(** The last test is the pattern of the gateway's stamps: [maple_] and at least
    one lower-case letter, digit or underscore. *)
Definition isProtectedKey (key : text) : bool :=
  bool_decide (key = lit "service.name") || bool_decide (key = lit "org_id") ||
  (starts_with key (lit "maple_") &&
   let rest := drop 6 key in
   negb (bool_decide (rest = [])) && forallb is_stamp_char rest).

(** ** Fields and operators *)

Definition SINGLE_OPS : list IngestRuleOp := [eq_op; neq_op; prefix_op; contains_op; regex_op].
Definition LIST_OPS : list IngestRuleOp := [in_op; not_in_op].
Definition PRESENCE_OPS : list IngestRuleOp := [exists_op; not_exists_op].

Definition FIELD_SIGNALS (f : IngestRuleField) : option (list IngestRuleSignal) :=
  match f with
  | name => Some [traces; metrics]
  | body | severity => Some [logs]
  | span_kind | span_status => Some [traces]
  | _ => None
  end.

Definition FIELD_OPS (f : IngestRuleField) : list IngestRuleOp :=
  match f with
  | service_name | name => SINGLE_OPS ++ LIST_OPS
  | attribute | resource_attribute => SINGLE_OPS ++ LIST_OPS ++ PRESENCE_OPS
  | body => [eq_op; neq_op; prefix_op; contains_op; regex_op]
  | severity => [lt_op; gte_op]
  | span_kind | span_status => LIST_OPS
  end.

Definition all_ops : list IngestRuleOp :=
  [eq_op; neq_op; in_op; not_in_op; prefix_op; contains_op; regex_op; exists_op; not_exists_op; lt_op; gte_op].

Definition opsForField (f : IngestRuleField) : list IngestRuleOp :=
  List.filter (fun o => bool_decide (o ∈ FIELD_OPS f)) all_ops.

Definition signalsForField (f : IngestRuleField) : list IngestRuleSignal :=
  default [traces; logs; metrics] (FIELD_SIGNALS f).

(** [parts.join(separator)]. *)
Fixpoint join_text (separator : text) (parts : list text) : text :=
  match parts with
  | [] => []
  | [p] => p
  | p :: rest => p ++ separator ++ join_text separator rest
  end.

(** ** Numbers *)

(** The integer a number is, when it is one: [Number.isInteger] and [BigInt]. *)
Definition num_integer (n : num) : option Z :=
  match n with
  | S754_zero _ => Some 0
  | S754_finite s m e =>
      let signed z := if s then - z else z in
      if 0 <=? e then Some (signed (Z.pos m * 2 ^ e))
      else if Z.pos m mod 2 ^ (- e) =? 0 then Some (signed (Z.pos m / 2 ^ (- e))) else None
  | _ => None
  end.

Definition is_integer (n : num) : bool := match num_integer n with Some _ => true | None => false end.

(** ** Problems *)

Definition size {A} (l : list A) : Z := Z.of_nat (length l).

Section Problems.
Context `{!RegExpEngine}.

(** The value of [regexProblem], which always answers. *)
Definition regex_problem (pattern : text) : option text := default None (regexProblem pattern).

Definition list_op_problem (condition : IngestRuleCondition) : option text :=
  let field := c_field condition in
  let op := op_name (c_op condition) in
  let values := default [] (c_values condition) in
  if size values =? 0 then Some (op ++ lit " needs at least one value")
  else if valuesPerCondition <? size values then
    Some (op ++ lit " takes at most " ++ digits_text valuesPerCondition ++ lit " values")
  else if existsb (fun value => valueLength <? size value) values then Some (lit "a value is too long")
  else if bool_decide (field = span_kind) && existsb (fun v => negb (bool_decide (v ∈ SPAN_KINDS))) values then
    Some (lit "span_kind values are " ++ join_text (lit ", ") SPAN_KINDS)
  else if bool_decide (field = span_status) && existsb (fun v => negb (bool_decide (v ∈ SPAN_STATUSES))) values then
    Some (lit "span_status values are " ++ join_text (lit ", ") SPAN_STATUSES)
  else match c_value condition with None => None | Some _ => Some (op ++ lit " takes values, not value") end.

Definition conditionProblem (condition : IngestRuleCondition) (signals : list IngestRuleSignal) : option text :=
  let field := c_field condition in
  let op := c_op condition in
  if negb (bool_decide (op ∈ FIELD_OPS field)) then
    Some (field_name field ++ lit " does not support " ++ op_name op)
  else
    let keyed := bool_decide (field = attribute) || bool_decide (field = resource_attribute) in
    if keyed && match c_key condition with None | Some [] => true | _ => false end then
      Some (field_name field ++ lit " needs a key")
    else if negb keyed && bool_decide (is_Some (c_key condition)) then
      Some (field_name field ++ lit " takes no key")
    else if match FIELD_SIGNALS field with
            | None => false
            | Some only => existsb (fun signal => negb (bool_decide (signal ∈ only))) signals
            end then
      Some (field_name field ++ lit " only applies to " ++
            join_text (lit " and ") (List.map signal_name (default [] (FIELD_SIGNALS field))))
    else if bool_decide (op ∈ LIST_OPS) then list_op_problem condition
    else if bool_decide (op ∈ PRESENCE_OPS) then
      match c_value condition, c_values condition with
      | None, None => None
      | _, _ => Some (op_name op ++ lit " takes no value")
      end
    else
      match c_value condition, c_values condition with
      | None, _ => Some (op_name op ++ lit " needs a value")
      | _, Some _ => Some (op_name op ++ lit " takes value, not values")
      | Some value, None =>
          if valueLength <? size value then Some (lit "the value is too long")
          else if bool_decide (field = severity) && negb (map_has value SEVERITY_LEVELS) then
            Some (lit "severity is one of " ++ join_text (lit ", ") (map_keys SEVERITY_LEVELS))
          else if bool_decide (op = regex_op) then regex_problem value
          else None
      end.

(** [if (test) problems.push(message)]. *)
Definition push_if (test : bool) (message : text) : list text := if test then [message] else [].

(** [forEach((item, index) => ...)] that pushes [label index+1: problem]. *)
Definition numbered {A} (label : text) (problem : A -> option text) (items : list A) : list text :=
  List.concat (imap (fun i item =>
    match problem item with
    | None => []
    | Some p => [label ++ lit " " ++ digits_text (Z.of_nat i + 1) ++ lit ": " ++ p]
    end) items).

Definition key_problem (key : text) : list text :=
  if (size key =? 0) || (valueLength <? size key) then [lit "a key is empty or too long"]
  else push_if (isProtectedKey key) (key ++ lit " is used by Maple and cannot be redacted").

(** [new Set(items).size !== items.length]. *)
Definition repeated {A} `{!EqDecision A} (items : list A) : bool := negb (length (dedupe items) =? length items)%nat.

Definition drop_problems (spec : IngestRuleSpec) (keepPercent : num) : list text :=
  push_if (negb (is_integer keepPercent) || num_ltb keepPercent (num_of_Z 0) || num_gtb keepPercent (num_of_Z 100))
          (lit "keep percent is a whole number from 0 to 100") ++
  push_if (size (s_conditions spec) =? 0) (lit "a drop rule needs at least one condition") ++
  push_if (num_gtb keepPercent (num_of_Z 0) && bool_decide (metrics ∈ s_signals spec))
          (lit "metrics can only be dropped entirely (keep 0%)").

Definition redact_problems (spec : IngestRuleSpec) (action : IngestRuleRedactAction) : list text :=
  push_if (size (a_keys action) + size (a_detectors action) + size (a_patterns action) =? 0)
          (lit "redact at least one key, detector or pattern") ++
  push_if (keysPerRule <? size (a_keys action)) (lit "at most " ++ digits_text keysPerRule ++ lit " keys") ++
  List.concat (List.map key_problem (a_keys action)) ++
  push_if (repeated (a_detectors action)) (lit "a detector is listed twice") ++
  push_if (patternsPerRule <? size (a_patterns action))
          (lit "at most " ++ digits_text patternsPerRule ++ lit " patterns") ++
  numbered (lit "pattern") regex_problem (a_patterns action) ++
  push_if (size (a_scopes action) =? 0) (lit "pick at least one place to redact") ++
  push_if (bool_decide (body_scope ∈ a_scopes action) && negb (bool_decide (logs ∈ s_signals spec)))
          (lit "body only applies to logs") ++
  push_if (bool_decide (events_scope ∈ a_scopes action) && negb (bool_decide (traces ∈ s_signals spec)))
          (lit "events only applies to traces").

Definition ingestRuleProblems (spec : IngestRuleSpec) : list text :=
  push_if (size (s_signals spec) =? 0) (lit "pick at least one signal") ++
  push_if (repeated (s_signals spec)) (lit "a signal is listed twice") ++
  push_if (conditionsPerRule <? size (s_conditions spec))
          (lit "at most " ++ digits_text conditionsPerRule ++ lit " conditions") ++
  numbered (lit "condition") (fun condition => conditionProblem condition (s_signals spec)) (s_conditions spec) ++
  match s_action spec with
  | drop_action keepPercent => drop_problems spec keepPercent
  | redact_action action => redact_problems spec action
  end.

End Problems.

(** ** Summaries *)

Definition op_words (o : IngestRuleOp) : text :=
  match o with
  | eq_op => lit "is" | neq_op => lit "is not" | in_op => lit "is one of" | not_in_op => lit "is none of"
  | prefix_op => lit "starts with" | contains_op => lit "contains" | regex_op => lit "matches"
  | exists_op => lit "is set" | not_exists_op => lit "is not set" | lt_op => lit "is below"
  | gte_op => lit "is at least"
  end.

(** [field.replace("_", " ")]: the first underscore. *)
Fixpoint replace_first (c d : Z) (a : text) : text :=
  match a with [] => [] | x :: a' => if x =? c then d :: a' else x :: replace_first c d a' end.

Definition describeCondition (condition : IngestRuleCondition) : text :=
  let subject := match c_key condition with
                 | None => replace_first (chr "_") (chr " ") (field_name (c_field condition))
                 | Some key => key
                 end in
  let operand := match c_values condition with
                 | Some values => join_text (lit ", ") values
                 | None => default [] (c_value condition)
                 end in
  subject ++ lit " " ++ op_words (c_op condition) ++
  (if bool_decide (operand = []) then [] else lit " " ++ operand).

(** [number_to_string] is the language's own printing of a number. *)
Definition summarizeIngestRule (number_to_string : num -> text) (spec : IngestRuleSpec) : text :=
  let where_ :=
    if size (s_conditions spec) =? 0 then []
    else lit " where " ++ join_text (lit " and ") (List.map describeCondition (s_conditions spec)) in
  let signals := join_text (lit " and ") (List.map signal_name (s_signals spec)) in
  match s_action spec with
  | drop_action keepPercent =>
      let keep := if num_gtb keepPercent (num_of_Z 0)
                  then lit " (keep " ++ number_to_string keepPercent ++ lit "%)" else [] in
      lit "Drop " ++ signals ++ where_ ++ keep
  | redact_action action =>
      let targets := join_text (lit ", ")
        (a_keys action ++ List.map detector_name (a_detectors action) ++
         List.map (fun pattern => lit "/" ++ pattern ++ lit "/") (a_patterns action)) in
      (match a_method action with
       | hash_method => lit "Hash" | remove_method => lit "Remove" | mask_method => lit "Mask"
       end) ++ lit " " ++ targets ++ lit " in " ++ signals ++ where_
  end.

(** ** What acceptance means *)

(** A double: every number of the language is one. *)
Definition js_number (n : num) : Prop := valid_binary num_prec num_emax n = true.

Lemma digits2_pos_bound m : Z.pos m < 2 ^ Z.pos (digits2_pos m).
Proof.
  induction m as [m IH|m IH|]; cbn [digits2_pos]; [| |reflexivity];
    rewrite Pos2Z.inj_succ, Z.pow_succ_r by lia; lia.
Qed.

Lemma keep_percent_range k n :
  js_number k -> num_integer k = Some n ->
  num_ltb k (num_of_Z 0) = false -> num_gtb k (num_of_Z 100) = false -> 0 <= n <= 100.
Proof.
  unfold js_number, num_ltb, num_gtb, SFltb. intros Hv Hn Hlo Hhi.
  destruct k as [s|s| |s m e]; cbn [num_integer] in Hn; try discriminate; [injection Hn as <-; lia|].
  destruct s; [discriminate Hlo|].
  assert (Hm : Z.pos m < 2 ^ 53).
  { cbn [valid_binary] in Hv. unfold bounded in Hv. apply andb_true_iff in Hv as [Hc _].
    unfold canonical_mantissa in Hc. apply Zeq_bool_eq in Hc. unfold fexp, num_prec in Hc.
    apply Z.lt_le_trans with (2 ^ Z.pos (digits2_pos m)); [apply digits2_pos_bound|].
    apply Z.pow_le_mono_r; lia. }
  assert (Hcmp : e < -46 \/ e = -46 /\ Z.pos m <= 100 * 2 ^ 46).
  { change (num_of_Z 100) with (S754_finite false 7036874417766400 (-46)) in Hhi.
    cbn [SFcompare] in Hhi. destruct (Z.compare_spec (-46) e) as [<-|Hlt|Hgt]; [|discriminate|lia].
    right. split; [done|]. change (PosDef.Pos.compare_cont Eq ?a ?b) with (Z.compare (Z.pos a) (Z.pos b)) in Hhi.
    change (100 * 2 ^ 46) with 7036874417766400.
    apply Z.le_ngt. intros Hgt%Z.compare_lt_iff. rewrite Hgt in Hhi. discriminate Hhi. }
  destruct (Z.leb_spec 0 e); [lia|].
  destruct (Z.eqb_spec (Z.pos m mod 2 ^ (- e)) 0); [|discriminate]. injection Hn as <-.
  split; [apply Z.div_pos; lia|].
  destruct Hcmp as [He|[-> Hle]].
  - apply Z.div_le_upper_bound; [lia|].
    apply Z.le_trans with (2 ^ 47 * 100); [lia|]. apply Z.mul_le_mono_nonneg_r; [lia|].
    apply Z.pow_le_mono_r; lia.
  - change (2 ^ - -46) with (2 ^ 46). apply Z.div_le_upper_bound; lia.
Qed.

Lemma push_if_nil test message : push_if test message = [] -> test = false.
Proof. destruct test; [discriminate|done]. Qed.

Lemma numbered_nil {A} label (problem : A -> option text) items :
  numbered label problem items = [] -> Forall (fun item => problem item = None) items.
Proof.
  unfold numbered. intros H. apply Forall_lookup_2. intros i x Hx.
  destruct (problem x) as [p|] eqn:E; [exfalso|done].
  set (message := label ++ lit " " ++ digits_text (Z.of_nat i + 1) ++ lit ": " ++ p).
  assert (Hin : List.In message
    (List.concat (imap (fun i item => match problem item with
       | None => [] | Some p => [label ++ lit " " ++ digits_text (Z.of_nat i + 1) ++ lit ": " ++ p] end) items))).
  { apply in_concat. exists [message]. split; [|left; reflexivity].
    apply list_elem_of_In, list_elem_of_lookup. exists i.
    rewrite list_lookup_imap, Hx. cbn. rewrite E. reflexivity. }
  rewrite H in Hin. destruct Hin.
Qed.

Lemma concat_map_nil {A B} (f : A -> list B) l : List.concat (List.map f l) = [] -> Forall (fun x => f x = []) l.
Proof.
  induction l as [|x l IH]; cbn; [constructor|]. intros [H1 H2]%app_eq_nil. constructor; auto.
Qed.

Lemma repeated_false {A} `{!EqDecision A} (items : list A) : repeated items = false -> NoDup items.
Proof. unfold repeated. intros H%negb_false_iff%Nat.eqb_eq. apply dedupe_length_NoDup, H. Qed.

Lemma size_nil {A} (l : list A) : (size l =? 0) = false -> l <> [].
Proof. intros H ->. discriminate H. Qed.

Section Acceptance.
Context `{!RegExpEngine}.

(** The engine can evaluate the condition on every signal of its rule. *)
Definition usable (signals : list IngestRuleSignal) (c : IngestRuleCondition) : Prop :=
  c_op c ∈ FIELD_OPS (c_field c) /\
  (forall s, s ∈ signals -> s ∈ signalsForField (c_field c)) /\
  (c_field c = attribute \/ c_field c = resource_attribute -> exists key, c_key c = Some key /\ key <> []) /\
  (c_field c = severity -> exists v, c_value c = Some v /\ v ∈ map_keys SEVERITY_LEVELS) /\
  (c_op c ∈ LIST_OPS -> default [] (c_values c) <> []) /\
  (c_op c = regex_op -> exists v, c_value c = Some v /\ regex_problem v = None).

Lemma list_op_accepted c : list_op_problem c = None -> default [] (c_values c) <> [].
Proof.
  unfold list_op_problem. destruct (size (default [] (c_values c)) =? 0) eqn:E; [discriminate|].
  intros _. apply size_nil, E.
Qed.

Lemma condition_accepted c signals : conditionProblem c signals = None -> usable signals c.
Proof.
  unfold conditionProblem. destruct c as [field key op value values]. cbn [c_field c_key c_op c_value c_values].
  case_bool_decide as Hop; [|discriminate]. cbn [negb].
  set (keyed := bool_decide (field = attribute) || bool_decide (field = resource_attribute)).
  destruct (keyed && _) eqn:Hkey; [discriminate|].
  destruct (negb keyed && _); [discriminate|].
  destruct (match FIELD_SIGNALS field with None => false | Some only => _ end) eqn:Hsig; [discriminate|].
  intros Hp.
  assert (Hsignals : forall s, s ∈ signals -> s ∈ signalsForField field).
  { intros s Hs. unfold signalsForField. destruct (FIELD_SIGNALS field) as [only|]; cbn [default].
    - pose proof (existsb_false _ _ _ Hsig Hs) as H'. apply negb_false_iff, bool_decide_eq_true in H'. exact H'.
    - destruct s; rewrite !elem_of_cons; auto. }
  unfold usable. cbn [c_field c_key c_op c_value c_values]. split; [done|]. split; [done|].
  split; [|].
  - intros Hf. destruct key as [[|x key]|]; [exfalso|eexists; split; [reflexivity|discriminate]|exfalso];
      unfold keyed in Hkey; destruct Hf as [-> | ->]; discriminate Hkey.
  - case_bool_decide as Hlist.
    { apply list_op_accepted in Hp. cbn in Hp. split; [|split; [done|]].
      - intros ->. exfalso. unfold LIST_OPS in Hlist. cbn in Hop. rewrite !elem_of_cons in Hlist, Hop.
        destruct Hop as [->|[->|Hop]]; [| |inversion Hop]; destruct Hlist as [?|[?|Hl]]; try discriminate; inversion Hl.
      - intros ->. exfalso. unfold LIST_OPS in Hlist. rewrite !elem_of_cons in Hlist.
        destruct Hlist as [?|[?|Hl]]; try discriminate; inversion Hl. }
    case_bool_decide as Hpres.
    { split; [|split; [done|]].
      - intros ->. exfalso. unfold PRESENCE_OPS in Hpres. cbn in Hop. rewrite !elem_of_cons in Hpres, Hop.
        destruct Hop as [->|[->|Hop]]; [| |inversion Hop]; destruct Hpres as [?|[?|Hl]]; try discriminate; inversion Hl.
      - intros ->. exfalso. unfold PRESENCE_OPS in Hpres. rewrite !elem_of_cons in Hpres.
        destruct Hpres as [?|[?|Hl]]; try discriminate; inversion Hl. }
    destruct value as [value|]; [|discriminate]. destruct values; [discriminate|].
    destruct (valueLength <? size value); [discriminate|].
    destruct (bool_decide (field = severity) && _) eqn:Hsev; [discriminate|].
    split; [|split; [done|]].
    + intros ->. exists value. split; [done|]. cbn [andb] in Hsev.
      rewrite bool_decide_eq_true_2 in Hsev by done. apply negb_false_iff, bool_decide_eq_true in Hsev.
      apply map_get_Some_keys, Hsev.
    + intros ->. exists value. split; [done|]. rewrite bool_decide_eq_true_2 in Hp by done. exact Hp.
Qed.

(** What the validator promises of the action. *)
Definition action_accepted (spec : IngestRuleSpec) : Prop :=
  match s_action spec with
  | drop_action keepPercent =>
      exists n, num_integer keepPercent = Some n /\ 0 <= n <= 100 /\ s_conditions spec <> [] /\
                (metrics ∈ s_signals spec -> n = 0)
  | redact_action action =>
      ~ (a_keys action = [] /\ a_detectors action = [] /\ a_patterns action = []) /\
      Forall (fun key => key <> [] /\ isProtectedKey key = false) (a_keys action) /\
      NoDup (a_detectors action) /\
      Forall (fun pattern => regex_problem pattern = None) (a_patterns action) /\
      a_scopes action <> [] /\
      (body_scope ∈ a_scopes action -> logs ∈ s_signals spec) /\
      (events_scope ∈ a_scopes action -> traces ∈ s_signals spec)
  end.

Lemma drop_accepted spec keepPercent :
  js_number keepPercent -> drop_problems spec keepPercent = [] ->
  exists n, num_integer keepPercent = Some n /\ 0 <= n <= 100 /\ s_conditions spec <> [] /\
            (metrics ∈ s_signals spec -> n = 0).
Proof.
  intros Hn [H1 [H2 H3]%app_eq_nil]%app_eq_nil.
  apply push_if_nil in H1, H2, H3. apply orb_false_iff in H1 as [H1 Hhi]. apply orb_false_iff in H1 as [Hi Hlo].
  unfold is_integer in Hi. destruct (num_integer keepPercent) as [n|] eqn:E; [|discriminate].
  exists n. split; [done|]. split; [eapply keep_percent_range; done|]. split; [apply size_nil, H2|].
  intros Hm. rewrite bool_decide_eq_true_2, andb_true_r in H3 by done.
  unfold num_ltb, num_gtb, SFltb in *. cbn in Hlo, H3.
  destruct keepPercent as [s|s| |s m e]; cbn [num_integer] in E; try discriminate; [injection E as <-; done|].
  destruct s; [discriminate Hlo|discriminate H3].
Qed.

Lemma scope_accepted scope signal (scopes : list IngestRuleScope) (signals : list IngestRuleSignal) :
  bool_decide (scope ∈ scopes) && negb (bool_decide (signal ∈ signals)) = false ->
  scope ∈ scopes -> signal ∈ signals.
Proof.
  intros Ht Hs. rewrite bool_decide_eq_true_2 in Ht by done.
  apply negb_false_iff, bool_decide_eq_true in Ht. exact Ht.
Qed.

Lemma redact_accepted spec action :
  redact_problems spec action = [] ->
  ~ (a_keys action = [] /\ a_detectors action = [] /\ a_patterns action = []) /\
  Forall (fun key => key <> [] /\ isProtectedKey key = false) (a_keys action) /\
  NoDup (a_detectors action) /\
  Forall (fun pattern => regex_problem pattern = None) (a_patterns action) /\
  a_scopes action <> [] /\
  (body_scope ∈ a_scopes action -> logs ∈ s_signals spec) /\
  (events_scope ∈ a_scopes action -> traces ∈ s_signals spec).
Proof.
  unfold redact_problems.
  intros [H1 [H2 [H3 [H4 [H5 [H6 [H7 [H8 H9]%app_eq_nil]%app_eq_nil]%app_eq_nil]%app_eq_nil]
    %app_eq_nil]%app_eq_nil]%app_eq_nil]%app_eq_nil.
  apply push_if_nil in H1, H2, H4, H5, H7, H8, H9.
  split; [intros (Ek & Ed & Ep); rewrite Ek, Ed, Ep in H1; discriminate H1|].
  split.
  { apply concat_map_nil in H3. eapply Forall_impl; [exact H3|]. intros key Hk. cbv beta in Hk. unfold key_problem in Hk.
    destruct (_ || _) eqn:Es; [discriminate|]. apply orb_false_iff in Es as [Es _].
    split; [apply size_nil, Es|apply push_if_nil in Hk; exact Hk]. }
  split; [apply repeated_false, H4|]. split; [apply numbered_nil in H6; exact H6|].
  split; [apply size_nil, H7|]. split; eapply scope_accepted; eassumption.
Qed.

(** A rule without problems is one the engines can run: it names each of
    its signals once, every condition's operator fits its field and every
    field exists on every signal, its operand is there, a drop keeps a whole
    percentage (zero for metrics) of what at least one condition selects, and
    a redaction names something to redact, no protected key and only patterns
    the validator accepts, in places its signals have. *)
Theorem accepted_rules spec :
  (forall k, s_action spec = drop_action k -> js_number k) -> ingestRuleProblems spec = [] ->
  s_signals spec <> [] /\ NoDup (s_signals spec) /\ size (s_conditions spec) <= conditionsPerRule /\
  Forall (usable (s_signals spec)) (s_conditions spec) /\ action_accepted spec.
Proof.
  intros Hn [H1 [H2 [H3 [H4 H5]%app_eq_nil]%app_eq_nil]%app_eq_nil]%app_eq_nil.
  apply push_if_nil in H1, H2, H3.
  split; [apply size_nil, H1|]. split; [apply repeated_false, H2|]. split; [lia|].
  split.
  - apply numbered_nil in H4. eapply Forall_impl; [exact H4|]. intros c. apply condition_accepted.
  - unfold action_accepted. destruct (s_action spec) as [k|action] eqn:E.
    + apply drop_accepted; auto.
    + apply redact_accepted, H5.
Qed.

End Acceptance.

(** An engine that compiles nothing. *)
Definition no_engine : RegExpEngine :=
  {| regexp := unit; new_RegExp _ _ := None; regexp_test _ _ := false; regexp_exec _ _ _ := None |}.

(** Keep a tenth of the debug logs. *)
Definition sample_drop : IngestRuleSpec :=
  {| s_signals := [logs];
     s_conditions := [{| c_field := severity; c_key := None; c_op := lt_op; c_value := Some (lit "info");
                         c_values := None |}];
     s_action := drop_action (num_of_Z 10) |}.

Lemma accepted_rules_witness :
  s_signals sample_drop <> [] /\ NoDup (s_signals sample_drop) /\
  size (s_conditions sample_drop) <= conditionsPerRule /\
  Forall (@usable no_engine (s_signals sample_drop)) (s_conditions sample_drop) /\
  @action_accepted no_engine sample_drop.
Proof.
  apply (@accepted_rules no_engine); [|vm_compute; reflexivity].
  intros k [= <-]. vm_compute. reflexivity.
Defined.
