(* ===== verification/IngestDetectors.v ===== *)
(** * Detectors

    [packages/ingest-rules/src/detectors.ts]: the built-in patterns for
    sensitive text, the checks a candidate must pass ([luhn], [ibanValid],
    word boundaries), and [findAll], the loop that collects the accepted
    matches. Positions are UTF-16 indices.

    - [find_all_spans]: on an engine that never matches before [lastIndex], the
      loop ends, and the spans it returns are matches, accepted, and disjoint.
    - [boundary_pattern_hangs]: on an engine that steps back to the start of a
      surrogate pair, a pattern the validator accepts makes it run for ever.
    - [luhn_single_digit], [iban_remainder]: the checksums. *)

From Stdlib Require Import Ascii String.
From stdpp Require Import prelude list strings.
From Stdlib Require Import ZArith Lia.
From S2P Require Import Prelude.
From S2P Require Import JsString.
From S2P Require Import IngestSha256.
From S2P Require Import IngestRegex.
From S2P Require Import IngestRules.

Open Scope Z_scope.

(** [text[start - 1]]. *)
Definition char_before (t : text) (start : nat) : option Z :=
  match start with O => None | S i => t !! i end.

Definition isAsciiAlnum (char : option Z) : bool :=
  match char with None => false | Some c => is_letter c || is_decimal c end.

Definition isDigit (char : option Z) : bool :=
  match char with None => false | Some c => is_decimal c end.

Definition bounded (t : text) (start end_ : nat) : bool :=
  negb (isAsciiAlnum (char_before t start)) && negb (isAsciiAlnum (t !! end_)).

(** [match.replace(/[^0-9]/g, "")]. *)
Definition digitsOf (match_ : text) : text := List.filter is_decimal match_.

(** ** Checksums *)

(** What the digit at [index] from the right adds to the total. *)
Definition luhn_term (index : nat) (digit : Z) : Z :=
  let doubled := if Nat.odd index then digit * 2 else digit in
  if 9 <? doubled then doubled - 9 else doubled.

Definition luhn (digits : text) : bool :=
  let sum := foldl (fun '(total, index) char => (total + luhn_term index (char - 48), S index))
                   (0, 0%nat) (reverse digits) in
  fst sum mod 10 =? 0.

(** [Number(digit)] for one character of a decimal spelling: [None] is [NaN]. *)
Definition digit_number (digit : Z) : option Z := if is_decimal digit then Some (digit - 48) else None.

(** The inner reduction of [ibanValid]. *)
Definition iban_digits (acc : option Z) (code : text) : option Z :=
  foldl (fun inner digit =>
    match inner, digit_number digit with
    | Some i, Some d => Some ((i * 10 + d) mod 97)
    | _, _ => None
    end) acc code.

Definition iban_code (char : Z) : text := if is_decimal char then [char] else digits_text (char - 55).

(** Characters above the basic plane, which no candidate has, would be one
    step of the reduction in the code and are two here. *)
Definition ibanValid (raw : text) : bool :=
  let compact := List.filter (fun c => negb (c =? chr " ")) raw in
  let rotated := drop 4 compact ++ take 4 compact in
  match foldl (fun acc char => iban_digits acc (iban_code char)) (Some 0) rotated with
  | Some remainder => remainder =? 1
  | None => false
  end.

(** [match.split(separator).length - 1]: occurrences that do not overlap. *)
Fixpoint occurrences (fuel : nat) (separator t : text) : Z :=
  match fuel, t with
  | S fuel', _ :: t' =>
      if starts_with t separator then 1 + occurrences fuel' separator (drop (length separator) t)
      else occurrences fuel' separator t'
  | _, _ => 0
  end.

Definition is_hex (c : Z) : bool :=
  is_decimal c || ((65 <=? c) && (c <=? 70)) || ((97 <=? c) && (c <=? 102)).

Definition isIpv6Address (match_ : text) : bool :=
  let colons := occurrences (length match_) (lit ":") match_ in
  let doubles := occurrences (length match_) (lit "::") match_ in
  if negb (existsb is_hex match_) then false
  else if doubles =? 1 then colons <=? 7
  else (doubles =? 0) && (colons =? 7).

(** ** The table *)

Definition OCTET : text := lit "(?:25[0-5]|2[0-4][0-9]|1[0-9]{2}|[1-9]?[0-9])".

Definition detector_source (d : IngestRuleDetector) : text :=
  match d with
  | email => lit "[A-Za-z0-9._%+-]{1,64}@[A-Za-z0-9-]{1,63}(?:\.[A-Za-z0-9-]{1,63}){0,8}\.[A-Za-z]{2,24}"
  | credit_card => lit "[0-9](?:[ -]?[0-9]){12,18}"
  | jwt => lit "eyJ[A-Za-z0-9_-]+\.eyJ[A-Za-z0-9_-]+\.[A-Za-z0-9_-]*"
  | api_token => lit "(?:sk|pk|rk)_(?:live|test)_[A-Za-z0-9]{10,}|gh[pousr]_[A-Za-z0-9]{36,}|github_pat_[A-Za-z0-9_]{22,}|xox[abprs]-[A-Za-z0-9-]{10,}|AKIA[0-9A-Z]{16}|AIza[0-9A-Za-z_-]{35}|glpat-[A-Za-z0-9_-]{20,}|sk-[A-Za-z0-9_-]{20,}|[Bb]earer [A-Za-z0-9._~+/=-]{8,}"
  | ipv4 => lit "(?:" ++ OCTET ++ lit "\.){3}" ++ OCTET
  | ipv6 => lit "[0-9A-Fa-f]{0,4}(?::[0-9A-Fa-f]{0,4}){2,7}"
  | phone => lit "\+[0-9][0-9 ().-]{6,18}[0-9]|\(?[0-9]{3}\)?[ .-][0-9]{3}[ .-][0-9]{4}"
  | iban => lit "[A-Z]{2}[0-9]{2}(?: ?[A-Z0-9]{4}){2,7}(?: ?[A-Z0-9]{1,3})?"
  end.

Definition accept (d : IngestRuleDetector) (t : text) (start end_ : nat) : bool :=
  match d with
  | email | jwt => true
  | credit_card =>
      let digits := digitsOf (slice t start end_) in
      bounded t start end_ && (13 <=? size digits) && (size digits <=? 19) && luhn digits
  | api_token => bounded t start end_
  | ipv4 =>
      bounded t start end_ && negb (is_char (char_before t start) (chr ".")) &&
      negb (is_char (t !! end_) (chr ".") && isDigit (t !! (end_ + 1)%nat))
  | ipv6 =>
      bounded t start end_ && negb (is_char (char_before t start) (chr ":")) &&
      negb (is_char (t !! end_) (chr ":")) && isIpv6Address (slice t start end_)
  | phone =>
      let digits := size (digitsOf (slice t start end_)) in
      bounded t start end_ && (10 <=? digits) && (digits <=? 15)
  | iban => bounded t start end_ && ibanValid (slice t start end_)
  end.

(** ** Matches *)

Record Span := { sp_start : nat; sp_end : nat }.

Section Find.
Context `{!RegExpEngine}.

(** The loop of [findAll], from a [lastIndex]. *)
Fixpoint find_loop (fuel : nat) (regex : regexp) (t : text) (accepts : text -> nat -> nat -> bool)
    (spans : list Span) (lastIndex : nat) : option (list Span) :=
  match fuel with
  | O => None
  | S fuel' =>
      match regexp_exec regex t lastIndex with
      | None => Some spans
      | Some (start, n) =>
          let end_ := (start + n)%nat in
          if (end_ =? start)%nat then find_loop fuel' regex t accepts spans (start + 1)
          else if accepts t start end_ then
            find_loop fuel' regex t accepts (spans ++ [{| sp_start := start; sp_end := end_ |}]) end_
          else find_loop fuel' regex t accepts spans (start + 1)
      end
  end.

Definition findAll (regex : regexp) (t : text) (accepts : text -> nat -> nat -> bool) : option (list Span) :=
  find_loop (length t + 2) regex t accepts [] 0.

(** The engine never matches before [lastIndex], nor past the text. *)
Definition forward (regex : regexp) : Prop :=
  forall t i start n, regexp_exec regex t i = Some (start, n) -> (i <= start /\ start + n <= length t)%nat.

(** Consecutive spans of a text from [from]: in order, disjoint, not empty. *)
Fixpoint separate (from limit : nat) (spans : list Span) : Prop :=
  match spans with
  | [] => True
  | s :: rest => (from <= sp_start s < sp_end s /\ sp_end s <= limit)%nat /\ separate (sp_end s) limit rest
  end.

(** The span is a match of the engine that the check accepts. *)
Definition accepted_match (regex : regexp) (t : text) (accepts : text -> nat -> nat -> bool) (s : Span) : Prop :=
  (exists i, regexp_exec regex t i = Some (sp_start s, sp_end s - sp_start s)%nat) /\
  accepts t (sp_start s) (sp_end s) = true.

Lemma separate_snoc from limit spans s :
  separate from limit spans -> (forall s', last spans = Some s' -> (sp_end s' <= sp_start s)%nat) ->
  (from <= sp_start s < sp_end s /\ sp_end s <= limit)%nat -> separate from limit (spans ++ [s]).
Proof.
  revert from. induction spans as [|s' spans IH]; intros from Hsep Hlast Hs; cbn [app separate] in *; [tauto|].
  destruct Hsep as [H1 H2]. split; [done|]. destruct spans as [|s'' spans].
  - cbn. specialize (Hlast s' eq_refl). split; [lia|done].
  - apply IH; [done|exact Hlast|].
    assert (sp_end s' <= sp_start s)%nat; [|lia].
    assert (Hl : exists z, last (s'' :: spans) = Some z /\ (sp_end s' <= sp_end z)%nat).
    { clear -H2. revert s' s'' H2. induction spans as [|y spans IH]; intros s' s'' H.
      - cbn in *. eexists. split; [reflexivity|lia].
      - cbn [separate] in H. destruct H as [Ha [Hb Hc]].
        destruct (IH s'' y) as (z & Hz & Hle); [cbn; tauto|]. exists z. split; [exact Hz|lia]. }
    destruct Hl as (z & Hz & Hle). specialize (Hlast z Hz). lia.
Qed.

(** The search is leftmost: starting it later, but not behind the match it
    found, finds the same match, and a failed search stays failed. *)
Definition leftmost (regex : regexp) : Prop :=
  forall t i j,
    (forall start n, regexp_exec regex t i = Some (start, n) -> (i <= j <= start)%nat ->
       regexp_exec regex t j = Some (start, n)) /\
    (regexp_exec regex t i = None -> (i <= j)%nat -> regexp_exec regex t j = None).

(** A match some search finds, not empty, that the check accepts. *)
Definition candidate (regex : regexp) (t : text) (accepts : text -> nat -> nat -> bool) (start : nat) : Prop :=
  exists i n, regexp_exec regex t i = Some (start, n) /\ (0 < n)%nat /\ accepts t start (start + n)%nat = true.

Definition covered (spans : list Span) (i : nat) : Prop :=
  exists s, s ∈ spans /\ (sp_start s <= i < sp_end s)%nat.

(** The spans collected when the search resumes at [lastIndex]. *)
Record found (regex : regexp) (t : text) (accepts : text -> nat -> nat -> bool) (spans : list Span)
    (lastIndex : nat) : Prop := {
  fd_separate : separate 0 (length t) spans;
  fd_last : forall s, last spans = Some s -> (sp_end s <= lastIndex)%nat;
  fd_accepted : Forall (accepted_match regex t accepts) spans;
  fd_complete : leftmost regex -> forall s, candidate regex t accepts s -> (s < lastIndex)%nat -> covered spans s;
}.

(** No candidate starts before the match the search returns. *)
Lemma next_candidate regex t accepts i start n s :
  forward regex -> leftmost regex -> regexp_exec regex t i = Some (start, n) ->
  candidate regex t accepts s -> (i <= s <= start)%nat ->
  s = start /\ (0 < n)%nat /\ accepts t start (start + n)%nat = true.
Proof.
  intros Hfw Hl E (j & m & Ej & Hm & Ha) Hs.
  destruct (Hfw _ _ _ _ Ej) as [Hj _]. destruct (Hl t j s) as [Hl1 _].
  specialize (Hl1 s m Ej ltac:(lia)). destruct (Hl t i s) as [Hl2 _].
  specialize (Hl2 start n E Hs). rewrite Hl1 in Hl2. injection Hl2 as <- <-. auto.
Qed.

Lemma found_skip regex t accepts spans i start n :
  forward regex -> regexp_exec regex t i = Some (start, n) -> found regex t accepts spans i ->
  (n = 0%nat \/ accepts t start (start + n)%nat = false) -> found regex t accepts spans (start + 1).
Proof.
  intros Hfw E [H1 H2 H3 H4] Hno. destruct (Hfw _ _ _ _ E) as [Hi _]. split; [done| |done|].
  - intros s Hs. specialize (H2 s Hs). lia.
  - intros Hl s Hc Hs. destruct (Nat.lt_ge_cases s i); [auto|].
    destruct (next_candidate regex t accepts i start n s Hfw Hl E Hc ltac:(lia)) as (_ & Hn & Ha).
    destruct Hno; [lia|congruence].
Qed.

Lemma found_push regex t accepts spans i start n :
  forward regex -> regexp_exec regex t i = Some (start, n) -> found regex t accepts spans i ->
  (0 < n)%nat -> accepts t start (start + n)%nat = true ->
  found regex t accepts (spans ++ [{| sp_start := start; sp_end := (start + n)%nat |}]) (start + n).
Proof.
  intros Hfw E [H1 H2 H3 H4] Hn Ha. destruct (Hfw _ _ _ _ E) as [Hi Hle]. split.
  - apply separate_snoc; [done| |cbn; lia]. intros s' Hs'. specialize (H2 s' Hs'). cbn. lia.
  - intros s' Hs'. rewrite last_snoc in Hs'. injection Hs' as <-. reflexivity.
  - apply Forall_app. split; [done|]. constructor; [|constructor].
    split; [exists i; cbn; rewrite E; do 2 f_equal; lia|exact Ha].
  - intros Hl s Hc Hs. destruct (Nat.lt_ge_cases s i) as [Hlt|Hge].
    + destruct (H4 Hl s Hc Hlt) as (sp & Hsp & Hin). exists sp. split; [apply elem_of_app; auto|done].
    + eexists. split; [apply elem_of_app; right; apply list_elem_of_here|]. cbn.
      destruct (Nat.le_gt_cases s start); [|lia].
      destruct (next_candidate regex t accepts i start n s Hfw Hl E Hc ltac:(lia)) as (-> & _ & _). lia.
Qed.

Lemma separate_last from limit spans s : separate from limit spans -> last spans = Some s -> (sp_end s <= limit)%nat.
Proof.
  intros Hsep Hs%last_Some_elem_of. revert from Hsep.
  induction Hs as [s l|s x l _ IH]; intros from; cbn [separate]; [lia|]. intros [_ Hrest]. eauto.
Qed.

Lemma find_loop_spec regex t accepts fuel spans i :
  forward regex -> (length t + 1 - i < fuel)%nat -> found regex t accepts spans i ->
  exists out, find_loop fuel regex t accepts spans i = Some out /\ found regex t accepts out (S (length t)).
Proof.
  intros Hfw. revert spans i. induction fuel as [|fuel IH]; intros spans i Hf Hfound; [lia|].
  cbn [find_loop]. destruct (regexp_exec regex t i) as [[start n]|] eqn:E.
  - destruct (Hfw _ _ _ _ E) as [H1 H2].
    destruct (Nat.eqb_spec (start + n) start);
      [apply IH; [lia|]; eapply found_skip; eauto; left; lia|].
    destruct (accepts t start (start + n)%nat) eqn:Ea.
    + apply IH; [lia|]. eapply found_push; eauto. lia.
    + apply IH; [lia|]. eapply found_skip; eauto.
  - exists spans. split; [done|]. destruct Hfound as [F1 F2 F3 F4]. split; [done| |done|].
    + intros s Hs. pose proof (separate_last _ _ _ _ F1 Hs). lia.
    + intros Hl s Hc _. destruct (Nat.lt_ge_cases s i); [auto|]. exfalso.
      destruct Hc as (k & m & Ek & _). destruct (Hfw _ _ _ _ Ek) as [Hk _].
      destruct (Hl t k s) as [Hl1 _]. specialize (Hl1 s m Ek ltac:(lia)).
      destruct (Hl t i s) as [_ Hl2]. rewrite Hl2 in Hl1 by (done || lia). discriminate.
Qed.

Lemma findAll_spec regex t accepts :
  forward regex ->
  exists spans, findAll regex t accepts = Some spans /\ separate 0 (length t) spans /\
                Forall (accepted_match regex t accepts) spans /\
                (leftmost regex -> forall s, candidate regex t accepts s -> covered spans s).
Proof.
  intros Hfw. destruct (find_loop_spec regex t accepts (length t + 2) [] 0 Hfw) as (out & E & [F1 F2 F3 F4]).
  - lia.
  - split; [done|discriminate|constructor|]. intros _ s _ Hs. lia.
  - exists out. split; [exact E|]. split; [done|]. split; [done|].
    intros Hl s Hc. apply F4; [done|done|]. destruct Hc as (k & m & Ek & _). destruct (Hfw _ _ _ _ Ek). lia.
Qed.

(** On an engine that searches leftmost and forward, [findAll] ends and
    is exact: its spans are matches the check accepts, in order, disjoint and
    inside the text, and every accepted match starts inside one of them. *)
Theorem find_all_exact regex t accepts :
  forward regex -> leftmost regex ->
  exists spans, findAll regex t accepts = Some spans /\ separate 0 (length t) spans /\
                Forall (accepted_match regex t accepts) spans /\
                (forall s, candidate regex t accepts s -> covered spans s).
Proof.
  intros Hfw Hl. destruct (findAll_spec regex t accepts Hfw) as (spans & E & H1 & H2 & H3). eauto 6.
Qed.

End Find.

(** ** Engines *)

(** Searches for one character, the first of its source. *)
Definition char_engine : RegExpEngine :=
  {| regexp := Z;
     new_RegExp source _ := head source;
     regexp_test c t := bool_decide (c ∈ t);
     regexp_exec c t i := option_map (fun k => (k, 1%nat)) (index_of c t i) |}.

Lemma index_of_Some c t i k :
  index_of c t i = Some k <->
  (i <= k)%nat /\ t !! k = Some c /\ forall j, (i <= j < k)%nat -> t !! j <> Some c.
Proof.
  revert i k. induction t as [|x t IH]; intros i k; cbn [index_of].
  { split; [destruct i; discriminate|]. intros (_ & Hk & _). rewrite lookup_nil in Hk. discriminate. }
  assert (Hrec : forall i', option_map S (index_of c t i') = Some k <->
    exists k', k = S k' /\ (i' <= k')%nat /\ t !! k' = Some c /\ forall j, (i' <= j < k')%nat -> t !! j <> Some c).
  { intros i'. split.
    - destruct (index_of c t i') as [k'|] eqn:E; [|discriminate]. intros [= <-]. exists k'.
      split; [done|]. apply IH, E.
    - intros (k' & -> & Hk'). apply IH in Hk'. rewrite Hk'. reflexivity. }
  destruct i as [|i].
  - destruct (Z.eqb_spec x c) as [->|Hne].
    + split.
      * intros [= <-]. split; [lia|]. split; [done|]. lia.
      * intros (_ & Hk & Hj). destruct k as [|k]; [done|]. exfalso. apply (Hj 0%nat); [lia|done].
    + rewrite Hrec. split.
      * intros (k' & -> & _ & Hk & Hj). split; [lia|]. split; [done|]. intros [|j] Hjk; [cbn; congruence|].
        apply Hj. lia.
      * intros (_ & Hk & Hj). destruct k as [|k']; [cbn in Hk; congruence|]. exists k'. split; [done|].
        split; [lia|]. split; [done|]. intros j Hjk. apply (Hj (S j)). lia.
  - rewrite Hrec. split.
    + intros (k' & -> & Hi & Hk & Hj). split; [lia|]. split; [done|]. intros [|j] Hjk; [lia|]. apply Hj. lia.
    + intros (Hi & Hk & Hj). destruct k as [|k']; [lia|]. exists k'. split; [done|]. split; [lia|].
      split; [done|]. intros j Hjk. apply (Hj (S j)). lia.
Qed.

Lemma char_engine_forward (c : Z) : @forward char_engine c.
Proof.
  intros t i start n. cbn. destruct (index_of c t i) as [k|] eqn:E; [|discriminate].
  intros [= <- <-]. apply index_of_Some in E as (H1 & H2%lookup_lt_Some & _). lia.
Qed.

Lemma char_engine_leftmost (c : Z) : @leftmost char_engine c.
Proof.
  intros t i j. cbn. split.
  - intros start n. destruct (index_of c t i) as [k|] eqn:E; [|discriminate]. intros [= <- <-] Hj.
    apply index_of_Some in E as (H1 & H2 & H3).
    assert (E : index_of c t j = Some k); [|rewrite E; done].
    apply index_of_Some. split; [lia|]. split; [done|]. intros m Hm. apply H3. lia.
  - destruct (index_of c t i) as [k|] eqn:E; [discriminate|]. intros _ Hj.
    destruct (index_of c t j) as [k|] eqn:E'; [exfalso|done].
    apply index_of_Some in E' as (H1 & H2 & _).
    assert (Hex : exists m, index_of c t i = Some m); [|destruct Hex; congruence].
    clear E. assert (Hik : (i <= k)%nat) by lia. clear H1 Hj. revert t i H2 Hik.
    induction k as [|k IH]; intros [|x t] i Hk Hik; cbn in Hk; try discriminate.
    + injection Hk as ->. destruct i; [|lia]. cbn. rewrite Z.eqb_refl. eauto.
    + destruct i as [|i]; cbn [index_of].
      * destruct (x =? c); [eauto|]. destruct (IH t 0%nat Hk ltac:(lia)) as [m ->]. cbn. eauto.
      * destruct (IH t i Hk ltac:(lia)) as [m ->]. cbn. eauto.
Qed.

(** The at signs of [a@b@c], the second of them rejected by its neighbour. *)
Lemma find_all_exact_witness :
  let accepts (t : text) (start end_ : nat) := negb (is_char (t !! end_) (chr "c")) in
  exists spans, @findAll char_engine (chr "@") (lit "a@b@c") accepts = Some spans /\
                separate 0 5 spans /\
                Forall (@accepted_match char_engine (chr "@") (lit "a@b@c") accepts) spans /\
                (forall s, @candidate char_engine (chr "@") (lit "a@b@c") accepts s -> covered spans s).
Proof.
  intros accepts. apply (@find_all_exact char_engine (chr "@") (lit "a@b@c") accepts).
  - apply char_engine_forward.
  - apply char_engine_leftmost.
Defined.

(** *** Stepping back

    In Unicode mode a search whose [lastIndex] falls between the halves of a
    surrogate pair starts at the first half. The engine below has that rule for
    the one pattern it knows, the word boundary of [portableRegexSource]. *)

Definition step_back (t : text) (i : nat) : nat :=
  match t !! i, char_before t i with
  | Some v, Some u => if is_trail v && is_lead u then (i - 1)%nat else i
  | _, _ => i
  end.

Definition is_word (c : option Z) : bool := isAsciiAlnum c || is_char c (chr "_").

Definition boundary_at (t : text) (i : nat) : bool := xorb (is_word (char_before t i)) (is_word (t !! i)).

Definition next_boundary (t : text) (i : nat) : option (nat * nat) :=
  let from := step_back t i in
  option_map (fun j => (j, 0%nat)) (List.find (boundary_at t) (seq from (length t + 1 - from))).

Definition stepping_engine : RegExpEngine :=
  {| regexp := unit;
     new_RegExp source _ := if bool_decide (source = BOUNDARY) then Some tt else None;
     regexp_test _ t := match next_boundary t 0 with Some _ => true | None => false end;
     regexp_exec _ t i := next_boundary t i |}.

(** The letter a followed by a character outside the basic plane. *)
Definition letter_and_emoji : text := [97; 0xd83d; 0xde00].

(** A pattern the validator accepts can make [findAll] run for ever: the
    word boundary matches empty text only inside words' edges, so it passes;
    on a text with a character outside the basic plane the loop restarts in
    the middle of its surrogate pair, the engine steps back, finds the same
    empty match, and the loop is where it was. *)
Theorem boundary_pattern_hangs fuel :
  @regexProblem stepping_engine (lit "\b") = Some None /\
  @compileIngestRegex stepping_engine (lit "\b") true = Some (Some tt) /\
  @find_loop stepping_engine fuel tt letter_and_emoji (fun _ _ _ => true) [] 0 = None.
Proof.
  split; [vm_compute; reflexivity|]. split; [vm_compute; reflexivity|].
  assert (Hloop : forall fuel, @find_loop stepping_engine fuel tt letter_and_emoji (fun _ _ _ => true) [] 2 = None).
  { intros n. induction n as [|n IH]; [reflexivity|]. exact IH. }
  destruct fuel as [|[|fuel]]; [reflexivity|reflexivity|]. apply Hloop.
Qed.

(** ** The checksums *)

Fixpoint luhn_sum (index : nat) (reversed : text) : Z :=
  match reversed with [] => 0 | c :: rest => luhn_term index (c - 48) + luhn_sum (S index) rest end.

Lemma luhn_fold reversed total index :
  foldl (fun '(total, index) char => (total + luhn_term index (char - 48), S index)) (total, index) reversed
  = (total + luhn_sum index reversed, (index + length reversed)%nat).
Proof.
  revert total index. induction reversed as [|c l IH]; intros total index; cbn [foldl luhn_sum length].
  - rewrite Z.add_0_r, Nat.add_0_r. reflexivity.
  - rewrite IH. f_equal; [lia|]. rewrite Nat.add_succ_r. reflexivity.
Qed.

Lemma luhn_sum_app a b index : luhn_sum index (a ++ b) = luhn_sum index a + luhn_sum (index + length a) b.
Proof.
  revert index. induction a as [|c a IH]; intros index; cbn [app luhn_sum length].
  - rewrite Nat.add_0_r. lia.
  - rewrite IH. replace (index + S (length a))%nat with (S index + length a)%nat by lia. lia.
Qed.

Lemma luhn_term_inj index a b :
  0 <= a <= 9 -> 0 <= b <= 9 -> luhn_term index a = luhn_term index b -> a = b.
Proof.
  intros Ha Hb. unfold luhn_term. destruct (Nat.odd index);
    repeat match goal with |- context [9 <? ?x] => destruct (Z.ltb_spec 9 x) end; lia.
Qed.

Lemma luhn_term_range index a : 0 <= a <= 9 -> 0 <= luhn_term index a <= 9.
Proof.
  intros Ha. unfold luhn_term. destruct (Nat.odd index);
    match goal with |- context [9 <? ?x] => destruct (Z.ltb_spec 9 x) end; lia.
Qed.

(** The card checksum tells a card number from any misreading of one
    digit of it. *)
Theorem luhn_single_digit before a b after :
  is_decimal a = true -> is_decimal b = true -> a <> b ->
  luhn (before ++ a :: after) = true -> luhn (before ++ b :: after) = false.
Proof.
  unfold is_decimal, luhn. intros Ha Hb Hne. bool_to_prop.
  rewrite !reverse_app, !reverse_cons, <- !app_assoc, !luhn_fold. cbn [fst app].
  rewrite !luhn_sum_app. cbn [luhn_sum]. set (i := (0 + length (reverse after))%nat).
  set (S1 := luhn_sum 0 (reverse after)). set (S2 := luhn_sum (S i) (reverse before)).
  intros E%Z.eqb_eq. apply Z.eqb_neq. intros E'. apply Hne.
  pose proof (luhn_term_range i (a - 48) ltac:(lia)) as Ra.
  pose proof (luhn_term_range i (b - 48) ltac:(lia)) as Rb.
  assert (luhn_term i (a - 48) = luhn_term i (b - 48)).
  { clearbody S1 S2. revert E E' Ra Rb. generalize (luhn_term i (a - 48)), (luhn_term i (b - 48)).
    clear. intros x y E E' Rx Ry. Z.to_euclidean_division_equations. lia. }
  assert (a - 48 = b - 48) by (apply (luhn_term_inj i); lia). lia.
Qed.

Lemma luhn_single_digit_witness :
  luhn (lit "4539148803436467") = true /\ luhn (lit "4539148803436468") = false.
Proof.
  split; [reflexivity|].
  apply (luhn_single_digit (lit "453914880343646") (chr "7") (chr "8") []); reflexivity || discriminate.
Defined.

(** The number an account spells, a letter counting as the two digits of its
    place in the alphabet plus nine. *)
Definition iban_value (rotated : text) : Z :=
  foldl (fun v c => if is_decimal c then v * 10 + (c - 48) else v * 100 + (c - 55)) 0 rotated.

Definition is_account_char (c : Z) : bool := is_decimal c || ((65 <=? c) && (c <=? 90)).

Lemma letter_code c :
  65 <= c <= 90 -> exists x y, iban_code c = [x; y] /\ is_decimal x = true /\ is_decimal y = true /\
                               (x - 48) * 10 + (y - 48) = c - 55.
Proof.
  intros Hc.
  assert (E : forallb (fun c => match iban_code c with
                       | [x; y] => is_decimal x && is_decimal y && ((x - 48) * 10 + (y - 48) =? c - 55)
                       | _ => false end) (seqZ 65 26) = true) by (vm_compute; reflexivity).
  rewrite forallb_forall in E. specialize (E c). rewrite <- list_elem_of_In, elem_of_seqZ in E.
  specialize (E ltac:(lia)). destruct (iban_code c) as [|x [|y [|]]]; try discriminate.
  bool_to_prop. eauto 6.
Qed.

Lemma mod_step r d : (r mod 97 * 10 + d) mod 97 = (r * 10 + d) mod 97.
Proof. rewrite <- Z.add_mod_idemp_l, Z.mul_mod_idemp_l, Z.add_mod_idemp_l by lia. reflexivity. Qed.

Lemma iban_step v c :
  is_account_char c = true ->
  iban_digits (Some (v mod 97)) (iban_code c)
  = Some ((if is_decimal c then v * 10 + (c - 48) else v * 100 + (c - 55)) mod 97).
Proof.
  intros Hc. unfold is_account_char in Hc. destruct (is_decimal c) eqn:Hd.
  - unfold iban_code. rewrite Hd. cbn [iban_digits foldl]. unfold digit_number. rewrite Hd, mod_step.
    reflexivity.
  - cbn [orb] in Hc. bool_to_prop.
    destruct (letter_code c) as (x & y & -> & Hx & Hy & <-); [lia|].
    cbn [iban_digits foldl]. unfold digit_number. rewrite Hx, Hy, (mod_step v), mod_step.
    apply (f_equal (fun z => Some (z mod 97))). lia.
Qed.

(** The account checksum, folded digit by digit modulo 97, is the standard
    one: the value of the whole rearranged account leaves remainder one. *)
Theorem iban_remainder raw :
  let compact := List.filter (fun c => negb (c =? chr " ")) raw in
  forallb is_account_char compact = true ->
  ibanValid raw = (iban_value (drop 4 compact ++ take 4 compact) mod 97 =? 1).
Proof.
  intros compact Hc. unfold ibanValid. fold compact. set (rotated := drop 4 compact ++ take 4 compact).
  assert (Hr : Forall (fun c => is_account_char c = true) rotated).
  { unfold rotated. rewrite forallb_forall in Hc.
    assert (Forall (fun c => is_account_char c = true) compact).
    { apply Forall_forall. intros x Hx%list_elem_of_In. auto. }
    apply Forall_app. split; [apply Forall_drop|apply Forall_take]; done. }
  assert (E : forall l v, Forall (fun c => is_account_char c = true) l ->
    foldl (fun acc char => iban_digits acc (iban_code char)) (Some (v mod 97)) l
    = Some (foldl (fun v c => if is_decimal c then v * 10 + (c - 48) else v * 100 + (c - 55)) v l mod 97)).
  { induction l as [|c l IH]; intros v Hl; [reflexivity|]. apply Forall_cons in Hl as [H1 H2].
    cbn [foldl]. rewrite iban_step by done. apply IH, H2. }
  change (Some 0) with (Some (0 mod 97)). rewrite E by done. reflexivity.
Qed.

Lemma iban_remainder_witness : ibanValid (lit "GB82 WEST 1234 5698 7654 32") = true.
Proof. rewrite (iban_remainder (lit "GB82 WEST 1234 5698 7654 32")); vm_compute; reflexivity. Defined.
