(* ===== verification/IngestEngine.v ===== *)
(** * The ingest rule engine

    [packages/ingest-rules/src/engine.ts]: compiling rules, matching them
    against a record, sampling, redaction and [applyRules].

    Computations that can throw or fail to answer (a search loop that does not
    end, [BigInt] of a fraction) give [None]. JavaScript's regular expressions
    are the class [RegExpEngine], its case folding and number printing the
    class [JsText]. An attribute map is the list of its entries in the order
    the engine enumerates them, with distinct keys. *)

From Stdlib Require Import Ascii String.
From stdpp Require Import prelude list strings.
From Stdlib Require Import ZArith Lia.
From S2P Require Import Prelude.
From S2P Require Import JsNum.
From S2P Require Import JsString.
From S2P Require Import IngestSha256.
From S2P Require Import IngestRegex.
From S2P Require Import IngestRules.
From S2P Require Import IngestDetectors.

Open Scope Z_scope.

Class JsText := {
  toLowerCase : text -> text;
  number_to_string : num -> text;
}.

(** ** Records *)

Inductive AttrValue :=
  | AString (t : text)
  | ANumber (n : num)
  | ABigint (z : Z)
  | ABool (b : bool)
  | ABytes (bs : bytes)
  | AList (items : list AttrValue)
  | AMap (entries : list (text * AttrValue)).

Definition AttrMap := jsmap text AttrValue.

Record RuleEvent := { ev_name : text; ev_attributes : AttrMap }.

Record RuleRecord := {
  rec_signal : IngestRuleSignal;
  rec_resource : AttrMap;
  rec_attributes : AttrMap;
  rec_name : option text;
  rec_body : option AttrValue;
  rec_severityNumber : option num;
  rec_severityText : option text;
  rec_traceId : option text;
  rec_spanKind : option text;
  rec_spanStatus : option text;
  rec_statusMessage : option text;
  rec_events : option (list RuleEvent);
}.

Section Engine.
Context `{!RegExpEngine} `{!JsText}.

(** ** Compiled rules *)

Record CompiledCondition := {
  cc_condition : IngestRuleCondition;
  cc_values : list text;
  cc_regex : option regexp;
}.

Record CompiledRule := {
  cr_index : nat;
  cr_spec : IngestRuleSpec;
  cr_signals : list IngestRuleSignal;
  cr_conditions : list CompiledCondition;
  cr_keys : list text;
  cr_patterns : list regexp;
}.

Record InvalidRule := { iv_index : nat; iv_problems : list text }.

Record CompiledRules := {
  cs_rules : list CompiledRule;
  cs_invalid : list InvalidRule;
  cs_salt : bytes;
}.

Definition compileCondition (condition : IngestRuleCondition) : CompiledCondition :=
  {| cc_condition := condition;
     cc_values := dedupe (default [] (c_values condition));
     cc_regex := match c_op condition, c_value condition with
                 | regex_op, Some value => default None (compileIngestRegex value false)
                 | _, _ => None
                 end |}.

Definition compile_rule (index : nat) (spec : IngestRuleSpec) : CompiledRule :=
  {| cr_index := index;
     cr_spec := spec;
     cr_signals := dedupe (s_signals spec);
     cr_conditions := List.map compileCondition (s_conditions spec);
     cr_keys := match s_action spec with
                | redact_action action => List.map toLowerCase (a_keys action)
                | drop_action _ => []
                end;
     cr_patterns := match s_action spec with
                    | redact_action action =>
                        List.concat (List.map (fun pattern =>
                          option_list (default None (compileIngestRegex pattern true))) (a_patterns action))
                    | drop_action _ => []
                    end |}.

(** The loop of [compileRules]. *)
Fixpoint compile_loop (index : nat) (specs : list IngestRuleSpec) (rules : list CompiledRule)
    (invalid : list InvalidRule) : list CompiledRule * list InvalidRule :=
  match specs with
  | [] => (rules, invalid)
  | spec :: rest =>
      let problems := ingestRuleProblems spec in
      if 0 <? size problems then
        compile_loop (S index) rest rules (invalid ++ [{| iv_index := index; iv_problems := problems |}])
      else compile_loop (S index) rest (rules ++ [compile_rule index spec]) invalid
  end.

Definition compileRules (specs : list IngestRuleSpec) (salt : text) : CompiledRules :=
  let '(rules, invalid) := compile_loop 0 specs [] [] in
  {| cs_rules := rules; cs_invalid := invalid; cs_salt := utf8 salt |}.

(** ** Conditions *)

(** [text.split("e")] on a number's exponent form. *)
Definition split_exponent (t : text) : text * text :=
  match index_of (chr "e") t 0 with
  | None => (t, [])
  | Some i => (take i t, drop (S i) t)
  end.

(** [Number(exponentText)]: an optional sign and digits. *)
Definition signed_number (t : text) : Z :=
  match t with
  | c :: t' => if c =? chr "-" then - number_of t' else if c =? chr "+" then number_of t' else number_of t
  | [] => 0
  end.

Definition zeros (n : Z) : text := replicate (Z.to_nat n) (chr "0").

(** The digits of an exponent form, shifted. *)
Definition expand_exponent (t : text) : text :=
  let '(mantissa, exponentText) := split_exponent t in
  let digits := List.filter (fun c => negb (c =? chr ".")) mantissa in
  let dot := match index_of (chr ".") mantissa 0 with None => size mantissa | Some i => Z.of_nat i end in
  let point := dot + signed_number exponentText in
  if size digits <=? point then digits ++ zeros (point - size digits)
  else if point <=? 0 then lit "0." ++ zeros (- point) ++ digits
  else take (Z.to_nat point) digits ++ lit "." ++ drop (Z.to_nat point) digits.

Definition num_is_negative_zero (n : num) : bool :=
  match n with SpecFloat.S754_zero s => s | _ => false end.

Definition num_abs (n : num) : num := SpecFloat.SFabs n.

Definition formatDouble (value : num) : text :=
  if num_is_nan value then lit "NaN"
  else if negb (num_is_finite value) then
    if num_gtb value (num_of_Z 0) then lit "inf" else lit "-inf"
  else if num_is_negative_zero value then lit "-0"
  else
    let t := number_to_string (num_abs value) in
    if negb (bool_decide (chr "e" ∈ t)) then number_to_string value
    else
      let unsigned := expand_exponent t in
      if num_ltb value (num_of_Z 0) then chr "-" :: unsigned else unsigned.

Definition comparable (value : AttrValue) : option text :=
  match value with
  | AString t => Some t
  | ANumber n => Some (formatDouble n)
  | ABigint z => Some (digits_text z)
  | ABool b => Some (if b then lit "true" else lit "false")
  | _ => None
  end.

Definition SEVERITY_PREFIXES : list (text * Z) :=
  [ (lit "trace", 1); (lit "debug", 5); (lit "info", 9); (lit "warn", 13); (lit "err", 17);
    (lit "fatal", 21); (lit "crit", 21); (lit "emerg", 21) ].

Definition severityOf (record : RuleRecord) : option num :=
  let derived :=
    let t := toLowerCase (default [] (rec_severityText record)) in
    option_map (fun p => num_of_Z p.2) (List.find (fun p => starts_with t p.1) SEVERITY_PREFIXES) in
  match rec_severityNumber record with
  | Some n => if num_gtb n (num_of_Z 0) then Some n else derived
  | None => derived
  end.

(** A field that is missing, present but not comparable, or a string. *)
Inductive field_value := missing | opaque | value_of (t : text).

Definition present (value : AttrValue) : field_value :=
  match comparable value with None => opaque | Some t => value_of t end.

Definition ownValue (m : AttrMap) (key : text) : option AttrValue := map_get key m.

Definition maybe {A} (f : A -> field_value) (value : option A) : field_value :=
  match value with None => missing | Some v => f v end.

Definition fieldValue (record : RuleRecord) (condition : IngestRuleCondition) : field_value :=
  match c_field condition with
  | service_name =>
      match ownValue (rec_resource record) (lit "service.name") with
      | None => value_of []
      | Some service => present service
      end
  | name => value_of (default [] (rec_name record))
  | attribute => maybe present (ownValue (rec_attributes record) (default [] (c_key condition)))
  | resource_attribute => maybe present (ownValue (rec_resource record) (default [] (c_key condition)))
  | body => maybe present (rec_body record)
  | span_kind => maybe value_of (rec_spanKind record)
  | span_status => maybe value_of (rec_spanStatus record)
  | severity => missing
  end.

(** The loop of [scanCut]. *)
Fixpoint cut_loop (fuel : nat) (t : text) (bytes index : nat) : nat :=
  match fuel with
  | O => index
  | S fuel' =>
      match t !! index with
      | None => index
      | Some unit_ =>
          let pair :=
            is_lead unit_ &&
            match t !! S index with None => false | Some next => js_and next 0xfc00 =? 0xdc00 end in
          let size_ := (if pair then 4 else if Z.ltb unit_ 0x80 then 1 else if Z.ltb unit_ 0x800 then 2 else 3)%nat in
          if scanBytes <? Z.of_nat (bytes + size_) then index
          else cut_loop fuel' t (bytes + size_) (index + (if pair then 2 else 1))
      end
  end.

Definition scanCut (t : text) : nat :=
  if size t * 3 <=? scanBytes then length t else cut_loop (S (length t)) t 0 0.

(** [value.includes(operand)]. *)
Fixpoint includes_text (t operand : text) : bool :=
  starts_with t operand || match t with [] => false | _ :: t' => includes_text t' operand end.

Definition value_matches (compiled : CompiledCondition) (value : text) : bool :=
  let condition := cc_condition compiled in
  let operand := default [] (c_value condition) in
  match c_op condition with
  | eq_op => bool_decide (value = operand)
  | neq_op => negb (bool_decide (value = operand))
  | in_op => bool_decide (value ∈ cc_values compiled)
  | not_in_op => negb (bool_decide (value ∈ cc_values compiled))
  | prefix_op => starts_with value operand
  | contains_op => includes_text value operand
  | regex_op =>
      match cc_regex compiled with
      | None => false
      | Some regex => regexp_test regex (take (scanCut value) value)
      end
  | _ => false
  end.

Definition conditionMatches (record : RuleRecord) (compiled : CompiledCondition) : bool :=
  let condition := cc_condition compiled in
  let op := c_op condition in
  if bool_decide (c_field condition = severity) then
    match severityOf record, map_get (default [] (c_value condition)) SEVERITY_LEVELS with
    | Some severity_, Some level =>
        if bool_decide (op = lt_op) then num_ltb severity_ (num_of_Z level)
        else num_geb severity_ (num_of_Z level)
    | _, _ => false
    end
  else
    match op, fieldValue record condition with
    | exists_op, missing => false
    | exists_op, _ => true
    | not_exists_op, missing => true
    | not_exists_op, _ => false
    | (neq_op | not_in_op), missing => true
    | _, missing => false
    | _, opaque => false
    | _, value_of value => value_matches compiled value
    end.

Definition ruleMatches (rule : CompiledRule) (record : RuleRecord) : bool :=
  bool_decide (rec_signal record ∈ cr_signals rule) &&
  forallb (conditionMatches record) (cr_conditions rule).

(** ** Sampling *)

(** [getBigUint64(0)]. *)
Definition head_of (digest : bytes) : Z := foldl (fun acc b => acc * 256 + b) 0 (take 8 digest).

(** The one draw a record without a trace id gets: the value taken, and how
    often [random] was called. *)
Record RecordDraw := { d_value : option num; d_calls : nat }.

(** [draw.value ??= random()]; [random n] is the answer of call [n]. *)
Definition once (random : nat -> num) (draw : RecordDraw) : num * RecordDraw :=
  match d_value draw with
  | Some v => (v, draw)
  | None => let v := random (d_calls draw) in (v, {| d_value := Some v; d_calls := S (d_calls draw) |})
  end.

Definition trace_bucket (traceId : text) : Z := head_of (sha256 (utf8 (toLowerCase traceId))) mod 100.

Definition keepBySample (random : nat -> num) (traceId : option text) (keepPercent : num) (draw : RecordDraw) :
    option (bool * RecordDraw) :=
  if num_geb keepPercent (num_of_Z 100) then Some (true, draw)
  else if num_leb keepPercent (num_of_Z 0) then Some (false, draw)
  else
    match traceId with
    | None | Some [] =>
        let '(v, draw) := once random draw in
        Some (num_ltb (num_mul v (num_of_Z 100)) keepPercent, draw)
    | Some id =>
        match num_integer keepPercent with
        | None => None
        | Some percent => Some (trace_bucket id <? percent, draw)
        end
    end.

(** ** Globs *)

(** The loop of [globMatches]; [star] is [None] for -1. *)
Fixpoint glob_loop (fuel : nat) (pattern t : text) (p i : nat) (star : option nat) (resume : nat) :
    option bool :=
  match fuel with
  | O => None
  | S fuel' =>
      match t !! i with
      | None =>
          let rest := skip (fun c => c =? chr "*") (drop p pattern) in
          Some (bool_decide (rest = []))
      | Some x =>
          match pattern !! p with
          | Some c =>
              if negb (c =? chr "*") && (c =? x) then glob_loop fuel' pattern t (S p) (S i) star resume
              else if c =? chr "*" then glob_loop fuel' pattern t (S p) i (Some p) i
              else
                match star with
                | Some s => glob_loop fuel' pattern t (S s) (S resume) star (S resume)
                | None => Some false
                end
          | None =>
              match star with
              | Some s => glob_loop fuel' pattern t (S s) (S resume) star (S resume)
              | None => Some false
              end
          end
      end
  end.

Definition glob_fuel (pattern t : text) : nat := (S (length pattern) * S (length t) * S (length pattern) + 1)%nat.

Definition globMatches (pattern key : text) : option bool :=
  let t := toLowerCase key in
  glob_loop (glob_fuel pattern t) pattern t 0 0 None 0.

(** ** Redaction *)

Definition MASK : text := lit "[REDACTED]".

Record RedactContext := {
  x_rule : CompiledRule;
  x_method : IngestRuleRedactMethod;
  x_detectors : list IngestRuleDetector;
  x_salt : bytes;
}.

Definition hashText (salt : bytes) (t : text) : text := lit "hash:" ++ take 16 (toHex (hmacSha256 salt (utf8 t))).

Definition replaceSpans (t : text) (spans : list Span) (replace : text -> text) : text :=
  foldr (fun span acc =>
           take (sp_start span) acc ++ replace (slice acc (sp_start span) (sp_end span)) ++ drop (sp_end span) acc)
        t spans.

Definition replacement (x : RedactContext) (label : option IngestRuleDetector) (matched : text) : text :=
  match x_method x, label with
  | hash_method, _ => hashText (x_salt x) matched
  | _, None => MASK
  | _, Some d => lit "[REDACTED:" ++ detector_name d ++ lit "]"
  end.

(** One pass over the head of a string; the count is that of [ctx]. *)
Definition scan_pass (x : RedactContext) (label : option IngestRuleDetector) (regex : regexp)
    (accepts : text -> nat -> nat -> bool) (state : text * Z) : option (text * Z) :=
  let '(head, count) := state in
  match findAll regex head accepts with
  | None => None
  | Some spans => Some (replaceSpans head spans (replacement x label), count + size spans)
  end.

Fixpoint detector_passes (x : RedactContext) (detectors : list IngestRuleDetector) (state : text * Z) :
    option (text * Z) :=
  match detectors with
  | [] => Some state
  | d :: rest =>
      match new_RegExp (detector_source d) (lit "gu") with
      | None => None
      | Some regex =>
          match scan_pass x (Some d) regex (accept d) state with
          | None => None
          | Some state' => detector_passes x rest state'
          end
      end
  end.

Fixpoint pattern_passes (x : RedactContext) (patterns : list regexp) (state : text * Z) : option (text * Z) :=
  match patterns with
  | [] => Some state
  | regex :: rest =>
      match scan_pass x None regex (fun _ _ _ => true) state with
      | None => None
      | Some state' => pattern_passes x rest state'
      end
  end.

Definition scanString (x : RedactContext) (t : text) (count : Z) : option (text * Z) :=
  let cut := scanCut t in
  match detector_passes x (x_detectors x) (take cut t, count) with
  | None => None
  | Some state =>
      match pattern_passes x (cr_patterns (x_rule x)) state with
      | None => None
      | Some (head, count) => Some (head ++ drop cut t, count)
      end
  end.

(** [keyReplacement]: [None] is the symbol [REMOVED]. *)
Definition keyReplacement (x : RedactContext) (value : AttrValue) : option AttrValue :=
  match x_method x, value with
  | remove_method, _ => None
  | hash_method, AString t => Some (AString (hashText (x_salt x) t))
  | _, _ => Some (AString MASK)
  end.

(** [ctx.rule.keys.some((pattern) => globMatches(pattern, key))]. *)
Fixpoint key_selected (patterns : list text) (key : text) : option bool :=
  match patterns with
  | [] => Some false
  | pattern :: rest =>
      match globMatches pattern key with
      | None => None
      | Some true => Some true
      | Some false => key_selected rest key
      end
  end.

(** The [flatMap] of [redactMap] over the entries; [scan] is [scanValue]. *)
Definition redact_entries (scan : AttrValue -> Z -> option (AttrValue * Z)) (x : RedactContext) (topLevel : bool) :
    list (text * AttrValue) -> Z -> option (AttrMap * Z) :=
  fix entries l count :=
    match l with
    | [] => Some ([], count)
    | (key, value) :: rest =>
        if topLevel && isProtectedKey key then
          match entries rest count with
          | None => None
          | Some (out, count) => Some ((key, value) :: out, count)
          end
        else
          match key_selected (cr_keys (x_rule x)) key with
          | None => None
          | Some true =>
              match entries rest (count + 1) with
              | None => None
              | Some (out, count) =>
                  Some (match keyReplacement x value with None => out | Some next => (key, next) :: out end, count)
              end
          | Some false =>
              match scan value count with
              | None => None
              | Some (next, count) =>
                  match entries rest count with
                  | None => None
                  | Some (out, count) => Some ((key, next) :: out, count)
                  end
              end
          end
    end.

(** [value.map((item) => scanValue(item, ctx))]. *)
Definition scan_items (scan : AttrValue -> Z -> option (AttrValue * Z)) :
    list AttrValue -> Z -> option (list AttrValue * Z) :=
  fix items l count :=
    match l with
    | [] => Some ([], count)
    | v :: rest =>
        match scan v count with
        | None => None
        | Some (next, count) =>
            match items rest count with
            | None => None
            | Some (out, count) => Some (next :: out, count)
            end
        end
    end.

Fixpoint scanValue (x : RedactContext) (value : AttrValue) (count : Z) : option (AttrValue * Z) :=
  match value with
  | AString t =>
      if size (x_detectors x) + size (cr_patterns (x_rule x)) =? 0 then Some (value, count)
      else option_map (fun '(t', count) => (AString t', count)) (scanString x t count)
  | AList l => option_map (fun '(l', count) => (AList l', count)) (scan_items (scanValue x) l count)
  | AMap m => option_map (fun '(m', count) => (AMap m', count)) (redact_entries (scanValue x) x false m count)
  | _ => Some (value, count)
  end.

Definition redactMap (x : RedactContext) (m : AttrMap) (count : Z) (topLevel : bool) : option (AttrMap * Z) :=
  redact_entries (scanValue x) x topLevel m count.

Definition scopeHas (rule : CompiledRule) (scope : IngestRuleScope) : bool :=
  match s_action (cr_spec rule) with
  | redact_action action => bool_decide (scope ∈ a_scopes action)
  | drop_action _ => false
  end.

Fixpoint redact_events (x : RedactContext) (events : list RuleEvent) (count : Z) : option (list RuleEvent * Z) :=
  match events with
  | [] => Some ([], count)
  | event :: rest =>
      match redactMap x (ev_attributes event) count true with
      | None => None
      | Some (attrs, count) =>
          match redact_events x rest count with
          | None => None
          | Some (out, count) => Some ({| ev_name := ev_name event; ev_attributes := attrs |} :: out, count)
          end
      end
  end.

(** [test ? f(value) : value], counting. *)
Definition when {A} (test : bool) (f : A -> Z -> option (A * Z)) (value : A) (count : Z) : option (A * Z) :=
  if test then f value count else Some (value, count).

(** [f] on a value that is there. *)
Definition on_some {A} (f : A -> Z -> option (A * Z)) (value : option A) (count : Z) : option (option A * Z) :=
  match value with
  | None => Some (None, count)
  | Some v => option_map (fun '(v', count) => (Some v', count)) (f v count)
  end.

Definition redactRecord (record : RuleRecord) (rule : CompiledRule) (salt : bytes) : option (RuleRecord * Z) :=
  match s_action (cr_spec rule) with
  | drop_action _ => Some (record, 0)
  | redact_action action =>
      let x := {| x_rule := rule; x_method := a_method action; x_detectors := a_detectors action; x_salt := salt |} in
      let top m count := redactMap x m count true in
      '(attributes', n) ← when (scopeHas rule attributes_scope) top (rec_attributes record) 0;
      '(resource', n) ← when (scopeHas rule resource_scope) top (rec_resource record) n;
      '(events', n) ← when (scopeHas rule events_scope) (on_some (redact_events x)) (rec_events record) n;
      '(body', n) ← when (scopeHas rule body_scope) (on_some (scanValue x)) (rec_body record) n;
      '(status', n) ← when (scopeHas rule attributes_scope && negb (bool_decide (rec_statusMessage record = Some [])))
                           (on_some (scanString x)) (rec_statusMessage record) n;
      Some ({| rec_signal := rec_signal record; rec_resource := resource'; rec_attributes := attributes';
               rec_name := rec_name record; rec_body := body'; rec_severityNumber := rec_severityNumber record;
               rec_severityText := rec_severityText record; rec_traceId := rec_traceId record;
               rec_spanKind := rec_spanKind record; rec_spanStatus := rec_spanStatus record;
               rec_statusMessage := status'; rec_events := events' |}, n)
  end.

(** ** Applying the rules *)

Inductive RuleOutcome :=
  | dropped (ruleIndex : nat) (matched : list nat)
  | kept (record : RuleRecord) (matched : list nat) (redactions : jsmap nat Z).

(** [matching.find(...)] with the draw it shares. *)
Fixpoint find_dropper (random : nat -> num) (traceId : option text) (matching : list CompiledRule)
    (draw : RecordDraw) : option (option CompiledRule * RecordDraw) :=
  match matching with
  | [] => Some (None, draw)
  | rule :: rest =>
      match s_action (cr_spec rule) with
      | redact_action _ => find_dropper random traceId rest draw
      | drop_action keepPercent =>
          match keepBySample random traceId keepPercent draw with
          | None => None
          | Some (true, draw) => find_dropper random traceId rest draw
          | Some (false, draw) => Some (Some rule, draw)
          end
      end
  end.

Definition is_redact (rule : CompiledRule) : bool :=
  match s_action (cr_spec rule) with redact_action _ => true | drop_action _ => false end.

Fixpoint redact_all (salt : bytes) (rules : list CompiledRule) (record : RuleRecord) (redactions : jsmap nat Z) :
    option (RuleRecord * jsmap nat Z) :=
  match rules with
  | [] => Some (record, redactions)
  | rule :: rest =>
      match redactRecord record rule salt with
      | None => None
      | Some (next, count) =>
          redact_all salt rest next (if 0 <? count then map_set (cr_index rule) count redactions else redactions)
      end
  end.

Definition fresh_draw : RecordDraw := {| d_value := None; d_calls := 0 |}.

(** The outcome, and the draw as the record leaves it. *)
Definition applyRules (compiled : CompiledRules) (record : RuleRecord) (random : nat -> num) :
    option (RuleOutcome * RecordDraw) :=
  let matching := List.filter (fun rule => ruleMatches rule record) (cs_rules compiled) in
  let matched := List.map cr_index matching in
  match find_dropper random (rec_traceId record) matching fresh_draw with
  | None => None
  | Some (Some dropper, draw) => Some (dropped (cr_index dropper) matched, draw)
  | Some (None, draw) =>
      match redact_all (cs_salt compiled) (List.filter is_redact matching) record [] with
      | None => None
      | Some (redacted, redactions) => Some (kept redacted matched redactions, draw)
      end
  end.

Fixpoint redact_matched (salt : bytes) (rules : list CompiledRule) (attributes : AttrMap) : option AttrMap :=
  match rules with
  | [] => Some attributes
  | rule :: rest =>
      match s_action (cr_spec rule) with
      | drop_action _ => redact_matched salt rest attributes
      | redact_action action =>
          let x := {| x_rule := rule; x_method := a_method action; x_detectors := a_detectors action;
                      x_salt := salt |} in
          match redactMap x attributes 0 true with
          | None => None
          | Some (attributes, _) => redact_matched salt rest attributes
          end
      end
  end.

Definition redactWithMatched (compiled : CompiledRules) (matched : list nat) (attributes : AttrMap) : option AttrMap :=
  redact_matched (cs_salt compiled)
    (List.filter (fun rule => bool_decide (cr_index rule ∈ matched) && scopeHas rule attributes_scope) (cs_rules compiled))
    attributes.

End Engine.
