(* ===== verification/IngestScan.v ===== *)
(** * Globs, the scan window and sampling

    Three computations of [packages/ingest-rules/src/engine.ts] against their
    meaning: [globMatches], a backtracking loop with one restart point, against
    the language of the pattern ([key_selection_exact]); [scanCut] against the
    bytes the encoder produces ([scan_cut_longest]); [keepBySample] against one
    bucket per trace ([sampling_by_trace]). *)

From Stdlib Require Import Ascii String.
From stdpp Require Import prelude list strings.
From Stdlib Require Import ZArith Lia.
From S2P Require Import Prelude.
From S2P Require Import JsNum.
From S2P Require Import JsString.
From S2P Require Import IngestSha256.
From S2P Require Import IngestRegex.
From S2P Require Import IngestRules.
From S2P Require Import IngestDetectors.
From S2P Require Import IngestEngine.

Open Scope Z_scope.

(** ** Globs *)

(** The texts a pattern stands for: a star is any run of characters, any other
    character itself. *)
Inductive glob : text -> text -> Prop :=
  | glob_nil : glob [] []
  | glob_char c p t : c <> chr "*" -> glob p t -> glob (c :: p) (c :: t)
  | glob_star p run t : glob p t -> glob (chr "*" :: p) (run ++ t).

Lemma glob_star_iff p t : glob (chr "*" :: p) t <-> exists k, (k <= length t)%nat /\ glob p (drop k t).
Proof.
  split.
  - intros H. inversion H; subst; [done|].
    exists (length run). rewrite length_app, drop_app_length. split; [lia|done].
  - intros (k & _ & H). rewrite <- (take_drop k t). constructor. exact H.
Qed.

Lemma glob_char_iff c p t : c <> chr "*" -> glob (c :: p) t <-> exists t', t = c :: t' /\ glob p t'.
Proof.
  intros Hc. split.
  - intros H. inversion H; subst; [eauto|done].
  - intros (t' & -> & H). constructor; done.
Qed.

Lemma glob_nil_iff t : glob [] t <-> t = [].
Proof. split; [intros H; inversion H; done|intros ->; constructor]. Qed.

(** At the end of the text only stars may be left. *)
Lemma glob_end p : glob p [] <-> skip (fun c => c =? chr "*") p = [].
Proof.
  induction p as [|c p IH]; cbn [skip].
  - split; [done|constructor].
  - destruct (Z.eqb_spec c (chr "*")) as [->|Hc].
    + rewrite glob_star_iff, <- IH. split.
      * intros (k & _ & H). rewrite drop_nil in H. exact H.
      * intros H. exists 0%nat. split; [cbn; lia|exact H].
    + rewrite glob_char_iff by done. split; [intros (t' & Ht & _); discriminate|discriminate].
Qed.

Lemma drop_cons {A} (l : list A) i x : l !! i = Some x -> drop i l = x :: drop (S i) l.
Proof. apply drop_S. Qed.

(** A part of the pattern without stars consumes as many characters. *)
Lemma glob_literal pattern a p u :
  (a <= p <= length pattern)%nat -> (forall j, (a <= j < p)%nat -> pattern !! j <> Some (chr "*")) ->
  glob (drop a pattern) u -> (p - a <= length u)%nat /\ glob (drop p pattern) (drop (p - a) u).
Proof.
  intros Hap Hno. remember (p - a)%nat as n eqn:En. revert a u Hap Hno En.
  induction n as [|n IH]; intros a u Hap Hno En Hg.
  - replace p with a by lia. rewrite drop_0. split; [lia|done].
  - destruct (lookup_lt_is_Some_2 pattern a ltac:(lia)) as [c Hc].
    rewrite (drop_cons _ _ _ Hc) in Hg.
    assert (Hne : c <> chr "*") by (intros ->; apply (Hno a); [lia|done]).
    apply glob_char_iff in Hg as (u' & -> & Hg); [|done].
    destruct (IH (S a) u') as [H1 H2]; [lia| |lia|done|].
    + intros j Hj. apply Hno. lia.
    + cbn [length drop]. split; [lia|done].
Qed.

(** The restart point: a star at [s], after which the pattern up to [p] has no
    star and has consumed the text from [resume] to [i]. *)
Definition restart_ok (pattern : text) (p i : nat) (star : option nat) (resume : nat) : Prop :=
  match star with
  | None => resume = 0%nat
  | Some s =>
      (s < p)%nat /\ i = (resume + (p - S s))%nat /\
      forall j, (S s <= j < p)%nat -> pattern !! j <> Some (chr "*")
  end.

(** The part after the star matches a later part of the text. *)
Definition later (pattern t : text) (star : option nat) (resume : nat) : Prop :=
  match star with
  | None => False
  | Some s => exists r, (resume < r <= length t)%nat /\ glob (drop (S s) pattern) (drop r t)
  end.

Definition glob_measure (pattern t : text) (p : nat) (star : option nat) (resume : nat) : nat :=
  (length pattern - match star with None => 0 | Some s => S s end) * (S (length t) * S (length pattern))
  + (length t - resume) * S (length pattern) + (length pattern - p).

(** A later start of the same literal part ends before the text does only if
    what follows it matches further on. *)
Lemma later_star pattern t p i s resume :
  (p <= length pattern)%nat -> restart_ok pattern p i (Some s) resume -> later pattern t (Some s) resume ->
  exists r, (i < r <= length t)%nat /\ glob (drop p pattern) (drop r t).
Proof.
  intros Hp (Hs & -> & Hno) (r & Hr & Hg).
  destruct (glob_literal pattern (S s) p (drop r t)) as [Hl Hg']; [lia|done|done|].
  rewrite length_drop in Hl. rewrite drop_drop in Hg'.
  exists (r + (p - S s))%nat. split; [lia|done].
Qed.

Lemma restart_resume pattern t s resume :
  (resume < length t)%nat ->
  glob (drop (S s) pattern) (drop (S resume) t) \/ later pattern t (Some s) (S resume) <->
  later pattern t (Some s) resume.
Proof.
  intros Hr. split.
  - intros [H|(r & Hr' & H)]; eexists; (split; [|exact H]); lia.
  - intros (r & Hr' & H). destruct (Nat.eq_dec r (S resume)) as [->|]; [auto|right; exists r; split; [lia|done]].
Qed.

Lemma glob_loop_spec fuel pattern t p i star resume :
  (glob_measure pattern t p star resume < fuel)%nat ->
  (p <= length pattern)%nat -> (i <= length t)%nat -> restart_ok pattern p i star resume ->
  exists b, glob_loop fuel pattern t p i star resume = Some b /\
    (b = true <-> glob (drop p pattern) (drop i t) \/ later pattern t star resume).
Proof.
  revert p i star resume. induction fuel as [|fuel IH]; intros p i star resume Hf Hp Hi Hok; [lia|].
  cbn [glob_loop]. destruct (t !! i) as [x|] eqn:Ex.
  2: { apply lookup_ge_None in Ex. eexists. split; [reflexivity|].
       rewrite bool_decide_eq_true, <- glob_end, (drop_ge t i) by lia.
       split; [auto|]. intros [H|H]; [done|]. destruct star as [s|]; [|done].
       destruct (later_star pattern t p i s resume Hp Hok H) as (r & Hr & _). lia. }
  pose proof (lookup_lt_Some _ _ _ Ex) as Hit. pose proof (drop_cons _ _ _ Ex) as Et.
  assert (Hback : ~ glob (drop p pattern) (drop i t) ->
    exists b, match star with
      | Some s => glob_loop fuel pattern t (S s) (S resume) star (S resume)
      | None => Some false end = Some b /\
      (b = true <-> glob (drop p pattern) (drop i t) \/ later pattern t star resume)).
  { intros Hno. destruct star as [s|]; [|exists false; split; [done|]; cbn; intuition discriminate].
    destruct Hok as (Hs & Hires & Hlit).
    destruct (IH (S s) (S resume) (Some s) (S resume)) as (b & -> & Hb); [|lia|lia| |].
    - revert Hf. unfold glob_measure. nia.
    - cbn. split; [lia|]. split; [lia|]. intros j Hj. lia.
    - exists b. split; [done|]. rewrite Hb, restart_resume by lia. tauto. }
  destruct (pattern !! p) as [c|] eqn:Ec.
  2: { apply lookup_ge_None in Ec. apply Hback. rewrite (drop_ge pattern p), Et by lia.
       rewrite glob_nil_iff. discriminate. }
  pose proof (lookup_lt_Some _ _ _ Ec) as Hpl. pose proof (drop_cons _ _ _ Ec) as Ep.
  destruct (Z.eqb_spec c (chr "*")) as [->|Hc]; cbn [negb andb].
  - destruct (IH (S p) i (Some p) i) as (b & -> & Hb); [|lia|lia| |].
    + assert (match star with None => 0 | Some s => S s end <= p)%nat by (destruct star; cbn in Hok; lia).
      revert Hf. unfold glob_measure.
      assert (resume <= length t)%nat by (destruct star; cbn in Hok; lia). nia.
    + cbn. split; [lia|]. split; [lia|]. intros j Hj. lia.
    + exists b. split; [done|]. rewrite Hb, Ep, glob_star_iff. split.
      * intros [H|(r & Hr & H)]; left.
        { exists 0%nat. split; [lia|exact H]. }
        { exists (r - i)%nat. rewrite length_drop, drop_drop. replace (i + (r - i))%nat with r by lia.
          split; [lia|exact H]. }
      * assert (Hstar : forall r, (i <= r <= length t)%nat -> glob (drop (S p) pattern) (drop r t) ->
          glob (drop (S p) pattern) (drop i t) \/ later pattern t (Some p) i).
        { intros r Hr H. destruct (Nat.eq_dec r i) as [->|]; [auto|]. right. exists r. split; [lia|exact H]. }
        intros [(k & Hk & H)|H].
        { rewrite length_drop in Hk. rewrite drop_drop in H. apply (Hstar (i + k)%nat); [lia|exact H]. }
        { destruct star as [s|]; [|done].
          destruct (later_star pattern t p i s resume Hp Hok H) as (r & Hr & H').
          rewrite Ep in H'. apply glob_star_iff in H' as (k & Hk & H'). rewrite length_drop in Hk.
          rewrite drop_drop in H'. apply (Hstar (r + k)%nat); [lia|exact H']. }
  - destruct (Z.eqb_spec c x) as [->|Hcx]; cbn [negb andb].
    + destruct (IH (S p) (S i) star resume) as (b & -> & Hb); [revert Hf; unfold glob_measure; lia|lia|lia| |].
      * destruct star as [s|]; [|done]. destruct Hok as (Hs & -> & Hlit). cbn.
        split; [lia|]. split; [lia|]. intros j Hj. destruct (Nat.eq_dec j p) as [->|]; [congruence|].
        apply Hlit. lia.
      * exists b. split; [done|]. rewrite Hb, Ep, Et, glob_char_iff by done.
        split; (intros [H|H]; [left|right; exact H]).
        { eauto. } { destruct H as (t' & [= ->] & H). exact H. }
    + apply Hback. rewrite Ep, Et, glob_char_iff by done. intros (t' & [= -> _] & _). done.
Qed.

Section Globs.
Context `{!JsText}.

Lemma glob_matches_answers pattern key :
  exists b, globMatches pattern key = Some b /\ (b = true <-> glob pattern (toLowerCase key)).
Proof.
  unfold globMatches. set (t := toLowerCase key).
  destruct (glob_loop_spec (glob_fuel pattern t) pattern t 0 0 None 0) as (b & Hb & Hspec); [|lia|lia|done|].
  - unfold glob_measure, glob_fuel. nia.
  - exists b. split; [exact Hb|]. rewrite Hspec, !drop_0. cbn. tauto.
Qed.

Context `{!RegExpEngine}.

(** Key selection is exact: it always answers, and it selects a key
    precisely when the lower-cased key is in the language of one of the rule's
    globs, although the matching loop remembers only the last star it met. *)
Theorem key_selection_exact patterns key :
  exists b, key_selected patterns key = Some b /\
            (b = true <-> Exists (fun pattern => glob pattern (toLowerCase key)) patterns).
Proof.
  induction patterns as [|pattern rest (b & IH & Hb)]; cbn [key_selected].
  - exists false. split; [done|]. rewrite Exists_nil. split; [discriminate|done].
  - destruct (glob_matches_answers pattern key) as ([] & -> & Hg).
    + exists true. split; [done|]. rewrite Exists_cons. tauto.
    + exists b. split; [done|]. rewrite Exists_cons, Hb. split; [tauto|].
      intros [Hp|Hp]; [apply Hg in Hp; discriminate|exact Hp].
Qed.

End Globs.

(** ** The scan window *)

Definition is_unit (u : Z) : Prop := 0 <= u < 65536.

Lemma trail_mask u : is_unit u -> (js_and u 0xfc00 =? 0xdc00) = is_trail u.
Proof.
  intros Hu. unfold is_unit in Hu.
  assert (E : Z.land u 0xfc00 = u / 1024 * 1024).
  { assert (H : Z.land u 0xfc00 = Z.ldiff (Z.land u (Z.ones 16)) (Z.ones 10)).
    { change 0xfc00 with (Z.ldiff (Z.ones 16) (Z.ones 10)). apply Z.bits_inj. intros i.
      rewrite !Z.ldiff_spec, !Z.land_spec, Z.ldiff_spec. destruct (Z.testbit u i); reflexivity. }
    rewrite H, Z.land_ones, Z.mod_small, Z.ldiff_ones_r, Z.shiftl_mul_pow2, Z.shiftr_div_pow2 by lia.
    reflexivity. }
  unfold js_and, is_trail. rewrite (to_int32_small u), (to_int32_small 0xfc00), E by lia.
  rewrite to_int32_small by (Z.to_euclidean_division_equations; lia).
  destruct (Z.eqb_spec (u / 1024 * 1024) 0xdc00); symmetry.
  - apply andb_true_iff. rewrite !Z.leb_le. Z.to_euclidean_division_equations. lia.
  - apply andb_false_iff. rewrite !Z.leb_gt. Z.to_euclidean_division_equations. lia.
Qed.

(** The code points at the front of a text: how many units, how many bytes. *)
Definition front_pair (t : text) : bool :=
  match t with u :: v :: _ => is_lead u && is_trail v | _ => false end.

Definition front_bytes (t : text) : nat :=
  if front_pair t then 4%nat
  else match t with [] => 0%nat | u :: _ => if u <? 0x80 then 1%nat else if u <? 0x800 then 2%nat else 3%nat end.

Lemma utf8_front u t :
  is_unit u ->
  length (utf8 (u :: t)) =
    (front_bytes (u :: t) + length (utf8 (if front_pair (u :: t) then drop 1 t else t)))%nat.
Proof.
  intros Hu. unfold is_unit in Hu. unfold front_bytes, front_pair. cbn [utf8].
  assert (Hbytes : forall c, 0 <= c < 65536 ->
    length (utf8_bytes c) = (if Z.ltb c 0x80 then 1 else if Z.ltb c 0x800 then 2 else 3)%nat).
  { intros c Hc. unfold utf8_bytes. destruct (c <? 0x80); [done|]. destruct (c <? 0x800); [done|].
    destruct (Z.ltb_spec c 0x10000); [done|lia]. }
  assert (Hsur : is_lead u = true \/ is_trail u = true -> (u <? 0x80) = false /\ (u <? 0x800) = false)
    by (unfold is_lead, is_trail; intros [H|H]; bool_to_prop; lia).
  destruct (is_lead u) eqn:El.
  - destruct (Hsur (or_introl eq_refl)) as [H1 H2]. rewrite H1, H2.
    destruct t as [|v t]; [reflexivity|]. cbn [andb drop].
    destruct (is_trail v) eqn:Ev; [|rewrite length_app; reflexivity].
    rewrite length_app. f_equal. unfold utf8_bytes. unfold is_lead, is_trail in *. bool_to_prop.
    destruct (Z.ltb_spec (0x10000 + (u - 0xd800) * 1024 + (v - 0xdc00)) 0x80); [lia|].
    destruct (Z.ltb_spec (0x10000 + (u - 0xd800) * 1024 + (v - 0xdc00)) 0x800); [lia|].
    destruct (Z.ltb_spec (0x10000 + (u - 0xd800) * 1024 + (v - 0xdc00)) 0x10000); [lia|]. reflexivity.
  - assert (Ef : (match t with v :: _ => false && is_trail v | [] => false end) = false) by (destruct t; done).
    rewrite Ef. destruct (is_trail u) eqn:Et.
    + destruct (Hsur (or_intror eq_refl)) as [H1 H2]. rewrite H1, H2, length_app. reflexivity.
    + rewrite length_app, Hbytes by lia. reflexivity.
Qed.

(** The prefix of length [n] ends between two code points. *)
Definition whole (t : text) (n : nat) : Prop :=
  (n <= length t)%nat /\
  forall u v, (0 < n)%nat -> t !! (n - 1)%nat = Some u -> t !! n = Some v -> is_lead u && is_trail v = false.

(** The bytes the encoder gives the prefix of length [n]. *)
Definition prefix_bytes (t : text) (n : nat) : Z := size (utf8 (take n t)).

Definition front_units (t : text) : nat := if front_pair t then 2%nat else 1%nat.

(** A prefix is the first code point and a prefix of the rest. *)
Lemma whole_front u t n :
  is_unit u -> whole (u :: t) n -> (0 < n)%nat ->
  (front_units (u :: t) <= n)%nat /\ whole (drop (front_units (u :: t)) (u :: t)) (n - front_units (u :: t)) /\
  prefix_bytes (u :: t) n =
    Z.of_nat (front_bytes (u :: t)) + prefix_bytes (drop (front_units (u :: t)) (u :: t)) (n - front_units (u :: t)).
Proof.
  intros Hu [Hn Hw] Hpos. cbn [length] in Hn.
  assert (Hge : (front_units (u :: t) <= n)%nat).
  { unfold front_units, front_pair. destruct t as [|v t]; [lia|].
    destruct (is_lead u && is_trail v) eqn:E; [|lia].
    destruct (Nat.eq_dec n 1) as [->|]; [|lia]. specialize (Hw u v Hpos eq_refl eq_refl). congruence. }
  assert (Hpair : front_pair (take n (u :: t)) = front_pair (u :: t)).
  { unfold front_units in Hge. destruct n as [|[|n]]; [lia| |destruct t; reflexivity].
    cbn. destruct (front_pair (u :: t)) eqn:E; [lia|]. unfold front_pair in E. destruct t; [done|]. rewrite E. done. }
  split; [done|]. split.
  - set (k := front_units (u :: t)) in *. split; [rewrite length_drop; cbn [length]; lia|].
    intros a b H0 Ha Hb. rewrite lookup_drop in Ha, Hb. apply Hw; [lia| |].
    + rewrite <- Ha. f_equal. lia.
    + rewrite <- Hb. f_equal. lia.
  - unfold prefix_bytes, size.
    replace (take n (u :: t)) with (u :: take (n - 1) t)
      by (destruct n as [|n]; [lia|]; cbn; rewrite Nat.sub_0_r; reflexivity).
    rewrite utf8_front by done.
    assert (Et : u :: take (n - 1) t = take n (u :: t))
      by (destruct n as [|n]; [lia|]; cbn; rewrite Nat.sub_0_r; reflexivity).
    rewrite <- Et in Hpair.
    assert (Eb : front_bytes (u :: take (n - 1) t) = front_bytes (u :: t)).
    { unfold front_bytes. rewrite Hpair. reflexivity. }
    rewrite Eb, Hpair, Nat2Z.inj_add. do 4 f_equal.
    unfold front_units in *. destruct (front_pair (u :: t)); cbn [drop]; [|reflexivity].
    destruct n as [|[|n]]; [lia|lia|]. destruct t; cbn; rewrite ?Nat.sub_0_r, ?take_nil; reflexivity.
Qed.

Lemma cut_loop_spec fuel t bytes index :
  Forall is_unit t -> (length t - index < fuel)%nat -> (index <= length t)%nat -> Z.of_nat bytes <= scanBytes ->
  exists k, cut_loop fuel t bytes index = (index + k)%nat /\ whole (drop index t) k /\
    Z.of_nat bytes + prefix_bytes (drop index t) k <= scanBytes /\
    forall n, (k < n)%nat -> whole (drop index t) n -> scanBytes < Z.of_nat bytes + prefix_bytes (drop index t) n.
Proof.
  intros Hu. revert bytes index. induction fuel as [|fuel IH]; intros bytes index Hf Hi Hb; [lia|].
  cbn [cut_loop]. destruct (t !! index) as [u|] eqn:E.
  2: { apply lookup_ge_None in E. exists 0%nat. rewrite drop_ge by lia. split; [lia|].
       split; [split; [cbn; lia|lia]|]. split; [unfold prefix_bytes, size; cbn; lia|].
       intros n Hn [Hn' _]. cbn in Hn'. lia. }
  pose proof (lookup_lt_Some _ _ _ E) as Hlt. pose proof (drop_S _ _ _ E) as Ed.
  assert (Hunit : is_unit u) by (rewrite Forall_lookup in Hu; eauto).
  set (pair := is_lead u && match t !! S index with None => false | Some next => js_and next 0xfc00 =? 0xdc00 end).
  assert (Hpair : pair = front_pair (drop index t)).
  { unfold pair. rewrite Ed. cbn [front_pair]. destruct (t !! S index) as [v|] eqn:Ev.
    - rewrite (drop_S _ _ _ Ev), trail_mask; [done|]. rewrite Forall_lookup in Hu. eauto.
    - apply lookup_ge_None in Ev. rewrite drop_ge by lia. apply andb_false_r. }
  set (size_ := (if pair then 4 else if Z.ltb u 0x80 then 1 else if Z.ltb u 0x800 then 2 else 3)%nat).
  assert (Hsize : size_ = front_bytes (drop index t)).
  { unfold size_, front_bytes. rewrite Hpair, Ed. reflexivity. }
  assert (Hunits : (if pair then 2 else 1)%nat = front_units (drop index t)) by (unfold front_units; rewrite Hpair; done).
  rewrite Hunits. set (d := front_units (drop index t)).
  assert (Hfront : forall n, (0 < n)%nat -> whole (drop index t) n ->
    (d <= n)%nat /\ whole (drop (index + d) t) (n - d) /\
    prefix_bytes (drop index t) n = Z.of_nat size_ + prefix_bytes (drop (index + d) t) (n - d)).
  { intros n Hn Hw. rewrite Hsize, <- drop_drop. unfold d. rewrite Ed in *. apply whole_front; done. }
  destruct (Z.ltb_spec scanBytes (Z.of_nat (bytes + size_))) as [Hover|Hfit].
  - exists 0%nat. split; [lia|]. split; [split; [lia|lia]|].
    split; [unfold prefix_bytes, size; rewrite take_0; cbn; lia|].
    intros n Hn Hw. destruct (Hfront n Hn Hw) as (_ & _ & ->). unfold prefix_bytes, size. lia.
  - assert (Hd : (1 <= d <= length t - index)%nat).
    { unfold d, front_units, front_pair. rewrite Ed. destruct (drop (S index) t) as [|v r] eqn:Er; [lia|].
      apply (f_equal length) in Er. rewrite length_drop in Er. cbn in Er.
      destruct (is_lead u && is_trail v); lia. }
    destruct (IH (bytes + size_)%nat (index + d)%nat) as (k & Hk & Hwk & Hle & Hmax); [lia|lia|lia|].
    exists (d + k)%nat. rewrite Hk. split; [lia|].
    assert (Hw : whole (drop index t) (d + k)).
    { destruct Hwk as [Hkl Hkw]. rewrite length_drop in Hkl. split; [rewrite length_drop; lia|].
      intros a b _ Ha Hb'. rewrite lookup_drop in Ha, Hb'. destruct k as [|k].
      - destruct (is_lead a && is_trail b) eqn:Eab; [exfalso|done]. 
        revert Ha Hb'. unfold d, front_units. rewrite Nat.add_0_r. destruct (front_pair (drop index t)) eqn:Ef.
        + replace (index + (2 - 1))%nat with (S index) by lia. intros Ha Hb'. rewrite Ed in Ef. cbn [front_pair] in Ef.
          rewrite (drop_S _ _ _ Ha) in Ef. unfold is_lead, is_trail in Ef, Eab. bool_to_prop. lia.
        + replace (index + (1 - 1))%nat with index by lia. replace (index + 1)%nat with (S index) by lia.
          intros Ha Hb'. rewrite Ed in Ef. cbn [front_pair] in Ef. rewrite (drop_S _ _ _ Hb') in Ef. congruence.
      - apply Hkw; [lia| |]; rewrite lookup_drop; [rewrite <- Ha|rewrite <- Hb']; f_equal; lia. }
    split; [exact Hw|]. split.
    + destruct (Hfront (d + k)%nat ltac:(lia) Hw) as (_ & _ & ->).
      replace (d + k - d)%nat with k by lia. lia.
    + intros n Hn Hwn. destruct (Hfront n ltac:(lia) Hwn) as (_ & Hw' & ->).
      specialize (Hmax (n - d)%nat ltac:(lia) Hw'). lia.
Qed.

Lemma utf8_length t : Forall is_unit t -> (length (utf8 t) <= 3 * length t)%nat.
Proof.
  induction t as [t IH] using (induction_ltof1 _ (@length Z)). unfold ltof in IH. intros Hu.
  destruct t as [|u t]; [cbn; lia|]. apply Forall_cons in Hu as [Hu Ht].
  rewrite utf8_front by done. unfold front_bytes.
  destruct (front_pair (u :: t)) eqn:Ef.
  - destruct t as [|v t]; [discriminate Ef|]. rewrite skipn_cons, drop_0. cbn [length].
    apply Forall_cons in Ht as [_ Ht]. specialize (IH t ltac:(cbn; lia) Ht).
    lia.
  - specialize (IH t ltac:(cbn; lia) Ht). cbn [length].
    destruct (u <? 0x80); [lia|]. destruct (u <? 0x800); lia.
Qed.

(** The scan window is the longest prefix that fits: it ends between two
    code points, its UTF-8 encoding takes at most 16 KiB, and every longer
    prefix that ends between two code points takes more. *)
Theorem scan_cut_longest t :
  Forall is_unit t ->
  whole t (scanCut t) /\ prefix_bytes t (scanCut t) <= scanBytes /\
  forall n, (scanCut t < n)%nat -> whole t n -> scanBytes < prefix_bytes t n.
Proof.
  intros Hu. unfold scanCut. destruct (Z.leb_spec (size t * 3) scanBytes) as [Hs|Hs].
  - split; [split; [lia|]|split].
    + intros u v _ _ Hv. apply lookup_lt_Some in Hv. lia.
    + unfold prefix_bytes, size in *. rewrite firstn_all. pose proof (utf8_length t Hu). lia.
    + intros n Hn [Hn' _]. lia.
  - destruct (cut_loop_spec (S (length t)) t 0 0 Hu) as (k & Hk & H1 & H2 & H3);
      [lia|lia|unfold scanBytes; lia|].
    rewrite Hk. change (drop 0 t) with t in *. rewrite Nat.add_0_l. split; [exact H1|]. split; [lia|].
    intros n Hn Hw. specialize (H3 n Hn Hw). lia.
Qed.

Lemma scan_cut_longest_witness :
  whole [97; 0xd83d; 0xde00] 1 /\ ~ whole [97; 0xd83d; 0xde00] 2 /\
  prefix_bytes [97; 0xd83d; 0xde00] (scanCut [97; 0xd83d; 0xde00]) <= scanBytes.
Proof.
  split; [split; [cbn; lia|intros u v _ [= <-] [= <-]; reflexivity]|].
  split; [intros [_ H]; specialize (H _ _ ltac:(lia) eq_refl eq_refl); discriminate H|].
  apply (scan_cut_longest [97; 0xd83d; 0xde00]). repeat constructor; unfold is_unit; lia.
Defined.

(** ** Sampling *)

Section Sampling.
Context `{!JsText}.

Lemma percent_literals k :
  0 <= k <= 100 ->
  num_geb (num_of_Z k) (num_of_Z 100) = (100 <=? k) /\ num_leb (num_of_Z k) (num_of_Z 0) = (k <=? 0) /\
  num_integer (num_of_Z k) = Some k.
Proof.
  intros Hk.
  assert (E : forallb (fun k =>
      Bool.eqb (num_geb (num_of_Z k) (num_of_Z 100)) (100 <=? k) &&
      Bool.eqb (num_leb (num_of_Z k) (num_of_Z 0)) (k <=? 0) &&
      bool_decide (num_integer (num_of_Z k) = Some k)) (seqZ 0 101) = true) by (vm_compute; reflexivity).
  rewrite forallb_forall in E. specialize (E k). rewrite <- list_elem_of_In, elem_of_seqZ in E.
  specialize (E ltac:(lia)). apply andb_true_iff in E as [E E3]. apply andb_true_iff in E as [E1 E2].
  apply Bool.eqb_prop in E1, E2. apply bool_decide_eq_true in E3. auto.
Qed.

Lemma trace_bucket_range id : 0 <= trace_bucket id < 100.
Proof. apply Z.mod_pos_bound. lia. Qed.

(** The verdict for a record: its trace's bucket, or its draw, against the
    percentage. *)
Definition sample_verdict (random : nat -> num) (traceId : option text) (k : Z) (draw : RecordDraw) : bool :=
  match traceId with
  | None | Some [] => (100 <=? k) || ((0 <? k) && num_ltb (num_mul (fst (once random draw)) (num_of_Z 100)) (num_of_Z k))
  | Some id => trace_bucket id <? k
  end.

Lemma keepBySample_spec random traceId k draw :
  0 <= k <= 100 ->
  exists draw', keepBySample random traceId (num_of_Z k) draw
                = Some (sample_verdict random traceId k draw, draw') /\
                (draw' = draw \/ draw' = snd (once random draw)).
Proof.
  intros Hk. destruct (percent_literals k Hk) as (H1 & H2 & H3).
  unfold keepBySample, sample_verdict. rewrite H1, H2, H3.
  destruct traceId as [[|c id]|].
  2: { exists draw. pose proof (trace_bucket_range (c :: id)).
       destruct (Z.leb_spec 100 k), (Z.leb_spec k 0); (split; [|auto]); try lia; do 2 f_equal; symmetry;
         (apply Z.ltb_lt; lia) || (apply Z.ltb_ge; lia) || done. }
  all: destruct (Z.leb_spec 100 k); [exists draw; auto|]; destruct (Z.leb_spec k 0) as [Hle|Hgt];
    [exists draw; split; [|auto]; destruct (Z.ltb_spec 0 k); [lia|done]|];
    destruct (Z.ltb_spec 0 k); [|lia]; destruct (once random draw) as [v d]; eexists; (split; [reflexivity|auto]).
Qed.

(** Sampling follows the trace: whatever the spelling of the trace id's
    case and whatever the rest of the record, a record with a trace id is kept
    exactly when the trace's bucket, a number below 100, is below the
    percentage; so no record of a trace is kept at zero, all are at a hundred,
    and a higher percentage keeps every trace a lower one keeps. *)
Theorem sampling_by_trace random draw id id' k k' :
  id <> [] -> id' <> [] -> toLowerCase id = toLowerCase id' -> 0 <= k <= k' -> k' <= 100 ->
  keepBySample random (Some id) (num_of_Z k) draw = Some (trace_bucket id <? k, draw) /\
  keepBySample random (Some id') (num_of_Z k) draw = keepBySample random (Some id) (num_of_Z k) draw /\
  (trace_bucket id <? 0) = false /\ (trace_bucket id <? 100) = true /\
  ((trace_bucket id <? k) = true -> (trace_bucket id' <? k') = true).
Proof.
  intros Hid Hid' Hcase Hk Hk'.
  assert (Hkeep : forall i, i <> [] -> keepBySample random (Some i) (num_of_Z k) draw = Some (trace_bucket i <? k, draw)).
  { intros i Hi. destruct (percent_literals k ltac:(lia)) as (H1 & H2 & H3).
    unfold keepBySample. rewrite H1, H2, H3. destruct i as [|c i]; [done|].
    pose proof (trace_bucket_range (c :: i)).
    destruct (Z.leb_spec 100 k), (Z.leb_spec k 0); try lia; do 2 f_equal; symmetry;
      (apply Z.ltb_lt; lia) || (apply Z.ltb_ge; lia) || done. }
  assert (Hb : trace_bucket id' = trace_bucket id) by (unfold trace_bucket; rewrite Hcase; done).
  pose proof (trace_bucket_range id). rewrite !Hkeep, Hb by done.
  split; [done|]. split; [done|]. split; [apply Z.ltb_ge; lia|]. split; [apply Z.ltb_lt; lia|].
  rewrite !Z.ltb_lt. lia.
Qed.

End Sampling.

(** ASCII case folding, enough for keys and trace ids. *)
Definition ascii_text : JsText :=
  {| toLowerCase t := List.map (fun c => if (65 <=? c) && (c <=? 90) then c + 32 else c) t;
     number_to_string n := match num_integer n with Some z => digits_text z | None => [] end |}.

Lemma sampling_by_trace_witness :
  @keepBySample ascii_text (fun _ => num_of_Z 0) (Some (lit "4BF92F35")) (num_of_Z 40) fresh_draw
  = @keepBySample ascii_text (fun _ => num_of_Z 0) (Some (lit "4bf92f35")) (num_of_Z 40) fresh_draw.
Proof.
  apply (@sampling_by_trace ascii_text (fun _ => num_of_Z 0) fresh_draw (lit "4bf92f35") (lit "4BF92F35") 40 41);
    discriminate || reflexivity || lia.
Defined.

Example glob_vectors :
  List.map (fun '(p, k) => @globMatches ascii_text (lit p) (lit k))
    [("*password*", "DB_PASSWORD_HASH"); ("http.request.header.*", "http.request.header.authorization");
     ("a*b*c", "axxbyyc"); ("a*b*c", "axxbyy"); ("user.id", "user.ids")]%string
  = [Some true; Some true; Some true; Some false; Some false].
Proof. vm_compute. reflexivity. Qed.
