(* ===== verification/IngestRedact.v ===== *)
(** * What applying the rules guarantees

    Theorems about [packages/ingest-rules/src/engine.ts] as a whole, on an
    engine of regular expressions that is a parameter: where the rules'
    searches never step back, [applyRules] answers with the outcome the rule
    language describes ([apply_outcome]); compilation sorts the rules into those that
    run and those that are reported ([compile_partition]); redaction keeps what
    routes and bills the data ([protected_keys_kept]), leaves no selected value
    at any depth ([selected_keys_gone]) and replaces exactly the matched text
    ([only_matches_replaced]). *)

From Stdlib Require Import Ascii String.
From stdpp Require Import prelude list strings.
From Stdlib Require Import ZArith Lia.
From S2P Require Import Prelude.
From S2P Require Import JsNum.
From S2P Require Import JsString.
From S2P Require Import IngestSha256.
From S2P Require Import IngestRegex.
From S2P Require Import IngestRules.
From S2P Require Import IngestDetectors.
From S2P Require Import IngestEngine.
From S2P Require Import IngestScan.

Open Scope Z_scope.

(** Induction over a value and the values inside it. *)
Section ValueInduction.
Variable P : AttrValue -> Prop.
Hypothesis Hleaf : forall v, match v with AList _ | AMap _ => False | _ => True end -> P v.
Hypothesis Hlist : forall l, Forall P l -> P (AList l).
Hypothesis Hmap : forall m, Forall (fun e => P e.2) m -> P (AMap m).

Fixpoint value_induction (v : AttrValue) : P v :=
  match v with
  | AList l =>
      Hlist l ((fix items l : Forall P l :=
        match l with
        | [] => Forall_nil_2 P
        | x :: l' => Forall_cons_2 P x l' (value_induction x) (items l')
        end) l)
  | AMap m =>
      Hmap m ((fix entries m : Forall (fun e => P e.2) m :=
        match m with
        | [] => Forall_nil_2 _
        | e :: m' => Forall_cons_2 (fun e : text * AttrValue => P e.2) e m' (value_induction e.2) (entries m')
        end) m)
  | v => Hleaf v I
  end.
End ValueInduction.

Section Redaction.
Context `{!RegExpEngine} `{!JsText}.

(** ** Spans *)

(** The text from [from] with each span replaced, left to right. *)
Fixpoint splice (from : nat) (spans : list Span) (t : text) (replace : text -> text) : text :=
  match spans with
  | [] => drop from t
  | s :: rest =>
      slice t from (sp_start s) ++ replace (slice t (sp_start s) (sp_end s)) ++ splice (sp_end s) rest t replace
  end.

Lemma replaceSpans_keeps_front from spans t replace :
  separate from (length t) spans -> (from <= length t)%nat ->
  replaceSpans t spans replace = take from t ++ splice from spans t replace.
Proof.
  revert from. induction spans as [|s rest IH]; intros from Hsep Hfrom; cbn [replaceSpans foldr splice].
  - symmetry. apply take_drop.
  - destruct Hsep as [Hs Hrest]. fold (replaceSpans t rest replace).
    rewrite (IH (sp_end s)) by (done || lia).
    assert (El : length (take (sp_end s) t) = sp_end s) by (rewrite length_take; lia).
    rewrite take_app_le by lia. rewrite drop_app_length' by lia.
    unfold slice at 1. rewrite take_app_length' by lia. rewrite take_take, Nat.min_l by lia.
    rewrite (app_assoc (take from t)). f_equal.
    unfold slice. rewrite <- (take_drop from (take (sp_start s) t)) at 1.
    rewrite take_take, Nat.min_l by lia. reflexivity.
Qed.

Lemma replaceSpans_splice spans t replace :
  separate 0 (length t) spans -> replaceSpans t spans replace = splice 0 spans t replace.
Proof. intros Hsep. rewrite (replaceSpans_keeps_front 0) by (done || lia). reflexivity. Qed.

(** A pass over a string changes the matches and nothing else: the spans
    [findAll] returns are replaced from left to right, the text between them
    is kept, and the count grows by their number, although the code rewrites
    the string from the last span to the first. *)
Theorem only_matches_replaced x label regex accepts head count :
  forward regex ->
  exists spans, findAll regex head accepts = Some spans /\
    Forall (accepted_match regex head accepts) spans /\
    scan_pass x label regex accepts (head, count)
    = Some (splice 0 spans head (replacement x label), count + size spans).
Proof.
  intros Hfw. destruct (findAll_spec regex head accepts Hfw) as (spans & E & Hsep & Hacc & _).
  exists spans. split; [exact E|]. split; [done|]. unfold scan_pass. rewrite E.
  rewrite replaceSpans_splice by done. reflexivity.
Qed.

(** ** Every computation answers *)

(** The pattern of a detector compiles, and its searches do not step back. *)
Definition detector_forward (d : IngestRuleDetector) : Prop :=
  exists regex, new_RegExp (detector_source d) (lit "gu") = Some regex /\ forward regex.

(** What the rule searches for is searched forward: its own patterns and the
    detectors it names. *)
Definition searches_forward (rule : CompiledRule) : Prop :=
  Forall forward (cr_patterns rule) /\
  match s_action (cr_spec rule) with
  | redact_action action => Forall detector_forward (a_detectors action)
  | drop_action _ => True
  end.

Lemma scan_pass_answers x label regex accepts state :
  forward regex -> is_Some (scan_pass x label regex accepts state).
Proof.
  intros Hf. destruct state as [head count]. unfold scan_pass.
  destruct (findAll_spec regex head accepts Hf) as (spans & -> & _). eauto.
Qed.

Lemma detector_passes_answers x detectors state :
  Forall detector_forward detectors -> is_Some (detector_passes x detectors state).
Proof.
  intros Hd. revert state. induction Hd as [|d rest (regex & Hc & Hf) _ IH]; intros state; cbn [detector_passes]; [eauto|].
  rewrite Hc. destruct (scan_pass_answers x (Some d) regex (accept d) state Hf) as [state' ->]. apply IH.
Qed.

Lemma pattern_passes_answers x patterns state :
  Forall forward patterns -> is_Some (pattern_passes x patterns state).
Proof.
  intros Hp. revert state. induction Hp as [|regex rest Hf _ IH]; intros state; cbn [pattern_passes]; [eauto|].
  destruct (scan_pass_answers x None regex (fun _ _ _ => true) state Hf) as [state' ->]. apply IH.
Qed.

Lemma key_selected_answers patterns key : is_Some (key_selected patterns key).
Proof.
  induction patterns as [|pattern rest IH]; cbn [key_selected]; [eauto|].
  destruct (glob_matches_answers pattern key) as ([] & -> & _); [eauto|apply IH].
Qed.

Section Answers.
Context (x : RedactContext).
Hypothesis detectors_forward : Forall detector_forward (x_detectors x).
Hypothesis patterns_forward : Forall forward (cr_patterns (x_rule x)).

Lemma scanString_answers t count : is_Some (scanString x t count).
Proof.
  unfold scanString. destruct (detector_passes_answers x (x_detectors x) (take (scanCut t) t, count)) as [s ->]; [done|].
  destruct (pattern_passes_answers x (cr_patterns (x_rule x)) s) as [[h c] ->]; [done|]. eauto.
Qed.

Lemma redact_entries_answers scan top m :
  Forall (fun e => forall count, is_Some (scan e.2 count)) m -> forall count, is_Some (redact_entries scan x top m count).
Proof.
  intros Hm. induction Hm as [|[key value] m Hv _ IH]; intros count; cbn [redact_entries]; [eauto|].
  destruct (top && isProtectedKey key); [destruct (IH count) as [[out c] ->]; eauto|].
  destruct (key_selected_answers (cr_keys (x_rule x)) key) as [[] ->].
  - destruct (IH (count + 1)) as [[out c] ->]. eauto.
  - destruct (Hv count) as [[next c] Hn]. cbn in Hn. rewrite Hn. destruct (IH c) as [[out c'] ->]. eauto.
Qed.

Lemma scan_items_answers scan l :
  Forall (fun v => forall count, is_Some (scan v count)) l -> forall count, is_Some (scan_items scan l count).
Proof.
  intros Hl. induction Hl as [|v l Hv _ IH]; intros count; cbn [scan_items]; [eauto|].
  destruct (Hv count) as [[next c] ->]. destruct (IH c) as [[out c'] ->]. eauto.
Qed.

Lemma scanValue_answers value : forall count, is_Some (scanValue x value count).
Proof.
  induction value as [v Hv|l IH|m IH] using value_induction; intros count.
  - destruct v; try destruct Hv; cbn [scanValue]; eauto.
    destruct (_ =? 0); [eauto|]. destruct (scanString_answers t count) as [[t' c] ->]. cbn. eauto.
  - cbn [scanValue]. destruct (scan_items_answers (scanValue x) l IH count) as [[l' c] ->]. cbn. eauto.
  - cbn [scanValue]. destruct (redact_entries_answers (scanValue x) false m IH count) as [[m' c] ->]. cbn. eauto.
Qed.

Lemma redactMap_answers m count top : is_Some (redactMap x m count top).
Proof. apply redact_entries_answers. apply Forall_forall. intros e _. apply scanValue_answers. Qed.

Lemma redact_events_answers events : forall count, is_Some (redact_events x events count).
Proof.
  induction events as [|event rest IH]; intros count; cbn [redact_events]; [eauto|].
  destruct (redactMap_answers (ev_attributes event) count true) as [[a c] ->].
  destruct (IH c) as [[out c'] ->]. eauto.
Qed.

Lemma when_answers {A} test (f : A -> Z -> option (A * Z)) value count :
  (forall v c, is_Some (f v c)) -> is_Some (when test f value count).
Proof. intros Hf. unfold when. destruct test; eauto. Qed.

Lemma on_some_answers {A} (f : A -> Z -> option (A * Z)) value count :
  (forall v c, is_Some (f v c)) -> is_Some (on_some f value count).
Proof. intros Hf. destruct value as [v|]; cbn; [|eauto]. destruct (Hf v count) as [[v' c] ->]. cbn. eauto. Qed.

End Answers.

Lemma redactRecord_answers record rule salt :
  searches_forward rule -> is_Some (redactRecord record rule salt).
Proof.
  unfold searches_forward, redactRecord. destruct (s_action (cr_spec rule)) as [k|action]; [eauto|]. intros [Hp Hd]. cbv zeta.
  set (x := {| x_rule := rule; x_method := _; x_detectors := _; x_salt := _ |}).
  edestruct (when_answers (A := AttrMap)) as [[a1 n1] ->]; [intros; by apply redactMap_answers|]. cbn [mbind option_bind].
  edestruct (when_answers (A := AttrMap)) as [[a2 n2] ->]; [intros; by apply redactMap_answers|]. cbn [mbind option_bind].
  edestruct (when_answers (A := option (list RuleEvent))) as [[a3 n3] ->];
    [intros; apply on_some_answers; intros; by apply redact_events_answers|]. cbn [mbind option_bind].
  edestruct (when_answers (A := option AttrValue)) as [[a4 n4] ->];
    [intros; apply on_some_answers; intros; by apply scanValue_answers|]. cbn [mbind option_bind].
  edestruct (when_answers (A := option text)) as [[a5 n5] ->];
    [intros; apply on_some_answers; intros; by apply scanString_answers|]. cbn [mbind option_bind]. eauto.
Qed.

Lemma redact_all_answers salt rules record redactions :
  Forall searches_forward rules -> is_Some (redact_all salt rules record redactions).
Proof.
  intros Hr. revert record redactions. induction Hr as [|rule rest Hf _ IH]; intros record redactions; cbn [redact_all]; [eauto|].
  destruct (redactRecord_answers record rule salt Hf) as [[next c] ->]. apply IH.
Qed.

(** ** Protected keys *)

Lemma redact_entries_protected scan x m key :
  isProtectedKey key = true ->
  forall count out count', redact_entries scan x true m count = Some (out, count') -> map_get key out = map_get key m.
Proof.
  intros Hp. induction m as [|[k v] m IH]; intros count out count' E; cbn [redact_entries] in E.
  { injection E as <- _. reflexivity. }
  cbn [map_get]. destruct (isProtectedKey k) eqn:Hk; cbn [andb] in E.
  - destruct (redact_entries scan x true m count) as [[o c]|] eqn:Er; [|discriminate].
    injection E as <- _. cbn [map_get]. rewrite (IH _ _ _ Er). reflexivity.
  - assert (Hne : key <> k) by congruence. rewrite decide_False by done.
    destruct (key_selected _ _) as [[]|]; [| |discriminate].
    + destruct (redact_entries scan x true m (count + 1)) as [[o c]|] eqn:Er; [|discriminate].
      injection E as <- _. destruct (keyReplacement x v); [|eauto]. cbn [map_get].
      rewrite decide_False by done. eauto.
    + destruct (scan v count) as [[next c0]|]; [|discriminate].
      destruct (redact_entries scan x true m c0) as [[o c]|] eqn:Er; [|discriminate].
      injection E as <- _. cbn [map_get]. rewrite decide_False by done. eauto.
Qed.

(** Everything about a record that no redaction touches. *)
Definition same_envelope (a b : RuleRecord) : Prop :=
  rec_signal a = rec_signal b /\ rec_name a = rec_name b /\ rec_traceId a = rec_traceId b /\
  rec_severityNumber a = rec_severityNumber b /\ rec_severityText a = rec_severityText b /\
  rec_spanKind a = rec_spanKind b /\ rec_spanStatus a = rec_spanStatus b /\
  (forall key, isProtectedKey key = true ->
     map_get key (rec_attributes a) = map_get key (rec_attributes b) /\
     map_get key (rec_resource a) = map_get key (rec_resource b)).

Lemma same_envelope_trans a b c : same_envelope a b -> same_envelope b c -> same_envelope a c.
Proof.
  unfold same_envelope. intros (A1 & A2 & A3 & A4 & A5 & A6 & A7 & A8) (B1 & B2 & B3 & B4 & B5 & B6 & B7 & B8).
  repeat split; try congruence; destruct (A8 key), (B8 key); congruence.
Qed.

Lemma when_protected test x m count out count' key :
  isProtectedKey key = true ->
  when test (fun m count => redactMap x m count true) m count = Some (out, count') -> map_get key out = map_get key m.
Proof.
  intros Hp. unfold when. destruct test; [|intros [= <- _]; reflexivity].
  apply redact_entries_protected, Hp.
Qed.

Lemma redactRecord_envelope record rule salt out count :
  redactRecord record rule salt = Some (out, count) -> same_envelope out record.
Proof.
  unfold redactRecord. destruct (s_action (cr_spec rule)) as [k|action].
  { intros [= <- _]. unfold same_envelope. auto 10. }
  cbv zeta. set (x := {| x_rule := rule; x_method := _; x_detectors := _; x_salt := _ |}). intros E.
  apply bind_Some in E as ([a1 n1] & E1 & E). apply bind_Some in E as ([a2 n2] & E2 & E).
  apply bind_Some in E as ([a3 n3] & E3 & E). apply bind_Some in E as ([a4 n4] & E4 & E).
  apply bind_Some in E as ([a5 n5] & E5 & E). injection E as <- _.
  unfold same_envelope. cbn. repeat split; eapply when_protected; eauto.
Qed.

Lemma redact_all_envelope salt rules record redactions out redactions' :
  redact_all salt rules record redactions = Some (out, redactions') -> same_envelope out record.
Proof.
  revert record redactions. induction rules as [|rule rest IH]; intros record redactions; cbn [redact_all].
  { intros [= <- _]. unfold same_envelope. auto 10. }
  destruct (redactRecord record rule salt) as [[next c]|] eqn:E; [|discriminate].
  intros H'. eapply same_envelope_trans; [eapply IH, H'|eapply redactRecord_envelope, E].
Qed.

(** What routes and bills the data survives every set of rules: a record
    that is kept keeps its signal, name, trace id, severity, span kind and
    status, and in its attributes and its resource the value of every
    protected key, present or absent. *)
Theorem protected_keys_kept compiled record random out matched redactions draw :
  applyRules compiled record random = Some (kept out matched redactions, draw) -> same_envelope out record.
Proof.
  unfold applyRules. destruct (find_dropper _ _ _ _) as [[[dropper|] d]|]; [discriminate| |discriminate].
  destruct (redact_all _ _ _ _) as [[o r]|] eqn:E; [|discriminate].
  intros [= <- _ _ _]. eapply redact_all_envelope, E.
Qed.

(** ** Selected keys *)

(** The entry [k: w] occurs somewhere inside a value. *)
Inductive inside : AttrValue -> text -> AttrValue -> Prop :=
  | inside_entry m k w : (k, w) ∈ m -> inside (AMap m) k w
  | inside_map m k' v k w : (k', v) ∈ m -> inside v k w -> inside (AMap m) k w
  | inside_list l v k w : v ∈ l -> inside v k w -> inside (AList l) k w.

(** It occurs in an attribute map, outside the protected attributes. *)
Definition inside_top (m : AttrMap) (k : text) (w : AttrValue) : Prop :=
  exists k' v, (k', v) ∈ m /\ isProtectedKey k' = false /\ ((k' = k /\ v = w) \/ inside v k w).

(** What a rule leaves under a key it selects. *)
Definition is_replacement (x : RedactContext) (w : AttrValue) : Prop :=
  match x_method x with
  | remove_method => False
  | mask_method => w = AString MASK
  | hash_method => w = AString MASK \/ exists t, w = AString (hashText (x_salt x) t)
  end.

Lemma keyReplacement_spec x v w : keyReplacement x v = Some w -> is_replacement x w.
Proof.
  unfold keyReplacement, is_replacement. destruct (x_method x); [| |discriminate].
  - intros [= <-]. done.
  - destruct v; intros [= <-]; eauto.
Qed.

Lemma replacement_is_leaf x w k u : is_replacement x w -> ~ inside w k u.
Proof.
  unfold is_replacement. destruct (x_method x); [intros ->|intros [->|[t ->]]|done]; intros Hi; inversion Hi.
Qed.

(** Where an entry of the output comes from. *)
Lemma redact_entries_inv scan x top m : forall count out count' k w,
  redact_entries scan x top m count = Some (out, count') -> (k, w) ∈ out ->
  (top = true /\ isProtectedKey k = true) \/
  (key_selected (cr_keys (x_rule x)) k = Some true /\ is_replacement x w) \/
  (key_selected (cr_keys (x_rule x)) k = Some false /\
   exists v n n', (k, v) ∈ m /\ scan v n = Some (w, n')).
Proof.
  induction m as [|[k0 v0] m IH]; intros count out count' k w E Hin; cbn [redact_entries] in E.
  { injection E as <- _. inversion Hin. }
  assert (Hlift : forall c o c', redact_entries scan x top m c = Some (o, c') -> (k, w) ∈ o ->
    (top = true /\ isProtectedKey k = true) \/
    (key_selected (cr_keys (x_rule x)) k = Some true /\ is_replacement x w) \/
    (key_selected (cr_keys (x_rule x)) k = Some false /\
     exists v n n', (k, v) ∈ (k0, v0) :: m /\ scan v n = Some (w, n'))).
  { intros c o c' Ec Ho. destruct (IH _ _ _ _ _ Ec Ho) as [Hl|[Hl|(Hs & v & n & n' & Hv & Hsc)]]; auto.
    right. right. split; [done|]. exists v, n, n'. split; [apply elem_of_cons; auto|done]. }
  destruct (top && isProtectedKey k0) eqn:Ht.
  - destruct (redact_entries scan x top m count) as [[o c]|] eqn:Er; [|discriminate]. injection E as <- _.
    apply elem_of_cons in Hin as [[= -> ->]|Hin]; [|eauto]. apply andb_true_iff in Ht. auto.
  - destruct (key_selected (cr_keys (x_rule x)) k0) as [[]|] eqn:Ek; [| |discriminate].
    + destruct (redact_entries scan x top m (count + 1)) as [[o c]|] eqn:Er; [|discriminate]. injection E as <- _.
      destruct (keyReplacement x v0) as [next|] eqn:En; [|eauto].
      apply elem_of_cons in Hin as [[= -> ->]|Hin]; [|eauto].
      right. left. split; [done|]. eapply keyReplacement_spec, En.
    + destruct (scan v0 count) as [[next c0]|] eqn:Es; [|discriminate].
      destruct (redact_entries scan x top m c0) as [[o c]|] eqn:Er; [|discriminate]. injection E as <- _.
      apply elem_of_cons in Hin as [[= -> ->]|Hin]; [|eauto].
      right. right. split; [done|]. exists v0, count, c0. split; [apply list_elem_of_here|done].
Qed.

Lemma scan_items_inv scan l : forall count out count' w,
  scan_items scan l count = Some (out, count') -> w ∈ out -> exists v n n', v ∈ l /\ scan v n = Some (w, n').
Proof.
  induction l as [|v0 l IH]; intros count out count' w E Hin; cbn [scan_items] in E.
  { injection E as <- _. inversion Hin. }
  destruct (scan v0 count) as [[next c0]|] eqn:Es; [|discriminate].
  destruct (scan_items scan l c0) as [[o c]|] eqn:Er; [|discriminate]. injection E as <- _.
  apply elem_of_cons in Hin as [->|Hin].
  - exists v0, count, c0. split; [apply list_elem_of_here|done].
  - destruct (IH _ _ _ _ Er Hin) as (v & n & n' & Hv & Hs). exists v, n, n'.
    split; [apply elem_of_cons; auto|done].
Qed.

Lemma scanValue_inside x value : forall count out count' k w,
  scanValue x value count = Some (out, count') -> inside out k w ->
  key_selected (cr_keys (x_rule x)) k = Some true -> is_replacement x w.
Proof.
  induction value as [v Hv|l IH|m IH] using value_induction; intros count out count' k w E Hin Hk.
  - assert (Hleaf : match out with AList _ | AMap _ => False | _ => True end).
    { destruct v; try destruct Hv; cbn [scanValue] in E; try (injection E as <- _; exact I).
      destruct (_ =? 0); [injection E as <- _; exact I|].
      destruct (scanString x t count) as [[t' c]|]; [|discriminate]. injection E as <- _. exact I. }
    inversion Hin; subst; destruct Hleaf.
  - cbn [scanValue] in E. destruct (scan_items (scanValue x) l count) as [[l' c]|] eqn:Es; [|discriminate].
    injection E as <- _. inversion Hin as [| |l0 v k0 w0 Hv Hi]; subst.
    destruct (scan_items_inv _ _ _ _ _ _ Es Hv) as (v0 & n & n' & Hv0 & Hs).
    rewrite Forall_forall in IH. eapply (IH v0); eauto.
  - cbn [scanValue] in E. destruct (redact_entries (scanValue x) x false m count) as [[m' c]|] eqn:Es; [|discriminate].
    injection E as <- _. inversion Hin as [m0 k0 w0 Hv|m0 k' v k0 w0 Hv Hi|]; subst.
    + destruct (redact_entries_inv _ _ _ _ _ _ _ _ _ Es Hv) as [[? _]|[[_ ?]|[Hf _]]]; [done|done|congruence].
    + destruct (redact_entries_inv _ _ _ _ _ _ _ _ _ Es Hv) as [[? _]|[[_ Hr]|(Hf & v0 & n & n' & Hv0 & Hs)]];
        [done|exfalso; eapply replacement_is_leaf; eauto|].
      rewrite Forall_forall in IH. eapply (IH (k', v0)); eauto.
Qed.

Lemma redactMap_inside x m count out count' k w :
  redactMap x m count true = Some (out, count') -> inside_top out k w ->
  key_selected (cr_keys (x_rule x)) k = Some true -> is_replacement x w.
Proof.
  intros E (k' & v & Hv & Hp & Hin) Hk.
  destruct (redact_entries_inv _ _ _ _ _ _ _ _ _ E Hv) as [[_ Hp']|[[Hs Hr]|(Hf & v0 & n & n' & Hv0 & Hsc)]].
  - congruence.
  - destruct Hin as [[-> ->]|Hin]; [done|]. exfalso. eapply replacement_is_leaf; eauto.
  - destruct Hin as [[-> ->]|Hin]; [congruence|]. eapply scanValue_inside; eauto.
Qed.

(** C26: A key a redaction selects leaks nothing: after the rule ran over the
    attributes, the resource or the body of a record, whatever still stands
    under a selected key, at any depth of lists and nested maps and outside
    the protected attributes, is the mask or a hash; under the remove method
    nothing does. *)
Theorem selected_keys_gone record rule salt action out count k w :
  s_action (cr_spec rule) = redact_action action ->
  redactRecord record rule salt = Some (out, count) ->
  key_selected (cr_keys rule) k = Some true ->
  (scopeHas rule attributes_scope = true /\ inside_top (rec_attributes out) k w) \/
  (scopeHas rule resource_scope = true /\ inside_top (rec_resource out) k w) \/
  (scopeHas rule body_scope = true /\ exists b, rec_body out = Some b /\ inside b k w) ->
  is_replacement {| x_rule := rule; x_method := a_method action; x_detectors := a_detectors action; x_salt := salt |} w.
Proof.
  unfold redactRecord. intros Ha. rewrite Ha. cbv zeta.
  set (x := {| x_rule := rule; x_method := _; x_detectors := _; x_salt := _ |}). intros E Hk.
  apply bind_Some in E as ([a1 n1] & E1 & E). apply bind_Some in E as ([a2 n2] & E2 & E).
  apply bind_Some in E as ([a3 n3] & E3 & E). apply bind_Some in E as ([a4 n4] & E4 & E).
  apply bind_Some in E as ([a5 n5] & E5 & E). injection E as <- _. cbn.
  intros [[Hs Hi]|[[Hs Hi]|(Hs & b & -> & Hi)]].
  - rewrite Hs in E1. eapply redactMap_inside; eauto.
  - rewrite Hs in E2. eapply redactMap_inside; eauto.
  - rewrite Hs in E4. unfold when in E4. destruct (rec_body record) as [b0|]; [|discriminate].
    unfold on_some in E4. destruct (scanValue x b0 n3) as [[b' c]|] eqn:Eb; [|discriminate].
    injection E4 as -> _.
    eapply scanValue_inside; eauto.
Qed.

(** ** Compilation *)

Lemma compile_loop_acc index specs rules invalid :
  compile_loop index specs rules invalid
  = (rules ++ fst (compile_loop index specs [] []), invalid ++ snd (compile_loop index specs [] [])).
Proof.
  revert index rules invalid. induction specs as [|spec specs IH]; intros index rules invalid; cbn [compile_loop].
  - cbn. rewrite !app_nil_r. reflexivity.
  - destruct (0 <? size (ingestRuleProblems spec)).
    + rewrite IH, (IH (S index) [] ([] ++ _)). cbn [fst snd app]. rewrite <- app_assoc. reflexivity.
    + rewrite IH, (IH (S index) ([] ++ _) []). cbn [fst snd app]. rewrite <- app_assoc. reflexivity.
Qed.

(** The rules that run and the rules that are reported, from [index] on. *)
Lemma compile_loop_spec index specs :
  let '(rules, invalid) := compile_loop index specs [] [] in
  Forall (fun r => exists i spec, specs !! i = Some spec /\ r = compile_rule (index + i) spec /\
                                  ingestRuleProblems spec = []) rules /\
  Forall (fun v => exists i spec, specs !! i = Some spec /\ iv_index v = (index + i)%nat /\
                                  iv_problems v = ingestRuleProblems spec /\ iv_problems v <> []) invalid /\
  Permutation (List.map cr_index rules ++ List.map iv_index invalid) (seq index (length specs)).
Proof.
  revert index. induction specs as [|spec specs IH]; intros index; cbn [compile_loop].
  { split; [constructor|]. split; [constructor|]. constructor. }
  specialize (IH (S index)). destruct (0 <? size (ingestRuleProblems spec)) eqn:Es;
    rewrite compile_loop_acc; destruct (compile_loop (S index) specs [] []) as [rules invalid];
    cbn [fst snd app] in *; destruct IH as (H1 & H2 & H3).
  - split; [|split].
    + eapply Forall_impl; [exact H1|]. intros r (i & sp & Hi & -> & Hp). exists (S i), sp.
      rewrite Nat.add_succ_r. auto.
    + constructor.
      * exists 0%nat, spec. rewrite Nat.add_0_r. repeat split. intros E. cbn in E. rewrite E in Es. discriminate Es.
      * eapply Forall_impl; [exact H2|]. intros v (i & sp & Hi & Hx & Hp). exists (S i), sp.
        rewrite Nat.add_succ_r. auto.
    + cbn [List.map iv_index length seq]. rewrite <- Permutation_middle. constructor. exact H3.
  - split; [|split].
    + constructor.
      * exists 0%nat, spec. rewrite Nat.add_0_r. repeat split.
        destruct (ingestRuleProblems spec); [done|discriminate Es].
      * eapply Forall_impl; [exact H1|]. intros r (i & sp & Hi & -> & Hp). exists (S i), sp.
        rewrite Nat.add_succ_r. auto.
    + eapply Forall_impl; [exact H2|]. intros v (i & sp & Hi & Hx & Hp). exists (S i), sp.
      rewrite Nat.add_succ_r. auto.
    + cbn [List.map length seq app]. constructor. exact H3.
Qed.

(** Compilation loses no rule: every position of the input is either that
    of one rule that runs, compiled from the rule there, which has no problem,
    or that of one reported rule, with its problems, of which there are some. *)
Theorem compile_partition specs salt :
  let compiled := compileRules specs salt in
  Forall (fun r => exists spec, specs !! cr_index r = Some spec /\ r = compile_rule (cr_index r) spec /\
                                ingestRuleProblems spec = []) (cs_rules compiled) /\
  Forall (fun v => exists spec, specs !! iv_index v = Some spec /\ iv_problems v = ingestRuleProblems spec /\
                                iv_problems v <> []) (cs_invalid compiled) /\
  Permutation (List.map cr_index (cs_rules compiled) ++ List.map iv_index (cs_invalid compiled))
    (seq 0 (length specs)).
Proof.
  unfold compileRules. pose proof (compile_loop_spec 0 specs) as H3.
  destruct (compile_loop 0 specs [] []) as [rules invalid]. cbn. destruct H3 as (H1 & H2 & H3).
  split; [|split; [|exact H3]].
  - eapply Forall_impl; [exact H1|]. intros r (i & spec & Hi & -> & Hp). exists spec. cbn. auto.
  - eapply Forall_impl; [exact H2|]. intros v (i & spec & Hi & -> & Hp). exists spec. auto.
Qed.

(** A rule that runs has a whole percentage. *)
Lemma compiled_percent specs salt r k :
  r ∈ cs_rules (compileRules specs salt) -> s_action (cr_spec r) = drop_action k -> is_Some (num_integer k).
Proof.
  unfold compileRules. pose proof (compile_loop_spec 0 specs) as Hspec.
  destruct (compile_loop 0 specs [] []) as [rules invalid]. cbn [cs_rules]. destruct Hspec as (H1 & _ & _).
  rewrite Forall_forall in H1. intros Hr Hk. destruct (H1 r Hr) as (i & spec & _ & -> & Hp). cbn in Hk.
  unfold ingestRuleProblems in Hp. rewrite Hk in Hp.
  apply app_eq_nil in Hp as [_ Hp]. apply app_eq_nil in Hp as [_ Hp].
  apply app_eq_nil in Hp as [_ Hp]. apply app_eq_nil in Hp as [_ Hp]. apply app_eq_nil in Hp as [Hp _].
  apply push_if_nil in Hp. apply orb_false_iff in Hp as [Hp _]. apply orb_false_iff in Hp as [Hp _].
  unfold is_integer in Hp. destruct (num_integer k); [eauto|discriminate].
Qed.

(** ** The outcome *)

(** Whether the rule lets a record pass whose draw, if it needs one, is [v]. *)
Definition lets_pass (v : num) (traceId : option text) (rule : CompiledRule) : bool :=
  match s_action (cr_spec rule) with
  | redact_action _ => true
  | drop_action keepPercent =>
      num_geb keepPercent (num_of_Z 100) ||
      (negb (num_leb keepPercent (num_of_Z 0)) &&
       match traceId with
       | None | Some [] => num_ltb (num_mul v (num_of_Z 100)) keepPercent
       | Some id => match num_integer keepPercent with Some k => trace_bucket id <? k | None => false end
       end)
  end.

(** The draw of a record: not taken, or the first answer of [random]. *)
Definition one_draw (random : nat -> num) (draw : RecordDraw) : Prop :=
  draw = fresh_draw \/ draw = {| d_value := Some (random 0%nat); d_calls := 1 |}.

Lemma once_one_draw random draw :
  one_draw random draw -> exists draw', once random draw = (random 0%nat, draw') /\ one_draw random draw'.
Proof. intros [-> | ->]; eexists; (split; [reflexivity|]); right; reflexivity. Qed.

Lemma keepBySample_passes random traceId keepPercent draw rule :
  s_action (cr_spec rule) = drop_action keepPercent -> is_Some (num_integer keepPercent) -> one_draw random draw ->
  exists draw', keepBySample random traceId keepPercent draw = Some (lets_pass (random 0%nat) traceId rule, draw') /\
                one_draw random draw'.
Proof.
  intros Ha [k Hk] Hd. unfold keepBySample, lets_pass. rewrite Ha, Hk.
  destruct (num_geb keepPercent (num_of_Z 100)); [eauto|].
  destruct (num_leb keepPercent (num_of_Z 0)); [eauto|]. cbn [orb negb andb].
  destruct (once_one_draw random draw Hd) as (draw' & Ho & Hd').
  destruct traceId as [[|c id]|]; rewrite ?Ho; eauto.
Qed.

Lemma find_dropper_spec random traceId matching draw :
  Forall (fun r => forall k, s_action (cr_spec r) = drop_action k -> is_Some (num_integer k)) matching ->
  one_draw random draw ->
  exists draw', find_dropper random traceId matching draw
                = Some (List.find (fun r => negb (lets_pass (random 0%nat) traceId r)) matching, draw') /\
                one_draw random draw'.
Proof.
  intros Hm. revert draw. induction Hm as [|r matching Hr _ IH]; intros draw Hd; cbn [find_dropper List.find]; [eauto|].
  destruct (s_action (cr_spec r)) as [k|action] eqn:Ha.
  - destruct (keepBySample_passes random traceId k draw r Ha (Hr k eq_refl) Hd) as (d & -> & Hd').
    destruct (lets_pass (random 0%nat) traceId r); cbn [negb]; [apply IH, Hd'|eauto].
  - assert (Hp : lets_pass (random 0%nat) traceId r = true) by (unfold lets_pass; rewrite Ha; done).
    rewrite Hp. cbn [negb]. apply IH, Hd.
Qed.

(** C2: Applying compiled rules answers with the outcome the rule language
    describes: the record is dropped by the first matching drop rule that does
    not let it pass, and otherwise kept with the matching redactions applied in
    order; conditions see the record as received; and [random] is called at
    most once, all drop rules sharing its answer. It is asked of the patterns
    and detectors of the compiled redaction rules, and of nothing else, that
    their searches never match before the index they start from (and that the
    code's own detector literals compile). A pattern can break this: see
    [boundary_pattern_hangs], where the word boundary, which the validator
    accepts, makes the search run for ever on a surrogate pair. Rules without
    patterns and detectors, drop rules among them, meet it as they are. *)
Theorem apply_outcome specs salt record random :
  Forall searches_forward (cs_rules (compileRules specs salt)) ->
  let compiled := compileRules specs salt in
  let matching := List.filter (fun rule => ruleMatches rule record) (cs_rules compiled) in
  let matched := List.map cr_index matching in
  exists outcome draw,
    applyRules compiled record random = Some (outcome, draw) /\ (d_calls draw <= 1)%nat /\
    match List.find (fun rule => negb (lets_pass (random 0%nat) (rec_traceId record) rule)) matching with
    | Some dropper => outcome = dropped (cr_index dropper) matched
    | None =>
        exists redacted redactions,
          redact_all (cs_salt compiled) (List.filter is_redact matching) record [] = Some (redacted, redactions) /\
          outcome = kept redacted matched redactions
    end.
Proof.
  intros Hforward compiled matching matched. unfold applyRules. fold matching matched.
  destruct (find_dropper_spec random (rec_traceId record) matching fresh_draw) as (draw & -> & Hd).
  - apply Forall_forall. intros r Hr k Hk. apply (compiled_percent specs salt r k); [|done].
    apply list_elem_of_In in Hr. apply filter_In in Hr as [Hr _]. apply list_elem_of_In, Hr.
  - left. reflexivity.
  - assert (Hcalls : (d_calls draw <= 1)%nat) by (destruct Hd as [-> | ->]; cbn; lia).
    destruct (List.find _ matching) as [dropper|]; [eauto 6|].
    destruct (redact_all_answers (cs_salt compiled) (List.filter is_redact matching) record []) as [[redacted redactions] E].
    { apply Forall_forall. intros r [Hr _]%list_elem_of_In%filter_In.
      apply filter_In in Hr as [Hr _]. rewrite Forall_forall in Hforward. by apply Hforward, list_elem_of_In. }
    rewrite E. eexists _, _. split; [reflexivity|]. split; [exact Hcalls|]. eauto.
Qed.

End Redaction.

(** ** A concrete rule

    Two rules on an engine that searches for single characters: mask every
    attribute, and drop half of the records of the service [api]. *)

#[local] Existing Instances char_engine ascii_text.

Definition mask_action : IngestRuleRedactAction :=
  {| a_keys := [lit "*"]; a_detectors := []; a_patterns := []; a_scopes := [attributes_scope; body_scope];
     a_method := mask_method |}.

Definition mask_all : IngestRuleSpec :=
  {| s_signals := [logs]; s_conditions := []; s_action := redact_action mask_action |}.

Definition halve_api : IngestRuleSpec :=
  {| s_signals := [logs];
     s_conditions := [{| c_field := service_name; c_key := None; c_op := eq_op; c_value := Some (lit "api");
                         c_values := None |}];
     s_action := drop_action (num_of_Z 50) |}.

Definition sample_rules : CompiledRules := compileRules [mask_all; halve_api] (lit "salt").

Definition sample_record (service : text) : RuleRecord :=
  {| rec_signal := logs;
     rec_resource := [(lit "service.name", AString service)];
     rec_attributes := [(lit "maple_org_id", AString (lit "org")); (lit "password", AString (lit "hunter2"))];
     rec_name := None;
     rec_body := Some (AList [AMap [(lit "maple_org_id", AString (lit "mine"))]]);
     rec_severityNumber := None; rec_severityText := None; rec_traceId := None; rec_spanKind := None;
     rec_spanStatus := None; rec_statusMessage := None; rec_events := None |}.

(** The record as the masking rule leaves it. *)
Definition masked_record (service : text) : RuleRecord :=
  {| rec_signal := logs;
     rec_resource := [(lit "service.name", AString service)];
     rec_attributes := [(lit "maple_org_id", AString (lit "org")); (lit "password", AString MASK)];
     rec_name := None;
     rec_body := Some (AList [AMap [(lit "maple_org_id", AString MASK)]]);
     rec_severityNumber := None; rec_severityText := None; rec_traceId := None; rec_spanKind := None;
     rec_spanStatus := None; rec_statusMessage := None; rec_events := None |}.

Lemma char_literals d : is_Some (new_RegExp (detector_source d) (lit "gu")).
Proof. destruct d; eexists; reflexivity. Qed.

Lemma only_matches_replaced_witness :
  let x := {| x_rule := compile_rule 0 mask_all; x_method := mask_method; x_detectors := []; x_salt := [] |} in
  exists spans, findAll (chr "@") (lit "a@b@c") (fun _ _ _ => true) = Some spans /\
    Forall (accepted_match (chr "@") (lit "a@b@c") (fun _ _ _ => true)) spans /\
    scan_pass x None (chr "@") (fun _ _ _ => true) (lit "a@b@c", 0)
    = Some (splice 0 spans (lit "a@b@c") (replacement x None), 0 + size spans).
Proof.
  intros x. apply (only_matches_replaced x None (chr "@") (fun _ _ _ => true) (lit "a@b@c") 0).
  apply char_engine_forward.
Defined.

Lemma protected_keys_kept_witness :
  applyRules sample_rules (sample_record (lit "web")) (fun _ => num_of_Z 0)
  = Some (kept (masked_record (lit "web")) [0%nat] [(0%nat, 2)], fresh_draw) /\
  same_envelope (masked_record (lit "web")) (sample_record (lit "web")).
Proof.
  assert (E : applyRules sample_rules (sample_record (lit "web")) (fun _ => num_of_Z 0)
              = Some (kept (masked_record (lit "web")) [0%nat] [(0%nat, 2)], fresh_draw))
    by (vm_compute; reflexivity).
  split; [exact E|]. exact (protected_keys_kept _ _ _ _ _ _ _ E).
Defined.

Lemma selected_keys_gone_witness :
  let x := {| x_rule := compile_rule 0 mask_all; x_method := mask_method; x_detectors := []; x_salt := [] |} in
  inside (AList [AMap [(lit "maple_org_id", AString MASK)]]) (lit "maple_org_id") (AString MASK) /\
  is_replacement x (AString MASK).
Proof.
  intros x.
  assert (Hin : inside (AList [AMap [(lit "maple_org_id", AString MASK)]]) (lit "maple_org_id") (AString MASK)).
  { eapply inside_list; [apply list_elem_of_here|]. apply inside_entry, list_elem_of_here. }
  split; [exact Hin|].
  eapply (selected_keys_gone (sample_record (lit "web")) (compile_rule 0 mask_all) [] mask_action
            (masked_record (lit "web")) 2 (lit "maple_org_id") (AString MASK)).
  - reflexivity.
  - vm_compute. reflexivity.
  - vm_compute. reflexivity.
  - right. right. split; [reflexivity|]. eexists. split; [reflexivity|exact Hin].
Defined.

(** Mask what looks like an address, and every at sign, in the body. *)
Definition mask_body : IngestRuleSpec :=
  {| s_signals := [logs]; s_conditions := [];
     s_action := redact_action {| a_keys := []; a_detectors := [email]; a_patterns := [lit "@"]; a_scopes := [body_scope];
                                  a_method := mask_method |} |}.

Lemma char_rules_forward specs salt : Forall (@searches_forward char_engine) (cs_rules (compileRules specs salt)).
Proof.
  apply Forall_forall. intros r _. split.
  - apply Forall_forall. intros regex _. apply char_engine_forward.
  - destruct (s_action (cr_spec r)); [done|]. apply Forall_forall. intros d _.
    destruct (char_literals d) as [regex Hr]. exists regex. split; [done|]. apply char_engine_forward.
Qed.

Definition body_record (service body : text) : RuleRecord :=
  {| rec_signal := logs; rec_resource := [(lit "service.name", AString service)]; rec_attributes := []; rec_name := None;
     rec_body := Some (AString body);
     rec_severityNumber := None; rec_severityText := None; rec_traceId := None; rec_spanKind := None;
     rec_spanStatus := None; rec_statusMessage := None; rec_events := None |}.

Lemma apply_outcome_witness :
  let rules := compileRules [mask_body; halve_api] (lit "salt") in
  (exists draw, applyRules rules (body_record (lit "api") (lit "mail a@b")) (fun _ => num_of_Z 1)
                = Some (dropped 1 [0%nat; 1%nat], draw) /\ (d_calls draw <= 1)%nat) /\
  (exists draw, applyRules rules (body_record (lit "web") (lit "mail a@b")) (fun _ => num_of_Z 1)
                = Some (kept (body_record (lit "web") (lit "mail a" ++ MASK ++ lit "b")) [0%nat] [(0%nat, 1)], draw) /\
                (d_calls draw <= 1)%nat).
Proof.
  intros rules. split.
  - destruct (@apply_outcome char_engine ascii_text [mask_body; halve_api] (lit "salt")
      (body_record (lit "api") (lit "mail a@b")) (fun _ => num_of_Z 1) (char_rules_forward _ _))
      as (outcome & draw & E & Hd & Ho).
    exists draw. split; [|exact Hd]. unfold rules. rewrite E. f_equal. f_equal. vm_compute in Ho. exact Ho.
  - destruct (@apply_outcome char_engine ascii_text [mask_body; halve_api] (lit "salt")
      (body_record (lit "web") (lit "mail a@b")) (fun _ => num_of_Z 1) (char_rules_forward _ _))
      as (outcome & draw & E & Hd & Ho).
    exists draw. split; [|exact Hd]. unfold rules. rewrite E. f_equal. f_equal. vm_compute in Ho.
    destruct Ho as (redacted & redactions & [= <- <-] & ->). reflexivity.
Defined.
