(* ===== verification/JsRatio.v ===== *)
(** * Quotients of small integers

    The log miner compares [k / n] with a threshold, [k] and [n] counts of
    tokens. Below 2^53 integers are exact, [n / n] is exactly one, and [k / n]
    is rounded to a number below one when [k < n]: the rounding to 53 bits never
    reaches one, because [1 - 1/n] is at least [2^-53] away from it. Products,
    comparisons and roundings of integers below 2^53 are those of integers. *)

From stdpp Require Import prelude.
From Stdlib Require Import ZArith Lia Floats.SpecFloat.
From S2P Require Import Prelude.
From S2P Require Import JsNum.

Open Scope Z_scope.

Lemma digits2_pos_bounds m : 2 ^ (Z.pos (digits2_pos m) - 1) <= Z.pos m < 2 ^ Z.pos (digits2_pos m).
Proof.
  induction m as [m IH|m IH|]; cbn [digits2_pos]; [| |by split];
    rewrite Pos2Z.inj_succ, Z.pow_succ_r by lia;
    replace (Z.succ (Z.pos (digits2_pos m)) - 1) with (Z.succ (Z.pos (digits2_pos m) - 1)) by lia;
    rewrite Z.pow_succ_r by lia; lia.
Qed.

Lemma Zdigits2_unique q d : 1 <= d -> 2 ^ (d - 1) <= q < 2 ^ d -> Zdigits2 q = d.
Proof.
  intros Hd [Hlo Hhi]. assert (0 < 2 ^ (d - 1)) by (apply Z.pow_pos_nonneg; lia).
  destruct q as [|m|m]; [lia| |lia]. cbn [Zdigits2].
  pose proof (digits2_pos_bounds m) as [Blo Bhi]. set (k := Z.pos (digits2_pos m)) in *.
  destruct (Z.lt_trichotomy k d) as [Hk|[Hk|Hk]]; [|done|].
  - assert (2 ^ k <= 2 ^ (d - 1)) by (apply Z.pow_le_mono_r; lia). lia.
  - assert (2 ^ d <= 2 ^ (k - 1)) by (apply Z.pow_le_mono_r; lia). lia.
Qed.

Section Rounding.
Local Notation shr_fexp := (shr_fexp num_prec num_emax).
Local Notation round_aux := (binary_round_aux num_prec num_emax false).

Lemma fexp_shift d e : -1074 <= d + e - 53 -> fexp num_prec num_emax (d + e) - e = d - 53.
Proof. unfold fexp, emin, num_prec, num_emax. lia. Qed.

Lemma shr_fexp_53 q e l : 2 ^ 52 <= q < 2 ^ 53 -> -1074 <= e ->
  shr_fexp q e l = (shr_record_of_loc q l, e).
Proof.
  intros Hq He. unfold SpecFloat.shr_fexp. rewrite (Zdigits2_unique q 53), fexp_shift by lia. done.
Qed.

Lemma shr_fexp_54 q e l : 2 ^ 53 <= q < 2 ^ 54 -> -1075 <= e ->
  shr_fexp q e l = (shr_1 (shr_record_of_loc q l), e + 1).
Proof.
  intros Hq He. unfold SpecFloat.shr_fexp. rewrite (Zdigits2_unique q 54), fexp_shift by lia. done.
Qed.

Lemma shr_record_m q l : shr_m (shr_record_of_loc q l) = q.
Proof. by destruct l as [|[]]. Qed.

Lemma shr_1_m q l : 2 <= q -> shr_m (shr_1 (shr_record_of_loc q l)) = q / 2.
Proof.
  intros Hq. assert (forall r s, shr_m (shr_1 (Build_shr_record q r s)) = q / 2) as H.
  { intros r s. destruct q as [|[p|p|]|p]; try lia; cbn [shr_1 shr_m].
    all: by rewrite <- Z.div2_div. }
  destruct l as [|[]]; apply H.
Qed.

(** An even mantissa is not rounded up by the shift. *)
Lemma shr_1_even q l : 2 <= q -> Z.even q = true ->
  round_nearest_even (q / 2) (loc_of_shr_record (shr_1 (shr_record_of_loc q l))) = q / 2.
Proof.
  intros Hq He. assert (forall r s,
    round_nearest_even (q / 2) (loc_of_shr_record (shr_1 (Build_shr_record q r s))) = q / 2) as H.
  { intros r s. destruct q as [|[p|p|]|p]; try lia; try done. by destruct r, s. }
  destruct l as [|[]]; apply H.
Qed.

Lemma round_nearest_range m l : m <= round_nearest_even m l <= m + 1.
Proof. unfold round_nearest_even. destruct l as [|[]]; try destruct (Z.even m); lia. Qed.

(** The last step: the mantissa is normalised again after rounding. *)
Definition finish (m e : Z) : num :=
  let '(mrs, e') := shr_fexp m e loc_Exact in
  match shr_m mrs with
  | Z0 => S754_zero false
  | Z.pos m' => if e' <=? num_emax - num_prec then S754_finite false m' e' else S754_infinity false
  | _ => S754_nan
  end.

Lemma finish_keep m e : 2 ^ 52 <= m < 2 ^ 53 -> -1074 <= e <= 900 ->
  finish m e = S754_finite false (Z.to_pos m) e.
Proof.
  intros Hm He. unfold finish. rewrite shr_fexp_53 by lia. cbn [shr_record_of_loc shr_m].
  destruct m as [|m|m]; try lia. unfold num_emax, num_prec. by rewrite (proj2 (Z.leb_le e _)) by lia.
Qed.

Lemma finish_carry e : -1074 <= e <= 900 ->
  finish (2 ^ 53) e = S754_finite false (Z.to_pos (2 ^ 52)) (e + 1).
Proof.
  intros He. unfold finish. rewrite shr_fexp_54 by lia. cbn [shr_record_of_loc shr_1 shr_m].
  unfold num_emax, num_prec. cbn. by rewrite (proj2 (Z.leb_le (e + 1) _)) by lia.
Qed.

Lemma round_aux_53 q e l : 2 ^ 52 <= q < 2 ^ 53 -> -1074 <= e ->
  round_aux q e l = finish (round_nearest_even q (loc_of_shr_record (shr_record_of_loc q l))) e.
Proof. intros Hq He. unfold binary_round_aux. by rewrite shr_fexp_53, shr_record_m by lia. Qed.

Lemma round_aux_54 q e l : 2 ^ 53 <= q < 2 ^ 54 -> -1075 <= e ->
  round_aux q e l =
    finish (round_nearest_even (q / 2) (loc_of_shr_record (shr_1 (shr_record_of_loc q l)))) (e + 1).
Proof. intros Hq He. unfold binary_round_aux. by rewrite shr_fexp_54, shr_1_m by lia. Qed.

(** A quotient [q * 2^e], [q] of 53 or 54 bits, that stays below one after
    rounding. *)
Lemma round_aux_below_one q e l :
  2 ^ 52 <= q < 2 ^ 54 -> -1074 <= e -> e <= -53 ->
  (e = -53 -> q <= 2 ^ 53 - 2) -> (e = -54 -> q <= 2 ^ 54 - 2) ->
  exists m e', round_aux q e l = S754_finite false m e' /\ e' <= -53.
Proof.
  intros Hq He Hmax H53 H54. destruct (Z.lt_ge_cases q (2 ^ 53)) as [Hlt|Hge].
  - rewrite round_aux_53 by lia.
    pose proof (round_nearest_range q (loc_of_shr_record (shr_record_of_loc q l))) as Hr.
    set (m := round_nearest_even _ _) in *. clearbody m.
    destruct (Z.lt_ge_cases m (2 ^ 53)) as [Hm|Hm].
    + rewrite finish_keep by lia. eauto.
    + replace m with (2 ^ 53) by lia. rewrite finish_carry by lia. do 2 eexists. split; [done|]. lia.
  - rewrite round_aux_54 by lia. pose proof (Z.div_mod q 2 ltac:(lia)) as Hq2.
    pose proof (Z.mod_pos_bound q 2 ltac:(lia)) as Hb.
    destruct (decide (q = 2 ^ 54 - 2)) as [->|Hne].
    + rewrite shr_1_even, finish_keep by (try done; lia). do 2 eexists. split; [done|]. lia.
    + pose proof (round_nearest_range (q / 2) (loc_of_shr_record (shr_1 (shr_record_of_loc q l)))) as Hr.
      set (m := round_nearest_even _ _) in *. clearbody m.
      destruct (Z.lt_ge_cases m (2 ^ 53)) as [Hm|Hm].
      * rewrite finish_keep by lia. do 2 eexists. split; [done|]. lia.
      * assert (e <> -54) by lia. replace m with (2 ^ 53) by lia. rewrite finish_carry by lia.
        do 2 eexists. split; [done|]. lia.
Qed.
End Rounding.

(** ** Integers below 2^53 *)

Lemma iter_xO d m : Z.pos (Pos.iter xO m d) = Z.pos m * 2 ^ Z.pos d.
Proof.
  revert m. induction d as [|d IH] using Pos.peano_ind; intros m; cbn [Pos.iter].
  - change (Z.pos m~0 = Z.pos m * 2). lia.
  - rewrite Pos.iter_succ, Pos2Z.inj_succ, Z.pow_succ_r, Pos2Z.inj_xO, IH by lia. lia.
Qed.

(** A positive integer is held with its 53 leading bits. *)
Lemma num_of_Z_pos z : 1 <= z < 2 ^ 53 ->
  exists m e, num_of_Z z = S754_finite false m e /\ 2 ^ 52 <= Z.pos m < 2 ^ 53 /\
    -52 <= e <= 0 /\ Z.pos m = z * 2 ^ (- e).
Proof.
  intros Hz. destruct z as [|p|p]; [lia| |lia]. unfold num_of_Z. cbn [binary_normalize].
  pose proof (digits2_pos_bounds p) as Hb. set (d := Z.pos (digits2_pos p)) in *.
  assert (1 <= d <= 53) as Hd.
  { split; [lia|]. apply Z.nlt_ge. intros Hlt.
    assert (2 ^ 53 <= 2 ^ (d - 1)) by (apply Z.pow_le_mono_r; lia). lia. }
  assert (exists mz, shl_align p 0 (fexp num_prec num_emax (d + 0)) = (mz, d - 53) /\
            Z.pos mz = Z.pos p * 2 ^ (53 - d)) as (mz & Es & Em).
  { assert (fexp num_prec num_emax (d + 0) = d - 53) as ->.
    { unfold fexp, emin, num_prec, num_emax. lia. }
    unfold shl_align. rewrite Z.sub_0_r. destruct (d - 53) as [|k|k] eqn:Ek; [|lia|].
    - exists p. replace (53 - d) with 0 by lia. split; [done|]. lia.
    - exists (Pos.iter xO p k). split; [done|]. rewrite iter_xO. f_equal. f_equal. lia. }
  unfold binary_round. fold d. rewrite Es.
  assert (2 ^ 52 <= Z.pos mz < 2 ^ 53) as Hm.
  { assert (2 ^ 53 = 2 ^ d * 2 ^ (53 - d)) as -> by (rewrite <- Z.pow_add_r by lia; f_equal; lia).
    assert (2 ^ 52 = 2 ^ (d - 1) * 2 ^ (53 - d)) as -> by (rewrite <- Z.pow_add_r by lia; f_equal; lia).
    assert (0 < 2 ^ (53 - d)) by (apply Z.pow_pos_nonneg; lia). rewrite Em. nia. }
  rewrite round_aux_53, finish_keep by (cbn; lia). cbn [Z.to_pos shr_record_of_loc loc_of_shr_record round_nearest_even].
  exists mz, (d - 53). split_and!; try done; try lia. rewrite Em. f_equal. f_equal. lia.
Qed.

(** The division of two such numbers before rounding. *)
Lemma SFdiv_core_53 m1 e1 m2 e2 :
  2 ^ 52 <= m1 < 2 ^ 53 -> 2 ^ 52 <= m2 < 2 ^ 53 -> -52 <= e1 <= 0 -> -52 <= e2 <= 0 ->
  SFdiv_core_binary num_prec num_emax m1 e1 m2 e2 =
    (m1 * 2 ^ 53 / m2, e1 - e2 - 53, new_location m2 ((m1 * 2 ^ 53) mod m2)).
Proof.
  intros H1 H2 He1 He2. unfold SFdiv_core_binary.
  rewrite (Zdigits2_unique m1 53), (Zdigits2_unique m2 53) by lia.
  assert (Z.min (fexp num_prec num_emax (53 + e1 - (53 + e2))) (e1 - e2) = e1 - e2 - 53) as ->.
  { unfold fexp, emin, num_prec, num_emax. lia. }
  replace (e1 - e2 - (e1 - e2 - 53)) with 53 by lia. rewrite Z.shiftl_mul_pow2 by lia.
  unfold Z.modulo, Z.div. by destruct (Z.div_eucl (m1 * 2 ^ 53) m2).
Qed.

(** [n / n] is one. *)
Lemma num_div_same n : 1 <= n < 2 ^ 53 -> num_div (num_of_Z n) (num_of_Z n) = num_of_Z 1.
Proof.
  intros Hn. destruct (num_of_Z_pos n Hn) as (m & e & -> & Hm & He & _).
  unfold num_div, SFdiv. cbn [xorb]. rewrite SFdiv_core_53 by lia.
  rewrite (Z.mul_comm (Z.pos m)), Z.div_mul, Z.mod_mul by lia.
  replace (e - e - 53) with (-53) by lia. unfold new_location, new_location_even, new_location_odd.
  cbn [Z.eqb]. destruct (Z.even (Z.pos m)); reflexivity.
Qed.

Lemma pow2_scale x a b : 0 <= a <= b -> x * 2 ^ b = x * 2 ^ (b - a) * 2 ^ a.
Proof. intros H. rewrite <- Z.mul_assoc, <- Z.pow_add_r by lia. f_equal. f_equal. lia. Qed.

(** [k / n] is below one, as a number too. *)
Lemma num_div_lt_one k n : 0 <= k < n -> n < 2 ^ 53 ->
  num_ltb (num_div (num_of_Z k) (num_of_Z n)) (num_of_Z 1) = true.
Proof.
  intros Hk Hn. destruct (num_of_Z_pos n ltac:(lia)) as (m2 & e2 & En & Hm2 & He2 & V2).
  destruct (decide (k = 0)) as [->|Hk0]; [by rewrite En|].
  destruct (num_of_Z_pos k ltac:(lia)) as (m1 & e1 & Ek & Hm1 & He1 & V1).
  rewrite Ek, En. unfold num_div, SFdiv. cbn [xorb]. rewrite SFdiv_core_53 by lia.
  assert (e1 <= e2) as Hee.
  { apply Z.nlt_ge. intros Hlt.
    assert (Z.pos m1 * 2 ^ (- e2) = k * 2 ^ (- e1) * 2 ^ (- e2)) by (rewrite V1; lia).
    assert (2 ^ (- e2) = 2 ^ (- e1) * 2 ^ (e1 - e2)) as E2 by (rewrite <- Z.pow_add_r by lia; f_equal; lia).
    assert (2 <= 2 ^ (e1 - e2)) by (apply (Z.pow_le_mono_r 2 1); lia).
    assert (0 < 2 ^ (- e1)) by (apply Z.pow_pos_nonneg; lia). nia. }
  assert (e2 - e1 = 0 -> Z.pos m1 < Z.pos m2) as D0.
  { intros E. replace e2 with e1 in V2 by lia. assert (0 < 2 ^ (- e1)) by (apply Z.pow_pos_nonneg; lia). nia. }
  assert (e2 - e1 = 1 -> Z.pos m1 < 2 * Z.pos m2) as D1.
  { intros E. replace (- e1) with (- e2 + 1) in V1 by lia. rewrite Z.pow_add_r in V1 by lia.
    assert (0 < 2 ^ (- e2)) by (apply Z.pow_pos_nonneg; lia). nia. }
  clear V1 V2 Ek En.
  set (q := Z.pos m1 * 2 ^ 53 / Z.pos m2).
  assert (q * Z.pos m2 <= Z.pos m1 * 2 ^ 53 < (q + 1) * Z.pos m2) as Hq.
  { unfold q. pose proof (Z.div_mod (Z.pos m1 * 2 ^ 53) (Z.pos m2) ltac:(lia)).
    pose proof (Z.mod_pos_bound (Z.pos m1 * 2 ^ 53) (Z.pos m2) ltac:(lia)). nia. }
  clearbody q.
  destruct (round_aux_below_one q (e1 - e2 - 53) (new_location (Z.pos m2) ((Z.pos m1 * 2 ^ 53) mod Z.pos m2)))
    as (m & e' & -> & He'); [split; nia|lia|lia| | |].
  - intros E. specialize (D0 ltac:(lia)). nia.
  - intros E. specialize (D1 ltac:(lia)). nia.
  - change (num_of_Z 1) with (S754_finite false 4503599627370496 (-52)).
    unfold num_ltb, SFltb, SFcompare. assert (e' ?= -52 = Lt) as -> by (apply Z.compare_lt_iff; lia). done.
Qed.

(** ** Products, order and rounding of small integers *)

(** A larger exponent outweighs a mantissa of 53 bits. *)
Lemma exponent_wins m m' e e' : 2 ^ 52 <= m < 2 ^ 53 -> 2 ^ 52 <= m' < 2 ^ 53 -> e < e' -> e' <= 0 ->
  m * 2 ^ (- e') < m' * 2 ^ (- e).
Proof.
  intros Hm Hm' He He'.
  assert (2 ^ (- e) = 2 ^ (- e') * 2 ^ (e' - e)) as -> by (rewrite <- Z.pow_add_r by lia; f_equal; lia).
  assert (2 ^ 1 <= 2 ^ (e' - e)) as Hk by (apply Z.pow_le_mono_r; lia). assert (0 < 2 ^ (- e')) as Hp by (apply Z.pow_pos_nonneg; lia).
  set (k := 2 ^ (e' - e)) in *. set (p := 2 ^ (- e')) in *. clearbody k p. change (2 ^ 1) with 2 in Hk.
  change (2 ^ 53) with (2 * 2 ^ 52) in *. set (h := 2 ^ 52) in *. clearbody h.
  assert (m < m' * k) by nia. replace (m' * (p * k)) with (m' * k * p) by ring. by apply Z.mul_lt_mono_pos_r.
Qed.

(** The normal form of a number is determined by its value. *)
Lemma normal_unique m e m' e' : 2 ^ 52 <= m < 2 ^ 53 -> 2 ^ 52 <= m' < 2 ^ 53 -> e <= 0 -> e' <= 0 ->
  m * 2 ^ (- e') = m' * 2 ^ (- e) -> m = m' /\ e = e'.
Proof.
  intros Hm Hm' He He' E. destruct (Z.lt_trichotomy e e') as [H|[->|H]].
  - pose proof (exponent_wins m m' e e' Hm Hm' H He'). lia.
  - split; [|done]. assert (0 < 2 ^ (- e')) by (apply Z.pow_pos_nonneg; lia). nia.
  - pose proof (exponent_wins m' m e' e Hm' Hm H He). lia.
Qed.

Lemma num_of_Z_normal z m e : 1 <= z < 2 ^ 53 -> 2 ^ 52 <= Z.pos m < 2 ^ 53 -> e <= 0 -> Z.pos m = z * 2 ^ (- e) ->
  num_of_Z z = S754_finite false m e.
Proof.
  intros Hz Hm He E. destruct (num_of_Z_pos z Hz) as (m' & e' & -> & Hm' & He' & E').
  assert (Z.pos m' * 2 ^ (- e) = Z.pos m * 2 ^ (- e')) as Ex by (rewrite E, E'; ring).
  destruct (normal_unique (Z.pos m') e' (Z.pos m) e Hm' Hm ltac:(lia) He Ex) as [[= ->] ->]. done.
Qed.

(** Shifting out zeros is exact. *)
Lemma shift_zeros p : forall q, 0 < q ->
  iter_pos shr_1 p (Build_shr_record (q * 2 ^ Z.pos p) false false) = Build_shr_record q false false.
Proof.
  assert (forall q, 0 < q -> shr_1 (Build_shr_record (q * 2) false false) = Build_shr_record q false false) as H1.
  { intros [|q|q] Hq; try lia. by rewrite Z.mul_comm. }
  induction p as [p IH|p IH|]; intros q Hq; cbn [iter_pos].
  - replace (q * 2 ^ Z.pos p~1) with (q * 2 ^ Z.pos p * 2 ^ Z.pos p * 2).
    2:{ replace (Z.pos p~1) with (Z.pos p + Z.pos p + 1) by lia. rewrite !Z.pow_add_r by lia. change (2 ^ 1) with 2. ring. }
    assert (0 < 2 ^ Z.pos p) by (apply Z.pow_pos_nonneg; lia).
    rewrite H1 by nia. rewrite IH by nia. by apply IH.
  - replace (q * 2 ^ Z.pos p~0) with (q * 2 ^ Z.pos p * 2 ^ Z.pos p).
    2:{ replace (Z.pos p~0) with (Z.pos p + Z.pos p) by lia. rewrite Z.pow_add_r by lia. ring. }
    assert (0 < 2 ^ Z.pos p) by (apply Z.pow_pos_nonneg; lia). rewrite IH by nia. by apply IH.
  - by apply H1.
Qed.

Lemma round_exact q n e : 2 ^ 52 <= q < 2 ^ 53 -> 0 < n -> -1074 <= e -> e + n <= 900 ->
  binary_round_aux num_prec num_emax false (q * 2 ^ n) e loc_Exact = S754_finite false (Z.to_pos q) (e + n).
Proof.
  intros Hq Hn He He'. unfold binary_round_aux. cbn [SpecFloat.shr_record_of_loc].
  assert (shr_fexp num_prec num_emax (q * 2 ^ n) e loc_Exact = (Build_shr_record q false false, e + n)) as E.
  { unfold shr_fexp. rewrite (Zdigits2_unique _ (53 + n)).
    - assert (fexp num_prec num_emax (53 + n + e) - e = n) as -> by (unfold fexp, emin, num_prec, num_emax; lia).
      unfold shr. destruct n as [|n|n]; try lia. cbn [shr_record_of_loc]. by rewrite shift_zeros by lia.
    - lia.
    - replace (53 + n - 1) with (52 + n) by lia. rewrite !Z.pow_add_r by lia.
      assert (0 < 2 ^ n) by (apply Z.pow_pos_nonneg; lia). nia. }
  rewrite E. cbn [shr_m loc_of_shr_record round_nearest_even].
  change (finish q (e + n) = S754_finite false (Z.to_pos q) (e + n)). apply finish_keep; lia.
Qed.

Lemma num_mul_Z a b : 1 <= a -> 1 <= b -> a * b < 2 ^ 53 -> num_mul (num_of_Z a) (num_of_Z b) = num_of_Z (a * b).
Proof.
  intros Ha Hb Hab. destruct (num_of_Z_pos a ltac:(nia)) as (m & e & -> & Hm & He & Em).
  destruct (num_of_Z_pos b ltac:(nia)) as (m' & e' & -> & Hm' & He' & Em').
  destruct (num_of_Z_pos (a * b) ltac:(nia)) as (p & f & -> & Hp & Hf & Ep).
  unfold num_mul, SFmul. cbn [xorb].
  set (n := f - (e + e')). assert (Z.pos (m * m') = Z.pos p * 2 ^ n) as E.
  { assert (Z.pos (m * m') * 2 ^ (- f) = Z.pos p * 2 ^ (- (e + e'))) as H.
    { rewrite Pos2Z.inj_mul, Em, Em', Ep. replace (- (e + e')) with (- e + - e') by lia. rewrite Z.pow_add_r by lia. ring. }
    assert (0 < 2 ^ (- f)) as Hpos by (apply Z.pow_pos_nonneg; lia).
    assert (0 <= n) as Hn.
    { subst n. destruct (Z.le_gt_cases 0 (f - (e + e'))) as [|Hlt]; [done|]. exfalso.
      assert (2 ^ (- f) = 2 ^ (- (e + e')) * 2 ^ (e + e' - f)) as Ef by (rewrite <- Z.pow_add_r by lia; f_equal; lia).
      assert (2 ^ 1 <= 2 ^ (e + e' - f)) by (apply Z.pow_le_mono_r; lia).
      assert (0 < 2 ^ (- (e + e'))) by (apply Z.pow_pos_nonneg; lia). rewrite Ef, Pos2Z.inj_mul in H. nia. }
    assert (2 ^ (- (e + e')) = 2 ^ n * 2 ^ (- f)) as Ee by (subst n; rewrite <- Z.pow_add_r by lia; f_equal; lia).
    rewrite Ee in H. nia. }
  assert (0 < n) as Hn.
  { destruct (Z.lt_trichotomy 0 n) as [|[E0|Hlt]]; [done| |].
    - rewrite <- E0, Z.pow_0_r in E. rewrite Pos2Z.inj_mul in E. nia.
    - rewrite Z.pow_neg_r in E by lia. lia. }
  rewrite E, round_exact by (subst n; lia). f_equal. subst n. lia.
Qed.

Lemma num_round_Z z : 1 <= z < 2 ^ 53 -> num_round (num_of_Z z) = num_of_Z z.
Proof.
  intros Hz. destruct (num_of_Z_pos z Hz) as (m & e & E & Hm & He & Em). rewrite E at 1. unfold num_round.
  destruct (Z.leb_spec 0 e); [by rewrite E|]. rewrite Em.
  replace (2 ^ (1 - e)) with (2 * 2 ^ (- e)) by (replace (1 - e) with (1 + - e) by lia; rewrite Z.pow_add_r by lia; done).
  assert (0 < 2 ^ (- e)) by (apply Z.pow_pos_nonneg; lia).
  replace ((2 * (z * 2 ^ (- e)) + 2 ^ (- e)) / (2 * 2 ^ (- e))) with z.
  - by destruct z.
  - apply Z.div_unique with (2 ^ (- e)); [left; lia|ring].
Qed.

Lemma num_ltb_Z a b : 1 <= a < 2 ^ 53 -> 1 <= b < 2 ^ 53 -> num_ltb (num_of_Z a) (num_of_Z b) = (a <? b).
Proof.
  intros Ha Hb. destruct (num_of_Z_pos a Ha) as (m & e & -> & Hm & He & Em).
  destruct (num_of_Z_pos b Hb) as (m' & e' & -> & Hm' & He' & Em').
  unfold num_ltb, SFltb. cbn [SFcompare].
  assert (Z.pos m * 2 ^ (- e') < Z.pos m' * 2 ^ (- e) <-> a < b) as Hlt.
  { rewrite Em, Em'. assert (0 < 2 ^ (- e)) by (apply Z.pow_pos_nonneg; lia). assert (0 < 2 ^ (- e')) by (apply Z.pow_pos_nonneg; lia).
    replace (a * 2 ^ (- e) * 2 ^ (- e')) with (a * (2 ^ (- e) * 2 ^ (- e'))) by ring.
    replace (b * 2 ^ (- e') * 2 ^ (- e)) with (b * (2 ^ (- e) * 2 ^ (- e'))) by ring.
    symmetry. apply Z.mul_lt_mono_pos_r. nia. }
  destruct (Z.compare_spec e e') as [->|H|H].
  - assert (0 < 2 ^ (- e')) by (apply Z.pow_pos_nonneg; lia).
    change (PosDef.Pos.compare_cont Eq) with Pos.compare. destruct (Pos.compare_spec m m') as [->|H1|H1]; symmetry;
      [apply Z.ltb_ge|apply Z.ltb_lt|apply Z.ltb_ge]; [|nia|]; apply Z.nlt_ge; rewrite <- Hlt; nia.
  - symmetry. apply Z.ltb_lt, Hlt, exponent_wins; done || lia.
  - symmetry. apply Z.ltb_ge, Z.nlt_ge. rewrite <- Hlt. pose proof (exponent_wins (Z.pos m') (Z.pos m) e' e Hm' Hm H ltac:(lia)). lia.
Qed.
