(* ===== verification/LruCache.v ===== *)
(** * The least-recently-used cache of the log miner

    packages/query-engine/src/drain/lru-cache.ts keeps a doubly linked list in an
    array: [entries] holds the cells, [prev] and [next] are indexes into it,
    [freeSlots] is the stack of vacated indexes and [map] finds the cell of a
    key. The operations below are the code's, pointer update by pointer update,
    and fail with the slot where the code throws [LruSlotError].

    [Module Recency] is the abstract cache: a list of pairs, most recent first.
    [Repr] relates the two; every operation preserves it and answers as the
    abstract one does, so no operation ever throws. *)

From stdpp Require Import prelude gmap list.
From Stdlib Require Import ZArith Lia.
From S2P Require Import Prelude.

Open Scope Z_scope.
Local Open Scope maple_scope.

Section Cache.
Context {V : Type}.

Record LruEntry := {
  entry_key : Z;
  entry_value : V;
  entry_prev : option nat;
  entry_next : option nat }.

Record LruCache := {
  lru_capacity : Z;
  lru_map : gmap Z nat;
  lru_entries : list (option LruEntry);
  lru_free : list nat;
  lru_head : option nat;
  lru_tail : option nat }.

(** The exception [LruSlotError] carries the slot. *)
Notation throws := (result nat).

Definition with_value (v : V) (e : LruEntry) : LruEntry :=
  {| entry_key := entry_key e; entry_value := v; entry_prev := entry_prev e; entry_next := entry_next e |}.
Definition with_prev (p : option nat) (e : LruEntry) : LruEntry :=
  {| entry_key := entry_key e; entry_value := entry_value e; entry_prev := p; entry_next := entry_next e |}.
Definition with_next (n : option nat) (e : LruEntry) : LruEntry :=
  {| entry_key := entry_key e; entry_value := entry_value e; entry_prev := entry_prev e; entry_next := n |}.

Definition with_entries (es : list (option LruEntry)) (c : LruCache) : LruCache :=
  {| lru_capacity := lru_capacity c; lru_map := lru_map c; lru_entries := es; lru_free := lru_free c;
     lru_head := lru_head c; lru_tail := lru_tail c |}.
Definition with_map (m : gmap Z nat) (c : LruCache) : LruCache :=
  {| lru_capacity := lru_capacity c; lru_map := m; lru_entries := lru_entries c; lru_free := lru_free c;
     lru_head := lru_head c; lru_tail := lru_tail c |}.
Definition with_free (f : list nat) (c : LruCache) : LruCache :=
  {| lru_capacity := lru_capacity c; lru_map := lru_map c; lru_entries := lru_entries c; lru_free := f;
     lru_head := lru_head c; lru_tail := lru_tail c |}.
Definition with_head (h : option nat) (c : LruCache) : LruCache :=
  {| lru_capacity := lru_capacity c; lru_map := lru_map c; lru_entries := lru_entries c; lru_free := lru_free c;
     lru_head := h; lru_tail := lru_tail c |}.
Definition with_tail (t : option nat) (c : LruCache) : LruCache :=
  {| lru_capacity := lru_capacity c; lru_map := lru_map c; lru_entries := lru_entries c; lru_free := lru_free c;
     lru_head := lru_head c; lru_tail := t |}.

(** ** Operations *)

Definition new_cache (capacity : Z) : LruCache :=
  {| lru_capacity := capacity; lru_map := ∅; lru_entries := []; lru_free := [];
     lru_head := None; lru_tail := None |}.

Definition entryAt (slot : nat) (c : LruCache) : throws LruEntry :=
  match lru_entries c !! slot with Some (Some e) => Ok e | _ => Err slot end.

(** An assignment to a field of the cell [entryAt(slot)] returns. *)
Definition update_entry (slot : nat) (f : LruEntry -> LruEntry) (c : LruCache) : throws LruCache :=
  let! e := entryAt slot c in
  Ok (with_entries (<[slot := Some (f e)]> (lru_entries c)) c).

Definition lru_size (c : LruCache) : Z := Z.of_nat (size (lru_map c)).

Definition lru_has (key : Z) (c : LruCache) : bool := bool_decide (is_Some (lru_map c !! key)).

(** [this.entries[slot]?.value] *)
Definition value_at (slot : nat) (c : LruCache) : option V :=
  match lru_entries c !! slot with Some (Some e) => Some (entry_value e) | _ => None end.

Definition lru_peek (key : Z) (c : LruCache) : option V :=
  match lru_map c !! key with
  | None => None
  | Some slot => value_at slot c
  end.

Definition unlink (slot : nat) (c : LruCache) : throws LruCache :=
  let! entry := entryAt slot c in
  let! c := match entry_prev entry with
            | Some p => update_entry p (with_next (entry_next entry)) c
            | None => Ok (with_head (entry_next entry) c)
            end in
  let! entry := entryAt slot c in
  match entry_next entry with
  | Some n => update_entry n (with_prev (entry_prev entry)) c
  | None => Ok (with_tail (entry_prev entry) c)
  end.

(** The end of [put] and of [moveToHead]: the cell at [slot] becomes the head. *)
Definition link_head (slot : nat) (c : LruCache) : throws LruCache :=
  let! c := match lru_head c with
            | Some h => update_entry h (with_prev (Some slot)) c
            | None => Ok c
            end in
  let c := with_head (Some slot) c in
  Ok (match lru_tail c with None => with_tail (Some slot) c | Some _ => c end).

Definition moveToHead (slot : nat) (c : LruCache) : throws LruCache :=
  if decide (lru_head c = Some slot) then Ok c
  else
    let! c := unlink slot c in
    let! c := update_entry slot (with_prev None) c in
    let! c := update_entry slot (with_next (lru_head c)) c in
    link_head slot c.

(** [this.entries[slot] = null; this.freeSlots.push(slot)] *)
Definition vacate (slot : nat) (c : LruCache) : LruCache :=
  with_free (lru_free c ++ [slot]) (with_entries (<[slot := None]> (lru_entries c)) c).

Definition evictTail (c : LruCache) : throws (LruCache * option (Z * V)) :=
  match lru_tail c with
  | None => Ok (c, None)
  | Some tailSlot =>
      let! entry := entryAt tailSlot c in
      let c := with_map (delete (entry_key entry) (lru_map c)) c in
      let! c := unlink tailSlot c in
      Ok (vacate tailSlot c, Some (entry_key entry, entry_value entry))
  end.

(** A freed slot is an index of [entries], so the assignment is in range. *)
Definition allocSlot (entry : LruEntry) (c : LruCache) : LruCache * nat :=
  match last (lru_free c) with
  | Some slot =>
      (with_free (List.removelast (lru_free c))
         (with_entries (<[slot := Some entry]> (lru_entries c)) c), slot)
  | None => (with_entries (lru_entries c ++ [Some entry]) c, length (lru_entries c))
  end.

Definition lru_get (key : Z) (c : LruCache) : throws (LruCache * option V) :=
  match lru_map c !! key with
  | None => Ok (c, None)
  | Some slot =>
      let! c := moveToHead slot c in
      Ok (c, value_at slot c)
  end.

Definition lru_put (key : Z) (value : V) (c : LruCache) : throws (LruCache * option (Z * V)) :=
  match lru_map c !! key with
  | Some existingSlot =>
      let! c := update_entry existingSlot (with_value value) c in
      let! c := moveToHead existingSlot c in
      Ok (c, None)
  | None =>
      let! (c, evicted) := if lru_capacity c <=? lru_size c then evictTail c else Ok (c, None) in
      let '(c, slot) := allocSlot {| entry_key := key; entry_value := value;
                                     entry_prev := None; entry_next := lru_head c |} c in
      let! c := link_head slot c in
      Ok (with_map (<[key := slot]> (lru_map c)) c, evicted)
  end.

Definition lru_remove (key : Z) (c : LruCache) : throws (LruCache * option V) :=
  match lru_map c !! key with
  | None => Ok (c, None)
  | Some slot =>
      let c := with_map (delete key (lru_map c)) c in
      let! c := unlink slot c in
      let! entry := entryAt slot c in
      Ok (vacate slot c, Some (entry_value entry))
  end.

Definition lru_values (c : LruCache) : list V :=
  omap (option_map entry_value) (lru_entries c).

(** ** Sequences of calls *)

Inductive call :=
  | CallSize
  | CallHas (key : Z)
  | CallPeek (key : Z)
  | CallGet (key : Z)
  | CallPut (key : Z) (value : V)
  | CallRemove (key : Z)
  | CallValues.

Inductive answer :=
  | AnswerSize (n : Z)
  | AnswerHas (b : bool)
  | AnswerValue (v : option V)
  | AnswerEvicted (e : option (Z * V))
  | AnswerValues (vs : list V).

Definition perform (o : call) (c : LruCache) : throws (LruCache * answer) :=
  match o with
  | CallSize => Ok (c, AnswerSize (lru_size c))
  | CallHas k => Ok (c, AnswerHas (lru_has k c))
  | CallPeek k => Ok (c, AnswerValue (lru_peek k c))
  | CallGet k => let! (c, v) := lru_get k c in Ok (c, AnswerValue v)
  | CallPut k v => let! (c, e) := lru_put k v c in Ok (c, AnswerEvicted e)
  | CallRemove k => let! (c, v) := lru_remove k c in Ok (c, AnswerValue v)
  | CallValues => Ok (c, AnswerValues (lru_values c))
  end.

Fixpoint perform_all (os : list call) (c : LruCache) : throws (LruCache * list answer) :=
  match os with
  | [] => Ok (c, [])
  | o :: os' =>
      let! (c, a) := perform o c in
      let! (c, rest) := perform_all os' c in
      Ok (c, a :: rest)
  end.

End Cache.

Arguments call : clear implicits.
Arguments answer : clear implicits.
Arguments LruEntry : clear implicits.
Arguments LruCache : clear implicits.

(** ** The abstract cache

    Entries from the most to the least recently used, keys distinct. *)
Module Recency.
Section Spec.
Context {V : Type}.
Notation cache := (jsmap Z V).

Definition get (k : Z) (l : cache) : cache :=
  match map_get k l with Some v => (k, v) :: map_delete k l | None => l end.

Definition insert (capacity : Z) (e : Z * V) (l : cache) : cache * option (Z * V) :=
  if capacity <=? Z.of_nat (length l) then (e :: List.removelast l, last l) else (e :: l, None).

Definition put (capacity k : Z) (v : V) (l : cache) : cache * option (Z * V) :=
  match map_get k l with
  | Some _ => ((k, v) :: map_delete k l, None)
  | None => insert capacity (k, v) l
  end.

Definition perform (capacity : Z) (o : call V) (l : cache) : cache * answer V :=
  match o with
  | CallSize => (l, AnswerSize (Z.of_nat (length l)))
  | CallHas k => (l, AnswerHas (map_has k l))
  | CallPeek k => (l, AnswerValue (map_get k l))
  | CallGet k => (get k l, AnswerValue (map_get k l))
  | CallPut k v => let '(l', e) := put capacity k v l in (l', AnswerEvicted e)
  | CallRemove k => (map_delete k l, AnswerValue (map_get k l))
  | CallValues => (l, AnswerValues (map_values l))
  end.

Fixpoint perform_all (capacity : Z) (os : list (call V)) (l : cache) : cache * list (answer V) :=
  match os with
  | [] => (l, [])
  | o :: os' =>
      let '(l1, a) := perform capacity o l in
      let '(l2, rest) := perform_all capacity os' l1 in
      (l2, a :: rest)
  end.

(** Equal answers, the values of [values()] in any order. *)
Definition same_answer (a b : answer V) : Prop :=
  match a, b with
  | AnswerValues vs, AnswerValues ws => vs ≡ₚ ws
  | _, _ => a = b
  end.
End Spec.
End Recency.

(** ** The list in the array *)
Section Linked.
Context {V : Type}.
Implicit Types (c : LruCache V) (es : list (option (LruEntry V))) (s : nat).

(** A cell the list passes through: its slot, key and value. *)
Record cell := { cell_slot : nat; cell_key : Z; cell_value : V }.

Definition slots (l : list cell) : list nat := cell_slot <$> l.
Definition pairs (l : list cell) : jsmap Z V := (fun x => (cell_key x, cell_value x)) <$> l.

Definition first (l : list cell) (n : option nat) : option nat :=
  match l with [] => n | x :: _ => Some (cell_slot x) end.

Fixpoint final (p : option nat) (l : list cell) : option nat :=
  match l with [] => p | x :: l' => final (Some (cell_slot x)) l' end.

(** [l] is a segment of the list, [p] before it and [n] after it. *)
Fixpoint seg es (p : option nat) (l : list cell) (n : option nat) : Prop :=
  match l with
  | [] => True
  | x :: l' =>
      es !! cell_slot x =
        Some (Some {| entry_key := cell_key x; entry_value := cell_value x;
                      entry_prev := p; entry_next := first l' n |}) /\
      seg es (Some (cell_slot x)) l' n
  end.

Lemma first_app l1 l2 n : first (l1 ++ l2) n = first l1 (first l2 n).
Proof. by destruct l1. Qed.

Lemma final_app p l1 l2 : final p (l1 ++ l2) = final (final p l1) l2.
Proof. revert p. induction l1; simpl; auto. Qed.

Lemma seg_app es p l1 l2 n :
  seg es p (l1 ++ l2) n <-> seg es p l1 (first l2 n) /\ seg es (final p l1) l2 n.
Proof.
  revert p. induction l1 as [|x l1 IH]; intros p; simpl; [tauto|].
  rewrite IH, first_app. tauto.
Qed.

(** A segment depends on the cells of its slots only. *)
Lemma seg_frame es es' p l n :
  (forall s, s ∈ slots l -> es' !! s = es !! s) -> seg es p l n -> seg es' p l n.
Proof.
  revert p. induction l as [|x l IH]; intros p Hes; simpl; [done|]. intros [Hx Hl]. split.
  - rewrite Hes; [done|]. apply list_elem_of_here.
  - apply IH; [|done]. intros s Hs. apply Hes. by right.
Qed.

Lemma seg_live es p l n s : seg es p l n -> s ∈ slots l -> exists e, es !! s = Some (Some e).
Proof.
  revert p. induction l as [|x l IH]; intros p Hl Hs; [by apply elem_of_nil in Hs|].
  destruct Hl as [Hx Hl]. apply elem_of_cons in Hs as [->|Hs]; eauto.
Qed.

Lemma NoDup_middle {A} (l1 l2 : list A) x : NoDup (l1 ++ x :: l2) -> x ∉ l1 ++ l2 /\ NoDup (l1 ++ l2).
Proof. rewrite <- Permutation_middle. apply NoDup_cons. Qed.

Record Linked (c : LruCache V) (l : list cell) : Prop := {
  linked_seg : seg (lru_entries c) None l None;
  linked_head : lru_head c = first l None;
  linked_tail : lru_tail c = final None l;
  linked_slots : NoDup (slots l) }.

(** What [unlink] and [link_head] leave alone: everything but the two ends and
    the links of live cells. *)
Record same_store (c c' : LruCache V) : Prop := {
  same_capacity : lru_capacity c' = lru_capacity c;
  same_map : lru_map c' = lru_map c;
  same_free : lru_free c' = lru_free c;
  same_live : forall s, (exists e, lru_entries c' !! s = Some (Some e)) <->
                        (exists e, lru_entries c !! s = Some (Some e));
  same_vacant : forall s, lru_entries c' !! s = Some None <-> lru_entries c !! s = Some None }.

Lemma same_store_refl c : same_store c c.
Proof. by split. Qed.

Lemma same_store_head c h : same_store c (with_head h c).
Proof. by split. Qed.

Lemma same_store_trans c1 c2 c3 : same_store c1 c2 -> same_store c2 c3 -> same_store c1 c3.
Proof.
  intros [] []. split; try congruence; intros s; etrans; eauto.
Qed.

Lemma lookup_insert_live es s s' e :
  (exists e0, es !! s = Some (Some e0)) ->
  <[s := Some e]> es !! s' = if decide (s = s') then Some (Some e) else es !! s'.
Proof.
  intros [e0 He]. case_decide as Hs; [subst|by rewrite list_lookup_insert_ne].
  rewrite list_lookup_insert_eq; [done|]. by eapply lookup_lt_Some.
Qed.

Lemma same_store_update c s e :
  (exists e0, lru_entries c !! s = Some (Some e0)) ->
  same_store c (with_entries (<[s := Some e]> (lru_entries c)) c).
Proof.
  intros Hs. split; try done; intros s'; cbn [lru_entries with_entries];
    rewrite (lookup_insert_live _ _ _ _ Hs); case_decide as E; subst; try done.
  - split; eauto.
  - destruct Hs as [e0 He]. rewrite He. by split.
Qed.

Lemma update_entry_ok s f c e :
  lru_entries c !! s = Some (Some e) ->
  update_entry s f c = Ok (with_entries (<[s := Some (f e)]> (lru_entries c)) c).
Proof. intros He. unfold update_entry, entryAt. by rewrite He. Qed.

Lemma slots_app l1 l2 : slots (l1 ++ l2) = slots l1 ++ slots l2.
Proof. apply fmap_app. Qed.

Lemma seg_set_next es p l y n n' :
  NoDup (slots (l ++ [y])) -> seg es p (l ++ [y]) n ->
  seg (<[cell_slot y := Some {| entry_key := cell_key y; entry_value := cell_value y;
                                 entry_prev := final p l; entry_next := n' |}]> es) p (l ++ [y]) n'.
Proof.
  rewrite slots_app, NoDup_app, !seg_app. intros (_ & Hy & _) [Hl [Hes _]].
  split; [|split; [|done]].
  - cbn [first] in *. eapply seg_frame; [|exact Hl].
    intros s Hs. apply list_lookup_insert_ne. intros <-. apply (Hy _ Hs), list_elem_of_here.
  - apply list_lookup_insert_eq. by eapply lookup_lt_Some.
Qed.

Lemma seg_set_prev es p p' x l n :
  NoDup (slots (x :: l)) -> seg es p (x :: l) n ->
  seg (<[cell_slot x := Some {| entry_key := cell_key x; entry_value := cell_value x;
                                 entry_prev := p'; entry_next := first l n |}]> es) p' (x :: l) n.
Proof.
  cbn. rewrite NoDup_cons. intros [Hx _] [Hes Hl]. split.
  - apply list_lookup_insert_eq. by eapply lookup_lt_Some.
  - eapply seg_frame; [|exact Hl].
    intros s Hs. apply list_lookup_insert_ne. by intros <-.
Qed.

(** The two halves of [unlink]: the segment before the cell gets a new
    successor, the segment after it a new predecessor. *)
Lemma relink_next c l n n' :
  NoDup (slots l) -> seg (lru_entries c) None l n -> lru_head c = first l n ->
  exists c', match final None l with
             | Some p => update_entry p (with_next n') c
             | None => Ok (with_head n' c)
             end = Ok c' /\
    same_store c c' /\ seg (lru_entries c') None l n' /\
    lru_head c' = first l n' /\ lru_tail c' = lru_tail c /\
    (forall s, s ∉ slots l -> lru_entries c' !! s = lru_entries c !! s).
Proof.
  intros Hnd Hl Hh. destruct l as [|y l _] using rev_ind.
  { exists (with_head n' c). split_and!; try done. }
  pose proof (proj1 (seg_app _ _ _ _ _) Hl) as [_ [Hy _]]. rewrite final_app. cbn [final first] in *.
  eexists. split; [by eapply update_entry_ok|]. cbn [lru_entries lru_head lru_tail with_entries].
  split_and!; try done.
  - apply same_store_update. eauto.
  - by apply (seg_set_next _ _ _ _ n).
  - rewrite Hh, !first_app. by destruct l.
  - intros s Hs. apply list_lookup_insert_ne. intros <-. apply Hs. rewrite slots_app.
    apply elem_of_app. right. apply list_elem_of_here.
Qed.

Lemma relink_prev c l p p' :
  NoDup (slots l) -> seg (lru_entries c) p l None -> lru_tail c = final p l ->
  exists c', match first l None with
             | Some n => update_entry n (with_prev p') c
             | None => Ok (with_tail p' c)
             end = Ok c' /\
    same_store c c' /\ seg (lru_entries c') p' l None /\
    lru_tail c' = final p' l /\ lru_head c' = lru_head c /\
    (forall s, s ∉ slots l -> lru_entries c' !! s = lru_entries c !! s).
Proof.
  intros Hnd Hl Ht. destruct l as [|x l].
  { exists (with_tail p' c). split_and!; try done. }
  pose proof (proj1 Hl) as Hx. cbn [first final] in *.
  eexists. split; [by eapply update_entry_ok|]. cbn [lru_entries lru_head lru_tail with_entries].
  split_and!; try done.
  - apply same_store_update. eauto.
  - by apply (seg_set_prev _ p).
  - intros s Hs. apply list_lookup_insert_ne. intros <-. apply Hs, list_elem_of_here.
Qed.

Lemma Linked_middle c l1 x l2 : Linked c (l1 ++ x :: l2) ->
  NoDup (slots l1) /\ NoDup (slots l2) /\ NoDup (slots (l1 ++ l2)) /\
  cell_slot x ∉ slots (l1 ++ l2) /\ (forall s, s ∈ slots l1 -> s ∉ slots l2).
Proof.
  intros [_ _ _ Hnd]. rewrite !slots_app in *. cbn in Hnd. fold (slots l2) in Hnd.
  rewrite NoDup_app, NoDup_cons in Hnd. destruct Hnd as (H1 & H12 & Hx & H2).
  setoid_rewrite elem_of_cons in H12.
  rewrite NoDup_app, not_elem_of_app. split_and!; try done; try naive_solver.
Qed.

Lemma unlink_ok c l1 x l2 :
  Linked c (l1 ++ x :: l2) ->
  exists c', unlink (cell_slot x) c = Ok c' /\ Linked c' (l1 ++ l2) /\ same_store c c' /\
    lru_entries c' !! cell_slot x =
      Some (Some {| entry_key := cell_key x; entry_value := cell_value x;
                    entry_prev := final None l1; entry_next := first l2 None |}).
Proof.
  intros HL. destruct (Linked_middle _ _ _ _ HL) as (N1 & N2 & N12 & Hx & H12).
  destruct HL as [Hs Hh Ht _]. apply seg_app in Hs as [H1 [Hxe H2]].
  rewrite first_app in Hh. rewrite final_app in Ht. cbn [first final] in *.
  rewrite slots_app, not_elem_of_app in Hx. destruct Hx as [Hx1 Hx2].
  unfold unlink, entryAt at 1. rewrite Hxe. cbn [result_bind entry_prev entry_next].
  destruct (relink_next c l1 _ (first l2 None) N1 H1 Hh) as (c1 & -> & S1 & G1 & Hh1 & Ht1 & F1).
  cbn [result_bind]. unfold entryAt. rewrite (F1 _ Hx1), Hxe. cbn [result_bind entry_prev entry_next].
  assert (seg (lru_entries c1) (Some (cell_slot x)) l2 None) as H2'.
  { eapply seg_frame; [|exact H2]. intros s Hs2. apply F1. intros Hs1. by apply (H12 s). }
  rewrite <- Ht1 in Ht.
  destruct (relink_prev c1 l2 _ (final None l1) N2 H2' Ht) as (c2 & -> & S2 & G2 & Ht2 & Hh2 & F2).
  exists c2. split; [done|]. split; [|split].
  - split; [|by rewrite first_app, Hh2|by rewrite final_app|done].
    apply seg_app. split; [|done]. eapply seg_frame; [|exact G1]. auto.
  - by eapply same_store_trans.
  - by rewrite F2, F1.
Qed.

(** A detached cell whose successor is the head becomes the head. *)
Lemma link_head_ok c x l :
  Linked c l -> cell_slot x ∉ slots l ->
  lru_entries c !! cell_slot x =
    Some (Some {| entry_key := cell_key x; entry_value := cell_value x;
                  entry_prev := None; entry_next := lru_head c |}) ->
  exists c', link_head (cell_slot x) c = Ok c' /\ Linked c' (x :: l) /\ same_store c c'.
Proof.
  intros [Hs Hh Ht Hnd] Hx Hxe. unfold link_head. rewrite Hh in *. destruct l as [|y l]; cbn [first final] in *.
  - eexists. split; [done|]. cbn [lru_tail with_head]. rewrite Ht. split; [|by split].
    split; [by split|done..|apply NoDup_singleton].
  - destruct Hs as [Hy Hl]. rewrite (update_entry_ok _ _ _ _ Hy). cbn [result_bind].
    eexists. split; [done|]. cbn [lru_tail with_head with_entries]. rewrite Ht.
    assert (is_Some (final (Some (cell_slot y)) l)) as [t ->].
    { clear. revert y. induction l as [|z l IH]; intros y; [by eexists|apply IH]. }
    apply not_elem_of_cons in Hx as [Hxy Hx]. apply NoDup_cons in Hnd as Hnd'. destruct Hnd' as [Hy' _].
    split.
    + split; cbn; [split; [|split]|done|done|].
      * by rewrite list_lookup_insert_ne.
      * apply list_lookup_insert_eq. by eapply lookup_lt_Some.
      * eapply seg_frame; [|exact Hl]. intros s Hs. apply list_lookup_insert_ne. by intros <-.
      * apply NoDup_cons. split; [|done]. rewrite not_elem_of_cons. done.
    + eapply same_store_trans; [|apply same_store_head]. apply same_store_update; eauto.
Qed.

Lemma Linked_lookup c l x : Linked c l -> x ∈ l ->
  exists p n, lru_entries c !! cell_slot x =
    Some (Some {| entry_key := cell_key x; entry_value := cell_value x; entry_prev := p; entry_next := n |}).
Proof.
  intros HL Hx. apply list_elem_of_split in Hx as (l1 & l2 & ->).
  pose proof (linked_seg _ _ HL) as Hs. apply seg_app in Hs as [_ [Hx _]]. eauto.
Qed.

Lemma Linked_frame c c' l :
  lru_head c' = lru_head c -> lru_tail c' = lru_tail c ->
  (forall s, s ∈ slots l -> lru_entries c' !! s = lru_entries c !! s) ->
  Linked c l -> Linked c' l.
Proof.
  intros Eh Et Hes [Hs Hh Ht Hnd]. split; try congruence. by eapply seg_frame.
Qed.

(** ** The representation invariant *)

Definition entry_of (x : cell) : Z * nat := (cell_key x, cell_slot x).

Record Cells (c : LruCache V) (l : list cell) : Prop := {
  cells_linked : Linked c l;
  cells_keys : NoDup (cell_key <$> l);
  cells_map : lru_map c = list_to_map (entry_of <$> l);
  cells_free : NoDup (lru_free c);
  cells_vacant : forall s, s ∈ lru_free c <-> lru_entries c !! s = Some None;
  cells_live : forall s e, lru_entries c !! s = Some (Some e) -> s ∈ slots l }.

(** [c] implements the abstract cache [m]. *)
Definition Repr (c : LruCache V) (m : jsmap Z V) : Prop := exists l, Cells c l /\ m = pairs l.

Lemma entry_keys l : (entry_of <$> l).*1 = cell_key <$> l.
Proof. by rewrite <- list_fmap_compose. Qed.

Lemma pairs_keys l : map_keys (pairs l) = cell_key <$> l.
Proof. unfold map_keys, pairs. by rewrite <- list_fmap_compose. Qed.

Lemma Cells_lookup c l k s : Cells c l ->
  lru_map c !! k = Some s <-> exists x, x ∈ l /\ cell_key x = k /\ cell_slot x = s.
Proof.
  intros Hc. rewrite (cells_map _ _ Hc), <- elem_of_list_to_map.
  - rewrite list_elem_of_fmap. split; [intros (x & [=] & ?)|intros (x & ? & <- & <-)]; eauto.
  - rewrite entry_keys. apply Hc.
Qed.

Lemma Cells_absent c l k : Cells c l -> lru_map c !! k = None <-> k ∉ cell_key <$> l.
Proof.
  intros Hc. rewrite (cells_map _ _ Hc), <- not_elem_of_list_to_map, entry_keys. done.
Qed.

Lemma Cells_split c l k s : Cells c l -> lru_map c !! k = Some s ->
  exists l1 x l2, l = l1 ++ x :: l2 /\ cell_key x = k /\ cell_slot x = s.
Proof.
  intros Hc Hk. apply (Cells_lookup _ _ _ _ Hc) in Hk as (x & Hx & ? & ?).
  apply list_elem_of_split in Hx as (l1 & l2 & ->). eauto 10.
Qed.

Lemma Cells_size c l : Cells c l -> lru_size c = Z.of_nat (length (pairs l)).
Proof.
  intros Hc. unfold lru_size. rewrite (cells_map _ _ Hc), map_size_list_to_map.
  - unfold pairs. by rewrite !length_fmap.
  - rewrite entry_keys. apply Hc.
Qed.

(** Relinking live cells in another order. *)
Lemma Cells_relinked c c' l l' :
  Cells c l -> same_store c c' -> Linked c' l' -> l' ≡ₚ l -> Cells c' l'.
Proof.
  intros [HL Hk Hm Hf Hv Hlive] [Sc Sm Sf Sl Sv] HL' Hp. split; try done.
  - by rewrite Hp.
  - rewrite Sm, Hm. symmetry. apply list_to_map_proper; [by rewrite entry_keys, Hp|by rewrite Hp].
  - by rewrite Sf.
  - intros s. by rewrite Sf, Sv.
  - intros s e He. unfold slots. rewrite Hp. destruct (proj1 (Sl s)) as [e' He']; eauto.
Qed.

Lemma map_get_pairs l1 x l2 : NoDup (cell_key <$> (l1 ++ x :: l2)) ->
  map_get (cell_key x) (pairs (l1 ++ x :: l2)) = Some (cell_value x).
Proof.
  intros Hk. apply elem_of_map_get; [by rewrite pairs_keys|].
  unfold pairs. apply list_elem_of_fmap. exists x. split; [done|]. apply elem_of_app. right.
  apply list_elem_of_here.
Qed.

Lemma map_delete_pairs l1 x l2 : NoDup (cell_key <$> (l1 ++ x :: l2)) ->
  map_delete (cell_key x) (pairs (l1 ++ x :: l2)) = pairs (l1 ++ l2).
Proof.
  rewrite fmap_app, fmap_cons, NoDup_app, NoDup_cons. intros (_ & H1 & H2 & _).
  assert (forall l, cell_key x ∉ cell_key <$> l -> map_delete (cell_key x) (pairs l) = pairs l) as Hd.
  { intros l Hl. induction l as [|y l IH]; [done|]. rewrite fmap_cons, not_elem_of_cons in Hl.
    destruct Hl as [Hy Hl]. cbn. rewrite bool_decide_eq_false_2 by congruence. cbn. f_equal. by apply IH. }
  unfold pairs. rewrite !fmap_app, fmap_cons. unfold map_delete. rewrite !List.filter_app.
  cbn. rewrite bool_decide_eq_true_2 by done. cbn.
  f_equal; [apply Hd|by apply Hd]. intros Hx. apply (H1 _ Hx), list_elem_of_here.
Qed.

Lemma map_get_absent k l : k ∉ cell_key <$> l -> map_get k (pairs l) = None.
Proof. intros Hk. by rewrite map_get_None_keys, pairs_keys. Qed.

(** ** Every operation keeps the invariant *)

Lemma moveToHead_ok c l1 x l2 :
  Cells c (l1 ++ x :: l2) ->
  exists c', moveToHead (cell_slot x) c = Ok c' /\ Cells c' (x :: l1 ++ l2) /\
    lru_capacity c' = lru_capacity c.
Proof.
  intros Hc. pose proof (cells_linked _ _ Hc) as HL. unfold moveToHead. case_decide as Hhead.
  { assert (l1 = []) as ->; [|by exists c].
    destruct (Linked_middle _ _ _ _ HL) as (_ & _ & _ & Hx & _). destruct l1 as [|y l1]; [done|].
    destruct Hx. rewrite (linked_head _ _ HL) in Hhead. injection Hhead as <-. apply list_elem_of_here. }
  destruct (Linked_middle _ _ _ _ HL) as (_ & _ & _ & Hx & _).
  destruct (unlink_ok _ _ _ _ HL) as (c1 & -> & HL1 & S1 & E1). cbn [result_bind].
  rewrite (update_entry_ok _ _ _ _ E1). cbn [result_bind]. set (c2 := with_entries _ c1).
  assert (lru_entries c2 !! cell_slot x = Some (Some
    {| entry_key := cell_key x; entry_value := cell_value x;
       entry_prev := None; entry_next := first l2 None |})) as E2.
  { apply list_lookup_insert_eq. by eapply lookup_lt_Some. }
  rewrite (update_entry_ok _ _ _ _ E2). cbn [result_bind]. set (c3 := with_entries _ c2).
  assert (lru_entries c3 !! cell_slot x = Some (Some
    {| entry_key := cell_key x; entry_value := cell_value x;
       entry_prev := None; entry_next := lru_head c3 |})) as E3.
  { apply list_lookup_insert_eq. by eapply lookup_lt_Some. }
  assert (Linked c3 (l1 ++ l2)) as HL3.
  { eapply Linked_frame; [..|exact HL1]; try done. intros s Hs. unfold c3, c2.
    cbn [lru_entries with_entries]. rewrite !list_lookup_insert_ne; [done|..]; by intros <-. }
  assert (same_store c c3) as S3.
  { eapply same_store_trans; [|apply same_store_update; eauto].
    eapply same_store_trans; [|apply same_store_update; eauto]. done. }
  destruct (link_head_ok _ _ _ HL3 Hx E3) as (c4 & -> & HL4 & S4).
  pose proof (same_store_trans _ _ _ S3 S4) as S. exists c4. split_and!; [done| |apply S].
  eapply Cells_relinked; [exact Hc|exact S|exact HL4|]. apply Permutation_middle.
Qed.

(** [remove] and [evictTail]: forget the key, unlink and vacate its cell. *)
Lemma detach_ok c l1 x l2 :
  Cells c (l1 ++ x :: l2) ->
  exists c1 e, unlink (cell_slot x) (with_map (delete (cell_key x) (lru_map c)) c) = Ok c1 /\
    entryAt (cell_slot x) c1 = Ok e /\ entry_value e = cell_value x /\
    Cells (vacate (cell_slot x) c1) (l1 ++ l2) /\ lru_capacity c1 = lru_capacity c.
Proof.
  intros Hc. set (c0 := with_map _ c).
  assert (Linked c0 (l1 ++ x :: l2)) as HL0 by (apply (Linked_frame c); try done; apply Hc).
  destruct (Linked_middle _ _ _ _ HL0) as (_ & _ & _ & Hx & _).
  destruct (unlink_ok _ _ _ _ HL0) as (c1 & -> & HL1 & S1 & E1). exists c1.
  unfold entryAt. rewrite E1. eexists. split_and!; try done; [|apply S1].
  destruct Hc as [HL Hk Hm Hf Hv Hlive]. destruct S1 as [Sc Sm Sf Sl Sv].
  pose proof (lookup_lt_Some _ _ _ E1) as Hlt.
  split; cbn [lru_entries lru_map lru_free vacate with_free with_entries].
  - eapply Linked_frame; [..|exact HL1]; try done. intros s Hs.
    apply list_lookup_insert_ne. by intros <-.
  - rewrite fmap_app, fmap_cons in Hk. rewrite fmap_app. apply (NoDup_middle _ _ _ Hk).
  - rewrite Sm. cbn [lru_map with_map c0]. rewrite Hm, !fmap_app, fmap_cons.
    rewrite (list_to_map_proper (M := gmap Z) _ (entry_of x :: (entry_of <$> l1) ++ (entry_of <$> l2)));
      [|by rewrite <- fmap_cons, <- fmap_app, entry_keys|by rewrite Permutation_middle].
    change (entry_of x) with (cell_key x, cell_slot x). rewrite list_to_map_cons, delete_insert_id; [done|].
    apply not_elem_of_list_to_map. rewrite <- fmap_app, entry_keys, fmap_app.
    rewrite fmap_app, fmap_cons in Hk. apply (NoDup_middle _ _ _ Hk).
  - rewrite Sf. apply NoDup_app. split_and!; [done| |apply NoDup_singleton].
    intros s Hs ->%list_elem_of_singleton. apply Hv in Hs.
    destruct (proj1 (Sl (cell_slot x))) as [e He]; [eauto|]. cbn in He. congruence.
  - intros s. rewrite Sf, elem_of_app, list_elem_of_singleton. cbn [lru_free with_map c0].
    change (lru_entries c0) with (lru_entries c) in Sv. rewrite Hv, <- Sv. destruct (decide (s = cell_slot x)) as [->|Hs].
    + rewrite list_lookup_insert_eq by done. tauto.
    + rewrite list_lookup_insert_ne by done. tauto.
  - intros s e He. destruct (decide (s = cell_slot x)) as [->|Hs].
    { by rewrite list_lookup_insert_eq in He by done. }
    rewrite list_lookup_insert_ne in He by done.
    destruct (proj1 (Sl s)) as [e' He']; [eauto|]. apply Hlive in He'. cbn in He'.
    rewrite slots_app in *. cbn in He'. rewrite !elem_of_app, elem_of_cons in *.
    destruct He' as [?|[?|?]]; auto. done.
Qed.

Lemma evictTail_ok c l x :
  Cells c (l ++ [x]) ->
  exists c', evictTail c = Ok (c', Some (cell_key x, cell_value x)) /\ Cells c' l /\
    lru_capacity c' = lru_capacity c.
Proof.
  intros Hc. pose proof (cells_linked _ _ Hc) as HL. unfold evictTail.
  rewrite (linked_tail _ _ HL), final_app. cbn [final].
  destruct (Linked_lookup _ _ x HL) as (p & n & Hx); [apply elem_of_app; right; apply list_elem_of_here|].
  unfold entryAt. rewrite Hx. cbn [result_bind entry_key entry_value].
  destruct (detach_ok _ _ _ _ Hc) as (c1 & e & -> & _ & _ & Hc1 & Hcap). cbn [result_bind].
  rewrite app_nil_r in Hc1. eexists. split_and!; [done..|exact Hcap].
Qed.

Lemma last_removelast {A} (l : list A) x : last l = Some x -> l = List.removelast l ++ [x].
Proof.
  intros Hl. destruct l as [|y l _] using rev_ind; [done|].
  rewrite last_snoc in Hl. injection Hl as ->. by rewrite List.removelast_last.
Qed.

(** The fresh cell of [put]. *)
Lemma alloc_ok c l k v :
  Cells c l -> k ∉ cell_key <$> l ->
  let '(c1, slot) := allocSlot {| entry_key := k; entry_value := v;
                                   entry_prev := None; entry_next := lru_head c |} c in
  exists c', link_head slot c1 = Ok c' /\
    Cells (with_map (<[k := slot]> (lru_map c')) c')
      ({| cell_slot := slot; cell_key := k; cell_value := v |} :: l) /\
    lru_capacity c' = lru_capacity c.
Proof.
  intros Hc Hk. unfold allocSlot. destruct Hc as [HL Hnk Hm Hf Hv Hlive].
  assert (forall es free slot,
    es !! slot = Some (Some {| entry_key := k; entry_value := v; entry_prev := None; entry_next := lru_head c |}) ->
    (forall s, s <> slot -> es !! s = lru_entries c !! s) -> slot ∉ slots l ->
    NoDup free -> (forall s, s ∈ free <-> s ∈ lru_free c /\ s <> slot) ->
    exists c', link_head slot (with_free free (with_entries es c)) = Ok c' /\
      Cells (with_map (<[k := slot]> (lru_map c')) c')
        ({| cell_slot := slot; cell_key := k; cell_value := v |} :: l) /\
      lru_capacity c' = lru_capacity c) as Hgen.
  { intros es free slot Hes Hne Hslot Hfree Hin. set (c1 := with_free _ _).
    assert (Linked c1 l) as HL1.
    { eapply Linked_frame; [..|exact HL]; try done. intros s Hs. apply Hne. by intros ->. }
    destruct (link_head_ok c1 {| cell_slot := slot; cell_key := k; cell_value := v |} l HL1 Hslot Hes)
      as (c' & E & HL' & [Sc Sm Sf Sl Sv]). cbn [cell_slot] in E. rewrite E.
    exists c'. split_and!; [done| |done].
    split; cbn [lru_map lru_free lru_entries with_map].
    - by apply (Linked_frame c').
    - rewrite fmap_cons. by apply NoDup_cons.
    - rewrite Sm. cbn. by rewrite Hm.
    - by rewrite Sf.
    - intros s. rewrite Sf, Sv. cbn. rewrite Hin, Hv. destruct (decide (s = slot)) as [->|Hs].
      + rewrite Hes. naive_solver.
      + rewrite Hne by done. tauto.
    - intros s e He. cbn. destruct (decide (s = slot)) as [->|Hs]; [apply list_elem_of_here|right].
      destruct (proj1 (Sl s)) as [e' He']; [eauto|]. cbn in He'. rewrite Hne in He' by done.
      by eapply Hlive. }
  destruct (last (lru_free c)) as [slot|] eqn:Elast.
  - pose proof (last_removelast _ _ Elast) as Efree.
    assert (lru_entries c !! slot = Some None) as Hnone.
    { apply Hv. rewrite Efree. apply elem_of_app. right. apply list_elem_of_here. }
    rewrite Efree in Hf. apply NoDup_app in Hf as (Hf & Hns & _).
    apply Hgen; try done.
    + apply list_lookup_insert_eq. by eapply lookup_lt_Some.
    + intros s Hs. by apply list_lookup_insert_ne.
    + intros Hs. destruct (seg_live _ _ _ _ _ (linked_seg _ _ HL) Hs) as [e He]. congruence.
    + intros s. rewrite Efree at 2. rewrite elem_of_app, list_elem_of_singleton. split; [|tauto].
      intros Hs. split; [auto|]. intros ->. apply (Hns _ Hs), list_elem_of_here.
  - destruct (Hgen (lru_entries c ++ [Some {| entry_key := k; entry_value := v; entry_prev := None;
                entry_next := lru_head c |}]) (lru_free c) (length (lru_entries c)))
      as (c' & E & ?); try done; [..|by exists c'].
    + by rewrite lookup_app_r, Nat.sub_diag by lia.
    + intros s Hs. destruct (decide (s < length (lru_entries c))%nat).
      * by rewrite lookup_app_l.
      * rewrite lookup_ge_None_2, (lookup_ge_None_2 (lru_entries c)); [done|lia|].
        rewrite length_app. cbn. lia.
    + intros Hs. destruct (seg_live _ _ _ _ _ (linked_seg _ _ HL) Hs) as [e He].
      apply lookup_lt_Some in He. lia.
    + intros s. split; [|tauto]. intros Hs. split; [done|]. intros ->. apply Hv in Hs.
      apply lookup_lt_Some in Hs. lia.
Qed.

(** ** The operations answer as the abstract ones *)

Lemma Repr_new n : Repr (new_cache n) [].
Proof.
  exists []. split; [|done]. split; [split; try done; constructor|constructor|done|constructor|..]; cbn.
  - intros s. rewrite lookup_nil. split; [by intros ?%elem_of_nil|done].
  - intros s e. by rewrite lookup_nil.
Qed.

Lemma Repr_size c m : Repr c m -> lru_size c = Z.of_nat (length m).
Proof. intros (l & Hc & ->). by apply Cells_size. Qed.

Lemma value_at_cell c l x : Cells c l -> x ∈ l -> value_at (cell_slot x) c = Some (cell_value x).
Proof.
  intros Hc Hx. unfold value_at.
  by destruct (Linked_lookup _ _ _ (cells_linked _ _ Hc) Hx) as (p & n & ->).
Qed.

Lemma Repr_peek c m k : Repr c m -> lru_peek k c = map_get k m.
Proof.
  intros (l & Hc & ->). unfold lru_peek. destruct (lru_map c !! k) as [s|] eqn:E.
  - destruct (Cells_split _ _ _ _ Hc E) as (l1 & x & l2 & -> & <- & <-).
    rewrite map_get_pairs by apply Hc. apply (value_at_cell _ _ _ Hc).
    apply elem_of_app. right. apply list_elem_of_here.
  - symmetry. by apply map_get_absent, (Cells_absent _ _ _ Hc).
Qed.

Lemma Repr_has c m k : Repr c m -> lru_has k c = map_has k m.
Proof.
  intros (l & Hc & ->). unfold lru_has, map_has. apply bool_decide_ext.
  destruct (lru_map c !! k) as [s|] eqn:E.
  - destruct (Cells_split _ _ _ _ Hc E) as (l1 & x & l2 & -> & <- & <-).
    rewrite map_get_pairs by apply Hc. split; eauto.
  - rewrite map_get_absent; [done|]. by apply (Cells_absent _ _ _ Hc).
Qed.

Lemma Repr_get c m k : Repr c m ->
  exists c', lru_get k c = Ok (c', map_get k m) /\ Repr c' (Recency.get k m) /\
    lru_capacity c' = lru_capacity c.
Proof.
  intros (l & Hc & ->). unfold lru_get, Recency.get. destruct (lru_map c !! k) as [s|] eqn:E.
  - destruct (Cells_split _ _ _ _ Hc E) as (l1 & x & l2 & -> & <- & <-).
    rewrite map_get_pairs, map_delete_pairs by apply Hc.
    destruct (moveToHead_ok _ _ _ _ Hc) as (c' & -> & Hc' & ?). cbn [result_bind]. exists c'.
    rewrite (value_at_cell _ _ _ Hc' (list_elem_of_here _ _)).
    split; [done|]. split; [by eexists|done].
  - rewrite map_get_absent by by apply (Cells_absent _ _ _ Hc).
    exists c. split; [done|]. split; [by eexists|done].
Qed.

Lemma set_value_ok c l1 x l2 v :
  Cells c (l1 ++ x :: l2) ->
  exists c', update_entry (cell_slot x) (with_value v) c = Ok c' /\
    Cells c' (l1 ++ {| cell_slot := cell_slot x; cell_key := cell_key x; cell_value := v |} :: l2) /\
    lru_capacity c' = lru_capacity c.
Proof.
  intros [[Hs Hh Ht Hnd] Hk Hm Hf Hv Hlive].
  assert (slots (l1 ++ x :: l2) =
    slots (l1 ++ {| cell_slot := cell_slot x; cell_key := cell_key x; cell_value := v |} :: l2)) as Esl
    by by rewrite !slots_app.
  pose proof Hnd as Hnd'. rewrite slots_app in Hnd'. apply NoDup_middle in Hnd' as [Hx _].
  rewrite not_elem_of_app in Hx. destruct Hx as [Hx1 Hx2].
  apply seg_app in Hs as [H1 [Hxe H2]]. eexists. split; [by eapply update_entry_ok|]. split; [|done].
  assert (same_store c (with_entries (<[cell_slot x := Some (with_value v
    {| entry_key := cell_key x; entry_value := cell_value x; entry_prev := final None l1;
       entry_next := first l2 None |})]> (lru_entries c)) c)) as [_ _ _ Sl Sv]
    by (apply same_store_update; eauto).
  split; cbn [lru_entries lru_map lru_free with_entries].
  - split; cbn [lru_entries lru_head lru_tail with_entries].
    + apply seg_app. split; [|split]; [|apply list_lookup_insert_eq; by eapply lookup_lt_Some|].
      * eapply seg_frame; [|exact H1]. intros s Hs. apply list_lookup_insert_ne. by intros <-.
      * eapply seg_frame; [|exact H2]. intros s Hs. apply list_lookup_insert_ne. by intros <-.
    + rewrite Hh, !first_app. done.
    + rewrite Ht, !final_app. done.
    + by rewrite <- Esl.
  - by rewrite fmap_app, fmap_cons in Hk |- *.
  - by rewrite Hm, !fmap_app, !fmap_cons.
  - done.
  - intros s. by rewrite Hv, <- Sv.
  - intros s e He. rewrite <- Esl. destruct (proj1 (Sl s)) as [e' He']; eauto.
Qed.

Lemma Repr_put c m k v : Repr c m ->
  exists c', lru_put k v c = Ok (c', (Recency.put (lru_capacity c) k v m).2) /\
    Repr c' (Recency.put (lru_capacity c) k v m).1 /\ lru_capacity c' = lru_capacity c.
Proof.
  intros (l & Hc & ->). unfold lru_put, Recency.put. destruct (lru_map c !! k) as [s|] eqn:E.
  { destruct (Cells_split _ _ _ _ Hc E) as (l1 & x & l2 & -> & <- & <-).
    rewrite map_get_pairs, map_delete_pairs by apply Hc.
    destruct (set_value_ok _ _ _ _ v Hc) as (c1 & -> & Hc1 & Hcap1). cbn [result_bind].
    destruct (moveToHead_ok _ _ _ _ Hc1) as (c2 & E2 & Hc2 & Hcap2). cbn [cell_slot] in E2.
    rewrite E2. exists c2. split; [done|]. split; [by eexists|congruence]. }
  assert (k ∉ cell_key <$> l) as Hk by by apply (Cells_absent _ _ _ Hc).
  rewrite map_get_absent, (Cells_size _ _ Hc) by done. unfold Recency.insert.
  assert (forall c1 l1 evicted, Cells c1 l1 -> k ∉ cell_key <$> l1 -> lru_capacity c1 = lru_capacity c ->
    exists c', (let '(c2, slot) := allocSlot {| entry_key := k; entry_value := v; entry_prev := None;
                                                 entry_next := lru_head c1 |} c1 in
                let! c3 := link_head slot c2 in
                Ok (with_map (<[k := slot]> (lru_map c3)) c3, evicted)) =
        @Ok nat (LruCache V * option (Z * V)) (c', evicted) /\
      Repr c' ((k, v) :: pairs l1) /\ lru_capacity c' = lru_capacity c) as Hnew.
  { intros c1 l1 evicted Hc1 Hk1 Hcap. pose proof (alloc_ok _ _ _ v Hc1 Hk1) as Ha.
    destruct (allocSlot _ c1) as [c2 slot]. destruct Ha as (c3 & -> & Hc3 & Hcap3). cbn [result_bind].
    eexists. split; [done|]. split; [by eexists|cbn; congruence]. }
  case_match; [|cbn [result_bind]; by apply Hnew].
  destruct l as [|x l _] using rev_ind.
  - unfold evictTail. rewrite (linked_tail _ _ (cells_linked _ _ Hc)). cbn [final result_bind].
    by apply (Hnew c []).
  - destruct (evictTail_ok _ _ _ Hc) as (c1 & -> & Hc1 & Hcap1). cbn [result_bind fst snd].
    replace (pairs (l ++ [x])) with (pairs l ++ [(cell_key x, cell_value x)]) by (unfold pairs; by rewrite fmap_app).
    rewrite List.removelast_last, last_snoc.
    apply Hnew; [done| |done]. rewrite fmap_app, not_elem_of_app in Hk. tauto.
Qed.

Lemma Repr_remove c m k : Repr c m ->
  exists c', lru_remove k c = Ok (c', map_get k m) /\ Repr c' (map_delete k m) /\
    lru_capacity c' = lru_capacity c.
Proof.
  intros (l & Hc & ->). unfold lru_remove. destruct (lru_map c !! k) as [s|] eqn:E.
  - destruct (Cells_split _ _ _ _ Hc E) as (l1 & x & l2 & -> & <- & <-).
    rewrite map_get_pairs, map_delete_pairs by apply Hc.
    destruct (detach_ok _ _ _ _ Hc) as (c1 & e & -> & E1 & Ev & Hc1 & Hcap). cbn [result_bind].
    rewrite E1. cbn [result_bind]. rewrite Ev. eexists. split; [done|]. split; [by eexists|exact Hcap].
  - pose proof (proj1 (Cells_absent _ _ _ Hc) E) as Hk. rewrite map_get_absent by done.
    exists c. split; [done|]. split; [|done]. exists l. split; [done|].
    unfold map_delete. apply filter_all. intros e He. unfold pairs in He.
    apply list_elem_of_fmap in He as (x & -> & Hx). cbn.
    rewrite bool_decide_eq_false_2; [done|]. intros <-. apply Hk. by apply list_elem_of_fmap_2.
Qed.

(** The values the array holds, against its live cells as a set. *)
Lemma live_values es (S : list (nat * V)) :
  NoDup S.*1 ->
  (forall i v, (i, v) ∈ S <-> exists e, es !! i = Some (Some e) /\ entry_value e = v) ->
  omap (option_map entry_value) es ≡ₚ S.*2.
Proof.
  revert S. induction es as [|o es IH] using rev_ind; intros S Hnd HS.
  { destruct S as [|[i v] S]; [done|]. destruct (proj1 (HS i v)) as (e & He & _); [apply list_elem_of_here|].
    by rewrite lookup_nil in He. }
  assert (forall i v, (exists e, es !! i = Some (Some e) /\ entry_value e = v) ->
                      (i, v) ∈ S /\ i <> length es) as Hold.
  { intros i v (e & He & <-). pose proof (lookup_lt_Some _ _ _ He). split; [|lia].
    apply HS. exists e. by rewrite lookup_app_l by done. }
  assert (forall i v, (i, v) ∈ S -> i <> length es ->
                      exists e, es !! i = Some (Some e) /\ entry_value e = v) as Hback.
  { intros i v Hi Hne. apply HS in Hi as (e & He & <-). exists e. split; [|done].
    apply lookup_app_Some in He as [He|[Hle He]]; [done|].
    destruct (i - length es)%nat eqn:Ei; [lia|done]. }
  rewrite omap_app. destruct o as [e|].
  - assert ((length es, entry_value e) ∈ S) as Hin.
    { apply HS. exists e. by rewrite lookup_app_r, Nat.sub_diag by lia. }
    apply list_elem_of_split in Hin as (S1 & S2 & ->).
    rewrite fmap_app, fmap_cons. rewrite fmap_app, fmap_cons in Hnd. cbn [fst snd] in *.
    apply NoDup_middle in Hnd as [Hn Hnd]. rewrite <- Permutation_middle, <- fmap_app.
    rewrite <- (IH (S1 ++ S2)); [by rewrite Permutation_app_comm|by rewrite fmap_app|].
    rewrite <- fmap_app in Hn. intros i v. split.
    + intros Hi. apply Hback.
      * rewrite elem_of_app, elem_of_cons in *. tauto.
      * intros ->. apply Hn, list_elem_of_fmap. by exists (length es, v).
    + intros [Hi Hne]%Hold. rewrite elem_of_app, elem_of_cons in *.
      destruct Hi as [?|[[= ? _]|?]]; auto; done.
  - rewrite app_nil_r. apply IH; [done|]. intros i v. split; [|by intros [? _]%Hold].
    intros Hi. apply Hback; [done|]. intros ->. apply HS in Hi as (e & He & _).
    by rewrite lookup_app_r, Nat.sub_diag in He by lia.
Qed.

Lemma Repr_values c m : Repr c m -> lru_values c ≡ₚ map_values m.
Proof.
  intros (l & Hc & ->). unfold lru_values.
  rewrite (live_values _ ((fun x => (cell_slot x, cell_value x)) <$> l)).
  - unfold map_values, pairs. by rewrite <- !list_fmap_compose.
  - rewrite <- list_fmap_compose. apply (cells_linked _ _ Hc).
  - intros i v. rewrite list_elem_of_fmap. split.
    + intros (x & [= -> ->] & Hx).
      destruct (Linked_lookup _ _ _ (cells_linked _ _ Hc) Hx) as (p & n & ->). eauto.
    + intros (e & He & <-). pose proof (cells_live _ _ Hc _ _ He) as Hi.
      apply list_elem_of_fmap in Hi as (x & -> & Hx). exists x. split; [|done].
      destruct (Linked_lookup _ _ _ (cells_linked _ _ Hc) Hx) as (p & n & Hx').
      rewrite Hx' in He. by injection He as <-.
Qed.

Lemma perform_refines c m o : Repr c m ->
  exists c' a, perform o c = Ok (c', a) /\ Repr c' (Recency.perform (lru_capacity c) o m).1 /\
    Recency.same_answer a (Recency.perform (lru_capacity c) o m).2 /\ lru_capacity c' = lru_capacity c.
Proof.
  intros Hr. destruct o as [|k|k|k|k v|k|]; cbn [perform Recency.perform fst snd].
  - rewrite (Repr_size _ _ Hr). by do 2 eexists.
  - rewrite (Repr_has _ _ _ Hr). by do 2 eexists.
  - rewrite (Repr_peek _ _ _ Hr). by do 2 eexists.
  - destruct (Repr_get _ _ k Hr) as (c' & -> & Hr' & ?). by do 2 eexists.
  - destruct (Repr_put _ _ k v Hr) as (c' & -> & Hr' & ?). destruct (Recency.put _ _ _ _).
    by do 2 eexists.
  - destruct (Repr_remove _ _ k Hr) as (c' & -> & Hr' & ?). by do 2 eexists.
  - do 2 eexists. split; [done|]. split; [done|]. split; [|done]. by apply Repr_values.
Qed.

(** The abstract cache never outgrows the capacity; a capacity below one still
    holds the entry just put. *)
Lemma Recency_bounded n o (m : jsmap Z V) :
  Z.of_nat (length m) <= Z.max 1 n -> Z.of_nat (length (Recency.perform n o m).1) <= Z.max 1 n.
Proof.
  assert (forall k, (length (map_delete k m) <= length m)%nat) as Hd.
  { intros k. apply filter_length_le. }
  assert (forall k v, map_get k m = Some v -> (S (length (map_delete k m)) <= length m)%nat) as Hs.
  { intros k v Hk. apply map_get_elem_of in Hk. apply list_elem_of_split in Hk as (l1 & l2 & ->).
    unfold map_delete. rewrite List.filter_app, !length_app. cbn. rewrite bool_decide_eq_true_2 by done.
    cbn. pose proof (filter_length_le (fun e : Z * V => negb (bool_decide (e.1 = k))) l1).
    pose proof (filter_length_le (fun e : Z * V => negb (bool_decide (e.1 = k))) l2). lia. }
  intros Hm. destruct o as [|k|k|k|k v|k|]; cbn [Recency.perform fst snd]; try done.
  - unfold Recency.get. destruct (map_get k m) eqn:E; [|done]. specialize (Hs _ _ E). cbn. lia.
  - unfold Recency.put, Recency.insert. destruct (map_get k m) eqn:E; cbn.
    + specialize (Hs _ _ E). lia.
    + destruct (n <=? _) eqn:En; cbn; [|lia]. destruct m as [|e m _] using rev_ind; [cbn; lia|].
      rewrite List.removelast_last. rewrite length_app in Hm. cbn in *. lia.
  - specialize (Hd k). lia.
Qed.

Lemma perform_all_refines n os : forall c m,
  Repr c m -> lru_capacity c = n -> Z.of_nat (length m) <= Z.max 1 n ->
  exists c' answers, perform_all os c = Ok (c', answers) /\
    Repr c' (Recency.perform_all n os m).1 /\
    Forall2 Recency.same_answer answers (Recency.perform_all n os m).2 /\
    Z.of_nat (length (Recency.perform_all n os m).1) <= Z.max 1 n.
Proof.
  induction os as [|o os IH]; intros c m Hr Hn Hm; cbn [perform_all Recency.perform_all].
  { exists c, []. by split_and!. }
  destruct (perform_refines c m o Hr) as (c1 & a & -> & Hr1 & Ha & Hn1). cbn [result_bind].
  rewrite Hn in *. pose proof (Recency_bounded n o m Hm) as Hm1.
  destruct (Recency.perform n o m) as [m1 b]. cbn [fst snd] in *.
  destruct (IH c1 m1 Hr1 Hn1 Hm1) as (c2 & rest & -> & Hr2 & Hrest & Hm2). cbn [result_bind].
  destruct (Recency.perform_all n os m1) as [m2 bs]. cbn [fst snd] in *.
  exists c2, (a :: rest). split_and!; try done. by constructor.
Qed.

End Linked.

(** C25: the cache implemented with an array of doubly linked cells, a free list
    and a key map answers every sequence of calls as a list of pairs kept in
    order of recency does: [get] and [put] move to the front, [put] at capacity
    evicts the last pair and returns it, [peek] and [has] move nothing, and
    [values] returns the same values in array order. No call throws
    [LruSlotError], and the cache never holds more than its capacity (or one
    entry, when the capacity is below one). *)
Theorem lru_refines_recency {V} (n : Z) (os : list (call V)) :
  exists c answers,
    perform_all os (new_cache n) = Ok (c, answers) /\
    Forall2 Recency.same_answer answers (Recency.perform_all n os []).2 /\
    lru_size c = Z.of_nat (length (Recency.perform_all n os []).1) /\
    lru_size c <= Z.max 1 n.
Proof.
  destruct (perform_all_refines n os (new_cache n) [] (Repr_new n) eq_refl) as (c & answers & E & Hr & Ha & Hb);
    [cbn; lia|].
  exists c, answers. rewrite (Repr_size _ _ Hr). by split_and!.
Qed.
