(* ===== verification/JsUnits.v ===== *)
(** * Text operations of the standard library

    Strings as UTF-16 code units, with the operations of [String.prototype] that
    the log miner, the formulas and the address guard use: [trim], [split],
    [join], the white space class of regular expressions. *)

From Stdlib Require Import Ascii String.
From stdpp Require Import prelude list pretty.
From Stdlib Require Import ZArith Lia.
From S2P Require Import Prelude.
From S2P Require Import JsString.
From S2P Require Import IngestSha256.
From S2P Require Import IngestRegex.

Open Scope Z_scope.

(** WhiteSpace and LineTerminator: what [trim] removes and [\s] matches. *)
Definition is_space (c : Z) : bool :=
  ((9 <=? c) && (c <=? 13)) || (c =? 32) || (c =? 160) || (c =? 0x1680) ||
  ((0x2000 <=? c) && (c <=? 0x200a)) || (c =? 0x2028) || (c =? 0x2029) || (c =? 0x202f) ||
  (c =? 0x205f) || (c =? 0x3000) || (c =? 0xfeff).

Fixpoint skip_space (a : text) : text :=
  match a with
  | c :: a' => if is_space c then skip_space a' else a
  | [] => []
  end.

(** [a.trim()] *)
Definition trim_text (a : text) : text := rev (skip_space (rev (skip_space a))).

(** [a.split(separator)] for a separator that is not empty: [piece] is the part
    read so far, [skip] counts the units of the separator still to drop. *)
Fixpoint split_units (separator : text) (skip : nat) (piece a : text) : list text :=
  match a with
  | [] => [piece]
  | c :: a' =>
      match skip with
      | S n => split_units separator n piece a'
      | O =>
          if starts_with a separator then piece :: split_units separator (length separator - 1) [] a'
          else split_units separator 0 (piece ++ [c]) a'
      end
  end.

(** [a.split(separator)]; an empty separator cuts after every unit. *)
Definition split_text (separator a : text) : list text :=
  match separator with
  | [] => List.map (fun c => [c]) a
  | _ => split_units separator 0 [] a
  end.

(** [parts.join(separator)] *)
Fixpoint join_text (separator : text) (parts : list text) : text :=
  match parts with
  | [] => []
  | [p] => p
  | p :: parts' => p ++ separator ++ join_text separator parts'
  end.

(** [a.split(/\s+/)]: [gap] holds inside a run of white space. *)
Fixpoint split_space (piece : text) (gap : bool) (a : text) : list text :=
  match a with
  | [] => [piece]
  | c :: a' =>
      if is_space c then
        if gap then split_space piece true a' else piece :: split_space [] true a'
      else split_space (piece ++ [c]) false a'
  end.

(** [a.includes(b)] *)
Fixpoint includes_text (b a : text) : bool :=
  starts_with a b || match a with [] => false | _ :: a' => includes_text b a' end.

(** [a.endsWith(b)] *)
Definition ends_with (a b : text) : bool := starts_with (rev a) (rev b).

Example split_text_ex :
  List.map (split_text (lit "::")) [lit "a::b"; lit "::"; lit "a"] =
  [[lit "a"; lit "b"]; [[]; []]; [lit "a"]].
Proof. reflexivity. Qed.

Example split_space_ex :
  split_space [] false (lit " a  b ") = [[]; lit "a"; lit "b"; []].
Proof. reflexivity. Qed.

Example trim_text_ex : trim_text (lit "  a b ") = lit "a b".
Proof. reflexivity. Qed.

Lemma starts_with_spec a b : starts_with a b = true <-> exists r, a = b ++ r.
Proof.
  revert a. induction b as [|y b IH]; intros a; [destruct a; cbn; naive_solver|].
  destruct a as [|x a]; cbn; [split; [done|by intros [r ?]]|].
  rewrite andb_true_iff, Z.eqb_eq, IH. naive_solver.
Qed.

Lemma ends_with_spec a b : ends_with a b = true <-> exists p, a = p ++ b.
Proof.
  unfold ends_with. rewrite starts_with_spec. split.
  - intros [r Hr]. exists (rev r). by rewrite <- (rev_involutive a), Hr, rev_app_distr, rev_involutive.
  - intros [p ->]. exists (rev p). by rewrite rev_app_distr.
Qed.

Lemma skip_space_suffix a : exists p, a = p ++ skip_space a /\ Forall (fun c => is_space c = true) p.
Proof.
  induction a as [|c a (p & Ha & Hp)]; [by exists []|]. cbn. destruct (is_space c) eqn:E.
  - exists (c :: p). cbn. rewrite <- Ha. split; [done|]. by constructor.
  - by exists [].
Qed.

Lemma skip_space_head c a r : skip_space a = c :: r -> is_space c = false.
Proof.
  induction a as [|d a IH]; cbn; [done|]. destruct (is_space d) eqn:E; [done|]. by intros [= <- _].
Qed.

Lemma skip_space_idem a : skip_space (skip_space a) = skip_space a.
Proof.
  destruct (skip_space a) as [|c r] eqn:E; [done|]. cbn. by rewrite (skip_space_head c a r).
Qed.

(** ** Trimming *)

Definition spaces (s : text) : Prop := Forall (fun c => is_space c = true) s.

(** The text starts with a unit that is no white space. *)
Definition solid (a : text) : Prop := match a with c :: _ => is_space c = false | [] => False end.

Lemma skip_space_app s a : spaces s -> skip_space (s ++ a) = skip_space a.
Proof. induction 1 as [|c s Hc _ IH]; [done|]. cbn. by rewrite Hc. Qed.

Lemma skip_space_solid a b : solid a -> skip_space (a ++ b) = a ++ b.
Proof. destruct a as [|c a]; [done|]. cbn. by intros ->. Qed.

Lemma spaces_rev s : spaces s -> spaces (rev s).
Proof. intros Hs. apply Forall_forall. intros c Hc. apply (proj1 (Forall_forall _ _) Hs). by apply list_elem_of_In, in_rev, list_elem_of_In. Qed.

Lemma trim_core s1 a s2 : spaces s1 -> solid a -> solid (rev a) -> spaces s2 -> trim_text (s1 ++ a ++ s2) = a.
Proof.
  intros H1 Ha Hr H2. unfold trim_text. rewrite skip_space_app, skip_space_solid, rev_app_distr by done.
  rewrite skip_space_app by by apply spaces_rev. rewrite <- (app_nil_r (rev a)), skip_space_solid by done.
  by rewrite app_nil_r, rev_involutive.
Qed.

(** Trimming never cuts past a solid unit. *)
Lemma trim_keep s a c e : spaces s -> solid a -> is_space c = false ->
  exists e', trim_text (s ++ a ++ c :: e) = a ++ c :: e'.
Proof.
  intros Hs Ha Hc. unfold trim_text. rewrite skip_space_app, skip_space_solid by done.
  replace (rev (a ++ c :: e)) with (rev e ++ c :: rev a) by (rewrite rev_app_distr; cbn; by rewrite <- app_assoc).
  assert (exists e', skip_space (rev e ++ c :: rev a) = e' ++ c :: rev a) as [e' ->].
  { induction (rev e) as [|x y IH]; [exists []; cbn; by rewrite Hc|]. cbn. destruct (is_space x); [done|by exists (x :: y)]. }
  exists (rev e'). rewrite rev_app_distr. cbn. by rewrite rev_involutive, <- app_assoc.
Qed.

(** ** Decimal numerals *)

Fixpoint plain_ascii (s : string) : bool :=
  match s with EmptyString => true | String c s' => (byte_of c <? 128) && plain_ascii s' end.

Lemma pretty_N_go_ascii x s : plain_ascii s = true -> plain_ascii (pretty_N_go x s) = true.
Proof.
  revert s. induction (N.lt_wf_0 x) as [x _ IH]; intros s Hs.
  assert (x = 0 \/ 0 < x)%N as [->|Hx] by lia; [by rewrite pretty_N_go_0|].
  rewrite pretty_N_go_step by done. apply IH; [by apply N.div_lt|].
  cbn [plain_ascii]. rewrite Hs, andb_true_r. unfold pretty_N_char. by repeat case_match.
Qed.

Lemma show_ascii z : plain_ascii (show z) = true.
Proof.
  assert (forall n : N, plain_ascii (pretty n) = true) as Hn.
  { intros n. unfold pretty, pretty_N. case_decide; [done|]. by apply pretty_N_go_ascii. }
  destruct z as [|p|p]; [done|apply (Hn (N.pos p))|].
  change (plain_ascii (String "-" (pretty (N.pos p))) = true). apply (Hn (N.pos p)).
Qed.

(** The units of an ASCII string are ASCII. *)
Lemma ascii_units s : plain_ascii s = true -> Forall (fun c => c < 128) (utf16_units s).
Proof.
  induction s as [|c s IH]; [constructor|]. cbn [plain_ascii utf16_units]. intros [Hc Hs]%andb_true_iff.
  rewrite Hc. constructor; [|by apply IH]. lia.
Qed.

Lemma utf16_units_ascii_inj s t :
  plain_ascii s = true -> plain_ascii t = true -> utf16_units s = utf16_units t -> s = t.
Proof.
  revert t. induction s as [|c s IH]; intros [|d t]; cbn [plain_ascii utf16_units]; intros Hs Ht;
    try done; try (apply andb_true_iff in Hs as [Hc Hs]); try (apply andb_true_iff in Ht as [Hd Ht]);
    rewrite ?Hc, ?Hd; try done.
  intros [= Hcd Hst]. f_equal; [|by apply IH].
  unfold byte_of in Hcd. apply N2Z.inj in Hcd. by rewrite <- (ascii_N_embedding c), Hcd, ascii_N_embedding.
Qed.

Lemma digits_text_inj a b : digits_text a = digits_text b -> a = b.
Proof.
  intros H. apply show_inj. apply utf16_units_ascii_inj; [apply show_ascii..|exact H].
Qed.
