(* ===== verification/Drain.v ===== *)
(** * The log template miner

    packages/query-engine/src/drain: drain.ts (the Drain algorithm on a prefix
    tree), log-cluster.ts, node.ts, masking.ts, config.ts and
    [TemplateMiner.addLogMessage]; and [clusterLogPatterns] of
    observability/mine-log-patterns.ts, which counts messages per template.

    Clusters are mutable objects that the store, the caller and later calls
    share, so they live in a heap and the store maps cluster ids to references.
    The nodes of the tree are reachable from the root only and are values. *)

From Stdlib Require Import Ascii String.
From stdpp Require Import prelude gmap list.
From Stdlib Require Import ZArith Lia.
From S2P Require Import Prelude.
From S2P Require Import JsNum.
From S2P Require Import IngestSha256.
From S2P Require Import IngestRegex.
From S2P Require Import JsUnits.
From S2P Require Import LruCache.

Open Scope Z_scope.
Local Open Scope maple_scope.

(** ** Data *)

Record LogCluster := {
  logTemplateTokens : list text;
  clusterId : Z;
  cluster_size : Z }.

Definition new_cluster (tokens : list text) (id : Z) : LogCluster :=
  {| logTemplateTokens := tokens; clusterId := id; cluster_size := 1 |}.

Definition getTemplate (c : LogCluster) : text := join_text (lit " ") (logTemplateTokens c).

Inductive Node := mk_node (children : jsmap text Node) (ids : list Z).

Definition keyToChildNode (n : Node) : jsmap text Node := let '(mk_node m _) := n in m.
Definition clusterIds (n : Node) : list Z := let '(mk_node _ l) := n in l.
Definition new_node : Node := mk_node [] [].

(** A reference to a cluster: its index in the heap. *)
Notation ref := nat.

Inductive Store :=
  | MapStore (m : jsmap Z ref)
  | LruStore (c : LruCache ref).

Inductive drain_error :=
  | DrainInvariantError (message : string)
  | LruSlotError (slot : nat).

Record Config := {
  maxNodeDepth : Z;
  simTh : num;
  maxChildren : Z;
  extraDelimiters : list text;
  paramStr : text;
  parametrizeNumericTokens : bool }.

Record Drain := {
  rootNode : Node;
  store : Store;
  clustersCounter : Z;
  heap : list LogCluster }.

Inductive FullSearchStrategy := Always | Never | Fallback.

Notation "'throws'" := (result drain_error) (only parsing).

(** The constructor. *)
Definition new_drain (depth : Z) (simTh : num) (maxChildren : Z) (maxClusters : option Z)
    (extraDelimiters : list text) (paramStr : text) (parametrizeNumericTokens : bool) :
    throws (Config * Drain) :=
  if depth <? 3 then Err (DrainInvariantError "depth argument must be at least 3")
  else Ok ({| maxNodeDepth := depth - 2; simTh := simTh; maxChildren := maxChildren;
              extraDelimiters := extraDelimiters; paramStr := paramStr;
              parametrizeNumericTokens := parametrizeNumericTokens |},
           {| rootNode := new_node;
              store := match maxClusters with
                       | Some n => LruStore (new_cache n)
                       | None => MapStore []
                       end;
              clustersCounter := 0; heap := [] |}).

(** ** The store *)

(** An exception of the cache passes through. *)
Definition lru_call {A B} (m : result nat A) (k : A -> throws B) : throws B :=
  match m with Ok a => k a | Err slot => Err (LruSlotError slot) end.

Definition store_count (s : Store) : Z :=
  match s with MapStore m => Z.of_nat (length m) | LruStore c => lru_size c end.

Definition store_values (s : Store) : list ref :=
  match s with MapStore m => map_values m | LruStore c => lru_values c end.

Definition store_peek (id : Z) (s : Store) : option ref :=
  match s with MapStore m => map_get id m | LruStore c => lru_peek id c end.

Definition store_get (id : Z) (s : Store) : throws (Store * option ref) :=
  match s with
  | MapStore m => Ok (MapStore m, map_get id m)
  | LruStore c => lru_call (lru_get id c) (fun '(c, v) => Ok (LruStore c, v))
  end.

Definition store_has (id : Z) (s : Store) : bool :=
  match s with MapStore m => map_has id m | LruStore c => lru_has id c end.

Definition store_insert (id : Z) (r : ref) (s : Store) : throws Store :=
  match s with
  | MapStore m => Ok (MapStore (map_set id r m))
  | LruStore c => lru_call (lru_put id r c) (fun '(c, _) => Ok (LruStore c))
  end.

Definition with_store (s : Store) (d : Drain) : Drain :=
  {| rootNode := rootNode d; store := s; clustersCounter := clustersCounter d; heap := heap d |}.
Definition with_root (n : Node) (d : Drain) : Drain :=
  {| rootNode := n; store := store d; clustersCounter := clustersCounter d; heap := heap d |}.
Definition with_heap (h : list LogCluster) (d : Drain) : Drain :=
  {| rootNode := rootNode d; store := store d; clustersCounter := clustersCounter d; heap := h |}.

Definition clusterCount (d : Drain) : Z := store_count (store d).

Definition clusters (d : Drain) : list LogCluster :=
  omap (fun r => heap d !! r) (store_values (store d)).

Definition getTotalClusterSize (d : Drain) : Z :=
  foldl (fun total c => total + cluster_size c) 0 (clusters d).

(** The cluster [clusterPeek] returns, with its reference. *)
Definition clusterPeek (id : Z) (d : Drain) : option (ref * LogCluster) :=
  match store_peek id (store d) with
  | Some r => option_map (pair r) (heap d !! r)
  | None => None
  end.

(** ** Tokens and similarity *)

Definition hasNumbers (s : text) : bool := existsb is_decimal s.

Section Drain.
Context (cfg : Config).

Definition getContentAsTokens (content : text) : list text :=
  let c := foldl (fun c delimiter => join_text (lit " ") (split_text delimiter c))
             (trim_text content) (extraDelimiters cfg) in
  match c with [] => [] | _ => split_space [] false c end.

(** The counters of [getSeqDistance]: equal tokens, and parameters of the template. *)
Fixpoint count_tokens (seq1 seq2 : list text) (simTokens paramCount : Z) : Z * Z :=
  match seq1, seq2 with
  | a :: seq1', b :: seq2' =>
      if decide (a = paramStr cfg) then count_tokens seq1' seq2' simTokens (paramCount + 1)
      else count_tokens seq1' seq2' (if decide (a = b) then simTokens + 1 else simTokens) paramCount
  | _, _ => (simTokens, paramCount)
  end.

Definition getSeqDistance (seq1 seq2 : list text) (includeParams : bool) : throws (num * Z) :=
  if negb (Nat.eqb (length seq1) (length seq2)) then
    Err (DrainInvariantError "seq1 and seq2 must have equal length")
  else match seq1 with
  | [] => Ok (num_of_Z 1, 0)
  | _ =>
      let '(simTokens, paramCount) := count_tokens seq1 seq2 0 0 in
      let simTokens := if includeParams then simTokens + paramCount else simTokens in
      Ok (num_div (num_of_Z simTokens) (num_of_Z (Z.of_nat (length seq1))), paramCount)
  end.

Definition merge_token (t1 t2 : text) : text := if decide (t1 = t2) then t2 else paramStr cfg.

Definition createTemplate (seq1 seq2 : list text) : throws (list text) :=
  if negb (Nat.eqb (length seq1) (length seq2)) then
    Err (DrainInvariantError "seq1 and seq2 must have equal length")
  else Ok (zip_with merge_token seq1 seq2).

(** ** Search *)

Record Best := { maxSim : num; maxParamCount : Z; maxClusterId : option Z }.

Fixpoint match_loop (d : Drain) (ids : list Z) (tokens : list text) (includeParams : bool) (best : Best) :
    throws Best :=
  match ids with
  | [] => Ok best
  | cid :: ids' =>
      match clusterPeek cid d with
      | None => match_loop d ids' tokens includeParams best
      | Some (_, cluster) =>
          let! (curSim, paramCount) := getSeqDistance (logTemplateTokens cluster) tokens includeParams in
          match_loop d ids' tokens includeParams
            (if num_gtb curSim (maxSim best) ||
                (num_eqb curSim (maxSim best) && (maxParamCount best <? paramCount))
             then {| maxSim := curSim; maxParamCount := paramCount; maxClusterId := Some cid |}
             else best)
      end
  end.

Definition fastMatch (d : Drain) (ids : list Z) (tokens : list text) (simTh : num) (includeParams : bool) :
    throws (option Z) :=
  let! best := match_loop d ids tokens includeParams
                 {| maxSim := num_of_Z (-1); maxParamCount := -1; maxClusterId := None |} in
  Ok (if num_geb (maxSim best) simTh then maxClusterId best else None).

(** The loop of [treeSearch]: the node the walk ends at. *)
Fixpoint search_walk (tokenCount : Z) (tokens : list text) (curNode : Node) (curNodeDepth : Z) : option Node :=
  match tokens with
  | [] => Some curNode
  | token :: tokens' =>
      if maxNodeDepth cfg <=? curNodeDepth then Some curNode
      else if tokenCount <=? curNodeDepth then Some curNode
      else match map_get token (keyToChildNode curNode) with
      | Some child => search_walk tokenCount tokens' child (curNodeDepth + 1)
      | None =>
          match map_get (paramStr cfg) (keyToChildNode curNode) with
          | Some wildcardChild => search_walk tokenCount tokens' wildcardChild (curNodeDepth + 1)
          | None => None
          end
      end
  end.

Definition count_key (tokens : list text) : text := digits_text (Z.of_nat (length tokens)).

Definition treeSearch (d : Drain) (tokens : list text) (simTh : num) (includeParams : bool) :
    throws (option Z) :=
  match map_get (count_key tokens) (keyToChildNode (rootNode d)) with
  | None => Ok None
  | Some firstNode =>
      match tokens with
      | [] => Ok (head (clusterIds firstNode))
      | _ =>
          match search_walk (Z.of_nat (length tokens)) tokens firstNode 1 with
          | None => Ok None
          | Some curNode => fastMatch d (clusterIds curNode) tokens simTh includeParams
          end
      end
  end.

(** ** Insertion *)

(** The child a token goes to: the keys [childAt] is called with. *)
Definition child_key (token : text) (node : Node) : text :=
  let kids := keyToChildNode node in
  if map_has token kids then token
  else if parametrizeNumericTokens cfg && hasNumbers token then paramStr cfg
  else if map_has (paramStr cfg) kids then
    if Z.of_nat (length kids) <? maxChildren cfg then token else paramStr cfg
  else if Z.of_nat (length kids) + 1 <? maxChildren cfg then token
  else paramStr cfg.

(** [childAt(node, key)] and the update of the child through the reference. *)
Definition at_child (key : text) (f : Node -> Node) (node : Node) : Node :=
  mk_node (map_set key (f (default new_node (map_get key (keyToChildNode node)))) (keyToChildNode node))
    (clusterIds node).

Fixpoint add_walk (s : Store) (tokenCount : Z) (id : Z) (tokens : list text) (currentDepth : Z) (curNode : Node) :
    Node :=
  match tokens with
  | [] => curNode
  | token :: tokens' =>
      if (maxNodeDepth cfg <=? currentDepth) || (tokenCount <=? currentDepth) then
        mk_node (keyToChildNode curNode) (List.filter (fun cid => store_has cid s) (clusterIds curNode) ++ [id])
      else
        at_child (child_key token curNode) (add_walk s tokenCount id tokens' (currentDepth + 1)) curNode
  end.

Definition addSeqToPrefixTree (d : Drain) (id : Z) (templateTokens : list text) : Node :=
  at_child (count_key templateTokens)
    (fun curNode =>
       match templateTokens with
       | [] => mk_node (keyToChildNode curNode) [id]
       | _ => add_walk (store d) (Z.of_nat (length templateTokens)) id templateTokens 1 curNode
       end)
    (rootNode d).

Inductive update_type := cluster_created | cluster_template_changed | update_none.

Definition addLogMessage (content : text) (d : Drain) : throws (Drain * (ref * update_type)) :=
  let contentTokens := getContentAsTokens content in
  let! matchClusterId := treeSearch d contentTokens (simTh cfg) false in
  let existingCluster := match matchClusterId with None => None | Some id => clusterPeek id d end in
  match existingCluster with
  | None =>
      let id := clustersCounter d + 1 in
      let r := length (heap d) in
      let! s := store_insert id r (store d) in
      let d' := {| rootNode := rootNode d; store := s; clustersCounter := id;
                   heap := heap d ++ [new_cluster contentTokens id] |} in
      Ok (with_root (addSeqToPrefixTree d' id contentTokens) d', (r, cluster_created))
  | Some (r, cluster) =>
      let! newTemplateTokens := createTemplate contentTokens (logTemplateTokens cluster) in
      let updateType := if decide (newTemplateTokens = logTemplateTokens cluster)
                        then update_none else cluster_template_changed in
      let d' := with_heap (<[r := {| logTemplateTokens := newTemplateTokens; clusterId := clusterId cluster;
                                     cluster_size := cluster_size cluster + 1 |}]> (heap d)) d in
      let! (s, _) := store_get (clusterId cluster) (store d') in
      Ok (with_store s d', (r, updateType))
  end.

(** ** Matching *)

Fixpoint collectRecursive (node : Node) : list Z :=
  let '(mk_node kids ids) := node in
  ids ++ (fix go (kids : jsmap text Node) : list Z :=
            match kids with [] => [] | (_, child) :: kids' => collectRecursive child ++ go kids' end) kids.

Definition getClustersIdsForSeqLen (d : Drain) (tokens : list text) : list Z :=
  match map_get (count_key tokens) (keyToChildNode (rootNode d)) with
  | None => []
  | Some node => collectRecursive node
  end.

Definition match_cluster (d : Drain) (content : text) (strategy : FullSearchStrategy) :
    throws (option (ref * LogCluster)) :=
  let contentTokens := getContentAsTokens content in
  let requiredSimTh := num_of_Z 1 in
  let fullSearch :=
    let! matchedId := fastMatch d (getClustersIdsForSeqLen d contentTokens) contentTokens requiredSimTh true in
    Ok (match matchedId with None => None | Some id => clusterPeek id d end) in
  match strategy with
  | Always => fullSearch
  | _ =>
      let! matchId := treeSearch d contentTokens requiredSimTh true in
      match matchId, strategy with
      | Some id, _ => Ok (clusterPeek id d)
      | None, Never => Ok None
      | None, _ => fullSearch
      end
  end.

End Drain.
