(* ===== verification/DrainInvariant.v ===== *)
(** * The log miner's invariant

    What every state of the miner satisfies, whichever store it uses: the
    references of the store point to clusters with their own ids, and the ids
    kept in the tree belong to clusters of as many tokens as the branch they are
    in. Hence no call throws. *)

From Stdlib Require Import Ascii String.
From stdpp Require Import prelude gmap list.
From Stdlib Require Import ZArith Lia Floats.SpecFloat.
From S2P Require Import Prelude.
From S2P Require Import JsNum.
From S2P Require Import JsString.
From S2P Require Import JsRatio.
From S2P Require Import IngestSha256.
From S2P Require Import IngestRegex.
From S2P Require Import JsUnits.
From S2P Require Import LruCache.
From S2P Require Import Drain.

Open Scope Z_scope.
Local Open Scope maple_scope.

(** ** The store as a finite map *)

Definition store_ok (s : Store) (m : jsmap Z ref) : Prop :=
  match s with MapStore m' => m = m' | LruStore c => Repr c m end.

Definition is_map (s : Store) : Prop := match s with MapStore _ => True | LruStore _ => False end.

Lemma map_get_removelast {K V} `{!EqDecision K} (m : jsmap K V) k r :
  map_get k (List.removelast m) = Some r -> map_get k m = Some r.
Proof.
  destruct m as [|e m _] using rev_ind; [done|]. rewrite List.removelast_last.
  intros Hk. induction m as [|[k' r'] m IH]; [done|]. cbn [map_get app] in *. by case_decide; auto.
Qed.

Section Store.
Context (s : Store) (m : jsmap Z ref) (Hs : store_ok s m).

Lemma store_peek_ok id : store_peek id s = map_get id m.
Proof using Hs. destruct s as [m'|c]; cbn in *; [by subst|by apply Repr_peek]. Qed.

Lemma store_has_ok id : store_has id s = map_has id m.
Proof using Hs. destruct s as [m'|c]; cbn in *; [by subst|by apply Repr_has]. Qed.

Lemma recency_get_same id k : map_get k (Recency.get id m) = map_get k m.
Proof using.
  unfold Recency.get. destruct (map_get id m) as [r|] eqn:E; [|done].
  cbn [map_get]. case_decide as Hk; [by subst|]. rewrite map_delete_get. by rewrite decide_False by congruence.
Qed.

Lemma store_get_ok id :
  exists s' m', store_get id s = Ok (s', map_get id m) /\ store_ok s' m' /\
    (forall k, map_get k m' = map_get k m) /\ (is_map s <-> is_map s').
Proof using Hs.
  destruct s as [m'|c]; cbn [store_get store_ok] in *.
  - subst. by exists (MapStore m'), m'.
  - destruct (Repr_get _ _ id Hs) as (c' & -> & Hr & _). cbn [lru_call].
    exists (LruStore c'), (Recency.get id m). split_and!; try done. apply recency_get_same.
Qed.

Lemma store_insert_ok id r : map_get id m = None ->
  exists s' m', store_insert id r s = Ok s' /\ store_ok s' m' /\ map_get id m' = Some r /\
    (forall k r', k <> id -> map_get k m' = Some r' -> map_get k m = Some r') /\
    (is_map s -> forall k, k <> id -> map_get k m' = map_get k m) /\ (is_map s <-> is_map s').
Proof using Hs.
  intros Hid. destruct s as [m'|c]; cbn [store_insert store_ok] in *.
  - subst. exists (MapStore (map_set id r m')), (map_set id r m'). split_and!; try done.
    + apply map_get_set_eq.
    + intros k r' Hk. by rewrite map_get_set_ne.
    + intros _ k Hk. by rewrite map_get_set_ne.
  - destruct (Repr_put _ _ id r Hs) as (c' & -> & Hr & _). cbn [lru_call].
    unfold Recency.put in *. rewrite Hid in *. unfold Recency.insert in *.
    eexists (LruStore c'), _. split; [done|]. split; [exact Hr|].
    split; [|split; [|split; [done|done]]].
    + case_match; cbn [fst map_get]; by rewrite decide_True.
    + intros k r' Hk. case_match; cbn [fst map_get]; rewrite decide_False by done; [|done].
      apply map_get_removelast.
Qed.
End Store.

(** ** The tree *)

Lemma map_set_elem {K V} `{!EqDecision K} (k : K) (v : V) m k' v' :
  (k', v') ∈ map_set k v m -> (k', v') = (k, v) \/ (k', v') ∈ m.
Proof.
  induction m as [|[k0 v0] m IH]; cbn [map_set]; [by intros ->%list_elem_of_singleton; left|].
  case_decide; rewrite !elem_of_cons; naive_solver.
Qed.

Lemma elem_map_set {K V} `{!EqDecision K} (k : K) (v : V) m k' v' :
  (k', v') ∈ m -> (k', v') ∈ map_set k v m \/ k' = k /\ map_get k m = Some v'.
Proof.
  induction m as [|[k0 v0] m IH]; [by intros ?%elem_of_nil|]. cbn [map_set map_get].
  rewrite elem_of_cons. case_decide as Hk.
  - intros [[= -> ->]|Hm]; [by right|]. left. by right.
  - intros [[= -> ->]|Hm]; [left; left|]. destruct (IH Hm) as [?|?]; [left; by right|by right].
Qed.

Lemma map_set_new {K V} `{!EqDecision K} (k : K) (v : V) m : (k, v) ∈ map_set k v m.
Proof. apply map_get_elem_of, map_get_set_eq. Qed.

Lemma elem_of_collect id n :
  id ∈ collectRecursive n <->
  id ∈ clusterIds n \/ exists k child, (k, child) ∈ keyToChildNode n /\ id ∈ collectRecursive child.
Proof.
  destruct n as [kids ids]. cbn [collectRecursive clusterIds keyToChildNode]. rewrite elem_of_app.
  apply or_iff_compat_l. induction kids as [|[k child] kids IH].
  - split; [by intros ?%elem_of_nil|]. intros (? & ? & []%elem_of_nil & _).
  - rewrite elem_of_app, IH. setoid_rewrite elem_of_cons. naive_solver.
Qed.

Lemma collect_child id n k child :
  map_get k (keyToChildNode n) = Some child -> id ∈ collectRecursive child -> id ∈ collectRecursive n.
Proof. intros Hk Hid. apply elem_of_collect. right. eauto using map_get_elem_of. Qed.

Lemma collect_new id : id ∉ collectRecursive new_node.
Proof. cbn. apply not_elem_of_nil. Qed.

Lemma collect_at_child id key f n :
  (forall c, id ∈ collectRecursive (f c) -> id ∈ collectRecursive c) ->
  id ∈ collectRecursive (at_child key f n) -> id ∈ collectRecursive n.
Proof.
  intros Hf. rewrite !elem_of_collect. unfold at_child. cbn [clusterIds keyToChildNode].
  intros [?|(k & child & Hk & Hid)]; [by left|right].
  apply map_set_elem in Hk as [[= -> ->]|Hk]; [|eauto].
  apply Hf in Hid. destruct (map_get key (keyToChildNode n)) as [c|] eqn:E; cbn [default] in Hid.
  - eauto using map_get_elem_of.
  - by apply collect_new in Hid.
Qed.

Lemma collect_at_child_keep id key f n :
  (forall c, id ∈ collectRecursive c -> id ∈ collectRecursive (f c)) ->
  id ∈ collectRecursive n -> id ∈ collectRecursive (at_child key f n).
Proof.
  intros Hf. rewrite !elem_of_collect. unfold at_child. cbn [clusterIds keyToChildNode].
  intros [?|(k & child & Hk & Hid)]; [by left|right].
  destruct (elem_map_set key (f (default new_node (map_get key (keyToChildNode n)))) _ _ _ Hk)
    as [?|[-> E]]; [eauto|].
  rewrite E. exists key, (f child). split; [apply map_set_new|auto].
Qed.

Lemma collect_at_child_new id key f n :
  (forall c, id ∈ collectRecursive (f c)) -> id ∈ collectRecursive (at_child key f n).
Proof.
  intros Hf. apply elem_of_collect. right. do 2 eexists. split; [apply map_set_new|auto].
Qed.

Lemma count_key_inj a b : count_key a = count_key b -> length a = length b.
Proof. intros E%digits_text_inj. lia. Qed.

(** ** Templates and similarity *)

Section Miner.
Context (cfg : Config).

(** A template covers a message: each token is the parameter mark or the
    message's token. *)
Definition covers (template tokens : list text) : Prop :=
  Forall2 (fun t x => t = paramStr cfg \/ t = x) template tokens.

Lemma covers_self tokens : covers tokens tokens.
Proof. apply Forall_Forall2_diag, Forall_forall. auto. Qed.

Lemma covers_length template tokens : covers template tokens -> length template = length tokens.
Proof. apply Forall2_length. Qed.

Lemma count_tokens_spec template tokens a b :
  length template = length tokens ->
  exists e p, count_tokens cfg template tokens a b = (a + e, b + p) /\
    0 <= e /\ 0 <= p /\ e + p <= Z.of_nat (length template) /\
    (e + p = Z.of_nat (length template) <-> covers template tokens).
Proof.
  revert tokens a b. induction template as [|t template IH]; intros [|x tokens] a b; try discriminate.
  { intros _. exists 0, 0. cbn. split_and!; try lia; [f_equal; lia|]. split; [constructor|done]. }
  intros [= Hlen]. cbn [count_tokens].
  assert (covers (t :: template) (x :: tokens) <->
          (t = paramStr cfg \/ t = x) /\ covers template tokens) as Hc
    by (unfold covers; by rewrite list.Forall2_cons).
  setoid_rewrite Hc. clear Hc. cbn [length]. rewrite Nat2Z.inj_succ.
  case_decide as Ht; [|case_decide as Hx].
  - destruct (IH tokens a (b + 1) Hlen) as (e & p & -> & ? & ? & ? & H).
    exists e, (p + 1). split_and!; try lia; [f_equal; lia|]. rewrite <- H. split; [|lia].
    intros ?. split; [by left|lia].
  - destruct (IH tokens (a + 1) b Hlen) as (e & p & -> & ? & ? & ? & H).
    exists (e + 1), p. split_and!; try lia; [f_equal; lia|]. rewrite <- H. split; [|lia].
    intros ?. split; [by right|lia].
  - destruct (IH tokens a b Hlen) as (e & p & -> & ? & ? & ? & H).
    exists e, p. split_and!; try lia; [done|]. split; [lia|]. intros [[?|?] _]; done.
Qed.

Lemma distance_ok template tokens b :
  length template = length tokens -> exists sim pc, getSeqDistance cfg template tokens b = Ok (sim, pc).
Proof.
  intros Hlen. unfold getSeqDistance. rewrite Hlen, Nat.eqb_refl. cbn [negb].
  destruct template; [by do 2 eexists|]. destruct (count_tokens _ _ _ _ _). by do 2 eexists.
Qed.

(** With the parameters counted, the similarity reaches one exactly on the
    messages the template covers. *)
Lemma distance_one template tokens :
  length template = length tokens -> Z.of_nat (length tokens) < 2 ^ 53 ->
  exists sim pc, getSeqDistance cfg template tokens true = Ok (sim, pc) /\
    num_is_nan sim = false /\ (num_leb (num_of_Z 1) sim = true <-> covers template tokens).
Proof.
  intros Hlen Hn. unfold getSeqDistance. rewrite Hlen, Nat.eqb_refl. cbn [negb].
  destruct template as [|t template].
  { destruct tokens; [|done]. do 2 eexists. split; [done|]. split; [done|]. split; [constructor|done]. }
  destruct (count_tokens_spec _ _ 0 0 Hlen) as (e & p & -> & He & Hp & Hep & H).
  rewrite !Z.add_0_l. do 2 eexists. split; [done|]. rewrite <- H, <- Hlen. rewrite <- Hlen in Hn. clear H Hlen.
  set (n := Z.of_nat (length (t :: template))) in *. assert (1 <= n) by (unfold n; cbn; lia). clearbody n.
  destruct (decide (e + p = n)) as [E|E].
  - rewrite E, num_div_same by lia. split; [done|]. split; [done|]. by intros _.
  - pose proof (num_div_lt_one (e + p) n ltac:(lia) ltac:(lia)) as Hlt.
    split; [|split; [|done]].
    + apply num_ltb_key in Hlt. apply Hlt.
    + intros Hle. apply num_lt_asym in Hlt. congruence.
Qed.

Lemma createTemplate_covers tokens template :
  length tokens = length template ->
  exists template', createTemplate cfg tokens template = Ok template' /\ covers template' tokens /\
    length template' = length template /\ forall old, covers template old -> covers template' old.
Proof.
  intros Hlen. unfold createTemplate. rewrite Hlen, Nat.eqb_refl. cbn [negb]. eexists. split; [done|].
  revert template Hlen. induction tokens as [|x tokens IH]; intros [|t template] Hlen; try discriminate.
  { cbn. split_and!; [constructor|done|]. auto. }
  injection Hlen as Hlen. destruct (IH _ Hlen) as (H1 & H2 & H3). cbn [zip_with]. split_and!.
  - constructor; [|done]. unfold merge_token. case_decide; auto.
  - cbn. by rewrite H2.
  - intros old Ho. inversion Ho as [|? y ? old' Hy Hold]; subst. constructor; [|by apply H3].
    unfold merge_token. case_decide as Hx; [|by left]. exact Hy.
Qed.

(** ** Matching among candidates *)

Section Candidates.
Context (d : Drain) (ids : list Z) (tokens : list text).
Hypothesis lengths : forall id r c, id ∈ ids -> clusterPeek id d = Some (r, c) ->
  length (logTemplateTokens c) = length tokens.

(** Whatever the threshold, the search answers with a live candidate. *)
Definition from_candidates (best : Best) : Prop :=
  forall id, maxClusterId best = Some id -> id ∈ ids /\ is_Some (clusterPeek id d).

Lemma match_loop_ok sub b best :
  sub ⊆ ids -> from_candidates best ->
  exists best', match_loop cfg d sub tokens b best = Ok best' /\ from_candidates best'.
Proof using lengths.
  revert best. induction sub as [|id sub IH]; intros best Hsub Hb; cbn [match_loop]; [eauto|].
  assert (id ∈ ids) as Hid by (apply Hsub, list_elem_of_here).
  assert (sub ⊆ ids) as Hsub' by (intros x Hx; apply Hsub; by right).
  destruct (clusterPeek id d) as [[r c]|] eqn:E; [|by apply IH].
  destruct (distance_ok (logTemplateTokens c) tokens b) as (sim & pc & ->); [by eapply lengths|].
  cbn [result_bind]. apply IH; [done|]. destruct (_ || _); [|done].
  intros id' [= <-]. rewrite E. eauto.
Qed.

Lemma fastMatch_ok th b :
  exists res, fastMatch cfg d ids tokens th b = Ok res /\
    (forall id, res = Some id -> id ∈ ids /\ is_Some (clusterPeek id d)).
Proof using lengths.
  unfold fastMatch.
  destruct (match_loop_ok ids b {| maxSim := num_of_Z (-1); maxParamCount := -1; maxClusterId := None |})
    as (best & -> & Hb); [done..|]. cbn [result_bind]. eexists. split; [done|].
  destruct (num_geb _ _); [done|]. by intros id ?.
Qed.

(** A full match is a candidate that covers the message. *)
Definition covering (id : Z) : Prop :=
  id ∈ ids /\ exists r c, clusterPeek id d = Some (r, c) /\ covers (logTemplateTokens c) tokens.

Definition full (best : Best) : Prop := num_leb (num_of_Z 1) (maxSim best) = true.

Definition best_ok (best : Best) : Prop :=
  num_is_nan (maxSim best) = false /\
  (full best -> exists id, maxClusterId best = Some id /\ covering id).

Lemma match_loop_full sub best :
  Z.of_nat (length tokens) < 2 ^ 53 -> sub ⊆ ids -> best_ok best ->
  exists best', match_loop cfg d sub tokens true best = Ok best' /\ best_ok best' /\
    (full best -> full best') /\ (forall id, id ∈ sub -> covering id -> full best').
Proof using lengths.
  intros Hn. revert best. induction sub as [|id sub IH]; intros best Hsub Hb; cbn [match_loop].
  { exists best. split_and!; try done. by intros id ?%elem_of_nil. }
  assert (id ∈ ids) as Hid by (apply Hsub, list_elem_of_here).
  assert (sub ⊆ ids) as Hsub' by (intros x Hx; apply Hsub; by right).
  destruct (clusterPeek id d) as [[r c]|] eqn:E.
  2:{ destruct (IH best Hsub' Hb) as (best' & -> & Hb' & Hf & Hcov). exists best'. split_and!; try done.
      intros id' [->|Hin]%elem_of_cons Hc; [|eauto]. destruct Hc as (_ & r & c & E' & _). congruence. }
  destruct (distance_one (logTemplateTokens c) tokens) as (sim & pc & -> & Hnan & Hone);
    [by eapply lengths|done|]. cbn [result_bind]. destruct Hb as [Hbn Hbf].
  set (better := num_gtb sim (maxSim best) || (num_eqb sim (maxSim best) && (maxParamCount best <? pc))).
  set (best1 := if better then _ else best).
  assert (num_leb (maxSim best) (maxSim best1) = true /\ num_leb sim (maxSim best1) = true) as [Hold Hnew].
  { unfold best1. destruct better eqn:Eb; cbn [maxSim].
    - split; [|by apply num_le_refl]. unfold better in Eb. apply orb_true_iff in Eb as [Eb|Eb].
      + by apply num_lt_le.
      + apply andb_true_iff in Eb as [Eb _]. unfold num_eqb, SFeqb in Eb. unfold num_leb, SFleb.
        rewrite SFcompare_swap. by destruct (SFcompare sim (maxSim best)) as [[]|].
    - split; [by apply num_le_refl|]. unfold better in Eb. apply orb_false_iff in Eb as [Eb _].
      unfold num_gtb in Eb. by apply num_not_lt. }
  assert (best_ok best1) as Hb1.
  { unfold best1. destruct better; [|done]. split; [done|]. cbn [maxClusterId]. unfold full. cbn [maxSim].
    intros Hf. exists id. split; [done|]. split; [done|]. exists r, c. split; [done|]. by apply Hone. }
  destruct (IH best1 Hsub' Hb1) as (best' & -> & Hb' & Hf & Hcov). exists best'. split_and!; try done.
  - intros Hfull. apply Hf. unfold full in *. by eapply num_le_trans.
  - intros id' [->|Hin]%elem_of_cons Hc; [|eauto]. destruct Hc as (_ & r' & c' & E' & Hc).
    rewrite E in E'. injection E' as <- <-. apply Hf. unfold full. eapply num_le_trans; [|exact Hnew]. by apply Hone.
Qed.

Lemma fastMatch_full :
  Z.of_nat (length tokens) < 2 ^ 53 ->
  exists res, fastMatch cfg d ids tokens (num_of_Z 1) true = Ok res /\
    (forall id, res = Some id -> covering id) /\ (forall id, covering id -> is_Some res).
Proof using lengths.
  intros Hn. unfold fastMatch.
  destruct (match_loop_full ids {| maxSim := num_of_Z (-1); maxParamCount := -1; maxClusterId := None |})
    as (best & -> & [Hbn Hbf] & _ & Hcov); [done..|by split|].
  cbn [result_bind]. eexists. split; [done|].
  change (num_geb (maxSim best) (num_of_Z 1)) with (num_leb (num_of_Z 1) (maxSim best)).
  split.
  - intros id Hres. destruct (num_leb _ _) eqn:E; [|done].
    destruct (Hbf E) as (id' & E' & Hc). rewrite E' in Hres. by injection Hres as <-.
  - intros id Hc. pose proof (Hcov id (proj1 Hc) Hc) as Hf. unfold full in Hf. rewrite Hf.
    destruct (Hbf Hf) as (id' & -> & _). eauto.
Qed.
End Candidates.

(** ** The invariant *)

Record Inv (d : Drain) : Prop := {
  inv_store : exists m, store_ok (store d) m /\
    forall id r, map_get id m = Some r -> 1 <= id <= clustersCounter d /\ r = Z.to_nat (id - 1);
  inv_heap : Z.of_nat (length (heap d)) = clustersCounter d;
  inv_ids : forall r c, heap d !! r = Some c -> clusterId c = Z.of_nat r + 1;
  inv_tree : forall key child id, map_get key (keyToChildNode (rootNode d)) = Some child ->
    id ∈ collectRecursive child ->
    exists c, heap d !! Z.to_nat (id - 1) = Some c /\ 1 <= id /\ key = count_key (logTemplateTokens c);
  (* the branch of the empty message holds one cluster *)
  inv_empty : forall child, map_get (count_key []) (keyToChildNode (rootNode d)) = Some child ->
    exists id, child = mk_node [] [id] }.

Lemma peek_heap d id r c : Inv d -> clusterPeek id d = Some (r, c) ->
  1 <= id <= clustersCounter d /\ r = Z.to_nat (id - 1) /\ heap d !! r = Some c /\ clusterId c = id.
Proof.
  intros Hd. destruct (inv_store _ Hd) as (m & Hm & Hrefs). unfold clusterPeek.
  rewrite (store_peek_ok _ _ Hm). destruct (map_get id m) as [r'|] eqn:E; [|done].
  destruct (Hrefs _ _ E) as [Hid ->]. destruct (heap d !! _) as [c'|] eqn:Ec; [|done].
  intros [= <- <-]. split_and!; try done; try lia. rewrite (inv_ids _ Hd _ _ Ec). lia.
Qed.

Definition filed (d : Drain) (tokens : list text) (id : Z) : Prop :=
  id ∈ getClustersIdsForSeqLen d tokens.

Lemma filed_length d tokens id r c : Inv d -> filed d tokens id -> clusterPeek id d = Some (r, c) ->
  length (logTemplateTokens c) = length tokens.
Proof.
  intros Hd Hf Hp. destruct (peek_heap _ _ _ _ Hd Hp) as (_ & -> & Hc & _).
  unfold filed, getClustersIdsForSeqLen in Hf.
  destruct (map_get _ _) as [child|] eqn:E; [|by apply elem_of_nil in Hf].
  destruct (inv_tree _ Hd _ _ _ E Hf) as (c' & Hc' & _ & Hk). rewrite Hc in Hc'. injection Hc' as <-.
  symmetry. by apply count_key_inj.
Qed.

Lemma search_walk_ids n tokens node depth leaf id :
  search_walk cfg n tokens node depth = Some leaf -> id ∈ clusterIds leaf -> id ∈ collectRecursive node.
Proof.
  revert node depth. induction tokens as [|t tokens IH]; intros node depth; cbn [search_walk].
  { intros [= ->] Hid. apply elem_of_collect. by left. }
  assert (Some node = Some leaf -> id ∈ clusterIds leaf -> id ∈ collectRecursive node) as Hhere.
  { intros [= ->] Hid. apply elem_of_collect. by left. }
  case_match; [done|]. case_match; [done|].
  destruct (map_get t _) as [child|] eqn:E.
  { intros Hw Hid. eapply collect_child; [exact E|]. by eapply IH. }
  destruct (map_get (paramStr cfg) _) as [child|] eqn:E'; [|done].
  intros Hw Hid. eapply collect_child; [exact E'|]. by eapply IH.
Qed.

Lemma walk_filed d tokens first leaf id depth n :
  map_get (count_key tokens) (keyToChildNode (rootNode d)) = Some first ->
  search_walk cfg n tokens first depth = Some leaf -> id ∈ clusterIds leaf -> filed d tokens id.
Proof.
  intros E Hw Hid. unfold filed, getClustersIdsForSeqLen. rewrite E. by eapply search_walk_ids.
Qed.

Lemma treeSearch_ok d tokens th b : Inv d ->
  exists res, treeSearch cfg d tokens th b = Ok res /\ forall id, res = Some id -> filed d tokens id.
Proof.
  intros Hd. unfold treeSearch.
  destruct (map_get _ _) as [first|] eqn:E; [|by exists None]. destruct tokens as [|t tokens].
  - eexists. split; [done|]. intros id Hid. unfold filed, getClustersIdsForSeqLen. rewrite E.
    apply elem_of_collect. left. destruct (clusterIds first); [done|].
    injection Hid as ->. apply list_elem_of_here.
  - destruct (search_walk _ _ _ _ _) as [leaf|] eqn:Ew; [|by exists None].
    assert (forall id, id ∈ clusterIds leaf -> filed d (t :: tokens) id) as Hf
      by (intros id; by eapply walk_filed).
    destruct (fastMatch_ok d (clusterIds leaf) (t :: tokens)) with (th := th) (b := b) as (res & -> & Hres).
    { intros id r c Hid Hp. eapply filed_length; eauto. }
    eexists. split; [done|]. intros id Hid. apply Hf. by apply Hres.
Qed.

(** Some live cluster of the right branch covers the message. *)
Definition known (d : Drain) (tokens : list text) : Prop :=
  exists id, covering d (getClustersIdsForSeqLen d tokens) tokens id.

(** One call of [addLogMessage]: clusters keep their ids and lengths and cover
    what they covered; with the unbounded store nothing known is forgotten. *)
Record grows (d d' : Drain) : Prop := {
  grows_heap : forall r c, heap d !! r = Some c -> exists c', heap d' !! r = Some c' /\
    clusterId c' = clusterId c /\ length (logTemplateTokens c') = length (logTemplateTokens c) /\
    (forall x, covers (logTemplateTokens c) x -> covers (logTemplateTokens c') x);
  grows_map : is_map (store d) <-> is_map (store d');
  grows_live : is_map (store d) -> forall id, is_Some (clusterPeek id d) -> is_Some (clusterPeek id d');
  grows_filed : forall tokens id, filed d tokens id -> is_Some (clusterPeek id d') -> filed d' tokens id }.

Lemma grows_known d d' tokens : Inv d -> Inv d' -> grows d d' -> is_map (store d) -> known d tokens -> known d' tokens.
Proof.
  intros Hd Hd' G Hmap (id & Hf & r & c & Hp & Hc).
  destruct (grows_live _ _ G Hmap id) as [[r' c'] Hp']; [by rewrite Hp|].
  exists id. split; [apply (grows_filed _ _ G); [done|by rewrite Hp']|]. exists r', c'. split; [done|].
  destruct (peek_heap _ _ _ _ Hd Hp) as (_ & -> & Hh & _).
  destruct (peek_heap _ _ _ _ Hd' Hp') as (_ & -> & Hh' & _).
  destruct (grows_heap _ _ G _ _ Hh) as (c2 & Hc2 & _ & _ & Hcov). rewrite Hh' in Hc2. injection Hc2 as <-.
  by apply Hcov.
Qed.

Lemma count_key_length a b : length a = length b -> count_key a = count_key b.
Proof. unfold count_key. by intros ->. Qed.

(** Growing an existing cluster. *)
Lemma grow_ok d tokens id r c :
  Inv d -> filed d tokens id -> clusterPeek id d = Some (r, c) ->
  exists template' s,
    createTemplate cfg tokens (logTemplateTokens c) = Ok template' /\ covers template' tokens /\
    store_get (clusterId c) (store d) = Ok (s, Some r) /\
    let c' := {| logTemplateTokens := template'; clusterId := clusterId c; cluster_size := cluster_size c + 1 |} in
    let d' := with_store s (with_heap (<[r := c']> (heap d)) d) in
    Inv d' /\ grows d d' /\ clusterPeek id d' = Some (r, c') /\ filed d' tokens id.
Proof.
  intros Hd Hf Hp. pose proof (filed_length _ _ _ _ _ Hd Hf Hp) as Hlen.
  destruct (peek_heap _ _ _ _ Hd Hp) as (Hid & Hr & Hh & Hcid).
  destruct (createTemplate_covers tokens (logTemplateTokens c) (eq_sym Hlen)) as (tpl & Et & Hcov & Hl & Hold).
  destruct (inv_store _ Hd) as (m & Hm & Hrefs).
  destruct (store_get_ok _ _ Hm (clusterId c)) as (s & m' & Es & Hm' & Hsame & Hmap).
  assert (map_get id m = Some r) as Hget.
  { unfold clusterPeek in Hp. rewrite (store_peek_ok _ _ Hm) in Hp. destruct (map_get id m) as [r'|]; [|done].
    by destruct (heap d !! r'); [injection Hp as <- _|]. }
  exists tpl, s. rewrite Es, Hcid, Hget. split_and!; [done..|]. intros c' d'.
  assert (heap d' = <[r := c']> (heap d)) as Eh by done.
  assert (forall r0, heap d' !! r0 = if decide (r = r0) then Some c' else heap d !! r0) as Hlook.
  { intros r0. rewrite Eh. case_decide as E; [subst r0; apply list_lookup_insert_eq; by eapply lookup_lt_Some|].
    by apply list_lookup_insert_ne. }
  assert (forall id0, is_Some (clusterPeek id0 d) -> is_Some (clusterPeek id0 d')) as Hlive.
  { intros id0. unfold clusterPeek. rewrite (store_peek_ok _ _ Hm'), (store_peek_ok _ _ Hm), Hsame.
    destruct (map_get id0 m) as [r0|]; [|done]. rewrite Hlook. case_decide; [by intros _|done]. }
  assert (grows d d') as G.
  { split; [| |by intros _|].
    - intros r0 c0 Hc0. rewrite Hlook. case_decide as E; [|by exists c0].
      subst r0. rewrite Hh in Hc0. injection Hc0 as <-. exists c'. by rewrite <- Hl.
    - done.
    - intros tokens' id' Hf' _. exact Hf'. }
  split_and!; [|exact G| |exact Hf].
  - split.
    + exists m'. split; [done|]. intros id0 r0. rewrite Hsame. apply Hrefs.
    + rewrite Eh, length_insert. apply (inv_heap _ Hd).
    + intros r0 c0. rewrite Hlook. case_decide as E; [|apply (inv_ids _ Hd)].
      intros [= <-]. cbn [clusterId c']. subst r0. rewrite <- Hcid. by apply (inv_ids _ Hd).
    + intros key child id0 Hk Hid0. destruct (inv_tree _ Hd key child id0 Hk Hid0) as (c0 & Hc0 & ? & ->).
      destruct (grows_heap _ _ G _ _ Hc0) as (c1 & Hc1 & _ & Hl1 & _). exists c1. split_and!; try done.
      by apply count_key_length.
    + apply (inv_empty _ Hd).
  - unfold clusterPeek. rewrite (store_peek_ok _ _ Hm'), Hsame, Hget, Hlook. by rewrite decide_True.
Qed.

(** ** Filing a new cluster *)

Lemma collect_add_walk id0 s n id tokens depth node :
  id0 ∈ collectRecursive (add_walk cfg s n id tokens depth node) -> id0 = id \/ id0 ∈ collectRecursive node.
Proof.
  revert depth node. induction tokens as [|t tokens IH]; intros depth node; cbn [add_walk]; [by right|].
  case_match.
  - rewrite !elem_of_collect. cbn [clusterIds keyToChildNode].
    intros [[Hin| ->%list_elem_of_singleton]%elem_of_app|Hk]; [right; left|by left|by right; right].
    apply list_elem_of_In, List.filter_In in Hin as [Hin _]. by apply list_elem_of_In.
  - destruct (decide (id0 = id)) as [?|Hne]; [by left|]. intros Hin. right. revert Hin.
    apply collect_at_child. intros c Hin. apply IH in Hin. tauto.
Qed.

Lemma collect_add_walk_keep id0 s n id tokens depth node :
  store_has id0 s = true -> id0 ∈ collectRecursive node ->
  id0 ∈ collectRecursive (add_walk cfg s n id tokens depth node).
Proof.
  intros Hs. revert depth node. induction tokens as [|t tokens IH]; intros depth node; cbn [add_walk]; [done|].
  case_match; [|by apply collect_at_child_keep; intros c; apply IH].
  rewrite !elem_of_collect. cbn [clusterIds keyToChildNode].
  intros [Hin|Hk]; [left|by right]. apply elem_of_app. left.
  apply list_elem_of_In, List.filter_In. split; [by apply list_elem_of_In|done].
Qed.

Lemma collect_add_walk_new s n id tokens depth node :
  tokens <> [] -> n <= depth + Z.of_nat (length tokens) - 1 ->
  id ∈ collectRecursive (add_walk cfg s n id tokens depth node).
Proof.
  revert depth node. induction tokens as [|t tokens IH]; intros depth node Hne Hn; [done|].
  cbn [add_walk length] in *. destruct (_ || _) eqn:E.
  - apply elem_of_collect. left. cbn [clusterIds]. apply elem_of_app. right. apply list_elem_of_here.
  - apply orb_false_iff in E as [_ E]. apply Z.leb_gt in E.
    apply collect_at_child_new. intros c. apply IH; [|lia]. intros ->. cbn in Hn. lia.
Qed.

Lemma map_get_at_child key f n k :
  map_get k (keyToChildNode (at_child key f n)) =
  if decide (key = k) then Some (f (default new_node (map_get key (keyToChildNode n))))
  else map_get k (keyToChildNode n).
Proof. unfold at_child. cbn [keyToChildNode]. apply map_get_set. Qed.

(** The state after a new cluster of [tokens] has been stored, when the store
    became [s]. *)
Definition filed_state (d : Drain) (s : Store) (tokens : list text) : Drain :=
  let id := clustersCounter d + 1 in
  let d' := {| rootNode := rootNode d; store := s; clustersCounter := id;
               heap := heap d ++ [new_cluster tokens id] |} in
  with_root (addSeqToPrefixTree cfg d' id tokens) d'.

(** Which ids the branch of [tokens] holds afterwards. *)
Lemma filed_child d s tokens child id0 :
  map_get (count_key tokens) (keyToChildNode (rootNode (filed_state d s tokens))) = Some child ->
  id0 ∈ collectRecursive child ->
  id0 = clustersCounter d + 1 \/
  exists old, map_get (count_key tokens) (keyToChildNode (rootNode d)) = Some old /\ id0 ∈ collectRecursive old.
Proof.
  unfold filed_state, addSeqToPrefixTree. cbn [rootNode with_root store].
  rewrite map_get_at_child, decide_True by done. intros [= <-].
  set (old := map_get _ _). destruct (decide (id0 = clustersCounter d + 1)) as [?|Hne]; [by left|].
  intros Hin. right. assert (id0 ∈ collectRecursive (default new_node old)) as Hold.
  { destruct tokens as [|t tokens].
    - apply elem_of_collect in Hin. cbn [clusterIds keyToChildNode] in Hin. apply elem_of_collect.
      destruct Hin as [->%list_elem_of_singleton|Hin]; [done|by right].
    - apply collect_add_walk in Hin. by destruct Hin. }
  destruct old as [old|]; [by exists old|]. by apply collect_new in Hold.
Qed.

Lemma filed_new d s tokens : filed (filed_state d s tokens) tokens (clustersCounter d + 1).
Proof.
  unfold filed, getClustersIdsForSeqLen, filed_state, addSeqToPrefixTree. cbn [rootNode with_root store].
  rewrite map_get_at_child, decide_True by done. destruct tokens as [|t tokens].
  - apply elem_of_collect. left. apply list_elem_of_here.
  - apply collect_add_walk_new; [done|]. cbn. lia.
Qed.

Lemma filed_keep d s tokens tokens' id0 :
  (tokens = [] -> ~ filed d [] id0) -> store_has id0 s = true ->
  filed d tokens' id0 -> filed (filed_state d s tokens) tokens' id0.
Proof.
  unfold filed, getClustersIdsForSeqLen, filed_state, addSeqToPrefixTree. intros Hempty Hs.
  cbn [rootNode with_root store]. rewrite map_get_at_child. case_decide as Hk; [|done].
  rewrite <- Hk. destruct (map_get (count_key tokens) _) as [old|] eqn:E; [|by intros ?%elem_of_nil].
  cbn [default]. destruct tokens as [|t tokens].
  - intros Hin. destruct (Hempty eq_refl). by rewrite E.
  - by apply collect_add_walk_keep.
Qed.

Lemma file_ok d tokens :
  Inv d -> (tokens = [] -> forall id0, filed d [] id0 -> clusterPeek id0 d = None) ->
  exists s, store_insert (clustersCounter d + 1) (length (heap d)) (store d) = Ok s /\
    Inv (filed_state d s tokens) /\ grows d (filed_state d s tokens) /\
    clusterPeek (clustersCounter d + 1) (filed_state d s tokens) =
      Some (length (heap d), new_cluster tokens (clustersCounter d + 1)).
Proof.
  intros Hd Hempty. destruct (inv_store _ Hd) as (m & Hm & Hrefs).
  pose proof (inv_heap _ Hd) as Hlen. set (id := clustersCounter d + 1).
  assert (map_get id m = None) as Hfresh.
  { destruct (map_get id m) eqn:E; [|done]. destruct (Hrefs _ _ E). unfold id in *. lia. }
  destruct (store_insert_ok _ _ Hm id (length (heap d)) Hfresh)
    as (s & m' & Es & Hm' & Hnew & Hsub & Hkeep & Hmap).
  exists s. split; [done|]. set (d' := filed_state d s tokens).
  assert (forall r c, heap d !! r = Some c -> heap d' !! r = Some c) as Hheap.
  { intros r c. apply lookup_app_l_Some. }
  assert (forall id0, is_Some (clusterPeek id0 d') -> id0 = id \/ is_Some (clusterPeek id0 d)) as Hback.
  { intros id0. unfold clusterPeek. change (store d') with s.
    rewrite (store_peek_ok _ _ Hm'), (store_peek_ok _ _ Hm).
    destruct (decide (id0 = id)) as [?|Hne]; [by left|]. destruct (map_get id0 m') as [r0|] eqn:E; [|by intros []].
    intros _. right. pose proof (Hsub _ _ Hne E) as E'. rewrite E'. destruct (Hrefs _ _ E') as [Hb ->].
    destruct (lookup_lt_is_Some_2 (heap d) (Z.to_nat (id0 - 1))) as [c ->]; [lia|]. by eexists. }
  split_and!.
  - split.
    + exists m'. split; [done|]. change (clustersCounter d') with id. intros id0 r0 Hid0.
      destruct (decide (id0 = id)) as [->|Hne].
      * rewrite Hnew in Hid0. injection Hid0 as <-. unfold id. lia.
      * destruct (Hrefs _ _ (Hsub _ _ Hne Hid0)) as [? ->]. unfold id. lia.
    + change (heap d') with (heap d ++ [new_cluster tokens id]). rewrite length_app. cbn. unfold id. lia.
    + intros r c. change (heap d') with (heap d ++ [new_cluster tokens id]).
      intros [Hc|[Hge Hc]]%lookup_app_Some; [by apply (inv_ids _ Hd)|].
      apply list_lookup_singleton_Some in Hc as [Hr <-]. cbn. unfold id. lia.
    + intros key child id0 Hk Hid0.
      assert (forall old, map_get key (keyToChildNode (rootNode d)) = Some old -> id0 ∈ collectRecursive old ->
        exists c, heap d' !! Z.to_nat (id0 - 1) = Some c /\ 1 <= id0 /\ key = count_key (logTemplateTokens c)) as Hold.
      { intros old Ho Hin. destruct (inv_tree _ Hd _ _ _ Ho Hin) as (c & Hc & ? & ?). exists c. auto. }
      destruct (decide (key = count_key tokens)) as [->|Hne].
      * destruct (filed_child _ _ _ _ _ Hk Hid0) as [->|(old & Ho & Hin)]; [|eauto].
        exists (new_cluster tokens id). split_and!; [|lia|done].
        change (heap d') with (heap d ++ [new_cluster tokens id]).
        rewrite lookup_app_r by lia. by replace (_ - _)%nat with 0%nat by lia.
      * unfold d', filed_state, addSeqToPrefixTree in Hk. cbn [rootNode with_root] in Hk.
        rewrite map_get_at_child, decide_False in Hk by congruence. eauto.
    + intros child. unfold d', filed_state, addSeqToPrefixTree. cbn [rootNode with_root].
      rewrite map_get_at_child. case_decide as Hk; [|apply (inv_empty _ Hd)]. intros [= <-].
      apply count_key_inj in Hk. destruct tokens; [|done]. exists id. f_equal.
      destruct (map_get (count_key []) _) as [child|] eqn:E; [|done].
      by destruct (inv_empty _ Hd _ E) as [? ->].
  - split.
    + intros r c Hc. exists c. split; [by apply Hheap|]. by split_and!.
    + done.
    + intros Hismap id0. unfold clusterPeek. change (store d') with s.
      rewrite (store_peek_ok _ _ Hm'), (store_peek_ok _ _ Hm).
      destruct (decide (id0 = id)) as [->|Hne]; [by rewrite Hfresh; intros []|].
      rewrite (Hkeep Hismap _ Hne). destruct (map_get id0 m) as [r0|]; [|done].
      destruct (heap d !! r0) as [c0|] eqn:E; [|by intros []]. by rewrite (Hheap _ _ E).
    + intros tokens' id0 Hf Hlive. apply filed_keep; [| |done].
      * intros -> Hf0. pose proof (Hempty eq_refl _ Hf0) as Hdead.
        destruct (Hback _ Hlive) as [->|[? ?]]; [|congruence].
        unfold filed, getClustersIdsForSeqLen in Hf0.
        destruct (map_get (count_key []) (keyToChildNode (rootNode d))) as [old|] eqn:E; [|by apply elem_of_nil in Hf0].
        destruct (inv_tree _ Hd _ _ _ E Hf0) as (c & Hc%lookup_lt_Some & _). unfold id in *. lia.
      * rewrite (store_has_ok _ _ Hm'). unfold map_has. apply bool_decide_eq_true.
        destruct Hlive as [[r0 c0] Hlive]. unfold clusterPeek in Hlive. change (store d') with s in Hlive.
        rewrite (store_peek_ok _ _ Hm') in Hlive. destruct (map_get id0 m'); [by eexists|done].
  - unfold clusterPeek. change (store d') with s. rewrite (store_peek_ok _ _ Hm'), Hnew.
    change (heap d') with (heap d ++ [new_cluster tokens id]). by rewrite lookup_app_r, Nat.sub_diag by lia.
Qed.

End Miner.
