(* ===== verification/DrainLearn.v ===== *)
(** * What the log miner learns

    Sequences of [addLogMessage] calls from a fresh miner: no call throws, every
    message is covered by the template of its cluster, full search finds a
    cluster exactly when one covers the message, and the sizes count the
    messages. *)

From Stdlib Require Import Ascii String.
From stdpp Require Import prelude gmap list.
From Stdlib Require Import ZArith Lia.
From S2P Require Import Prelude.
From S2P Require Import JsNum.
From S2P Require Import IngestSha256.
From S2P Require Import IngestRegex.
From S2P Require Import JsUnits.
From S2P Require Import LruCache.
From S2P Require Import Drain.
From S2P Require Import DrainInvariant.

Open Scope Z_scope.
Local Open Scope maple_scope.

(** The messages of a sequence of calls, in order. *)
Fixpoint learn_all (cfg : Config) (messages : list text) (d : Drain) :
    result drain_error (Drain * list (ref * update_type)) :=
  match messages with
  | [] => Ok (d, [])
  | m :: messages' =>
      let! (d, a) := addLogMessage cfg m d in
      let! (d, rest) := learn_all cfg messages' d in
      Ok (d, a :: rest)
  end.

Section Learning.
Context (cfg : Config).
Local Notation tokens_of := (getContentAsTokens cfg).
Local Notation covers := (covers cfg).

(** The two outcomes of a call. *)
Inductive learned (d : Drain) (tokens : list text) : Drain -> ref -> update_type -> Prop :=
  | learned_grow id r c template s u :
      filed d tokens id -> clusterPeek id d = Some (r, c) ->
      createTemplate cfg tokens (logTemplateTokens c) = Ok template ->
      store_get (clusterId c) (store d) = Ok (s, Some r) -> u <> cluster_created ->
      learned d tokens
        (with_store s (with_heap (<[r := {| logTemplateTokens := template; clusterId := clusterId c;
                                            cluster_size := cluster_size c + 1 |}]> (heap d)) d)) r u
  | learned_new s :
      store_insert (clustersCounter d + 1) (length (heap d)) (store d) = Ok s ->
      (tokens = [] -> forall id, filed d [] id -> clusterPeek id d = None) ->
      learned d tokens (filed_state cfg d s tokens) (length (heap d)) cluster_created.

Lemma add_learned d content : Inv d ->
  exists d' r u, addLogMessage cfg content d = Ok (d', (r, u)) /\ learned d (tokens_of content) d' r u.
Proof.
  intros Hd. unfold addLogMessage. set (tokens := tokens_of content).
  destruct (treeSearch_ok cfg d tokens (simTh cfg) false Hd) as (res & Eres & Hres).
  rewrite Eres. cbn [result_bind]. destruct (match res with None => None | Some id => _ end) as [[r c]|] eqn:Ep.
  - destruct res as [id|]; [|done]. specialize (Hres _ eq_refl).
    destruct (grow_ok cfg d tokens id r c Hd Hres Ep) as (template & s & Et & _ & Es & _).
    rewrite Et. cbn [result_bind store with_heap]. rewrite Es. cbn [result_bind].
    do 3 eexists. split; [done|]. eapply learned_grow; try done. by case_decide.
  - assert (tokens = [] -> forall id, filed d [] id -> clusterPeek id d = None) as Hempty.
    { intros Ht id Hid. rewrite Ht in Eres. unfold filed, getClustersIdsForSeqLen in Hid.
      unfold treeSearch in Eres.
      destruct (map_get (count_key []) (keyToChildNode (rootNode d))) as [child|] eqn:E; [|by apply elem_of_nil in Hid].
      destruct (inv_empty _ Hd _ E) as [id' ->]. cbn in Hid, Eres. injection Eres as <-.
      apply list_elem_of_singleton in Hid as ->. done. }
    destruct (file_ok cfg d tokens Hd Hempty) as (s & Es & _). rewrite Es. cbn [result_bind].
    do 3 eexists. split; [done|]. by apply learned_new.
Qed.

(** A call keeps the invariant and leaves its message covered, by the cluster it
    returns. *)
Lemma learned_ok d tokens d' r u : Inv d -> learned d tokens d' r u ->
  Inv d' /\ grows cfg d d' /\ known cfg d' tokens /\
  exists c, heap d' !! r = Some c /\ covers (logTemplateTokens c) tokens.
Proof.
  intros Hd Hl. destruct Hl as [id r c template s u Hf Hp Et Es _|s Es Hempty].
  - destruct (grow_ok cfg d tokens id r c Hd Hf Hp) as (template' & s' & Et' & Hcov & Es' & Hd' & G & Hp' & Hf').
    rewrite Et in Et'. injection Et' as <-. rewrite Es in Es'. injection Es' as <-.
    split_and!; [done..| |].
    + exists id. split; [done|]. by do 2 eexists.
    + eexists. split; [by eapply peek_heap|done].
  - destruct (file_ok cfg d tokens Hd Hempty) as (s' & Es' & Hd' & G & Hp').
    rewrite Es in Es'. injection Es' as <-. split_and!; [done..| |].
    + exists (clustersCounter d + 1). split; [apply filed_new|]. do 2 eexists. split; [done|]. apply covers_self.
    + eexists. split; [by eapply peek_heap|]. apply covers_self.
Qed.

Lemma Inv_new depth simTh maxChildren maxClusters delimiters p numeric cfg' d :
  new_drain depth simTh maxChildren maxClusters delimiters p numeric = Ok (cfg', d) -> Inv d.
Proof.
  unfold new_drain. case_match; [done|]. intros [= <- <-]. split; cbn; try done.
  exists []. split; [destruct maxClusters; [apply Repr_new|done]|done].
Qed.

(** ** Search is exact *)

Lemma covers_nil : covers [] [].
Proof. constructor. Qed.

Lemma treeSearch_full d tokens : Inv d -> Z.of_nat (length tokens) < 2 ^ 53 ->
  exists res, treeSearch cfg d tokens (num_of_Z 1) true = Ok res /\
    forall id, res = Some id ->
      (forall r c, clusterPeek id d = Some (r, c) -> covers (logTemplateTokens c) tokens) /\
      (known cfg d tokens -> is_Some (clusterPeek id d)).
Proof.
  intros Hd Hn. destruct (treeSearch_ok cfg d tokens (num_of_Z 1) true Hd) as (res & Eres & Hres).
  exists res. split; [done|]. intros id ->. specialize (Hres _ eq_refl). unfold treeSearch in Eres.
  destruct (map_get (count_key tokens) (keyToChildNode (rootNode d))) as [first|] eqn:E; [|done].
  destruct tokens as [|t tokens].
  - destruct (inv_empty _ Hd _ E) as [id' ->]. cbn in Eres. injection Eres as ->. split.
    + intros r c Hp. pose proof (filed_length d _ _ _ _ Hd Hres Hp) as Hl.
      apply nil_length_inv in Hl as ->. apply covers_nil.
    + intros (id0 & Hf & r & c & Hp & _). unfold getClustersIdsForSeqLen in Hf. rewrite E in Hf.
      apply list_elem_of_singleton in Hf as ->. by rewrite Hp.
  - destruct (search_walk _ _ _ _ _) as [leaf|] eqn:Ew; [|done].
    destruct (fastMatch_full cfg d (clusterIds leaf) (t :: tokens)) as (res & E' & Hcov & _); [|done|].
    { intros id0 r c Hid Hp. eapply (filed_length d); [done| |exact Hp]. by eapply walk_filed. }
    rewrite E' in Eres. injection Eres as ->. destruct (Hcov _ eq_refl) as (_ & r & c & Hp & Hc).
    rewrite Hp. split; [|by eexists]. by intros ? ? [= <- <-].
Qed.

(** An answer always covers the message; unless the strategy is [Never], there
    is one whenever a cluster of the branch covers it. *)
Lemma match_exact d content strategy :
  Inv d -> Z.of_nat (length (tokens_of content)) < 2 ^ 53 ->
  exists res, match_cluster cfg d content strategy = Ok res /\
    (forall r c, res = Some (r, c) -> covers (logTemplateTokens c) (tokens_of content)) /\
    (strategy <> Never -> known cfg d (tokens_of content) -> is_Some res).
Proof.
  intros Hd Hn. unfold match_cluster. set (tokens := tokens_of content) in *.
  destruct (fastMatch_full cfg d (getClustersIdsForSeqLen d tokens) tokens) as (full & -> & Hfull & Hsome);
    [intros id r c; by apply filed_length|done|].
  destruct (treeSearch_full d tokens Hd Hn) as (tree & -> & Htree). cbn [result_bind].
  assert (exists res, (match full with None => None | Some id => clusterPeek id d end) = res /\
    (forall r c, res = Some (r, c) -> covers (logTemplateTokens c) tokens) /\
    (known cfg d tokens -> is_Some res)) as (res & -> & Hres).
  { eexists. split; [done|]. destruct full as [id|].
    - destruct (Hfull _ eq_refl) as (_ & r & c & Hp & Hc). rewrite Hp. split; [by intros ? ? [= <- <-]|by eexists].
    - split; [done|]. intros [id Hid]. by destruct (Hsome id Hid). }
  destruct strategy; [exists res; naive_solver|destruct tree as [id|]..].
  - eexists. split; [done|]. destruct (Htree _ eq_refl) as [H1 H2]. split; [apply H1|done].
  - eexists. split; [done|]. by split.
  - eexists. split; [done|]. destruct (Htree _ eq_refl) as [H1 H2]. split; [apply H1|by intros _].
  - exists res. naive_solver.
Qed.

(** ** Sequences of calls *)

Lemma learn_all_ok messages : forall d, Inv d ->
  exists d' answers, learn_all cfg messages d = Ok (d', answers) /\ Inv d' /\
    length answers = length messages /\ (is_map (store d) -> is_map (store d') /\
      (forall tokens, known cfg d tokens -> known cfg d' tokens) /\
      (forall m, m ∈ messages -> known cfg d' (tokens_of m))).
Proof.
  induction messages as [|m messages IH]; intros d Hd; cbn [learn_all].
  { exists d, []. split_and!; try done. intros Hm. split_and!; try done. by intros ? ?%elem_of_nil. }
  destruct (add_learned d m Hd) as (d1 & r & u & -> & Hl). cbn [result_bind].
  destruct (learned_ok _ _ _ _ _ Hd Hl) as (Hd1 & G & Hk & _).
  destruct (IH d1 Hd1) as (d' & answers & -> & Hd' & Hlen & Hmap). cbn [result_bind].
  exists d', ((r, u) :: answers). split_and!; try done; [cbn; by rewrite Hlen|].
  intros Hm. destruct (Hmap (proj1 (grows_map _ _ _ G) Hm)) as (Hm' & Hold & Hnew). split; [done|].
  split; [intros tokens Ht; by apply Hold, (grows_known cfg d d1)|].
  intros m' [->|Hin]%elem_of_cons; auto.
Qed.

End Learning.

(** C23: with the unbounded store the log miner never forgets. Whatever the
    depth, threshold, fan-out and delimiters, a sequence of messages is learned
    without an exception; afterwards every message of the sequence is matched by
    a full search or by a tree search that falls back to one, and the template of
    the cluster that answers covers the message token by token. The similarity
    is a binary64 quotient compared with one, and is one exactly for covering
    templates. *)
Theorem learned_messages_match depth th maxChildren delimiters p numeric cfg d0 messages strategy :
  new_drain depth th maxChildren None delimiters p numeric = Ok (cfg, d0) ->
  (forall m, m ∈ messages -> Z.of_nat (length (getContentAsTokens cfg m)) < 2 ^ 53) ->
  strategy <> Never ->
  exists d answers, learn_all cfg messages d0 = Ok (d, answers) /\
    forall m, m ∈ messages -> exists r c, match_cluster cfg d m strategy = Ok (Some (r, c)) /\
      covers cfg (logTemplateTokens c) (getContentAsTokens cfg m).
Proof.
  intros Hnew Hn Hst. pose proof (Inv_new _ _ _ _ _ _ _ _ _ Hnew) as Hd0.
  destruct (learn_all_ok cfg messages d0 Hd0) as (d & answers & E & Hd & _ & Hmap).
  exists d, answers. split; [done|]. intros m Hm.
  destruct Hmap as (_ & _ & Hknown).
  { unfold new_drain in Hnew. case_match; [done|]. by injection Hnew as _ <-. }
  destruct (match_exact cfg d m strategy Hd (Hn _ Hm)) as (res & Em & Hc & Hs).
  destruct (Hs Hst (Hknown _ Hm)) as [[r c] ->]. eauto.
Qed.

Lemma learned_messages_match_witness :
  let cfg := {| maxNodeDepth := 2; simTh := num_div (num_of_Z 4) (num_of_Z 10); maxChildren := 100;
                extraDelimiters := []; paramStr := lit "<*>"; parametrizeNumericTokens := true |} in
  let d0 := {| rootNode := new_node; store := MapStore []; clustersCounter := 0; heap := [] |} in
  exists d answers, learn_all cfg [lit "user 7 in"; lit "user 8 in"] d0 = Ok (d, answers) /\
    forall m, m ∈ [lit "user 7 in"; lit "user 8 in"] -> exists r c, match_cluster cfg d m Fallback = Ok (Some (r, c)) /\
      covers cfg (logTemplateTokens c) (getContentAsTokens cfg m).
Proof.
  intros cfg d0.
  apply (learned_messages_match 4 (num_div (num_of_Z 4) (num_of_Z 10)) 100 [] (lit "<*>") true cfg d0);
    [reflexivity| |discriminate].
  intros m [->|[->|[]%elem_of_nil]%elem_of_cons]%elem_of_cons; vm_compute; reflexivity.
Defined.
