(* ===== verification/DrainTree.v ===== *)
(** * The prefix tree of the log miner

    Where a message is filed, later walks find it: the key a token is filed
    under stays the key it is searched under, because children are never
    removed, a numeric token never gets a child of its own and a full node never
    gets a new one. And the tree stays within its bounds. *)

From Stdlib Require Import Ascii String.
From stdpp Require Import prelude gmap list.
From Stdlib Require Import ZArith Lia.
From S2P Require Import Prelude.
From S2P Require Import JsNum.
From S2P Require Import IngestSha256.
From S2P Require Import IngestRegex.
From S2P Require Import JsUnits.
From S2P Require Import LruCache.
From S2P Require Import Drain.
From S2P Require Import DrainInvariant.
From S2P Require Import DrainLearn.

Open Scope Z_scope.
Local Open Scope maple_scope.

(** ** Keys of a JavaScript map *)

Section Keys.
Context {K V : Type} `{!EqDecision K}.
Implicit Types (m : jsmap K V).

Lemma map_has_set k k' v m : map_has k' (map_set k v m) = bool_decide (k = k') || map_has k' m.
Proof.
  unfold map_has. rewrite map_get_set. case_decide as E.
  - rewrite (bool_decide_eq_true_2 (k = k')) by done. apply bool_decide_eq_true_2. by eexists.
  - by rewrite (bool_decide_eq_false_2 (k = k')).
Qed.

Lemma length_map_set k v m :
  length (map_set k v m) = (if map_has k m then length m else S (length m)).
Proof.
  assert (forall x : jsmap K V, length x = length (map_keys x)) as Hl by (intros x; unfold map_keys; by rewrite List.length_map).
  rewrite (Hl (map_set k v m)), map_set_keys, (Hl m). unfold map_has.
  case_decide as E; rewrite <- map_get_Some_keys in E.
  - by rewrite bool_decide_eq_true_2.
  - rewrite bool_decide_eq_false_2 by done. rewrite length_app. cbn. lia.
Qed.

Lemma length_map_set_ge k v m : (length m <= length (map_set k v m))%nat.
Proof. rewrite length_map_set. case_match; lia. Qed.
End Keys.

Section Tree.
Context (cfg : Config).
Local Notation P := (paramStr cfg).
Local Notation kids := keyToChildNode.
Local Notation tokens_of := (getContentAsTokens cfg).

(** ** Routing *)

(** A token is filed and searched under [key] at this node, for good. *)
Definition routed (token : text) (node : Node) (key : text) : Prop :=
  key = token /\ map_has token (kids node) = true \/
  key = P /\ map_has P (kids node) = true /\ map_has token (kids node) = false /\
    (parametrizeNumericTokens cfg && hasNumbers token = true \/
     maxChildren cfg <= Z.of_nat (length (kids node))).

(** The walk for these tokens ends at a node that lists [id]. *)
Fixpoint settled (n : Z) (tokens : list text) (node : Node) (depth : Z) (id : Z) : Prop :=
  match tokens with
  | [] => False
  | token :: tokens' =>
      if (maxNodeDepth cfg <=? depth) || (n <=? depth) then id ∈ clusterIds node
      else exists key child, routed token node key /\ map_get key (kids node) = Some child /\
             settled n tokens' child (depth + 1) id
  end.

Lemma settled_found n tokens node depth id : settled n tokens node depth id ->
  exists leaf, search_walk cfg n tokens node depth = Some leaf /\ id ∈ clusterIds leaf.
Proof.
  revert node depth. induction tokens as [|t tokens IH]; intros node depth; cbn [settled search_walk]; [done|].
  destruct (maxNodeDepth cfg <=? depth); cbn [orb]; [eauto|]. destruct (n <=? depth); [eauto|].
  intros (key & child & [[-> _]|(-> & HP & Ht & _)] & E & Hs).
  - rewrite E. by apply IH.
  - apply map_has_false in Ht as ->. rewrite E. by apply IH.
Qed.

Lemma child_key_routed token node f : routed token (at_child (child_key cfg token node) f node) (child_key cfg token node).
Proof.
  unfold routed, at_child. cbn [kids keyToChildNode]. set (key := child_key cfg token node).
  set (m := keyToChildNode node). set (m' := map_set key _ m).
  assert (map_has key m' = true) as Hkey by (unfold m'; rewrite map_has_set, bool_decide_eq_true_2; done).
  destruct (decide (key = token)) as [E|Hne]; [left; by rewrite <- E|right].
  assert (map_has token m' = map_has token m) as Ht.
  { unfold m'. rewrite map_has_set, bool_decide_eq_false_2 by done. done. }
  rewrite Ht. revert Hkey Hne. unfold m'. rewrite length_map_set.
  unfold key, child_key. fold m. destruct (map_has token m); [done|].
  destruct (parametrizeNumericTokens cfg && hasNumbers token) eqn:En; [intros; split_and!; auto|].
  destruct (map_has P m) eqn:EP.
  - destruct (Z.ltb_spec (Z.of_nat (length m)) (maxChildren cfg)); [done|]. rewrite EP. intros. split_and!; auto.
  - destruct (Z.ltb_spec (Z.of_nat (length m) + 1) (maxChildren cfg)); [done|]. rewrite EP. intros.
    split_and!; auto. right. lia.
Qed.

Lemma routed_keep token node key token' f :
  routed token node key -> routed token (at_child (child_key cfg token' node) f node) key.
Proof.
  unfold routed, at_child. cbn [kids keyToChildNode]. set (m := keyToChildNode node).
  intros [[-> Ht]|(-> & HP & Ht & Hw)]; [left|right].
  - split; [done|]. by rewrite map_has_set, Ht, orb_true_r.
  - split; [done|]. rewrite !map_has_set, HP, Ht, orb_true_r, orb_false_r. split; [done|]. split.
    + apply bool_decide_eq_false_2. unfold child_key. fold m. intros E. revert E.
      destruct (map_has token' m) eqn:Et'; [congruence|].
      destruct (parametrizeNumericTokens cfg && hasNumbers token') eqn:En; [congruence|].
      rewrite HP. destruct (Z.of_nat (length m) <? maxChildren cfg) eqn:El; [intros Et; subst token'|congruence].
      destruct Hw as [Hw|Hw]; [congruence|]. apply Z.ltb_lt in El. lia.
    + destruct Hw as [Hw|Hw]; [by left|right].
      pose proof (length_map_set_ge (child_key cfg token' node)
        (f (default new_node (map_get (child_key cfg token' node) m))) m). lia.
Qed.

Lemma add_walk_settled s n id tokens node depth :
  tokens <> [] -> n <= depth + Z.of_nat (length tokens) - 1 ->
  settled n tokens (add_walk cfg s n id tokens depth node) depth id.
Proof.
  revert node depth. induction tokens as [|t tokens IH]; intros node depth Hne Hn; [done|].
  cbn [add_walk settled length] in *. destruct (_ || _) eqn:E.
  - cbn [clusterIds]. apply elem_of_app. right. apply list_elem_of_here.
  - apply orb_false_iff in E as [_ E]. apply Z.leb_gt in E.
    do 2 eexists. split; [apply child_key_routed|]. split; [by rewrite map_get_at_child, decide_True|].
    apply IH; [|lia]. intros ->. cbn in Hn. lia.
Qed.

Lemma add_walk_keep s n id0 tokens0 id tokens node depth :
  store_has id0 s = true -> settled n tokens0 node depth id0 ->
  settled n tokens0 (add_walk cfg s n id tokens depth node) depth id0.
Proof.
  intros Hs. revert tokens0 node depth. induction tokens as [|t tokens IH]; intros tokens0 node depth; [done|].
  destruct tokens0 as [|t0 tokens0]; [done|]. cbn [settled add_walk]. destruct (_ || _).
  - cbn [clusterIds]. intros Hin. apply elem_of_app. left.
    apply list_elem_of_In, List.filter_In. split; [by apply list_elem_of_In|done].
  - intros (key & child & Hr & E & Hset). exists key. rewrite map_get_at_child.
    case_decide as Ek; [subst key; rewrite E; cbn [default]|];
      (eexists; split; [by apply routed_keep|]; split; [done|]); [by apply IH|done].
Qed.

(** The tree search for [tokens] ends at a node that lists [id]. *)
Definition reached (d : Drain) (tokens : list text) (id : Z) : Prop :=
  exists first, map_get (count_key tokens) (kids (rootNode d)) = Some first /\
    match tokens with
    | [] => id ∈ clusterIds first
    | _ => settled (Z.of_nat (length tokens)) tokens first 1 id
    end.

Lemma reached_new d s tokens : reached (filed_state cfg d s tokens) tokens (clustersCounter d + 1).
Proof.
  unfold reached, filed_state, addSeqToPrefixTree. cbn [rootNode with_root store].
  rewrite map_get_at_child, decide_True by done. eexists. split; [done|].
  destruct tokens as [|t tokens]; [apply list_elem_of_here|]. apply add_walk_settled; [done|]. cbn [length]. lia.
Qed.

Lemma reached_filed d tokens id : reached d tokens id -> filed d tokens id.
Proof.
  intros (first & E & Hid). unfold filed, getClustersIdsForSeqLen. rewrite E.
  destruct tokens as [|t tokens]; [apply elem_of_collect; by left|].
  destruct (settled_found _ _ _ _ _ Hid) as (leaf & Hw & Hl). by eapply search_walk_ids.
Qed.

Lemma reached_keep d s tokens0 tokens id0 :
  (tokens = [] -> ~ filed d [] id0) -> store_has id0 s = true ->
  reached d tokens0 id0 -> reached (filed_state cfg d s tokens) tokens0 id0.
Proof.
  intros Hempty Hs Hr. pose proof (reached_filed _ _ _ Hr) as Hf. destruct Hr as (first & E & Hid).
  unfold reached, filed_state, addSeqToPrefixTree. cbn [rootNode with_root store].
  rewrite map_get_at_child. case_decide as Hk; [|by exists first].
  rewrite Hk, E. cbn [default]. eexists. split; [done|]. apply count_key_inj in Hk.
  destruct tokens as [|t tokens], tokens0 as [|t0 tokens0]; try discriminate.
  - by destruct (Hempty eq_refl).
  - injection Hk as Hk. cbn [length] in *. rewrite Hk. by apply add_walk_keep.
Qed.

(** A live cluster that covers the message is where its walk ends. *)
Definition anchored (d : Drain) (tokens : list text) : Prop :=
  exists id r c, reached d tokens id /\ clusterPeek id d = Some (r, c) /\
    covers cfg (logTemplateTokens c) tokens.

Lemma learned_anchors d tokens d' r : Inv d -> learned cfg d tokens d' r cluster_created -> anchored d' tokens.
Proof.
  intros Hd Hl. inversion Hl as [|s Es Hempty]; subst; [done|].
  destruct (file_ok cfg d tokens Hd Hempty) as (s' & Es' & _ & _ & Hp').
  rewrite Es in Es'. injection Es' as <-. do 3 eexists. split; [apply reached_new|]. split; [done|]. apply covers_self.
Qed.

Lemma anchored_keep d tokens0 d' r u tokens : Inv d -> learned cfg d tokens d' r u ->
  is_map (store d) -> anchored d tokens0 -> anchored d' tokens0.
Proof.
  intros Hd Hl Hmap (id & r0 & c0 & Hr & Hp & Hc).
  destruct (learned_ok cfg _ _ _ _ _ Hd Hl) as (Hd' & G & _).
  destruct (grows_live _ _ _ G Hmap id) as [[r1 c1] Hp1]; [by rewrite Hp|].
  exists id, r1, c1. split; [|split; [done|]].
  - destruct Hl as [|s Es Hempty]; [exact Hr|]. apply reached_keep; [| |done].
    + intros Ht Hf. rewrite (Hempty Ht _ Hf) in Hp. done.
    + destruct (inv_store _ Hd') as (m & Hm & _). change (store (filed_state cfg d s tokens)) with s in Hm.
      rewrite (store_has_ok _ _ Hm). apply map_has_get. unfold clusterPeek in Hp1.
      change (store (filed_state cfg d s tokens)) with s in Hp1. rewrite (store_peek_ok _ _ Hm) in Hp1.
      destruct (map_get id m); [by eexists|done].
  - destruct (peek_heap _ _ _ _ Hd Hp) as (_ & -> & Hh & _).
    destruct (peek_heap _ _ _ _ Hd' Hp1) as (_ & -> & Hh' & _).
    destruct (grows_heap _ _ _ G _ _ Hh) as (c2 & Hc2 & _ & _ & Hcov). rewrite Hh' in Hc2.
    injection Hc2 as <-. by apply Hcov.
Qed.

(** The strategy [Never] finds an anchored message. *)
Lemma anchored_found d content :
  Inv d -> Z.of_nat (length (tokens_of content)) < 2 ^ 53 -> anchored d (tokens_of content) ->
  exists r c, match_cluster cfg d content Never = Ok (Some (r, c)) /\
    covers cfg (logTemplateTokens c) (tokens_of content).
Proof.
  intros Hd Hn (id & r & c & Hr & Hp & Hc).
  destruct (match_exact cfg d content Never Hd Hn) as (res & E & Hcov & _).
  cut (is_Some res); [intros [[r' c'] ->]; eauto|].
  unfold match_cluster in E. set (tokens := tokens_of content) in *.
  pose proof (reached_filed _ _ _ Hr) as Hf. destruct Hr as (first & Efirst & Hid).
  assert (exists id', treeSearch cfg d tokens (num_of_Z 1) true = Ok (Some id') /\ is_Some (clusterPeek id' d))
    as (id' & Et & Hlive).
  { unfold treeSearch. rewrite Efirst. destruct tokens as [|t tokens].
    - destruct (inv_empty _ Hd _ Efirst) as [id' ->]. cbn in Hid. apply list_elem_of_singleton in Hid as ->.
      exists id'. by rewrite Hp.
    - destruct (settled_found _ _ _ _ _ Hid) as (leaf & Hw & Hleaf). rewrite Hw.
      destruct (fastMatch_full cfg d (clusterIds leaf) (t :: tokens)) as (res' & -> & Hfull & Hsome); [|done|].
      { intros id0 r0 c0 Hin Hp0. eapply (filed_length d); [done| |exact Hp0]. by eapply walk_filed. }
      destruct (Hsome id) as [id' ->]; [split; [done|by exists r, c]|].
      destruct (Hfull _ eq_refl) as (_ & r' & c' & Hp' & _). exists id'. by rewrite Hp'. }
  rewrite Et in E. cbn [result_bind] in E. by injection E as <-.
Qed.

(** ** Bounds *)

(** Every node of a branch has at most [maxChildren] children (one, for smaller
    values), leaves room for the wildcard child until it is there, and has none
    at the maximal depth. *)
Inductive well_sized : Z -> Node -> Prop :=
  | well_sized_node depth m ids :
      Z.of_nat (length m) <= Z.max 1 (maxChildren cfg) ->
      (map_has P m = false -> Z.of_nat (length m) + 1 <= Z.max 1 (maxChildren cfg)) ->
      (m <> [] -> depth < maxNodeDepth cfg) ->
      (forall k c, (k, c) ∈ m -> well_sized (depth + 1) c) ->
      well_sized depth (mk_node m ids).

Lemma well_sized_new depth : well_sized depth new_node.
Proof. constructor; cbn; try lia; try done. intros k c []%elem_of_nil. Qed.

(** Filing a token keeps the fan-out within its bound. *)
Lemma child_key_bound token node v :
  let m := kids node in
  Z.of_nat (length m) <= Z.max 1 (maxChildren cfg) ->
  (map_has P m = false -> Z.of_nat (length m) + 1 <= Z.max 1 (maxChildren cfg)) ->
  let m' := map_set (child_key cfg token node) v m in
  Z.of_nat (length m') <= Z.max 1 (maxChildren cfg) /\
  (map_has P m' = false -> Z.of_nat (length m') + 1 <= Z.max 1 (maxChildren cfg)).
Proof.
  cbn zeta. unfold child_key. set (m := kids node). intros H1 H2. rewrite length_map_set, map_has_set.
  destruct (map_has token m) eqn:Et; [rewrite Et, orb_false_iff; naive_solver|].
  destruct (_ && hasNumbers token).
  { rewrite bool_decide_eq_true_2 by done. split; [|done]. destruct (map_has P m); [done|].
    specialize (H2 eq_refl). lia. }
  destruct (map_has P m) eqn:EP.
  - rewrite orb_true_r. split; [|done].
    destruct (Z.ltb_spec (Z.of_nat (length m)) (maxChildren cfg)); [rewrite Et|rewrite EP]; lia.
  - specialize (H2 eq_refl).
    destruct (Z.ltb_spec (Z.of_nat (length m) + 1) (maxChildren cfg)).
    + rewrite Et. split; [lia|]. intros _. lia.
    + rewrite EP, bool_decide_eq_true_2 by done. split; [lia|done].
Qed.

Lemma add_walk_sized s n id tokens node depth :
  well_sized depth node -> well_sized depth (add_walk cfg s n id tokens depth node).
Proof.
  revert node depth. induction tokens as [|t tokens IH]; intros node depth Hw; cbn [add_walk]; [done|].
  destruct Hw as [depth m ids H1 H2 H3 H4]. destruct (_ || _) eqn:E; [by constructor|].
  apply orb_false_iff in E as [E _]. apply Z.leb_gt in E.
  unfold at_child. cbn [kids keyToChildNode clusterIds].
  destruct (child_key_bound t (mk_node m ids)
    (add_walk cfg s n id tokens (depth + 1) (default new_node (map_get (child_key cfg t (mk_node m ids)) m))) H1 H2)
    as [H1' H2'].
  constructor; [done..|]. intros k c [[= -> ->]|Hin]%map_set_elem; [|by eapply H4].
  apply IH. destruct (map_get _ m) as [child|] eqn:Ec; [|apply well_sized_new].
  eapply H4. by apply map_get_elem_of.
Qed.

Definition branches_sized (d : Drain) : Prop :=
  forall key child, (key, child) ∈ kids (rootNode d) -> well_sized 1 child.

Lemma learned_sized d tokens d' r u : learned cfg d tokens d' r u -> branches_sized d -> branches_sized d'.
Proof.
  intros [|s Es _] Hd; [done|]. unfold branches_sized, filed_state, addSeqToPrefixTree, at_child.
  cbn [rootNode with_root kids keyToChildNode store]. intros key child [[= -> ->]|Hin]%map_set_elem; [|by eapply Hd].
  assert (well_sized 1 (default new_node (map_get (count_key tokens) (keyToChildNode (rootNode d))))) as Hw.
  { destruct (map_get _ _) as [old|] eqn:E; [|apply well_sized_new]. eapply Hd. by apply map_get_elem_of. }
  destruct tokens; [by inversion Hw; subst; constructor|]. by apply add_walk_sized.
Qed.
End Tree.

(** The prefix tree stays within its configuration, with either store. In
    every branch each node has at most [maxChildren] children, keeps room for
    the wildcard child until it exists, and no node below the maximal depth has
    children at all, whatever messages arrive. *)
Theorem tree_within_bounds depth th maxChildren maxClusters delimiters p numeric cfg d0 messages :
  new_drain depth th maxChildren maxClusters delimiters p numeric = Ok (cfg, d0) ->
  exists d answers, learn_all cfg messages d0 = Ok (d, answers) /\ branches_sized cfg d.
Proof.
  intros Hnew. pose proof (Inv_new _ _ _ _ _ _ _ _ _ Hnew) as Hd0.
  assert (branches_sized cfg d0) as Hs0.
  { unfold new_drain in Hnew. case_match; [done|]. injection Hnew as _ <-. intros k c []%elem_of_nil. }
  clear Hnew. revert d0 Hd0 Hs0. induction messages as [|m messages IH]; intros d Hd Hs; cbn [learn_all].
  { exists d, []. by split. }
  destruct (add_learned cfg d m Hd) as (d1 & r & u & -> & Hl). cbn [result_bind].
  destruct (learned_ok cfg _ _ _ _ _ Hd Hl) as (Hd1 & _).
  destruct (IH d1 Hd1) as (d' & answers & -> & Hs'); [by eapply learned_sized|]. cbn [result_bind]. eauto.
Qed.

(** The tree search alone finds every message that founded a cluster, at any
    later time. Messages of any number go to wildcard nodes when they hold
    digits or when a node is full, so the path of a message is decided when its
    cluster is filed and no later message changes it. (A message that joined a
    cluster found through a wildcard node has no such guarantee: a later message
    may open a child for its token.) *)
Theorem founding_messages_found depth th maxChildren delimiters p numeric cfg d0 messages i m r :
  new_drain depth th maxChildren None delimiters p numeric = Ok (cfg, d0) ->
  messages !! i = Some m -> Z.of_nat (length (getContentAsTokens cfg m)) < 2 ^ 53 ->
  exists d answers, learn_all cfg messages d0 = Ok (d, answers) /\
    (answers !! i = Some (r, cluster_created) ->
     exists r' c, match_cluster cfg d m Never = Ok (Some (r', c)) /\
       covers cfg (logTemplateTokens c) (getContentAsTokens cfg m)).
Proof.
  intros Hnew Hi Hn. pose proof (Inv_new _ _ _ _ _ _ _ _ _ Hnew) as Hd0.
  assert (is_map (store d0)) as Hmap0 by (unfold new_drain in Hnew; case_match; [done|by injection Hnew as _ <-]).
  assert (forall messages d, Inv d -> is_map (store d) -> exists d' answers,
    learn_all cfg messages d = Ok (d', answers) /\ Inv d' /\
    (forall tokens, anchored cfg d tokens -> anchored cfg d' tokens) /\
    (forall i m r, messages !! i = Some m -> answers !! i = Some (r, cluster_created) ->
       anchored cfg d' (getContentAsTokens cfg m))) as Hall.
  { clear. intros messages. induction messages as [|m messages IH]; intros d Hd Hmap; cbn [learn_all].
    { exists d, []. by split_and!. }
    destruct (add_learned cfg d m Hd) as (d1 & r & u & -> & Hl). cbn [result_bind].
    destruct (learned_ok cfg _ _ _ _ _ Hd Hl) as (Hd1 & G & _ & _).
    destruct (IH d1 Hd1 (proj1 (grows_map _ _ _ G) Hmap)) as (d' & answers & -> & Hd' & Hold & Hnew).
    cbn [result_bind]. exists d', ((r, u) :: answers). split_and!; try done.
    - intros tokens Ha. apply Hold. by apply (anchored_keep cfg d tokens d1 r u (getContentAsTokens cfg m)).
    - intros [|i] m' r' Hi Hr; cbn in Hi, Hr; [|by eapply Hnew].
      injection Hi as <-. injection Hr as <- ->. apply Hold. by apply (learned_anchors cfg d _ d1 r). }
  destruct (Hall messages d0 Hd0 Hmap0) as (d & answers & E & Hd & _ & Ha). exists d, answers. split; [done|].
  intros Hr. apply anchored_found; [done..|]. by eapply Ha.
Qed.
(** ** Concrete runs *)

Definition small_config : Config :=
  {| maxNodeDepth := 3; simTh := num_div (num_of_Z 4) (num_of_Z 10); maxChildren := 100;
     extraDelimiters := []; paramStr := lit "<*>"; parametrizeNumericTokens := true |}.

Definition small_drain : Drain :=
  {| rootNode := new_node; store := MapStore []; clustersCounter := 0; heap := [] |}.

Definition small_messages : list text := [lit "7 user logged in"; lit "foo user logged in"; lit "foo x y z"].

(** The template that answers a probe after the messages. *)
Definition outcome (cfg : Config) (messages : list text) (probe : text) (strategy : FullSearchStrategy) :
    option (option (list text)) :=
  match learn_all cfg messages small_drain with
  | Ok (d, _) =>
      match match_cluster cfg d probe strategy with
      | Ok res => Some (option_map (fun e => logTemplateTokens e.2) res)
      | Err _ => None
      end
  | Err _ => None
  end.

(** The second message joins the cluster of the first through the wildcard node;
    the third opens a child for its first token, where the tree search for the
    second now ends without a match. The full search still finds it. *)
Lemma joined_message_lost :
  outcome small_config small_messages (lit "foo user logged in") Never = Some None /\
  outcome small_config small_messages (lit "foo user logged in") Fallback =
    Some (Some [lit "<*>"; lit "user"; lit "logged"; lit "in"]).
Proof. by vm_compute. Qed.

Lemma founding_messages_found_witness :
  exists d answers, learn_all small_config small_messages small_drain = Ok (d, answers) /\
    answers !! 0%nat = Some (0%nat, cluster_created) /\
    exists r c, match_cluster small_config d (lit "7 user logged in") Never = Ok (Some (r, c)) /\
      covers small_config (logTemplateTokens c) (getContentAsTokens small_config (lit "7 user logged in")).
Proof.
  destruct (founding_messages_found 5 (num_div (num_of_Z 4) (num_of_Z 10)) 100 [] (lit "<*>") true
    small_config small_drain small_messages 0%nat (lit "7 user logged in") 0%nat) as (d & answers & E & H);
    [reflexivity|reflexivity|vm_compute; reflexivity|].
  assert (answers !! 0%nat = Some (0%nat, cluster_created)) as Ha.
  { vm_compute in E. injection E as _ <-. reflexivity. }
  exists d, answers. split; [exact E|]. split; [exact Ha|]. exact (H Ha).
Defined.

Lemma tree_within_bounds_witness :
  exists d answers, learn_all small_config small_messages small_drain = Ok (d, answers) /\
    branches_sized small_config d.
Proof.
  apply (tree_within_bounds 5 (num_div (num_of_Z 4) (num_of_Z 10)) 100 None [] (lit "<*>") true). reflexivity.
Defined.
