(* ===== verification/DrainPatterns.v ===== *)
(** * Log patterns

    [TemplateMiner.addLogMessage] (template-miner.ts with masking.ts and
    config.ts) and [clusterLogPatterns] of observability/mine-log-patterns.ts:
    the log rows of a sample, counted per mined template. The replacement of a
    global regular expression is a parameter. *)

From Stdlib Require Import Ascii String.
From stdpp Require Import prelude gmap list.
From Stdlib Require Import ZArith Lia Sorting.Sorted.
From S2P Require Import Prelude.
From S2P Require Import JsNum.
From S2P Require Import IngestSha256.
From S2P Require Import IngestRegex.
From S2P Require Import JsUnits.
From S2P Require Import LruCache.
From S2P Require Import Drain.
From S2P Require Import DrainInvariant.
From S2P Require Import DrainLearn.

Open Scope Z_scope.
Local Open Scope maple_scope.

Record MaskingInstruction := { mi_pattern : text; mi_maskWith : text }.

Record TemplateMinerConfig := {
  drainDepth : Z;
  drainSimTh : num;
  drainMaxChildren : Z;
  drainMaxClusters : option Z;
  drainExtraDelimiters : list text;
  maskPrefix : text;
  maskSuffix : text;
  maskingInstructions : list MaskingInstruction;
  numericTokens : bool }.

(** [new TemplateMinerConfig()], with the instructions of [clusterLogPatterns]. *)
Definition log_config : TemplateMinerConfig :=
  {| drainDepth := 4;
     drainSimTh := num_div (num_of_Z 4) (num_of_Z 10);
     drainMaxChildren := 100;
     drainMaxClusters := None;
     drainExtraDelimiters := [];
     maskPrefix := lit "<";
     maskSuffix := lit ">";
     maskingInstructions :=
       [ {| mi_pattern := lit "[0-9a-f]{8}-[0-9a-f]{4}-[0-9a-f]{4}-[0-9a-f]{4}-[0-9a-f]{12}"; mi_maskWith := lit "uuid" |};
         {| mi_pattern := lit "\d+\.\d+\.\d+\.\d+"; mi_maskWith := lit "ip" |};
         {| mi_pattern := lit "0x[0-9a-fA-F]+"; mi_maskWith := lit "hex" |};
         {| mi_pattern := lit "[a-zA-Z0-9._%+-]+@[a-zA-Z0-9.-]+\.[a-zA-Z]{2,}"; mi_maskWith := lit "email" |} ];
     numericTokens := true |}.

Record LogRow := { row_body : option text; row_severity : option text; row_service : option text }.

Record LogPattern := {
  p_template : text;
  p_count : Z;
  p_sample : text;
  p_severityCounts : jsmap text Z;
  p_serviceCounts : jsmap text Z }.

Record AddLogMessageResult := {
  changeType : update_type;
  mined_clusterId : Z;
  mined_clusterSize : Z;
  templateMined : text;
  mined_clusterCount : Z }.

Section Patterns.
(** [content.replace(new RegExp(pattern, g), replacement)] *)
Context (replace_all : text -> text -> text -> text).
Context (tm : TemplateMinerConfig).

(** [MaskingInstruction.mask] and [LogMasker.mask]. *)
Definition mask_instruction (content : text) (mi : MaskingInstruction) : text :=
  replace_all (mi_pattern mi) (maskPrefix tm ++ mi_maskWith mi ++ maskSuffix tm) content.

Definition mask (content : text) : text := foldl mask_instruction content (maskingInstructions tm).

(** The constructor of [TemplateMiner]. *)
Definition new_miner : result drain_error (Config * Drain) :=
  new_drain (drainDepth tm) (drainSimTh tm) (drainMaxChildren tm) (drainMaxClusters tm)
    (drainExtraDelimiters tm) (maskPrefix tm ++ lit "*" ++ maskSuffix tm) (numericTokens tm).

(** [TemplateMiner.addLogMessage]; the cluster is read through its reference. *)
Definition mine (cfg : Config) (logMessage : text) (d : Drain) :
    result drain_error (Drain * AddLogMessageResult) :=
  let! (d, (r, u)) := addLogMessage cfg (mask logMessage) d in
  match heap d !! r with
  | Some cluster =>
      Ok (d, {| changeType := u; mined_clusterId := clusterId cluster; mined_clusterSize := cluster_size cluster;
                templateMined := getTemplate cluster; mined_clusterCount := clusterCount d |})
  | None => Err (DrainInvariantError "dangling reference")
  end.

Definition incrementCount (m : jsmap text Z) (key : text) : jsmap text Z :=
  map_set key (default 0 (map_get key m) + 1) m.

Definition severity_of (row : LogRow) : text := default (lit "UNKNOWN") (row_severity row).
Definition service_of (row : LogRow) : text := default (lit "unknown") (row_service row).

(** What a row does to its cluster's entry. *)
Definition count_row (row : LogRow) (body : text) (mined : AddLogMessageResult) (existing : option LogPattern) :
    LogPattern :=
  match existing with
  | Some p =>
      {| p_template := templateMined mined; p_count := p_count p + 1; p_sample := p_sample p;
         p_severityCounts := incrementCount (p_severityCounts p) (severity_of row);
         p_serviceCounts := incrementCount (p_serviceCounts p) (service_of row) |}
  | None =>
      {| p_template := templateMined mined; p_count := 1; p_sample := body;
         p_severityCounts := incrementCount [] (severity_of row);
         p_serviceCounts := incrementCount [] (service_of row) |}
  end.

Fixpoint rows_loop (cfg : Config) (rows : list LogRow) (d : Drain) (found : jsmap Z LogPattern) :
    result drain_error (Drain * jsmap Z LogPattern) :=
  match rows with
  | [] => Ok (d, found)
  | row :: rows' =>
      match default [] (row_body row) with
      | [] => rows_loop cfg rows' d found
      | body =>
          let! (d, mined) := mine cfg body d in
          rows_loop cfg rows' d
            (map_set (mined_clusterId mined)
               (count_row row body mined (map_get (mined_clusterId mined) found)) found)
      end
  end.

(** [patterns.slice(0, limit)] *)
Definition js_slice_to {A} (limit : Z) (l : list A) : list A :=
  take (Z.to_nat (if limit <? 0 then Z.max (Z.of_nat (length l) + limit) 0 else limit)) l.

Definition by_count (a b : LogPattern) : Z := p_count b - p_count a.

#[export] Instance by_count_comparator : Comparator by_count.
Proof. split; unfold by_count; lia. Qed.

Definition clusterLogPatterns (rows : list LogRow) (limit : Z) : result drain_error (list LogPattern * Z) :=
  let! (cfg, d) := new_miner in
  let! (_, found) := rows_loop cfg rows d [] in
  Ok (js_slice_to limit (js_sort by_count (map_values found)), Z.of_nat (length found)).


(** ** Every message is counted once, under a template that covers it *)

Context (cfg : Config).

(** What a call does to the heap. *)
Lemma learned_heap d tokens d' r u : Inv d -> learned cfg d tokens d' r u ->
  exists c', heap d' !! r = Some c' /\ clusterId c' = Z.of_nat r + 1 /\
    cluster_size c' = from_option cluster_size 0 (heap d !! r) + 1 /\
    forall r0, r0 <> r -> heap d' !! r0 = heap d !! r0.
Proof.
  intros Hd Hl. destruct (learned_ok cfg _ _ _ _ _ Hd Hl) as (Hd' & _ & _ & c' & Hc' & _).
  exists c'. split; [done|]. split; [by apply (inv_ids _ Hd')|].
  destruct Hl as [id r c template s u Hf Hp Et Es _|s Es _].
  - destruct (peek_heap _ _ _ _ Hd Hp) as (_ & _ & Hh & _). cbn [heap with_store with_heap] in *.
    rewrite list_lookup_insert_eq in Hc' by by eapply lookup_lt_Some. injection Hc' as <-. rewrite Hh. split; [done|].
    intros r0 Hr0. by apply list_lookup_insert_ne.
  - change (heap (filed_state cfg d s tokens)) with (heap d ++ [new_cluster tokens (clustersCounter d + 1)]) in *.
    rewrite lookup_app_r, Nat.sub_diag in Hc' by lia. injection Hc' as <-.
    rewrite lookup_ge_None_2 by done. split; [done|]. intros r0 Hr0.
    destruct (decide (r0 < length (heap d))%nat); [by apply lookup_app_l|].
    rewrite !lookup_ge_None_2; [done|lia|rewrite length_app; cbn; lia].
Qed.

Definition total (found : jsmap Z LogPattern) : Z := foldr (fun e n => p_count e.2 + n) 0 found.

Lemma total_set id p found :
  total (map_set id p found) = total found - from_option p_count 0 (map_get id found) + p_count p.
Proof.
  induction found as [|[id' p'] found IH]; cbn [map_set map_get total foldr snd]; [cbn; lia|].
  case_decide; cbn [foldr snd from_option]; [unfold total; lia|]. unfold total in IH. rewrite IH. lia.
Qed.

(** The entries mirror the clusters. *)
Record mirrors (d : Drain) (found : jsmap Z LogPattern) : Prop := {
  mirrors_keys : NoDup (map_keys found);
  mirrors_entry : forall id p, map_get id found = Some p -> exists c,
    heap d !! Z.to_nat (id - 1) = Some c /\ 1 <= id /\
    p_template p = getTemplate c /\ p_count p = cluster_size c;
  mirrors_cluster : forall r c, heap d !! r = Some c -> is_Some (map_get (Z.of_nat r + 1) found) }.

Lemma mirrors_step d tokens d' r u row body mined found c' :
  Inv d -> mirrors d found -> learned cfg d tokens d' r u -> heap d' !! r = Some c' ->
  mined_clusterId mined = clusterId c' -> templateMined mined = getTemplate c' ->
  let found' := map_set (mined_clusterId mined)
                  (count_row row body mined (map_get (mined_clusterId mined) found)) found in
  mirrors d' found' /\ total found' = total found + 1.
Proof.
  intros Hd [Hk He Hc] Hl Hr Hid Ht. destruct (learned_heap _ _ _ _ _ Hd Hl) as (c & Hc' & Hcid & Hsize & Hother).
  rewrite Hr in Hc'. injection Hc' as <-. set (p := count_row _ _ _ _). cbn zeta.
  assert (p_template p = getTemplate c') as Hpt by (unfold p, count_row; case_match; done).
  assert (p_count p = from_option p_count 0 (map_get (mined_clusterId mined) found) + 1) as Hpc
    by (unfold p, count_row; case_match; done).
  rewrite total_set, Hpc. split; [|lia].
  assert (p_count p = cluster_size c') as Hps.
  { rewrite Hpc, Hsize. clear Hpc Hpt p. f_equal. rewrite Hid, Hcid.
    destruct (map_get _ found) as [q|] eqn:E; cbn [from_option].
    - destruct (He _ _ E) as (c & Hh & _ & _ & ->). replace (Z.to_nat _) with r in Hh by lia. by rewrite Hh.
    - destruct (heap d !! r) as [c|] eqn:E'; [|done]. destruct (Hc _ _ E') as [q Hq]. congruence. }
  split.
  - by apply map_set_NoDup.
  - intros id q. rewrite map_get_set. case_decide as E.
    + intros [= <-]. subst id. rewrite Hid, Hcid. replace (Z.to_nat _) with r by lia. exists c'. split_and!; try done. lia.
    + intros Hq. destruct (He _ _ Hq) as (c & Hh & Hpos & ? & ?). exists c. split; [|done].
      rewrite Hother; [done|]. intros <-. apply E. rewrite Hid, Hcid. lia.
  - intros r0 c0 Hr0. rewrite map_get_set. case_decide as E; [by eexists|].
    apply (Hc r0 c0). rewrite <- Hother; [done|]. intros ->. apply E. by rewrite Hid, Hcid.
Qed.

Definition messages_of (rows : list LogRow) : list text :=
  List.filter (fun body => negb (bool_decide (body = []))) (List.map (fun row => default [] (row_body row)) rows).

Lemma rows_loop_ok rows : forall d found, Inv d -> mirrors d found ->
  exists d' found', rows_loop cfg rows d found = Ok (d', found') /\ mirrors d' found' /\
    total found' = total found + Z.of_nat (length (messages_of rows)) /\
    (forall r c x, heap d !! r = Some c -> covers cfg (logTemplateTokens c) x ->
       exists c', heap d' !! r = Some c' /\ covers cfg (logTemplateTokens c') x) /\
    (forall body, body ∈ messages_of rows -> exists r c, heap d' !! r = Some c /\
       covers cfg (logTemplateTokens c) (getContentAsTokens cfg (mask body))).
Proof.
  induction rows as [|row rows IH]; intros d found Hd Hm; cbn [rows_loop].
  { exists d, found. split_and!; try done; [cbn; lia|eauto|]. by intros ? ?%elem_of_nil. }
  unfold messages_of. cbn [List.map List.filter]. fold (messages_of rows).
  destruct (default [] (row_body row)) as [|x body] eqn:Eb; [by apply IH|].
  rewrite bool_decide_eq_false_2 by done. cbn [negb]. unfold mine.
  destruct (add_learned cfg d (mask (x :: body)) Hd) as (d1 & r & u & -> & Hl). cbn [result_bind].
  destruct (learned_ok cfg _ _ _ _ _ Hd Hl) as (Hd1 & G & _ & c & Hc & Hcov). rewrite Hc. cbn [result_bind].
  set (mined := {| changeType := u |}). 
  destruct (mirrors_step d _ d1 r u row (x :: body) mined found c Hd Hm Hl Hc eq_refl eq_refl) as [Hm1 Ht1].
  destruct (IH _ _ Hd1 Hm1) as (d' & found' & -> & Hm' & Ht & Hkeep & Hnew).
  exists d', found'. split_and!; try done.
  - rewrite Ht, Ht1. cbn [length]. lia.
  - intros r0 c0 y Hr0 Hy. destruct (grows_heap _ _ _ G _ _ Hr0) as (c1 & Hc1 & _ & _ & Hc01).
    by apply (Hkeep r0 c1); [|apply Hc01].
  - intros b [->|Hb]%elem_of_cons; [|by apply Hnew].
    destruct (Hkeep _ _ _ Hc Hcov) as (c' & ? & ?). eauto.
Qed.

End Patterns.

Lemma take_all_sorted {A} (R : A -> A -> Prop) l n : StronglySorted R l -> StronglySorted R (take n l).
Proof.
  intros Hl. revert n. induction Hl as [|x l Hl IH Hx]; intros [|n]; cbn; constructor; [apply IH|].
  by apply Forall_take.
Qed.

Lemma StronglySorted_mono {A} (R S : A -> A -> Prop) l :
  (forall x y, R x y -> S x y) -> StronglySorted R l -> StronglySorted S l.
Proof. intros H. induction 1; constructor; [done|]. eapply Forall_impl; eauto. Qed.

Definition count_sum (ps : list LogPattern) : Z := foldr (fun p n => p_count p + n) 0 ps.

Lemma count_sum_perm ps qs : ps ≡ₚ qs -> count_sum ps = count_sum qs.
Proof. unfold count_sum. induction 1; cbn; lia. Qed.

Lemma count_sum_values found : count_sum (map_values found) = total found.
Proof. unfold map_values, total. induction found as [|e found IH]; cbn; [done|]. f_equal. exact IH. Qed.

(** The log patterns account for every message. The rows of a sample are
    clustered without an exception; the entries come ordered by count; and when
    the limit holds them all, the counts add up to the number of rows with a
    body and each such body, once masked, is covered token by token by the
    template of one of the entries, although templates are generalised after
    the message was counted. *)
Theorem log_patterns_account replace_all tm cfg d0 rows limit :
  new_miner tm = Ok (cfg, d0) ->
  exists patterns n, clusterLogPatterns replace_all tm rows limit = Ok (patterns, n) /\
    StronglySorted (fun p q => p_count q <= p_count p) patterns /\
    (n <= limit ->
      count_sum patterns = Z.of_nat (length (messages_of rows)) /\
      forall body, body ∈ messages_of rows -> exists p template, p ∈ patterns /\
        p_template p = join_text (lit " ") template /\
        covers cfg template (getContentAsTokens cfg (mask replace_all tm body))).
Proof.
  intros Hnew. pose proof (Inv_new _ _ _ _ _ _ _ _ _ Hnew) as Hd0.
  assert (mirrors d0 []) as Hm0.
  { unfold new_miner, new_drain in Hnew. case_match; [done|]. injection Hnew as _ <-.
    split; [constructor|done|]. intros r c. cbn. by rewrite lookup_nil. }
  unfold clusterLogPatterns. rewrite Hnew. cbn [result_bind].
  destruct (rows_loop_ok replace_all tm cfg rows d0 [] Hd0 Hm0) as (d & found & -> & Hm & Ht & _ & Hcov).
  cbn [result_bind]. do 2 eexists. split; [done|].
  split.
  { apply take_all_sorted. apply StronglySorted_mono with (fun p q => by_count p q <= 0); [|apply js_sort_sorted, _].
    intros p q. unfold by_count. lia. }
  intros Hlimit. unfold js_slice_to. rewrite (proj2 (Z.ltb_ge limit 0)) by lia.
  rewrite take_ge by (rewrite length_js_sort; unfold map_values; rewrite List.length_map; lia). split.
  - rewrite (count_sum_perm _ _ (js_sort_perm by_count (map_values found))), count_sum_values, Ht. cbn [total]. done.
  - intros body Hb. destruct (Hcov body Hb) as (r & c & Hr & Hc).
    destruct (mirrors_cluster _ _ Hm _ _ Hr) as [p Hp].
    destruct (mirrors_entry _ _ Hm _ _ Hp) as (c' & Hc' & _ & Hpt & _).
    replace (Z.to_nat _) with r in Hc' by lia. rewrite Hr in Hc'. injection Hc' as <-.
    exists p, (logTemplateTokens c). split; [|by rewrite Hpt].
    apply elem_of_js_sort. unfold map_values. apply list_elem_of_In, List.in_map_iff.
    exists (Z.of_nat r + 1, p). split; [done|]. by apply list_elem_of_In, map_get_elem_of.
Qed.

(** A replacement that leaves the text alone, and rows of which one has no body. *)
Definition sample_rows : list LogRow :=
  [ {| row_body := Some (lit "user 7 in"); row_severity := None; row_service := None |};
    {| row_body := None; row_severity := None; row_service := None |};
    {| row_body := Some (lit "user 8 in"); row_severity := None; row_service := Some (lit "api") |} ].

Definition log_miner : Config * Drain :=
  ({| maxNodeDepth := 2; simTh := num_div (num_of_Z 4) (num_of_Z 10); maxChildren := 100;
      extraDelimiters := []; paramStr := lit "<*>"; parametrizeNumericTokens := true |},
   {| rootNode := new_node; store := MapStore []; clustersCounter := 0; heap := [] |}).

Lemma log_patterns_account_witness :
  exists patterns n, clusterLogPatterns (fun _ _ content => content) log_config sample_rows 50 = Ok (patterns, n) /\
    StronglySorted (fun p q => p_count q <= p_count p) patterns /\
    (n <= 50 -> count_sum patterns = 2 /\
      forall body, body ∈ messages_of sample_rows -> exists p template, p ∈ patterns /\
        p_template p = join_text (lit " ") template /\
        covers log_miner.1 template
          (getContentAsTokens log_miner.1 (mask (fun _ _ content => content) log_config body))).
Proof.
  apply (log_patterns_account (fun _ _ content => content) log_config log_miner.1 log_miner.2 sample_rows 50).
  reflexivity.
Defined.
