(* ===== verification/Formula.v ===== *)
(** * Formulas over query results

    packages/query-engine/src/formula-results.ts: the lexer, the shunting-yard
    compiler and the stack evaluator of dashboard formulas, and
    [buildFormulaResults], which evaluates formulas over time series bucket by
    bucket. Stacks are lists with the top first. [String.prototype.toUpperCase]
    is a parameter. *)

From Stdlib Require Import Ascii String.
From stdpp Require Import prelude list.
From Stdlib Require Import ZArith Lia Floats.SpecFloat.
From S2P Require Import Prelude.
From S2P Require Import JsNum.
From S2P Require Import JsString.
From S2P Require Import IngestSha256.
From S2P Require Import IngestRegex.
From S2P Require Import JsUnits.

Open Scope Z_scope.
Local Open Scope maple_scope.

(** ** Numbers *)

Definition num_sub (x y : num) : num := SFsub num_prec num_emax x y.
Definition num_opp (x : num) : num := SFopp x.
Definition num_zero : num := num_of_Z 0.

(** The number closest to [a / b]. *)
Definition num_of_ratio (a b : positive) : num :=
  let '(q, e, l) := SFdiv_core_binary num_prec num_emax (Z.pos a) 0 (Z.pos b) 0 in
  binary_round_aux num_prec num_emax false q e l.

(** [Number.parseFloat] of decimal digits and a fraction. *)
Definition parse_decimal (digits fraction : text) : num :=
  match number_of (digits ++ fraction) with
  | Z.pos n => num_of_ratio n (Z.to_pos (10 ^ Z.of_nat (length fraction)))
  | _ => num_zero
  end.

(** ** Tokens *)

Inductive operator := OpAdd | OpSub | OpMul | OpDiv.

Inductive token :=
  | TNumber (value : num)
  | TIdentifier (value : text)
  | TOperator (value : operator)
  | TUnary
  | TLeft
  | TRight.

#[export] Instance operator_eq_dec : EqDecision operator.
Proof. solve_decision. Defined.

Definition is_letter (c : Z) : bool := ((65 <=? c) && (c <=? 90)) || ((97 <=? c) && (c <=? 122)).
Definition is_word (c : Z) : bool := is_letter c || is_decimal c || (c =? 95).

Fixpoint span_word (a : text) : text * text :=
  match a with
  | c :: a' => if is_word c then let '(w, r) := span_word a' in (c :: w, r) else ([], a)
  | [] => ([], [])
  end.

Definition operator_of (c : Z) : option operator :=
  if c =? 43 then Some OpAdd else if c =? 45 then Some OpSub
  else if c =? 42 then Some OpMul else if c =? 47 then Some OpDiv else None.

Section Formula.
(** [value.toUpperCase()] *)
Context (toUpperCase : text -> text).

(** One match of the sticky expression after white space: the token and the
    rest of the text. *)
Definition lex_token (a : text) : option (token * text) :=
  match a with
  | [] => None
  | c :: a' =>
      if is_letter c then
        let '(w, r) := span_word a in Some (TIdentifier (toUpperCase w), r)
      else if is_decimal c then
        let '(digits, r) := span_decimal a in
        match r with
        | 46 :: r' =>
            match span_decimal r' with
            | ([], _) => Some (TNumber (parse_decimal digits []), r)
            | (fraction, r'') => Some (TNumber (parse_decimal digits fraction), r'')
            end
        | _ => Some (TNumber (parse_decimal digits []), r)
        end
      else if c =? 46 then
        match span_decimal a' with
        | ([], _) => None
        | (fraction, r) => Some (TNumber (parse_decimal [] fraction), r)
        end
      else if c =? 40 then Some (TLeft, a')
      else if c =? 41 then Some (TRight, a')
      else match operator_of c with Some o => Some (TOperator o, a') | None => None end
  end.

(** The loop of [tokenizeFormula]; every match consumes a character. *)
Fixpoint tokenize_loop (fuel : nat) (a : text) (tokens : list token) : result text (list token) :=
  match fuel, a with
  | _, [] => Ok tokens
  | O, _ => Ok tokens
  | S fuel', _ =>
      match lex_token (skip_space a) with
      | Some (t, r) => tokenize_loop fuel' r (tokens ++ [t])
      | None =>
          match trim_text a with
          | [] => Ok tokens
          | remaining => Err (lit "Invalid token near: " ++ slice remaining 0 16)
          end
      end
  end.

Definition tokenizeFormula (expression : text) : result text (list token) :=
  tokenize_loop (length expression) expression [].

(** ** The compiler *)

Definition precedence (o : operator) : Z :=
  match o with OpAdd | OpSub => 1 | OpMul | OpDiv => 2 end.

Record Yard := {
  output : list token;
  operatorStack : list token;
  identifiers : list text;
  previousToken : option token }.

(** [identifiers.add(name)] on a [Set]. *)
Definition set_add (name : text) (l : list text) : list text :=
  if bool_decide (name ∈ l) then l else l ++ [name].

(** Popping to the output until a left parenthesis: whether one was found. *)
Fixpoint pop_to_left (stack out : list token) : bool * list token * list token :=
  match stack with
  | [] => (false, [], out)
  | TLeft :: stack' => (true, stack', out)
  | t :: stack' => pop_to_left stack' (out ++ [t])
  end.

Fixpoint emit_unary (stack out : list token) : list token * list token :=
  match stack with
  | TUnary :: stack' => emit_unary stack' (out ++ [TUnary])
  | _ => (stack, out)
  end.

(** The loop before a binary operator is pushed. *)
Fixpoint emit_operators (o : operator) (stack out : list token) : list token * list token :=
  match stack with
  | TUnary :: stack' => emit_operators o stack' (out ++ [TUnary])
  | TOperator top :: stack' =>
      if precedence top <? precedence o then (stack, out)
      else emit_operators o stack' (out ++ [TOperator top])
  | _ => (stack, out)
  end.

(** Where a minus is a sign. *)
Definition expects_operand (previous : option token) : bool :=
  match previous with None | Some (TOperator _) | Some TLeft => true | _ => false end.

Definition mismatched : text := lit "Mismatched parentheses in formula".

Definition yard_step (t : token) (y : Yard) : result text Yard :=
  match t with
  | TNumber _ =>
      Ok {| output := output y ++ [t]; operatorStack := operatorStack y;
            identifiers := identifiers y; previousToken := Some t |}
  | TIdentifier name =>
      Ok {| output := output y ++ [t]; operatorStack := operatorStack y;
            identifiers := set_add name (identifiers y); previousToken := Some t |}
  | TLeft =>
      Ok {| output := output y; operatorStack := TLeft :: operatorStack y;
            identifiers := identifiers y; previousToken := Some t |}
  | TRight =>
      let '(foundLeftParen, stack, out) := pop_to_left (operatorStack y) (output y) in
      let '(stack, out) := emit_unary stack out in
      if foundLeftParen then
        Ok {| output := out; operatorStack := stack; identifiers := identifiers y; previousToken := Some t |}
      else Err mismatched
  | TOperator o =>
      if bool_decide (o = OpSub) && expects_operand (previousToken y) then
        Ok {| output := output y; operatorStack := TUnary :: operatorStack y;
              identifiers := identifiers y; previousToken := Some t |}
      else
        let '(stack, out) := emit_operators o (operatorStack y) (output y) in
        Ok {| output := out; operatorStack := TOperator o :: stack;
              identifiers := identifiers y; previousToken := Some t |}
  | TUnary => Ok y
  end.

Fixpoint yard_loop (tokens : list token) (y : Yard) : result text Yard :=
  match tokens with
  | [] => Ok y
  | t :: tokens' => let! y := yard_step t y in yard_loop tokens' y
  end.

Fixpoint yard_finish (stack out : list token) : result text (list token) :=
  match stack with
  | [] => Ok out
  | (TLeft | TRight) :: _ => Err mismatched
  | t :: stack' => yard_finish stack' (out ++ [t])
  end.

Definition yard_start : Yard :=
  {| output := []; operatorStack := []; identifiers := []; previousToken := None |}.

(** The part of [compileFormula] after the lexer. *)
Definition compile_tokens (tokens : list token) : result text (list token * list text) :=
  let! y := yard_loop tokens yard_start in
  let! rpn := yard_finish (operatorStack y) (output y) in
  Ok (rpn, identifiers y).

Definition compileFormula (expression : text) : result text (list token * list text) :=
  match trim_text expression with
  | [] => Err (lit "Formula expression is empty")
  | trimmed =>
      let! tokens := tokenizeFormula trimmed in
      compile_tokens tokens
  end.

(** ** The evaluator *)

Inductive reason := division_by_zero | other.

Notation evaluated := (result (text * reason)).

Definition invalid_expression : text * reason := (lit "Invalid formula expression", other).

Definition apply_operator (o : operator) (l r : num) : evaluated num :=
  match o with
  | OpAdd => Ok (num_add l r)
  | OpSub => Ok (num_sub l r)
  | OpMul => Ok (num_mul l r)
  | OpDiv =>
      if num_eqb r num_zero then Err (lit "Division by zero in formula", division_by_zero)
      else Ok (num_div l r)
  end.

Definition lookup_variable (name : text) (variableValues : jsmap text num) : evaluated num :=
  match map_get name variableValues with
  | Some v => Ok v
  | None => Err (lit "Unknown reference: " ++ name, other)
  end.

Definition eval_step (variableValues : jsmap text num) (t : token) (stack : list num) : evaluated (list num) :=
  match t with
  | TNumber v => Ok (v :: stack)
  | TIdentifier name => let! v := lookup_variable name variableValues in Ok (v :: stack)
  | TUnary =>
      match stack with
      | operand :: stack' => Ok (num_opp operand :: stack')
      | [] => Err invalid_expression
      end
  | TOperator o =>
      match stack with
      | r :: l :: stack' => let! v := apply_operator o l r in Ok (v :: stack')
      | _ => Err invalid_expression
      end
  | TLeft | TRight => Err (lit "Invalid formula token", other)
  end.

Fixpoint eval_loop (variableValues : jsmap text num) (rpn : list token) (stack : list num) : evaluated (list num) :=
  match rpn with
  | [] => Ok stack
  | t :: rpn' => let! stack := eval_step variableValues t stack in eval_loop variableValues rpn' stack
  end.

(** The checks after the loop. *)
Definition finish_value (stack : list num) : evaluated num :=
  match stack with
  | [value] =>
      if num_is_finite value then Ok value else Err (lit "Formula result is not finite", other)
  | _ => Err invalid_expression
  end.

Definition evaluateCompiledFormula (rpn : list token) (variableValues : jsmap text num) : evaluated num :=
  let! stack := eval_loop variableValues rpn [] in
  finish_value stack.

(** ** Results *)

Record FormulaDraft := { fd_id : text; fd_name : text; fd_expression : text; fd_legend : text }.

(** The series of a point in property order. *)
Record TimeseriesPoint := { tp_bucket : text; tp_series : jsmap text num }.

Inductive run_status := run_success | run_error.

Record QueryRunResult := {
  qr_queryId : text;
  qr_queryName : text;
  qr_source : text;
  qr_status : run_status;
  qr_error : option text;
  qr_warnings : list text;
  qr_data : list TimeseriesPoint }.

Definition aggregate_point (p : TimeseriesPoint) : num :=
  foldl (fun sum e => num_add sum (if num_is_finite e.2 then e.2 else num_zero)) num_zero (tp_series p).

Definition aggregateByBucket (points : list TimeseriesPoint) : jsmap text num :=
  foldl (fun m p =>
    match tp_series p with
    | [] => m
    | _ => map_set (tp_bucket p) (aggregate_point p) m
    end) [] points.

Definition sort_text (l : list text) : list text := js_sort units_compare l.

Definition listIntersectedBuckets (bucketMaps : list (jsmap text num)) : list text :=
  match bucketMaps with
  | [] => []
  | first :: rest =>
      sort_text (List.filter (fun bucket => forallb (fun m => map_has bucket m) rest) (map_keys first))
  end.

Definition listUnionBuckets (bucketMaps : list (jsmap text num)) : list text :=
  sort_text (foldl (fun acc m => foldl (fun acc b => set_add b acc) acc (map_keys m)) [] bucketMaps).

Definition formatBucketWarning (why : text) (buckets : list text) : text :=
  match buckets with
  | [] => []
  | _ =>
      let n := Z.of_nat (length buckets) in
      let sample := take 3 buckets in
      let k := Z.of_nat (length sample) in
      let suffix :=
        if 3 <? n then
          lit " (examples: " ++ join_text (lit ", ") sample ++ lit ", +" ++ digits_text (n - k) ++ lit " more)"
        else
          lit " (bucket" ++ (if k =? 1 then [] else lit "s") ++ lit ": " ++ join_text (lit ", ") sample ++ lit ")" in
      lit "Skipped " ++ digits_text n ++ lit " " ++ (if n =? 1 then lit "bucket" else lit "buckets") ++
        lit " due to " ++ why ++ suffix
  end.

Definition warn (why : text) (buckets : list text) : list text :=
  match formatBucketWarning why buckets with [] => [] | w => [w] end.

Definition failed (f : FormulaDraft) (error : text) (warnings : list text) : QueryRunResult :=
  {| qr_queryId := fd_id f; qr_queryName := fd_name f; qr_source := lit "formula"; qr_status := run_error;
     qr_error := Some error; qr_warnings := warnings; qr_data := [] |}.

Definition seriesMap := jsmap text (jsmap text num).

(** The operand values of a bucket, or the error of the first missing one. *)
Fixpoint bucket_values (seriesByAlias : seriesMap) (bucket : text) (ids : list text) (values : jsmap text num) :
    result text (jsmap text num) :=
  match ids with
  | [] => Ok values
  | identifier :: ids' =>
      match map_get identifier seriesByAlias ≫= map_get bucket with
      | Some v => bucket_values seriesByAlias bucket ids' (map_set identifier v values)
      | None => Err (lit "Unknown reference: " ++ identifier ++ lit " at bucket " ++ bucket)
      end
  end.

Record Evaluation := {
  ev_data : list TimeseriesPoint;
  ev_divisionByZero : list text;
  ev_error : option text }.

(** The loop over the eligible buckets. *)
Fixpoint bucket_loop (seriesByAlias : seriesMap) (rpn : list token) (ids : list text) (seriesName : text)
    (buckets : list text) (acc : Evaluation) : Evaluation :=
  match buckets with
  | [] => acc
  | bucket :: buckets' =>
      let fail e := {| ev_data := ev_data acc; ev_divisionByZero := ev_divisionByZero acc; ev_error := Some e |} in
      match bucket_values seriesByAlias bucket ids [] with
      | Err e => fail e
      | Ok values =>
          match evaluateCompiledFormula rpn values with
          | Ok v =>
              bucket_loop seriesByAlias rpn ids seriesName buckets'
                {| ev_data := ev_data acc ++ [{| tp_bucket := bucket; tp_series := [(seriesName, v)] |}];
                   ev_divisionByZero := ev_divisionByZero acc; ev_error := None |}
          | Err (_, division_by_zero) =>
              bucket_loop seriesByAlias rpn ids seriesName buckets'
                {| ev_data := ev_data acc; ev_divisionByZero := ev_divisionByZero acc ++ [bucket]; ev_error := None |}
          | Err (e, other) => fail (e ++ lit " at bucket " ++ bucket)
          end
      end
  end.

(** The error of a formula without data: the operands without any bucket. *)
Definition no_data_error (seriesByAlias : seriesMap) (ids divisionByZero : list text) : text :=
  match divisionByZero with
  | _ :: _ => lit "Formula produced no valid buckets due to division by zero"
  | [] =>
      match List.filter (fun i => match map_get i seriesByAlias with Some (_ :: _) => false | _ => true end) ids with
      | [] => lit "Formula produced no valid buckets"
      | empty => lit "Formula produced no valid buckets " ++ [0x2014] ++ lit " no data for " ++ join_text (lit ", ") empty
      end
  end.

(** One formula: its result and the series it adds. *)
Definition evaluate_formula (allBuckets : list text) (seriesByAlias : seriesMap) (f : FormulaDraft) :
    QueryRunResult * seriesMap :=
  match compileFormula (fd_expression f) with
  | Err e => (failed f e [], seriesByAlias)
  | Ok (rpn, ids) =>
      match List.filter (fun i => negb (map_has i seriesByAlias)) ids with
      | (_ :: _) as missing =>
          (failed f (lit "Unknown references: " ++ join_text (lit ", ") missing) [], seriesByAlias)
      | [] =>
          match allBuckets with
          | [] => (failed f (lit "No successful query data available for formula execution") [], seriesByAlias)
          | _ =>
              let referenced := omap (fun i => map_get i seriesByAlias) ids in
              let eligible := match referenced with [] => allBuckets | _ => listIntersectedBuckets referenced end in
              let missingOperand :=
                match referenced with
                | [] => []
                | _ => List.filter (fun b => negb (bool_decide (b ∈ eligible))) (listUnionBuckets referenced)
                end in
              let seriesName := match trim_text (fd_legend f) with [] => fd_name f | legend => legend end in
              let ev := bucket_loop seriesByAlias rpn ids seriesName eligible
                          {| ev_data := []; ev_divisionByZero := []; ev_error := None |} in
              let warnings :=
                warn (lit "missing values for formula operands") missingOperand ++
                warn (lit "division by zero in formula") (ev_divisionByZero ev) in
              match ev_error ev with
              | Some e => (failed f e warnings, seriesByAlias)
              | None =>
                  match ev_data ev with
                  | [] => (failed f (no_data_error seriesByAlias ids (ev_divisionByZero ev)) warnings, seriesByAlias)
                  | _ =>
                      ({| qr_queryId := fd_id f; qr_queryName := fd_name f; qr_source := lit "formula";
                          qr_status := run_success; qr_error := None; qr_warnings := warnings;
                          qr_data := ev_data ev |},
                       map_set (toUpperCase (fd_name f)) (aggregateByBucket (ev_data ev)) seriesByAlias)
                  end
              end
          end
      end
  end.

Fixpoint formulas_loop (allBuckets : list text) (seriesByAlias : seriesMap) (formulas : list FormulaDraft) :
    list QueryRunResult :=
  match formulas with
  | [] => []
  | f :: formulas' =>
      let '(r, seriesByAlias) := evaluate_formula allBuckets seriesByAlias f in
      r :: formulas_loop allBuckets seriesByAlias formulas'
  end.

Definition series_of_results (queryResults : list QueryRunResult) : seriesMap :=
  foldl (fun m r =>
    match qr_status r with
    | run_success => map_set (toUpperCase (qr_queryName r)) (aggregateByBucket (qr_data r)) m
    | run_error => m
    end) [] queryResults.

Definition buildFormulaResults (formulas : list FormulaDraft) (queryResults : list QueryRunResult) :
    list QueryRunResult :=
  match formulas with
  | [] => []
  | _ =>
      let seriesByAlias := series_of_results queryResults in
      formulas_loop (listUnionBuckets (map_values seriesByAlias)) seriesByAlias formulas
  end.

End Formula.
