(* ===== verification/FormulaGrammar.v ===== *)
(** * Formulas: grammar and meaning

    The usual grammar of arithmetic (a sign binds tighter than a product, a
    product tighter than a sum, both associate to the left), expression trees
    with their value, and the proofs that the compiler and the evaluator of
    Formula.v implement them. *)

From Stdlib Require Import Ascii String.
From stdpp Require Import prelude list.
From Stdlib Require Import ZArith Lia ZifyBool.
From S2P Require Import Prelude.
From S2P Require Import JsNum.
From S2P Require Import IngestSha256.
From S2P Require Import IngestRegex.
From S2P Require Import JsUnits.
From S2P Require Import Formula.

Open Scope Z_scope.
Local Open Scope maple_scope.

(** ** Expressions *)

Inductive expr :=
  | ENumber (value : num)
  | EVariable (name : text)
  | ENegate (e : expr)
  | EBinary (o : operator) (a b : expr).

Fixpoint postfix (e : expr) : list token :=
  match e with
  | ENumber v => [TNumber v]
  | EVariable x => [TIdentifier x]
  | ENegate a => postfix a ++ [TUnary]
  | EBinary o a b => postfix a ++ postfix b ++ [TOperator o]
  end.

(** The value, operands from left to right. *)
Fixpoint value_of (values : jsmap text num) (e : expr) : result (text * reason) num :=
  match e with
  | ENumber v => Ok v
  | EVariable x => lookup_variable x values
  | ENegate a => let! v := value_of values a in Ok (num_opp v)
  | EBinary o a b =>
      let! x := value_of values a in
      let! y := value_of values b in
      apply_operator o x y
  end.

Fixpoint variables (e : expr) : list text :=
  match e with
  | ENumber _ => []
  | EVariable x => [x]
  | ENegate a => variables a
  | EBinary _ a b => variables a ++ variables b
  end.

(** ** Grammar *)

Inductive level := Factor | Term | Sum.

Inductive derives : level -> list token -> expr -> Prop :=
  | derives_number v : derives Factor [TNumber v] (ENumber v)
  | derives_variable x : derives Factor [TIdentifier x] (EVariable x)
  | derives_group ts e : derives Sum ts e -> derives Factor (TLeft :: ts ++ [TRight]) e
  | derives_sign ts e : derives Factor ts e -> derives Factor (TOperator OpSub :: ts) (ENegate e)
  | derives_factor ts e : derives Factor ts e -> derives Term ts e
  | derives_product o ts1 ts2 a b :
      precedence o = 2 -> derives Term ts1 a -> derives Factor ts2 b ->
      derives Term (ts1 ++ TOperator o :: ts2) (EBinary o a b)
  | derives_term ts e : derives Term ts e -> derives Sum ts e
  | derives_sum o ts1 ts2 a b :
      precedence o = 1 -> derives Sum ts1 a -> derives Term ts2 b ->
      derives Sum (ts1 ++ TOperator o :: ts2) (EBinary o a b).

(** The names of a token sequence, in the order a [Set] keeps them. *)
Definition names (ts : list token) (acc : list text) : list text :=
  foldl (fun acc t => match t with TIdentifier x => set_add x acc | _ => acc end) acc ts.

Lemma names_app ts1 ts2 acc : names (ts1 ++ ts2) acc = names ts2 (names ts1 acc).
Proof. apply foldl_app. Qed.

Lemma elem_of_set_add x y l : x ∈ set_add y l <-> x = y \/ x ∈ l.
Proof.
  unfold set_add. case_bool_decide; [naive_solver|]. rewrite elem_of_app, list_elem_of_singleton. naive_solver.
Qed.

Lemma derives_names l ts e : derives l ts e ->
  forall acc x, x ∈ names ts acc <-> x ∈ acc \/ x ∈ variables e.
Proof.
  induction 1 as [v|x|ts e _ IH|ts e _ IH|ts e _ IH|o ts1 ts2 a b _ _ IH1 _ IH2|ts e _ IH|o ts1 ts2 a b _ _ IH1 _ IH2];
    intros acc z; cbn [variables].
  - cbn. rewrite elem_of_nil. tauto.
  - cbn. rewrite elem_of_set_add, list_elem_of_singleton. tauto.
  - change (names (TLeft :: ts ++ [TRight]) acc) with (names (ts ++ [TRight]) acc). rewrite names_app. apply IH.
  - apply IH.
  - apply IH.
  - rewrite names_app. change (names (TOperator o :: ts2)) with (names ts2). rewrite IH2, IH1, elem_of_app. tauto.
  - apply IH.
  - rewrite names_app. change (names (TOperator o :: ts2)) with (names ts2). rewrite IH2, IH1, elem_of_app. tauto.
Qed.

(** ** The compiler on derivable sequences *)

Definition signs (j : nat) : list token := replicate j TUnary.

(** Where the pending operators of an expression of this level end. *)
Definition barrier (l : level) (stack : list token) : Prop :=
  match stack with
  | [] | TLeft :: _ => True
  | TUnary :: _ => False
  | TOperator o :: _ => match l with Factor => True | Term => precedence o = 1 | Sum => False end
  | _ => match l with Factor => True | _ => False end
  end.

(** Operators left on the stack by an expression of this level. *)
Definition pending (l : level) (t : token) : Prop :=
  t = TUnary \/ exists o, t = TOperator o /\
    match l with Factor => False | Term => precedence o = 2 | Sum => True end.

Lemma yard_loop_app ts1 ts2 y :
  yard_loop (ts1 ++ ts2) y = (let! y := yard_loop ts1 y in yard_loop ts2 y).
Proof.
  revert y. induction ts1 as [|t ts1 IH]; intros y; [done|]. cbn. destruct (yard_step t y); [|done]. apply IH.
Qed.

Lemma pop_to_left_pending l pend stack out :
  Forall (pending l) pend -> pop_to_left (pend ++ TLeft :: stack) out = (true, stack, out ++ pend).
Proof.
  intros Hp. revert out. induction Hp as [|t pend [->|(o & -> & _)] _ IH]; intros out; cbn;
    [by rewrite app_nil_r|rewrite IH..]; by rewrite <- app_assoc.
Qed.

Lemma emit_unary_signs l j stack out :
  barrier l stack -> emit_unary (signs j ++ stack) out = (stack, out ++ signs j).
Proof.
  intros Hb. revert out. induction j as [|j IH]; intros out; cbn.
  - rewrite app_nil_r. by destruct stack as [|[]].
  - unfold signs in IH. rewrite IH. by rewrite <- app_assoc.
Qed.

Lemma emit_operators_pending l o pend stack out :
  Forall (pending l) pend -> barrier l stack ->
  (l = Term /\ precedence o = 2 \/ l = Sum /\ precedence o = 1) ->
  emit_operators o (pend ++ stack) out = (stack, out ++ pend).
Proof.
  intros Hp Hb Hl. revert out. induction Hp as [|t pend [->|(o' & -> & Ho)] _ IH]; intros out;
    cbn [app emit_operators].
  - rewrite app_nil_r. destruct stack as [|[| |o'| | |]]; try done; cbn [emit_operators].
    destruct Hl as [[-> E]|[-> E]]; cbn [barrier] in Hb; [|done]. rewrite Hb, E. done.
  - rewrite IH. by rewrite <- app_assoc.
  - destruct (Z.ltb_spec (precedence o') (precedence o)) as [Hlt|_].
    + destruct Hl as [[-> E]|[-> E]]; [lia|]. rewrite E in Hlt. by destruct o'.
    + rewrite IH. by rewrite <- app_assoc.
Qed.

Lemma pending_mono l l' pend :
  (l = Factor \/ l' = Sum) -> Forall (pending l) pend -> Forall (pending l') pend.
Proof.
  intros Hl Hp. eapply Forall_impl; [exact Hp|]. intros t [->|(o & -> & Ho)]; [by left|right].
  exists o. split; [done|]. by destruct Hl as [-> | ->].
Qed.

(** A derivable sequence, read where an operand is expected, adds its postfix
    form to the output, up to operators still pending on the stack. Signs
    already waiting on the stack apply to the factor that follows them. *)
Definition compiles (l : level) (ts : list token) (e : expr) : Prop :=
  forall out j stack ids previous,
    (l = Factor \/ j = 0%nat) -> barrier l stack -> expects_operand previous = true ->
    exists body pend p,
      yard_loop ts {| output := out; operatorStack := signs j ++ stack; identifiers := ids; previousToken := previous |} =
        Ok {| output := out ++ body; operatorStack := pend ++ stack; identifiers := names ts ids; previousToken := p |} /\
      expects_operand p = false /\ body ++ pend = postfix e ++ signs j /\ Forall (pending l) pend.

Lemma compiles_operand t e :
  postfix e = [t] -> (exists v, t = TNumber v) \/ (exists x, t = TIdentifier x) -> compiles Factor [t] e.
Proof.
  intros He Ht out j stack ids previous _ _ _. exists [t], (signs j), (Some t).
  split; [by destruct Ht as [[v ->]|[x ->]]|]. split; [by destruct Ht as [[v ->]|[x ->]]|].
  rewrite He. split; [done|]. apply Forall_replicate. by left.
Qed.

Lemma compiles_group ts e : compiles Sum ts e -> compiles Factor (TLeft :: ts ++ [TRight]) e.
Proof.
  intros IH out j stack ids previous _ Hb _. cbn [yard_loop yard_step result_bind output operatorStack identifiers].
  destruct (IH out 0%nat (TLeft :: signs j ++ stack) ids (Some TLeft)) as (body & pend & p & E & Hp & Hbody & Hpend);
    [by right|done|done|].
  cbn [signs replicate app] in E. rewrite yard_loop_app, E.
  cbn [result_bind yard_loop yard_step output operatorStack identifiers].
  rewrite (pop_to_left_pending Sum) by done. rewrite (emit_unary_signs Factor) by done. cbn [result_bind].
  exists (body ++ pend ++ signs j), [], (Some TRight). split_and!; try done.
  - change (names (TLeft :: ts ++ [TRight]) ids) with (names (ts ++ [TRight]) ids). rewrite names_app.
    cbn [names foldl app]. by rewrite <- !app_assoc.
  - cbn [signs replicate] in Hbody. rewrite !app_nil_r in *. by rewrite app_assoc, Hbody.
Qed.

Lemma compiles_sign ts e : compiles Factor ts e -> compiles Factor (TOperator OpSub :: ts) (ENegate e).
Proof.
  intros IH out j stack ids previous _ Hb Hprev.
  cbn [yard_loop yard_step result_bind output operatorStack identifiers previousToken].
  rewrite Hprev. cbn [bool_decide andb result_bind].
  destruct (IH out (S j) stack ids (Some (TOperator OpSub))) as (body & pend & p & E & Hp & Hbody & Hpend);
    [by left|done|done|].
  exists body, pend, p. split; [exact E|]. split; [done|]. split; [|done].
  rewrite Hbody. cbn [postfix signs replicate]. by rewrite <- app_assoc.
Qed.

Lemma compiles_binary l l2 o ts1 ts2 a b :
  (l = Term /\ l2 = Factor /\ precedence o = 2 \/ l = Sum /\ l2 = Term /\ precedence o = 1) ->
  compiles l ts1 a -> compiles l2 ts2 b -> compiles l (ts1 ++ TOperator o :: ts2) (EBinary o a b).
Proof.
  intros Hl IH1 IH2 out j stack ids previous Hj Hb Hprev.
  assert (j = 0%nat) as -> by (destruct Hl as [(-> & _)|(-> & _)]; by destruct Hj).
  destruct (IH1 out 0%nat stack ids previous) as (body1 & pend1 & p1 & E1 & Hp1 & Hbody1 & Hpend1);
    [by right|done|done|].
  rewrite yard_loop_app, E1. cbn [result_bind yard_loop yard_step output operatorStack identifiers previousToken].
  rewrite Hp1, andb_false_r. rewrite (emit_operators_pending l) by naive_solver. cbn [result_bind].
  destruct (IH2 ((out ++ body1) ++ pend1) 0%nat (TOperator o :: stack) (names ts1 ids) (Some (TOperator o)))
    as (body2 & pend2 & p2 & E2 & Hp2 & Hbody2 & Hpend2);
    [by right|by destruct Hl as [(-> & -> & ?)|(-> & -> & ?)]|done|].
  cbn [signs replicate app] in E2. rewrite E2.
  exists (body1 ++ pend1 ++ body2), (pend2 ++ [TOperator o]), p2.
  cbn [signs replicate] in Hbody1, Hbody2 |- *. rewrite !app_nil_r in *. split_and!.
  - rewrite names_app. rewrite <- !app_assoc. done.
  - done.
  - cbn [postfix]. rewrite <- Hbody1, <- Hbody2, <- !app_assoc. done.
  - apply Forall_app. split.
    + eapply pending_mono; [|exact Hpend2]. destruct Hl as [(-> & -> & _)|(-> & -> & _)]; auto.
    + constructor; [|constructor]. right. exists o. split; [done|]. by destruct Hl as [(-> & _ & ?)|(-> & _)].
Qed.

Lemma derives_compiles l ts e : derives l ts e -> compiles l ts e.
Proof.
  induction 1 as [v|x|ts e _ IH|ts e _ IH|ts e _ IH|o ts1 ts2 a b Ho _ IH1 _ IH2|ts e _ IH|o ts1 ts2 a b Ho _ IH1 _ IH2].
  - apply compiles_operand; eauto.
  - apply compiles_operand; eauto.
  - by apply compiles_group.
  - by apply compiles_sign.
  - intros out j stack ids previous Hj Hb Hp. destruct Hj as [?| ->]; [done|].
    destruct (IH out 0%nat stack ids previous) as (body & pend & p & E & ? & ? & Hpend);
      [by left|by destruct stack as [|[| |o| | |]]|done|].
    exists body, pend, p. split_and!; try done. eapply pending_mono; [|exact Hpend]. by left.
  - apply compiles_binary with Factor; auto.
  - intros out j stack ids previous Hj Hb Hp. destruct Hj as [?| ->]; [done|].
    destruct (IH out 0%nat stack ids previous) as (body & pend & p & E & ? & ? & Hpend);
      [by right|by destruct stack as [|[| |o| | |]]|done|].
    exists body, pend, p. split_and!; try done. eapply pending_mono; [|exact Hpend]. by right.
  - apply compiles_binary with Term; auto.
Qed.

Lemma yard_finish_pending l pend out : Forall (pending l) pend -> yard_finish pend out = Ok (out ++ pend).
Proof.
  intros Hp. revert out. induction Hp as [|t pend [->|(o & -> & _)] _ IH]; intros out; cbn;
    [by rewrite app_nil_r|rewrite IH..]; by rewrite <- app_assoc.
Qed.

Lemma compile_tokens_postfix ts e : derives Sum ts e -> compile_tokens ts = Ok (postfix e, names ts []).
Proof.
  intros Hd. unfold compile_tokens.
  destruct (derives_compiles _ _ _ Hd [] 0%nat [] [] None) as (body & pend & p & E & _ & Hbody & Hpend);
    [by right|done|done|].
  cbn [signs replicate app] in E. unfold yard_start. rewrite E. cbn [result_bind output operatorStack identifiers].
  rewrite app_nil_r, (yard_finish_pending Sum) by done. cbn [result_bind app].
  cbn [signs replicate] in Hbody. rewrite app_nil_r in Hbody. by rewrite Hbody.
Qed.

(** ** The evaluator on postfix forms *)

Lemma eval_loop_postfix values e : forall rest stack,
  eval_loop values (postfix e ++ rest) stack =
  (let! v := value_of values e in eval_loop values rest (v :: stack)).
Proof.
  induction e as [v|x|a IH|o a IHa b IHb]; intros rest stack; cbn [postfix value_of].
  - done.
  - cbn. by destruct (lookup_variable x values).
  - rewrite <- app_assoc, IH. by destruct (value_of values a).
  - rewrite <- !app_assoc, IHa. destruct (value_of values a) as [x|]; [|done]. cbn [result_bind].
    rewrite IHb. destruct (value_of values b) as [y|]; [|done]. cbn. by destruct (apply_operator o x y).
Qed.

(** The value of a formula: that of its tree, when it is finite. *)
Definition formula_value (values : jsmap text num) (e : expr) : result (text * reason) num :=
  let! v := value_of values e in finish_value [v].

Lemma evaluate_postfix values e : evaluateCompiledFormula (postfix e) values = formula_value values e.
Proof.
  unfold evaluateCompiledFormula, formula_value. rewrite <- (app_nil_r (postfix e)), eval_loop_postfix.
  by destruct (value_of values e).
Qed.

(** ** The lexer on laid-out tokens *)

Section Lexer.
Context (toUpperCase : text -> text).

Definition all_decimal (d : text) : Prop := d <> [] /\ Forall (fun c => is_decimal c = true) d.

Inductive lexeme : text -> token -> Prop :=
  | lexeme_word c w : is_letter c = true -> Forall (fun c => is_word c = true) w ->
      lexeme (c :: w) (TIdentifier (toUpperCase (c :: w)))
  | lexeme_integer d : all_decimal d -> lexeme d (TNumber (parse_decimal d []))
  | lexeme_decimal d f : all_decimal d -> all_decimal f -> lexeme (d ++ 46 :: f) (TNumber (parse_decimal d f))
  | lexeme_fraction f : all_decimal f -> lexeme (46 :: f) (TNumber (parse_decimal [] f))
  | lexeme_operator c o : operator_of c = Some o -> lexeme [c] (TOperator o)
  | lexeme_left : lexeme [40] TLeft
  | lexeme_right : lexeme [41] TRight.

(** A lexeme whose first unit is [c] would swallow the unit [next]. *)
Definition joins (c next : Z) : bool :=
  if is_letter c then is_word next
  else if is_decimal c || (c =? 46) then is_decimal next || (next =? 46) else false.

Definition separate (w rest : text) : Prop :=
  match w, rest with c :: _, next :: _ => joins c next = false | _, _ => True end.

Definition blank (s : text) : Prop := Forall (fun c => is_space c = true) s.

(** Tokens with any white space between them. *)
Inductive layout : text -> list token -> Prop :=
  | layout_end s : blank s -> layout s []
  | layout_token s w t rest ts :
      blank s -> lexeme w t -> separate w rest -> layout rest ts -> layout (s ++ w ++ rest) (t :: ts).

Lemma is_letter_range c : is_letter c = true -> 65 <= c <= 122.
Proof. unfold is_letter. lia. Qed.

Lemma is_decimal_range c : is_decimal c = true -> 48 <= c <= 57.
Proof. unfold is_decimal. lia. Qed.

Lemma operator_of_range c o : operator_of c = Some o -> 42 <= c <= 47 /\ c <> 46 /\ c <> 44.
Proof. unfold operator_of. repeat case_match; try done; lia. Qed.

Lemma plain_not_space c : 33 <= c <= 126 -> is_space c = false.
Proof. unfold is_space. lia. Qed.

Lemma lexeme_head w t : lexeme w t -> exists c w', w = c :: w' /\ 33 <= c <= 126.
Proof.
  intros [c w' Hc _|d [Hne Hd]|d f [Hne Hd] _|f _|c o Hc| |]; try (do 2 eexists; split; [done|lia]).
  - apply is_letter_range in Hc. do 2 eexists. split; [done|lia].
  - destruct Hd as [|c d Hc Hd]; [done|]. apply is_decimal_range in Hc. do 2 eexists. split; [done|lia].
  - destruct Hd as [|c d Hc Hd]; [done|]. apply is_decimal_range in Hc. do 2 eexists. split; [done|lia].
  - apply operator_of_range in Hc. do 2 eexists. split; [done|lia].
Qed.

Lemma skip_blank s a : blank s -> skip_space (s ++ a) = skip_space a.
Proof. apply skip_space_app. Qed.

Lemma skip_lexeme w t rest : lexeme w t -> skip_space (w ++ rest) = w ++ rest.
Proof.
  intros (c & w' & -> & Hc)%lexeme_head. cbn. by rewrite plain_not_space.
Qed.

Lemma span_word_app w rest :
  Forall (fun c => is_word c = true) w -> (forall c r, rest = c :: r -> is_word c = false) ->
  span_word (w ++ rest) = (w, rest).
Proof.
  intros Hw Hr. induction Hw as [|c w Hc _ IH]; cbn.
  - destruct rest as [|c r]; [done|]. cbn. by rewrite (Hr c r).
  - by rewrite Hc, IH.
Qed.

Lemma span_decimal_rest d rest :
  Forall (fun c => is_decimal c = true) d -> (forall c r, rest = c :: r -> is_decimal c = false) ->
  span_decimal (d ++ rest) = (d, rest).
Proof.
  intros Hd Hr. induction Hd as [|c d Hc _ IH]; cbn.
  - destruct rest as [|c r]; [done|]. cbn. by rewrite (Hr c r).
  - by rewrite Hc, IH.
Qed.

Lemma decimal_not_letter c : is_decimal c = true -> is_letter c = false.
Proof. unfold is_decimal, is_letter. lia. Qed.

Lemma word_not_space c : is_word c = true -> is_space c = false.
Proof. unfold is_word, is_letter, is_decimal. intros Hc. apply plain_not_space. lia. Qed.

Lemma lexeme_last w c t : lexeme (w ++ [c]) t -> is_space c = false.
Proof.
  intros Hw. assert (Forall (fun c => is_space c = false) (w ++ [c])) as Hall.
  { assert (forall d, all_decimal d -> Forall (fun c => is_space c = false) d) as Hd.
    { intros d [_ Hd]. eapply Forall_impl; [exact Hd|]. intros n Hn. apply is_decimal_range in Hn.
      apply plain_not_space. lia. }
    destruct Hw as [c' w' Hc Hw|d Hd'|d f Hd' Hf|f Hf|c' o Hc| |].
    - constructor; [apply word_not_space; unfold is_word; by rewrite Hc|].
      eapply Forall_impl; [exact Hw|]. apply word_not_space.
    - by apply Hd.
    - apply Forall_app. split; [by apply Hd|]. constructor; [done|by apply Hd].
    - constructor; [done|by apply Hd].
    - constructor; [|done]. apply operator_of_range in Hc. apply plain_not_space. lia.
    - by constructor.
    - by constructor. }
  apply Forall_app in Hall as [_ Hc]. by inversion Hc.
Qed.

Lemma lex_token_lexeme w t rest : lexeme w t -> separate w rest -> lex_token toUpperCase (w ++ rest) = Some (t, rest).
Proof.
  intros Hw Hsep. destruct Hw as [c w Hc Hw|d [Hne Hd]|d f [Hne Hd] [Hnf Hf]|f [Hnf Hf]|c o Hc| |].
  - cbn [app lex_token]. rewrite Hc. change (c :: w ++ rest) with ((c :: w) ++ rest).
    rewrite span_word_app; [done| |].
    + constructor; [by unfold is_word; rewrite Hc|done].
    + intros n r ->. cbn in Hsep. unfold joins in Hsep. by rewrite Hc in Hsep.
  - destruct Hd as [|c d Hc Hd]; [done|]. cbn [app lex_token].
    assert (is_letter c = false) as -> by (apply is_decimal_range in Hc; unfold is_letter; lia).
    rewrite Hc. change (c :: d ++ rest) with ((c :: d) ++ rest).
    assert (forall n r, rest = n :: r -> is_decimal n = false /\ n <> 46) as Hr.
    { intros n r ->. cbn in Hsep. unfold joins in Hsep. rewrite Hc in Hsep.
      assert (is_letter c = false) as E by (apply is_decimal_range in Hc; unfold is_letter; lia).
      rewrite E in Hsep. cbn [orb] in Hsep. lia. }
    rewrite span_decimal_rest; [|by constructor|intros n r Hn; by apply (Hr n r)].
    destruct rest as [|n r]; [done|]. destruct (Hr n r eq_refl) as [_ Hdot].
    destruct n as [|[p|p|]|p]; try done. by repeat (destruct p as [p|p|]; try done).
  - destruct Hd as [|c d Hc Hd]; [done|]. rewrite <- app_assoc. cbn [app lex_token].
    rewrite (decimal_not_letter c Hc), Hc.
    change (c :: d ++ 46 :: f ++ rest) with ((c :: d) ++ 46 :: f ++ rest).
    rewrite span_decimal_rest; [|by constructor|by intros n r [= <- _]].
    rewrite span_decimal_rest; [by destruct f|done|]. intros n r ->. cbn in Hsep. unfold joins in Hsep.
    rewrite (decimal_not_letter c Hc), Hc in Hsep. cbn [orb] in Hsep. lia.
  - cbn [app lex_token]. change (is_letter 46) with false. change (is_decimal 46) with false. cbn [Z.eqb Pos.eqb].
    rewrite span_decimal_rest; [by destruct f|done|]. intros n r ->. cbn in Hsep. lia.
  - cbn [app lex_token]. pose proof (operator_of_range _ _ Hc).
    assert (is_letter c = false) as -> by (unfold is_letter; lia).
    assert (is_decimal c = false) as -> by (unfold is_decimal; lia).
    assert ((c =? 46) = false) as -> by lia. assert ((c =? 40) = false) as -> by lia.
    assert ((c =? 41) = false) as -> by lia. by rewrite Hc.
  - done.
  - done.
Qed.

Lemma tokenize_layout a ts fuel acc : layout a ts -> (length a <= fuel)%nat ->
  tokenize_loop toUpperCase fuel a acc = Ok (acc ++ ts).
Proof.
  intros Hl. revert fuel acc. induction Hl as [s Hs|s w t rest ts Hs Hw Hsep Hrest IH]; intros fuel acc Hfuel.
  - rewrite app_nil_r. destruct s as [|c s]; [by destruct fuel|]. destruct fuel as [|fuel]; [done|].
    assert (skip_space (c :: s) = []) as E by (rewrite <- (app_nil_r (c :: s)), skip_blank by done; done).
    cbn [tokenize_loop]. unfold trim_text. by rewrite E.
  - destruct (lexeme_head _ _ Hw) as (c & w' & Ew & _).
    destruct fuel as [|fuel]; [subst w; rewrite !length_app in Hfuel; cbn in Hfuel; lia|].
    cbn [tokenize_loop]. rewrite skip_blank, (skip_lexeme _ t), (lex_token_lexeme _ t) by done.
    destruct (s ++ w ++ rest) as [|c' a'] eqn:Ea; [by subst w; destruct s|]. rewrite <- Ea in Hfuel.
    rewrite IH; [by rewrite <- app_assoc|]. subst w. rewrite !length_app in Hfuel. cbn in Hfuel. lia.
Qed.

(** Trimming keeps the tokens. *)
Lemma trim_cut a s : blank s -> (forall c p, a = p ++ [c] -> is_space c = false) -> skip_space a = a ->
  trim_text (a ++ s) = a.
Proof.
  intros Hs Hlast Ha. destruct a as [|c a _] using rev_ind.
  - unfold trim_text. cbn [app]. rewrite <- (app_nil_r s), skip_blank by done. done.
  - unfold trim_text. assert (skip_space ((a ++ [c]) ++ s) = (a ++ [c]) ++ s) as ->.
    { destruct a as [|x a]; cbn in Ha |- *.
      - rewrite (Hlast c []) in * by done. done.
      - destruct (is_space x) eqn:E; [|done]. exfalso. rewrite ?E in Ha.
        destruct (skip_space_suffix (a ++ [c])) as (p & Hp & _).
        rewrite Ha in Hp. apply (f_equal length) in Hp.
        rewrite !length_app in Hp. cbn [length] in Hp. rewrite length_app in Hp. cbn [length] in Hp. lia. }
    rewrite rev_app_distr, skip_blank by by apply Forall_rev.
    rewrite rev_app_distr. cbn [rev app skip_space]. rewrite (Hlast c a) by done.
    by rewrite <- (rev_involutive (a ++ [c])), rev_app_distr.
Qed.

(** Leading white space goes with the first token. *)
Lemma layout_skip a ts : layout a ts -> layout (skip_space a) ts.
Proof.
  intros [s Hs|s w t rest ts' Hs Hw Hsep Hrest].
  - rewrite <- (app_nil_r s), skip_blank by done. apply layout_end. constructor.
  - rewrite skip_blank, (skip_lexeme _ t) by done. by apply (layout_token []); [constructor|..].
Qed.

Lemma layout_cut a ts : layout a ts ->
  exists a' s', a = a' ++ s' /\ blank s' /\ layout a' ts /\
    (forall c p, a' = p ++ [c] -> is_space c = false) /\ (ts <> [] -> a' <> []).
Proof.
  induction 1 as [s Hs|s w t rest ts Hs Hw Hsep Hrest (a' & s' & -> & Hs' & Hl & Hlast & Hne)].
  { exists [], s. split_and!; [done|done|apply layout_end; constructor|intros c p; by destruct p|done]. }
  exists (s ++ w ++ a'), s'. rewrite <- !app_assoc. split_and!; try done.
  - constructor; try done. destruct w as [|c w]; [done|]. by destruct a' as [|n a'].
  - intros c p E. destruct a' as [|n a' _] using rev_ind.
    + rewrite app_nil_r in E. destruct w as [|c' w _] using rev_ind;
        [by destruct (lexeme_head _ _ Hw) as (? & ? & ? & _)|].
      rewrite app_assoc in E. apply app_inj_tail in E as [_ <-]. by apply (lexeme_last w c' t).
    + rewrite !app_assoc in E. apply app_inj_tail in E as [_ <-]. by apply (Hlast n a').
  - intros _ E. destruct (lexeme_head _ _ Hw) as (? & ? & -> & _). by destruct s.
Qed.


Lemma trim_layout a ts : layout a ts -> ts <> [] -> layout (trim_text a) ts /\ trim_text a <> [].
Proof.
  intros Hl Hne. destruct (layout_cut _ _ (layout_skip _ _ Hl)) as (a' & s' & E & Hs' & Hl' & Hlast & Hne').
  assert (skip_space a' = a') as Ha'.
  { destruct a' as [|c a']; [by destruct (Hne' Hne)|]. cbn. destruct (is_space c) eqn:Ec; [|done].
    by rewrite (skip_space_head c a (a' ++ s') E) in Ec. }
  assert (trim_text a = trim_text (skip_space a)) as -> by (unfold trim_text; by rewrite skip_space_idem).
  rewrite E, trim_cut by done. split; [done|]. by apply Hne'.
Qed.

End Lexer.
