(* ===== verification/FormulaResults.v ===== *)
(** * Formulas: the theorems

    A formula text compiles to its expression, and the points of a formula
    result are the values of that expression at the buckets where every operand
    has a value. *)

From Stdlib Require Import Ascii String.
From Stdlib Require Import ZArith Lia Sorting.Sorted.
From stdpp Require Import prelude list.
From S2P Require Import Prelude.
From S2P Require Import JsNum.
From S2P Require Import JsString.
From S2P Require Import IngestSha256.
From S2P Require Import IngestRegex.
From S2P Require Import JsUnits.
From S2P Require Import Formula.
From S2P Require Import FormulaGrammar.

Open Scope Z_scope.
Local Open Scope maple_scope.

Section Results.
Context (toUpperCase : text -> text).

Lemma postfix_not_nil e : postfix e <> [].
Proof.
  destruct e; cbn; try done; intros E; repeat (apply app_nil in E as [_ E]); done.
Qed.

(** A text written with any white space between its tokens compiles to the
    postfix form of the expression the grammar gives its tokens. *)
Lemma compile_layout a ts e :
  layout toUpperCase a ts -> derives Sum ts e -> compileFormula toUpperCase a = Ok (postfix e, names ts []).
Proof.
  intros Hl Hd. assert (ts <> []) as Hne.
  { intros ->. assert (compile_tokens [] = Ok ([], [])) as E by done.
    rewrite (compile_tokens_postfix _ _ Hd) in E. injection E as E.
    by destruct (postfix_not_nil e). }
  destruct (trim_layout _ _ _ Hl Hne) as [Hl' Hne']. unfold compileFormula.
  destruct (trim_text a) as [|c a'] eqn:Ea; [done|]. rewrite <- Ea in *.
  unfold tokenizeFormula. rewrite (tokenize_layout _ _ ts) by done. cbn [result_bind app].
  by apply compile_tokens_postfix.
Qed.

End Results.

(** ** The buckets of a formula *)

Lemma units_compare_comparator : Comparator units_compare.
Proof. split; [apply units_compare_total|apply units_compare_trans]. Qed.

Lemma sort_text_sorted l : StronglySorted (fun a b => units_compare a b <= 0) (sort_text l).
Proof. apply (@js_sort_sorted _ units_compare units_compare_comparator). Qed.

Lemma map_has_keys {V} (m : jsmap text V) k : map_has k m = true <-> k ∈ map_keys m.
Proof. unfold map_has. by rewrite bool_decide_eq_true, map_get_Some_keys. Qed.

Lemma elem_of_intersected b maps : maps <> [] ->
  b ∈ listIntersectedBuckets maps <-> forall m, m ∈ maps -> is_Some (map_get b m).
Proof.
  destruct maps as [|first rest]; [done|]. intros _. unfold listIntersectedBuckets, sort_text.
  rewrite elem_of_js_sort, list_elem_of_In, List.filter_In, <- list_elem_of_In.
  rewrite <- map_get_Some_keys, List.forallb_forall. setoid_rewrite <- list_elem_of_In.
  setoid_rewrite map_has_keys. setoid_rewrite <- map_get_Some_keys. setoid_rewrite elem_of_cons. naive_solver.
Qed.

(** The operand values of a bucket. *)
Definition agrees (series : seriesMap) (bucket : text) (xs : list text) (values : jsmap text num) : Prop :=
  forall x, x ∈ xs -> exists v, map_get x values = Some v /\ map_get x series ≫= map_get bucket = Some v.

Lemma bucket_values_spec series bucket ids : forall values,
  (forall x v, map_get x values = Some v -> map_get x series ≫= map_get bucket = Some v) ->
  match bucket_values series bucket ids values with
  | Ok values' =>
      (forall x v, map_get x values = Some v -> map_get x values' = Some v) /\
      agrees series bucket ids values'
  | Err _ => exists x, x ∈ ids /\ map_get x series ≫= map_get bucket = None
  end.
Proof.
  induction ids as [|i ids IH]; intros values Hv; cbn [bucket_values].
  { split; [done|]. by intros x ?%elem_of_nil. }
  destruct (map_get i series ≫= map_get bucket) as [v|] eqn:E.
  2:{ exists i. split; [apply list_elem_of_here|done]. }
  assert (forall x w, map_get x (map_set i v values) = Some w -> map_get x series ≫= map_get bucket = Some w) as Hv'.
  { intros x w. rewrite map_get_set. case_decide; [by intros [= <-]; subst|apply Hv]. }
  specialize (IH _ Hv'). destruct (bucket_values _ _ _ _) as [values'|].
  - destruct IH as [Hkeep Hag]. split.
    + intros x w Hx. apply Hkeep. rewrite map_get_set. case_decide; [subst|done].
      apply Hv in Hx. congruence.
    + intros x [->|Hx]%elem_of_cons; [|by apply Hag]. exists v. split; [|done].
      apply Hkeep. by rewrite map_get_set_eq.
  - destruct IH as (x & Hx & ?). exists x. split; [by right|done].
Qed.

(** The value of an expression depends on its variables only. *)
Lemma value_of_ext e values values' :
  (forall x, x ∈ variables e -> map_get x values = map_get x values') -> value_of values e = value_of values' e.
Proof.
  induction e as [v|x|a IH|o a IHa b IHb]; cbn [variables value_of]; intros Hx.
  - done.
  - unfold lookup_variable. rewrite (Hx x); [done|apply list_elem_of_here].
  - by rewrite IH.
  - rewrite IHa, IHb; [done|..]; intros x ?; apply Hx, elem_of_app; auto.
Qed.

Section Loop.
Context (series : seriesMap) (rpn : list token) (ids : list text) (seriesName : text).

(** The value computed at a bucket. *)
Definition bucket_value (bucket : text) : option num :=
  match bucket_values series bucket ids [] with
  | Ok values => match evaluateCompiledFormula rpn values with Ok v => Some v | Err _ => None end
  | Err _ => None
  end.

Definition point_at (bucket : text) : option TimeseriesPoint :=
  option_map (fun v => {| tp_bucket := bucket; tp_series := [(seriesName, v)] |}) (bucket_value bucket).

(** A loop that ends without an error has kept the buckets with a value and
    dropped only divisions by zero. *)
Lemma bucket_loop_ok buckets : forall acc,
  ev_error (bucket_loop series rpn ids seriesName buckets acc) = None ->
  ev_data (bucket_loop series rpn ids seriesName buckets acc) = ev_data acc ++ omap point_at buckets /\
  forall b, b ∈ buckets -> exists values, bucket_values series b ids [] = Ok values /\
    match evaluateCompiledFormula rpn values with Ok _ => True | Err e => e.2 = division_by_zero end.
Proof.
  induction buckets as [|b buckets IH]; intros acc Hok; cbn [bucket_loop] in *.
  { rewrite app_nil_r. split; [done|]. by intros b ?%elem_of_nil. }
  cbn [omap list_omap]. unfold point_at at 1, bucket_value.
  destruct (bucket_values series b ids []) as [values|] eqn:Ev; [|done].
  destruct (evaluateCompiledFormula rpn values) as [v|[e []]] eqn:Ee; [| |done].
  - destruct (IH _ Hok) as [-> Hall]. cbn [ev_data option_map]. rewrite <- app_assoc. split; [done|].
    intros b' [->|Hb]%elem_of_cons; [|by apply Hall]. exists values. by rewrite Ee.
  - destruct (IH _ Hok) as [-> Hall]. cbn [ev_data option_map]. split; [done|].
    intros b' [->|Hb]%elem_of_cons; [|by apply Hall]. exists values. by rewrite Ee.
Qed.
End Loop.

(** What a successful formula went through. *)
Lemma evaluate_formula_success toUpperCase all series f r series' rpn ids :
  compileFormula toUpperCase (fd_expression f) = Ok (rpn, ids) ->
  evaluate_formula toUpperCase all series f = (r, series') -> qr_status r = run_success ->
  (forall x, x ∈ ids -> is_Some (map_get x series)) /\
  let referenced := omap (fun i => map_get i series) ids in
  let eligible := match referenced with [] => all | _ => listIntersectedBuckets referenced end in
  let seriesName := match trim_text (fd_legend f) with [] => fd_name f | legend => legend end in
  let ev := bucket_loop series rpn ids seriesName eligible
              {| ev_data := []; ev_divisionByZero := []; ev_error := None |} in
  ev_error ev = None /\ qr_data r = ev_data ev /\ qr_data r <> [] /\
  series' = map_set (toUpperCase (fd_name f)) (aggregateByBucket (qr_data r)) series.
Proof.
  intros Ec. unfold evaluate_formula. rewrite Ec.
  destruct (List.filter _ ids) as [|m missing] eqn:Em; [|by intros [= <- <-]].
  destruct all as [|b0 all]; [by intros [= <- <-]|].
  set (ev := bucket_loop _ _ _ _ _ _). intros Hr Hs. split.
  { intros x Hx. destruct (map_get x series) eqn:E; [by eexists|].
    assert (x ∈ List.filter (fun i => negb (map_has i series)) ids) as Hin.
    { apply list_elem_of_In, List.filter_In. split; [by apply list_elem_of_In|]. unfold map_has.
      rewrite E. by rewrite bool_decide_eq_false_2 by apply is_Some_None. }
    rewrite Em in Hin. by apply elem_of_nil in Hin. }
  cbn zeta. fold ev. destruct (ev_error ev); [by injection Hr as <- _|].
  destruct (ev_data ev) as [|p ps] eqn:Ed; [by injection Hr as <- _|].
  injection Hr as <- <-. cbn [qr_data]. by split_and!.
Qed.

(** ** The points of a formula *)

Section Points.
Context (series : seriesMap) (e : expr) (ids : list text) (seriesName : text).
Hypothesis ids_variables : forall x, x ∈ ids <-> x ∈ variables e.
Hypothesis present : forall x, x ∈ ids -> is_Some (map_get x series).
Hypothesis some_variable : variables e <> [].

Definition operands : list (jsmap text num) := omap (fun i => map_get i series) ids.

Lemma operands_not_nil : operands <> [].
Proof using ids_variables present some_variable.
  destruct (variables e) as [|x xs] eqn:Ev; [done|].
  assert (x ∈ ids) as Hx by (apply ids_variables; apply list_elem_of_here).
  destruct (present x Hx) as [m Hm]. intros E. assert (m ∈ operands) as Hin.
  { apply list_elem_of_omap. by exists x. }
  rewrite E in Hin. by apply elem_of_nil in Hin.
Qed.

(** The eligible buckets are those every variable has a value at. *)
Lemma eligible_iff b :
  b ∈ listIntersectedBuckets operands <-> forall x, x ∈ variables e -> is_Some (map_get x series ≫= map_get b).
Proof using ids_variables present some_variable.
  rewrite elem_of_intersected by apply operands_not_nil. unfold operands. split.
  - intros H x Hx%ids_variables. destruct (present x Hx) as [m Hm]. rewrite Hm. cbn. apply H.
    apply list_elem_of_omap. by exists x.
  - intros H m (x & Hx & Hm)%list_elem_of_omap. specialize (H x (proj1 (ids_variables x) Hx)). by rewrite Hm in H.
Qed.

Lemma bucket_values_agree b values :
  bucket_values series b ids [] = Ok values -> agrees series b (variables e) values.
Proof using ids_variables.
  intros E. pose proof (bucket_values_spec series b ids []) as H. rewrite E in H.
  intros x Hx. apply H; [done|]. by apply ids_variables.
Qed.

Lemma agrees_value b values values' :
  agrees series b (variables e) values -> agrees series b (variables e) values' ->
  formula_value values e = formula_value values' e.
Proof using.
  intros H H'. unfold formula_value. f_equal. apply value_of_ext. intros x Hx.
  destruct (H x Hx) as (v & -> & H1). destruct (H' x Hx) as (w & -> & H2). congruence.
Qed.

Definition points (buckets : list text) : list TimeseriesPoint :=
  omap (point_at series (postfix e) ids seriesName) buckets.

Lemma elem_of_points p buckets : p ∈ points buckets <->
  exists b values v, b ∈ buckets /\ bucket_values series b ids [] = Ok values /\
    formula_value values e = Ok v /\ p = {| tp_bucket := b; tp_series := [(seriesName, v)] |}.
Proof using.
  unfold points. rewrite list_elem_of_omap. unfold point_at, bucket_value. split.
  - intros (b & Hb & Hp). destruct (bucket_values _ _ _ _) as [values|] eqn:Ev; [|done].
    rewrite evaluate_postfix in Hp. destruct (formula_value values e) as [v|] eqn:Ef; [|done].
    injection Hp as <-. by exists b, values, v.
  - intros (b & values & v & Hb & Ev & Ef & ->). exists b. split; [done|]. by rewrite Ev, evaluate_postfix, Ef.
Qed.

Lemma points_sorted buckets :
  StronglySorted (fun a b => units_compare a b <= 0) buckets ->
  StronglySorted (fun p q => units_compare (tp_bucket p) (tp_bucket q) <= 0) (points buckets).
Proof using.
  induction 1 as [|b bs Hbs IH Hb]; cbn; [constructor|].
  destruct (point_at _ _ _ _ b) as [p|] eqn:E; [|done]. constructor; [done|].
  assert (forall b p, point_at series (postfix e) ids seriesName b = Some p -> tp_bucket p = b) as Hbucket.
  { intros b' q Hq. unfold point_at in Hq. destruct (bucket_value _ _ _ _); [|done]. by injection Hq as <-. }
  apply Forall_forall. intros q (b' & Hb' & Hq)%list_elem_of_omap.
  rewrite (Hbucket _ _ E), (Hbucket _ _ Hq). exact (proj1 (Forall_forall _ _) Hb b' Hb').
Qed.
End Points.



(** The points of a successful formula are exact. They are ordered by
    bucket; a bucket has a point if and only if every variable of the expression
    has a value there and the expression evaluates, and the point holds that
    value; every other bucket common to the operands is a division by zero. The
    result joins the series later formulas may refer to. *)
Theorem formula_points_exact toUpperCase all series f r series' ts e :
  layout toUpperCase (fd_expression f) ts -> derives Sum ts e -> variables e <> [] ->
  evaluate_formula toUpperCase all series f = (r, series') -> qr_status r = run_success ->
  StronglySorted (fun p q => units_compare (tp_bucket p) (tp_bucket q) <= 0) (qr_data r) /\
  (forall p, p ∈ qr_data r -> exists values v, agrees series (tp_bucket p) (variables e) values /\
     formula_value values e = Ok v /\ List.map snd (tp_series p) = [v]) /\
  (forall b values, agrees series b (variables e) values ->
     match formula_value values e with
     | Ok v => exists p, p ∈ qr_data r /\ tp_bucket p = b /\ List.map snd (tp_series p) = [v]
     | Err err => err.2 = division_by_zero
     end) /\
  series' = map_set (toUpperCase (fd_name f)) (aggregateByBucket (qr_data r)) series.
Proof.
  intros Hl Hd Hvars Hr Hs. pose proof (compile_layout _ _ _ _ Hl Hd) as Ec. set (ids := names ts []) in *.
  assert (forall x, x ∈ ids <-> x ∈ variables e) as Hids
    by (intros x; unfold ids; rewrite (derives_names _ _ _ Hd), elem_of_nil; tauto).
  destruct (evaluate_formula_success _ _ _ _ _ _ _ _ Ec Hr Hs) as (Hpresent & Herr & Hdata & _ & ->).
  set (seriesName := match trim_text (fd_legend f) with [] => fd_name f | legend => legend end) in *.
  fold (operands series ids) in *. pose proof (operands_not_nil series e ids Hids Hpresent Hvars) as Hne.
  replace (match operands series ids with [] => all | _ => listIntersectedBuckets (operands series ids) end)
    with (listIntersectedBuckets (operands series ids)) in * by (by destruct (operands series ids)).
  destruct (bucket_loop_ok series (postfix e) ids seriesName _ _ Herr) as [Hpoints Hall].
  rewrite Hpoints in Hdata. cbn [ev_data app] in Hdata. clear Hpoints Herr. rewrite Hdata.
  fold (points series e ids seriesName (listIntersectedBuckets (operands series ids))).
  split; [|split; [|split; [|done]]].
  - apply points_sorted. destruct (operands series ids); [done|]. apply sort_text_sorted.
  - intros p (b & values & v & _ & Ev & Ef & ->)%elem_of_points. exists values, v.
    split; [by apply (bucket_values_agree series e ids)|by split].
  - intros b values Hag. assert (b ∈ listIntersectedBuckets (operands series ids)) as Hb.
    { apply (eligible_iff series e); [done..|]. intros x Hx. destruct (Hag x Hx) as (v & _ & ->). by eexists. }
    destruct (Hall b Hb) as (values' & Ev & Hev).
    pose proof (bucket_values_agree series e ids Hids _ _ Ev) as Hag'.
    rewrite evaluate_postfix, (agrees_value series e b values' values) in Hev by done.
    destruct (formula_value values e) as [v|] eqn:Ef; [|done].
    exists {| tp_bucket := b; tp_series := [(seriesName, v)] |}. split; [|by split].
    apply elem_of_points. exists b, values', v. split_and!; try done.
    by rewrite (agrees_value series e b values' values).
Qed.

(** ** Concrete formulas *)

(** [toUpperCase] on ASCII text. *)
Definition ascii_upper (a : text) : text :=
  List.map (fun c => if (97 <=? c) && (c <=? 122) then c - 32 else c) a.

Definition ratio_text : text := lit "a /(b-2)".

Definition ratio_tokens : list token :=
  [TIdentifier (lit "A"); TOperator OpDiv; TLeft; TIdentifier (lit "B"); TOperator OpSub; TNumber (num_of_Z 2); TRight].

Definition ratio : expr :=
  EBinary OpDiv (EVariable (lit "A")) (EBinary OpSub (EVariable (lit "B")) (ENumber (num_of_Z 2))).

Lemma blank_check s : forallb is_space s = true -> blank s.
Proof. rewrite List.forallb_forall. intros H. apply Forall_forall. intros c Hc. by apply H, list_elem_of_In. Qed.

Lemma decimal_check d : negb (bool_decide (d = [])) && forallb is_decimal d = true -> all_decimal d.
Proof.
  intros [Hne Hd]%andb_true_iff. split; [by destruct d|]. rewrite List.forallb_forall in Hd.
  apply Forall_forall. intros c Hc. by apply Hd, list_elem_of_In.
Qed.

Lemma ratio_layout : layout ascii_upper ratio_text ratio_tokens.
Proof.
  apply (layout_token _ [] (lit "a")); [by apply blank_check|by apply (lexeme_word ascii_upper 97 [])|reflexivity|].
  apply (layout_token _ (lit " ") (lit "/")); [by apply blank_check|by apply lexeme_operator|reflexivity|].
  apply (layout_token _ [] (lit "(")); [by apply blank_check|apply lexeme_left|reflexivity|].
  apply (layout_token _ [] (lit "b")); [by apply blank_check|by apply (lexeme_word ascii_upper 98 [])|reflexivity|].
  apply (layout_token _ [] (lit "-")); [by apply blank_check|by apply lexeme_operator|reflexivity|].
  apply (layout_token _ [] (lit "2")); [by apply blank_check| |reflexivity|].
  { change (num_of_Z 2) with (parse_decimal (lit "2") []). apply lexeme_integer. by apply decimal_check. }
  apply (layout_token _ [] (lit ")") _ []); [by apply blank_check|apply lexeme_right|done|].
  apply layout_end. by apply blank_check.
Qed.

Lemma ratio_derives : derives Sum ratio_tokens ratio.
Proof.
  apply derives_term. apply (derives_product OpDiv [TIdentifier (lit "A")]); [done|repeat constructor|].
  apply (derives_group [TIdentifier (lit "B"); TOperator OpSub; TNumber (num_of_Z 2)]).
  apply (derives_sum OpSub [TIdentifier (lit "B")]); [done|repeat constructor|repeat constructor].
Qed.


Definition ratio_series : seriesMap :=
  [(lit "A", [(lit "t1", num_of_Z 6); (lit "t2", num_of_Z 1); (lit "t3", num_of_Z 1)]);
   (lit "B", [(lit "t1", num_of_Z 5); (lit "t2", num_of_Z 2)])].

Definition ratio_draft : FormulaDraft :=
  {| fd_id := lit "f1"; fd_name := lit "C"; fd_expression := ratio_text; fd_legend := [] |}.

Definition ratio_result : QueryRunResult * seriesMap :=
  evaluate_formula ascii_upper [lit "t1"; lit "t2"; lit "t3"] ratio_series ratio_draft.

Lemma formula_points_exact_witness :
  qr_data ratio_result.1 = [{| tp_bucket := lit "t1"; tp_series := [(lit "C", num_of_Z 2)] |}] /\
  StronglySorted (fun p q => units_compare (tp_bucket p) (tp_bucket q) <= 0) (qr_data ratio_result.1).
Proof.
  split; [reflexivity|].
  apply (formula_points_exact ascii_upper [lit "t1"; lit "t2"; lit "t3"] ratio_series ratio_draft
    ratio_result.1 ratio_result.2 ratio_tokens ratio ratio_layout ratio_derives); [discriminate|reflexivity|reflexivity].
Defined.

(** ** Texts outside the grammar

    The compiler does not check where operands stand, so a text whose operands
    and operators happen to balance is accepted in any order. *)

Lemma derives_not_nil l ts e : derives l ts e -> ts <> [].
Proof. induction 1; try done; by destruct ts1. Qed.

Lemma derives_last l ts e : derives l ts e -> forall o, last ts <> Some (TOperator o).
Proof.
  induction 1 as [v|x|ts e _ IH|ts e H IH|ts e _ IH|o ts1 ts2 a b _ _ _ H IH2|ts e _ IH|o ts1 ts2 a b _ _ _ H IH2];
    intros o'; try done.
  - by rewrite app_comm_cons, last_snoc.
  - rewrite last_cons. destruct (last ts) eqn:E; [apply IH|].
    apply last_None in E as ->. by apply derives_not_nil in H.
  - rewrite last_app_cons, last_cons. destruct (last ts2) eqn:E; [apply IH2|].
    apply last_None in E as ->. by apply derives_not_nil in H.
  - rewrite last_app_cons, last_cons. destruct (last ts2) eqn:E; [apply IH2|].
    apply last_None in E as ->. by apply derives_not_nil in H.
Qed.

(** [A B +] is no formula, but it is accepted and evaluated as [A + B]. *)
Lemma postfix_order_accepted :
  tokenizeFormula ascii_upper (lit "A B +") = Ok [TIdentifier (lit "A"); TIdentifier (lit "B"); TOperator OpAdd] /\
  (forall e, ~ derives Sum [TIdentifier (lit "A"); TIdentifier (lit "B"); TOperator OpAdd] e) /\
  exists rpn ids, compileFormula ascii_upper (lit "A B +") = Ok (rpn, ids) /\
    evaluateCompiledFormula rpn [(lit "A", num_of_Z 3); (lit "B", num_of_Z 4)] = Ok (num_of_Z 7).
Proof.
  split; [reflexivity|]. split.
  - intros e Hd. by apply (derives_last _ _ _ Hd OpAdd).
  - do 2 eexists. split; reflexivity.
Qed.
