(* ===== verification/SafeAddress.v ===== *)
(** * External addresses

    The address rules of lib/safe-fetch/src/index.ts: which host names, IPv4 and
    IPv6 literals a request of Maple must not reach, and [parseExternalUrl]. Texts
    are lists of UTF-16 code units. The URL parser of the runtime is the interface
    [UrlApi]; [toLowerCase] is an argument. *)

From Stdlib Require Import Ascii String.
From stdpp Require Import prelude list.
From Stdlib Require Import ZArith Lia.
From S2P Require Import Prelude.
From S2P Require Import JsString.
From S2P Require Import IngestSha256.
From S2P Require Import IngestRegex.
From S2P Require Import JsUnits.

Open Scope Z_scope.
Local Open Scope maple_scope.

(** ** Patterns *)

(** The regular expressions of the file, anchored at the start of the text. *)
Inductive pattern :=
  | PUnit (c : Z)
  | PRange (lo hi : Z)
  | PEnd
  | PSeq (p q : pattern)
  | PAlt (p q : pattern).

(** Every text a match may leave, so every way the engine may backtrack. *)
Fixpoint rests (p : pattern) (a : text) : list text :=
  match p with
  | PUnit c => match a with c' :: a' => if c' =? c then [a'] else [] | [] => [] end
  | PRange lo hi => match a with c' :: a' => if (lo <=? c') && (c' <=? hi) then [a'] else [] | [] => [] end
  | PEnd => match a with [] => [[]] | _ => [] end
  | PSeq p q => concat (List.map (rests q) (rests p a))
  | PAlt p q => rests p a ++ rests q a
  end.

(** [re.test(a)] *)
Definition test (p : pattern) (a : text) : bool := match rests p a with [] => false | _ => true end.

Fixpoint PText (a : text) (p : pattern) : pattern :=
  match a with [] => p | c :: a' => PSeq (PUnit c) (PText a' p) end.

Definition PDigit : pattern := PRange 48 57.
Definition PDot : pattern := PUnit 46.
(** A literal text, then a dot. *)
Definition PDotted (s : string) : pattern := PText (lit s) PDot.

(** ** Host names *)

Definition BLOCKED_HOSTNAMES : list text :=
  List.map lit ["localhost"; "localhost.localdomain"; "ip6-localhost"; "ip6-loopback"; "broadcasthost";
                "metadata"; "metadata.google.internal"; "metadata.goog"; "metadata.azure.com"]%string.

Definition BLOCKED_HOSTNAME_SUFFIXES : list text :=
  List.map lit ["internal"; "local"; "localhost"; "localdomain"; "lan"; "home.arpa"; "intranet"; "corp";
                "cluster.local"; "svc"]%string.

Definition hasBlockedSuffix (name : text) : bool :=
  existsb (fun suffix => bool_decide (name = suffix) || ends_with name (lit "." ++ suffix)) BLOCKED_HOSTNAME_SUFFIXES.

(** ** IPv4 *)

Definition PRIVATE_IPV4_PATTERNS : list pattern :=
  [ PSeq (PUnit 48) (PAlt PDot PEnd);
    PDotted "10";
    PDotted "127";
    PText (lit "169.254") PDot;
    PText (lit "172.")
      (PSeq (PAlt (PSeq (PUnit 49) (PRange 54 57)) (PAlt (PSeq (PUnit 50) PDigit) (PSeq (PUnit 51) (PRange 48 49)))) PDot);
    PDotted "192.168";
    PText (lit "100.")
      (PSeq (PAlt (PSeq (PUnit 54) (PRange 52 57))
            (PAlt (PSeq (PRange 55 57) PDigit)
            (PAlt (PSeq (PUnit 49) (PSeq (PRange 48 49) PDigit))
                  (PSeq (PUnit 49) (PSeq (PUnit 50) (PRange 48 55)))))) PDot);
    PText (lit "198.") (PSeq (PSeq (PUnit 49) (PRange 56 57)) PDot);
    PText (lit "255.255.255.255") PEnd;
    PDotted "192.0.0";
    PDotted "192.0.2";
    PDotted "198.51.100";
    PDotted "203.0.113";
    PSeq (PAlt (PSeq (PUnit 50) (PSeq (PUnit 50) (PRange 52 57))) (PSeq (PUnit 50) (PSeq (PUnit 51) PDigit))) PDot;
    PSeq (PAlt (PSeq (PUnit 50) (PSeq (PUnit 52) PDigit)) (PSeq (PUnit 50) (PSeq (PUnit 53) (PRange 48 53)))) PDot ].

(** One to three digits. *)
Definition POctet : pattern := PAlt (PSeq PDigit (PSeq PDigit PDigit)) (PAlt (PSeq PDigit PDigit) PDigit).

Definition IPV4_LITERAL_RE : pattern :=
  PSeq POctet (PSeq (PSeq PDot POctet) (PSeq (PSeq PDot POctet) (PSeq (PSeq PDot POctet) PEnd))).

Definition isPrivateIPv4 (host : text) : bool :=
  test IPV4_LITERAL_RE host && existsb (fun re => test re host) PRIVATE_IPV4_PATTERNS.

(** ** IPv6 *)

(** What [.] does not match. *)
Definition is_terminator (c : Z) : bool := (c =? 10) || (c =? 13) || (c =? 0x2028) || (c =? 0x2029).

(** The cuts of a text, the longest front first, as the greedy [.*] tries them. *)
Definition cuts (a : text) : list (text * text) :=
  List.map (fun n => (take n a, drop n a)) (rev (seq 0 (S (length a)))).

(** [/^(.*:)(\d{1,3}(?:\.\d{1,3}){3})$/.exec(inner)], its two groups. *)
Definition dotted_groups (inner : text) : option (text * text) :=
  List.find (fun c => ends_with c.1 (lit ":") && negb (existsb is_terminator c.1) && test IPV4_LITERAL_RE c.2)
    (cuts inner).

(** [Number(digits)] and [Number.parseInt(digits, 16)] of digits. *)
Definition decimal_number (a : text) : Z := foldl (fun v c => 10 * v + (c - 48)) 0 a.
Definition hex_unit (c : Z) : Z := if c <=? 57 then c - 48 else if c <=? 70 then c - 55 else c - 87.
Definition hex_number (a : text) : Z := foldl (fun v c => 16 * v + hex_unit c) 0 a.

Definition is_hex (c : Z) : bool :=
  is_decimal c || ((65 <=? c) && (c <=? 70)) || ((97 <=? c) && (c <=? 102)).

(** [n.toString(16)] for a number of sixteen bits. *)
Definition hex_text (n : Z) : text :=
  if n <? 16 then [hex_digit n]
  else if n <? 256 then [hex_digit (n / 16); hex_digit (n mod 16)]
  else if n <? 4096 then [hex_digit (n / 256); hex_digit (n / 16 mod 16); hex_digit (n mod 16)]
  else [hex_digit (n / 4096); hex_digit (n / 256 mod 16); hex_digit (n / 16 mod 16); hex_digit (n mod 16)].

(** [/^[0-9a-f]{1,4}$/i.test(group)] *)
Definition is_group (group : text) : bool :=
  (1 <=? Z.of_nat (length group)) && (Z.of_nat (length group) <=? 4) && forallb is_hex group.

Definition parse_part (part : text) : list text :=
  match part with [] => [] | _ => split_text (lit ":") part end.

(** The two groups a dotted quad spells. *)
Definition quad_tail (quad : list Z) : text :=
  match quad with
  | [a; b; c; d] =>
      hex_text (Z.lor (Z.shiftl a 8) b) ++ lit ":" ++ hex_text (Z.lor (Z.shiftl c 8) d)
  | _ => []
  end.

(** The groups of a text without a dotted quad. *)
Definition head_groups (head : text) : option (list Z) :=
  let halves := split_text (lit "::") head in
  let groups left right missing :=
    let gs := left ++ replicate (Z.to_nat missing) (lit "0") ++ right in
    if forallb is_group gs then Some (List.map hex_number gs) else None in
  match halves with
  | [whole] =>
      let left := parse_part whole in
      let missing := 8 - Z.of_nat (length left) in
      if negb (missing =? 0) then None else groups left [] missing
  | [front; back] =>
      let left := parse_part front in
      let right := parse_part back in
      let missing := 8 - Z.of_nat (length left) - Z.of_nat (length right) in
      if missing <? 1 then None else groups left right missing
  | _ => None
  end.

Definition ipv6Groups (inner : text) : option (list Z) :=
  match dotted_groups inner with
  | Some (front, digits) =>
      let quad := List.map decimal_number (split_text (lit ".") digits) in
      if existsb (fun octet => 255 <? octet) quad then None else head_groups (front ++ quad_tail quad)
  | None => head_groups inner
  end.

Definition dottedFrom (hi lo : Z) : text :=
  digits_text (Z.land (Z.shiftr hi 8) 0xff) ++ lit "." ++ digits_text (Z.land hi 0xff) ++ lit "." ++
  digits_text (Z.land (Z.shiftr lo 8) 0xff) ++ lit "." ++ digits_text (Z.land lo 0xff).

Definition zeroed (groups : list Z) (from to : nat) : bool :=
  forallb (fun group => group =? 0) (take (to - from) (drop from groups)).

Definition group_at (groups : list Z) (i : nat) : Z := default 0 (groups !! i).

(** The groups [ipv6Groups] returns are eight, so every index is in range. *)
Definition isPrivateIPv6Groups (groups : list Z) : bool :=
  let g0 := group_at groups 0 in
  let g1 := group_at groups 1 in
  let g2 := group_at groups 2 in
  if zeroed groups 0 6 then true
  else if (Z.land g0 0xfe00 =? 0xfc00) || (Z.land g0 0xff00 =? 0xff00) then true
  else if (Z.land g0 0xffc0 =? 0xfe80) || (Z.land g0 0xffc0 =? 0xfec0) then true
  else if zeroed groups 0 4 && (group_at groups 4 =? 0xffff) && (group_at groups 5 =? 0) then true
  else if (g0 =? 0x64) && (g1 =? 0xff9b) && (g2 =? 1) then true
  else if (g0 =? 0x2001) && (g1 =? 0) then true
  else
    let tail := dottedFrom (group_at groups 6) (group_at groups 7) in
    if zeroed groups 0 5 && (group_at groups 5 =? 0xffff) then isPrivateIPv4 tail
    else if (g0 =? 0x64) && (g1 =? 0xff9b) && zeroed groups 2 6 then isPrivateIPv4 tail
    else if g0 =? 0x2002 then isPrivateIPv4 (dottedFrom g1 g2)
    else false.

(** What stands between the brackets of a bracketed host. *)
Definition unbracketed (host : text) : text :=
  if starts_with host (lit "[") && ends_with host (lit "]") then take (length host - 2) (drop 1 host) else host.

Definition isPrivateIPv6 (host : text) : bool :=
  let inner := unbracketed host in
  match ipv6Groups inner with
  | None => starts_with host (lit "[") || includes_text (lit ":") inner
  | Some groups => isPrivateIPv6Groups groups
  end.

(** A resolved address. *)
Definition isPrivateAddress (address : text) : bool :=
  if includes_text (lit ":") address then isPrivateIPv6 address
  else negb (test IPV4_LITERAL_RE address) || isPrivateIPv4 address.

(** ** Hosts and URLs *)

(** The [URL] class of the runtime: [url_parse a base] is [new URL(a, base)], or
    nothing where it throws (and [URL.canParse] is false). *)
Class UrlApi := {
  URL : Type;
  url_parse : text -> option URL -> option URL;
  url_protocol : URL -> text;
  url_hostname : URL -> text;
  url_host : URL -> text;
  url_username : URL -> text;
  url_password : URL -> text;
  url_origin : URL -> text;
  url_href : URL -> text;
  url_with_hostname : URL -> text -> URL;
}.

Record UrlValidationError := { ve_message : text; ve_url : option text }.

Definition validation_error (message : text) (url : option text) : UrlValidationError :=
  {| ve_message := message; ve_url := url |}.

Section Urls.
Context `{UrlApi} (toLowerCase : text -> text).

Definition canonicalHostname (hostname : text) : text :=
  let lower := toLowerCase hostname in
  if ends_with lower (lit ".") then take (length lower - 1) lower else lower.

Definition isPrivateHost (hostname : text) : bool :=
  let lower := canonicalHostname hostname in
  if bool_decide (lower ∈ BLOCKED_HOSTNAMES) || hasBlockedSuffix lower then true
  else if isPrivateIPv4 lower then true
  else if isPrivateIPv6 lower then true
  else false.

Definition parseExternalUrl (raw : text) : result UrlValidationError URL :=
  let trimmed := trim_text raw in
  if bool_decide (trimmed = []) then Err (validation_error (lit "URL is required") None)
  else
    match url_parse trimmed None with
    | None => Err (validation_error (lit "Invalid URL: " ++ trimmed) (Some trimmed))
    | Some parsed =>
        if bool_decide (url_protocol parsed <> lit "http:") && bool_decide (url_protocol parsed <> lit "https:") then
          Err (validation_error
                 (lit "URL scheme '" ++ url_protocol parsed ++ lit "' is not allowed; use http or https") (Some trimmed))
        else if bool_decide (url_hostname parsed = []) then
          Err (validation_error (lit "URL must include a hostname") (Some trimmed))
        else if bool_decide (url_username parsed <> []) || bool_decide (url_password parsed <> []) then
          Err (validation_error (lit "URL must not embed credentials") (Some trimmed))
        else if isPrivateHost (url_hostname parsed) then
          Err (validation_error
                 (lit "URL host '" ++ url_hostname parsed ++
                  lit "' is not allowed (loopback, private, or metadata range)") (Some trimmed))
        else Ok parsed
    end.

End Urls.

Definition private_v4 (s : string) : bool := isPrivateIPv4 (lit s).
Definition private_v6 (s : string) : bool := isPrivateIPv6 (lit s).

Example private_v4_ex :
  List.map private_v4 ["10.1.2.3"; "10.example.com"; "172.31.0.1"; "172.32.0.1"; "100.64.0.1"; "8.8.8.8"; "0.0.0.0";
                       "255.255.255.255"; "239.1.2.3"; "192.0.2.9"; "999.1.1.1"]%string =
  [true; false; true; false; true; false; true; true; true; true; false].
Proof. reflexivity. Qed.

Example private_v6_ex :
  List.map private_v6 ["[::1]"; "[::ffff:7f00:1]"; "[::ffff:10.0.0.1]"; "[2606:4700::1111]"; "[64:ff9b::808:808]";
                       "[64:ff9b::a00:1]"; "[fe80::1]"; "[1:2:3]"; "example.com"; "[2002:a00:1::]"; "[::]"]%string =
  [true; true; true; false; false; true; true; true; false; true; true].
Proof. vm_compute. reflexivity. Qed.
