(* ===== verification/SafeBlocks.v ===== *)
(** * The address blocks behind the patterns

    The IPv4 patterns and the IPv6 group tests of lib/safe-fetch against address
    blocks: an address is a number of 32 or 128 bits and a block is the addresses
    that share its first bits. *)

From Stdlib Require Import Ascii String.
From stdpp Require Import prelude list.
From Stdlib Require Import ZArith Lia ZifyBool.
From S2P Require Import Prelude.
From S2P Require Import JsString.
From S2P Require Import IngestSha256.
From S2P Require Import IngestRegex.
From S2P Require Import JsUnits.
From S2P Require Import SafeAddress.

Open Scope Z_scope.
Local Open Scope maple_scope.

(** ** Specification *)

(** The block of the addresses of [bits] bits whose first [len] bits are those of [base]. *)
Definition in_block (bits : Z) (v : Z) (block : Z * Z) : bool :=
  (block.1 <=? v) && (v <? block.1 + 2 ^ (bits - block.2)).

Definition v4 (a b c d : Z) : Z := ((a * 256 + b) * 256 + c) * 256 + d.

(** The blocks a request must not reach: this network, private use, loopback,
    link-local, shared address space, benchmarking, limited broadcast, protocol
    assignments, documentation, multicast and reserved. *)
Definition refused_blocks4 : list (Z * Z) :=
  [ (v4 0 0 0 0, 8); (v4 10 0 0 0, 8); (v4 127 0 0 0, 8); (v4 169 254 0 0, 16); (v4 172 16 0 0, 12);
    (v4 192 168 0 0, 16); (v4 100 64 0 0, 10); (v4 198 18 0 0, 15); (v4 255 255 255 255, 32); (v4 192 0 0 0, 24);
    (v4 192 0 2 0, 24); (v4 198 51 100 0, 24); (v4 203 0 113 0, 24); (v4 224 0 0 0, 4); (v4 240 0 0 0, 4) ].

Definition refused4 (v : Z) : bool := existsb (in_block 32 v) refused_blocks4.

(** The URL parser's form of an IPv4 address. *)
Definition dotted (a b c d : Z) : text :=
  digits_text a ++ lit "." ++ digits_text b ++ lit "." ++ digits_text c ++ lit "." ++ digits_text d.

(** ** Matching one octet *)

(** Some way to match leaves a text that satisfies [k]. *)
Definition accepts (p : pattern) (a : text) (k : text -> bool) : bool := existsb k (rests p a).

Definition is_nil {A} (l : list A) : bool := match l with [] => true | _ => false end.

(** The pattern matches the whole text. *)
Definition exact (p : pattern) (a : text) : bool := accepts p a is_nil.

Fixpoint digit_only (p : pattern) : bool :=
  match p with
  | PUnit c => is_decimal c
  | PRange lo hi => (48 <=? lo) && (hi <=? 57)
  | PEnd => false
  | PSeq p q | PAlt p q => digit_only p && digit_only q
  end.

Definition decimals (a : text) : Prop := Forall (fun c => is_decimal c = true) a.

Lemma leaves_seq p q a k : accepts (PSeq p q) a k = accepts p a (fun b => accepts q b k).
Proof.
  unfold accepts. cbn [rests]. induction (rests p a) as [|b bs IH]; simpl; [done|].
  by rewrite existsb_app, IH.
Qed.

Lemma accepts_unit c a k : accepts (PUnit c) a k = match a with c' :: a' => (c' =? c) && k a' | [] => false end.
Proof. destruct a as [|c' a]; [done|]. unfold accepts. cbn. destruct (c' =? c); cbn; [by rewrite orb_false_r|done]. Qed.

Lemma test_accepts p a : test p a = accepts p a (fun _ => true).
Proof. unfold test, accepts. by destruct (rests p a). Qed.

Lemma leaves_ext p a k k' : (forall b, k b = k' b) -> accepts p a k = accepts p a k'.
Proof. intros E. unfold accepts. induction (rests p a) as [|b bs IH]; cbn; [done|]. by rewrite E, IH. Qed.

Lemma rests_dot p x r : digit_only p = true -> rests p (x ++ 46 :: r) = List.map (fun z => z ++ 46 :: r) (rests p x).
Proof.
  revert x. induction p as [c|lo hi| |p IHp q IHq|p IHp q IHq]; intros x Hp; cbn [digit_only] in Hp;
    try (apply andb_true_iff in Hp as [Hp Hq]); cbn [rests].
  - destruct x as [|c' x]; cbn [app]; [|by destruct (c' =? c)].
    by replace (46 =? c) with false by lia.
  - destruct x as [|c' x]; cbn [app]; [|by destruct (_ && _)].
    by replace ((lo <=? 46) && (46 <=? hi)) with false by lia.
  - done.
  - rewrite IHp by done. rewrite List.map_map, List.concat_map, List.map_map. f_equal.
    apply List.map_ext. intros z. by apply IHq.
  - by rewrite IHp, IHq, List.map_app.
Qed.

Lemma rests_decimals p x z : decimals x -> z ∈ rests p x -> decimals z.
Proof.
  revert x z. induction p as [c|lo hi| |p IHp q IHq|p IHp q IHq]; intros x z Hx; cbn [rests].
  1-3: destruct Hx as [|c' x Hc Hx]; try case_match; rewrite ?list_elem_of_singleton, ?elem_of_nil;
       intros Hz; subst; first [done | constructor].
  - intros Hz. apply list_elem_of_In, List.in_concat in Hz as (l & Hl & Hz).
    apply List.in_map_iff in Hl as (y & <- & Hy). apply list_elem_of_In in Hz, Hy. eauto.
  - intros [Hz|Hz]%elem_of_app; eauto.
Qed.

(** A pattern of digits before a dot matches the whole run of digits. *)
Lemma accepts_stop p x r k :
  digit_only p = true -> decimals x -> (forall c z, is_decimal c = true -> k (c :: z) = false) ->
  accepts p (x ++ 46 :: r) k = exact p x && k (46 :: r).
Proof.
  intros Hp Hx Hk. unfold exact, accepts. rewrite (rests_dot p x r Hp).
  pose proof (rests_decimals p x) as Hz. induction (rests p x) as [|z zs IH]; cbn; [done|].
  rewrite IH by (intros; apply Hz; [done|by right]).
  specialize (Hz z Hx ltac:(left)). destruct Hz as [|c z Hc Hz]; cbn.
  - by destruct (k (46 :: r)), (existsb is_nil zs).
  - by rewrite Hk.
Qed.

Lemma octet_dot p x r k : digit_only p = true -> decimals x ->
  accepts (PSeq p PDot) (x ++ 46 :: r) k = exact p x && k r.
Proof.
  intros Hp Hx. unfold PDot.
  rewrite leaves_seq, accepts_stop
    by first [done | intros c z Hc; rewrite accepts_unit; unfold is_decimal in Hc; by replace (c =? 46) with false by lia].
  by rewrite accepts_unit.
Qed.

Lemma text_dot t x r k : decimals t -> decimals x ->
  accepts (PText t PDot) (x ++ 46 :: r) k = bool_decide (x = t) && k r.
Proof.
  revert x. induction t as [|c t IH]; intros x Ht Hx; cbn [PText].
  - unfold PDot. rewrite accepts_unit. destruct Hx as [|c x Hc Hx]; cbn [app]; [done|].
    rewrite bool_decide_eq_false_2 by done. unfold is_decimal in Hc. by replace (c =? 46) with false by lia.
  - inversion Ht as [|? ? Hc Ht']; subst. rewrite leaves_seq, accepts_unit.
    destruct Hx as [|c' x Hc' Hx]; cbn [app].
    + unfold is_decimal in Hc. replace (46 =? c) with false by lia. done.
    + rewrite IH by done. destruct (Z.eqb_spec c' c) as [->|Hne]; cbn.
      * f_equal. apply bool_decide_ext. naive_solver.
      * rewrite bool_decide_eq_false_2; [done|]. naive_solver.
Qed.

Lemma text_text t p : forall s, PText (s ++ t) p = PText s (PText t p).
Proof. induction s as [|c s IH]; cbn; [done|by rewrite IH]. Qed.

Lemma text_snoc_dot t p a k : accepts (PText (t ++ [46]) p) a k = accepts (PText t PDot) a (fun b => accepts p b k).
Proof.
  revert a. induction t as [|c t IH]; intros a; cbn [PText app].
  - by rewrite leaves_seq.
  - rewrite !leaves_seq. unfold accepts at 1 3. rewrite <- (List.map_id (rests (PUnit c) a)).
    induction (rests (PUnit c) a) as [|b bs IHb]; cbn; [done|]. by rewrite IHb, IH.
Qed.

Lemma text_end t a k : accepts (PText t PEnd) a k = bool_decide (a = t) && k [].
Proof.
  revert a. induction t as [|c t IH]; intros a; cbn [PText].
  - destruct a; cbn; [by rewrite orb_false_r|done].
  - rewrite leaves_seq, accepts_unit. destruct a as [|c' a]; [done|]. rewrite IH.
    destruct (Z.eqb_spec c' c) as [->|Hne]; cbn.
    + f_equal. apply bool_decide_ext. naive_solver.
    + rewrite bool_decide_eq_false_2; [done|]. naive_solver.
Qed.

(** ** Octets *)

Definition octets : list Z := count_up 256 0 255 1.

Lemma octet_in a : 0 <= a <= 255 -> a ∈ octets.
Proof. intros Ha. apply (elem_of_count_up 256 0 255 1); [lia|done|]. split; [done|]. by exists (a - 0); lia. Qed.

Lemma octet_check (f : Z -> bool) a : forallb f octets = true -> 0 <= a <= 255 -> f a = true.
Proof. intros Hf Ha. by apply (proj1 (List.forallb_forall f octets) Hf), list_elem_of_In, octet_in. Qed.

Lemma octet_decimals a : 0 <= a <= 255 -> decimals (digits_text a).
Proof.
  intros Ha. apply Forall_forall. intros c Hc.
  assert (forallb is_decimal (digits_text a) = true) as Hd.
  { by apply (octet_check (fun a => forallb is_decimal (digits_text a))); [vm_compute|]. }
  by apply (proj1 (List.forallb_forall _ _) Hd), list_elem_of_In.
Qed.

Lemma digits_decide a n : bool_decide (digits_text a = digits_text n) = (a =? n).
Proof. case_bool_decide as Hd; [apply digits_text_inj in Hd|]; destruct (Z.eqb_spec a n); congruence. Qed.

(** The ways a pattern reads the octet [a] and the dot after it. *)
Lemma octet_text n u p a r k : 0 <= n <= 255 -> 0 <= a <= 255 ->
  accepts (PText (digits_text n ++ 46 :: u) p) (digits_text a ++ 46 :: r) k = (a =? n) && accepts (PText u p) r k.
Proof.
  intros Hn Ha. replace (digits_text n ++ 46 :: u) with ((digits_text n ++ [46]) ++ u) by by rewrite <- app_assoc.
  rewrite text_text, text_snoc_dot, text_dot by by apply octet_decimals. by rewrite digits_decide.
Qed.

Lemma octet_last n a r k : 0 <= n <= 255 -> 0 <= a <= 255 ->
  accepts (PText (digits_text n) PDot) (digits_text a ++ 46 :: r) k = (a =? n) && k r.
Proof. intros Hn Ha. rewrite text_dot by by apply octet_decimals. by rewrite digits_decide. Qed.

Definition reads_range (p : pattern) (lo hi : Z) : bool :=
  digit_only p && forallb (fun a => Bool.eqb (exact p (digits_text a)) ((lo <=? a) && (a <=? hi))) octets.

Lemma octet_range p lo hi a r k : reads_range p lo hi = true -> 0 <= a <= 255 ->
  accepts (PSeq p PDot) (digits_text a ++ 46 :: r) k = (lo <=? a) && (a <=? hi) && k r.
Proof.
  intros [Hp Hr]%andb_true_iff Ha. rewrite octet_dot by first [done | by apply octet_decimals].
  apply (octet_check _ a) in Hr; [|done]. apply Bool.eqb_prop in Hr. by rewrite Hr.
Qed.

Lemma octet_zero a r k : 0 <= a <= 255 ->
  accepts (PSeq (PUnit 48) (PAlt PDot PEnd)) (digits_text a ++ 46 :: r) k = (a =? 0) && k r.
Proof.
  intros Ha. pose proof (octet_last 0 a r k ltac:(lia) Ha) as E. rewrite <- E.
  change (PText (digits_text 0) PDot) with (PSeq (PUnit 48) PDot). rewrite !leaves_seq, !accepts_unit.
  pose proof (octet_decimals a Ha) as Hd. destruct Hd as [|c z Hc Hd]; cbn [app]; [done|]. f_equal.
  unfold accepts. cbn [rests]. rewrite existsb_app. by destruct z; cbn [app existsb]; rewrite orb_false_r.
Qed.

Lemma dotted_units a b c d :
  dotted a b c d = digits_text a ++ 46 :: digits_text b ++ 46 :: digits_text c ++ 46 :: digits_text d.
Proof. done. Qed.

Lemma literal_dotted a b c d : 0 <= a <= 255 -> 0 <= b <= 255 -> 0 <= c <= 255 -> 0 <= d <= 255 ->
  test IPV4_LITERAL_RE (dotted a b c d) = true.
Proof.
  intros Ha Hb Hc Hd. rewrite dotted_units, test_accepts. unfold IPV4_LITERAL_RE, PDot.
  assert (forall x, 0 <= x <= 255 -> exact POctet (digits_text x) = true) as Hx.
  { intros x. by apply (octet_check (fun a => exact POctet (digits_text a))). }
  assert (forall x r q k, 0 <= x <= 255 -> accepts (PSeq POctet (PSeq (PSeq (PUnit 46) POctet) q)) (digits_text x ++ 46 :: r) k =
            accepts (PSeq POctet q) r k) as Hstep.
  { intros x r q k Hr. rewrite leaves_seq, accepts_stop; [|done|by apply octet_decimals|].
    - rewrite Hx by done. by rewrite !leaves_seq, accepts_unit.
    - intros c0 z0 Hc0. rewrite !leaves_seq, accepts_unit. unfold is_decimal in Hc0. by replace (c0 =? 46) with false by lia. }
  rewrite !Hstep, leaves_seq by done.
  etransitivity; [|by apply (Hx d)]. apply leaves_ext. by intros [|].
Qed.

(** The fifteen patterns, octet by octet. *)
Definition refused_octets (a b c d : Z) : list bool :=
  [ a =? 0; a =? 10; a =? 127; (a =? 169) && (b =? 254); (a =? 172) && ((16 <=? b) && (b <=? 31));
    (a =? 192) && (b =? 168); (a =? 100) && ((64 <=? b) && (b <=? 127)); (a =? 198) && ((18 <=? b) && (b <=? 19));
    (a =? 255) && ((b =? 255) && ((c =? 255) && (d =? 255))); (a =? 192) && ((b =? 0) && (c =? 0));
    (a =? 192) && ((b =? 0) && (c =? 2)); (a =? 198) && ((b =? 51) && (c =? 100));
    (a =? 203) && ((b =? 0) && (c =? 113)); (224 <=? a) && (a <=? 239); (240 <=? a) && (a <=? 255) ].

Lemma patterns_octets a b c d : 0 <= a <= 255 -> 0 <= b <= 255 -> 0 <= c <= 255 -> 0 <= d <= 255 ->
  existsb (fun re => test re (dotted a b c d)) PRIVATE_IPV4_PATTERNS = existsb id (refused_octets a b c d).
Proof.
  intros Ha Hb Hc Hd. rewrite dotted_units. unfold PRIVATE_IPV4_PATTERNS, PDotted. cbn [existsb]. rewrite !test_accepts.
  change (lit "10") with (digits_text 10). change (lit "127") with (digits_text 127).
  change (lit "169.254") with (digits_text 169 ++ 46 :: digits_text 254).
  change (lit "172.") with (digits_text 172 ++ 46 :: []).
  change (lit "192.168") with (digits_text 192 ++ 46 :: digits_text 168).
  change (lit "100.") with (digits_text 100 ++ 46 :: []).
  change (lit "198.") with (digits_text 198 ++ 46 :: []).
  change (lit "255.255.255.255")
    with (digits_text 255 ++ 46 :: digits_text 255 ++ 46 :: digits_text 255 ++ 46 :: digits_text 255).
  change (lit "192.0.0") with (digits_text 192 ++ 46 :: digits_text 0 ++ 46 :: digits_text 0).
  change (lit "192.0.2") with (digits_text 192 ++ 46 :: digits_text 0 ++ 46 :: digits_text 2).
  change (lit "198.51.100") with (digits_text 198 ++ 46 :: digits_text 51 ++ 46 :: digits_text 100).
  change (lit "203.0.113") with (digits_text 203 ++ 46 :: digits_text 0 ++ 46 :: digits_text 113).
  rewrite octet_zero by done.
  rewrite !octet_text by lia. rewrite !octet_last by lia. cbn [PText].
  rewrite (octet_range _ 16 31), (octet_range _ 64 127), (octet_range _ 18 19), (octet_range _ 224 239),
    (octet_range _ 240 255) by first [done | by vm_compute].
  rewrite text_end, digits_decide.
  unfold refused_octets. cbn [existsb id]. by rewrite !andb_true_r.
Qed.

(** A dotted quad is refused by the patterns exactly when its address is in one
    of the blocks. *)
Lemma private_dotted a b c d : 0 <= a <= 255 -> 0 <= b <= 255 -> 0 <= c <= 255 -> 0 <= d <= 255 ->
  isPrivateIPv4 (dotted a b c d) = refused4 (v4 a b c d).
Proof.
  intros Ha Hb Hc Hd. unfold isPrivateIPv4. rewrite literal_dotted, patterns_octets by done.
  unfold refused4. replace (existsb (in_block 32 _) _)
    with (existsb id (List.map (in_block 32 (v4 a b c d)) refused_blocks4)) by done.
  rewrite andb_true_l. f_equal. unfold refused_octets, refused_blocks4, in_block, v4. cbn [List.map fst snd].
  change (2 ^ (32 - 8)) with 16777216. change (2 ^ (32 - 16)) with 65536. change (2 ^ (32 - 12)) with 1048576.
  change (2 ^ (32 - 10)) with 4194304. change (2 ^ (32 - 15)) with 131072. change (2 ^ (32 - 32)) with 1.
  change (2 ^ (32 - 24)) with 256. change (2 ^ (32 - 4)) with 268435456.
  repeat (apply (f_equal2 cons); [lia|]). done.
Qed.

(** ** IPv6 *)

(** The address its eight groups spell. *)
Definition v6 (groups : list Z) : Z := foldl (fun v g => v * 65536 + g) 0 groups.

(** Unspecified, loopback and IPv4-compatible; unique local; multicast;
    link-local; site-local; SIIT; local-use NAT64; Teredo. *)
Definition refused_blocks6 : list (Z * Z) :=
  [ (v6 [0; 0; 0; 0; 0; 0; 0; 0], 96); (v6 [0xfc00; 0; 0; 0; 0; 0; 0; 0], 7); (v6 [0xff00; 0; 0; 0; 0; 0; 0; 0], 8);
    (v6 [0xfe80; 0; 0; 0; 0; 0; 0; 0], 10); (v6 [0xfec0; 0; 0; 0; 0; 0; 0; 0], 10);
    (v6 [0; 0; 0; 0; 0xffff; 0; 0; 0], 96); (v6 [0x64; 0xff9b; 1; 0; 0; 0; 0; 0], 48);
    (v6 [0x2001; 0; 0; 0; 0; 0; 0; 0], 32) ].

(** The blocks whose addresses carry an IPv4 address, with the number of bits
    after it: mapped, NAT64 and 6to4. *)
Definition carriers : list (Z * Z * Z) :=
  [ ((v6 [0; 0; 0; 0; 0; 0xffff; 0; 0], 96), 0); ((v6 [0x64; 0xff9b; 0; 0; 0; 0; 0; 0], 96), 0);
    ((v6 [0x2002; 0; 0; 0; 0; 0; 0; 0], 16), 80) ].

Definition refused6 (v : Z) : bool :=
  existsb (in_block 128 v) refused_blocks6 ||
  match List.find (fun e => in_block 128 v e.1) carriers with
  | Some (_, shift) => refused4 (v / 2 ^ shift mod 2 ^ 32)
  | None => false
  end.

Definition is_group_value (g : Z) : Prop := 0 <= g < 65536.

Lemma mask_range (mask base lo hi : Z) g :
  forallb (fun g => Bool.eqb (Z.land g mask =? base) ((lo <=? g) && (g <=? hi))) (count_up (Z.to_nat 65536) 0 65535 1) = true ->
  is_group_value g -> (Z.land g mask =? base) = (lo <=? g) && (g <=? hi).
Proof.
  intros Hf Hg. apply Bool.eqb_prop. apply (proj1 (List.forallb_forall _ _) Hf), list_elem_of_In.
  apply (elem_of_count_up _ 0 65535 1); [lia|by rewrite Z2Nat.id by lia|]. unfold is_group_value in Hg. split; [lia|]. by exists (g - 0); lia.
Qed.

Lemma masks g : is_group_value g ->
  (Z.land g 0xfe00 =? 0xfc00) = (0xfc00 <=? g) && (g <=? 0xfdff) /\
  (Z.land g 0xff00 =? 0xff00) = (0xff00 <=? g) && (g <=? 0xffff) /\
  (Z.land g 0xffc0 =? 0xfe80) = (0xfe80 <=? g) && (g <=? 0xfebf) /\
  (Z.land g 0xffc0 =? 0xfec0) = (0xfec0 <=? g) && (g <=? 0xfeff).
Proof. intros Hg. split_and!; (apply mask_range; [by vm_compute|done]). Qed.

Lemma dottedFrom_value hi lo : is_group_value hi -> is_group_value lo ->
  isPrivateIPv4 (dottedFrom hi lo) = refused4 (hi * 65536 + lo).
Proof.
  intros Hhi Hlo. unfold is_group_value in *.
  assert (forall g, 0 <= g < 65536 -> Z.land (Z.shiftr g 8) 0xff = g / 256 /\ Z.land g 0xff = g mod 256) as Hb.
  { intros g Hg. change 0xff with (Z.ones 8). rewrite !Z.land_ones, Z.shiftr_div_pow2 by lia.
    change (2 ^ 8) with 256. split; [|done]. apply Z.mod_small. Z.to_euclidean_division_equations; lia. }
  destruct (Hb hi Hhi) as [E1 E2], (Hb lo Hlo) as [E3 E4].
  change (isPrivateIPv4 (dotted (Z.land (Z.shiftr hi 8) 0xff) (Z.land hi 0xff) (Z.land (Z.shiftr lo 8) 0xff) (Z.land lo 0xff))
            = refused4 (hi * 65536 + lo)).
  rewrite E1, E2, E3, E4, private_dotted by (Z.to_euclidean_division_equations; lia).
  f_equal. unfold v4. Z.to_euclidean_division_equations; lia.
Qed.

(** Reads a block off the groups: the bounds of the block become linear constraints. *)
Ltac block_bounds :=
  unfold in_block; cbn [fst snd];
  repeat match goal with |- context [2 ^ (128 - ?n)] =>
    let p := eval vm_compute in (2 ^ (128 - n)) in change (2 ^ (128 - n)) with p end;
  unfold v6, is_group_value in *; cbn [foldl]; apply eq_true_iff_eq;
  rewrite ?andb_true_iff, ?Z.eqb_eq, ?Z.leb_le, ?Z.ltb_lt; lia.

Section Groups.
Context (g0 g1 g2 g3 g4 g5 g6 g7 : Z).
Hypotheses (H0 : is_group_value g0) (H1 : is_group_value g1) (H2 : is_group_value g2) (H3 : is_group_value g3)
  (H4 : is_group_value g4) (H5 : is_group_value g5) (H6 : is_group_value g6) (H7 : is_group_value g7).
Let v := v6 [g0; g1; g2; g3; g4; g5; g6; g7].

Lemma leading_zeros :
  in_block 128 v (v6 [0; 0; 0; 0; 0; 0; 0; 0], 96) =
    (g0 =? 0) && ((g1 =? 0) && ((g2 =? 0) && ((g3 =? 0) && ((g4 =? 0) && (g5 =? 0))))) /\
  in_block 128 v (v6 [0; 0; 0; 0; 0xffff; 0; 0; 0], 96) =
    (g0 =? 0) && ((g1 =? 0) && ((g2 =? 0) && (g3 =? 0))) && (g4 =? 0xffff) && (g5 =? 0) /\
  in_block 128 v (v6 [0; 0; 0; 0; 0; 0xffff; 0; 0], 96) =
    (g0 =? 0) && ((g1 =? 0) && ((g2 =? 0) && ((g3 =? 0) && (g4 =? 0)))) && (g5 =? 0xffff).
Proof. subst v. split_and!; block_bounds. Qed.

Lemma first_group :
  in_block 128 v (v6 [0xfc00; 0; 0; 0; 0; 0; 0; 0], 7) = (0xfc00 <=? g0) && (g0 <=? 0xfdff) /\
  in_block 128 v (v6 [0xff00; 0; 0; 0; 0; 0; 0; 0], 8) = (0xff00 <=? g0) && (g0 <=? 0xffff) /\
  in_block 128 v (v6 [0xfe80; 0; 0; 0; 0; 0; 0; 0], 10) = (0xfe80 <=? g0) && (g0 <=? 0xfebf) /\
  in_block 128 v (v6 [0xfec0; 0; 0; 0; 0; 0; 0; 0], 10) = (0xfec0 <=? g0) && (g0 <=? 0xfeff) /\
  in_block 128 v (v6 [0x2002; 0; 0; 0; 0; 0; 0; 0], 16) = (g0 =? 0x2002).
Proof. subst v. split_and!; block_bounds. Qed.

Lemma translated :
  in_block 128 v (v6 [0x64; 0xff9b; 1; 0; 0; 0; 0; 0], 48) = (g0 =? 0x64) && (g1 =? 0xff9b) && (g2 =? 1) /\
  in_block 128 v (v6 [0x2001; 0; 0; 0; 0; 0; 0; 0], 32) = (g0 =? 0x2001) && (g1 =? 0) /\
  in_block 128 v (v6 [0x64; 0xff9b; 0; 0; 0; 0; 0; 0], 96) =
    (g0 =? 0x64) && (g1 =? 0xff9b) && ((g2 =? 0) && ((g3 =? 0) && ((g4 =? 0) && (g5 =? 0)))).
Proof. subst v. split_and!; block_bounds. Qed.

(** The IPv4 address at the end, and after the first group. *)
Lemma carried : v / 2 ^ 0 mod 2 ^ 32 = g6 * 65536 + g7 /\ v / 2 ^ 80 mod 2 ^ 32 = g1 * 65536 + g2.
Proof.
  unfold is_group_value in *. subst v. unfold v6. cbn [foldl]. change (2 ^ 0) with 1. rewrite Z.div_1_r.
  split.
  - symmetry. apply (Z.mod_unique_pos _ _ ((((((g0 * 65536 + g1) * 65536 + g2) * 65536 + g3) * 65536 + g4) * 65536 + g5)));
      change (2 ^ 32) with 4294967296; lia.
  - replace (_ / 2 ^ 80) with ((g0 * 65536 + g1) * 65536 + g2).
    + symmetry. apply (Z.mod_unique_pos _ _ g0); change (2 ^ 32) with 4294967296; lia.
    + apply (Z.div_unique_pos _ _ _ ((((g3 * 65536 + g4) * 65536 + g5) * 65536 + g6) * 65536 + g7));
        change (2 ^ 80) with 1208925819614629174706176; lia.
Qed.

(** The group tests of [isPrivateIPv6Groups] against the blocks. *)
Lemma groups_judged_eight : isPrivateIPv6Groups [g0; g1; g2; g3; g4; g5; g6; g7] = refused6 v.
Proof.
  unfold isPrivateIPv6Groups, refused6, refused_blocks6, carriers.
  cbn [group_at lookup list_lookup default id zeroed take drop forallb Nat.sub existsb List.find fst snd].
  destruct (masks g0 H0) as (-> & -> & -> & ->). rewrite !dottedFrom_value by done.
  destruct leading_zeros as (-> & -> & ->), first_group as (-> & -> & -> & -> & ->), translated as (-> & -> & ->).
  destruct carried as [E0 E80]. rewrite !andb_true_r. rewrite <- E0, <- E80. cbn [fst].
  repeat match goal with |- context [?a && ?b] => generalize (a && b); intros [|]; cbn [orb]; [done|] end.
  by destruct (g0 =? 0x2002).
Qed.
End Groups.

Lemma groups_judged gs : length gs = 8%nat -> Forall is_group_value gs -> isPrivateIPv6Groups gs = refused6 (v6 gs).
Proof.
  intros Hl Hgs. destruct gs as [|g0 [|g1 [|g2 [|g3 [|g4 [|g5 [|g6 [|g7 [|]]]]]]]]]; try done.
  repeat (apply Forall_cons_1 in Hgs as [? Hgs]). by apply groups_judged_eight.
Qed.
