(* ===== verification/SafeLiteral.v ===== *)
(** * IPv6 literals

    [ipv6Groups] of lib/safe-fetch against the spellings of RFC 4291: eight
    groups of hexadecimal digits, one run of zero groups left out, a dotted quad
    for the last two. *)

From Stdlib Require Import Ascii String.
From stdpp Require Import prelude list.
From Stdlib Require Import ZArith Lia ZifyBool.
From S2P Require Import Prelude.
From S2P Require Import JsString.
From S2P Require Import IngestSha256.
From S2P Require Import IngestRegex.
From S2P Require Import JsUnits.
From S2P Require Import SafeAddress.
From S2P Require Import SafeBlocks.

Open Scope Z_scope.
Local Open Scope maple_scope.

(** ** Spellings *)

Definition hex_groups (gs : list text) : Prop := Forall (fun g => is_group g = true) gs.

(** Eight groups, or a gap that stands for at least one zero group. *)
Inductive plain_spelling : text -> list Z -> Prop :=
  | spell_full gs :
      length gs = 8%nat -> hex_groups gs -> plain_spelling (join_text (lit ":") gs) (List.map hex_number gs)
  | spell_gap l r :
      hex_groups l -> hex_groups r -> (length l + length r <= 7)%nat ->
      plain_spelling (join_text (lit ":") l ++ lit "::" ++ join_text (lit ":") r)
        (List.map hex_number l ++ replicate (8 - length l - length r) 0 ++ List.map hex_number r).

(** A dotted quad: four numbers of at most three digits, each below 256. *)
Definition spells_quad (q : text) (quad : list Z) : Prop :=
  test IPV4_LITERAL_RE q = true /\ quad = List.map decimal_number (split_text (lit ".") q) /\
  Forall (fun octet => octet <= 255) quad.

Inductive spelling : text -> list Z -> Prop :=
  | spell_plain a gs : plain_spelling a gs -> spelling a gs
  | spell_dotted front q quad gs :
      spells_quad q quad -> plain_spelling ((front ++ lit ":") ++ quad_tail quad) gs ->
      spelling ((front ++ lit ":") ++ q) gs.

(** ** Splitting *)

Lemma split_units_skip sep n p a : (n <= length a)%nat -> split_units sep n p a = split_units sep 0 p (drop n a).
Proof. revert n. induction a as [|c a IH]; intros [|n] Hn; cbn in *; try done; try lia. apply IH. lia. Qed.

Lemma split_units_not_nil sep n p a : split_units sep n p a <> [].
Proof. revert n p. induction a as [|c a IH]; intros [|n] p; cbn; try done. by case_match. Qed.

Lemma join_cons sep (p : text) ps : ps <> [] -> join_text sep (p :: ps) = p ++ sep ++ join_text sep ps.
Proof. by destruct ps. Qed.

Lemma join_split_units c0 sep p a : join_text (c0 :: sep) (split_units (c0 :: sep) 0 p a) = p ++ a.
Proof.
  remember (length a) as n eqn:Hn. revert p a Hn. induction n as [n IH] using lt_wf_ind. intros p a ->.
  destruct a as [|c a]; cbn [split_units]; [by rewrite app_nil_r|].
  destruct (starts_with (c :: a) (c0 :: sep)) eqn:Hs.
  - apply starts_with_spec in Hs as (r & Hr). injection Hr as -> ->.
    rewrite split_units_skip by (rewrite length_app; cbn; lia).
    replace (drop _ _) with r by (cbn [length Nat.sub]; by rewrite Nat.sub_0_r, drop_app_length).
    rewrite join_cons by apply split_units_not_nil.
    by rewrite (IH (length r)) by (rewrite ?length_app; cbn; rewrite ?length_app; lia).
  - rewrite (IH (length a)) by (cbn; lia). by rewrite <- app_assoc.
Qed.

Lemma join_split c0 sep a : join_text (c0 :: sep) (split_text (c0 :: sep) a) = a.
Proof. apply join_split_units. Qed.

(** No two colons side by side. *)
Fixpoint colons_apart (a : text) : bool :=
  match a with
  | c :: ((d :: _) as a') => negb ((c =? 58) && (d =? 58)) && colons_apart a'
  | _ => true
  end.

Lemma split_at_pair x : forall p y, colons_apart (x ++ [58]) = true ->
  split_units (lit "::") 0 p (x ++ lit "::" ++ y) = (p ++ x) :: split_units (lit "::") 0 [] y.
Proof.
  change (lit "::") with [58; 58]. induction x as [|c x IH]; intros p y Hx.
  - rewrite app_nil_r. by destruct y.
  - cbn [app split_units].
    assert (starts_with (c :: x ++ 58 :: 58 :: y) [58; 58] = false /\ colons_apart (x ++ [58]) = true) as [-> Hx'].
    { destruct x as [|d x]; cbn -[Z.eqb] in *; apply andb_true_iff in Hx as [Hx Hr]; split; try done; lia. }
    change (x ++ 58 :: 58 :: y) with (x ++ [58; 58] ++ y). rewrite IH by done. by rewrite <- app_assoc.
Qed.

Lemma split_no_pair x : forall p, colons_apart x = true -> split_units (lit "::") 0 p x = [p ++ x].
Proof.
  change (lit "::") with [58; 58]. induction x as [|c x IH]; intros p Hx; [by rewrite app_nil_r|]. cbn [split_units].
  assert (starts_with (c :: x) [58; 58] = false /\ colons_apart x = true) as [-> Hx'].
  { destruct x as [|d x]; cbn -[Z.eqb] in *; [by rewrite andb_false_r|]. apply andb_true_iff in Hx as [Hx Hr]. split; [lia|done]. }
  rewrite IH by done. by rewrite <- app_assoc.
Qed.

Definition no_unit (u : Z) (g : text) : Prop := Forall (fun c => (c =? u) = false) g.
Definition no_colon : text -> Prop := no_unit 58.

Lemma split_at_unit u x p y : no_unit u x ->
  split_units [u] 0 p (x ++ u :: y) = (p ++ x) :: split_units [u] 0 [] y.
Proof.
  intros Hx. revert p. induction Hx as [|c x Hc Hx IH]; intros p; cbn -[Z.eqb].
  - rewrite app_nil_r, Z.eqb_refl. by destruct y.
  - rewrite Hc. cbn [andb]. rewrite IH. by rewrite <- app_assoc.
Qed.

Lemma split_no_unit u x p : no_unit u x -> split_units [u] 0 p x = [p ++ x].
Proof.
  intros Hx. revert p. induction Hx as [|c x Hc Hx IH]; intros p; cbn -[Z.eqb]; [by rewrite app_nil_r|].
  rewrite Hc. cbn [andb]. rewrite IH. by rewrite <- app_assoc.
Qed.

(** ** Joining groups *)

Lemma group_shape g : is_group g = true -> g <> [] /\ no_colon g /\ Forall (fun c => is_hex c = true) g.
Proof.
  unfold is_group. intros [[Hl _]%andb_true_iff Hh]%andb_true_iff.
  assert (Forall (fun c => is_hex c = true) g) as Hf by (by apply Forall_forall; intros c Hc; apply (proj1 (List.forallb_forall _ _) Hh), list_elem_of_In).
  split_and!; [|eapply Forall_impl; [exact Hf|]|done].
  - intros ->. cbn in Hl. lia.
  - intros c Hc. unfold is_hex, is_decimal in Hc. lia.
Qed.

Lemma split_join g gs : hex_groups (g :: gs) -> split_text (lit ":") (join_text (lit ":") (g :: gs)) = g :: gs.
Proof.
  change (split_text (lit ":")) with (split_units [58] 0 []).
  revert g. induction gs as [|h gs IH]; intros g Hg; apply Forall_cons_1 in Hg as [Hg Hgs]; apply group_shape in Hg as (_ & Hg & _).
  - by apply (split_no_unit 58 g []).
  - change (join_text (lit ":") (g :: h :: gs)) with (g ++ 58 :: join_text (lit ":") (h :: gs)).
    rewrite split_at_unit by done. by rewrite IH.
Qed.

Lemma join_nil gs : hex_groups gs -> join_text (lit ":") gs = [] -> gs = [].
Proof.
  intros Hgs Hj. destruct Hgs as [|g gs' Hg _]; [done|]. apply group_shape in Hg as (Hg & _).
  destruct gs'; cbn in Hj; [done|]. by apply app_nil in Hj as [? _].
Qed.

Lemma parse_part_join gs : hex_groups gs -> parse_part (join_text (lit ":") gs) = gs.
Proof.
  intros Hg. unfold parse_part. destruct (join_text (lit ":") gs) as [|c a] eqn:Hj; [by apply join_nil in Hj|].
  rewrite <- Hj. destruct gs; [done|]. by apply split_join.
Qed.

Lemma join_parse_part a : join_text (lit ":") (parse_part a) = a.
Proof. destruct a; [done|]. apply join_split. Qed.

Lemma apart_group g r : no_colon g -> colons_apart (g ++ 58 :: r) = colons_apart (58 :: r).
Proof.
  induction 1 as [|c g Hc Hg IH]; [done|]. cbn [app]. rewrite <- IH.
  destruct g as [|d g]; cbn -[Z.eqb]; rewrite Hc; by try destruct r.
Qed.

Lemma apart_after_colon g r : g <> [] -> no_colon g -> colons_apart (58 :: g ++ r) = colons_apart (g ++ r).
Proof. intros Hne Hg. destruct Hg as [|c g Hc Hg]; [done|]. cbn -[Z.eqb]. by rewrite Hc. Qed.

Lemma apart_no_colon g : no_colon g -> colons_apart g = true.
Proof. induction 1 as [|c g Hc Hg IH]; [done|]. destruct g; cbn -[Z.eqb]; [done|]. by rewrite Hc. Qed.

Lemma apart_join gs : hex_groups gs ->
  colons_apart (join_text (lit ":") gs) = true /\ colons_apart (join_text (lit ":") gs ++ [58]) = true.
Proof.
  induction 1 as [|g gs Hg Hgs IH]; [done|]. apply group_shape in Hg as (_ & Hg & _).
  destruct gs as [|h gs]; [cbn [join_text]; rewrite apart_group by done; split; [by apply apart_no_colon|done]|].
  change (join_text (lit ":") (g :: h :: gs)) with (g ++ 58 :: join_text (lit ":") (h :: gs)).
  rewrite <- app_assoc. cbn [app]. rewrite !apart_group by done.
  assert (exists r, join_text (lit ":") (h :: gs) = h ++ r) as [r Hr].
  { destruct gs; [exists []; by rewrite app_nil_r|by eexists]. }
  apply Forall_cons_1 in Hgs as [Hh _]. apply group_shape in Hh as (Hne & Hh & _).
  rewrite Hr in *. rewrite <- app_assoc in *. by rewrite !apart_after_colon by done.
Qed.

(** ** The parser is exact *)

Lemma replicate_zero n : List.map hex_number (replicate n (lit "0")) = replicate n 0.
Proof. induction n as [|n IH]; [done|]. cbn [replicate List.map]. by rewrite IH. Qed.

Lemma zero_groups n : forallb is_group (replicate n (lit "0")) = true.
Proof. induction n as [|n IH]; [done|]. cbn [replicate forallb]. by rewrite IH. Qed.

Lemma forallb_groups gs : forallb is_group gs = true <-> hex_groups gs.
Proof. unfold hex_groups. rewrite Forall_forall, List.forallb_forall. setoid_rewrite list_elem_of_In. done. Qed.

Lemma head_groups_sound a gs : head_groups a = Some gs -> plain_spelling a gs.
Proof.
  unfold head_groups. intros Hg. pose proof (join_split 58 [58] a) as Ha.
  change (lit "::") with [58; 58] in *.
  destruct (split_text [58; 58] a) as [|front [|back [|]]]; try done.
  - case_match eqn:Hm; [done|]. case_match eqn:Hf; [|done]. injection Hg as <-.
    replace (Z.to_nat _) with 0%nat in * by lia. cbn [replicate app] in *. rewrite app_nil_r in *.
    cbn in Ha. subst front. rewrite <- (join_parse_part a) at 1. apply spell_full; [lia|by apply forallb_groups].
  - case_match eqn:Hm; [done|]. case_match eqn:Hf; [|done]. injection Hg as <-.
    rewrite !forallb_app, !andb_true_iff, !forallb_groups in Hf. destruct Hf as (Hl & _ & Hr).
    rewrite !List.map_app, replicate_zero. change (join_text [58; 58] [front; back]) with (front ++ [58; 58] ++ back) in Ha.
    subst a. rewrite <- (join_parse_part front) at 1. rewrite <- (join_parse_part back) at 1.
    replace (Z.to_nat _) with (8 - length (parse_part front) - length (parse_part back))%nat by lia.
    apply spell_gap; [done..|lia].
Qed.

Lemma head_groups_complete a gs : plain_spelling a gs -> head_groups a = Some gs.
Proof.
  intros [g Hl Hg|l r Hl Hr Hlen]; unfold head_groups.
  - assert (split_text (lit "::") (join_text (lit ":") g) = [join_text (lit ":") g]) as ->.
    { apply (split_no_pair _ []). by apply apart_join. }
    rewrite parse_part_join, Hl by done. cbn [Z.of_nat replicate app Z.to_nat Z.sub]. rewrite app_nil_r.
    by rewrite (proj2 (forallb_groups g)).
  - assert (split_text (lit "::") (join_text (lit ":") l ++ lit "::" ++ join_text (lit ":") r) =
              [join_text (lit ":") l; join_text (lit ":") r]) as ->.
    { change (split_text (lit "::")) with (split_units (lit "::") 0 []). rewrite split_at_pair by by apply apart_join.
      f_equal. apply (split_no_pair _ []). by apply apart_join. }
    rewrite !parse_part_join by done. case_match eqn:Hm; [lia|].
    rewrite !forallb_app, zero_groups, (proj2 (forallb_groups l)), (proj2 (forallb_groups r)) by done. cbn [andb].
    rewrite !List.map_app, replicate_zero. do 3 f_equal. f_equal. lia.
Qed.

Lemma hex_unit_bound c : is_hex c = true -> 0 <= hex_unit c < 16.
Proof. unfold is_hex, is_decimal, hex_unit. intros Hc. repeat case_match; lia. Qed.

Lemma group_value g : is_group g = true -> is_group_value (hex_number g).
Proof.
  intros Hg. pose proof (group_shape g Hg) as (_ & _ & Hh). unfold is_group in Hg.
  assert (length g <= 4)%nat as Hl by lia. unfold hex_number, is_group_value.
  assert (forall v n, 0 <= v -> (v + 1) * 16 ^ Z.of_nat (length g) <= n -> 0 <= foldl (fun v c => 16 * v + hex_unit c) v g < n) as Hf.
  { clear Hg Hl. induction Hh as [|c g Hc Hg IH]; intros v n Hv Hn; cbn [foldl length] in *; [lia|].
    apply hex_unit_bound in Hc. apply IH; [lia|].
    rewrite Nat2Z.inj_succ, Z.pow_succ_r in Hn by lia. pose proof (Z.pow_pos_nonneg 16 (Z.of_nat (length g)) ltac:(lia) ltac:(lia)). nia. }
  apply Hf; [lia|]. pose proof (Z.pow_le_mono_r 16 (Z.of_nat (length g)) 4 ltac:(lia) ltac:(lia)). lia.
Qed.

Lemma plain_values a gs : plain_spelling a gs -> length gs = 8%nat /\ Forall is_group_value gs.
Proof.
  assert (forall g, hex_groups g -> Forall is_group_value (List.map hex_number g)) as Hm.
  { intros g. induction 1; constructor; [by apply group_value|done]. }
  intros [g Hl Hg|l r Hl Hr Hlen].
  - rewrite List.length_map. auto.
  - split; [rewrite !length_app, !List.length_map, length_replicate; lia|].
    apply Forall_app. split; [auto|]. apply Forall_app. split; [|auto].
    apply Forall_replicate. unfold is_group_value. lia.
Qed.

Lemma spelling_values a gs : spelling a gs -> length gs = 8%nat /\ Forall is_group_value gs.
Proof. intros [|]; by eapply plain_values. Qed.

(** ** The dotted quad at the end *)

Section Units.
Context (P : Z -> Prop).

(** Every unit a pattern can read satisfies [P]. *)
Fixpoint reads_only (p : pattern) : Prop :=
  match p with
  | PUnit c => P c
  | PRange lo hi => forall c, lo <= c <= hi -> P c
  | PEnd => True
  | PSeq p q | PAlt p q => reads_only p /\ reads_only q
  end.

Lemma rests_read p : forall a z, reads_only p -> z ∈ rests p a -> exists x, a = x ++ z /\ Forall P x.
Proof.
  induction p as [c|lo hi| |p IHp q IHq|p IHp q IHq]; intros a z Hp; cbn [rests reads_only] in *.
  - destruct a as [|c' a]; [by intros ?%elem_of_nil|]. destruct (Z.eqb_spec c' c) as [->|]; [|by intros ?%elem_of_nil].
    intros ->%list_elem_of_singleton. exists [c]. auto.
  - destruct a as [|c' a]; [by intros ?%elem_of_nil|]. case_match eqn:E; [|by intros ?%elem_of_nil].
    intros ->%list_elem_of_singleton. exists [c']. split; [done|]. constructor; [apply Hp; lia|done].
  - destruct a; [|by intros ?%elem_of_nil]. intros ->%list_elem_of_singleton. by exists [].
  - destruct Hp as [Hp Hq]. intros Hz. apply list_elem_of_In, List.in_concat in Hz as (l & Hl & Hz).
    apply List.in_map_iff in Hl as (y & <- & Hy). apply list_elem_of_In in Hz, Hy.
    destruct (IHp a y Hp Hy) as (x1 & -> & H1), (IHq y z Hq Hz) as (x2 & -> & H2).
    exists (x1 ++ x2). split; [by rewrite app_assoc|]. by apply Forall_app.
  - destruct Hp as [Hp Hq]. intros [Hz|Hz]%elem_of_app; eauto.
Qed.
End Units.

Definition quad_unit (c : Z) : Prop := is_decimal c = true \/ c = 46.

Lemma quad_units q : test IPV4_LITERAL_RE q = true -> Forall quad_unit q.
Proof.
  unfold test. destruct (rests IPV4_LITERAL_RE q) as [|z zs] eqn:Hr; [done|]. intros _.
  assert (z ∈ rests IPV4_LITERAL_RE q) as Hz by (rewrite Hr; left).
  assert (z = []) as ->.
  { unfold IPV4_LITERAL_RE in Hz. cbn [rests] in Hz.
    repeat match goal with H : _ ∈ concat _ |- _ =>
      apply list_elem_of_In, List.in_concat in H as (? & Hl & H); apply List.in_map_iff in Hl as (? & <- & _);
      apply list_elem_of_In in H end.
    case_match; [by apply list_elem_of_singleton in Hz|by apply elem_of_nil in Hz]. }
  destruct (rests_read quad_unit IPV4_LITERAL_RE q []) as (x & -> & Hx); [|done|by rewrite app_nil_r].
  cbn. unfold quad_unit, is_decimal. split_and!; intros; lia.
Qed.

(** Digits alone are not a dotted quad. *)
Lemma quad_has_dot q : decimals q -> test IPV4_LITERAL_RE q = false.
Proof.
  intros Hq. rewrite test_accepts. unfold IPV4_LITERAL_RE. rewrite leaves_seq. unfold accepts at 1.
  pose proof (rests_decimals POctet q) as Hz. induction (rests POctet q) as [|z zs IH]; [done|]. cbn [existsb].
  rewrite IH by (intros; apply Hz; [done|by right]). rewrite orb_false_r, !leaves_seq. unfold PDot. rewrite accepts_unit.
  specialize (Hz z Hq ltac:(left)). destruct Hz as [|c z Hc Hz]; [done|].
  unfold is_decimal in Hc. by replace (c =? 46) with false by lia.
Qed.

Lemma plain_units a gs : plain_spelling a gs -> Forall (fun c => is_hex c = true \/ c = 58) a.
Proof.
  assert (forall g, hex_groups g -> Forall (fun c => is_hex c = true \/ c = 58) (join_text (lit ":") g)) as Hj.
  { induction 1 as [|g gs' Hg Hgs IH]; [done|]. apply group_shape in Hg as (_ & _ & Hg).
    assert (Forall (fun c => is_hex c = true \/ c = 58) g) by (eapply Forall_impl; [done|auto]).
    destruct gs'; [done|]. change (join_text (lit ":") (g :: ?h :: gs')) with (g ++ 58 :: join_text (lit ":") (h :: gs')).
    apply Forall_app. auto. }
  intros [g Hl Hg|l r Hl Hr Hlen]; [auto|].
  rewrite !Forall_app. split_and!; [auto|by repeat (constructor; [by right|])|auto].
Qed.

Lemma last_colon_unique x q x' q' : no_colon q -> no_colon q' -> x ++ 58 :: q = x' ++ 58 :: q' -> x = x' /\ q = q'.
Proof.
  assert (forall z r, no_colon (z ++ 58 :: r) -> False) as Hn.
  { intros z r Hz. unfold no_colon, no_unit in Hz. rewrite Forall_app, Forall_cons in Hz. intuition discriminate. }
  intros Hq Hq'. revert x'. induction x as [|c x IH]; intros [|c' x'] Hx; cbn in Hx.
  - naive_solver.
  - injection Hx as <- ->. by apply Hn in Hq.
  - injection Hx as -> <-. by apply Hn in Hq'.
  - injection Hx as -> Hx. destruct (IH x' Hx) as [-> ->]. done.
Qed.

Definition dotted_cut (c : text * text) : bool :=
  ends_with c.1 (lit ":") && negb (existsb is_terminator c.1) && test IPV4_LITERAL_RE c.2.

Lemma elem_of_cuts a c : c ∈ cuts a <-> a = c.1 ++ c.2.
Proof.
  unfold cuts. rewrite list_elem_of_In, List.in_map_iff. setoid_rewrite <- in_rev. setoid_rewrite in_seq. split.
  - intros (n & <- & _). cbn. by rewrite take_drop.
  - intros ->. exists (length c.1). rewrite take_app_length, drop_app_length, length_app. split; [by destruct c|lia].
Qed.

Lemma quad_no_colon q : test IPV4_LITERAL_RE q = true -> no_colon q.
Proof. intros Hq. eapply Forall_impl; [by apply quad_units|]. unfold quad_unit, is_decimal. intros; lia. Qed.

Lemma dotted_groups_some a f q : dotted_groups a = Some (f, q) ->
  a = f ++ q /\ test IPV4_LITERAL_RE q = true /\ exists front, f = front ++ lit ":".
Proof.
  intros Hd. apply List.find_some in Hd as [Hc Hd]. apply list_elem_of_In, elem_of_cuts in Hc.
  cbn [fst snd] in *. rewrite !andb_true_iff in Hd. destruct Hd as [[He _] Hq]. apply ends_with_spec in He. done.
Qed.

Lemma dotted_groups_found front q :
  test IPV4_LITERAL_RE q = true -> existsb is_terminator (front ++ lit ":") = false ->
  dotted_groups ((front ++ lit ":") ++ q) = Some (front ++ lit ":", q).
Proof.
  intros Hq Ht. destruct (dotted_groups ((front ++ lit ":") ++ q)) as [[f q']|] eqn:Hd.
  - apply dotted_groups_some in Hd as (He & Hq' & front' & ->). rewrite <- !app_assoc in He.
    apply last_colon_unique in He as [-> ->]; [done|by apply quad_no_colon..].
  - exfalso. pose proof (List.find_none _ _ Hd (front ++ lit ":", q)) as Hn. cbn [fst snd] in Hn.
    rewrite Ht, Hq, (proj2 (ends_with_spec _ _)) in Hn by by eexists.
    apply Bool.diff_true_false. apply Hn. by apply list_elem_of_In, elem_of_cuts.
Qed.

Lemma existsb_bound (l : list Z) : existsb (fun octet => 255 <? octet) l = false <-> Forall (fun octet => octet <= 255) l.
Proof.
  induction l as [|x l IH]; cbn; [done|]. rewrite orb_false_iff, IH, Forall_cons. by rewrite Z.ltb_ge.
Qed.

(** [ipv6Groups] returns the groups of every spelling and nothing for other texts. *)
Lemma ipv6Groups_exact a gs : ipv6Groups a = Some gs <-> spelling a gs.
Proof.
  split.
  - unfold ipv6Groups. destruct (dotted_groups a) as [[f q]|] eqn:Hd.
    + apply dotted_groups_some in Hd as (-> & Hq & front & ->). case_match eqn:Hb; [done|].
      intros Hg%head_groups_sound. eapply spell_dotted; [|exact Hg]. split_and!; [done..|by apply existsb_bound].
    + intros Hg%head_groups_sound. by apply spell_plain.
  - intros [b g Hp|front q quad g (Hq & -> & Hb) Hp]; unfold ipv6Groups.
    + destruct (dotted_groups b) as [[f q]|] eqn:Hd; [|by apply head_groups_complete]. exfalso.
      apply dotted_groups_some in Hd as (-> & Hq & _). apply plain_units in Hp. apply Forall_app in Hp as [_ Hp].
      pose proof (quad_units q Hq) as Hu. rewrite quad_has_dot in Hq; [done|].
      unfold decimals. rewrite Forall_forall in *. intros c Hc. specialize (Hp c Hc). specialize (Hu c Hc). unfold quad_unit, is_hex, is_decimal in *. lia.
    + rewrite dotted_groups_found; [|done|].
      * rewrite (proj2 (existsb_bound _)) by done. by apply head_groups_complete.
      * apply plain_units, Forall_app in Hp as [Hp _]. apply not_true_iff_false.
        intros (c & Hc & Ht)%List.existsb_exists. apply list_elem_of_In in Hc.
        pose proof (proj1 (Forall_forall _ _) Hp c Hc). unfold is_terminator, is_hex, is_decimal in *. lia.
Qed.

(** ** An IPv4 address inside an IPv6 one *)

Lemma hex_digit_unit d : 0 <= d < 16 -> is_hex (hex_digit d) = true /\ hex_unit (hex_digit d) = d.
Proof. intros Hd. unfold hex_digit, is_hex, is_decimal, hex_unit. repeat case_match; lia. Qed.

Lemma hex_text_group n : is_group_value n -> is_group (hex_text n) = true /\ hex_number (hex_text n) = n.
Proof.
  unfold is_group_value. intros Hn. unfold hex_text.
  repeat case_match; unfold is_group, hex_number; cbn [length forallb foldl];
    repeat match goal with |- context [hex_digit ?d] =>
      let H1 := fresh in let H2 := fresh in
      destruct (hex_digit_unit d) as [H1 H2]; [Z.to_euclidean_division_equations; lia|];
      rewrite ?H1, ?H2; revert H1 H2; generalize (hex_digit d); intros ? _ _ end;
    (split; [done|]); Z.to_euclidean_division_equations; lia.
Qed.

Lemma join_octet a b : 0 <= a <= 255 -> 0 <= b <= 255 -> Z.lor (Z.shiftl a 8) b = a * 256 + b.
Proof.
  intros Ha Hb. rewrite Z.shiftl_mul_pow2 by lia. change (2 ^ 8) with 256.
  symmetry. rewrite <- Z.lxor_lor, Z.add_nocarry_lxor; try done; apply Z.bits_inj'; intros i Hi;
    rewrite Z.land_spec, Z.bits_0; replace 256 with (2 ^ 8) by done; rewrite Z.mul_pow2_bits by lia;
    (destruct (Z.lt_ge_cases i 8); [by rewrite Z.testbit_neg_r by lia|]);
    rewrite (Z.bits_above_log2 b i), andb_false_r; try done; try lia.
  all: destruct (Z.eq_dec b 0) as [->|]; [cbn; lia|apply Z.log2_lt_pow2; [lia|]].
  all: apply Z.lt_le_trans with (2 ^ 8); [lia|apply Z.pow_le_mono_r; lia].
Qed.

Lemma octet_number a : 0 <= a <= 255 -> decimal_number (digits_text a) = a.
Proof.
  intros Ha. apply Z.eqb_eq. by apply (octet_check (fun a => decimal_number (digits_text a) =? a)); [vm_compute|].
Qed.

Lemma split_dotted a b c d : 0 <= a <= 255 -> 0 <= b <= 255 -> 0 <= c <= 255 -> 0 <= d <= 255 ->
  List.map decimal_number (split_text (lit ".") (dotted a b c d)) = [a; b; c; d].
Proof.
  intros Ha Hb Hc Hd. rewrite dotted_units. change (split_text (lit ".")) with (split_units [46] 0 []).
  assert (forall x, 0 <= x <= 255 -> no_unit 46 (digits_text x)) as Hx.
  { intros x Hr. eapply Forall_impl; [by apply octet_decimals|]. cbn. unfold is_decimal. intros; lia. }
  rewrite !split_at_unit, split_no_unit by by apply Hx. cbn [app List.map]. by rewrite !octet_number.
Qed.

(** A mapped address faces the IPv4 rules. *)
Lemma mapped_judged a b c d : 0 <= a <= 255 -> 0 <= b <= 255 -> 0 <= c <= 255 -> 0 <= d <= 255 ->
  spelling (lit "::ffff:" ++ dotted a b c d) [0; 0; 0; 0; 0; 0xffff; a * 256 + b; c * 256 + d] /\
  refused6 (v6 [0; 0; 0; 0; 0; 0xffff; a * 256 + b; c * 256 + d]) = refused4 (v4 a b c d).
Proof.
  intros Ha Hb Hc Hd.
  assert (is_group_value (a * 256 + b)) as H1 by (unfold is_group_value; lia).
  assert (is_group_value (c * 256 + d)) as H2 by (unfold is_group_value; lia).
  assert (is_group_value 0 /\ is_group_value 0xffff) as [H0 Hf] by (unfold is_group_value; lia).
  split.
  - apply (spell_dotted (lit "::ffff") _ [a; b; c; d]).
    { split_and!; [by apply literal_dotted|by rewrite split_dotted|repeat constructor; lia]. }
    cbn [quad_tail]. rewrite !join_octet by done.
    destruct (hex_text_group _ H1) as [G1 E1], (hex_text_group _ H2) as [G2 E2].
    pose proof (spell_gap [] [lit "ffff"; hex_text (a * 256 + b); hex_text (c * 256 + d)]) as Hs.
    cbn [List.map length Nat.sub replicate app] in Hs. rewrite E1, E2 in Hs. apply Hs; repeat constructor; done || lia.
  - rewrite <- groups_judged_eight by done.
    change (isPrivateIPv4 (dottedFrom (a * 256 + b) (c * 256 + d)) = refused4 (v4 a b c d)).
    rewrite dottedFrom_value by done. f_equal. unfold v4. lia.
Qed.
