(* ===== verification/SafeHost.v ===== *)
(** * Hosts a request may reach

    [isPrivateHost] and [parseExternalUrl] of lib/safe-fetch, judged for the
    four shapes of a host the URL parser returns. *)

From Stdlib Require Import Ascii String.
From stdpp Require Import prelude list.
From Stdlib Require Import ZArith Lia ZifyBool.
From S2P Require Import Prelude.
From S2P Require Import JsString.
From S2P Require Import IngestSha256.
From S2P Require Import IngestRegex.
From S2P Require Import JsUnits.
From S2P Require Import SafeAddress.
From S2P Require Import SafeBlocks.
From S2P Require Import SafeLiteral.

Open Scope Z_scope.
Local Open Scope maple_scope.

(** ** Specification *)

Definition octet (n : Z) : Prop := 0 <= n <= 255.

Definition bracketed (inner : text) : text := lit "[" ++ inner ++ lit "]".

(** The name, or a zone it lies in, is one that only resolves inside a network. *)
Definition internal_name (name : text) : Prop :=
  name ∈ BLOCKED_HOSTNAMES \/
  exists suffix, suffix ∈ BLOCKED_HOSTNAME_SUFFIXES /\ (name = suffix \/ exists zone, name = zone ++ lit "." ++ suffix).

(** ** Names *)

Lemma internal_name_iff name : bool_decide (name ∈ BLOCKED_HOSTNAMES) || hasBlockedSuffix name = true <-> internal_name name.
Proof.
  unfold internal_name, hasBlockedSuffix. rewrite orb_true_iff, bool_decide_eq_true, List.existsb_exists.
  setoid_rewrite orb_true_iff. setoid_rewrite bool_decide_eq_true. setoid_rewrite ends_with_spec.
  by setoid_rewrite list_elem_of_In.
Qed.

(** Every blocked name ends in a letter. *)
Lemma internal_ends_in_letter name : internal_name name -> exists c, last name = Some c /\ 97 <= c <= 122.
Proof.
  assert (forall s, s ∈ BLOCKED_HOSTNAMES ++ BLOCKED_HOSTNAME_SUFFIXES -> exists c, last s = Some c /\ 97 <= c <= 122) as Hs.
  { intros s Hs. apply list_elem_of_In in Hs.
    assert (forallb (fun s => match last s with Some c => (97 <=? c) && (c <=? 122) | None => false end)
              (BLOCKED_HOSTNAMES ++ BLOCKED_HOSTNAME_SUFFIXES) = true) as Hf by by vm_compute.
    apply (proj1 (List.forallb_forall _ _) Hf) in Hs. destruct (last s) as [c|]; [|done]. exists c. split; [done|lia]. }
  intros [Hn|(suffix & Hn & Hz)]; [apply Hs; by apply elem_of_app; left|].
  destruct (Hs suffix) as (c & Hc & Hr); [by apply elem_of_app; right|]. exists c. split; [|done].
  destruct Hz as [->|(zone & ->)]; [done|]. by rewrite last_app, last_app, Hc.
Qed.

Lemma not_internal name c : last name = Some c -> ~ 97 <= c <= 122 ->
  bool_decide (name ∈ BLOCKED_HOSTNAMES) || hasBlockedSuffix name = false.
Proof.
  intros Hl Hc. apply not_true_iff_false. rewrite internal_name_iff.
  intros (d & Hd & Hr)%internal_ends_in_letter. naive_solver.
Qed.

Lemma includes_colon a : includes_text (lit ":") a = false <-> no_colon a.
Proof.
  induction a as [|c a IH]; [by split; [constructor|]|]. unfold no_colon, no_unit in *.
  change (includes_text (lit ":") (c :: a)) with (((c =? 58) && starts_with a []) || includes_text (lit ":") a).
  rewrite Forall_cons, <- IH, orb_false_iff. replace (starts_with a []) with true by by destruct a.
  rewrite andb_true_r. done.
Qed.

Lemma unbracketed_bracketed inner : unbracketed (bracketed inner) = inner.
Proof.
  unfold unbracketed, bracketed. replace (starts_with _ _) with true by (symmetry; apply starts_with_spec; by eexists).
  replace (ends_with _ _) with true
    by (symmetry; apply ends_with_spec; exists (lit "[" ++ inner); by rewrite app_assoc).
  change (drop 1 (lit "[" ++ inner ++ lit "]")) with (inner ++ lit "]"). rewrite !length_app.
  change (length (lit "[")) with 1%nat. change (length (lit "]")) with 1%nat. cbn [andb].
  replace (1 + (length inner + 1) - 2)%nat with (length inner) by lia. by rewrite take_app_length.
Qed.

Lemma unbracketed_name h : starts_with h (lit "[") = false -> unbracketed h = h.
Proof. unfold unbracketed. by intros ->. Qed.

(** A text without a colon is no IPv6 literal. *)
Lemma no_colon_no_spelling a gs : no_colon a -> ~ spelling a gs.
Proof.
  intros Ha Hs. assert (58 ∈ a) as Hin.
  { destruct Hs as [b g Hp|front q quad g Hq Hp]; [|rewrite !elem_of_app; left; right; by left].
    destruct Hp as [gs Hl Hg|l r Hl Hr Hlen].
    - destruct gs as [|g1 [|g2 gs]]; [done..|].
      change (join_text (lit ":") (g1 :: g2 :: gs)) with (g1 ++ 58 :: join_text (lit ":") (g2 :: gs)). set_solver.
    - rewrite !elem_of_app. right. left. by left. }
  unfold no_colon, no_unit in Ha. pose proof (proj1 (Forall_forall _ _) Ha 58 Hin). done.
Qed.

Lemma isPrivateIPv6_name h : starts_with h (lit "[") = false -> no_colon h -> isPrivateIPv6 h = false.
Proof.
  intros Hb Hc. unfold isPrivateIPv6. rewrite unbracketed_name by done.
  destruct (ipv6Groups h) as [gs|] eqn:Hg; [by apply ipv6Groups_exact, no_colon_no_spelling in Hg|].
  rewrite Hb. by apply includes_colon.
Qed.

Lemma isPrivateIPv6_spelled inner gs : spelling inner gs -> isPrivateIPv6 (bracketed inner) = refused6 (v6 gs).
Proof.
  intros Hs. unfold isPrivateIPv6. rewrite unbracketed_bracketed, (proj2 (ipv6Groups_exact _ _) Hs).
  destruct (spelling_values _ _ Hs). by apply groups_judged.
Qed.

Lemma isPrivateIPv4_not_literal h : test IPV4_LITERAL_RE h = false -> isPrivateIPv4 h = false.
Proof. unfold isPrivateIPv4. by intros ->. Qed.

Lemma dotted_last a b c d : octet d -> exists u, last (dotted a b c d) = Some u /\ is_decimal u = true.
Proof.
  intros Hd. unfold dotted. rewrite !last_app.
  assert (exists u, last (digits_text d) = Some u /\ is_decimal u = true) as (u & -> & Hu); [|by exists u].
  pose proof (octet_decimals d Hd) as Hdec.
  destruct (last (digits_text d)) as [u|] eqn:Hl.
  - exists u. split; [done|]. apply (proj1 (Forall_forall _ _) Hdec). apply last_Some_elem_of. done.
  - apply last_None in Hl. assert (negb (is_nil (digits_text d)) = true) as Hne.
    { by apply (octet_check (fun d => negb (is_nil (digits_text d)))); [vm_compute|]. }
    by rewrite Hl in Hne.
Qed.

Lemma bracketed_last inner : last (bracketed inner) = Some 93.
Proof. unfold bracketed. by rewrite !last_app. Qed.

Section Hosts.
Context (toLowerCase : text -> text).

(** C12: every host is judged by what it is, after lower-casing and without its
    trailing dot. A dotted quad is refused exactly when its 32-bit address lies
    in one of fifteen blocks; a bracketed literal that spells eight groups in any
    way RFC 4291 allows (a gap, a dotted quad at the end) exactly when its
    128-bit address lies in a refused block or carries a refused IPv4 address;
    any other bracketed host is refused; and a name exactly when it, or a zone it
    lies in, is on the lists. *)
Theorem host_judged hostname h :
  canonicalHostname toLowerCase hostname = h ->
  (forall a b c d, h = dotted a b c d -> octet a -> octet b -> octet c -> octet d ->
     isPrivateHost toLowerCase hostname = refused4 (v4 a b c d)) /\
  (forall inner gs, h = bracketed inner -> spelling inner gs ->
     isPrivateHost toLowerCase hostname = refused6 (v6 gs)) /\
  (forall inner, h = bracketed inner -> (forall gs, ~ spelling inner gs) ->
     isPrivateHost toLowerCase hostname = true) /\
  (test IPV4_LITERAL_RE h = false -> starts_with h (lit "[") = false -> no_colon h ->
     isPrivateHost toLowerCase hostname = true <-> internal_name h).
Proof.
  unfold isPrivateHost. intros ->. split_and!.
  - intros a b c d -> Ha Hb Hc Hd. destruct (dotted_last a b c d Hd) as (u & Hu & Hdec).
    rewrite (not_internal _ u) by (unfold is_decimal in Hdec; first [done|lia]).
    rewrite private_dotted by done. rewrite isPrivateIPv6_name; [by destruct (refused4 _)| |].
    + apply not_true_iff_false. intros (r & Hr)%starts_with_spec. pose proof (quad_units _ (literal_dotted a b c d Ha Hb Hc Hd)) as Hq.
      change (lit "[") with [91] in Hr. rewrite Hr in Hq. apply Forall_cons in Hq as [Hq _]. unfold quad_unit, is_decimal in Hq. lia.
    + by apply quad_no_colon, literal_dotted.
  - intros inner gs -> Hs. rewrite (not_internal _ 93) by (first [apply bracketed_last|lia]).
    rewrite isPrivateIPv6_spelled with (gs := gs) by done. rewrite isPrivateIPv4_not_literal; [by destruct (refused6 _)|].
    apply not_true_iff_false. intros Hq%quad_units.
    change (bracketed inner) with (91 :: inner ++ lit "]") in Hq. apply Forall_cons in Hq as [Hq _]. unfold quad_unit, is_decimal in Hq. lia.
  - intros inner -> Hs. rewrite (not_internal _ 93) by (first [apply bracketed_last|lia]).
    replace (isPrivateIPv6 (bracketed inner)) with true; [by destruct (isPrivateIPv4 _)|].
    unfold isPrivateIPv6. rewrite unbracketed_bracketed. destruct (ipv6Groups inner) as [gs|] eqn:Hg.
    + by apply ipv6Groups_exact, Hs in Hg.
    + replace (starts_with _ _) with true; [done|]. symmetry. apply starts_with_spec. by eexists.
  - intros Hq Hb Hc. rewrite isPrivateIPv4_not_literal, isPrivateIPv6_name by done. rewrite <- internal_name_iff.
    by destruct (_ || _).
Qed.
End Hosts.

(** The same rules for an address a resolver returned; an answer that is no
    address is refused. *)
Lemma address_judged :
  (forall a b c d, octet a -> octet b -> octet c -> octet d ->
     isPrivateAddress (dotted a b c d) = refused4 (v4 a b c d)) /\
  (forall a gs, starts_with a (lit "[") = false -> spelling a gs -> isPrivateAddress a = refused6 (v6 gs)) /\
  (forall a, starts_with a (lit "[") = false -> test IPV4_LITERAL_RE a = false -> (forall gs, ~ spelling a gs) ->
     isPrivateAddress a = true).
Proof.
  unfold isPrivateAddress. split_and!.
  - intros a b c d Ha Hb Hc Hd. rewrite (proj2 (includes_colon _)) by by apply quad_no_colon, literal_dotted.
    by rewrite literal_dotted, private_dotted.
  - intros a gs Hb Hs. destruct (includes_text (lit ":") a) eqn:Hc.
    + unfold isPrivateIPv6. rewrite unbracketed_name, (proj2 (ipv6Groups_exact _ _) Hs) by done.
      destruct (spelling_values _ _ Hs). by apply groups_judged.
    + apply includes_colon in Hc. by apply no_colon_no_spelling in Hs.
  - intros a Hb Hq Hs. destruct (includes_text (lit ":") a) eqn:Hc; [|by rewrite Hq].
    unfold isPrivateIPv6. rewrite unbracketed_name by done. destruct (ipv6Groups a) as [gs|] eqn:Hg.
    + by apply ipv6Groups_exact, Hs in Hg.
    + by rewrite Hc, orb_true_r.
Qed.

(** A mapped private address in brackets and a name under a refused zone. *)
Example host_judged_witness :
  isPrivateHost id (lit "[::ffff:10.0.0.1]") = refused4 (v4 10 0 0 1) /\
  isPrivateHost id (lit "127.0.0.1.") = refused4 (v4 127 0 0 1) /\
  (isPrivateHost id (lit "db.corp") = true <-> internal_name (lit "db.corp")).
Proof.
  split_and!.
  - destruct (mapped_judged 10 0 0 1) as [Hs <-]; [lia..|].
    apply (proj1 (proj2 (host_judged id (lit "[::ffff:10.0.0.1]") (lit "[::ffff:10.0.0.1]") eq_refl))
             (lit "::ffff:10.0.0.1")); [reflexivity|exact Hs].
  - apply (proj1 (host_judged id (lit "127.0.0.1.") (lit "127.0.0.1") eq_refl) 127 0 0 1); [reflexivity|unfold octet; lia..].
  - apply (proj2 (proj2 (proj2 (host_judged id (lit "db.corp") (lit "db.corp") eq_refl)))); [reflexivity..|].
    by apply includes_colon.
Defined.
