(* ===== verification/SafeGuard.v ===== *)
(** * Guarded requests

    [guard] and [guardPinned] of lib/safe-fetch: a client that validates every
    hop of a redirect chain, drops credentials across origins and pins host
    names to addresses, and the bounded readers of response bodies. Requests are
    values of Effect's HTTP client and come through the interface [RequestApi];
    the network is a function of what was sent before, so it may answer the same
    request differently each time. The resolver is a function of what was sent
    and of the lookups the hop has made, so two lookups of one name may disagree,
    even within a hop; the lookups of a hop are recorded with what it sent. *)

From Stdlib Require Import Ascii String.
From stdpp Require Import prelude list.
From Stdlib Require Import ZArith Lia.
From S2P Require Import Prelude.
From S2P Require Import JsString.
From S2P Require Import IngestSha256.
From S2P Require Import IngestRegex.
From S2P Require Import JsUnits.
From S2P Require Import SafeAddress.

Open Scope Z_scope.
Local Open Scope maple_scope.

(** ** Requests *)

(** [HttpClientRequest] as the guard uses it: [req_target] is
    [Url.make(request.url, request.urlParams, request.hash)] and [req_headers]
    are the keys of [request.headers]. *)
Class RequestApi `{UrlApi} := {
  Request : Type;
  req_url : Request -> text;
  req_target : Request -> option URL;
  req_method : Request -> text;
  req_bodyless : Request -> bool;
  req_headers : Request -> list text;
  removeHeader : Request -> text -> Request;
  setHeader : Request -> text -> text -> Request;
  setUrl : Request -> URL -> Request;
  setEmptyBody : Request -> Request;
  setMethod : Request -> text -> Request;
}.

Record Response := { status : Z; location : option text }.

Definition MAX_REDIRECTS : Z := 5.

Definition CREDENTIAL_HEADERS : list text := List.map lit ["authorization"; "cookie"; "proxy-authorization"]%string.

Record GuardOptions := { strictRedirects : option bool; optionHeaders : option (list text) }.

Definition SEE_OTHER_STATUSES : list Z := [301; 302; 303].

Record HostResolutionError := { re_message : text; re_hostname : text }.

Inductive guard_error (E : Type) :=
  | Refused (e : UrlValidationError)
  | Unresolved (e : HostResolutionError)
  | Failed (e : E).
Arguments Refused {E} e.
Arguments Unresolved {E} e.
Arguments Failed {E} e.

Definition map_error {E F A} (f : E -> F) (m : result E A) : result F A :=
  match m with Ok a => Ok a | Err e => Err (f e) end.

Section Guard.
Context `{RequestApi} (toLowerCase : text -> text) {E : Type}.

Definition withoutCredentialHeaders (request : Request) : Request :=
  fold_left removeHeader CREDENTIAL_HEADERS request.

Definition withoutHeaders (request : Request) (keep : list text) : Request :=
  fold_left removeHeader (List.filter (fun name => negb (bool_decide (toLowerCase name ∈ keep))) (req_headers request))
    request.

Definition strictRedirectRequest (request : Request) (st : Z) (crossOrigin : bool) : Request :=
  if negb (bool_decide (st ∈ SEE_OTHER_STATUSES)) && negb crossOrigin then request
  else
    let bodyless := setEmptyBody request in
    if bool_decide (req_method request = lit "HEAD") then bodyless else setMethod bodyless (lit "GET").

Definition requestUrl (request : Request) : result (guard_error E) URL :=
  match req_target request with
  | Some u => Ok u
  | None => Err (Refused (validation_error (lit "Invalid URL: " ++ req_url request) (Some (req_url request))))
  end.

(** What a hop sends, and the TLS name it verifies. *)
Record Dial := { dial_request : Request; serverName : option text }.

(** A lookup of a name, and its answer. *)
Record Lookup := { lk_host : text; lk_answer : result HostResolutionError (list text) }.

(** A request that was sent, with the URL it was validated under and the lookups
    its hop made. *)
Record Sent := { sent_lookups : list Lookup; sent_dial : Dial; sent_url : URL }.

(** The network after what was sent so far, and the resolver after that and the
    lookups of the hop. *)
Context (execute : list Sent -> Dial -> result E Response)
        (resolve : list Sent -> list Lookup -> text -> result HostResolutionError (list text)).

(** What a dial does: the lookups it makes, and the request to send. *)
Definition Dialling : Type := list Lookup * result (guard_error E) Dial.

Definition bracket_address (address : text) : text :=
  if includes_text (lit ":") address then lit "[" ++ address ++ lit "]" else address.

Definition pinTo (sent : list Sent) (request : Request) (url : URL) : Dialling :=
  let hostname := canonicalHostname toLowerCase (url_hostname url) in
  if test IPV4_LITERAL_RE hostname || starts_with hostname (lit "[") then
    ([], Ok {| dial_request := request; serverName := None |})
  else
    let answer := resolve sent [] hostname in
    ([{| lk_host := hostname; lk_answer := answer |}],
    let! addresses := map_error Unresolved answer in
    let first := match List.find (fun address => negb (includes_text (lit ":") address)) addresses with
                 | Some address => Some address
                 | None => head addresses
                 end in
    let refused := Err (Refused (validation_error
                     (lit "URL host '" ++ url_hostname url ++
                      lit "' resolves to a loopback, private, or metadata address") None)) in
    match first with
    | None => refused
    | Some address =>
        if existsb isPrivateAddress addresses then refused
        else
          let pinned := url_with_hostname url (bracket_address address) in
          Ok {| dial_request := setHeader (setUrl request pinned) (lit "host") (url_host url);
                serverName := Some hostname |}
    end).

(** The dial of [guard]: the request as it is. *)
Definition dial_plain (sent : list Sent) (request : Request) (url : URL) : Dialling :=
  ([], Ok {| dial_request := request; serverName := None |}).

Context (dial : list Sent -> Request -> URL -> Dialling) (options : GuardOptions).

Definition strict : bool := default false (strictRedirects options).
Definition ownHeaders : list text := List.map toLowerCase (default [] (optionHeaders options)).

(** The request of a hop: across origins it loses its credentials, or every
    header the caller does not own. *)
Definition outgoing_request (request : Request) (validated : URL) (previousOrigin : option text) : Request :=
  match previousOrigin with
  | None => request
  | Some previous =>
      if bool_decide (url_origin validated <> previous) then
        if strict then withoutHeaders request ownHeaders else withoutCredentialHeaders request
      else request
  end.

(** The request that follows a redirect. *)
Definition next_request (outgoing : Request) (validated target : URL) (st : Z) : Request :=
  setUrl (if strict
          then strictRedirectRequest outgoing st (bool_decide (url_origin target <> url_origin validated))
          else outgoing) target.

(** What was sent, and how the chain of hops ended; [None] when the fuel ran out. *)
Fixpoint hop (fuel : nat) (request : Request) (redirects : Z) (previousOrigin : option text) (sent : list Sent) :
    list Sent * option (result (guard_error E) Response) :=
  match fuel with
  | O => (sent, None)
  | S fuel' =>
      match (let! url := requestUrl request in map_error Refused (parseExternalUrl toLowerCase (url_href url))) with
      | Err e => (sent, Some (Err e))
      | Ok validated =>
          let outgoing := outgoing_request request validated previousOrigin in
          match dial sent outgoing validated with
          | (_, Err e) => (sent, Some (Err e))
          | (lookups, Ok d) =>
              let sent' := sent ++ [{| sent_lookups := lookups; sent_dial := d; sent_url := validated |}] in
              match execute sent d with
              | Err e => (sent', Some (Err (Failed e)))
              | Ok response =>
                  if (status response <? 300) || (400 <=? status response) then (sent', Some (Ok response))
                  else
                    match location response with
                    | None | Some [] => (sent', Some (Ok response))
                    | Some target =>
                        if MAX_REDIRECTS <=? redirects then
                          (sent', Some (Err (Refused (validation_error
                             (lit "Too many redirects (>" ++ digits_text MAX_REDIRECTS ++ lit ")")
                             (Some (url_href validated))))))
                        else
                          match url_parse target (Some validated) with
                          | None =>
                              (sent', Some (Err (Refused (validation_error
                                 (lit "Redirect has an invalid Location header") None))))
                          | Some target =>
                              hop fuel' (next_request outgoing validated target (status response)) (redirects + 1)
                                (Some (url_origin validated)) sent'
                          end
                    end
              end
          end
      end
  end.

(** A guarded request: the first hop, with fuel for every redirect allowed. *)
Definition guardWith (initial : Request) : list Sent * option (result (guard_error E) Response) :=
  hop (S (Z.to_nat MAX_REDIRECTS)) initial 0 None [].

End Guard.

Definition guard `{RequestApi} toLowerCase {E} execute options initial :=
  guardWith (E := E) toLowerCase execute (dial_plain (E := E)) options initial.

Definition guardPinned `{RequestApi} toLowerCase {E} execute resolve options initial :=
  guardWith (E := E) toLowerCase execute (pinTo (E := E) toLowerCase resolve) options initial.

(** ** Bodies *)

(** [TextDecoder] in streaming mode: a state, [decode(bytes, { stream: true })] and
    the final [decode()]. *)
Class TextDecoder := {
  decoder : Type;
  new_decoder : decoder;
  decode_piece : decoder -> bytes -> decoder * text;
  decode_end : decoder -> text;
}.

Record TextPrefix := { tp_text : text; truncated : bool }.

Record Piece := { piece_bytes : bytes; over : bool }.

Section Bodies.
Context `{TextDecoder}.

(** One chunk of the stream, cut to the room left. *)
Definition cut_piece (maxBytes seen : Z) (chunk : bytes) : Z * Piece :=
  let room := Z.max 0 (maxBytes - seen) in
  let piece := {| piece_bytes := take (Z.to_nat room) chunk; over := room <? Z.of_nat (length chunk) |} in
  (seen + Z.of_nat (length (piece_bytes piece)), piece).

(** The stream: each chunk is cut and decoded, and the first that is over the
    budget is the last one read. The chunks left are those never read. *)
Fixpoint read_pieces (maxBytes seen : Z) (chunks : list bytes) (dec : decoder) (acc : TextPrefix) :
    decoder * TextPrefix * list bytes :=
  match chunks with
  | [] => (dec, acc, [])
  | chunk :: rest =>
      let '(seen, piece) := cut_piece maxBytes seen chunk in
      let '(dec, t) := decode_piece dec (piece_bytes piece) in
      let acc := {| tp_text := tp_text acc ++ t; truncated := over piece |} in
      if over piece then (dec, acc, rest) else read_pieces maxBytes seen rest dec acc
  end.

Definition readTextPrefix (maxBytes : Z) (chunks : list bytes) : TextPrefix * list bytes :=
  let '(dec, acc, rest) := read_pieces maxBytes 0 chunks new_decoder {| tp_text := []; truncated := false |} in
  ({| tp_text := tp_text acc ++ decode_end dec; truncated := truncated acc |}, rest).

Record ResponseTooLargeError := { tl_message : text; maxBytes_ : Z }.

(** [declared] is the number the Content-Length header reads as, when it is finite. *)
Definition readTextWithin (maxBytes : Z) (declared : option Z) (chunks : list bytes) : result ResponseTooLargeError text :=
  let tooLarge := {| tl_message := lit "response body exceeded " ++ digits_text maxBytes ++ lit " bytes";
                     maxBytes_ := maxBytes |} in
  if match declared with Some n => maxBytes <? n | None => false end then Err tooLarge
  else
    let '(prefix, _) := readTextPrefix maxBytes chunks in
    if truncated prefix then Err tooLarge else Ok (tp_text prefix).
End Bodies.
