(* ===== verification/SafeGuardProof.v ===== *)
(** * What the guard guarantees

    Invariants of a chain of redirects: every request that leaves was validated,
    at most six leave, credentials do not cross origins, and a pinned request
    dials a public address. The laws of the HTTP client's requests are the
    interface [RequestLaws]. *)

From Stdlib Require Import Ascii String.
From stdpp Require Import prelude list.
From Stdlib Require Import ZArith Lia ZifyBool.
From S2P Require Import Prelude.
From S2P Require Import JsString.
From S2P Require Import IngestSha256.
From S2P Require Import IngestRegex.
From S2P Require Import JsUnits.
From S2P Require Import SafeAddress.
From S2P Require Import SafeBlocks.
From S2P Require Import SafeLiteral.
From S2P Require Import SafeHost.
From S2P Require Import SafeGuard.

Open Scope Z_scope.
Local Open Scope maple_scope.

(** Requests are immutable records with lower-case header names; [setUrl] keeps
    the origin it is given, and a URL printed and parsed again keeps its own. *)
Class RequestLaws `{RequestApi} (toLowerCase : text -> text) := {
  lower_plain n : Forall (fun c => 97 <= c <= 122 \/ c = 45) n -> toLowerCase n = n;
  headers_lower r n : n ∈ req_headers r -> toLowerCase n = n;
  removeHeader_headers r n m : m ∈ req_headers (removeHeader r n) <-> m ∈ req_headers r /\ m <> toLowerCase n;
  removeHeader_target r n : req_target (removeHeader r n) = req_target r;
  removeHeader_method r n : req_method (removeHeader r n) = req_method r;
  removeHeader_body r n : req_bodyless (removeHeader r n) = req_bodyless r;
  setHeader_headers r n v m : m ∈ req_headers (setHeader r n v) -> m = toLowerCase n \/ m ∈ req_headers r;
  setHeader_method r n v : req_method (setHeader r n v) = req_method r;
  setHeader_body r n v : req_bodyless (setHeader r n v) = req_bodyless r;
  setUrl_headers r u : req_headers (setUrl r u) = req_headers r;
  setUrl_method r u : req_method (setUrl r u) = req_method r;
  setUrl_body r u : req_bodyless (setUrl r u) = req_bodyless r;
  setUrl_target r u : exists u', req_target (setUrl r u) = Some u' /\ url_origin u' = url_origin u;
  setEmptyBody_headers r m : m ∈ req_headers (setEmptyBody r) -> m ∈ req_headers r;
  setEmptyBody_method r : req_method (setEmptyBody r) = req_method r;
  setEmptyBody_body r : req_bodyless (setEmptyBody r) = true;
  setMethod_headers r m : req_headers (setMethod r m) = req_headers r;
  setMethod_method r m : req_method (setMethod r m) = m;
  setMethod_body r m : req_bodyless (setMethod r m) = req_bodyless r;
  href_origin u u' : url_parse (trim_text (url_href u)) None = Some u' -> url_origin u' = url_origin u;
}.

Section Laws.
Context `{RequestLaws} {E : Type}.
Context (execute : list Sent -> Dial -> result E Response).

(** ** Headers *)

Lemma remove_all_headers names r m :
  m ∈ req_headers (fold_left removeHeader names r) <-> m ∈ req_headers r /\ Forall (fun n => m <> toLowerCase n) names.
Proof.
  revert r. induction names as [|n names IH]; intros r; cbn; [naive_solver|].
  rewrite IH, removeHeader_headers, Forall_cons. tauto.
Qed.

Lemma remove_all_target names r : req_target (fold_left removeHeader names r) = req_target r.
Proof. revert r. induction names as [|n names IH]; intros r; cbn; [done|]. by rewrite IH, removeHeader_target. Qed.

Lemma remove_all_method names r : req_method (fold_left removeHeader names r) = req_method r.
Proof. revert r. induction names as [|n names IH]; intros r; cbn; [done|]. by rewrite IH, removeHeader_method. Qed.

Lemma remove_all_body names r : req_bodyless (fold_left removeHeader names r) = req_bodyless r.
Proof. revert r. induction names as [|n names IH]; intros r; cbn; [done|]. by rewrite IH, removeHeader_body. Qed.

Lemma credentials_gone r m : m ∈ req_headers (withoutCredentialHeaders r) -> m ∉ CREDENTIAL_HEADERS.
Proof.
  unfold withoutCredentialHeaders. rewrite remove_all_headers. intros [_ Hm] Hin.
  apply (proj1 (Forall_forall _ _) Hm m Hin). symmetry. apply lower_plain.
  assert (forallb (fun n => forallb (fun c => ((97 <=? c) && (c <=? 122)) || (c =? 45)) n) CREDENTIAL_HEADERS = true) as Hf
    by by vm_compute.
  apply list_elem_of_In in Hin. apply (proj1 (List.forallb_forall _ _) Hf) in Hin.
  apply Forall_forall. intros c Hc%list_elem_of_In. apply (proj1 (List.forallb_forall _ _) Hin) in Hc. lia.
Qed.

Lemma foreign_gone r keep m : m ∈ req_headers (withoutHeaders toLowerCase r keep) -> m ∈ keep.
Proof.
  unfold withoutHeaders. rewrite remove_all_headers. intros [Hm Hf].
  destruct (decide (m ∈ keep)) as [|Hk]; [done|]. exfalso. pose proof (headers_lower r m Hm) as Hl.
  apply (proj1 (Forall_forall _ _) Hf m); [|done]. apply list_elem_of_In, List.filter_In. split; [by apply list_elem_of_In|].
  rewrite Hl. by rewrite bool_decide_eq_false_2.
Qed.

Section Options.
Context (dial : list Sent -> Request -> URL -> Dialling (E := E)) (options : GuardOptions).

Lemma outgoing_target r v p : req_target (outgoing_request toLowerCase options r v p) = req_target r.
Proof. unfold outgoing_request, withoutHeaders, withoutCredentialHeaders. repeat case_match; by rewrite ?remove_all_target. Qed.

Lemma outgoing_method r v p : req_method (outgoing_request toLowerCase options r v p) = req_method r.
Proof. unfold outgoing_request, withoutHeaders, withoutCredentialHeaders. repeat case_match; by rewrite ?remove_all_method. Qed.

Lemma outgoing_body r v p : req_bodyless (outgoing_request toLowerCase options r v p) = req_bodyless r.
Proof. unfold outgoing_request, withoutHeaders, withoutCredentialHeaders. repeat case_match; by rewrite ?remove_all_body. Qed.

(** ** Chains of hops *)

(** The URL a request is validated under. *)
Definition validates (r : Request) (v : URL) : Prop :=
  exists u, req_target r = Some u /\ parseExternalUrl toLowerCase (url_href u) = Ok v.

(** The network answers what was sent for [v] with a redirect to [t]. *)
Definition redirects_to (s : list Sent) (v : URL) (d : Dial) (t : URL) (st : Z) : Prop :=
  exists response place, execute s d = Ok response /\ status response = st /\ 300 <= st < 400 /\
    location response = Some place /\ url_parse place (Some v) = Some t.

(** An invariant of the requests about to be validated and of what was sent
    carries over to the whole chain. *)
Lemma hop_invariant (Inv : Request -> Z -> option text -> list Sent -> Prop) (Q : list Sent -> Prop) :
  (forall r n p s, Inv r n p s -> Q s) ->
  (forall r n p s v k d, Inv r n p s -> validates r v ->
     dial s (outgoing_request toLowerCase options r v p) v = (k, Ok d) ->
     Q (s ++ [{| sent_lookups := k; sent_dial := d; sent_url := v |}])) ->
  (forall r n p s v k d t st, Inv r n p s -> validates r v ->
     dial s (outgoing_request toLowerCase options r v p) v = (k, Ok d) -> n < MAX_REDIRECTS ->
     Q (s ++ [{| sent_lookups := k; sent_dial := d; sent_url := v |}]) ->
     redirects_to s v d t st ->
     Inv (next_request options (outgoing_request toLowerCase options r v p) v t st) (n + 1) (Some (url_origin v))
       (s ++ [{| sent_lookups := k; sent_dial := d; sent_url := v |}])) ->
  forall fuel r n p s, Inv r n p s -> Q (hop toLowerCase execute dial options fuel r n p s).1.
Proof.
  intros Hq Hsend Hnext. induction fuel as [|fuel IH]; intros r n p s HI; cbn [hop]; [by eapply Hq|].
  unfold requestUrl. destruct (req_target r) as [u|] eqn:Hu; cbn [result_bind]; [|by eapply Hq].
  destruct (parseExternalUrl toLowerCase (url_href u)) as [v|e] eqn:Hv; cbn [map_error]; [|by eapply Hq].
  assert (validates r v) as Hval by by exists u.
  destruct (dial s _ v) as [k [d|e]] eqn:Hd; [|by eapply Hq].
  pose proof (Hsend _ _ _ _ _ _ _ HI Hval Hd) as HQ.
  destruct (execute s d) as [response|e] eqn:Hx; [|done]. destruct (_ || _) eqn:Hst; [done|].
  destruct (location response) as [[|c l]|] eqn:Hloc; [done| |done].
  destruct (MAX_REDIRECTS <=? n) eqn:Hn; [done|].
  destruct (url_parse _ _) as [t|] eqn:Ht; [|done]. apply IH, Hnext; try done; [lia|].
  exists response, (c :: l). split_and!; try done; lia.
Qed.

(** At most six requests leave, and the chain ends. *)
Lemma hop_bounded fuel r n p s : Z.of_nat (length s) = n -> n <= MAX_REDIRECTS ->
  Z.of_nat (length (hop toLowerCase execute dial options fuel r n p s).1) <= MAX_REDIRECTS + 1.
Proof.
  intros Hs Hn. apply (hop_invariant (fun _ n _ s => Z.of_nat (length s) = n /\ n <= MAX_REDIRECTS)
                         (fun s => Z.of_nat (length s) <= MAX_REDIRECTS + 1)); [| | |done].
  - intros _ m _ l [Hl Hm]. lia.
  - intros _ m _ l v k d [Hl Hm] _ _. rewrite length_app. cbn. lia.
  - intros _ m _ l v k d t st [Hl Hm] _ _ Hlt _ _. rewrite length_app. cbn. lia.
Qed.

Lemma hop_ends fuel r n p s : n <= MAX_REDIRECTS -> MAX_REDIRECTS - n < Z.of_nat fuel ->
  exists outcome, (hop toLowerCase execute dial options fuel r n p s).2 = Some outcome.
Proof.
  revert r n p s. induction fuel as [|fuel IH]; intros r n p s Hn Hf; cbn [hop]; [lia|].
  case_match; [|by eexists]. destruct (dial _ _ _) as [k [d|e]]; [|by eexists]. case_match; [|by eexists]. case_match; [by eexists|].
  case_match; [|by eexists]. case_match; [by eexists|]. case_match; [by eexists|]. case_match; [|by eexists].
  apply IH; lia.
Qed.

(** Every request that leaves was dialled for a URL that its own target, printed
    and parsed, was accepted as. *)
Definition dialled (x : Sent) : Prop :=
  exists history r, validates r (sent_url x) /\ dial history r (sent_url x) = (sent_lookups x, Ok (sent_dial x)).

Lemma hop_dialled fuel r n p : Forall dialled (hop toLowerCase execute dial options fuel r n p []).1.
Proof.
  apply (hop_invariant (fun _ _ _ s => Forall dialled s) (Forall dialled)); [by intros| |by intros|by constructor].
  intros r' m q s v k d Hs (u & Hu & Hv) Hd. apply Forall_app. split; [done|]. constructor; [|done].
  exists s, (outgoing_request toLowerCase options r' v q). split; [|done]. exists u. by rewrite outgoing_target.
Qed.

(** ** Credentials *)

(** Two requests in a row went to different origins. *)
Definition crossed (s : list Sent) : Prop :=
  exists i a b, s !! i = Some a /\ s !! S i = Some b /\ url_origin (sent_url a) <> url_origin (sent_url b).

(** What a request may carry after a cross-origin hop. *)
Definition stripped (r : Request) : Prop :=
  (forall m, m ∈ req_headers r -> if strict options then m ∈ ownHeaders toLowerCase options else m ∉ CREDENTIAL_HEADERS) /\
  (strict options = true -> req_bodyless r = true /\ (req_method r = lit "GET" \/ req_method r = lit "HEAD")).

(** The same for what the dial sends: it may add a host header. *)
Definition stripped_dial (r : Request) : Prop :=
  (forall m, m ∈ req_headers r -> m = lit "host" \/
     if strict options then m ∈ ownHeaders toLowerCase options else m ∉ CREDENTIAL_HEADERS) /\
  (strict options = true -> req_bodyless r = true /\ (req_method r = lit "GET" \/ req_method r = lit "HEAD")).

Definition plain_dial : Prop := forall s r v k d, dial s r v = (k, Ok d) ->
  (forall m, m ∈ req_headers (dial_request d) -> m = lit "host" \/ m ∈ req_headers r) /\
  req_bodyless (dial_request d) = req_bodyless r /\ req_method (dial_request d) = req_method r.

Lemma crossed_snoc s x : crossed (s ++ [x]) <->
  crossed s \/ exists a, last s = Some a /\ url_origin (sent_url a) <> url_origin (sent_url x).
Proof.
  unfold crossed. split.
  - intros (i & a & b & Ha & Hb & Hne). destruct (decide (S i < length s)%nat) as [Hi|Hi].
    + left. exists i, a, b. rewrite lookup_app_l in Ha, Hb by lia. done.
    + right. pose proof (lookup_lt_Some _ _ _ Hb) as Hl. rewrite length_app in Hl. cbn in Hl.
      assert (length s = S i) as Hs by lia. exists a.
      rewrite lookup_app_l in Ha by lia. rewrite last_lookup, Hs. split; [done|].
      rewrite lookup_app_r, Hs, Nat.sub_diag in Hb by lia. by injection Hb as ->.
  - intros [(i & a & b & Ha & Hb & Hne)|(a & Ha & Hne)].
    + exists i, a, b. by rewrite !lookup_app_l by (by eapply lookup_lt_Some).
    + destruct s as [|x0 s]; [done|]. rewrite last_lookup in Ha. cbn [length Nat.pred] in Ha.
      exists (length s), a, x. rewrite lookup_app_l by (cbn; lia). split_and!; [done| |done].
      rewrite lookup_app_r by (cbn; lia). cbn [length]. by rewrite Nat.sub_diag.
Qed.

Lemma outgoing_headers r v p m : m ∈ req_headers (outgoing_request toLowerCase options r v p) -> m ∈ req_headers r.
Proof.
  unfold outgoing_request, withoutHeaders, withoutCredentialHeaders. repeat case_match; rewrite ?remove_all_headers; tauto.
Qed.

Lemma outgoing_stripped r v p : stripped r -> stripped (outgoing_request toLowerCase options r v p).
Proof.
  intros [Hh Hs]. split.
  - intros m Hm%outgoing_headers. by apply Hh.
  - by rewrite outgoing_body, outgoing_method.
Qed.

Lemma redirect_headers r st cross m : m ∈ req_headers (strictRedirectRequest r st cross) -> m ∈ req_headers r.
Proof.
  unfold strictRedirectRequest. repeat case_match; rewrite ?setMethod_headers; intros Hm; first [done | by apply setEmptyBody_headers in Hm].
Qed.

Lemma redirect_plain r st : let r' := strictRedirectRequest r st true in
  req_bodyless r' = true /\ (req_method r' = lit "GET" \/ req_method r' = lit "HEAD").
Proof.
  unfold strictRedirectRequest. rewrite andb_false_r. case_bool_decide as Hm.
  - rewrite setEmptyBody_body, setEmptyBody_method. auto.
  - rewrite setMethod_body, setMethod_method, setEmptyBody_body. auto.
Qed.

Lemma redirect_keeps r st cross :
  req_bodyless r = true /\ (req_method r = lit "GET" \/ req_method r = lit "HEAD") ->
  req_bodyless (strictRedirectRequest r st cross) = true /\
  (req_method (strictRedirectRequest r st cross) = lit "GET" \/ req_method (strictRedirectRequest r st cross) = lit "HEAD").
Proof.
  intros [Hb Hm]. unfold strictRedirectRequest. case_match; [done|].
  destruct (bool_decide (req_method r = lit "HEAD")).
  - rewrite setEmptyBody_body, setEmptyBody_method. auto.
  - rewrite setMethod_body, setMethod_method, setEmptyBody_body. auto.
Qed.

Lemma next_stripped o v t st : stripped o -> stripped (next_request options o v t st).
Proof.
  intros [Hh Hs]. unfold next_request. split.
  - intros m. rewrite setUrl_headers. case_match; [intros Hm%redirect_headers|intros Hm]; by apply Hh.
  - intros Hst. rewrite setUrl_body, setUrl_method, Hst. auto using redirect_keeps.
Qed.

Lemma parsed_url a v : parseExternalUrl toLowerCase a = Ok v -> url_parse (trim_text a) None = Some v.
Proof. unfold parseExternalUrl. repeat case_match; intros [= <-]; done. Qed.

Lemma accepted_url a v : parseExternalUrl toLowerCase a = Ok v ->
  isPrivateHost toLowerCase (url_hostname v) = false /\ url_username v = [] /\ url_password v = [] /\
  (url_protocol v = lit "http:" \/ url_protocol v = lit "https:").
Proof.
  unfold parseExternalUrl. case_bool_decide; [done|]. destruct (url_parse _ _) as [u|]; [|done].
  destruct (_ && _) eqn:Hp; [done|]. destruct (bool_decide (url_hostname u = [])); [done|]. destruct (_ || _) eqn:Hc; [done|].
  destruct (isPrivateHost _ _) eqn:Hh; [done|]. intros [= <-].
  apply orb_false_iff in Hc as [Hu Hw]. apply andb_false_iff in Hp.
  apply bool_decide_eq_false in Hu, Hw. split_and!; [done|by apply dec_stable..|].
  destruct Hp as [Hp|Hp]; apply bool_decide_eq_false in Hp; [left|right]; by apply dec_stable.
Qed.

(** A strict redirect to another origin is prepared without a body. *)
Lemma next_crosses o v t st v' :
  strict options = true -> validates (next_request options o v t st) v' -> url_origin v' <> url_origin v ->
  req_bodyless (next_request options o v t st) = true /\
  (req_method (next_request options o v t st) = lit "GET" \/ req_method (next_request options o v t st) = lit "HEAD").
Proof.
  intros Hst (u & Hu & Hv) Hne. unfold next_request in *. rewrite Hst in *.
  apply parsed_url, href_origin in Hv. destruct (setUrl_target (strictRedirectRequest o st
    (bool_decide (url_origin t <> url_origin v))) t) as (u' & Hu' & Ho).
  assert (u' = u) as -> by congruence.
  rewrite bool_decide_eq_true_2 by congruence. rewrite setUrl_body, setUrl_method. apply redirect_plain.
Qed.

(** What is known of the next request: crossings so far stripped it, and a
    crossing it is about to make already emptied it. *)
Definition careful (r : Request) (p : option text) (s : list Sent) : Prop :=
  p = (fun x => url_origin (sent_url x)) <$> last s /\
  (crossed s -> stripped r) /\
  (forall prev v, p = Some prev -> validates r v -> url_origin v <> prev -> strict options = true ->
     req_bodyless r = true /\ (req_method r = lit "GET" \/ req_method r = lit "HEAD")).

Definition all_stripped (s : list Sent) : Prop :=
  forall i x, s !! i = Some x -> crossed (take (S i) s) -> stripped_dial (dial_request (sent_dial x)).

Lemma careful_outgoing r p s v k d : careful r p s -> validates r v ->
  crossed (s ++ [{| sent_lookups := k; sent_dial := d; sent_url := v |}]) -> stripped (outgoing_request toLowerCase options r v p).
Proof.
  intros (Hp & Hs & Hb) Hv [Hc|(a & Ha & Hne)]%crossed_snoc; [by apply outgoing_stripped, Hs|].
  rewrite Ha in Hp. cbn in Hp. subst p. cbn in Hne. split.
  - intros m. unfold outgoing_request. rewrite bool_decide_eq_true_2 by congruence. case_match; [apply foreign_gone|apply credentials_gone].
  - rewrite outgoing_body, outgoing_method. apply (Hb _ v eq_refl Hv). congruence.
Qed.

Lemma hop_stripped fuel r : plain_dial -> all_stripped (hop toLowerCase execute dial options fuel r 0 None []).1.
Proof.
  intros Hplain. apply (hop_invariant (fun r _ p s => careful r p s /\ all_stripped s) all_stripped).
  - by intros ? _ ? ? [_ ?].
  - intros r' n p s v k d [Hc Ha] Hv Hd i x Hx Hcr.
    destruct (decide (i < length s)%nat) as [Hi|Hi].
    + rewrite lookup_app_l in Hx by done. apply (Ha i); [done|]. rewrite take_app_le in Hcr by lia. done.
    + pose proof (lookup_lt_Some _ _ _ Hx) as Hl. rewrite length_app in Hl. cbn in Hl.
      assert (i = length s) as -> by lia. rewrite lookup_app_r, Nat.sub_diag in Hx by lia. injection Hx as <-.
      rewrite take_ge in Hcr by (rewrite length_app; cbn; lia). cbn [sent_dial].
      destruct (careful_outgoing _ _ _ _ _ _ Hc Hv Hcr) as [Hh Hs], (Hplain _ _ _ _ _ Hd) as (Hm & Hb & Hme).
      split; [|by rewrite Hb, Hme]. intros m [->|Hin]%Hm; [by left|right; by apply Hh].
  - intros r' n p s v k d t st [Hc Ha] Hv Hd _ HQ _. split; [|done]. split_and!.
    + by rewrite last_snoc.
    + intros Hcr. eapply next_stripped, careful_outgoing; done.
    + intros prev v' [= <-] Hv' Hne Hst. by apply next_crosses with v'.
  - split; [|by intros i x Hx]. split_and!; [done| |done]. intros (i & a & b & Ha & _). done.
Qed.

End Options.

(** ** The two guards *)

Lemma plain_is_plain : plain_dial (dial_plain (E := E)).
Proof. intros s r v k d [= _ <-]. auto. Qed.

(** What a pinned dial sends. *)
Definition literal_host (v : URL) : Prop :=
  let host := canonicalHostname toLowerCase (url_hostname v) in
  test IPV4_LITERAL_RE host = true \/ starts_with host (lit "[") = true.

(** A pinned hop: one lookup of the name, every answer of it public, and a request
    for the same URL at one of these answers, the name kept for the Host header
    and for TLS. *)
Definition pinned_to (resolve : list Sent -> list Lookup -> text -> result HostResolutionError (list text))
    (history : list Sent) (r : Request) (v : URL) (k : list Lookup) (d : Dial) : Prop :=
  let name := canonicalHostname toLowerCase (url_hostname v) in
  exists addresses address,
    resolve history [] name = Ok addresses /\ k = [{| lk_host := name; lk_answer := Ok addresses |}] /\
    address ∈ addresses /\ Forall (fun a => isPrivateAddress a = false) addresses /\
    dial_request d = setHeader (setUrl r (url_with_hostname v (bracket_address address))) (lit "host") (url_host v) /\
    serverName d = Some name.

Lemma pin_ok resolve s r v k d : pinTo (E := E) toLowerCase resolve s r v = (k, Ok d) ->
  (literal_host v /\ k = [] /\ d = {| dial_request := r; serverName := None |}) \/ pinned_to resolve s r v k d.
Proof.
  unfold pinTo, literal_host, pinned_to. destruct (_ || _) eqn:Hl.
  { intros [= <- <-]. left. by apply orb_true_iff in Hl. }
  destruct (resolve s [] _) as [addresses|e] eqn:Hr; cbn [map_error result_bind]; [|done].
  set (first := match List.find _ _ with Some _ => _ | None => _ end).
  destruct first as [address|] eqn:Hf; [|done]. destruct (existsb isPrivateAddress addresses) eqn:Hp; [done|].
  intros [= <- <-]. right. exists addresses, address. split_and!; [done|done| | |done..].
  - subst first. destruct (List.find _ addresses) as [a|] eqn:Hfind.
    + injection Hf as ->. apply List.find_some in Hfind as [Hin _]. by apply list_elem_of_In.
    + by apply head_Some_elem_of.
  - apply Forall_forall. intros a Ha. by apply (existsb_false isPrivateAddress addresses).
Qed.

Lemma pin_is_plain resolve : plain_dial (pinTo (E := E) toLowerCase resolve).
Proof.
  intros s r v k d [(_ & _ & ->)|(addresses & address & _ & _ & _ & _ & Hd & _)]%pin_ok; [split_and!; [by right|done..]|].
  rewrite Hd. split_and!.
  - intros m [->|Hm]%setHeader_headers; [left|right; by rewrite setUrl_headers in Hm].
    apply lower_plain. change (lit "host") with [104; 111; 115; 116]. repeat (constructor; [lia|]). constructor.
  - by rewrite setHeader_body, setUrl_body.
  - by rewrite setHeader_method, setUrl_method.
Qed.

(** ** Theorems *)

(** A guarded chain ends with an answer or an error and sends at most six
    requests, whatever the servers answer, and each request that leaves targets a
    URL that, printed and parsed again, [parseExternalUrl] accepted: http or
    https, no credentials, a host that is not internal. Redirects are no way
    around, for every hop is validated anew. *)
Theorem guard_reaches_external options initial sent outcome :
  guard toLowerCase execute options initial = (sent, outcome) ->
  outcome <> None /\ (length sent <= 6)%nat /\
  Forall (fun x => validates (dial_request (sent_dial x)) (sent_url x) /\
                   isPrivateHost toLowerCase (url_hostname (sent_url x)) = false /\
                   url_username (sent_url x) = [] /\ url_password (sent_url x) = [] /\
                   (url_protocol (sent_url x) = lit "http:" \/ url_protocol (sent_url x) = lit "https:")) sent.
Proof.
  unfold guard, guardWith. intros Hg.
  pose proof (hop_dialled (dial_plain (E := E)) options 6 initial 0 None) as Hd.
  pose proof (hop_bounded (dial_plain (E := E)) options 6 initial 0 None [] eq_refl ltac:(done)) as Hb.
  destruct (hop_ends (dial_plain (E := E)) options 6 initial 0 None [] ltac:(done) ltac:(done)) as [o Ho].
  change (S (Z.to_nat MAX_REDIRECTS)) with 6%nat in Hg. rewrite Hg in *. cbn [fst snd] in *.
  split_and!; [by rewrite Ho|unfold MAX_REDIRECTS in Hb; lia|].
  eapply Forall_impl; [exact Hd|]. intros x (history & r & Hv & [= _ Hx]).
  rewrite <- Hx. split; [done|]. destruct Hv as (u & _ & Hv). by apply accepted_url in Hv.
Qed.
(** The request of a hop and the origin of the hop before, after what was sent:
    the initial request, or what a redirect made of the one before. *)
Inductive follows (options : GuardOptions) (initial : Request) : list Sent -> Request -> option text -> Prop :=
  | follows_start : follows options initial [] initial None
  | follows_redirect s r p x t st : follows options initial s r p -> validates r (sent_url x) ->
      redirects_to s (sent_url x) (sent_dial x) t st ->
      follows options initial (s ++ [x])
        (next_request options (outgoing_request toLowerCase options r (sent_url x) p) (sent_url x) t st)
        (Some (url_origin (sent_url x))).

(** What the hop that sent [x] did: its request was judged external, its name was
    looked up once, and it went to an address of that answer. *)
Definition pinned_hop resolve options initial (s : list Sent) (x : Sent) : Prop :=
  exists r p, follows options initial s r p /\ validates r (sent_url x) /\
    isPrivateHost toLowerCase (url_hostname (sent_url x)) = false /\
    let outgoing := outgoing_request toLowerCase options r (sent_url x) p in
    (literal_host (sent_url x) /\ sent_lookups x = [] /\ sent_dial x = {| dial_request := outgoing; serverName := None |} \/
     pinned_to resolve s outgoing (sent_url x) (sent_lookups x) (sent_dial x)).

Lemma pinned_hops resolve options initial fuel :
  forall i x, (hop toLowerCase execute (pinTo (E := E) toLowerCase resolve) options fuel initial 0 None []).1 !! i = Some x ->
  pinned_hop resolve options initial
    (take i (hop toLowerCase execute (pinTo (E := E) toLowerCase resolve) options fuel initial 0 None []).1) x.
Proof.
  apply (hop_invariant _ _ (fun r _ p s => follows options initial s r p /\
           forall i x, s !! i = Some x -> pinned_hop resolve options initial (take i s) x)
           (fun s => forall i x, s !! i = Some x -> pinned_hop resolve options initial (take i s) x)).
  - by intros ? _ ? ? [_ ?].
  - intros r n p s v k d [Hf Hs] Hv Hd i x Hx. destruct (decide (i < length s)%nat) as [Hi|Hi].
    + rewrite lookup_app_l in Hx by done. rewrite take_app_le by lia. by apply Hs.
    + pose proof (lookup_lt_Some _ _ _ Hx) as Hl. rewrite length_app in Hl. cbn in Hl. assert (i = length s) as -> by lia.
      rewrite lookup_app_r, Nat.sub_diag in Hx by lia. injection Hx as <-. rewrite take_app_length.
      exists r, p. cbn [sent_url sent_lookups sent_dial]. split_and!; [done|done| |by apply pin_ok].
      destruct Hv as (u & _ & Hv). by destruct (accepted_url _ _ Hv).
  - intros r n p s v k d t st [Hf Hs] Hv Hd _ HQ Ht. split; [|done].
    by apply (follows_redirect options initial s r p {| sent_lookups := k; sent_dial := d; sent_url := v |} t st).
  - split; [constructor|]. by intros i x Hx.
Qed.

(** C28: a pinned chain dials public addresses only. Each hop starts from the
    initial request or from what the redirect before made of it, and is judged
    anew. The name of its host is looked up once and never again, although a
    second lookup might answer otherwise; every answer of that lookup is public
    by the rules for literals, and the request goes to one of these very
    addresses, with the name kept for the Host header and for TLS. A host that is
    itself a literal is judged as such, looks nothing up and is dialled as it is. *)
Theorem pinned_dials_public resolve options initial sent outcome :
  guardPinned toLowerCase execute resolve options initial = (sent, outcome) ->
  outcome <> None /\ (length sent <= 6)%nat /\
  forall i x, sent !! i = Some x -> pinned_hop resolve options initial (take i sent) x.
Proof.
  unfold guardPinned, guardWith. intros Hg. set (dial := pinTo (E := E) toLowerCase resolve) in *.
  pose proof (pinned_hops resolve options initial 6) as Hd.
  pose proof (hop_bounded dial options 6 initial 0 None [] eq_refl ltac:(done)) as Hb.
  destruct (hop_ends dial options 6 initial 0 None [] ltac:(done) ltac:(done)) as [o Ho].
  change (S (Z.to_nat MAX_REDIRECTS)) with 6%nat in Hg. fold dial in Hd. rewrite Hg in *. cbn [fst snd] in *.
  split_and!; [by rewrite Ho|unfold MAX_REDIRECTS in Hb; lia|done].
Qed.

(** C8: credentials do not cross origins, and do not come back. Once two requests
    in a row went to different origins, no later request of the chain, back at
    the first origin included, carries a credential header; under strict
    redirects no later request carries any header the caller does not own, or a
    body, or another method than GET or HEAD. (A pinned dial adds the Host
    header.) *)
Theorem credentials_do_not_cross resolve options initial :
  all_stripped options (guard toLowerCase execute options initial).1 /\
  all_stripped options (guardPinned toLowerCase execute resolve options initial).1.
Proof. split; apply hop_stripped; first [apply plain_is_plain | apply pin_is_plain]. Qed.

End Laws.

(** ** Bodies *)

Section Reading.
Context `{TextDecoder}.

(** The decoder fed piece after piece. *)
Fixpoint feed (dec : decoder) (pieces : list bytes) : decoder * text :=
  match pieces with
  | [] => (dec, [])
  | p :: pieces' =>
      let '(dec, t) := decode_piece dec p in
      let '(dec, t') := feed dec pieces' in (dec, t ++ t')
  end.

(** Decoding piece by piece is decoding the whole. *)
Definition streams (decode : bytes -> text) : Prop :=
  forall pieces, let '(dec, t) := feed new_decoder pieces in t ++ decode_end dec = decode (concat pieces).

Lemma read_pieces_spec maxBytes chunks : forall seen dec acc,
  0 <= seen <= Z.max 0 maxBytes -> truncated acc = false ->
  exists pieces front rest,
    read_pieces maxBytes seen chunks dec acc =
      ((feed dec pieces).1,
       {| tp_text := tp_text acc ++ (feed dec pieces).2;
          truncated := Z.max 0 maxBytes - seen <? Z.of_nat (length (concat chunks)) |}, rest) /\
    concat pieces = take (Z.to_nat (Z.max 0 maxBytes - seen)) (concat chunks) /\ chunks = front ++ rest /\
    Z.of_nat (length (concat (removelast front))) <= Z.max 0 maxBytes - seen /\
    (rest <> [] -> Z.max 0 maxBytes - seen < Z.of_nat (length (concat front))).
Proof.
  induction chunks as [|chunk chunks IH]; intros seen dec acc Hs Ha; cbn [read_pieces concat].
  { exists [], [], []. cbn. rewrite take_nil, app_nil_r. split_and!; try done; [|lia].
    destruct acc as [t tr]. cbn in *. subst tr. do 2 f_equal. f_equal. lia. }
  unfold cut_piece. cbn [piece_bytes over]. replace (Z.max 0 (maxBytes - seen)) with (Z.max 0 maxBytes - seen) by lia.
  set (room := Z.max 0 maxBytes - seen) in *.
  destruct (decode_piece dec _) as [dec1 t1] eqn:Hdec. destruct (Z.ltb_spec room (Z.of_nat (length chunk))) as [Hover|Hfits].
  - exists [take (Z.to_nat room) chunk], [chunk], chunks. cbn [feed]. rewrite Hdec. cbn [fst snd concat removelast length app].
    rewrite !app_nil_r, length_app. split_and!; [|by rewrite take_app_le by lia|done|lia|lia].
    do 2 f_equal. f_equal. lia.
  - rewrite (take_ge chunk) in * by lia.
    destruct (IH (seen + Z.of_nat (length chunk)) dec1 {| tp_text := tp_text acc ++ t1; truncated := false |})
      as (pieces & front & rest & Hr & Hp & -> & Hf & Hrest); [subst room; lia|done|].
    rewrite Hr. exists (chunk :: pieces), (chunk :: front), rest. cbn [feed tp_text]. rewrite Hdec.
    destruct (feed dec1 pieces) as [dec2 t2]. cbn [fst snd]. rewrite length_app, <- app_assoc.
    split_and!; try done.
    + do 2 f_equal. f_equal. subst room. lia.
    + cbn [concat]. rewrite Hp, take_app_ge by lia. do 2 f_equal. subst room. lia.
    + destruct front as [|f front]; [cbn; lia|]. change (removelast (chunk :: f :: front)) with (chunk :: removelast (f :: front)).
      cbn [concat]. rewrite length_app. subst room. lia.
    + intros Hne. cbn [concat]. rewrite length_app. specialize (Hrest Hne). subst room. lia.
Qed.

(** C38: a bounded read costs no more than its budget. The text is the decoding of
    the first [maxBytes] bytes of the body however it is cut into chunks (also
    inside a character); [truncated] says whether there was more; the chunks read
    are within the budget but for the last one, and the rest is left unread only
    once the budget is spent. A read of a whole body answers exactly the bodies
    within the budget whose declared length is. *)
Theorem bounded_reads decode maxBytes declared chunks :
  streams decode ->
  let budget := Z.max 0 maxBytes in let body := concat chunks in
  (exists front rest,
     readTextPrefix maxBytes chunks =
       ({| tp_text := decode (take (Z.to_nat budget) body); truncated := budget <? Z.of_nat (length body) |}, rest) /\
     chunks = front ++ rest /\ Z.of_nat (length (concat (removelast front))) <= budget /\
     (rest <> [] -> budget < Z.of_nat (length (concat front)))) /\
  (forall t, readTextWithin maxBytes declared chunks = Ok t <->
     (forall n, declared = Some n -> n <= maxBytes) /\ Z.of_nat (length body) <= budget /\ t = decode body).
Proof.
  intros Hdecode. cbv zeta.
  destruct (read_pieces_spec maxBytes chunks 0 new_decoder {| tp_text := []; truncated := false |})
    as (pieces & front & rest & Hr & Hp & Hc & Hf & Hrest); [lia|done|].
  rewrite Z.sub_0_r in Hr, Hp, Hf, Hrest. specialize (Hdecode pieces).
  remember (Z.max 0 maxBytes) as budget. remember (concat chunks) as body.
  assert (readTextPrefix maxBytes chunks =
    ({| tp_text := decode (take (Z.to_nat budget) body); truncated := budget <? Z.of_nat (length body) |}, rest)) as Hread.
  { unfold readTextPrefix. rewrite Hr. cbn [tp_text truncated app]. destruct (feed new_decoder pieces) as [dec t].
    cbn [fst snd]. by rewrite Hdecode, Hp. }
  split; [by exists front, rest|]. intros t. unfold readTextWithin. rewrite Hread. cbn [truncated tp_text].
  assert ((match declared with Some n => maxBytes <? n | None => false end) = false <->
          (forall n, declared = Some n -> n <= maxBytes)) as Hd.
  { destruct declared as [n|]; [|done]. rewrite Z.ltb_ge. naive_solver. }
  destruct (match declared with Some n => maxBytes <? n | None => false end).
  - split; [done|]. intros (Hn & _). by apply Hd in Hn.
  - destruct (Z.ltb_spec budget (Z.of_nat (length body))) as [Hlt|Hle]; [split; [done|lia]|].
    rewrite take_ge by lia. split; [intros [= <-]; split_and!; [by apply Hd|done..]|]. by intros (_ & _ & ->).
Qed.
End Reading.

(** ** A concrete client *)

Definition site_a : text := lit "https://a.example/".
Definition site_b : text := lit "https://b.example/".

#[local] Instance demo_urls : UrlApi := {|
  URL := bool;
  url_parse a _ := if bool_decide (a = site_a) then Some true else if bool_decide (a = site_b) then Some false else None;
  url_protocol _ := lit "https:";
  url_hostname u := if u then lit "a.example" else lit "b.example";
  url_host u := if u then lit "a.example" else lit "b.example";
  url_username _ := [];
  url_password _ := [];
  url_origin u := if u then lit "https://a.example" else lit "https://b.example";
  url_href u := if u then site_a else site_b;
  url_with_hostname u _ := u;
|}.

Record demo_request := { dr_target : bool; dr_method : text; dr_bodyless : bool; dr_headers : list text }.

#[local] Instance demo_requests : RequestApi := {|
  Request := demo_request;
  req_url r := url_href (dr_target r);
  req_target r := Some (dr_target r);
  req_method := dr_method;
  req_bodyless := dr_bodyless;
  req_headers := dr_headers;
  removeHeader r n := {| dr_target := dr_target r; dr_method := dr_method r; dr_bodyless := dr_bodyless r;
                         dr_headers := List.filter (fun m => negb (bool_decide (m = n))) (dr_headers r) |};
  setHeader r n _ := {| dr_target := dr_target r; dr_method := dr_method r; dr_bodyless := dr_bodyless r;
                        dr_headers := n :: dr_headers r |};
  setUrl r u := {| dr_target := u; dr_method := dr_method r; dr_bodyless := dr_bodyless r; dr_headers := dr_headers r |};
  setEmptyBody r := {| dr_target := dr_target r; dr_method := dr_method r; dr_bodyless := true; dr_headers := dr_headers r |};
  setMethod r m := {| dr_target := dr_target r; dr_method := m; dr_bodyless := dr_bodyless r; dr_headers := dr_headers r |};
|}.

#[local] Instance demo_laws : RequestLaws id.
Proof.
  split; try done.
  - intros r n m. cbn. rewrite !list_elem_of_In, List.filter_In, negb_true_iff, bool_decide_eq_false. done.
  - intros r n v m. cbn. by rewrite elem_of_cons.
  - intros r u. by exists u.
  - intros [|] [|]; by vm_compute.
Defined.

(** The first site redirects to the second, which redirects back. *)
Definition bounce (sent : list Sent) (d : Dial) : result Empty_set Response :=
  Ok match length sent with
     | O => {| status := 302; location := Some site_b |}
     | S O => {| status := 302; location := Some site_a |}
     | _ => {| status := 200; location := None |}
     end.

Definition demo_initial : demo_request :=
  {| dr_target := true; dr_method := lit "POST"; dr_bodyless := false; dr_headers := [lit "authorization"; lit "accept"] |}.

Definition lax : GuardOptions := {| strictRedirects := None; optionHeaders := None |}.

Definition demo_resolve (sent : list (@Sent demo_urls demo_requests)) (lookups : list Lookup) (host : text) :
    result HostResolutionError (list text) :=
  Ok [lit "2606:4700::1111"; lit "8.8.8.8"].

Example guard_reaches_external_witness :
  exists sent outcome, guard id bounce lax demo_initial = (sent, outcome) /\ length sent = 3%nat /\
    Forall (fun x => isPrivateHost id (url_hostname (sent_url x)) = false) sent.
Proof.
  destruct (guard id bounce lax demo_initial) as [sent outcome] eqn:Hg.
  exists sent, outcome. split; [done|]. split.
  - change (length (sent, outcome).1 = 3%nat). rewrite <- Hg. by vm_compute.
  - eapply Forall_impl; [exact (proj2 (proj2 (guard_reaches_external bounce lax demo_initial sent outcome Hg)))|].
    by intros x (_ & Hp & _).
Defined.

Example pinned_dials_public_witness :
  exists sent outcome, guardPinned id bounce demo_resolve lax demo_initial = (sent, outcome) /\ length sent = 3%nat /\
    outcome <> None.
Proof.
  destruct (guardPinned id bounce demo_resolve lax demo_initial) as [sent outcome] eqn:Hg.
  exists sent, outcome. split; [done|]. split.
  - change (length (sent, outcome).1 = 3%nat). rewrite <- Hg. by vm_compute.
  - exact (proj1 (pinned_dials_public bounce demo_resolve lax demo_initial sent outcome Hg)).
Defined.

Example credentials_do_not_cross_witness :
  all_stripped (toLowerCase := id) lax (guard id bounce lax demo_initial).1 /\
  List.map (fun x => dr_headers (dial_request (sent_dial x))) (guard id bounce lax demo_initial).1 =
    [[lit "authorization"; lit "accept"]; [lit "accept"]; [lit "accept"]].
Proof.
  split; [exact (proj1 (credentials_do_not_cross bounce demo_resolve lax demo_initial))|by vm_compute].
Defined.

#[local] Instance demo_decoder : TextDecoder := {|
  decoder := unit; new_decoder := tt; decode_piece d b := (d, b); decode_end _ := [];
|}.

Lemma demo_streams : streams id.
Proof.
  intros pieces. induction pieces as [|p pieces IH]; [done|]. cbn in *.
  destruct (feed _ pieces) as [d t]. by rewrite <- app_assoc, IH.
Qed.

Example bounded_reads_witness :
  readTextWithin 5 None [lit "he"; lit "llo"] = Ok (lit "hello") /\
  exists front rest, readTextPrefix 3 [lit "he"; lit "llo"] = ({| tp_text := lit "hel"; truncated := true |}, rest) /\
    [lit "he"; lit "llo"] = front ++ rest.
Proof.
  split.
  - apply (bounded_reads id 5 None [lit "he"; lit "llo"] demo_streams). split_and!; [done|by vm_compute|reflexivity].
  - destruct (proj1 (bounded_reads id 3 None [lit "he"; lit "llo"] demo_streams)) as (front & rest & Hr & Hc & _).
    exists front, rest. split; [exact Hr|exact Hc].
Defined.
