(* ===== verification/SqlTokens.v ===== *)
(** * Tokens of raw SQL

    The token checks of packages/domain/src/raw-sql.ts: [tokenizeSql] and the
    walks over its tokens that refuse table functions, server-reading functions
    and system databases in SQL a user wrote. Texts are lists of UTF-16 code
    units; [toLowerCase] is an argument. *)

From Stdlib Require Import Ascii String.
From stdpp Require Import prelude list.
From Stdlib Require Import ZArith Lia.
From S2P Require Import Prelude.
From S2P Require Import JsString.
From S2P Require Import IngestSha256.
From S2P Require Import IngestRegex.
From S2P Require Import JsUnits.

Open Scope Z_scope.
Local Open Scope maple_scope.

(** ** Names *)

Definition ALLOWED_TABLE_FUNCTIONS : list text := List.map lit ["numbers"; "generateseries"]%string.

Definition READER_PREFIXES : list text :=
  List.map lit ["iceberg"; "deltalake"; "hudi"; "paimon"; "s3"; "cosn"; "oss"; "gcs"; "azureblobstorage"; "hdfs";
                "remote"; "cluster"; "mysql"; "postgresql"; "mongodb"; "redis"; "sqlite"; "odbc"; "jdbc";
                "executable"; "arrowflight"; "ytsaurus"; "mergetree"]%string.

Definition READER_NAMES : list text :=
  List.map lit ["url"; "urlcluster"; "file"; "filecluster"; "input"; "dictionary"; "hive"; "merge"; "loop"; "view";
                "generaterandom"; "timeseriesdata"; "timeseriesmetrics"; "timeseriestags"; "primes"]%string.

Definition isReaderName (name : text) : bool :=
  bool_decide (name ∈ READER_NAMES) || existsb (starts_with name) READER_PREFIXES.

Definition CLAUSE_BOUNDARY : list text :=
  List.map lit ["where"; "prewhere"; "group"; "order"; "having"; "limit"; "offset"; "settings"; "union"; "except";
                "intersect"; "window"; "qualify"; "format"; "into"; "select"; "with"]%string.

Definition SERVER_READER_PREFIXES : list text :=
  List.map lit ["dictget"; "dicthas"; "dictis"; "joinget"; "getsetting"; "getserversetting"; "getmergetreesetting";
                "getmaxtablenamelength"; "addressto"]%string.

Definition SERVER_READER_NAMES : list text :=
  List.map lit ["hascolumnintable"; "getmacro"; "getclienthttpheader"; "getserverport"; "getoskernelversion";
                "showcertificate"; "catboostevaluate"; "naivebayesclassifier"; "demangle"; "logtrace"; "currentuser";
                "user"; "session_user"; "currentroles"; "enabledroles"; "defaultroles"; "currentprofiles";
                "enabledprofiles"; "defaultprofiles"]%string.

Definition isServerReader (name : text) : bool :=
  bool_decide (name ∈ SERVER_READER_NAMES) || existsb (starts_with name) SERVER_READER_PREFIXES.

Definition SYSTEM_DATABASES : list text := List.map lit ["system"; "information_schema"]%string.

(** ** The lexer *)

Record SqlToken := { v : text; ident : bool }.

#[export] Instance SqlToken_eq_dec : EqDecision SqlToken.
Proof. solve_decision. Defined.

Definition is_ident_start (c : Z) : bool := ((65 <=? c) && (c <=? 90)) || ((97 <=? c) && (c <=? 122)) || (c =? 95).
Definition is_ident_part (c : Z) : bool := is_ident_start c || is_decimal c.

(** The quote that closes an identifier: a backtick, a double quote, or the
    right one of the Unicode pair. *)
Definition QUOTE_CLOSE (c : Z) : option Z :=
  if c =? 96 then Some 96 else if c =? 34 then Some 34 else if c =? 0x201c then Some 0x201d else None.

Definition is_hex_unit (c : Z) : bool :=
  is_decimal c || ((65 <=? c) && (c <=? 70)) || ((97 <=? c) && (c <=? 102)).
Definition hex_digit_value (c : Z) : Z := if c <=? 57 then c - 48 else if c <=? 70 then c - 55 else c - 87.

Definition IDENT_ESCAPES (e : Z) : option Z :=
  snd <$> List.find (fun p => p.1 =? e)
    [(92, 92); (39, 39); (34, 34); (96, 96); (47, 47); (61, 61); (98, 8); (102, 12); (110, 10); (114, 13); (116, 9);
     (48, 0); (97, 7); (118, 11); (101, 27)].

(** What a backslash and the unit after it stand for. *)
Definition escaped (e : Z) : text :=
  if e =? 78 then [] else match IDENT_ESCAPES e with Some c => [c] | None => [92; e] end.

(** From the first newline on: [sql.indexOf("\n", i)]. *)
Fixpoint from_newline (s : text) : text :=
  match s with
  | [] => []
  | c :: s' => if c =? 10 then s else from_newline s'
  end.

(** After the first end of comment: [sql.indexOf("*/", i + 2) + 2]. *)
Fixpoint after_comment (s : text) : text :=
  match s with
  | [] => []
  | c :: s' =>
      match s' with
      | d :: s'' => if (c =? 42) && (d =? 47) then s'' else after_comment s'
      | [] => []
      end
  end.

(** After a string literal whose opening quote was read. *)
Fixpoint after_string (s : text) : text :=
  match s with
  | [] => []
  | d :: s' =>
      if d =? 92 then match s' with _ :: s'' => after_string s'' | [] => [] end
      else if d =? 39 then
        match s' with
        | e :: s'' => if e =? 39 then after_string s'' else s'
        | [] => []
        end
      else after_string s'
  end.

(** The body of a quoted identifier whose opening quote was read, and the rest. *)
Fixpoint read_quoted (close : Z) (s : text) : text * text :=
  match s with
  | [] => ([], [])
  | d :: s1 =>
      if d =? 92 then
        match s1 with
        | [] => ([92], [])
        | e :: s2 =>
            let plain := let '(body, rest) := read_quoted close s2 in (escaped e ++ body, rest) in
            if (e =? 120) || (e =? 88) then
              match s2 with
              | h1 :: h2 :: s4 =>
                  if is_hex_unit h1 && is_hex_unit h2 then
                    let '(body, rest) := read_quoted close s4 in
                    (16 * hex_digit_value h1 + hex_digit_value h2 :: body, rest)
                  else plain
              | _ => plain
              end
            else plain
        end
      else if d =? close then
        match s1 with
        | e :: s2 =>
            if negb (close =? 0x201d) && (e =? close) then
              let '(body, rest) := read_quoted close s2 in (d :: body, rest)
            else ([], s1)
        | [] => ([], [])
        end
      else let '(body, rest) := read_quoted close s1 in (d :: body, rest)
  end.

Fixpoint span_ident (s : text) : text * text :=
  match s with
  | c :: s' => if is_ident_part c then let '(name, rest) := span_ident s' in (c :: name, rest) else ([], s)
  | [] => ([], [])
  end.

Section Lexer.
Context (toLowerCase : text -> text).

Fixpoint tokenize (fuel : nat) (s : text) : list SqlToken :=
  match fuel with
  | O => []
  | S fuel' =>
      match s with
      | [] => []
      | c :: s' =>
          if is_space c then tokenize fuel' s'
          else if ((c =? 45) && starts_with s' [45]) || (c =? 35) then tokenize fuel' (from_newline s)
          else if (c =? 47) && starts_with s' [42] then tokenize fuel' (after_comment (drop 1 s'))
          else if c =? 39 then tokenize fuel' (after_string s')
          else
            match QUOTE_CLOSE c with
            | Some close =>
                let '(body, rest) := read_quoted close s' in
                {| v := toLowerCase body; ident := true |} :: tokenize fuel' rest
            | None =>
                if is_ident_start c then
                  let '(name, rest) := span_ident s' in
                  {| v := toLowerCase (c :: name); ident := true |} :: tokenize fuel' rest
                else {| v := [c]; ident := false |} :: tokenize fuel' s'
            end
      end
  end.

Definition tokenizeSql (sql : text) : list SqlToken := tokenize (length sql) sql.

(** ** Table functions *)

Inductive paren := call | sub | group.

#[export] Instance paren_eq_dec : EqDecision paren.
Proof. solve_decision. Defined.

Record Walk := {
  parenKind : list paren;
  outerFromList : list Z;
  depth : Z;
  armed : bool;
  fromListDepth : Z;
}.

Definition is_sym (s : text) (t : SqlToken) : bool := negb (ident t) && bool_decide (v t = s).
Definition is_word_in (ws : list text) (t : SqlToken) : bool := ident t && bool_decide (v t ∈ ws).

Definition next_is (p : SqlToken -> bool) (ts : list SqlToken) : bool := match ts with t :: _ => p t | [] => false end.

(** A token that is no identifier: parentheses and commas move the FROM list. *)
Definition walk_symbol (prev : option SqlToken) (t : SqlToken) (rest : list SqlToken) (w : Walk) : Walk :=
  if bool_decide (v t = lit "(") then
    let is_sub := next_is (is_word_in [lit "select"; lit "with"; lit "from"]) rest in
    let is_call := match prev with
                   | Some p => ident p && negb (bool_decide (v p = lit "in")) && negb (armed w)
                   | None => false
                   end in
    {| parenKind := (if is_sub then sub else if is_call then call else group) :: parenKind w;
       outerFromList := fromListDepth w :: outerFromList w; depth := depth w + 1;
       armed := if is_sub then false else armed w; fromListDepth := fromListDepth w |}
  else if bool_decide (v t = lit ")") then
    {| parenKind := drop 1 (parenKind w); outerFromList := drop 1 (outerFromList w); depth := depth w - 1;
       armed := false; fromListDepth := match outerFromList w with d :: _ => d | [] => -1 end |}
  else
    {| parenKind := parenKind w; outerFromList := outerFromList w; depth := depth w;
       armed := bool_decide (v t = lit ",") && (depth w =? fromListDepth w); fromListDepth := fromListDepth w |}.

(** The [.name] pairs after an identifier. *)
Fixpoint dotted_pairs (rest : list SqlToken) : nat :=
  match rest with
  | d :: x :: rest' => if bool_decide (v d = lit ".") && ident x then S (dotted_pairs rest') else O
  | _ => O
  end.

Definition set_armed (b : bool) (w : Walk) : Walk :=
  {| parenKind := parenKind w; outerFromList := outerFromList w; depth := depth w; armed := b;
     fromListDepth := fromListDepth w |}.

Definition set_from (d : Z) (b : bool) (w : Walk) : Walk :=
  {| parenKind := parenKind w; outerFromList := outerFromList w; depth := depth w; armed := b; fromListDepth := d |}.

(** FROM, or JOIN that is not ARRAY JOIN. *)
Definition opens_table (prev : option SqlToken) (t : SqlToken) : bool :=
  bool_decide (v t = lit "from") ||
  (bool_decide (v t = lit "join") && negb (bool_decide (default [] (v <$> prev) = lit "array"))).

(** The loop: [skip] tokens were consumed as a dotted name. *)
Fixpoint walk (skip : nat) (prev : option SqlToken) (ts : list SqlToken) (w : Walk) : option text :=
  match ts with
  | [] => None
  | t :: rest =>
      match skip with
      | S k => walk k (Some t) rest w
      | O =>
          if negb (ident t) then walk 0 (Some t) rest (walk_symbol prev t rest w)
          else if next_is (is_sym (lit "(")) rest && isReaderName (v t) then Some (v t)
          else if opens_table prev t then
            walk 0 (Some t) rest
              (if bool_decide (head (parenKind w) = Some call) then w else set_from (depth w) true w)
          else if armed w then
            let n := (2 * dotted_pairs rest)%nat in
            if next_is (is_sym (lit "(")) (drop n rest) &&
               ((0 <? Z.of_nat n) || negb (bool_decide (v t ∈ ALLOWED_TABLE_FUNCTIONS)))
            then Some (if 0 <? Z.of_nat n then concat (List.map v (t :: take n rest)) else v t)
            else walk n (Some t) rest (set_armed false w)
          else
            walk 0 (Some t) rest
              (if bool_decide (v t ∈ CLAUSE_BOUNDARY) && (depth w =? fromListDepth w)
               then set_from (-1) (armed w) w else w)
      end
  end.

Definition walk_start : Walk :=
  {| parenKind := []; outerFromList := []; depth := 0; armed := false; fromListDepth := -1 |}.

Definition disallowedTableFunction (sql : text) : option text := walk 0 None (tokenizeSql sql) walk_start.

(** ** Functions and databases *)

(** [tokens.find((t, i) => ...)] with a look at the neighbours. *)
Fixpoint find_token (p : option SqlToken -> SqlToken -> list SqlToken -> bool) (prev : option SqlToken)
    (ts : list SqlToken) : option SqlToken :=
  match ts with
  | [] => None
  | t :: rest => if p prev t rest then Some t else find_token p (Some t) rest
  end.

Definition disallowedServerFunction (sql : text) : option text :=
  v <$> find_token (fun _ t rest => ident t && next_is (is_sym (lit "(")) rest && isServerReader (v t)) None
          (tokenizeSql sql).

Definition systemDatabaseReference (sql : text) : option text :=
  v <$> find_token (fun prev t rest =>
          ident t && bool_decide (v t ∈ SYSTEM_DATABASES) && next_is (is_sym (lit ".")) rest &&
          negb (match prev with Some p => is_sym (lit ".") p | None => false end)) None (tokenizeSql sql).
End Lexer.

(** ** On concrete queries *)

Definition ascii_lower (a : text) : text := List.map (fun c => if (65 <=? c) && (c <=? 90) then c + 32 else c) a.

Definition table_check (sql : string) : option text := disallowedTableFunction ascii_lower (lit sql).

Example table_functions_ex :
  table_check "SELECT * FROM url('http://a')" = Some (lit "url") /\
  table_check "SELECT urlHash(x) FROM traces" = None /\
  table_check "SELECT * FROM numbers(10), default.`remote`('a')" = Some (lit "default.remote") /\
  table_check "SELECT * FROM (SELECT 1), zeros(1)" = Some (lit "zeros") /\
  table_check "SELECT extract(x FROM f(y)) FROM logs, other" = None /\
  table_check "SELECT * FROM a.b(1)" = Some (lit "a.b") /\
  table_check "SELECT 1 FROM u/**/RL ('x')" = None /\
  table_check "SELECT 1 FROM `\x75rl`('x')" = Some (lit "url").
Proof. by vm_compute. Qed.

Example databases_ex :
  List.map (fun s => systemDatabaseReference ascii_lower (lit s))
    ["SELECT * FROM sys.t"; "SELECT * FROM `sys\Ntem` . tables"; "SELECT system FROM t"; "SELECT a.system.b"]%string =
  [None; Some (lit "system"); None; None].
Proof. by vm_compute. Qed.

(** The comma of an ARRAY JOIN list is taken for one of the FROM list, although
    ARRAY JOIN itself opens no table position: an ordinary function call there is
    refused as a table function. *)
Lemma array_join_list_refused :
  table_check "SELECT 1 FROM t ARRAY JOIN f(a) AS x" = None /\
  table_check "SELECT 1 FROM t ARRAY JOIN a AS x, f(a) AS y" = Some (lit "f").
Proof. by vm_compute. Qed.
