(* ===== verification/SqlLexer.v ===== *)
(** * The lexer of raw SQL against its lexical grammar

    A text is written as a sequence of white space, comments, string literals,
    identifiers in any quoting and single symbols; [tokenizeSql] reads back
    exactly the identifiers, lower-cased, and the symbols. *)

From Stdlib Require Import Ascii String.
From stdpp Require Import prelude list.
From Stdlib Require Import ZArith Lia ZifyBool.
From S2P Require Import Prelude.
From S2P Require Import JsString.
From S2P Require Import IngestSha256.
From S2P Require Import IngestRegex.
From S2P Require Import JsUnits.
From S2P Require Import SqlTokens.

Open Scope Z_scope.
Local Open Scope maple_scope.

(** ** Lexical grammar *)

Definition starts_not (p : Z -> bool) (s : text) : Prop := match s with c :: _ => p c = false | [] => True end.

(** The inside of a block comment: no end of comment in it, nor one that begins
    in it. *)
Fixpoint comment_body (b : text) : bool :=
  match b with
  | [] => true
  | c :: b' => negb ((c =? 42) && match b' with d :: _ => d =? 47 | [] => false end) && comment_body b'
  end.

(** The inside of a string literal: plain units, escapes and doubled quotes. *)
Inductive string_body : text -> Prop :=
  | string_nil : string_body []
  | string_plain c b : c <> 39 -> c <> 92 -> string_body b -> string_body (c :: b)
  | string_escape e b : string_body b -> string_body (92 :: e :: b)
  | string_doubled b : string_body b -> string_body (39 :: 39 :: b).

(** The ways to write a name between quotes that close with [close]: a plain
    unit, a doubled quote, a hexadecimal escape, one of the named escapes, the
    escape that vanishes, or a backslash before any other unit. *)
Inductive quoted_name (close : Z) : text -> text -> Prop :=
  | name_nil : quoted_name close [] []
  | name_plain c b n : c <> 92 -> c <> close -> quoted_name close b n -> quoted_name close (c :: b) (c :: n)
  | name_doubled b n : close <> 0x201d -> quoted_name close b n ->
      quoted_name close (close :: close :: b) (close :: n)
  | name_hex x h1 h2 b n : x = 120 \/ x = 88 -> is_hex_unit h1 = true -> is_hex_unit h2 = true ->
      quoted_name close b n ->
      quoted_name close (92 :: x :: h1 :: h2 :: b) (16 * hex_digit_value h1 + hex_digit_value h2 :: n)
  | name_escape e b n : e <> 120 -> e <> 88 -> quoted_name close b n ->
      quoted_name close (92 :: e :: b) (escaped e ++ n).

(** A unit that is a token of its own. *)
Definition is_symbol (c : Z) (s : text) : bool :=
  negb (is_space c) && negb ((c =? 45) && starts_with s [45]) && negb (c =? 35) &&
  negb ((c =? 47) && starts_with s [42]) && negb (c =? 39) &&
  match QUOTE_CLOSE c with None => true | Some _ => false end && negb (is_ident_start c).

Section Grammar.
Context (toLowerCase : text -> text).

Definition name_token (n : text) : SqlToken := {| v := toLowerCase n; ident := true |}.
Definition symbol_token (c : Z) : SqlToken := {| v := [c]; ident := false |}.

Inductive written : text -> list SqlToken -> Prop :=
  | written_nil : written [] []
  | written_space c s ts : is_space c = true -> written s ts -> written (c :: s) ts
  | written_dashes b s ts :                                       (* -- ... *)
      Forall (fun c => (c =? 10) = false) b -> starts_not (fun c => negb (c =? 10)) s ->
      written s ts -> written (45 :: 45 :: b ++ s) ts
  | written_hash b s ts :                                         (* # ... *)
      Forall (fun c => (c =? 10) = false) b -> starts_not (fun c => negb (c =? 10)) s ->
      written s ts -> written (35 :: b ++ s) ts
  | written_block b s ts :                                        (* between slash-star and star-slash *)
      comment_body (b ++ [42]) = true -> written s ts -> written (47 :: 42 :: b ++ 42 :: 47 :: s) ts
  | written_string b s ts :                                       (* between single quotes *)
      string_body b -> starts_not (fun c => c =? 39) s -> written s ts -> written (39 :: b ++ 39 :: s) ts
  | written_quoted open close b n s ts :
      QUOTE_CLOSE open = Some close -> quoted_name close b n ->
      (close <> 0x201d -> starts_not (fun c => c =? close) s) -> written s ts ->
      written (open :: b ++ close :: s) (name_token n :: ts)
  | written_bare c n s ts :
      is_ident_start c = true -> Forall (fun c => is_ident_part c = true) n -> starts_not is_ident_part s ->
      written s ts -> written (c :: n ++ s) (name_token (c :: n) :: ts)
  | written_symbol c s ts : is_symbol c s = true -> written s ts -> written (c :: s) (symbol_token c :: ts).

(** ** The readers *)

Lemma from_newline_spec b s : Forall (fun c => (c =? 10) = false) b -> starts_not (fun c => negb (c =? 10)) s ->
  from_newline (b ++ s) = s.
Proof.
  intros Hb Hs. induction Hb as [|c b Hc Hb IH]; cbn -[Z.eqb]; [|by rewrite Hc].
  destruct s as [|c s]; [done|]. cbn -[Z.eqb] in *. apply negb_false_iff in Hs. by rewrite Hs.
Qed.

Lemma after_comment_spec b s : comment_body (b ++ [42]) = true -> after_comment (b ++ 42 :: 47 :: s) = s.
Proof.
  induction b as [|c b IH]; intros Hb; [done|].
  cbn -[Z.eqb] in Hb. apply andb_true_iff in Hb as [Hc Hb]. cbn [app after_comment].
  destruct b as [|d b]; cbn [app] in *.
  - replace ((c =? 42) && (42 =? 47)) with false by lia. by apply (IH Hb).
  - replace ((c =? 42) && (d =? 47)) with false by lia. by apply (IH Hb).
Qed.

Lemma after_string_spec b s : string_body b -> starts_not (fun c => c =? 39) s -> after_string (b ++ 39 :: s) = s.
Proof.
  intros Hb Hs. induction Hb as [|c b Hc1 Hc2 Hb IH|e b Hb IH|b Hb IH]; cbn [app after_string].
  - change (39 =? 92) with false. cbn. destruct s as [|c s]; [done|]. cbn in Hs. by rewrite Hs.
  - replace (c =? 92) with false by lia. replace (c =? 39) with false by lia. done.
  - done.
  - done.
Qed.

Lemma read_quoted_spec close b n s : close = 96 \/ close = 34 \/ close = 0x201d ->
  quoted_name close b n -> (close <> 0x201d -> starts_not (fun c => c =? close) s) ->
  read_quoted close (b ++ close :: s) = (n, s).
Proof.
  intros Hclose Hb Hs.
  induction Hb as [|c b n Hc1 Hc2 Hb IH|b n Hne Hb IH|x h1 h2 b n Hx H1 H2 Hb IH|e b n H1 H2 Hb IH]; cbn [app read_quoted].
  - replace (close =? 92) with false by lia. rewrite Z.eqb_refl. destruct s as [|c s]; [done|].
    destruct (Z.eqb_spec close 0x201d) as [->|Hne]; [done|]. cbn in Hs. by rewrite Hs.
  - replace (c =? 92) with false by lia. replace (c =? close) with false by lia. by rewrite IH.
  - replace (close =? 92) with false by lia. rewrite Z.eqb_refl.
    replace (close =? 0x201d) with false by lia. cbn [negb andb]. by rewrite IH.
  - change (92 =? 92) with true. cbn iota. replace ((x =? 120) || (x =? 88)) with true by lia. rewrite H1, H2. cbn [andb].
    by rewrite IH.
  - change (92 =? 92) with true. cbn iota. replace ((e =? 120) || (e =? 88)) with false by lia. by rewrite IH.
Qed.

Lemma span_ident_spec n s : Forall (fun c => is_ident_part c = true) n -> starts_not is_ident_part s ->
  span_ident (n ++ s) = (n, s).
Proof.
  intros Hn Hs. induction Hn as [|c n Hc Hn IH]; cbn [app span_ident]; [|by rewrite Hc, IH].
  destruct s as [|c s]; [done|]. cbn in *. by rewrite Hs.
Qed.

Lemma quote_close open close : QUOTE_CLOSE open = Some close ->
  (close = 96 \/ close = 34 \/ close = 0x201d) /\ is_space open = false /\ (open =? 45) = false /\ (open =? 35) = false /\
  (open =? 47) = false /\ (open =? 39) = false.
Proof. unfold QUOTE_CLOSE, is_space. repeat case_match; intros [= <-]; lia. Qed.

Lemma ident_start_plain c : is_ident_start c = true ->
  is_space c = false /\ (c =? 45) = false /\ (c =? 35) = false /\ (c =? 47) = false /\ (c =? 39) = false /\ QUOTE_CLOSE c = None.
Proof.
  unfold is_ident_start, is_space, QUOTE_CLOSE. intros Hc. repeat case_match; split_and!; try done; lia.
Qed.

(** The lexer reads a written text back, with fuel for every unit. *)
Lemma tokenize_written s ts : written s ts -> forall fuel, (length s <= fuel)%nat -> tokenize toLowerCase fuel s = ts.
Proof.
  induction 1 as [|c s ts Hc Hw IH|b s ts Hb Hs Hw IH|b s ts Hb Hs Hw IH|b s ts Hb Hw IH|b s ts Hb Hs Hw IH
    |open close b n s ts Ho Hb Hs Hw IH|c n s ts Hc Hn Hs Hw IH|c s ts Hc Hw IH]; intros fuel Hf;
    rewrite ?length_cons, ?length_app, ?length_cons in Hf;
    (destruct fuel as [|fuel]; [first [done | lia]|]); cbn [tokenize].
  - done.
  - rewrite Hc. apply IH. lia.
  - change (is_space 45) with false. cbn [starts_with Z.eqb orb andb].
    replace (starts_with (b ++ s) []) with true by by destruct (b ++ s). cbn [orb Z.eqb Pos.eqb andb].
    change (from_newline (45 :: 45 :: b ++ s)) with (from_newline (b ++ s)). rewrite from_newline_spec by done.
    apply IH. lia.
  - change (is_space 35) with false. change (35 =? 35) with true. rewrite orb_true_r.
    change (from_newline (35 :: b ++ s)) with (from_newline (b ++ s)). rewrite from_newline_spec by done. apply IH. lia.
  - change (is_space 47) with false. change ((47 =? 45) && _ || (47 =? 35)) with false. cbn [starts_with].
    replace (starts_with (b ++ 42 :: 47 :: s) []) with true by by destruct b.
    change ((47 =? 47) && ((42 =? 42) && true)) with true. cbn [drop]. rewrite drop_0.
    rewrite after_comment_spec by done. apply IH. lia.
  - change (is_space 39) with false. change ((39 =? 45) && _ || (39 =? 35)) with false.
    change ((39 =? 47) && _) with false. change (39 =? 39) with true. cbn iota.
    rewrite after_string_spec by done. apply IH. lia.
  - destruct (quote_close _ _ Ho) as (Hclose & -> & -> & -> & -> & ->). cbn [andb orb]. rewrite Ho.
    rewrite (read_quoted_spec close b n s) by done. f_equal. apply IH. lia.
  - destruct (ident_start_plain _ Hc) as (-> & -> & -> & -> & -> & ->). cbn [andb orb]. rewrite Hc.
    rewrite span_ident_spec by done. f_equal. apply IH. lia.
  - unfold is_symbol in Hc. rewrite !andb_true_iff, !negb_true_iff in Hc.
    destruct Hc as ((((((-> & ->) & ->) & ->) & ->) & Hq) & ->). cbn [orb].
    destruct (QUOTE_CLOSE c); [done|]. f_equal. apply IH. lia.
Qed.

Lemma tokenizeSql_written s ts : written s ts -> tokenizeSql toLowerCase s = ts.
Proof. intros Hw. by apply tokenize_written. Qed.
End Grammar.
