(* ===== verification/SqlChecks.v ===== *)
(** * What the token checks of raw SQL refuse

    The walks of packages/domain/src/raw-sql.ts over the tokens of a query that is
    written in any spelling: which calls and names an accepted query cannot hold. *)

From Stdlib Require Import Ascii String.
From stdpp Require Import prelude list.
From Stdlib Require Import ZArith Lia ZifyBool.
From S2P Require Import Prelude.
From S2P Require Import JsString.
From S2P Require Import IngestSha256.
From S2P Require Import IngestRegex.
From S2P Require Import JsUnits.
From S2P Require Import SqlTokens.
From S2P Require Import SqlLexer.

Open Scope Z_scope.
Local Open Scope maple_scope.

Definition sym (s : string) : SqlToken := {| v := lit s; ident := false |}.
Definition word (n : text) : SqlToken := {| v := n; ident := true |}.

(** ** Tokens followed by a token *)

(** The name at position [i] is called there. *)
Definition called (ts : list SqlToken) (i : nat) (n : text) : Prop :=
  ts !! i = Some (word n) /\ ts !! S i = Some (sym "(").

(** The name at position [i] qualifies another one and is not qualified itself. *)
Definition qualifies (ts : list SqlToken) (i : nat) (n : text) : Prop :=
  ts !! i = Some (word n) /\ ts !! S i = Some (sym ".") /\ (i = O \/ ts !! pred i <> Some (sym ".")).

Lemma is_sym_iff s t : is_sym (lit s) t = true <-> t = sym s.
Proof.
  unfold is_sym, sym. rewrite andb_true_iff, negb_true_iff, bool_decide_eq_true. destruct t as [x b]. cbn. naive_solver.
Qed.

Lemma next_is_iff s rest : next_is (is_sym (lit s)) rest = true <-> head rest = Some (sym s).
Proof. destruct rest as [|t rest]; cbn [next_is head]; [done|]. rewrite is_sym_iff. naive_solver. Qed.

Lemma find_token_none p ts : forall prev,
  find_token p prev ts = None <->
  forall i t, ts !! i = Some t -> p (match i with O => prev | S j => ts !! j end) t (drop (S i) ts) = false.
Proof.
  induction ts as [|t ts IH]; intros prev; cbn [find_token]; [done|]. destruct (p prev t ts) eqn:Hp.
  - split; [done|]. intros Hall. specialize (Hall O t eq_refl). cbn in Hall. rewrite drop_0 in Hall. congruence.
  - rewrite IH. split.
    + intros Hall [|i] x Hx; [injection Hx as <-; cbn; by rewrite drop_0|]. specialize (Hall i x Hx). by destruct i.
    + intros Hall i x Hx. specialize (Hall (S i) x Hx). by destruct i.
Qed.

Lemma head_drop {A} (l : list A) i : head (drop i l) = l !! i.
Proof. revert i. induction l as [|x l IH]; intros [|i]; cbn; auto. Qed.

Lemma word_of t : ident t = true -> t = word (v t).
Proof. destruct t as [x b]. by intros [= ->]. Qed.

Section Checks.
Context (toLowerCase : text -> text).

Lemma server_functions s ts : written toLowerCase s ts ->
  disallowedServerFunction toLowerCase s = None <->
  forall i n, called ts i n -> isServerReader n = false.
Proof.
  intros Hw. unfold disallowedServerFunction. rewrite (tokenizeSql_written _ _ _ Hw), fmap_None, find_token_none. split.
  - intros Hall i n [Hi Hn]. specialize (Hall i _ Hi). cbn [ident v word andb] in Hall.
    rewrite (proj2 (next_is_iff "(" _)) in Hall by (by rewrite head_drop). done.
  - intros Hall i t Hi. destruct (ident t) eqn:Ht; [|done]. cbn [andb].
    destruct (next_is _ _) eqn:Hn; [|done]. apply next_is_iff in Hn. rewrite head_drop in Hn.
    apply (Hall i). split; [by rewrite <- word_of|done].
Qed.

Lemma system_databases s ts : written toLowerCase s ts ->
  systemDatabaseReference toLowerCase s = None <->
  forall i n, qualifies ts i n -> n ∉ SYSTEM_DATABASES.
Proof.
  intros Hw. unfold systemDatabaseReference. rewrite (tokenizeSql_written _ _ _ Hw), fmap_None, find_token_none. split.
  - intros Hall i n (Hi & Hn & Hp) Hin. specialize (Hall i _ Hi). cbn [ident v word andb] in Hall.
    rewrite (proj2 (next_is_iff "." _)), bool_decide_eq_true_2 in Hall by (done || by rewrite head_drop).
    cbn [andb] in Hall. apply negb_false_iff in Hall. destruct i as [|j]; [done|]. destruct Hp as [|Hp]; [done|]. cbn in Hp.
    destruct (ts !! j) as [p|]; [|done]. apply is_sym_iff in Hall as ->. done.
  - intros Hall i t Hi. destruct (ident t) eqn:Ht; [|done]. cbn [andb].
    case_bool_decide as Hin; [|done]. cbn [andb]. destruct (next_is _ _) eqn:Hn; [|done]. cbn [andb].
    apply next_is_iff in Hn. rewrite head_drop in Hn. apply negb_false_iff.
    destruct (match match i with O => None | S j => ts !! j end with Some p => is_sym (lit ".") p | None => false end) eqn:Hp;
      [done|]. exfalso. apply (Hall i (v t)); [|done]. split_and!; [by rewrite <- word_of|done|].
    destruct i as [|j]; [by left|]. right. cbn. intros Hj. rewrite Hj in Hp. by vm_compute in Hp.
Qed.
End Checks.

(** ** The walk, one token at a time *)

Definition last_or (prev : option SqlToken) (l : list SqlToken) : option SqlToken :=
  match last l with Some t => Some t | None => prev end.

(** The tokens still to skip are [.name] pairs; an odd number is left right
    after a dot. *)
Definition skipping (prev : option SqlToken) (ts : list SqlToken) (skip : nat) : Prop :=
  (exists k, skip = (2 * k)%nat /\ (k <= dotted_pairs ts)%nat) \/
  (exists k p x ts', skip = S (2 * k) /\ prev = Some p /\ v p = lit "." /\ ts = x :: ts' /\ ident x = true /\
     (k <= dotted_pairs ts')%nat).

Lemma skipping_zero prev ts : skipping prev ts 0.
Proof. left. exists O. lia. Qed.

Lemma skipping_step prev t ts k : skipping prev (t :: ts) (S k) -> skipping (Some t) ts k.
Proof.
  intros [(j & Hj & Hd)|(j & p & x & ts' & [= Hj] & _ & _ & [= <- <-] & _ & Hd)].
  - destruct j as [|j]; [lia|]. cbn [dotted_pairs] in Hd. destruct ts as [|x ts]; [lia|].
    destruct (bool_decide (v t = lit ".") && ident x) eqn:E; [|lia]. apply andb_true_iff in E as [Hv Hx].
    apply bool_decide_eq_true in Hv. right. exists j, t, x, ts. split_and!; try done; lia.
  - left. exists j. split; [lia|done].
Qed.

(** A symbol other than a dot, or a word not after a dot, is never skipped. *)
Lemma skipping_symbol prev t ts k : ident t = false -> v t <> lit "." -> skipping prev (t :: ts) k -> k = O.
Proof.
  intros Ht Hv [(j & -> & Hd)|(j & p & x & ts' & _ & _ & _ & [= <- _] & Hx & _)]; [|congruence].
  destruct j as [|j]; [done|]. cbn [dotted_pairs] in Hd. destruct ts; [lia|]. rewrite bool_decide_eq_false_2 in Hd by done. cbn in Hd. lia.
Qed.

Lemma skipping_word prev t ts k : v t <> lit "." -> (forall p, prev = Some p -> v p <> lit ".") ->
  skipping prev (t :: ts) k -> k = O.
Proof.
  intros Hv Hp [(j & -> & Hd)|(j & p & x & ts' & _ & Hpp & Hpv & _)]; [|by destruct (Hp p Hpp)].
  destruct j as [|j]; [done|]. cbn [dotted_pairs] in Hd. destruct ts; [lia|]. rewrite bool_decide_eq_false_2 in Hd by done. cbn in Hd. lia.
Qed.

(** The state after the tokens [l], when none of them is refused. *)
Definition reaches (l rest : list SqlToken) (prev : option SqlToken) (P : nat -> Walk -> Prop) : Prop :=
  exists skip w, walk skip (last_or prev l) rest w = None /\ skipping (last_or prev l) rest skip /\ P skip w.

Lemma last_or_cons prev t l : last_or prev (t :: l) = last_or (Some t) l.
Proof. unfold last_or. rewrite last_cons. by destruct (last l). Qed.

Lemma last_or_app prev l l' : last_or prev (l ++ l') = last_or (last_or prev l) l'.
Proof. unfold last_or. rewrite last_app. destruct (last l'); [done|]. done. Qed.

(** What a token other than a parenthesis keeps. *)
Definition same_level (w w' : Walk) : Prop :=
  depth w' = depth w /\ outerFromList w' = outerFromList w /\ parenKind w' = parenKind w.

Lemma walk_plain t rest skip prev w :
  t <> sym "(" -> t <> sym ")" -> walk skip prev (t :: rest) w = None -> skipping prev (t :: rest) skip ->
  exists skip' w', walk skip' (Some t) rest w' = None /\ skipping (Some t) rest skip' /\ same_level w w' /\
    (v t ∉ CLAUSE_BOUNDARY -> fromListDepth w = depth w -> fromListDepth w' = depth w').
Proof.
  intros H1 H2 Hw Hs. cbn [walk] in Hw. destruct skip as [|k].
  2: { exists k, w. split_and!; [done|by apply skipping_step in Hs|done|done]. }
  destruct (ident t) eqn:Ht; cbn [negb] in Hw.
  - destruct (_ && isReaderName (v t)); [done|]. destruct (opens_table prev t).
    { eexists O, _. split_and!; [exact Hw|apply skipping_zero|by case_match|]. intros _ Hf. by case_match. }
    destruct (armed w) eqn:Ha.
    + destruct (_ && _); [done|]. eexists _, _. split_and!; [exact Hw| |done|done].
      left. exists (dotted_pairs rest). lia.
    + eexists O, _. split_and!; [exact Hw|apply skipping_zero|by case_match|]. intros Hb Hf.
      by rewrite bool_decide_eq_false_2 by done.
  - assert (v t <> lit "(" /\ v t <> lit ")") as [Hv1 Hv2].
    { destruct t as [x b]. cbn in *. subst b. split; intros ->; [by apply H1|by apply H2]. }
    unfold walk_symbol in Hw. rewrite !bool_decide_eq_false_2 in Hw by done.
    eexists O, _. split_and!; [exact Hw|apply skipping_zero|done|done].
Qed.

Lemma walk_any l rest : forall skip prev w, walk skip prev (l ++ rest) w = None -> skipping prev (l ++ rest) skip ->
  reaches l rest prev (fun _ _ => True).
Proof.
  induction l as [|t l IH]; intros skip prev w Hw Hs; [by exists skip, w|].
  unfold reaches. rewrite last_or_cons. cbn [app walk] in Hw, Hs. destruct skip as [|k].
  - assert (exists skip' w', walk skip' (Some t) (l ++ rest) w' = None /\ skipping (Some t) (l ++ rest) skip') as (k & w' & Hk & Hsk).
    { repeat case_match; try done; eexists _, _; (split; [exact Hw|]); try apply skipping_zero.
      left. exists (dotted_pairs (l ++ rest)). lia. }
    by apply (IH k _ w').
  - by apply (IH k _ w), skipping_step with prev.
Qed.

(** ** Balanced tokens *)

Inductive balanced : list SqlToken -> Prop :=
  | balanced_nil : balanced []
  | balanced_token t l : t <> sym "(" -> t <> sym ")" -> balanced l -> balanced (t :: l)
  | balanced_parens l l' : balanced l -> balanced l' -> balanced (sym "(" :: l ++ sym ")" :: l').

(** The items of a FROM list: balanced tokens without a clause keyword outside
    their parentheses. *)
Inductive from_items : list SqlToken -> Prop :=
  | items_nil : from_items []
  | items_token t l : t <> sym "(" -> t <> sym ")" -> v t ∉ CLAUSE_BOUNDARY -> from_items l -> from_items (t :: l)
  | items_parens l l' : balanced l -> from_items l' -> from_items (sym "(" :: l ++ sym ")" :: l').

Lemma walk_open rest skip prev w :
  walk skip prev (sym "(" :: rest) w = None -> skipping prev (sym "(" :: rest) skip ->
  exists w', walk 0 (Some (sym "(")) rest w' = None /\
    depth w' = depth w + 1 /\ outerFromList w' = fromListDepth w :: outerFromList w /\
    drop 1 (parenKind w') = parenKind w /\
    (next_is (is_word_in [lit "select"; lit "with"; lit "from"]) rest = true -> head (parenKind w') = Some sub) /\
    (next_is (is_word_in [lit "select"; lit "with"; lit "from"]) rest = false -> armed w = true -> armed w' = true).
Proof.
  intros Hw Hs. assert (skip = O) as -> by by apply skipping_symbol in Hs. cbn [walk ident sym negb] in Hw.
  unfold walk_symbol in Hw. change (bool_decide (v (sym "(") = lit "(")) with true in Hw. cbn iota in Hw.
  eexists. split; [exact Hw|]. cbn [depth outerFromList parenKind armed drop head].
  split_and!; [done..|by intros ->|by intros -> ->].
Qed.

Lemma walk_close rest skip prev w f fs :
  walk skip prev (sym ")" :: rest) w = None -> skipping prev (sym ")" :: rest) skip -> outerFromList w = f :: fs ->
  exists w', walk 0 (Some (sym ")")) rest w' = None /\
    depth w' = depth w - 1 /\ outerFromList w' = fs /\ parenKind w' = drop 1 (parenKind w) /\ fromListDepth w' = f.
Proof.
  intros Hw Hs Ho. assert (skip = O) as -> by by apply skipping_symbol in Hs. cbn [walk ident sym negb] in Hw.
  unfold walk_symbol in Hw. change (bool_decide (v (sym ")") = lit "(")) with false in Hw.
  change (bool_decide (v (sym ")") = lit ")")) with true in Hw. cbn iota in Hw. rewrite Ho in Hw.
  eexists. split; [exact Hw|done].
Qed.

Lemma walk_balanced l : balanced l -> forall rest skip prev w,
  walk skip prev (l ++ rest) w = None -> skipping prev (l ++ rest) skip -> reaches l rest prev (fun _ => same_level w).
Proof.
  induction 1 as [|t l H1 H2 Hl IH|l l' Hl IH Hl' IH']; intros rest skip prev w Hw Hs.
  - exists skip, w. by split_and!.
  - destruct (walk_plain _ _ _ _ _ H1 H2 Hw Hs) as (k & w1 & Hw1 & Hs1 & (L1 & L2 & L3) & _).
    unfold reaches. rewrite last_or_cons. destruct (IH _ _ _ _ Hw1 Hs1) as (k2 & w2 & Hw2 & Hs2 & (M1 & M2 & M3)).
    exists k2, w2. split_and!; [done..|]. split_and!; congruence.
  - cbn [app] in *. rewrite <- app_assoc in *. cbn [app] in *.
    destruct (walk_open _ _ _ _ Hw Hs) as (w1 & Hw1 & D1 & O1 & K1 & _).
    destruct (IH _ _ _ _ Hw1 (skipping_zero _ _)) as (k2 & w2 & Hw2 & Hs2 & (D2 & O2 & K2)).
    rewrite O1 in O2. destruct (walk_close _ _ _ _ _ _ Hw2 Hs2 O2) as (w3 & Hw3 & D3 & O3 & K3 & _).
    destruct (IH' _ _ _ _ Hw3 (skipping_zero _ _)) as (k4 & w4 & Hw4 & Hs4 & (D4 & O4 & K4)).
    unfold reaches. rewrite last_or_cons, last_or_app, last_or_cons.
    exists k4, w4. split_and!; [done..|]. split_and!; [lia|congruence|congruence].
Qed.

Lemma walk_items l : from_items l -> forall rest skip prev w,
  walk skip prev (l ++ rest) w = None -> skipping prev (l ++ rest) skip -> fromListDepth w = depth w ->
  reaches l rest prev (fun _ w' => fromListDepth w' = depth w').
Proof.
  induction 1 as [|t l H1 H2 Hb Hl IH|l l' Hl Hl' IH']; intros rest skip prev w Hw Hs Hf.
  - by exists skip, w.
  - destruct (walk_plain _ _ _ _ _ H1 H2 Hw Hs) as (k & w1 & Hw1 & Hs1 & _ & Hf1).
    unfold reaches. rewrite last_or_cons. by apply (IH _ _ _ w1 Hw1 Hs1), Hf1.
  - cbn [app] in *. rewrite <- app_assoc in *. cbn [app] in *.
    destruct (walk_open _ _ _ _ Hw Hs) as (w1 & Hw1 & D1 & O1 & K1 & _).
    destruct (walk_balanced _ Hl _ _ _ _ Hw1 (skipping_zero _ _)) as (k2 & w2 & Hw2 & Hs2 & (D2 & O2 & K2)).
    rewrite O1 in O2. destruct (walk_close _ _ _ _ _ _ Hw2 Hs2 O2) as (w3 & Hw3 & D3 & O3 & K3 & F3).
    unfold reaches. rewrite last_or_cons, last_or_app, last_or_cons.
    apply (IH' _ _ _ w3 Hw3 (skipping_zero _ _)). lia.
Qed.

(** ** Table positions *)

(** What may stand before a FROM or JOIN that reads a table: at the top level,
    balanced tokens; inside, an opening parenthesis of a subquery and balanced
    tokens. *)
Inductive query_context : list SqlToken -> SqlToken -> Prop :=
  | context_top l kw : balanced l -> query_context l kw
  | context_sub pre l kw : balanced l -> next_is (is_word_in [lit "select"; lit "with"; lit "from"]) (l ++ [kw]) = true ->
      query_context (pre ++ sym "(" :: l) kw.

(** A keyword after which a table is read. *)
Definition table_keyword (pre : list SqlToken) (kw : SqlToken) : Prop :=
  (kw = word (lit "from") \/ kw = word (lit "join") /\ (v <$> last pre) <> Some (lit "array")) /\
  (v <$> last pre) <> Some (lit ".").

Lemma next_is_app p l r : l <> [] -> next_is p (l ++ r) = next_is p l.
Proof. by destruct l. Qed.

Lemma head_not_call {A} (k : list A) (x : A) : k = [] -> head k <> Some x.
Proof. by intros ->. Qed.

(** The keyword opens a FROM list at its own depth. *)
Lemma walk_keyword pre kw rest :
  walk 0 None (pre ++ kw :: rest) walk_start = None -> query_context pre kw -> table_keyword pre kw ->
  exists w, walk 0 (Some kw) rest w = None /\ armed w = true /\ fromListDepth w = depth w.
Proof.
  intros Hw Hc [Hkw Hdot].
  assert (reaches pre (kw :: rest) None (fun _ w => head (parenKind w) <> Some call)) as (k & w & Hk & Hs & Hcall).
  { destruct Hc as [l kw Hl|pre l kw Hl Hsub].
    - destruct (walk_balanced _ Hl _ _ _ _ Hw (skipping_zero _ _)) as (k & w & Hk & Hs & (_ & _ & K)).
      exists k, w. split_and!; [done..|by rewrite K].
    - rewrite <- app_assoc in Hw. cbn [app] in Hw.
      destruct (walk_any pre _ _ _ _ Hw (skipping_zero _ _)) as (k1 & w1 & Hw1 & Hs1 & _).
      destruct (walk_open _ _ _ _ Hw1 Hs1) as (w2 & Hw2 & _ & _ & _ & Hhead & _).
      destruct (walk_balanced _ Hl _ _ _ _ Hw2 (skipping_zero _ _)) as (k3 & w3 & Hw3 & Hs3 & (_ & _ & K)).
      unfold reaches. rewrite last_or_app, last_or_cons. exists k3, w3. split_and!; [done..|].
      rewrite K, Hhead; [done|]. destruct l; [exact Hsub|]. by rewrite next_is_app in Hsub |- *. }
  assert (k = O) as ->.
  { eapply skipping_word; [| |exact Hs]; [by destruct Hkw as [->|[-> _]]|].
    intros p Hp Hv. unfold last_or in Hp. apply Hdot. destruct (last pre); [|done]. injection Hp as ->. by rewrite <- Hv. }
  assert (ident kw = true /\ opens_table (last_or None pre) kw = true) as [Hid Hop].
  { destruct Hkw as [->|[-> Ha]]; (split; [done|]); [done|]. unfold opens_table. cbn [v word]. apply orb_true_iff. right.
    rewrite bool_decide_eq_true_2 by done. apply negb_true_iff, bool_decide_eq_false. unfold last_or.
    destruct (last pre) as [p|]; [|by intros Hn; vm_compute in Hn].
    change (v p <> lit "array"). intros Hp. apply Ha. change (Some (v p) = Some (lit "array")). by rewrite Hp. }
  cbn [walk] in Hk. rewrite Hid, Hop in Hk. cbn [negb] in Hk. destruct (_ && isReaderName (v kw)); [done|].
  rewrite bool_decide_eq_false_2 in Hk by done. eexists. split; [exact Hk|done].
Qed.

Definition dotted_rest (qs : list text) : list SqlToken := concat (List.map (fun q => [sym "."; word q]) qs).

Lemma dotted_rest_cons q qs : dotted_rest (q :: qs) = sym "." :: word q :: dotted_rest qs.
Proof. done. Qed.

Lemma length_dotted_rest qs : length (dotted_rest qs) = (2 * length qs)%nat.
Proof. induction qs as [|q qs IH]; [done|]. rewrite dotted_rest_cons, !length_cons, IH. lia. Qed.

Lemma dotted_pairs_rest qs rest : (forall t, head rest = Some t -> v t <> lit ".") ->
  dotted_pairs (dotted_rest qs ++ rest) = length qs.
Proof.
  intros Hr. induction qs as [|q qs IH].
  - change (dotted_rest [] ++ rest) with rest. destruct rest as [|d rest]; [done|]. cbn [dotted_pairs]. destruct rest; [done|].
    by rewrite bool_decide_eq_false_2 by by apply Hr.
  - rewrite dotted_rest_cons. cbn [app].
    cbn [dotted_pairs ident word length]. change (bool_decide (v (sym ".") = lit ".")) with true. cbn [andb]. by rewrite IH.
Qed.

(** A called name at a table position is one of the generators, unqualified. *)
Lemma walk_table n x qs rest prev w :
  walk 0 prev (replicate n (sym "(") ++ word x :: dotted_rest qs ++ sym "(" :: rest) w = None -> armed w = true ->
  x ∉ [lit "from"; lit "join"; lit "select"; lit "with"] -> qs = [] /\ x ∈ ALLOWED_TABLE_FUNCTIONS.
Proof.
  revert prev w. induction n as [|n IH]; intros prev w Hw Ha Hx; cbn [replicate app] in Hw.
  - cbn [walk ident word negb] in Hw. destruct (_ && isReaderName _); [done|].
    unfold opens_table in Hw. cbn [v word] in Hw.
    rewrite (bool_decide_eq_false_2 (x = lit "from")), (bool_decide_eq_false_2 (x = lit "join")) in Hw by set_solver.
    cbn [orb andb] in Hw. rewrite Ha in Hw. rewrite dotted_pairs_rest in Hw by by intros t [= <-].
    replace (drop (2 * length qs) (dotted_rest qs ++ sym "(" :: rest)) with (sym "(" :: rest) in Hw.
    2: { symmetry. apply drop_app_length'. by rewrite length_dotted_rest. }
    cbn [next_is] in Hw. change (is_sym (lit "(") (sym "(")) with true in Hw. cbn [andb] in Hw.
    destruct qs as [|q qs].
    2: { replace (0 <? Z.of_nat (2 * length (q :: qs))) with true in Hw by (cbn [length]; lia). done. }
    split; [done|]. cbn [length Nat.mul] in Hw.
    change (0 <? Z.of_nat 0) with false in Hw. cbn [orb] in Hw. case_bool_decide; [done|done].
  - destruct (walk_open _ _ _ _ Hw (skipping_zero _ _)) as (w1 & Hw1 & _ & _ & _ & _ & Harm).
    apply (IH _ w1 Hw1); [|done]. apply Harm; [|done]. destruct n; cbn [replicate app next_is]; [|done].
    unfold is_word_in. cbn [ident v word andb]. apply bool_decide_eq_false. set_solver.
Qed.

(** A name that is called is checked, also as the end of a dotted name. *)
Lemma walk_readers ts : forall skip prev w, walk skip prev ts w = None -> skipping prev ts skip ->
  (skip <> O -> next_is (is_sym (lit "(")) (drop skip ts) = false) ->
  forall i n, called ts i n -> isReaderName n = false.
Proof.
  induction ts as [|t ts IH]; intros skip prev w Hw Hs Hend i n [Hi Hn]; [done|]. cbn [walk] in Hw.
  destruct skip as [|k].
  - destruct (ident t) eqn:Ht; cbn [negb] in Hw.
    2: { destruct i as [|i]; [by injection Hi as ->|]. by eapply (IH _ _ _ Hw (skipping_zero _ _)); [|by split]. }
    destruct (next_is (is_sym (lit "(")) ts && isReaderName (v t)) eqn:Hr; [done|].
    destruct i as [|i].
    { injection Hi as ->. rewrite (proj2 (next_is_iff "(" ts)) in Hr; [done|]. by destruct ts. }
    destruct (opens_table prev t); [by eapply (IH _ _ _ Hw (skipping_zero _ _)); [|by split]|].
    destruct (armed w); [|by eapply (IH _ _ _ Hw (skipping_zero _ _)); [|by split]].
    destruct (next_is (is_sym (lit "(")) (drop (2 * dotted_pairs ts) ts) && _) eqn:Hd; [done|].
    eapply (IH _ _ _ Hw); [left; exists (dotted_pairs ts); lia| |by split].
    intros Hne. apply andb_false_iff in Hd as [Hd|Hd]; [done|]. apply orb_false_iff in Hd as [Hd _]. lia.
  - pose proof (skipping_step _ _ _ _ Hs) as Hs'. destruct i as [|i].
    + exfalso. injection Hi as ->. destruct ts as [|t ts]; [done|].
      change (Some t = Some (sym "(")) in Hn. injection Hn as ->.
      assert (k = O) as -> by by apply skipping_symbol in Hs'. specialize (Hend ltac:(done)). cbn [drop] in Hend.
      by rewrite (proj2 (next_is_iff "(" _)) in Hend.
    + eapply (IH _ _ _ Hw Hs'); [|by split]. intros _. by apply Hend.
Qed.

Section Accepted.
Context (toLowerCase : text -> text).

(** C22: no spelling hides a forbidden name. Whatever white space, comments,
    letter case, quoting and escapes a query is written with, if the three token
    checks accept it then among its names as the server reads them no
    server-reading function and no table reader is called anywhere, and no system
    database qualifies a name; the two last checks refuse nothing else. *)
Theorem forbidden_names_found s ts :
  written toLowerCase s ts ->
  (disallowedServerFunction toLowerCase s = None <-> forall i n, called ts i n -> isServerReader n = false) /\
  (systemDatabaseReference toLowerCase s = None <-> forall i n, qualifies ts i n -> n ∉ SYSTEM_DATABASES) /\
  (disallowedTableFunction toLowerCase s = None -> forall i n, called ts i n -> isReaderName n = false).
Proof.
  intros Hs. split_and!; [by apply server_functions|by apply system_databases|].
  unfold disallowedTableFunction. rewrite (tokenizeSql_written _ _ _ Hs). intros Hw.
  by apply (walk_readers _ _ _ _ Hw (skipping_zero _ _)).
Qed.

(** An accepted query reads tables only. After FROM, or a JOIN that is no
    ARRAY JOIN, of a query or a subquery at any depth, and after each comma of the
    list it opens, however many grouping parentheses stand before it, a name that
    is called (the keywords that go on the query apart) is one of the two
    in-memory generators and is not qualified. *)
Theorem table_positions_safe s ts pre kw mid n x qs rest :
  written toLowerCase s ts -> disallowedTableFunction toLowerCase s = None ->
  ts = pre ++ kw :: mid ++ replicate n (sym "(") ++ word x :: dotted_rest qs ++ sym "(" :: rest ->
  query_context pre kw -> table_keyword pre kw ->
  mid = [] \/ (exists items, mid = items ++ [sym ","] /\ from_items items) ->
  x ∉ [lit "from"; lit "join"; lit "select"; lit "with"] ->
  qs = [] /\ x ∈ ALLOWED_TABLE_FUNCTIONS.
Proof.
  intros Hs Hd -> Hc Hk Hmid Hx. unfold disallowedTableFunction in Hd. rewrite (tokenizeSql_written _ _ _ Hs) in Hd.
  destruct (walk_keyword _ _ _ Hd Hc Hk) as (w & Hw & Ha & Hf). destruct Hmid as [->|(items & -> & Hi)].
  - by apply (walk_table _ _ _ _ _ _ Hw).
  - rewrite <- app_assoc in Hw. cbn [app] in Hw.
    destruct (walk_items _ Hi _ _ _ _ Hw (skipping_zero _ _) Hf) as (k & w1 & Hw1 & Hs1 & Hf1).
    assert (k = O) as -> by by apply skipping_symbol in Hs1. cbn [walk ident sym negb] in Hw1.
    unfold walk_symbol in Hw1. change (bool_decide (v (sym ",") = lit "(")) with false in Hw1.
    change (bool_decide (v (sym ",") = lit ")")) with false in Hw1. cbn iota in Hw1.
    eapply (walk_table _ _ _ _ _ _ Hw1); [|done]. cbn [armed]. rewrite Hf1. by rewrite Z.eqb_refl.
Qed.
End Accepted.

(** ** A concrete query *)

(** [FROM t,`\x6eumbers`(3)--x]: the name is written with an escape. *)
Definition query : text := Eval vm_compute in lit "FROM t,`\x6eumbers`(3)--x".

Definition query_tokens : list SqlToken := Eval vm_compute in
  [word (lit "from"); word (lit "t"); sym ","; word (lit "numbers"); sym "("; sym "3"; sym ")"].

Lemma query_written : written ascii_lower query query_tokens.
Proof.
  unfold query, query_tokens.
  eapply (written_bare ascii_lower 70 [82; 79; 77]); [done|by repeat constructor|done|].
  eapply written_space; [done|]. eapply (written_bare ascii_lower 116 []); [done|constructor|done|].
  eapply written_symbol; [done|].
  eapply (written_quoted ascii_lower 96 96 [92; 120; 54; 101; 117; 109; 98; 101; 114; 115] (lit "numbers"));
    [done| |done|].
  { eapply (name_hex 96 120 54 101); [by left|done|done|]. do 6 (eapply name_plain; [done|done|]). apply name_nil. }
  do 3 (eapply written_symbol; [done|]).
  eapply (written_dashes ascii_lower [120]); [by repeat constructor|done|apply written_nil].
Qed.

Example forbidden_names_found_witness :
  disallowedServerFunction ascii_lower query = None /\
  forall i n, called query_tokens i n -> isServerReader n = false /\ isReaderName n = false.
Proof.
  split; [by vm_compute|]. intros i n Hc. destruct (forbidden_names_found ascii_lower query query_tokens query_written) as (H1 & _ & H3).
  split; [eapply H1|eapply H3]; first [exact Hc | by vm_compute].
Defined.

Example table_positions_safe_witness :
  @nil text = [] /\ lit "numbers" ∈ ALLOWED_TABLE_FUNCTIONS.
Proof.
  apply (table_positions_safe ascii_lower query query_tokens [] (word (lit "from")) [word (lit "t"); sym ","] 0
           (lit "numbers") [] [sym "3"; sym ")"] query_written).
  - by vm_compute.
  - by vm_compute.
  - apply context_top. constructor.
  - split; [by left|done].
  - right. exists [word (lit "t")]. split; [done|]. apply items_token; [done|done| |constructor].
    apply (bool_decide_unpack _). by vm_compute.
  - apply (bool_decide_unpack _). by vm_compute.
Defined.
