(* ===== verification/PromText.v ===== *)
(** * The Prometheus text format

    lib/prometheus-otlp/src/parser.ts: the parser of scraped metrics. A malformed
    line is skipped and counted, nothing throws. Texts are lists of UTF-16 code
    units; [Number] of a token and [toLowerCase] are arguments. *)

From Stdlib Require Import Ascii String.
From stdpp Require Import prelude list.
From Stdlib Require Import ZArith Lia Floats.SpecFloat.
From S2P Require Import Prelude.
From S2P Require Import JsNum.
From S2P Require Import JsString.
From S2P Require Import IngestSha256.
From S2P Require Import IngestRegex.
From S2P Require Import JsUnits.

Open Scope Z_scope.
Local Open Scope maple_scope.

(** ** Data *)

Inductive PromMetricType := counter | gauge | histogram | summary | untyped.

Record PromSample := {
  s_name : text;
  s_labels : jsmap text text;
  s_value : num;
  s_timestampMs : option num;
}.

Record PromMetricFamily := {
  f_name : text;
  f_type : PromMetricType;
  f_help : option text;
  f_unit : option text;
  f_samples : list PromSample;
}.

Record PromParseResult := { families : list PromMetricFamily; skippedLineCount : Z }.

(** ** Characters and names *)

Definition is_alpha (c : Z) : bool := ((97 <=? c) && (c <=? 122)) || ((65 <=? c) && (c <=? 90)).
Definition label_start (c : Z) : bool := is_alpha c || (c =? 95).
Definition label_part (c : Z) : bool := label_start c || is_decimal c.
Definition metric_start (c : Z) : bool := label_start c || (c =? 58).
Definition metric_part (c : Z) : bool := metric_start c || is_decimal c.

Fixpoint span (p : Z -> bool) (a : text) : text * text :=
  match a with
  | c :: a' => if p c then let '(x, r) := span p a' in (c :: x, r) else ([], a)
  | [] => ([], [])
  end.

(** [RE.exec(a)] of an anchored name pattern: the name and the rest. *)
Definition exec_name (start part : Z -> bool) (a : text) : option (text * text) :=
  match a with
  | c :: a' => if start c then let '(x, r) := span part a' in Some (c :: x, r) else None
  | [] => None
  end.

Definition METRIC_NAME_RE : text -> option (text * text) := exec_name metric_start metric_part.
Definition LABEL_NAME_RE : text -> option (text * text) := exec_name label_start label_part.

Fixpoint unescapeValue (raw : text) : text :=
  match raw with
  | [] => []
  | ch :: raw' =>
      if ch =? 92 then
        match raw' with
        | next :: raw'' =>
            if next =? 92 then 92 :: unescapeValue raw''
            else if next =? 110 then 10 :: unescapeValue raw''
            else if next =? 34 then 34 :: unescapeValue raw''
            else ch :: unescapeValue raw'
        | [] => [ch]
        end
      else ch :: unescapeValue raw'
  end.

(** ** Samples *)

(** [labels[name] = value] on an object literal: assigning a string to
    [__proto__] changes nothing. *)
Definition set_label (name value : text) (labels : jsmap text text) : jsmap text text :=
  if bool_decide (name = lit "__proto__") then labels else map_set name value labels.

Definition is_blank (c : Z) : bool := (c =? 32) || (c =? 9).

(** [while (line[i] === " " || ...) i++] *)
Definition skip_blanks (a : text) : text := (span is_blank a).2.
Definition skip_separators (a : text) : text := (span (fun c => is_blank c || (c =? 44)) a).2.

(** The raw label value up to its closing quote, and what follows. *)
Fixpoint read_label_value (a : text) : option (text * text) :=
  match a with
  | [] => None
  | ch :: a' =>
      if ch =? 92 then
        match a' with
        | [] => None
        | next :: a'' =>
            match read_label_value a'' with Some (raw, rest) => Some (ch :: next :: raw, rest) | None => None end
        end
      else if ch =? 34 then Some ([], a')
      else match read_label_value a' with Some (raw, rest) => Some (ch :: raw, rest) | None => None end
  end.

(** One [name="value"] of a label block, and what follows. *)
Definition read_label (a : text) : option (text * text * text) :=
  match LABEL_NAME_RE a with
  | None => None
  | Some (name, r) =>
      match skip_blanks r with
      | 61 :: r1 =>
          match skip_blanks r1 with
          | 34 :: r2 =>
              match read_label_value r2 with
              | Some (raw, rest) => Some (name, unescapeValue raw, rest)
              | None => None
              end
          | _ => None
          end
      | _ => None
      end
  end.

(** The label block after its opening brace: the labels and the text after the
    closing brace. *)
Fixpoint parseLabels (fuel : nat) (a : text) (labels : jsmap text text) : option (jsmap text text * text) :=
  match fuel with
  | O => None
  | S fuel' =>
      match skip_separators a with
      | [] => None
      | 125 :: rest => Some (labels, rest)
      | a' =>
          match read_label a' with
          | Some (name, value, rest) => parseLabels fuel' rest (set_label name value labels)
          | None => None
          end
      end
  end.

(** [rest.split(/[ \t]+/)] *)
Fixpoint split_blanks (piece : text) (gap : bool) (a : text) : list text :=
  match a with
  | [] => [piece]
  | c :: a' =>
      if is_blank c then
        if gap then split_blanks piece true a' else piece :: split_blanks [] true a'
      else split_blanks (piece ++ [c]) false a'
  end.

Definition num_abs (x : num) : num := SFabs x.

Definition normalizeTimestamp (raw : num) : num :=
  if num_ltb (num_abs raw) (num_of_Z 100000000000) then num_round (num_mul raw (num_of_Z 1000)) else num_round raw.

(** The text before the first [#], trimmed; the text itself without one. *)
Definition without_exemplar (rest : text) : text :=
  let '(front, back) := span (fun c => negb (c =? 35)) rest in
  match back with [] => rest | _ => trim_text front end.

Section Parser.
Context (Number : text -> num) (toLowerCase : text -> text).

Definition parseSampleValue (token : text) : option num :=
  if bool_decide (token ∈ [lit "+Inf"; lit "Inf"]) then Some (S754_infinity false)
  else if bool_decide (token = lit "-Inf") then Some (S754_infinity true)
  else if bool_decide (token ∈ [lit "NaN"; lit "Nan"; lit "nan"]) then Some S754_nan
  else
    match token with
    | [] => None
    | _ => let value := Number token in if num_is_nan value then None else Some value
    end.

(** The value and the timestamp after the labels. *)
Definition parse_tokens (rest : text) : option (num * option num) :=
  match trim_text rest with
  | [] => None
  | trimmed =>
      match split_blanks [] false (without_exemplar trimmed) with
      | [valueToken] =>
          match parseSampleValue valueToken with Some value => Some (value, None) | None => None end
      | [valueToken; timestampToken] =>
          match parseSampleValue valueToken with
          | None => None
          | Some value =>
              let rawTs := Number timestampToken in
              if num_is_nan rawTs then None else Some (value, Some (normalizeTimestamp rawTs))
          end
      | _ => None
      end
  end.

Definition parseSampleLine (line : text) : option PromSample :=
  match METRIC_NAME_RE line with
  | None => None
  | Some (name, after) =>
      let labelled := match after with
                      | 123 :: block => parseLabels (S (length block)) block []
                      | _ => Some ([], after)
                      end in
      match labelled with
      | None => None
      | Some (labels, rest) =>
          match parse_tokens rest with
          | None => None
          | Some (value, timestampMs) =>
              Some {| s_name := name; s_labels := labels; s_value := value; s_timestampMs := timestampMs |}
          end
      end
  end.

(** ** Families *)

Definition COMPONENT_SUFFIXES : list text := List.map lit ["_bucket"; "_count"; "_sum"; "_total"]%string.

Definition Families : Type := jsmap text PromMetricFamily.

Definition strip (n : nat) (a : text) : text := take (length a - n) a.

(** The name of the family a sample belongs to. *)
Definition familyForSample (fs : Families) (sampleName : text) : option text :=
  if map_has sampleName fs then Some sampleName
  else
    let base suffix := strip (length suffix) sampleName in
    match List.find (fun suffix => ends_with sampleName suffix && map_has (base suffix) fs) COMPONENT_SUFFIXES with
    | Some suffix => Some (base suffix)
    | None => None
    end.

Definition parseType (raw : text) : PromMetricType :=
  if bool_decide (raw = lit "counter") then counter
  else if bool_decide (raw = lit "gauge") then gauge
  else if bool_decide (raw = lit "histogram") then histogram
  else if bool_decide (raw = lit "summary") then summary
  else untyped.

Definition new_family (name : text) : PromMetricFamily :=
  {| f_name := name; f_type := untyped; f_help := None; f_unit := None; f_samples := [] |}.

(** [ensureFamily(name)] and an assignment to the family it returns. *)
Definition change_family (name : text) (f : PromMetricFamily -> PromMetricFamily) (fs : Families) : Families :=
  map_set name (f (default (new_family name) (map_get name fs))) fs.

Definition with_type (ty : PromMetricType) (f : PromMetricFamily) : PromMetricFamily :=
  {| f_name := f_name f; f_type := ty; f_help := f_help f; f_unit := f_unit f; f_samples := f_samples f |}.
Definition with_help (h : text) (f : PromMetricFamily) : PromMetricFamily :=
  {| f_name := f_name f; f_type := f_type f; f_help := Some h; f_unit := f_unit f; f_samples := f_samples f |}.
Definition with_unit (u : option text) (f : PromMetricFamily) : PromMetricFamily :=
  {| f_name := f_name f; f_type := f_type f; f_help := f_help f; f_unit := u; f_samples := f_samples f |}.
Definition with_sample (s : PromSample) (f : PromMetricFamily) : PromMetricFamily :=
  {| f_name := f_name f; f_type := f_type f; f_help := f_help f; f_unit := f_unit f; f_samples := f_samples f ++ [s] |}.

Record Parse := { p_families : Families; p_skipped : Z }.

Definition skip_line (p : Parse) : Parse := {| p_families := p_families p; p_skipped := p_skipped p + 1 |}.
Definition on_families (f : Families -> Families) (p : Parse) : Parse :=
  {| p_families := f (p_families p); p_skipped := p_skipped p |}.

(** A line that starts with [#], without it and trimmed. *)
Definition parse_comment (comment : text) (p : Parse) : Parse :=
  if starts_with comment (lit "TYPE ") then
    match METRIC_NAME_RE (trim_text (drop 5 comment)) with
    | None => skip_line p
    | Some (name, rest) => on_families (change_family name (with_type (parseType (toLowerCase (trim_text rest))))) p
    end
  else if starts_with comment (lit "HELP ") then
    match METRIC_NAME_RE (skip_space (drop 5 comment)) with
    | None => skip_line p
    | Some (name, rest) => on_families (change_family name (with_help (unescapeValue (skip_space rest)))) p
    end
  else if starts_with comment (lit "UNIT ") then
    match METRIC_NAME_RE (trim_text (drop 5 comment)) with
    | None => p
    | Some (name, rest) =>
        on_families (change_family name (with_unit (match trim_text rest with [] => None | u => Some u end))) p
    end
  else p.

Definition parse_sample (line : text) (p : Parse) : Parse :=
  match parseSampleLine line with
  | None => skip_line p
  | Some sample =>
      if ends_with (s_name sample) (lit "_created") &&
         match familyForSample (p_families p) (strip 8 (s_name sample)) with Some _ => true | None => false end
      then p
      else
        let name := default (s_name sample) (familyForSample (p_families p) (s_name sample)) in
        on_families (change_family name (with_sample sample)) p
  end.

Definition clean_line (rawLine : text) : text :=
  trim_text (if ends_with rawLine [13] then take (length rawLine - 1) rawLine else rawLine).

Definition parse_line (rawLine : text) (p : Parse) : Parse :=
  match clean_line rawLine with
  | [] => p
  | 35 :: comment => parse_comment (trim_text comment) p
  | line => parse_sample line p
  end.

Definition parse_lines (lines : list text) (p : Parse) : Parse := fold_left (fun p l => parse_line l p) lines p.

Definition parsePrometheusText (body : text) : PromParseResult :=
  let p := parse_lines (split_text [10] body) {| p_families := []; p_skipped := 0 |} in
  {| families := List.filter (fun f => match f_samples f with [] => false | _ => true end) (List.map snd (p_families p));
     skippedLineCount := p_skipped p |}.

End Parser.

Definition countSamples (fs : list PromMetricFamily) : Z :=
  fold_left (fun total f => total + Z.of_nat (length (f_samples f))) fs 0.

(** ** On a concrete body *)

(** A number parser good enough for examples: decimal digits. *)
Definition small_number (a : text) : num :=
  if negb (bool_decide (a = [])) && forallb is_decimal a then num_of_Z (foldl (fun v c => 10 * v + (c - 48)) 0 a) else S754_nan.

Definition newline : string := String (ascii_of_nat 10) EmptyString.

Example scrape_ex :
  let r := parsePrometheusText small_number id (lit (String.concat newline
             ["# HELP http_requests Total\nrequests"; "# TYPE http_requests counter"; "http_requests_total{code='200'} 7";
              "junk line here too"; "up 1 # exemplar"; "# free comment"]%string)) in
  skippedLineCount r = 2 /\ List.map f_name (families r) = [lit "up"].
Proof. by vm_compute. Qed.
