(* ===== verification/PromLines.v ===== *)
(** * Lines of the Prometheus text format

    The parser of lib/prometheus-otlp against the format: a written sample line
    reads as its sample, with any label values, blanks, timestamp and exemplar,
    and a body loses no sample. *)

From Stdlib Require Import Ascii String.
From stdpp Require Import prelude list.
From Stdlib Require Import ZArith Lia ZifyBool Sorting.Permutation Floats.SpecFloat.
From S2P Require Import Prelude.
From S2P Require Import JsNum.
From S2P Require Import JsRatio.
From S2P Require Import JsString.
From S2P Require Import IngestSha256.
From S2P Require Import IngestRegex.
From S2P Require Import JsUnits.
From S2P Require Import PromText.

Open Scope Z_scope.
Local Open Scope maple_scope.

(** ** The format *)

(** A label value between its quotes: the three escapes, any other escape kept as
    it is, and plain units. *)
Inductive value_written : text -> text -> Prop :=
  | value_nil : value_written [] []
  | value_plain c raw v : c <> 92 -> c <> 34 -> value_written raw v -> value_written (c :: raw) (c :: v)
  | value_backslash raw v : value_written raw v -> value_written (92 :: 92 :: raw) (92 :: v)
  | value_newline raw v : value_written raw v -> value_written (92 :: 110 :: raw) (10 :: v)
  | value_quote raw v : value_written raw v -> value_written (92 :: 34 :: raw) (34 :: v)
  | value_other c raw v : c <> 92 -> c <> 110 -> c <> 34 ->
      value_written raw v -> value_written (92 :: c :: raw) (92 :: c :: v).

Definition blanks (s : text) : Prop := Forall (fun c => is_blank c = true) s.
Definition separators (s : text) : Prop := Forall (fun c => is_blank c || (c =? 44) = true) s.

Definition label_name (n : text) : Prop :=
  match n with c :: n' => label_start c = true /\ Forall (fun c => label_part c = true) n' | [] => False end.

Definition metric_name (n : text) : Prop :=
  match n with c :: n' => metric_start c = true /\ Forall (fun c => metric_part c = true) n' | [] => False end.

(** A label block after its opening brace, closing brace included. *)
Inductive block_written : text -> list (text * text) -> Prop :=
  | block_end sep : separators sep -> block_written (sep ++ [125]) []
  | block_label sep name b1 b2 raw v rest ls :
      separators sep -> label_name name -> blanks b1 -> blanks b2 -> value_written raw v -> block_written rest ls ->
      block_written (sep ++ name ++ b1 ++ 61 :: b2 ++ 34 :: raw ++ 34 :: rest) ((name, v) :: ls).

Definition labels_of (ls : list (text * text)) : jsmap text text :=
  fold_left (fun m l => set_label l.1 l.2 m) ls [].

(** A value or timestamp token. *)
Definition token_text (t : text) : Prop := t <> [] /\ Forall (fun c => is_space c = false /\ c <> 35) t.

(** The rest of a line after its value and timestamp: nothing, or an exemplar. *)
Inductive tail_written : text -> Prop :=
  | tail_none s : spaces s -> tail_written s
  | tail_exemplar b e : blanks b -> tail_written (b ++ 35 :: e).

(** ** Readers *)

Lemma span_all p x r : Forall (fun c => p c = true) x -> match r with c :: _ => p c = false | [] => True end ->
  span p (x ++ r) = (x, r).
Proof.
  induction 1 as [|c x Hc Hx IH]; intros Hr; cbn; [|by rewrite Hc, IH].
  destruct r as [|c r]; [done|]. cbn. by rewrite Hr.
Qed.

Lemma exec_name_spec start part n r :
  match n with c :: n' => start c = true /\ Forall (fun c => part c = true) n' | [] => False end ->
  match r with c :: _ => part c = false | [] => True end -> exec_name start part (n ++ r) = Some (n, r).
Proof. destruct n as [|c n]; [done|]. intros [Hc Hn] Hr. cbn. by rewrite Hc, span_all. Qed.

Lemma unescape_written raw v : value_written raw v -> unescapeValue raw = v.
Proof.
  induction 1 as [|c raw v H1 H2 Hw IH|raw v Hw IH|raw v Hw IH|raw v Hw IH|c raw v H1 H2 H3 Hw IH]; cbn [unescapeValue];
    rewrite ?IH; try done.
  - by replace (c =? 92) with false by lia.
  - change (92 =? 92) with true. cbn iota. replace (c =? 92) with false by lia. replace (c =? 110) with false by lia.
    by replace (c =? 34) with false by lia.
Qed.

Lemma read_value_written raw v rest : value_written raw v -> read_label_value (raw ++ 34 :: rest) = Some (raw, rest).
Proof.
  induction 1 as [|c raw v H1 H2 Hw IH|raw v Hw IH|raw v Hw IH|raw v Hw IH|c raw v H1 H2 H3 Hw IH]; cbn [app read_label_value];
    rewrite ?IH; try done.
  by replace (c =? 92) with false by lia; replace (c =? 34) with false by lia.
Qed.

Lemma label_part_plain c : label_part c = true -> is_blank c = false /\ c <> 44 /\ c <> 125 /\ c <> 61 /\ c <> 34.
Proof. unfold label_part, label_start, is_alpha, is_decimal, is_blank. lia. Qed.

Lemma label_start_part c : label_start c = true -> label_part c = true.
Proof. unfold label_part. by intros ->. Qed.

Lemma skip_separators_app sep r : separators sep ->
  match r with c :: _ => is_blank c || (c =? 44) = false | [] => True end -> skip_separators (sep ++ r) = r.
Proof. intros Hs Hr. unfold skip_separators. by rewrite span_all. Qed.

Lemma skip_blanks_app b r : blanks b -> match r with c :: _ => is_blank c = false | [] => True end -> skip_blanks (b ++ r) = r.
Proof. intros Hb Hr. unfold skip_blanks. by rewrite span_all. Qed.

Lemma read_label_written name b1 b2 raw v rest :
  label_name name -> blanks b1 -> blanks b2 -> value_written raw v ->
  read_label (name ++ b1 ++ 61 :: b2 ++ 34 :: raw ++ 34 :: rest) = Some (name, v, rest).
Proof.
  intros Hn H1 H2 Hv. unfold read_label, LABEL_NAME_RE.
  rewrite exec_name_spec; [|done|].
  - rewrite skip_blanks_app by done. cbn iota. rewrite skip_blanks_app by done. cbn iota.
    by rewrite (read_value_written _ v), (unescape_written _ v).
  - destruct H1 as [|c b1 Hc H1]; cbn; [done|]. destruct (label_part c) eqn:Hp; [|done].
    apply label_part_plain in Hp. destruct Hp. congruence.
Qed.

Lemma parseLabels_step fuel a labels c r : skip_separators a = c :: r -> c <> 125 ->
  parseLabels (S fuel) a labels =
    match read_label (c :: r) with
    | Some (name, value, rest) => parseLabels fuel rest (set_label name value labels)
    | None => None
    end.
Proof. intros Ha Hc. cbn [parseLabels]. rewrite Ha. destruct c as [|p|p]; try done. repeat (destruct p as [p|p|]; try done). Qed.

Lemma parseLabels_close fuel a labels r : skip_separators a = 125 :: r -> parseLabels (S fuel) a labels = Some (labels, r).
Proof. intros Ha. cbn [parseLabels]. by rewrite Ha. Qed.

Lemma parseLabels_label fuel labels sep name b1 b2 raw v rest :
  separators sep -> label_name name -> blanks b1 -> blanks b2 -> value_written raw v ->
  parseLabels (S fuel) (sep ++ name ++ b1 ++ 61 :: b2 ++ 34 :: raw ++ 34 :: rest) labels =
    parseLabels fuel rest (set_label name v labels).
Proof.
  intros Hs Hn H1 H2 Hv. pose proof (read_label_written name b1 b2 raw v rest Hn H1 H2 Hv) as Hread.
  destruct name as [|c name]; [done|]. destruct Hn as [Hc Hn].
  destruct (label_part_plain c (label_start_part c Hc)) as (Hb & H44 & H125 & _).
  rewrite (parseLabels_step fuel _ labels c (name ++ b1 ++ 61 :: b2 ++ 34 :: raw ++ 34 :: rest)); [|idtac|exact H125].
  - change (c :: name ++ ?r) with ((c :: name) ++ r). by rewrite Hread.
  - apply (skip_separators_app sep (c :: name ++ _)); [exact Hs|]. rewrite Hb. by apply Z.eqb_neq.
Qed.

Lemma parseLabels_written block ls tail : block_written block ls -> forall fuel labels,
  (length (block ++ tail) < fuel)%nat ->
  parseLabels fuel (block ++ tail) labels = Some (fold_left (fun m l => set_label l.1 l.2 m) ls labels, tail).
Proof.
  induction 1 as [sep Hs|sep name b1 b2 raw v rest ls Hs Hn H1 H2 Hv Hw IH]; intros fuel labels Hf;
    (destruct fuel as [|fuel]; [lia|]).
  - apply parseLabels_close. rewrite <- app_assoc. by apply skip_separators_app.
  - repeat (rewrite <- ?app_assoc; cbn [app]). rewrite parseLabels_label with (v := v) by done. apply IH.
    rewrite !length_app, !length_cons, !length_app, !length_cons, !length_app, !length_cons in Hf. rewrite length_app. lia.
Qed.

(** ** The value and the timestamp *)

Lemma blank_space c : is_blank c = true -> is_space c = true.
Proof. unfold is_blank, is_space. lia. Qed.

Lemma blanks_spaces b : blanks b -> spaces b.
Proof. intros Hb. eapply Forall_impl; [exact Hb|apply blank_space]. Qed.

Lemma token_solid t : token_text t -> solid t /\ solid (rev t).
Proof.
  intros [Hne Ht]. split.
  - destruct Ht as [|c t [Hc _] _]; done.
  - destruct (rev t) as [|c r] eqn:E; [by apply (f_equal (@rev Z)) in E; rewrite rev_involutive in E|].
    assert (c ∈ t) as Hc by (apply list_elem_of_In, in_rev; rewrite E; by left).
    by apply (proj1 (Forall_forall _ _) Ht) in Hc as [Hc _].
Qed.

Lemma split_token t p r : Forall (fun c => is_space c = false /\ c <> 35) t ->
  split_blanks p false (t ++ r) = split_blanks (p ++ t) false r.
Proof.
  intros Ht. revert p. induction Ht as [|c t [Hc _] Ht IH]; intros p; [by rewrite app_nil_r|]. cbn [app split_blanks].
  destruct (is_blank c) eqn:Hb; [apply blank_space in Hb; congruence|]. by rewrite IH, <- app_assoc.
Qed.

Lemma split_gap b r p : blanks b -> split_blanks p true (b ++ r) = split_blanks p true r.
Proof. induction 1 as [|c b Hc Hb IH]; [done|]. cbn [app split_blanks]. by rewrite Hc. Qed.

Lemma split_one t : token_text t -> split_blanks [] false t = [t].
Proof. intros [_ Ht]. rewrite <- (app_nil_r t), split_token by done. by rewrite app_nil_r. Qed.

Lemma split_two t b u : token_text t -> token_text u -> blanks b -> b <> [] -> split_blanks [] false (t ++ b ++ u) = [t; u].
Proof.
  intros [_ Ht] Hu Hb Hne. rewrite split_token by done. destruct Hb as [|c b Hc Hb]; [done|]. cbn [app split_blanks]. rewrite Hc.
  f_equal. rewrite split_gap by done. destruct Hu as [Hue Hu]. destruct Hu as [|d u [Hd1 Hd2] Hu]; [done|].
  cbn [split_blanks]. destruct (is_blank d) eqn:Hb'; [apply blank_space in Hb'; congruence|].
  rewrite <- (app_nil_r u), split_token by done. by rewrite app_nil_r.
Qed.

(** The tokens of a line: a value, and a timestamp after blanks. *)
Definition tokens_text (value : text) (ts : option (text * text)) : text :=
  match ts with None => value | Some (b, t) => value ++ b ++ t end.

Definition tokens_written (value : text) (ts : option (text * text)) : Prop :=
  token_text value /\ match ts with None => True | Some (b, t) => blanks b /\ b <> [] /\ token_text t end.

Lemma tokens_solid value ts : tokens_written value ts -> solid (tokens_text value ts) /\ solid (rev (tokens_text value ts)).
Proof.
  intros [Hv Ht]. destruct (token_solid _ Hv) as [H1 H2]. destruct ts as [[b t]|]; [|done]. destruct Ht as (_ & _ & Ht).
  destruct (token_solid _ Ht) as [H3 H4]. cbn [tokens_text]. split; [by destruct value|].
  rewrite !rev_app_distr. by destruct (rev t).
Qed.

Lemma tokens_no_hash value ts : tokens_written value ts ->
  Forall (fun c => negb (c =? 35) = true) (tokens_text value ts).
Proof.
  assert (forall t, token_text t -> Forall (fun c => negb (c =? 35) = true) t) as Ht.
  { intros t [_ Ht]. eapply Forall_impl; [exact Ht|]. intros c [_ Hc]. lia. }
  intros [Hv Hts]. destruct ts as [[b t]|]; cbn [tokens_text]; [|auto]. destruct Hts as (Hb & _ & Hts).
  rewrite !Forall_app. split_and!; auto. eapply Forall_impl; [exact Hb|]. unfold is_blank. intros; lia.
Qed.

Lemma split_tokens value ts : tokens_written value ts ->
  split_blanks [] false (tokens_text value ts) = value :: match ts with None => [] | Some (_, t) => [t] end.
Proof. intros [Hv Hts]. destruct ts as [[b t]|]; [|by apply split_one]. destruct Hts as (Hb & Hne & Hts). by apply split_two. Qed.

(** The line after its labels, cut to the tokens. *)
Lemma tokens_cut gap value ts tail : spaces gap -> tokens_written value ts -> tail_written tail ->
  trim_text (gap ++ tokens_text value ts ++ tail) <> [] /\
  without_exemplar (trim_text (gap ++ tokens_text value ts ++ tail)) = tokens_text value ts.
Proof.
  intros Hg Hw Ht. destruct (tokens_solid _ _ Hw) as [Hs Hr]. pose proof (tokens_no_hash _ _ Hw) as Hh. destruct Ht as [s Hsp|b e Hb].
  - rewrite trim_core by done. split; [by destruct (tokens_text value ts)|].
    unfold without_exemplar. rewrite <- (app_nil_r (tokens_text value ts)) at 1. by rewrite span_all.
  - destruct (trim_keep gap (tokens_text value ts ++ b) 35 e) as [e' He]; [done|by destruct (tokens_text value ts)|done|].
    rewrite <- app_assoc in He. rewrite He. split; [by destruct (tokens_text value ts)|].
    unfold without_exemplar. rewrite span_all; [| |done].
    + apply (trim_core [] _ b); [constructor|done|done|by apply blanks_spaces].
    + apply Forall_app. split; [done|]. eapply Forall_impl; [exact Hb|]. unfold is_blank. intros; lia.
Qed.

Section Reading.
Context (Number : text -> num).

(** What the tokens denote. *)
Definition tokens_value (value : text) (ts : option (text * text)) : option (num * option num) :=
  match parseSampleValue Number value with
  | None => None
  | Some x =>
      match ts with
      | None => Some (x, None)
      | Some (_, t) => if num_is_nan (Number t) then None else Some (x, Some (normalizeTimestamp (Number t)))
      end
  end.

Lemma parse_tokens_written gap value ts tail : spaces gap -> tokens_written value ts -> tail_written tail ->
  parse_tokens Number (gap ++ tokens_text value ts ++ tail) = tokens_value value ts.
Proof.
  intros Hg Hw Ht. destruct (tokens_cut gap value ts tail Hg Hw Ht) as [Hne Hc]. unfold parse_tokens.
  destruct (trim_text _) as [|c a]; [done|]. rewrite Hc, split_tokens by done. unfold tokens_value.
  by destruct ts as [[b t]|].
Qed.

(** A written line is read as its parts. *)
Lemma written_line name block gap value ts tail :
  metric_name name -> tokens_written value ts -> tail_written tail -> spaces gap ->
  match block with
  | Some (b, ls) => block_written b ls
  | None => gap <> []
  end ->
  parseSampleLine Number (name ++ match block with Some (b, _) => 123 :: b | None => [] end ++ gap ++ tokens_text value ts ++ tail) =
    match tokens_value value ts with
    | None => None
    | Some (x, t) =>
        Some {| s_name := name; s_labels := match block with Some (_, ls) => labels_of ls | None => [] end;
                s_value := x; s_timestampMs := t |}
    end.
Proof.
  intros Hn Hw Ht Hg Hb. unfold parseSampleLine, METRIC_NAME_RE. destruct block as [[b ls]|].
  - rewrite exec_name_spec by done. cbn [app].
    rewrite (parseLabels_written b ls (gap ++ tokens_text value ts ++ tail) Hb) by lia.
    rewrite parse_tokens_written by done. by destruct (tokens_value value ts) as [[x t]|].
  - cbn [app]. destruct Hg as [|c gap Hc Hg]; [done|]. rewrite exec_name_spec; [|done|].
    + cbn [app]. assert (c <> 123) as H123 by (intros ->; done).
      replace (match c :: gap ++ tokens_text value ts ++ tail with
        | 123 :: block => parseLabels (S (length block)) block []
        | _ => Some ([], c :: gap ++ tokens_text value ts ++ tail) end)
        with (Some (@nil (text * text), c :: gap ++ tokens_text value ts ++ tail)).
      * change (c :: gap ++ ?r) with ((c :: gap) ++ r). rewrite parse_tokens_written; [|by constructor|done..].
        by destruct (tokens_value value ts) as [[x t]|].
      * destruct c as [|p|p]; try done. repeat (destruct p as [p|p|]; try done).
    + cbn. unfold is_space in Hc. unfold metric_part, metric_start, label_start, is_alpha, is_decimal. lia.
Qed.

(** The number a value token is. *)
Inductive value_reads (token : text) : num -> Prop :=
  | reads_infinity : token = lit "+Inf" \/ token = lit "Inf" -> value_reads token (S754_infinity false)
  | reads_minus_infinity : token = lit "-Inf" -> value_reads token (S754_infinity true)
  | reads_nan : token = lit "NaN" \/ token = lit "Nan" \/ token = lit "nan" -> value_reads token S754_nan
  | reads_number x : token ∉ List.map lit ["+Inf"; "Inf"; "-Inf"; "NaN"; "Nan"; "nan"]%string -> token <> [] ->
      Number token = x -> num_is_nan x = false -> value_reads token x.

(** The milliseconds of a timestamp: below 1e11 it counts seconds. *)
Inductive stamp_reads (raw : num) : num -> Prop :=
  | reads_seconds : num_ltb (num_abs raw) (num_of_Z 100000000000) = true ->
      stamp_reads raw (num_round (num_mul raw (num_of_Z 1000)))
  | reads_milliseconds : num_ltb (num_abs raw) (num_of_Z 100000000000) = false -> stamp_reads raw (num_round raw).

Lemma value_reads_iff token x : parseSampleValue Number token = Some x <-> value_reads token x.
Proof.
  unfold parseSampleValue. split.
  - case_bool_decide as H1.
    { intros [= <-]. apply reads_infinity. set_solver. }
    case_bool_decide as H2; [intros [= <-]; by apply reads_minus_infinity|].
    case_bool_decide as H3.
    { intros [= <-]. apply reads_nan. set_solver. }
    destruct token as [|c l] eqn:E; [done|]. rewrite <- E in *. destruct (num_is_nan (Number token)) eqn:En; [done|].
    intros [= <-]. apply reads_number; [|by rewrite E|done|done]. cbn [List.map]. set_solver.
  - intros [H|H|H|y Hy Hne <- Hn].
    + by destruct H as [-> | ->].
    + by rewrite H.
    + by destruct H as [-> | [-> | ->]].
    + cbn [List.map] in Hy. rewrite !bool_decide_false by set_solver. destruct token as [|c l]; [done|]. by rewrite Hn.
Qed.

Lemma stamp_reads_iff raw ms : normalizeTimestamp raw = ms <-> stamp_reads raw ms.
Proof.
  unfold normalizeTimestamp. destruct (num_ltb _ _) eqn:E.
  - split; [intros <-; by apply reads_seconds|]. intros [_|H]; [done|congruence].
  - split; [intros <-; by apply reads_milliseconds|]. intros [H|_]; [congruence|done].
Qed.

(** On whole numbers: seconds are multiplied by a thousand, milliseconds stay. *)
Lemma stamp_of_whole z ms : 1 <= z < 2 ^ 53 -> stamp_reads (num_of_Z z) ms ->
  ms = num_of_Z (if z <? 100000000000 then z * 1000 else z).
Proof.
  intros Hz H. assert (num_abs (num_of_Z z) = num_of_Z z) as Ha by (destruct (num_of_Z_pos z Hz) as (m & e & -> & _); done).
  destruct H as [H|H]; rewrite Ha, num_ltb_Z in H by lia; rewrite H.
  - apply Z.ltb_lt in H. rewrite num_mul_Z by lia. by rewrite num_round_Z by lia.
  - by rewrite num_round_Z.
Qed.

(** C24: a sample line reads as its sample. Whatever white space and commas
    separate its parts, whatever the label values hold (escaped backslashes,
    quotes and newlines, braces, hash signs), with or without a timestamp and an
    exemplar, the line reads as a sample exactly when its value is a number, an
    infinity or one of the spellings of NaN, and its timestamp, when it has one,
    a number; the sample then has the line's name, the labels in order with their
    unescaped values, that value, and the timestamp in milliseconds: below 1e11
    it counts seconds and is multiplied by 1000, and it is rounded. For a whole
    number of seconds or milliseconds the result is exact. *)
Theorem sample_line_reads name block gap value ts tail :
  metric_name name -> tokens_written value ts -> tail_written tail -> spaces gap ->
  match block with
  | Some (b, ls) => block_written b ls
  | None => gap <> []
  end ->
  let line := name ++ match block with Some (b, _) => 123 :: b | None => [] end ++ gap ++ tokens_text value ts ++ tail in
  (forall s, parseSampleLine Number line = Some s <->
     s_name s = name /\ s_labels s = match block with Some (_, ls) => labels_of ls | None => [] end /\
     value_reads value (s_value s) /\
     match ts with
     | None => s_timestampMs s = None
     | Some (_, t) => num_is_nan (Number t) = false /\ exists ms, stamp_reads (Number t) ms /\ s_timestampMs s = Some ms
     end) /\
  (forall s b t z, parseSampleLine Number line = Some s -> ts = Some (b, t) -> Number t = num_of_Z z -> 1 <= z < 2 ^ 53 ->
     s_timestampMs s = Some (num_of_Z (if z <? 100000000000 then z * 1000 else z))).
Proof.
  intros Hn Hw Ht Hg Hb line.
  assert (forall s, parseSampleLine Number line = Some s <->
     s_name s = name /\ s_labels s = match block with Some (_, ls) => labels_of ls | None => [] end /\
     value_reads value (s_value s) /\
     match ts with
     | None => s_timestampMs s = None
     | Some (_, t) => num_is_nan (Number t) = false /\ exists ms, stamp_reads (Number t) ms /\ s_timestampMs s = Some ms
     end) as Hall.
  { intros [sn sl sv st]. cbn [s_name s_labels s_value s_timestampMs]. subst line. rewrite written_line by done.
    rewrite <- value_reads_iff. unfold tokens_value. destruct (parseSampleValue Number value) as [x|];
      [|split; [done|by intros (_ & _ & ? & _)]]. destruct ts as [[b t]|].
    - destruct (num_is_nan (Number t)); [split; [done|by intros (_ & _ & _ & ? & _)]|]. split.
      + intros [= <- <- <- <-]. split_and!; try done. eexists. split; [by apply stamp_reads_iff|done].
      + intros (-> & -> & [= ->] & _ & ms & <-%stamp_reads_iff & ->). done.
    - split; [by intros [= <- <- <- <-]|by intros (-> & -> & [= ->] & ->)]. }
  split; [exact Hall|]. intros s b t z Hs -> Hz Hr. apply Hall in Hs as (_ & _ & _ & _ & ms & Hms & ->).
  rewrite Hz in Hms. by rewrite (stamp_of_whole z ms Hr Hms).
Qed.
End Reading.

(** ** Families *)

(** The sample belongs to the family: it has its name, or its name and a suffix. *)
Definition member (family : text) (s : PromSample) : Prop :=
  s_name s = family \/ exists suffix, suffix ∈ COMPONENT_SUFFIXES /\ s_name s = family ++ suffix.

Definition samples_of (fs : list PromMetricFamily) : list PromSample := concat (List.map f_samples fs).

Definition family_ok (f : PromMetricFamily) : Prop := Forall (member (f_name f)) (f_samples f).

Definition families_ok (fs : Families) : Prop :=
  NoDup (map_keys fs) /\ List.map f_name (List.map snd fs) = map_keys fs /\ Forall family_ok (List.map snd fs).

Section Change.
Context (k : text) (g : PromMetricFamily -> PromMetricFamily) (l : list PromSample).
Hypotheses (Hname : forall f, f_name (g f) = f_name f) (Hsamples : forall f, f_samples (g f) = f_samples f ++ l).

Lemma change_samples fs : Permutation (samples_of (List.map snd (change_family k g fs))) (samples_of (List.map snd fs) ++ l).
Proof.
  unfold change_family, samples_of. induction fs as [|[k' f] fs IH]; cbn [map_get map_set].
  - cbn. by rewrite Hsamples, app_nil_r.
  - destruct (decide (k = k')) as [->|Hne]; cbn [List.map snd concat].
    + cbn [default]. rewrite Hsamples, <- !app_assoc. apply Permutation_app_head, Permutation_app_comm.
    + rewrite <- app_assoc. by apply Permutation_app_head.
Qed.

Lemma change_ok fs : Forall (member k) l -> families_ok fs -> families_ok (change_family k g fs).
Proof.
  intros Hl (Hnd & Hn & Hf). unfold change_family. split; [by apply map_set_NoDup|].
  clear Hnd. unfold map_keys in *. induction fs as [|[k' f] fs IH]; cbn [map_get map_set].
  - cbn. rewrite Hname. split; [done|]. constructor; [|done]. unfold family_ok. by rewrite Hname, Hsamples.
  - cbn [List.map snd fst] in Hn, Hf. injection Hn as <- Hn. apply Forall_cons in Hf as [Hf Hfs].
    destruct (decide (k = f_name f)) as [->|Hne]; cbn [List.map snd fst].
    + cbn [default]. rewrite Hname, Hn. split; [done|]. constructor; [|done].
      unfold family_ok. rewrite Hname, Hsamples. by apply Forall_app.
    + destruct (IH Hn Hfs) as [IH1 IH2]. rewrite IH1. split; [done|]. by constructor.
Qed.
End Change.

Lemma strip_app a b : strip (length b) (a ++ b) = a.
Proof. unfold strip. rewrite length_app. replace (length a + length b - length b)%nat with (length a) by lia. apply take_app_length. Qed.

Lemma family_member fs s : member (default (s_name s) (familyForSample fs (s_name s))) s.
Proof.
  unfold familyForSample. destruct (map_has (s_name s) fs); [by left|]. destruct (List.find _ _) as [suffix|] eqn:Hf; [|by left].
  apply List.find_some in Hf as [Hin Hf]. apply andb_true_iff in Hf as [He _]. apply ends_with_spec in He as [x He].
  cbn [default]. right. exists suffix. split; [by apply list_elem_of_In|]. by rewrite He, strip_app.
Qed.

Section Bodies.
Context (Number : text -> num) (toLowerCase : text -> text).

(** A line that is neither blank nor a comment. *)
Definition is_sample_line (rawLine : text) : bool :=
  match clean_line rawLine with [] => false | c :: _ => negb (c =? 35) end.

(** A TYPE or HELP comment that names no metric. *)
Definition is_bad_comment (rawLine : text) : bool :=
  match clean_line rawLine with
  | 35 :: comment =>
      let comment := trim_text comment in
      let unnamed r := match METRIC_NAME_RE r with Some _ => false | None => true end in
      if starts_with comment (lit "TYPE ") then unnamed (trim_text (drop 5 comment))
      else starts_with comment (lit "HELP ") && unnamed (skip_space (drop 5 comment))
  | _ => false
  end.

Definition parsed_samples (lines : list text) : list PromSample :=
  omap (fun l => parseSampleLine Number (clean_line l)) (List.filter is_sample_line lines).

Definition count (p : text -> bool) (lines : list text) : Z := Z.of_nat (length (List.filter p lines)).

(** After the lines, nothing was lost. *)
Definition accounted (lines : list text) (p : Parse) : Prop :=
  families_ok (p_families p) /\
  p_skipped p = count is_sample_line lines - Z.of_nat (length (parsed_samples lines)) + count is_bad_comment lines /\
  exists dropped, Permutation (parsed_samples lines) (samples_of (List.map snd (p_families p)) ++ dropped) /\
    Forall (fun s => exists base, s_name s = base ++ lit "_created") dropped.

Lemma count_snoc q lines l : count q (lines ++ [l]) = count q lines + (if q l then 1 else 0).
Proof. unfold count. rewrite List.filter_app, length_app. cbn. destruct (q l); cbn; lia. Qed.

Lemma parsed_snoc lines l :
  parsed_samples (lines ++ [l]) = parsed_samples lines ++
    (if is_sample_line l then match parseSampleLine Number (clean_line l) with Some s => [s] | None => [] end else []).
Proof.
  unfold parsed_samples. rewrite List.filter_app, omap_app. f_equal. cbn. destruct (is_sample_line l); [|done]. cbn. by case_match.
Qed.

(** A line that adds no sample changes type, help or unit, or counts as skipped. *)
Lemma comment_accounted lines l comment p : accounted lines p -> clean_line l = 35 :: comment ->
  accounted (lines ++ [l]) (parse_comment toLowerCase (trim_text comment) p).
Proof.
  intros (Hok & Hsk & dropped & Hp & Hd) Hl. unfold accounted. rewrite parsed_snoc, !count_snoc.
  assert (is_sample_line l = false) as -> by (unfold is_sample_line; by rewrite Hl). rewrite app_nil_r, Z.add_0_r.
  assert (forall k g, (forall f, f_name (g f) = f_name f) -> (forall f, f_samples (g f) = f_samples f ++ []) ->
    families_ok (change_family k g (p_families p)) /\
    Permutation (parsed_samples lines) (samples_of (List.map snd (change_family k g (p_families p))) ++ dropped)) as Hg.
  { intros k g Hn Hs. split; [by apply change_ok with []|]. rewrite (change_samples k g [] Hs). by rewrite app_nil_r. }
  assert (is_bad_comment l =
    if starts_with (trim_text comment) (lit "TYPE ")
    then match exec_name metric_start metric_part (trim_text (drop 5 (trim_text comment))) with Some _ => false | None => true end
    else starts_with (trim_text comment) (lit "HELP ") &&
      match exec_name metric_start metric_part (skip_space (drop 5 (trim_text comment))) with Some _ => false | None => true end)
    as -> by (unfold is_bad_comment; by rewrite Hl).
  unfold parse_comment, METRIC_NAME_RE.
  destruct (starts_with (trim_text comment) (lit "TYPE ")); [|destruct (starts_with (trim_text comment) (lit "HELP "));
    [|destruct (starts_with (trim_text comment) (lit "UNIT "))]]; cbn [andb].
  - destruct (exec_name _ _ _) as [[n r]|]; cbn [on_families skip_line p_families p_skipped].
    + destruct (Hg n (with_type (parseType (toLowerCase (trim_text r))))) as [G1 G2]; [done|intros; by rewrite app_nil_r|].
      split_and!; [done|lia|]. by exists dropped.
    + split_and!; [done|lia|]. by exists dropped.
  - destruct (exec_name _ _ _) as [[n r]|]; cbn [on_families skip_line p_families p_skipped].
    + destruct (Hg n (with_help (unescapeValue (skip_space r)))) as [G1 G2]; [done|intros; by rewrite app_nil_r|].
      split_and!; [done|lia|]. by exists dropped.
    + split_and!; [done|lia|]. by exists dropped.
  - destruct (exec_name _ _ _) as [[n r]|]; cbn [on_families p_families p_skipped]; [|split_and!; [done|lia|by exists dropped]].
    destruct (Hg n (with_unit (match trim_text r with [] => None | u => Some u end))) as [G1 G2];
      [done|intros; by rewrite app_nil_r|]. split_and!; [done|lia|]. by exists dropped.
  - split_and!; [done|lia|]. by exists dropped.
Qed.

Lemma sample_accounted lines l p : accounted lines p -> is_sample_line l = true ->
  accounted (lines ++ [l]) (parse_sample Number (clean_line l) p).
Proof.
  intros (Hok & Hsk & dropped & Hp & Hd) Hl. unfold accounted. rewrite parsed_snoc, !count_snoc, Hl.
  assert (is_bad_comment l = false) as ->.
  { unfold is_sample_line in Hl. unfold is_bad_comment. destruct (clean_line l) as [|c a]; [done|].
    destruct c as [|q|q]; try done. repeat (destruct q as [q|q|]; try done). }
  unfold parse_sample. destruct (parseSampleLine Number (clean_line l)) as [s|].
  2: { rewrite app_nil_r. split_and!; [done|cbn; lia|]. by exists dropped. }
  rewrite length_app. cbn [length]. destruct (ends_with _ _ && _) eqn:He.
  - split_and!; [done|lia|]. exists (dropped ++ [s]). split.
    + by rewrite Hp, app_assoc.
    + apply Forall_app. split; [done|]. constructor; [|done]. apply andb_true_iff in He as [He _]. by apply ends_with_spec in He.
  - cbn [on_families p_families p_skipped]. set (k := default (s_name s) _).
    assert (Forall (member k) [s]) as Hm by (constructor; [apply family_member|done]).
    split_and!; [by apply change_ok with [s]|lia|]. exists dropped. split; [|done].
    rewrite (change_samples k (with_sample s) [s]) by done. rewrite Hp, <- !app_assoc.
    apply Permutation_app_head, Permutation_app_comm.
Qed.

Lemma lines_accounted lines : accounted lines (parse_lines Number toLowerCase lines {| p_families := []; p_skipped := 0 |}).
Proof.
  induction lines as [|l lines IH] using rev_ind.
  { split_and!; [by split_and!; [apply NoDup_nil|..]|done|]. by exists []. }
  unfold parse_lines. rewrite fold_left_app. cbn [fold_left]. fold (parse_lines Number toLowerCase lines {| p_families := []; p_skipped := 0 |}).
  set (p := parse_lines _ _ _ _) in *. unfold parse_line. destruct (clean_line l) as [|c a] eqn:Hl.
  - destruct IH as (Hok & Hsk & Hrest). unfold accounted. rewrite parsed_snoc, !count_snoc.
    assert (is_sample_line l = false /\ is_bad_comment l = false) as [-> ->] by (unfold is_sample_line, is_bad_comment; by rewrite Hl).
    rewrite app_nil_r. split_and!; [done|lia|done].
  - destruct (decide (c = 35)) as [->|Hc]; [by apply comment_accounted|].
    replace (match c :: a with [] => p | 35 :: comment => parse_comment toLowerCase (trim_text comment) p
             | line => parse_sample Number line p end) with (parse_sample Number (clean_line l) p).
    + apply sample_accounted; [done|]. unfold is_sample_line. rewrite Hl. by apply negb_true_iff, Z.eqb_neq.
    + rewrite Hl. destruct c as [|q|q]; try done. repeat (destruct q as [q|q|]; try done).
Qed.

Lemma samples_of_filter fs :
  samples_of (List.filter (fun f => match f_samples f with [] => false | _ => true end) fs) = samples_of fs.
Proof.
  unfold samples_of. induction fs as [|f fs IH]; [done|]. cbn [List.filter List.map concat].
  destruct (f_samples f) eqn:E; cbn [List.map concat]; [done|]. by rewrite IH, E.
Qed.

Lemma countSamples_length fs : countSamples fs = Z.of_nat (length (samples_of fs)).
Proof.
  unfold countSamples. assert (forall n, fold_left (fun total f => total + Z.of_nat (length (f_samples f))) fs n =
    n + Z.of_nat (length (samples_of fs))) as Hf; [|by rewrite Hf].
  unfold samples_of. induction fs as [|f fs IH]; intros n; cbn [fold_left List.map concat]; [cbn; lia|].
  rewrite IH, length_app. lia.
Qed.

(** A scraped body loses no sample. The samples of the parsed lines are the
    samples of the families, each once, but for those named after a family with
    the suffix _created; the families have distinct names, none is empty, and each
    sample is in a family of its name or of its name without a component suffix;
    and the skipped count is the lines that are no sample plus the TYPE and HELP
    comments that name no metric. *)
Theorem body_accounted body :
  let lines := split_text [10] body in
  let r := parsePrometheusText Number toLowerCase body in
  exists dropped,
    Permutation (parsed_samples lines) (samples_of (families r) ++ dropped) /\
    Forall (fun s => exists base, s_name s = base ++ lit "_created") dropped /\
    NoDup (List.map f_name (families r)) /\
    Forall (fun f => f_samples f <> [] /\ Forall (member (f_name f)) (f_samples f)) (families r) /\
    skippedLineCount r =
      count is_sample_line lines - Z.of_nat (length (parsed_samples lines)) + count is_bad_comment lines /\
    countSamples (families r) + Z.of_nat (length dropped) = Z.of_nat (length (parsed_samples lines)).
Proof.
  intros lines r. destruct (lines_accounted lines) as ((Hnd & Hn & Hf) & Hsk & dropped & Hp & Hd).
  exists dropped. subst r. unfold parsePrometheusText. fold lines. cbn [families skippedLineCount]. rewrite samples_of_filter.
  split_and!; [done|done| | |done|].
  - rewrite <- Hn in Hnd. clear Hn Hf Hsk Hp. induction (List.map snd _) as [|f fs IH]; [constructor|].
    cbn [List.map List.filter] in *. apply NoDup_cons in Hnd as [Hni Hnd].
    destruct (f_samples f); [by apply IH|]. cbn [List.map]. apply NoDup_cons. split; [|by apply IH].
    intros Hin. apply Hni. apply list_elem_of_In, List.in_map_iff in Hin as (f' & He & Hin). apply List.filter_In in Hin as [Hin _].
    apply list_elem_of_In, List.in_map_iff. by exists f'.
  - apply Forall_forall. intros f Hin%list_elem_of_In. apply List.filter_In in Hin as [Hin Hs].
    split; [by intros E; rewrite E in Hs|]. apply (proj1 (Forall_forall _ _) Hf). by apply list_elem_of_In.
  - rewrite countSamples_length, samples_of_filter, Hp, length_app. lia.
Qed.
End Bodies.

(** ** A concrete line *)

Lemma token_check t : negb (bool_decide (t = [])) && forallb (fun c => negb (is_space c) && negb (c =? 35)) t = true -> token_text t.
Proof.
  intros [Hn Hf]%andb_true_iff. split; [by apply negb_true_iff, bool_decide_eq_false in Hn|].
  apply Forall_forall. intros c Hc%list_elem_of_In. apply (proj1 (List.forallb_forall _ _) Hf) in Hc. lia.
Qed.

Lemma all_check (q : Z -> bool) b : forallb q b = true -> Forall (fun c => q c = true) b.
Proof. intros Hf. apply Forall_forall. intros c Hc%list_elem_of_In. by apply (proj1 (List.forallb_forall _ _) Hf). Qed.

Definition demo_label : text := Eval vm_compute in ([99; 61; 34; 92; 34; 125; 34; 125] : text).

Example sample_line_reads_witness :
  parseSampleLine small_number (lit "up" ++ 123 :: demo_label ++ lit " 7 1700000000000 # x") =
    Some {| s_name := lit "up"; s_labels := [(lit "c", [34; 125])]; s_value := num_of_Z 7;
            s_timestampMs := Some (num_of_Z 1700000000000) |}.
Proof.
  pose proof (sample_line_reads small_number (lit "up") (Some (demo_label, [(lit "c", [34; 125])])) (lit " ") (lit "7")
    (Some (lit " ", lit "1700000000000")) (lit " " ++ 35 :: lit " x")) as H.
  apply H; clear H.
  - split; [by vm_compute|]. by apply (all_check metric_part).
  - split; [by apply token_check|]. split; [by apply (all_check is_blank)|]. split; [done|by apply token_check].
  - apply (tail_exemplar (lit " ")). by apply (all_check is_blank).
  - by apply (all_check is_space).
  - apply (block_label [] (lit "c") [] [] [92; 34; 125] [34; 125] [125] []).
    + constructor.
    + split; [by vm_compute|constructor].
    + constructor.
    + constructor.
    + apply value_quote, value_plain; [done|done|apply value_nil].
    + apply (block_end []). constructor.
  - cbn [s_name s_labels s_value s_timestampMs]. split_and!; [done|by vm_compute| |by vm_compute|].
    + apply reads_number; [by apply (bool_decide_unpack _); vm_compute|done|by vm_compute|by vm_compute].
    + eexists. split; [apply reads_milliseconds; by vm_compute|by vm_compute].
Defined.
