(* ===== verification/QuerySeries.v ===== *)
(** * Merging query results into chart rows

    packages/query-engine/src/query-set/series-merge.ts and breakdown-merge.ts:
    one row per bucket and one column per series of a query set, the shift of a
    previous period, the percent change columns, and the rows of a breakdown.

    A row is the association list of its own properties; as a row is read by
    property name, their order is not part of the model. [toLowerCase], the
    comparison [localeCompare] and [Date.parse] are arguments. *)

From Stdlib Require Import Ascii String.
From stdpp Require Import prelude list.
From Stdlib Require Import ZArith Lia Floats.SpecFloat.
From S2P Require Import Prelude.
From S2P Require Import JsNum.
From S2P Require Import JsString.
From S2P Require Import WarehouseTime.
From S2P Require Import IngestSha256.
From S2P Require Import IngestRegex.
From S2P Require Import JsUnits.
From S2P Require Import Formula.

Open Scope Z_scope.
Local Open Scope maple_scope.

(** ** Rows *)

Inductive cell := CText (t : text) | CNum (x : num).

Definition Row : Type := jsmap text cell.

(** [row[name] = value] for a string or a number, which [__proto__] ignores. *)
Definition row_set (name : text) (c : cell) (row : Row) : Row :=
  if bool_decide (name = lit "__proto__") then row else map_set name c row.

(** [typeof row[name] === "number"], with the number. *)
Definition row_number (name : text) (row : Row) : option num :=
  match map_get name row with Some (CNum x) => Some x | _ => None end.

Definition new_row (bucket : text) : Row := [(lit "bucket", CText bucket)].

(** ** Queries and results *)

Record AddOns := { ao_groupBy : bool; ao_having : bool; ao_orderBy : bool; ao_limit : bool; ao_legend : bool }.

(** A stored query: the fields of every source and those of one source. *)
Record QueryDraft := {
  qd_id : text;
  qd_name : text;
  qd_enabled : option bool;
  qd_hidden : option bool;
  qd_dataSource : text;
  qd_whereClause : option text;
  qd_aggregation : text;
  qd_stepInterval : option text;
  qd_orderByDirection : option text;
  qd_addOns : option AddOns;
  qd_groupBy : option (list text);
  qd_having : option text;
  qd_orderBy : option text;
  qd_limit : option text;
  qd_seriesLimit : option text;
  qd_legend : option text;
  qd_valueField : option text;
  qd_signalSource : option text;
  qd_metricName : option text;
  qd_metricType : option text;
  qd_isMonotonic : option bool;
}.

(** A stored formula. *)
Record QueryFormula := {
  qf_id : text;
  qf_name : text;
  qf_expression : text;
  qf_legend : text;
  qf_hidden : option bool;
}.

Definition has_series (p : TimeseriesPoint) : bool := match tp_series p with [] => false | _ => true end.

Definition hasAnySeriesData (points : list TimeseriesPoint) : bool := existsb has_series points.

Definition is_success (r : QueryRunResult) : bool :=
  match qr_status r with run_success => true | run_error => false end.

(** The results that contribute to a chart. *)
Definition has_data (r : QueryRunResult) : bool := is_success r && hasAnySeriesData (qr_data r).

Definition countSuccessfulQuerySeries (results : list QueryRunResult) : nat :=
  length (List.filter has_data results).

Definition collectHiddenResultIds (queries : list QueryDraft) (formulas : list QueryFormula) : list text :=
  List.map qd_id (List.filter (fun q => default false (qd_hidden q)) queries) ++
  List.map qf_id (List.filter (fun f => default false (qf_hidden f)) formulas).

(** [(legend ?? "").trim() || name] *)
Definition display_name (legend : option text) (name : text) : text :=
  match trim_text (default [] legend) with [] => name | trimmed => trimmed end.

(** Over the id, name and legend of queries and formulas. *)
Definition toDisplayNameById (entries : list (text * text * option text)) : jsmap text text :=
  fold_left (fun m e => map_set e.1.1 (display_name e.2 e.1.2) m) entries [].

(** ** Names *)

Fixpoint unique_suffix (fuel : nat) (used : list text) (base : text) (suffix : Z) : text :=
  let candidate := base ++ lit " (" ++ digits_text suffix ++ lit ")" in
  match fuel with
  | O => candidate
  | S fuel' => if bool_decide (candidate ∈ used) then unique_suffix fuel' used base (suffix + 1) else candidate
  end.

(** [uniqueName(base)] without the insertion. *)
Definition uniqueName (used : list text) (base : text) : text :=
  if bool_decide (base ∈ used) then unique_suffix (length used) used base 2 else base.

(** [if (!name)] of an optional string. *)
Definition truthy (name : option text) : option text := match name with Some [] => None | n => n end.

Record MergedSeries := {
  rowsByBucket : jsmap text Row;
  seriesNameByStableKey : jsmap text text;
  seriesNames : list text;
}.

(** The columns named so far and every name taken. *)
Record Names := { n_byKey : jsmap text text; n_order : list text; n_used : list text }.

Section Merge.
Context (toLowerCase : text -> text).

Definition isEngineUngroupedKey (groupName : text) : bool :=
  bool_decide (toLowerCase (trim_text groupName) = lit "all").

Definition all_key : text := lit "__all__".

(** The stable key and the label of a group of a result. *)
Definition toSeriesDescriptor (result : QueryRunResult) (displayName rawGroupName : text) (singleQuery : bool) :
    text * text :=
  let normalizedGroupName := match trim_text rawGroupName with [] => lit "unnamed" | t => t end in
  let isFormulaSelfNamed :=
    bool_decide (qr_source result = lit "formula") && bool_decide (normalizedGroupName = displayName) in
  if isEngineUngroupedKey normalizedGroupName || isFormulaSelfNamed then (all_key, displayName)
  else (normalizedGroupName,
        if singleQuery then normalizedGroupName else displayName ++ lit ": " ++ normalizedGroupName).

(** The name a stable key has or gets. *)
Definition name_series (stableKey label : text) (ns : Names) : text * Names :=
  match truthy (map_get stableKey (n_byKey ns)) with
  | Some name => (name, ns)
  | None =>
      let name := uniqueName (n_used ns) label in
      (name, {| n_byKey := map_set stableKey name (n_byKey ns); n_order := n_order ns ++ [name];
                n_used := set_add name (n_used ns) |})
  end.

Section Result.
Context (result : QueryRunResult) (preferredName suffix : text) (singleQuery : bool).

Definition stable_key (groupName : text) : text :=
  qr_queryId result ++ lit "::" ++ (toSeriesDescriptor result preferredName groupName singleQuery).1.

Definition series_label (groupName : text) : text :=
  (toSeriesDescriptor result preferredName groupName singleQuery).2 ++ suffix.

(** One group of a point. *)
Definition merge_value (s : Row * Names) (e : text * num) : Row * Names :=
  let '(row, ns) := s in
  if num_is_finite e.2 then
    let '(name, ns') := name_series (stable_key e.1) (series_label e.1) ns in
    (row_set name (CNum e.2) row, ns')
  else (row, ns).

Definition row_of (bucket : text) (rows : jsmap text Row) : Row := default (new_row bucket) (map_get bucket rows).

Definition merge_point (s : jsmap text Row * Names) (p : TimeseriesPoint) : jsmap text Row * Names :=
  let '(rows, ns) := s in
  let '(row, ns') := fold_left merge_value (tp_series p) (row_of (tp_bucket p) rows, ns) in
  (map_set (tp_bucket p) row rows, ns').
End Result.

Definition preferred_name (displayNameById : jsmap text text) (r : QueryRunResult) : text :=
  default (qr_queryName r) (map_get (qr_queryId r) displayNameById).

Definition merge_result (displayNameById : jsmap text text) (suffix : text) (singleQuery : bool)
    (s : jsmap text Row * Names) (r : QueryRunResult) : jsmap text Row * Names :=
  if has_data r then
    fold_left (merge_point r (preferred_name displayNameById r) suffix singleQuery) (qr_data r) s
  else s.

(** A number in every named column. *)
Definition zero_fill (names : list text) (row : Row) : Row :=
  fold_left (fun row name => match row_number name row with
                             | Some _ => row
                             | None => row_set name (CNum num_zero) row
                             end) names row.

(** The merged series, and the names taken after it. *)
Definition mergeQueryRunResults (results : list QueryRunResult) (displayNameById : jsmap text text) (suffix : text)
    (used : list text) : MergedSeries * list text :=
  let singleQuery := (countSuccessfulQuerySeries results <=? 1)%nat in
  let '(rows, ns) := fold_left (merge_result displayNameById suffix singleQuery) results
                       ([], {| n_byKey := []; n_order := []; n_used := used |}) in
  ({| rowsByBucket := List.map (fun e => (e.1, zero_fill (n_order ns) e.2)) rows;
      seriesNameByStableKey := n_byKey ns; seriesNames := n_order ns |}, n_used ns).

End Merge.

(** ** Combining windows *)

(** [{ ...existing, ...row }] *)
Definition spread (existing row : Row) : Row := fold_left (fun m e => map_set e.1 e.2 m) row existing.

Definition all_series_names (mergedSets : list MergedSeries) : list text :=
  fold_left (fun acc m => fold_left (fun acc n => set_add n acc) (seriesNames m) acc) mergedSets [].

Definition combined_rows (mergedSets : list MergedSeries) : jsmap text Row :=
  fold_left (fun rows m =>
    fold_left (fun rows e => map_set e.1 (spread (row_of e.1 rows) e.2) rows) (rowsByBucket m) rows) mergedSets [].

(** [String(row.bucket)]; a bucket that is a number is printed by [String]. *)
Definition bucket_text (String_ : num -> text) (row : Row) : text :=
  match map_get (lit "bucket") row with Some (CText t) => t | Some (CNum x) => String_ x | None => lit "undefined" end.

Definition combineRows (localeCompare : text -> text -> Z) (String_ : num -> text) (mergedSets : list MergedSeries) :
    list Row :=
  js_sort (fun l r => localeCompare (bucket_text String_ l) (bucket_text String_ r))
    (List.map (fun e => zero_fill (all_series_names mergedSets) e.2) (combined_rows mergedSets)).

(** ** Comparison *)

Section Shift.
(** [new Date(bucket).getTime()]; [None] is [NaN]. *)
Context (date_parse : text -> option Z).

Definition shiftBucket (bucket : text) (offsetMs : Z) : text :=
  match date_parse bucket with None => bucket | Some parsed => lit (toISOString (parsed + offsetMs)) end.

Definition shiftResultPoints (points : list TimeseriesPoint) (offsetMs : Z) : list TimeseriesPoint :=
  List.map (fun p => {| tp_bucket := shiftBucket (tp_bucket p) offsetMs; tp_series := tp_series p |}) points.

Definition with_data (r : QueryRunResult) (data : list TimeseriesPoint) : QueryRunResult :=
  {| qr_queryId := qr_queryId r; qr_queryName := qr_queryName r; qr_source := qr_source r; qr_status := qr_status r;
     qr_error := qr_error r; qr_warnings := qr_warnings r; qr_data := data |}.

Definition shiftRunResults (results : list QueryRunResult) (shiftMs : Z) : list QueryRunResult :=
  List.map (fun r => with_data r (shiftResultPoints (qr_data r) shiftMs)) results.
End Shift.

Definition finite_or_zero (x : option num) : num :=
  match x with Some v => if num_is_finite v then v else num_zero | None => num_zero end.

(** The percent change from [previous] to [current]; none from zero. *)
Definition percent_change (current previous : num) : option num :=
  if num_eqb previous num_zero then (if num_eqb current num_zero then Some num_zero else None)
  else Some (num_mul (num_div (num_sub current previous) (SFabs previous)) (num_of_Z 100)).

Definition delta_suffix : text := lit " (%" ++ [0x394] ++ lit ")".
Definition delta_name (name : text) : text := name ++ delta_suffix.

Definition append_change (current previous : text) (row : Row) : Row :=
  match percent_change (finite_or_zero (row_number current row)) (finite_or_zero (row_number previous row)) with
  | Some d => row_set (delta_name current) (CNum d) row
  | None => row
  end.

Definition appendPercentChangeSeries (rows : list Row) (current previous : jsmap text text) : list Row :=
  fold_left (fun rows e =>
    match truthy (map_get e.1 previous) with
    | Some previousName => List.map (append_change e.2 previousName) rows
    | None => rows
    end) current rows.

(** ** Breakdowns *)

Record BreakdownQueryResult := {
  br_queryId : text;
  br_queryName : text;
  br_status : run_status;
  br_error : option text;
  br_data : list (text * num);
}.

Definition br_success (r : BreakdownQueryResult) : bool :=
  match br_status r, br_data r with run_success, _ :: _ => true | _, _ => false end.

Definition toDisplayName (q : QueryDraft) : text := display_name (qd_legend q) (qd_name q).

(** [(a, b) => b - a] as a comparator: NaN, as of two equal infinities, counts as 0. *)
Definition descending (a b : num) : Z :=
  if num_ltb num_zero (num_sub b a) then 1 else if num_ltb (num_sub b a) num_zero then -1 else 0.

Definition column_name (queries : list QueryDraft) (r : BreakdownQueryResult) : text :=
  match map_get (br_queryId r) (map_of (List.map (fun q => (qd_id q, q)) queries)) with
  | Some q => toDisplayName q
  | None => br_queryName r
  end.

Definition named_row (name : text) (rows : jsmap text Row) : Row :=
  default [(lit "name", CText name)] (map_get name rows).

Definition breakdown_result (queries : list QueryDraft) (rows : jsmap text Row) (r : BreakdownQueryResult) :
    jsmap text Row :=
  fold_left (fun rows e =>
    map_set e.1 (row_set (column_name queries r) (CNum e.2) (named_row e.1 rows)) rows) (br_data r) rows.

Definition mergeBreakdownResults (results : list BreakdownQueryResult) (queries : list QueryDraft) : list Row :=
  match List.filter br_success results with
  | [] => []
  | [r] =>
      List.map (fun e => [(lit "name", CText e.1); (lit "value", CNum e.2)])
        (js_sort (fun a b => descending a.2 b.2) (br_data r))
  | successful =>
      let columns := List.map (column_name queries) successful in
      let rows := List.map (fun e => zero_fill columns e.2) (fold_left (breakdown_result queries) successful []) in
      match columns with
      | [] => []
      | firstCol :: _ =>
          js_sort (fun a b => descending (default num_zero (row_number firstCol a))
                                          (default num_zero (row_number firstCol b))) rows
      end
  end.
