(* ===== verification/QueryMerge.v ===== *)
(** * The merged rows are exact

    What a chart shows after packages/query-engine/src/query-set/series-merge.ts:
    every column belongs to one group of one result, every cell holds the last
    finite value of its group and bucket, or zero. *)

From Stdlib Require Import Ascii String.
From stdpp Require Import prelude list.
From Stdlib Require Import ZArith Lia Floats.SpecFloat.
From S2P Require Import Prelude.
From S2P Require Import JsNum.
From S2P Require Import JsString.
From S2P Require Import IngestSha256.
From S2P Require Import IngestRegex.
From S2P Require Import JsUnits.
From S2P Require Import Formula.
From S2P Require Import QuerySeries.

Open Scope Z_scope.
Local Open Scope maple_scope.

(** ** Unique names *)

Definition candidate (base : text) (k : Z) : text := base ++ lit " (" ++ digits_text k ++ lit ")".

Lemma candidate_inj base j k : candidate base j = candidate base k -> j = k.
Proof.
  intros E. unfold candidate in E. do 2 apply app_inv_head in E. apply app_inv_tail in E.
  exact (digits_text_inj _ _ E).
Qed.

Lemma unique_suffix_S fuel used base k :
  unique_suffix (S fuel) used base k =
  if bool_decide (candidate base k ∈ used) then unique_suffix fuel used base (k + 1) else candidate base k.
Proof. reflexivity. Qed.

(** The search stops at the first free candidate or has met [fuel] used ones. *)
Lemma unique_suffix_spec used base fuel : forall k,
  unique_suffix fuel used base k ∉ used \/
  (forall i, (i < fuel)%nat -> candidate base (k + Z.of_nat i) ∈ used).
Proof.
  induction fuel as [|fuel IH]; intros k; [right; intros; lia|].
  rewrite unique_suffix_S. destruct (bool_decide_reflect (candidate base k ∈ used)) as [Hin|Hni]; [|by left].
  destruct (IH (k + 1)) as [H|H]; [by left|]. right. intros [|i] Hi; [by rewrite Z.add_0_r|].
  replace (k + Z.of_nat (S i)) with (k + 1 + Z.of_nat i) by lia. apply H. lia.
Qed.

Lemma candidates_NoDup base k n : NoDup (List.map (fun i => candidate base (k + Z.of_nat i)) (seq 0 n)).
Proof.
  apply NoDup_fmap_2_strong; [|apply NoDup_seq].
  intros i j _ _ E. apply candidate_inj in E; lia.
Qed.

Lemma candidate_not_base base k : candidate base k <> base.
Proof.
  intros E. apply (f_equal length) in E. unfold candidate in E. rewrite !length_app in E.
  change (length (lit " (")) with 2%nat in E. lia.
Qed.

(** The name given is free. *)
Lemma uniqueName_fresh used base : uniqueName used base ∉ used.
Proof.
  unfold uniqueName. destruct (bool_decide_reflect (base ∈ used)) as [Hb|Hb]; [|done].
  destruct (unique_suffix_spec used base (length used) 2) as [H|H]; [done|]. exfalso.
  assert (base :: List.map (fun i => candidate base (2 + Z.of_nat i)) (seq 0 (length used)) ⊆+ used) as Hsub.
  { apply NoDup_submseteq.
    - apply NoDup_cons. split; [|by apply candidates_NoDup].
      intros (i & Ei & _)%list_elem_of_fmap. by apply (candidate_not_base base (2 + Z.of_nat i)).
    - intros x [->|(i & -> & Hi)%list_elem_of_fmap]%elem_of_cons; [done|]. apply H. apply elem_of_seq in Hi. lia. }
  apply submseteq_length in Hsub. cbn in Hsub. rewrite List.length_map, List.length_seq in Hsub. lia.
Qed.

Lemma unique_suffix_shape used base fuel : forall k, exists j, unique_suffix fuel used base k = candidate base j.
Proof.
  induction fuel as [|fuel IH]; intros k; [by exists k|]. rewrite unique_suffix_S. case_bool_decide; [apply IH|by exists k].
Qed.

(** Names that are no property of every row and no percent change column. *)
Definition plain_name (name : text) : Prop :=
  name ∉ [[]; lit "bucket"; lit "__proto__"] /\ ends_with name delta_suffix = false.

Lemma candidate_plain base k : plain_name (candidate base k).
Proof.
  assert (last (candidate base k) = Some 41) as Hl.
  { unfold candidate. rewrite !app_assoc. apply last_snoc. }
  split.
  - intros H. rewrite !elem_of_cons, elem_of_nil in H. destruct H as [E|[E|[E|[]]]]; rewrite E in Hl; by vm_compute in Hl.
  - apply not_true_iff_false. intros [p E]%ends_with_spec. unfold candidate in E.
    change delta_suffix with ([32; 40; 37; 0x394] ++ lit ")") in E. rewrite !app_assoc in E. apply app_inv_tail in E.
    rewrite <- (app_assoc base) in E. apply (f_equal last) in E.
    change [32; 40; 37; 0x394] with ([32; 40; 37] ++ [0x394]) in E. rewrite (app_assoc p) in E. rewrite last_snoc in E.
    assert (Forall (fun c => c < 128) (lit " (" ++ digits_text k)) as Hall.
    { apply Forall_app. split; [by apply (ascii_units " ("%string)|]. apply ascii_units, show_ascii. }
    rewrite last_app in E. destruct (last (lit " (" ++ digits_text k)) as [d|] eqn:Ed.
    + rewrite last_Some in Ed. destruct Ed as [l Ed]. rewrite Ed, Forall_app, Forall_singleton in Hall. injection E as E. lia.
    + by apply last_None in Ed.
Qed.

Lemma uniqueName_plain used base : plain_name base -> plain_name (uniqueName used base).
Proof.
  intros H. unfold uniqueName. case_bool_decide; [|done].
  destruct (unique_suffix_shape used base (length used) 2) as [j ->]. apply candidate_plain.
Qed.

Lemma plain_row_set name c row : plain_name name -> row_set name c row = map_set name c row.
Proof.
  intros [H _]. unfold row_set. rewrite bool_decide_eq_false_2; [done|]. intros ->. apply H. set_solver.
Qed.

Lemma plain_not_bucket name : plain_name name -> name <> lit "bucket".
Proof. intros [H _] ->. apply H. set_solver. Qed.

Lemma plain_truthy name : plain_name name -> truthy (Some name) = Some name.
Proof. intros [H _]. destruct name; [|done]. exfalso. apply H. set_solver. Qed.

(** ** Readings

    What the results say about the chart: the finite values of each group with
    the bucket they belong to, in the order the merge meets them. *)

Record reading := { rd_key : text; rd_bucket : text; rd_value : num }.

Definition matches (key bucket : text) (r : reading) : bool :=
  bool_decide (rd_key r = key) && bool_decide (rd_bucket r = bucket).

Definition last_reading (key bucket : text) (rs : list reading) : option num :=
  option_map rd_value (last (List.filter (matches key bucket) rs)).

Lemma last_reading_snoc key bucket rs r :
  last_reading key bucket (rs ++ [r]) =
  if matches key bucket r then Some (rd_value r) else last_reading key bucket rs.
Proof.
  unfold last_reading. rewrite List.filter_app. cbn. destruct (matches key bucket r); [by rewrite last_snoc|].
  by rewrite app_nil_r.
Qed.

Lemma last_reading_other key bucket rs r :
  rd_key r <> key \/ rd_bucket r <> bucket -> last_reading key bucket (rs ++ [r]) = last_reading key bucket rs.
Proof.
  intros H. rewrite last_reading_snoc. unfold matches.
  destruct (bool_decide_reflect (rd_key r = key)), (bool_decide_reflect (rd_bucket r = bucket)); naive_solver.
Qed.

(** No reading of a key. *)
Lemma last_reading_none_key key bucket rs :
  (forall r, r ∈ rs -> rd_key r <> key) -> last_reading key bucket rs = None.
Proof.
  induction rs as [|r rs IH] using rev_ind; intros H; [done|].
  rewrite last_reading_other by (left; apply H; set_solver). apply IH. intros r' Hr'. apply H. set_solver.
Qed.

(** No reading at a bucket. *)
Lemma last_reading_none key bucket rs :
  (forall r, r ∈ rs -> rd_bucket r <> bucket) -> last_reading key bucket rs = None.
Proof.
  induction rs as [|r rs IH] using rev_ind; intros H; [done|].
  rewrite last_reading_other by (right; apply H; set_solver). apply IH. intros r' Hr'. apply H. set_solver.
Qed.

(** ** The invariant of the merge *)

(** A row holds its bucket and, in each named column, the last reading. *)
Definition row_ok (byKey : jsmap text text) (rs : list reading) (bucket : text) (row : Row) : Prop :=
  NoDup (map_keys row) /\
  map_get (lit "bucket") row = Some (CText bucket) /\
  (forall key name, map_get key byKey = Some name ->
     map_get name row = option_map CNum (last_reading key bucket rs)) /\
  (forall name, is_Some (map_get name row) -> name = lit "bucket" \/ name ∈ map_values byKey).

(** The names given: one per key, in order, none reserved and none taken. *)
Record names_ok (used : list text) (rs : list reading) (ns : Names) : Prop := {
  no_keys : NoDup (map_keys (n_byKey ns));
  no_order : n_order ns = map_values (n_byKey ns);
  no_used : n_used ns = used ++ n_order ns;
  no_distinct : NoDup (n_order ns);
  no_fresh : forall n, n ∈ n_order ns -> n ∉ used;
  no_plain : Forall plain_name (n_order ns);
  no_read : forall key, key ∈ map_keys (n_byKey ns) <-> exists r, r ∈ rs /\ rd_key r = key;
}.

Record merge_ok (used : list text) (rs : list reading) (buckets : list text) (rows : jsmap text Row) (ns : Names) :
    Prop := {
  mo_names : names_ok used rs ns;
  mo_rows : NoDup (map_keys rows);
  mo_buckets : forall b, b ∈ map_keys rows <-> b ∈ buckets;
  mo_read : forall r, r ∈ rs -> rd_bucket r ∈ buckets;
  mo_row : forall b row, map_get b rows = Some row -> row_ok (n_byKey ns) rs b row;
}.

Lemma map_get_values {K V} `{!EqDecision K} (k : K) (v : V) m : map_get k m = Some v -> v ∈ map_values m.
Proof. intros H%map_get_elem_of. apply list_elem_of_In, List.in_map_iff. exists (k, v). by rewrite <- list_elem_of_In. Qed.

(** Distinct values are the values of distinct keys. *)
Lemma map_get_values_inj {K V} `{!EqDecision K} (j k : K) (v : V) m :
  NoDup (map_values m) -> map_get j m = Some v -> map_get k m = Some v -> j = k.
Proof.
  unfold map_values. induction m as [|[k' v'] m IH]; [done|]. cbn. intros [Hni Hnd]%NoDup_cons.
  destruct (decide (j = k')) as [->|], (decide (k = k')) as [->|]; [done|..].
  - intros [= ->] H%map_get_values. by destruct Hni.
  - intros H%map_get_values [= ->]. by destruct Hni.
  - by apply IH.
Qed.

Lemma names_ok_order used rs ns key name :
  names_ok used rs ns -> map_get key (n_byKey ns) = Some name -> name ∈ n_order ns.
Proof. intros [] H%map_get_values. congruence. Qed.

(** Naming a group keeps the names in order; the key then has the name. *)
Lemma name_series_ok used rs ns r label name ns' :
  names_ok used rs ns -> plain_name label -> name_series (rd_key r) label ns = (name, ns') ->
  names_ok used (rs ++ [r]) ns' /\ map_get (rd_key r) (n_byKey ns') = Some name /\
  (ns' = ns \/ map_get (rd_key r) (n_byKey ns) = None /\ name ∉ n_used ns /\
     n_byKey ns' = n_byKey ns ++ [(rd_key r, name)]).
Proof.
  intros Hns Hlabel. unfold name_series.
  assert (forall n, map_get (rd_key r) (n_byKey ns) = Some n -> plain_name n) as Hplain.
  { intros n Hn. apply (Forall_forall plain_name (n_order ns)); [apply Hns|]. by eapply names_ok_order. }
  destruct (map_get (rd_key r) (n_byKey ns)) as [n|] eqn:Ek.
  - rewrite (plain_truthy n) by by apply Hplain. intros [= <- <-]. split; [|by auto].
    destruct Hns. constructor; try done. intros key. rewrite no_read0. split.
    + intros (r0 & Hr & <-). exists r0. set_solver.
    + intros (r0 & [Hr|Hr]%elem_of_app & <-); [by exists r0|]. apply list_elem_of_singleton in Hr as ->.
      apply no_read0, map_get_Some_keys. by rewrite Ek.
  - intros [= <- <-]. cbn [n_byKey n_order n_used truthy].
    pose proof (uniqueName_fresh (n_used ns) label) as Hfresh. set (name := uniqueName (n_used ns) label) in *.
    rewrite map_set_fresh by done. split_and!; [|rewrite <- map_set_fresh by done; by rewrite map_get_set_eq|by auto].
    assert (name ∉ used /\ name ∉ n_order ns) as [Hu Ho].
    { rewrite (no_used _ _ _ Hns), elem_of_app in Hfresh. tauto. }
    destruct Hns. constructor; cbn [n_byKey n_order n_used].
    + rewrite <- map_set_fresh by done. by apply map_set_NoDup.
    + unfold map_values in *. by rewrite List.map_app, no_order0.
    + unfold set_add. rewrite bool_decide_eq_false_2 by done. by rewrite no_used0, app_assoc.
    + apply NoDup_app. split_and!; [done| |apply NoDup_singleton].
      intros x Hx ->%list_elem_of_singleton. done.
    + intros n [Hn| ->%list_elem_of_singleton]%elem_of_app; [by apply no_fresh0|done].
    + apply Forall_app. split; [done|]. apply Forall_singleton. by apply uniqueName_plain.
    + intros key. unfold map_keys in *. rewrite List.map_app, elem_of_app, no_read0. cbn.
      rewrite list_elem_of_singleton. setoid_rewrite elem_of_app. setoid_rewrite list_elem_of_singleton. naive_solver.
Qed.

(** ** The merge keeps the invariant *)

Section Merged.
Context (toLowerCase : text -> text) (displayNameById : jsmap text text) (suffix : text) (singleQuery : bool).

Definition entry_readings (r : QueryRunResult) (bucket : text) (e : text * num) : list reading :=
  if num_is_finite e.2 then
    [{| rd_key := stable_key toLowerCase r (preferred_name displayNameById r) singleQuery e.1; rd_bucket := bucket;
        rd_value := e.2 |}]
  else [].

Definition point_readings (r : QueryRunResult) (p : TimeseriesPoint) : list reading :=
  flat_map (entry_readings r (tp_bucket p)) (tp_series p).

Definition result_readings (r : QueryRunResult) : list reading :=
  if has_data r then flat_map (point_readings r) (qr_data r) else [].

Definition result_buckets (r : QueryRunResult) : list text :=
  if has_data r then List.map tp_bucket (qr_data r) else [].

(** Every label the results ask for can be a column. *)
Definition labels_plain (results : list QueryRunResult) : Prop :=
  forall r p e, r ∈ results -> p ∈ qr_data r -> e ∈ tp_series p ->
    plain_name (series_label toLowerCase r (preferred_name displayNameById r) suffix singleQuery e.1).

Context (used : list text).

(** Fetching the row of a bucket. *)
Lemma touch_ok rs bs rows ns b :
  merge_ok used rs bs rows ns ->
  merge_ok used rs (bs ++ [b]) (map_set b (row_of b rows) rows) ns.
Proof.
  intros []. constructor; [done|by apply map_set_NoDup| | |].
  - intros b'. rewrite elem_of_map_set_keys, mo_buckets0, elem_of_app, list_elem_of_singleton. tauto.
  - intros r Hr. apply elem_of_app. left. by apply mo_read0.
  - intros b' row. rewrite map_get_set. case_decide as H; [|by apply mo_row0]. subst b'. intros [= <-].
    unfold row_of. destruct (map_get b rows) as [row|] eqn:Eb; [by apply mo_row0|]. cbn [default].
    assert (b ∉ bs) as Hb by (rewrite <- mo_buckets0; by apply map_get_None_keys).
    split_and!; [apply NoDup_singleton|reflexivity| |].
    + intros key name Hk. rewrite last_reading_none by (intros r Hr <-; by apply Hb, mo_read0). cbn [option_map].
      unfold new_row. cbn [map_get]. rewrite decide_False; [done|]. apply plain_not_bucket.
      destruct mo_names0. apply (Forall_forall plain_name (n_order ns)); [done|].
      rewrite no_order0. by eapply map_get_values.
    + intros name [c Hc]. unfold new_row in Hc. cbn [map_get] in Hc. case_decide; [by left|done].
Qed.

(** Writing a reading into the row of its bucket. *)
Lemma write_ok rs bs rows ns r row label name ns' :
  merge_ok used rs bs (map_set (rd_bucket r) row rows) ns -> plain_name label -> rd_bucket r ∈ bs ->
  name_series (rd_key r) label ns = (name, ns') ->
  merge_ok used (rs ++ [r]) bs (map_set (rd_bucket r) (row_set name (CNum (rd_value r)) row) rows) ns'.
Proof.
  intros [Hns Hrows Hbs Hread Hrow] Hlabel Hb E.
  destruct (name_series_ok _ _ _ _ _ _ _ Hns Hlabel E) as (Hns' & Hname & Hcase).
  assert (plain_name name) as Hplain.
  { apply (Forall_forall plain_name (n_order ns')); [apply Hns'|]. by eapply names_ok_order. }
  rewrite plain_row_set by done. constructor; [done| | | |].
  - revert Hrows. rewrite !map_set_keys. done.
  - intros b. rewrite <- Hbs, !elem_of_map_set_keys. done.
  - intros r' [Hr| ->%list_elem_of_singleton]%elem_of_app; [by apply Hread|done].
  - assert (forall b row0, map_get b (map_set (rd_bucket r) row rows) = Some row0 ->
      (forall key n, map_get key (n_byKey ns') = Some n -> n <> name ->
         map_get n row0 = option_map CNum (last_reading key b rs)) /\
      (forall n, is_Some (map_get n row0) -> n = lit "bucket" \/ n ∈ map_values (n_byKey ns')) /\
      (rd_bucket r <> b -> map_get name row0 = option_map CNum (last_reading (rd_key r) b rs))) as Hold.
    { intros b row0 H0. destruct (Hrow _ _ H0) as (_ & Hbucket & Hcells & Hown). destruct Hcase as [->|(Hnew & Hfresh & Eby)].
      { split_and!; [by intros; apply Hcells|done|by intros; apply Hcells]. }
      split_and!.
      - intros key n Hn Hne. apply Hcells. rewrite Eby in Hn. rewrite <- map_set_fresh in Hn by done.
        rewrite map_get_set in Hn. case_decide; [congruence|done].
      - intros n Hn. destruct (Hown n Hn) as [->|Hv]; [by left|right]. rewrite Eby. unfold map_values in *.
        rewrite List.map_app. set_solver.
      - intros Hne. rewrite last_reading_none_key.
        + destruct (map_get name row0) as [c|] eqn:Ec; [|done]. exfalso.
          destruct (Hown name) as [->|Hv]; [by eexists|by apply plain_not_bucket in Hplain|].
          apply Hfresh. rewrite (no_used _ _ _ Hns), (no_order _ _ _ Hns). set_solver.
        + intros r0 Hr0 Ekey. apply map_get_None_keys in Hnew. apply Hnew, (no_read _ _ _ Hns).
          by exists r0. }
    intros b row1. rewrite map_get_set. case_decide as H; [subst b; intros [= <-]|intros H1].
    + specialize (Hold (rd_bucket r) row (map_get_set_eq _ _ _)) as (Hcells & Hown & _).
      destruct (Hrow _ _ (map_get_set_eq (rd_bucket r) row rows)) as (Hnd & Hbucket & _).
      split_and!; [by apply map_set_NoDup| | |].
      * rewrite map_get_set_ne; [done|]. by apply plain_not_bucket.
      * intros key n Hn. rewrite map_get_set. case_decide as Hnn.
        -- subst n. assert (key = rd_key r) as ->.
           { eapply map_get_values_inj; [|done..]. rewrite <- (no_order _ _ _ Hns'). apply Hns'. }
           rewrite last_reading_snoc. unfold matches. by rewrite !bool_decide_eq_true_2.
        -- rewrite last_reading_other; [by apply Hcells|]. left. intros <-. congruence.
      * intros n. rewrite map_get_set. case_decide as Hnn; [|apply Hown]. subst n. intros _. right.
        by eapply map_get_values.
    + assert (map_get b (map_set (rd_bucket r) row rows) = Some row1) as H0
        by (by rewrite map_get_set_ne).
      specialize (Hold b row1 H0) as (Hcells & Hown & Hsame). destruct (Hrow _ _ H0) as (Hnd & Hbucket & _).
      split_and!; [done|done| |done]. intros key n Hn. rewrite last_reading_other by by right.
      destruct (decide (n = name)) as [->|Hne]; [|by apply Hcells].
      rewrite Hsame by done. f_equal. f_equal. symmetry. eapply map_get_values_inj; [|done..].
      rewrite <- (no_order _ _ _ Hns'). apply Hns'.
Qed.

Lemma merge_value_ok rs bs rows row ns r b e row' ns' :
  merge_ok used rs bs (map_set b row rows) ns -> b ∈ bs ->
  plain_name (series_label toLowerCase r (preferred_name displayNameById r) suffix singleQuery e.1) ->
  merge_value toLowerCase r (preferred_name displayNameById r) suffix singleQuery (row, ns) e = (row', ns') ->
  merge_ok used (rs ++ entry_readings r b e) bs (map_set b row' rows) ns'.
Proof.
  intros Hok Hb Hlabel. unfold merge_value, entry_readings. destruct (num_is_finite e.2).
  - destruct (name_series _ _ _) as [name ns1] eqn:E. intros [= <- <-].
    by apply (write_ok rs bs rows ns {| rd_key := _; rd_bucket := b; rd_value := e.2 |} row _ name ns1 Hok Hlabel).
  - intros [= <- <-]. by rewrite app_nil_r.
Qed.

Lemma merge_values_ok r b bs rows entries : forall rs row ns row' ns',
  merge_ok used rs bs (map_set b row rows) ns -> b ∈ bs ->
  (forall e, e ∈ entries ->
     plain_name (series_label toLowerCase r (preferred_name displayNameById r) suffix singleQuery e.1)) ->
  fold_left (merge_value toLowerCase r (preferred_name displayNameById r) suffix singleQuery) entries (row, ns) =
    (row', ns') ->
  merge_ok used (rs ++ flat_map (entry_readings r b) entries) bs (map_set b row' rows) ns'.
Proof.
  induction entries as [|e entries IH]; intros rs row ns row' ns' Hok Hb Hl; cbn [fold_left flat_map].
  - intros [= <- <-]. by rewrite app_nil_r.
  - destruct (merge_value _ _ _ _ _ (row, ns) e) as [row1 ns1] eqn:E. rewrite app_assoc. apply IH; [|done|].
    + eapply merge_value_ok; [done..| |done]. apply Hl. set_solver.
    + intros e' He'. apply Hl. set_solver.
Qed.

Lemma merge_points_ok r points : forall rs bs rows ns rows' ns',
  merge_ok used rs bs rows ns ->
  (forall p e, p ∈ points -> e ∈ tp_series p ->
     plain_name (series_label toLowerCase r (preferred_name displayNameById r) suffix singleQuery e.1)) ->
  fold_left (merge_point toLowerCase r (preferred_name displayNameById r) suffix singleQuery) points (rows, ns) =
    (rows', ns') ->
  merge_ok used (rs ++ flat_map (point_readings r) points) (bs ++ List.map tp_bucket points) rows' ns'.
Proof.
  induction points as [|p points IH]; intros rs bs rows ns rows' ns' Hok Hl; cbn [fold_left flat_map List.map].
  - intros [= <- <-]. by rewrite !app_nil_r.
  - unfold merge_point at 2.
    destruct (fold_left _ (tp_series p) _) as [row1 ns1] eqn:E. cbn zeta.
    rewrite app_assoc, cons_middle, app_assoc. apply IH.
    + eapply merge_values_ok; [by apply touch_ok|set_solver| |exact E]. intros e He. apply (Hl p); set_solver.
    + intros p' e Hp He. apply (Hl p'); set_solver.
Qed.

Lemma merge_results_ok results : forall rs bs rows ns rows' ns',
  merge_ok used rs bs rows ns -> labels_plain results ->
  fold_left (merge_result toLowerCase displayNameById suffix singleQuery) results (rows, ns) = (rows', ns') ->
  merge_ok used (rs ++ flat_map result_readings results) (bs ++ flat_map result_buckets results) rows' ns'.
Proof.
  induction results as [|r results IH]; intros rs bs rows ns rows' ns' Hok Hl; cbn [fold_left flat_map].
  - intros [= <- <-]. by rewrite !app_nil_r.
  - unfold merge_result at 2, result_readings at 1, result_buckets at 1.
    assert (labels_plain results) as Hl' by (intros r' p e Hr; apply Hl; set_solver).
    destruct (has_data r); [|by apply IH].
    destruct (fold_left _ (qr_data r) _) as [rows1 ns1] eqn:E. rewrite !app_assoc. apply IH; [|done].
    eapply merge_points_ok; [done| |exact E]. intros p e Hp He. apply (Hl r p e); set_solver.
Qed.

Lemma merge_start : merge_ok used [] [] [] {| n_byKey := []; n_order := []; n_used := used |}.
Proof.
  constructor; [constructor; cbn [n_byKey n_order n_used]| | | |]; try done; try apply NoDup_nil_2; try apply Forall_nil_2.
  - by rewrite app_nil_r.
  - by intros n ?%elem_of_nil.
  - intros key. split; [by intros ?%elem_of_nil|by intros (? & ?%elem_of_nil & _)].
  - by intros r ?%elem_of_nil.
Qed.

End Merged.

(** ** Zero filling *)

Lemma zero_fill_cons n names row :
  zero_fill (n :: names) row =
  zero_fill names match row_number n row with Some _ => row | None => row_set n (CNum num_zero) row end.
Proof. reflexivity. Qed.

Lemma zero_fill_other names row name :
  name ∉ names -> map_get name (zero_fill names row) = map_get name row.
Proof.
  revert row. induction names as [|n names IH]; intros row Hni; [done|].
  apply not_elem_of_cons in Hni as [Hn Hni]. rewrite zero_fill_cons, IH by done.
  destruct (row_number n row); [done|]. unfold row_set. case_bool_decide; [done|]. by rewrite map_get_set_ne.
Qed.

(** A column that has a number keeps it. *)
Lemma zero_fill_kept names row name x :
  row_number name row = Some x -> row_number name (zero_fill names row) = Some x.
Proof.
  revert row. induction names as [|n names IH]; intros row Hx; [done|]. rewrite zero_fill_cons. apply IH.
  destruct (row_number n row) eqn:En; [done|]. unfold row_set. case_bool_decide; [done|].
  unfold row_number. rewrite map_get_set_ne; [done|]. congruence.
Qed.

Lemma zero_fill_filled names row name :
  Forall plain_name names -> name ∈ names ->
  row_number name (zero_fill names row) = Some (default num_zero (row_number name row)).
Proof.
  revert row. induction names as [|n names IH]; intros row Hplain Hin; [by apply elem_of_nil in Hin|].
  apply Forall_cons in Hplain as [Hn Hplain]. rewrite zero_fill_cons.
  destruct (decide (name = n)) as [->|Hne].
  - apply zero_fill_kept. destruct (row_number n row) eqn:En; [done|].
    rewrite plain_row_set by done. unfold row_number. by rewrite map_get_set_eq.
  - rewrite IH; [|done|set_solver]. do 2 f_equal. destruct (row_number n row); [done|].
    rewrite plain_row_set by done. unfold row_number. by rewrite map_get_set_ne by done.
Qed.

Lemma zero_fill_NoDup names row : NoDup (map_keys row) -> NoDup (map_keys (zero_fill names row)).
Proof.
  revert row. induction names as [|n names IH]; intros row H; [done|]. rewrite zero_fill_cons. apply IH.
  destruct (row_number n row); [done|]. unfold row_set. case_bool_decide; [done|]. by apply map_set_NoDup.
Qed.

Lemma zero_fill_own names row name :
  is_Some (map_get name (zero_fill names row)) -> is_Some (map_get name row) \/ name ∈ names.
Proof.
  intros H. destruct (decide (name ∈ names)); [by right|left]. by rewrite zero_fill_other in H.
Qed.

(** ** The merged series *)

(** What the merge makes of the readings [rs] at the buckets [bs], when the
    names [used] are taken. *)
Record exact_merge (used : list text) (rs : list reading) (bs : list text) (m : MergedSeries) : Prop := {
  em_keys : NoDup (map_keys (seriesNameByStableKey m));
  em_order : seriesNames m = map_values (seriesNameByStableKey m);
  em_distinct : NoDup (seriesNames m);
  em_fresh : forall name, name ∈ seriesNames m -> name ∉ used;
  em_plain : Forall plain_name (seriesNames m);
  em_series : forall key, key ∈ map_keys (seriesNameByStableKey m) <-> exists r, r ∈ rs /\ rd_key r = key;
  em_rows : NoDup (map_keys (rowsByBucket m));
  em_buckets : forall b, b ∈ map_keys (rowsByBucket m) <-> b ∈ bs;
  em_read : forall r, r ∈ rs -> rd_bucket r ∈ bs;
  em_row : forall b row, map_get b (rowsByBucket m) = Some row ->
    NoDup (map_keys row) /\ map_get (lit "bucket") row = Some (CText b) /\
    (forall key name, map_get key (seriesNameByStableKey m) = Some name ->
       row_number name row = Some (default num_zero (last_reading key b rs))) /\
    (forall name, is_Some (map_get name row) -> name = lit "bucket" \/ name ∈ seriesNames m);
}.

Lemma map_get_map_values {K V W} `{!EqDecision K} (f : V -> W) (k : K) (m : jsmap K V) :
  map_get k (List.map (fun e => (e.1, f e.2)) m) = option_map f (map_get k m).
Proof. induction m as [|[k' v] m IH]; [done|]. cbn. by case_decide. Qed.

Lemma map_keys_map_values {K V W} (f : V -> W) (m : jsmap K V) :
  map_keys (List.map (fun e => (e.1, f e.2)) m) = map_keys m.
Proof. unfold map_keys. rewrite List.map_map. by apply List.map_ext. Qed.

Section Exact.
Context (toLowerCase : text -> text) (displayNameById : jsmap text text) (suffix : text) (used : list text).

Definition single_query (results : list QueryRunResult) : bool := (countSuccessfulQuerySeries results <=? 1)%nat.

(** The readings and buckets of a set of results. *)
Definition set_readings (results : list QueryRunResult) : list reading :=
  flat_map (result_readings toLowerCase displayNameById (single_query results)) results.

Definition set_labels_plain (results : list QueryRunResult) : Prop :=
  labels_plain toLowerCase displayNameById suffix (single_query results) results.

Lemma merge_is_exact results m used' :
  set_labels_plain results ->
  mergeQueryRunResults toLowerCase results displayNameById suffix used = (m, used') ->
  exact_merge used (set_readings results) (flat_map result_buckets results) m /\ used' = used ++ seriesNames m.
Proof.
  intros Hl. unfold mergeQueryRunResults. fold (single_query results).
  destruct (fold_left _ results _) as [rows ns] eqn:E. intros [= <- <-].
  pose proof (merge_results_ok _ _ _ _ used _ _ _ _ _ _ _ (merge_start used) Hl E) as [Hn Hrows Hbs Hread Hrow].
  cbn [app] in *. fold (set_readings results) in *. split; [|apply Hn].
  constructor; cbn [rowsByBucket seriesNameByStableKey seriesNames]; try apply Hn.
  - by rewrite map_keys_map_values.
  - intros b. by rewrite map_keys_map_values.
  - done.
  - intros b row. rewrite map_get_map_values. destruct (map_get b rows) as [row0|] eqn:Eb; [|done].
    intros [= <-]. destruct (Hrow _ _ Eb) as (Hnd & Hbucket & Hcells & Hown).
    split_and!; [by apply zero_fill_NoDup| | |].
    + rewrite zero_fill_other; [done|]. intros Hin. eapply (plain_not_bucket (lit "bucket")); [|done].
      by apply (Forall_forall plain_name (n_order ns)); [apply Hn|].
    + intros key name Hk. rewrite zero_fill_filled; [|apply Hn|by eapply names_ok_order].
      unfold row_number. rewrite (Hcells _ _ Hk). by destruct (last_reading key b (set_readings results)).
    + intros name [H|H]%zero_fill_own; [|by right]. destruct (Hown name H) as [->|Hv]; [by left|right].
      by rewrite (no_order _ _ _ Hn).
Qed.
End Exact.
