(* ===== verification/QueryRows.v ===== *)
(** * The rows of a chart

    [combineRows] over the current window and, when there is one, the previous
    window, and the percent change columns: every cell of every row. *)

From Stdlib Require Import Ascii String.
From stdpp Require Import prelude list.
From Stdlib Require Import ZArith Lia Sorting.Sorted Floats.SpecFloat.
From S2P Require Import Prelude.
From S2P Require Import JsNum.
From S2P Require Import JsString.
From S2P Require Import IngestSha256.
From S2P Require Import IngestRegex.
From S2P Require Import JsUnits.
From S2P Require Import Formula.
From S2P Require Import QuerySeries.
From S2P Require Import QueryMerge.

Open Scope Z_scope.
Local Open Scope maple_scope.

(** ** Spreading rows *)

Lemma spread_get row : forall existing name, NoDup (map_keys row) ->
  map_get name (spread existing row) =
  match map_get name row with Some c => Some c | None => map_get name existing end.
Proof.
  unfold spread, map_keys. induction row as [|[n c] row IH]; intros existing name Hnd; [done|].
  cbn [fold_left map_get fst snd List.map] in *. apply NoDup_cons in Hnd as [Hni Hnd]. rewrite IH by done.
  destruct (decide (name = n)) as [->|Hne]; [|by rewrite map_get_set_ne].
  rewrite map_get_set_eq. destruct (map_get n row) eqn:E; [|done]. exfalso. apply Hni.
  apply map_get_Some_keys. by rewrite E.
Qed.

Lemma spread_NoDup row : forall existing, NoDup (map_keys existing) -> NoDup (map_keys (spread existing row)).
Proof.
  unfold spread. induction row as [|[n c] row IH]; intros existing H; [done|]. cbn. apply IH. by apply map_set_NoDup.
Qed.

Definition add_row (rows : jsmap text Row) (e : text * Row) : jsmap text Row :=
  map_set e.1 (spread (row_of e.1 rows) e.2) rows.

Lemma add_rows_get entries : forall rows b, NoDup (map_keys entries) ->
  map_get b (fold_left add_row entries rows) =
  match map_get b entries with Some row => Some (spread (row_of b rows) row) | None => map_get b rows end.
Proof.
  unfold map_keys. induction entries as [|[b0 row0] entries IH]; intros rows b Hnd; [done|].
  cbn [fold_left map_get fst snd List.map] in *. apply NoDup_cons in Hnd as [Hni Hnd]. rewrite IH by done.
  unfold add_row at 1. cbn [fst snd]. destruct (decide (b = b0)) as [->|Hne].
  - destruct (map_get b0 entries) eqn:E; [exfalso; apply Hni, map_get_Some_keys; by rewrite E|].
    apply map_get_set_eq.
  - unfold row_of, add_row. cbn [fst snd]. by rewrite !map_get_set_ne.
Qed.

Lemma add_rows_NoDup entries : forall rows, NoDup (map_keys rows) -> NoDup (map_keys (fold_left add_row entries rows)).
Proof.
  induction entries as [|e entries IH]; intros rows H; [done|]. cbn. apply IH. by apply map_set_NoDup.
Qed.

(** ** Two windows *)

(** The series of a window that was not asked for. *)
Definition no_series : MergedSeries := {| rowsByBucket := []; seriesNameByStableKey := []; seriesNames := [] |}.

Lemma no_series_exact used : exact_merge used [] [] no_series.
Proof.
  constructor; cbn; try done; try apply NoDup_nil_2; try apply Forall_nil_2.
  - by intros n ?%elem_of_nil.
  - intros key. split; [by intros ?%elem_of_nil|by intros (? & ?%elem_of_nil & _)].
  - by intros r ?%elem_of_nil.
Qed.

Lemma exact_names_NoDup used rs bs m : exact_merge used rs bs m -> NoDup (seriesNames m).
Proof. by intros []. Qed.

Lemma elem_of_set_adds l : forall acc n,
  n ∈ fold_left (fun acc n => set_add n acc) l acc <-> n ∈ acc \/ n ∈ l.
Proof.
  induction l as [|x l IH]; intros acc n; cbn; [set_solver|]. rewrite IH. unfold set_add.
  case_bool_decide; set_solver.
Qed.

Lemma elem_of_all_series_names ms n : n ∈ all_series_names ms <-> exists m, m ∈ ms /\ n ∈ seriesNames m.
Proof.
  unfold all_series_names. enough (forall acc, n ∈ fold_left (fun acc m => fold_left (fun acc n => set_add n acc)
    (seriesNames m) acc) ms acc <-> n ∈ acc \/ exists m, m ∈ ms /\ n ∈ seriesNames m) as H.
  { rewrite H. split; [by intros [?%elem_of_nil|]|by right]. }
  induction ms as [|m ms IH]; intros acc; cbn; [set_solver|]. rewrite IH, elem_of_set_adds. set_solver.
Qed.

(** The value of a series at a bucket. *)
Definition series_value (key bucket : text) (rs : list reading) : num := default num_zero (last_reading key bucket rs).

(** A table of rows that shows [rs1] in the columns [names1] and [rs2] in the
    columns [names2], and nothing else. *)
Record shows (rs1 rs2 : list reading) (names1 names2 : jsmap text text) (b : text) (row : Row) : Prop := {
  sh_bucket : map_get (lit "bucket") row = Some (CText b);
  sh_first : forall key name, map_get key names1 = Some name -> row_number name row = Some (series_value key b rs1);
  sh_second : forall key name, map_get key names2 = Some name -> row_number name row = Some (series_value key b rs2);
  sh_own : forall name, is_Some (map_get name row) ->
    name = lit "bucket" \/ name ∈ map_values names1 \/ name ∈ map_values names2;
}.

Section TwoWindows.
Context (rs1 rs2 : list reading) (bs1 bs2 : list text) (m1 m2 : MergedSeries).
Hypothesis exact1 : exact_merge [] rs1 bs1 m1.
Hypothesis exact2 : exact_merge (seriesNames m1) rs2 bs2 m2.

Let table : jsmap text Row := combined_rows [m1; m2].

Lemma table_get b :
  map_get b table =
  let row1 := option_map (spread (new_row b)) (map_get b (rowsByBucket m1)) in
  match map_get b (rowsByBucket m2) with
  | Some row2 => Some (spread (default (new_row b) row1) row2)
  | None => row1
  end.
Proof using exact1 exact2.
  unfold table, combined_rows. cbn [fold_left].
  change (fun (rows : jsmap text Row) (e : text * Row) => map_set e.1 (spread (row_of e.1 rows) e.2) rows) with add_row.
  assert (map_get b (fold_left add_row (rowsByBucket m1) []) =
          option_map (spread (new_row b)) (map_get b (rowsByBucket m1))) as E1
    by (rewrite add_rows_get by apply exact1; by destruct (map_get b (rowsByBucket m1))).
  rewrite add_rows_get by apply exact2. unfold row_of. rewrite E1. by destruct (map_get b (rowsByBucket m2)).
Qed.

Lemma table_NoDup : NoDup (map_keys table).
Proof using. unfold table, combined_rows. cbn [fold_left]. apply add_rows_NoDup, add_rows_NoDup, NoDup_nil_2. Qed.

Lemma table_buckets b : b ∈ map_keys table <-> b ∈ bs1 \/ b ∈ bs2.
Proof using exact1 exact2.
  rewrite <- (em_buckets _ _ _ _ exact1), <- (em_buckets _ _ _ _ exact2), <- !map_get_Some_keys, table_get.
  destruct (map_get b (rowsByBucket m1)), (map_get b (rowsByBucket m2)); cbn; split; intros; try by eauto.
  - destruct H as [[? H]|[? H]]; done.
Qed.

(** A cell of the combined row comes from the window whose column it is. *)
Lemma table_cell b row name : map_get b table = Some row ->
  map_get name row =
  match map_get b (rowsByBucket m2) ≫= map_get name with
  | Some c => Some c
  | None => match map_get b (rowsByBucket m1) ≫= map_get name with
            | Some c => Some c
            | None => map_get name (new_row b)
            end
  end.
Proof using exact1 exact2.
  rewrite table_get. destruct (map_get b (rowsByBucket m2)) as [row2|] eqn:E2,
    (map_get b (rowsByBucket m1)) as [row1|] eqn:E1; cbn [option_map default mbind option_bind]; intros [= <-].
  - rewrite !spread_get; [done|apply (em_row _ _ _ _ exact1 _ _ E1)|apply (em_row _ _ _ _ exact2 _ _ E2)].
  - rewrite !spread_get; [done|apply (em_row _ _ _ _ exact2 _ _ E2)].
  - rewrite !spread_get; [done|apply (em_row _ _ _ _ exact1 _ _ E1)].
Qed.

(** The number a window's own row has in one of its columns, zero without a
    row. *)
Lemma window_number used rs bs m b key name :
  exact_merge used rs bs m -> map_get key (seriesNameByStableKey m) = Some name ->
  match map_get b (rowsByBucket m) with
  | Some row => row_number name row = Some (series_value key b rs)
  | None => series_value key b rs = num_zero
  end.
Proof using.
  intros Hm Hk. destruct (map_get b (rowsByBucket m)) as [row|] eqn:E.
  - by apply (em_row _ _ _ _ Hm).
  - unfold series_value. rewrite last_reading_none; [done|]. intros r Hr <-.
    apply map_get_None_keys in E. by apply E, (em_buckets _ _ _ _ Hm), (em_read _ _ _ _ Hm).
Qed.

Lemma column_name_of used rs bs m key name :
  exact_merge used rs bs m -> map_get key (seriesNameByStableKey m) = Some name ->
  name ∈ seriesNames m /\ plain_name name.
Proof using.
  intros Hm Hk. assert (name ∈ seriesNames m) as Hin by (rewrite (em_order _ _ _ _ Hm); by eapply map_get_values).
  split; [done|]. by apply (Forall_forall plain_name (seriesNames m)); [apply Hm|].
Qed.

(** A window's row has its bucket and its columns, no column of another
    window. *)
Lemma owned used rs bs m b name :
  exact_merge used rs bs m -> is_Some (map_get b (rowsByBucket m) ≫= map_get name) ->
  name = lit "bucket" \/ name ∈ seriesNames m.
Proof using.
  intros Hm. destruct (map_get b (rowsByBucket m)) as [row|] eqn:E; [|by intros []].
  apply (em_row _ _ _ _ Hm _ _ E).
Qed.

Lemma not_owned used rs bs m b name :
  exact_merge used rs bs m -> plain_name name -> name ∉ seriesNames m ->
  map_get b (rowsByBucket m) ≫= map_get name = None.
Proof using.
  intros Hm Hp Hni. apply eq_None_not_Some. intros [->|H]%(owned _ _ _ _ _ _ Hm); [by apply plain_not_bucket in Hp|done].
Qed.

Lemma new_row_plain b name : plain_name name -> map_get name (new_row b) = None.
Proof using. intros H. unfold new_row. cbn [map_get]. rewrite decide_False; [done|]. by apply plain_not_bucket. Qed.

(** The number of a column before the zero fill. *)
Lemma table_first b row key name : map_get b table = Some row ->
  map_get key (seriesNameByStableKey m1) = Some name -> default num_zero (row_number name row) = series_value key b rs1.
Proof using exact1 exact2.
  intros Hrow Hk. destruct (column_name_of _ _ _ _ _ _ exact1 Hk) as [Hin Hp].
  unfold row_number. rewrite (table_cell b row) by done. rewrite (not_owned _ _ _ _ b name exact2 Hp)
    by (intros H; by apply (em_fresh _ _ _ _ exact2) in H).
  pose proof (window_number _ _ _ _ b _ _ exact1 Hk) as Hw. destruct (map_get b (rowsByBucket m1)) as [row1|]; cbn [mbind option_bind].
  - unfold row_number in Hw. by destruct (map_get name row1) as [[]|]; [|injection Hw as ->|].
  - by rewrite new_row_plain.
Qed.

Lemma table_second b row key name : map_get b table = Some row ->
  map_get key (seriesNameByStableKey m2) = Some name -> default num_zero (row_number name row) = series_value key b rs2.
Proof using exact1 exact2.
  intros Hrow Hk. destruct (column_name_of _ _ _ _ _ _ exact2 Hk) as [Hin Hp].
  unfold row_number. rewrite (table_cell b row) by done.
  pose proof (window_number _ _ _ _ b _ _ exact2 Hk) as Hw. destruct (map_get b (rowsByBucket m2)) as [row2|]; cbn [mbind option_bind].
  - unfold row_number in Hw. by destruct (map_get name row2) as [[]|]; [|injection Hw as ->|].
  - pose proof (not_owned _ _ _ _ b name exact1 Hp (em_fresh _ _ _ _ exact2 _ Hin)) as ->.
    by rewrite new_row_plain.
Qed.

Lemma table_bucket b row : map_get b table = Some row -> map_get (lit "bucket") row = Some (CText b).
Proof using exact1 exact2.
  intros Hrow. rewrite (table_cell b row) by done.
  assert (forall used rs bs m, exact_merge used rs bs m ->
    match map_get b (rowsByBucket m) ≫= map_get (lit "bucket") with Some c => c = CText b | None => True end) as H.
  { intros used rs bs m Hm. destruct (map_get b (rowsByBucket m)) as [row0|] eqn:E; [|done]. cbn [mbind option_bind].
    destruct (em_row _ _ _ _ Hm _ _ E) as (_ & -> & _). done. }
  pose proof (H _ _ _ _ exact1) as H1. pose proof (H _ _ _ _ exact2) as H2.
  destruct (map_get b (rowsByBucket m2) ≫= map_get (lit "bucket")); [by subst|].
  destruct (map_get b (rowsByBucket m1) ≫= map_get (lit "bucket")); [by subst|].
  reflexivity.
Qed.

Lemma all_names_plain : Forall plain_name (all_series_names [m1; m2]).
Proof using exact1 exact2.
  apply Forall_forall. intros n (m & Hm & Hn)%elem_of_all_series_names.
  rewrite !elem_of_cons, elem_of_nil in Hm. destruct Hm as [->|[->|[]]].
  - apply (Forall_forall plain_name (seriesNames m1)); [apply exact1|done].
  - apply (Forall_forall plain_name (seriesNames m2)); [apply exact2|done].
Qed.

(** The filled row of a bucket. *)
Lemma filled_row_shows b row : map_get b table = Some row ->
  shows rs1 rs2 (seriesNameByStableKey m1) (seriesNameByStableKey m2) b (zero_fill (all_series_names [m1; m2]) row).
Proof using exact1 exact2.
  intros Hrow. pose proof all_names_plain as Hplain.
  assert (forall m name, m ∈ [m1; m2] -> name ∈ seriesNames m -> name ∈ all_series_names [m1; m2]) as Hall
    by (intros m name Hm Hn; apply elem_of_all_series_names; by exists m).
  constructor.
  - rewrite zero_fill_other; [by apply table_bucket|]. intros Hin. eapply (plain_not_bucket (lit "bucket")); [|done].
    by apply (Forall_forall plain_name (all_series_names [m1; m2])).
  - intros key name Hk. destruct (column_name_of _ _ _ _ _ _ exact1 Hk) as [Hin _].
    rewrite zero_fill_filled; [by rewrite (table_first b row key)|done|]. apply (Hall m1); set_solver.
  - intros key name Hk. destruct (column_name_of _ _ _ _ _ _ exact2 Hk) as [Hin _].
    rewrite zero_fill_filled; [by rewrite (table_second b row key)|done|]. apply (Hall m2); set_solver.
  - rewrite <- (em_order _ _ _ _ exact1), <- (em_order _ _ _ _ exact2).
    intros name [H|H]%zero_fill_own; [|apply elem_of_all_series_names in H as (m & Hm & Hn); set_solver].
    rewrite (table_cell b row) in H by done.
    pose proof (owned _ _ _ _ b name exact1) as H1. pose proof (owned _ _ _ _ b name exact2) as H2.
    destruct (map_get b (rowsByBucket m2) ≫= map_get name); [destruct H2; [by eexists|by auto..]|].
    destruct (map_get b (rowsByBucket m1) ≫= map_get name); [destruct H1; [by eexists|by auto..]|].
    left. unfold new_row in H. cbn [map_get] in H. case_decide as Hd; [done|by destruct H].
Qed.
End TwoWindows.

(** ** The combined rows *)

(** The rows of a chart: in the order of their buckets, one per bucket of [bs],
    each as [P] says. *)
Record row_table (cmp : Row -> Row -> Z) (bs : list text) (P : text -> Row -> Prop) (rows : list Row) : Prop := {
  rt_sorted : StronglySorted (fun l r => cmp l r <= 0) rows;
  rt_buckets : exists buckets, NoDup buckets /\ (forall b, b ∈ buckets <-> b ∈ bs) /\
    Permutation (List.map (map_get (lit "bucket")) rows) (List.map (fun b => Some (CText b)) buckets);
  rt_rows : forall row, row ∈ rows -> exists b, b ∈ bs /\ P b row;
}.

Lemma row_table_impl cmp bs (P Q : text -> Row -> Prop) rows :
  row_table cmp bs P rows -> (forall b row, P b row -> Q b row) -> row_table cmp bs Q rows.
Proof.
  intros [Hs Hb Hr] H. constructor; [done|done|]. intros row Hrow. destruct (Hr row Hrow) as (b & Hin & HP). eauto.
Qed.

Section Rows.
Context (localeCompare : text -> text -> Z) (String_ : num -> text) `{!Comparator localeCompare}.

Definition row_order (l r : Row) : Z := localeCompare (bucket_text String_ l) (bucket_text String_ r).

#[export] Instance row_order_comparator : Comparator row_order.
Proof using Comparator0.
  split; unfold row_order; intros; [apply cmp_total|]. by eapply (cmp_trans _ (bucket_text String_ b)).
Qed.

Lemma combined_rows_exact rs1 rs2 bs1 bs2 m1 m2 :
  exact_merge [] rs1 bs1 m1 -> exact_merge (seriesNames m1) rs2 bs2 m2 ->
  row_table row_order (bs1 ++ bs2) (shows rs1 rs2 (seriesNameByStableKey m1) (seriesNameByStableKey m2))
    (combineRows localeCompare String_ [m1; m2]).
Proof using Comparator0.
  intros H1 H2. set (table := combined_rows [m1; m2]). set (fill := zero_fill (all_series_names [m1; m2])).
  assert (forall e, e ∈ table -> shows rs1 rs2 (seriesNameByStableKey m1) (seriesNameByStableKey m2) e.1 (fill e.2))
    as Hshow.
  { intros [b row] He. apply (filled_row_shows _ _ bs1 bs2); [done..|].
    apply elem_of_map_get; [apply table_NoDup|done]. }
  constructor.
  - apply js_sort_sorted. apply _.
  - exists (map_keys table). split_and!; [apply table_NoDup| |].
    + intros b. rewrite elem_of_app. by apply (table_buckets rs1 rs2).
    + unfold combineRows. fold row_order. rewrite (js_sort_perm row_order). fold table.
      unfold map_keys. rewrite !List.map_map. erewrite List.map_ext_in; [done|]. intros e He.
      apply list_elem_of_In in He. by destruct (Hshow e He).
  - intros row Hrow. unfold combineRows in Hrow. apply elem_of_js_sort, list_elem_of_In, List.in_map_iff in Hrow.
    destruct Hrow as (e & <- & He). apply list_elem_of_In in He. exists e.1. split; [|by apply Hshow].
    rewrite elem_of_app. apply (table_buckets rs1 rs2 _ _ m1 m2 H1 H2). apply list_elem_of_In, List.in_map_iff.
    exists e. by rewrite <- list_elem_of_In.
Qed.

(** One window alone. *)
Lemma combine_one m : combineRows localeCompare String_ [m] = combineRows localeCompare String_ [m; no_series].
Proof using. reflexivity. Qed.

(** Changing rows but for their buckets. *)
Lemma row_table_map bs P Q f rows :
  row_table row_order bs P rows ->
  (forall b row, P b row -> Q b (f row) /\ map_get (lit "bucket") (f row) = map_get (lit "bucket") row) ->
  row_table row_order bs Q (List.map f rows).
Proof using Comparator0.
  intros [Hsorted (buckets & Hnd & Hbs & Hperm) Hrows] Hf.
  assert (forall row, row ∈ rows -> map_get (lit "bucket") (f row) = map_get (lit "bucket") row) as Hb.
  { intros row Hrow. destruct (Hrows row Hrow) as (b & _ & HP). by apply (Hf b). }
  constructor.
  - clear Hperm Hrows. induction Hsorted as [|row rows Hs IH Hrow]; [constructor|].
    constructor; [apply IH; intros; apply Hb; set_solver|]. apply Forall_forall.
    intros r (r0 & -> & Hr0)%list_elem_of_fmap. rewrite Forall_forall in Hrow. specialize (Hrow r0 Hr0).
    unfold row_order, bucket_text in *. by rewrite !Hb by set_solver.
  - exists buckets. split_and!; [done|done|]. rewrite List.map_map. erewrite List.map_ext_in; [exact Hperm|].
    intros row Hrow. apply Hb. by apply list_elem_of_In.
  - intros r (r0 & -> & Hr0)%list_elem_of_fmap. destruct (Hrows r0 Hr0) as (b & Hin & HP). exists b.
    split; [done|]. by apply Hf.
Qed.
End Rows.
