(* ===== verification/QueryRunner.v ===== *)
(** * Running a query set

    packages/query-engine/src/query-set: bucket widths and the ladder of wider
    windows (bucketing.ts, wire-strategy.ts), running every query of a set over
    one window (window.ts), the chart of a set with its comparison period
    (timeseries.ts), breakdowns and lists, and the dispatch between the three.

    The host's executor, the lowering of a draft to a query specification and
    the printing of numbers are arguments. Queries run concurrently: their
    results are in the order of the set whatever finishes first, while the
    diagnostics are in the order of completion, which is an argument too. *)

From Stdlib Require Import Ascii String.
From stdpp Require Import prelude list.
From Stdlib Require Import ZArith Lia Floats.SpecFloat.
From S2P Require Import Prelude.
From S2P Require Import JsNum.
From S2P Require Import JsString.
From S2P Require Import WarehouseTime.
From S2P Require Import QueryWindow.
From S2P Require Import IngestSha256.
From S2P Require Import IngestRegex.
From S2P Require Import JsUnits.
From S2P Require Import Formula.
From S2P Require Import QuerySeries.

Open Scope Z_scope.
Local Open Scope maple_scope.

(** ** Windows *)

Inductive window_kind := primary | fallback.

#[export] Instance window_kind_eq_dec : EqDecision window_kind.
Proof. solve_decision. Defined.

Record ExecutionWindow := { ew_startTime : string; ew_endTime : string; ew_kind : window_kind }.

(** Seconds are whole numbers. *)
Record EmptyRangeFallbackStrategy := {
  fs_enabled : bool;
  fs_windowSeconds : list Z;
  fs_maxRangeSeconds : Z;
}.

Definition NO_EMPTY_RANGE_FALLBACK : EmptyRangeFallbackStrategy :=
  {| fs_enabled := false; fs_windowSeconds := []; fs_maxRangeSeconds := 0 |}.

Definition LAB_EMPTY_RANGE_STRATEGY : EmptyRangeFallbackStrategy :=
  {| fs_enabled := true; fs_windowSeconds := [24 * 60 * 60; 7 * 24 * 60 * 60; 31 * 24 * 60 * 60];
     fs_maxRangeSeconds := 31 * 24 * 60 * 60 |}.

(** [None] among the given seconds is a number that is not finite. *)
Definition resolveFallbackStrategy (enabled : option bool) (windowSeconds : option (list (option Z)))
    (maxRangeSeconds : option Z) (base : EmptyRangeFallbackStrategy) : EmptyRangeFallbackStrategy :=
  let given := default (List.map Some (fs_windowSeconds base)) windowSeconds in
  let uniqueWindows := dedupe (List.filter (fun seconds => 0 <? seconds) (omap id given)) in
  {| fs_enabled := default (fs_enabled base) enabled;
     fs_windowSeconds := js_sort (fun left right => left - right) uniqueWindows;
     fs_maxRangeSeconds := default (fs_maxRangeSeconds base) maxRangeSeconds |}.

(** The strategy of a request, on top of the lab ladder. *)
Record WireFallbackStrategy := {
  wf_enableEmptyRangeFallback : option bool;
  wf_fallbackWindowSeconds : option (list (option Z));
  wf_maxFallbackRangeSeconds : option Z;
}.

Definition fallbackStrategyFromWire (strategy : option WireFallbackStrategy) (base : EmptyRangeFallbackStrategy) :
    EmptyRangeFallbackStrategy :=
  resolveFallbackStrategy (s ← strategy; wf_enableEmptyRangeFallback s) (s ← strategy; wf_fallbackWindowSeconds s)
    (s ← strategy; wf_maxFallbackRangeSeconds s) base.

(** ** Specifications and results *)

(** A timeseries specification with its bucket width, or another one; [S] is
    the rest of a specification. *)
Inductive QuerySpec (S : Type) :=
  | SpecTimeseries (bucketSeconds : option Z) (rest : S)
  | SpecOther (rest : S).
Arguments SpecTimeseries {S} _ _.
Arguments SpecOther {S} _.

Record QuerySetExecuteRequest (S : Type) := { er_startTime : string; er_endTime : string; er_query : QuerySpec S }.
Arguments er_startTime {S} _.
Arguments er_endTime {S} _.
Arguments er_query {S} _.

(** A result by its kind; [L] is the type of a list row. *)
Inductive QueryEngineResult (L : Type) :=
  | RTimeseries (data : list TimeseriesPoint)
  | RBreakdown (data : list (text * num))
  | RList (data : list L)
  | ROther (kind : text).
Arguments RTimeseries {L} _.
Arguments RBreakdown {L} _.
Arguments RList {L} _.
Arguments ROther {L} _.

Definition result_kind {L} (r : QueryEngineResult L) : text :=
  match r with
  | RTimeseries _ => lit "timeseries"
  | RBreakdown _ => lit "breakdown"
  | RList _ => lit "list"
  | ROther kind => kind
  end.

Record BuildSpecResult (S : Type) := {
  bs_query : option (QuerySpec S);
  bs_warnings : list text;
  bs_error : option text;
}.
Arguments bs_query {S} _.
Arguments bs_warnings {S} _.
Arguments bs_error {S} _.

(** What the runner needs from a host. *)
Record QuerySetExecutor (S L E : Type) := {
  execute : QuerySetExecuteRequest S -> result E (QueryEngineResult L);
  describeError : E -> text;
}.
Arguments execute {S L E} _ _.
Arguments describeError {S L E} _ _.

Inductive QuerySetError (E : Type) :=
  | QuerySetInputError (operation message : text)
  | QuerySetNoDataError (message : text) (details : list text)
  | ExecutorError (error : E).
Arguments QuerySetInputError {E} _ _.
Arguments QuerySetNoDataError {E} _ _.
Arguments ExecutorError {E} _.

Definition NO_QUERY_DATA_MESSAGE : text := lit "No query data found in selected time range".

Section Runner.
Context {S L E : Type}.
Context (date_parse : string -> option Z).

(** ** Bucket widths *)

(** [maxDataPoints] of the options; the search for a width always ends
    ([auto_width_found]). *)
Definition autoBucketSeconds (startTime endTime : string) (maxDataPoints : option Z) : Z :=
  match maxDataPoints with
  | None => computeBucketSecondsForRange date_parse (Some startTime) (Some endTime) chart None
  | Some points => default 0 (computeBucketSecondsForWidthRange date_parse (Some startTime) (Some endTime) points 6)
  end.

Definition resolveTimeseriesBucketSpec (spec : QuerySpec S) (startTime endTime : string) (maxDataPoints : option Z) :
    QuerySpec S :=
  match spec with
  | SpecTimeseries bucketSeconds rest =>
      match bucketSeconds with
      | None | Some 0 => SpecTimeseries (Some (autoBucketSeconds startTime endTime maxDataPoints)) rest
      | Some _ => spec
      end
  | SpecOther _ => spec
  end.

Definition resolveExecutionSpecForWindow (spec : QuerySpec S) (window : ExecutionWindow) (maxDataPoints : option Z) :
    QuerySpec S :=
  match resolveTimeseriesBucketSpec spec (ew_startTime window) (ew_endTime window) maxDataPoints with
  | SpecTimeseries bucketSeconds rest as resolved =>
      match ew_kind window with
      | primary => resolved
      | fallback =>
          let windowAuto := autoBucketSeconds (ew_startTime window) (ew_endTime window) maxDataPoints in
          SpecTimeseries (Some (Z.max (default windowAuto bucketSeconds) windowAuto)) rest
      end
  | resolved => resolved
  end.

(** A window [seconds] long that ends where the requested one ends. *)
Definition rung_window (endMs seconds : Z) : ExecutionWindow :=
  {| ew_startTime := formatWarehouseDateTime (endMs - seconds * 1000); ew_endTime := formatWarehouseDateTime endMs;
     ew_kind := fallback |}.

(** The key of a window. *)
Definition span_of (w : ExecutionWindow) : string * string := (ew_startTime w, ew_endTime w).

(** The rungs of the ladder that widen the window; [seen] holds the windows so
    far. *)
Fixpoint wider_windows (endMs rangeMs maxRangeSeconds : Z) (seen : list (string * string)) (rungs : list Z) :
    list ExecutionWindow :=
  match rungs with
  | [] => []
  | seconds :: rungs' =>
      if (seconds * 1000 <=? rangeMs) || (maxRangeSeconds <? seconds) then
        wider_windows endMs rangeMs maxRangeSeconds seen rungs'
      else
        let window := rung_window endMs seconds in
        if bool_decide (span_of window ∈ seen) then wider_windows endMs rangeMs maxRangeSeconds seen rungs'
        else window :: wider_windows endMs rangeMs maxRangeSeconds (span_of window :: seen) rungs'
  end.

Definition buildExecutionWindows (startTime endTime : string) (strategy : EmptyRangeFallbackStrategy)
    (allowFallback : bool) : list ExecutionWindow :=
  let requested := {| ew_startTime := startTime; ew_endTime := endTime; ew_kind := primary |} in
  match parseWarehouseDateTime date_parse startTime, parseWarehouseDateTime date_parse endTime with
  | Some startMs, Some endMs =>
      if endMs <=? startMs then [requested]
      else if negb allowFallback || negb (fs_enabled strategy) then [requested]
      else requested :: wider_windows endMs (Z.max (endMs - startMs) 1000) (fs_maxRangeSeconds strategy)
                          [(startTime, endTime)] (fs_windowSeconds strategy)
  | _, _ => [requested]
  end.

(** ** One window *)

Record QuerySetAttempt := {
  at_startTime : string;
  at_endTime : string;
  at_kind : window_kind;
  at_points : nat;
  at_hasSeries : bool;
  at_error : option text;
}.

Record WindowedExecution := {
  we_points : list TimeseriesPoint;
  we_attempts : list QuerySetAttempt;
  we_fallbackUsed : bool;
}.

Definition attempt (w : ExecutionWindow) (points : nat) (hasSeries : bool) (error : option text) : QuerySetAttempt :=
  {| at_startTime := ew_startTime w; at_endTime := ew_endTime w; at_kind := ew_kind w; at_points := points;
     at_hasSeries := hasSeries; at_error := error |}.

Context (executor : QuerySetExecutor S L E).

Definition window_request (spec : QuerySpec S) (maxDataPoints : option Z) (w : ExecutionWindow) :
    QuerySetExecuteRequest S :=
  {| er_startTime := ew_startTime w; er_endTime := ew_endTime w;
     er_query := resolveExecutionSpecForWindow spec w maxDataPoints |}.

Definition timeseries_points (r : QueryEngineResult L) : list TimeseriesPoint :=
  match r with RTimeseries data => data | _ => [] end.

Fixpoint tryWindow (spec : QuerySpec S) (maxDataPoints : option Z) (windows : list ExecutionWindow) (index : nat)
    (attempts : list QuerySetAttempt) (lastPoints : list TimeseriesPoint) : result E WindowedExecution :=
  match windows with
  | [] => Ok {| we_points := lastPoints; we_attempts := attempts; we_fallbackUsed := false |}
  | window :: windows' =>
      match execute executor (window_request spec maxDataPoints window) with
      | Err error =>
          match ew_kind window with
          | primary => Err error
          | fallback =>
              tryWindow spec maxDataPoints windows' (1 + index)
                (attempts ++ [attempt window 0 false (Some (describeError executor error))]) lastPoints
          end
      | Ok r =>
          let points := timeseries_points r in
          let hasSeries := hasAnySeriesData points in
          let next := attempts ++ [attempt window (length points) hasSeries None] in
          if hasSeries then
            Ok {| we_points := points; we_attempts := next; we_fallbackUsed := (0 <? Z.of_nat index) |}
          else tryWindow spec maxDataPoints windows' (1 + index) next points
      end
  end.

Definition executeWithFallback (startTime endTime : string) (spec : QuerySpec S)
    (strategy : EmptyRangeFallbackStrategy) (allowFallback : bool) (maxDataPoints : option Z) :
    result E WindowedExecution :=
  tryWindow spec maxDataPoints (buildExecutionWindows startTime endTime strategy allowFallback) 0 [] [].

Record QuerySetQueryDiagnostics := {
  dg_queryId : text;
  dg_queryName : text;
  dg_source : text;
  dg_spec : option (QuerySpec S);
  dg_attempts : list QuerySetAttempt;
  dg_fallbackUsed : bool;
}.

Record QuerySetWindowResult := {
  wr_queryResults : list QueryRunResult;
  wr_formulaResults : list QueryRunResult;
  wr_diagnostics : list QuerySetQueryDiagnostics;
}.

Definition allResults (w : QuerySetWindowResult) : list QueryRunResult := wr_queryResults w ++ wr_formulaResults w.

Definition query_diagnostics (q : QueryDraft) (spec : option (QuerySpec S)) (attempts : list QuerySetAttempt)
    (fallbackUsed : bool) : QuerySetQueryDiagnostics :=
  {| dg_queryId := qd_id q; dg_queryName := qd_name q; dg_source := qd_dataSource q; dg_spec := spec;
     dg_attempts := attempts; dg_fallbackUsed := fallbackUsed |}.

Definition query_error (q : QueryDraft) (warnings : list text) (error : text) : QueryRunResult :=
  {| qr_queryId := qd_id q; qr_queryName := qd_name q; qr_source := qd_dataSource q; qr_status := run_error;
     qr_error := Some error; qr_warnings := warnings; qr_data := [] |}.

Definition query_success (q : QueryDraft) (warnings : list text) (data : list TimeseriesPoint) : QueryRunResult :=
  {| qr_queryId := qd_id q; qr_queryName := qd_name q; qr_source := qd_dataSource q; qr_status := run_success;
     qr_error := None; qr_warnings := warnings; qr_data := data |}.

Definition fallback_warning (execution : WindowedExecution) : list text :=
  if we_fallbackUsed execution then
    match last (we_attempts execution) with
    | Some selected =>
        [lit "No data in requested range; used fallback window " ++ utf16_units (at_startTime selected) ++
           lit " -> " ++ utf16_units (at_endTime selected)]
    | None => []
    end
  else [].

Context (buildTimeseriesQuerySpec : QueryDraft -> BuildSpecResult S).

Record RunWindowInput := {
  ri_startTime : string;
  ri_endTime : string;
  ri_fallback : EmptyRangeFallbackStrategy;
  ri_allowFallback : bool;
  ri_bucket : option Z;
}.

(** One query of the set. *)
Definition run_query (input : RunWindowInput) (q : QueryDraft) : QueryRunResult * QuerySetQueryDiagnostics :=
  let built := buildTimeseriesQuerySpec q in
  match bs_query built with
  | None =>
      (query_error q (bs_warnings built) (default (lit "Failed to build query") (bs_error built)),
       query_diagnostics q None [] false)
  | Some spec =>
      let querySpec := resolveTimeseriesBucketSpec spec (ri_startTime input) (ri_endTime input) (ri_bucket input) in
      match executeWithFallback (ri_startTime input) (ri_endTime input) querySpec (ri_fallback input)
              (ri_allowFallback input) (ri_bucket input) with
      | Err error =>
          (query_error q (bs_warnings built) (describeError executor error),
           query_diagnostics q (Some querySpec) [] false)
      | Ok execution =>
          (query_success q (bs_warnings built ++ fallback_warning execution) (we_points execution),
           query_diagnostics q (Some querySpec) (we_attempts execution) (we_fallbackUsed execution))
      end
  end.

Context (toUpperCase toLowerCase : text -> text).

(** [finished] lists the queries in the order they finish. *)
Definition runQuerySetWindow (queries : list QueryDraft) (formulas : list FormulaDraft) (input : RunWindowInput)
    (finished : list nat) : QuerySetWindowResult :=
  let runs := List.map (run_query input) queries in
  let queryResults := List.map fst runs in
  {| wr_queryResults := queryResults;
     wr_formulaResults :=
       if (0 <? countSuccessfulQuerySeries queryResults)%nat then buildFormulaResults toUpperCase formulas queryResults
       else [];
     wr_diagnostics := omap (fun i => snd <$> runs !! i) finished |}.

(** ** The chart of a set *)

Inductive comparison_mode := none | previous_period.

Record QuerySet := {
  qs_queries : list QueryDraft;
  qs_formulas : list QueryFormula;
  qs_mode : option comparison_mode;
  qs_includePercentChange : option bool;
}.

Record TimeseriesDiagnostics := {
  td_mode : comparison_mode;
  td_includePercentChange : bool;
  td_shiftedByMs : Z;
  td_previous : option (string * string);
  td_queries : list QuerySetQueryDiagnostics;
  td_previousQueries : list QuerySetQueryDiagnostics;
}.

Record TimeseriesQuerySetResult := { tr_rows : list Row; tr_diagnostics : TimeseriesDiagnostics }.

Context (localeCompare : text -> text -> Z) (String_ : num -> text) (bucket_parse : text -> option Z).

Definition formula_draft (f : QueryFormula) : FormulaDraft :=
  {| fd_id := qf_id f; fd_name := qf_name f; fd_expression := qf_expression f; fd_legend := qf_legend f |}.

Definition enabled_queries (set : QuerySet) : list QueryDraft :=
  List.filter (fun q => negb (bool_decide (qd_enabled q = Some false))) (qs_queries set).

Definition hidden_ids (set : QuerySet) : list text := collectHiddenResultIds (qs_queries set) (qs_formulas set).

Definition is_plotted (set : QuerySet) (r : QueryRunResult) : bool := negb (bool_decide (qr_queryId r ∈ hidden_ids set)).

Definition display_names (set : QuerySet) : jsmap text text :=
  toDisplayNameById
    (List.map (fun q => (qd_id q, qd_name q, qd_legend q)) (enabled_queries set) ++
     List.map (fun f => (qf_id f, qf_name f, Some (qf_legend f))) (qs_formulas set)).

(** [results.find((r) => r.error)?.error] *)
Definition first_error (results : list QueryRunResult) : option text :=
  head (omap (fun r => truthy (qr_error r)) results).

Definition input_error {A} (message : text) : result (QuerySetError E) A :=
  Err (QuerySetInputError (lit "runTimeseriesQuerySet") message).

(** Why a window cannot be drawn. *)
Definition check_plottable (set : QuerySet) (w : QuerySetWindowResult) : result (QuerySetError E) unit :=
  if (countSuccessfulQuerySeries (wr_queryResults w) =? 0)%nat then
    let details := omap (fun r => truthy (qr_error r)) (wr_queryResults w) in
    Err (QuerySetNoDataError (default NO_QUERY_DATA_MESSAGE (head details)) details)
  else if negb (existsb has_data (allResults w)) then
    Err (QuerySetNoDataError (default (lit "No successful query results") (first_error (allResults w)))
           (match first_error (allResults w) with Some e => [e] | None => [] end))
  else if negb (existsb (fun r => is_plotted set r && hasAnySeriesData (qr_data r)) (allResults w)) then
    input_error (default (lit "Every query and formula with data is hidden " ++ [0x2014] ++ lit " nothing to plot")
                   (first_error (List.filter (is_plotted set) (allResults w))))
  else Ok tt.

Definition run_input (startTime endTime : string) (fallback : option EmptyRangeFallbackStrategy) (allowFallback : bool)
    (maxDataPoints : option Z) : RunWindowInput :=
  {| ri_startTime := startTime; ri_endTime := endTime; ri_fallback := default NO_EMPTY_RANGE_FALLBACK fallback;
     ri_allowFallback := allowFallback; ri_bucket := maxDataPoints |}.

(** The milliseconds between the ends; 0 when one is not a date. *)
Definition shift_ms (startTime endTime : string) : Z :=
  match parseWarehouseDateTime date_parse startTime, parseWarehouseDateTime date_parse endTime with
  | Some startMs, Some endMs => endMs - startMs
  | _, _ => 0
  end.

(** The previous period of a window, when the comparison asks for one. *)
Definition previous_period_of (mode : comparison_mode) (startTime endTime : string) : option (string * string) :=
  match mode, parseWarehouseDateTime date_parse startTime, parseWarehouseDateTime date_parse endTime with
  | previous_period, Some startMs, Some endMs =>
      if 0 <? endMs - startMs then
        Some (formatWarehouseDateTime (startMs - (endMs - startMs)), formatWarehouseDateTime (endMs - (endMs - startMs)))
      else None
  | _, _, _ => None
  end.

Definition suffix_prev : text := lit " (prev)".

Definition runTimeseriesQuerySet (set : QuerySet) (startTime endTime : string)
    (fallback : option EmptyRangeFallbackStrategy) (maxDataPoints : option Z) (finished finishedPrevious : list nat) :
    result (QuerySetError E) TimeseriesQuerySetResult :=
  let formulas := List.map formula_draft (qs_formulas set) in
  let mode := default none (qs_mode set) in
  let includePercentChange := default true (qs_includePercentChange set) in
  let queries := enabled_queries set in
  match queries with
  | [] => input_error (lit "No enabled queries to run")
  | _ =>
      let current := runQuerySetWindow queries formulas (run_input startTime endTime fallback true maxDataPoints) finished in
      let! _ := check_plottable set current in
      let '(mergedCurrent, usedSeriesNames) :=
        mergeQueryRunResults toLowerCase (List.filter (is_plotted set) (allResults current)) (display_names set) [] [] in
      let shiftMs := shift_ms startTime endTime in
      let previous := previous_period_of mode startTime endTime in
      let previousWindow :=
        '(previousStart, previousEnd) ← previous;
        Some (runQuerySetWindow queries formulas
                (run_input previousStart previousEnd fallback false maxDataPoints) finishedPrevious) in
      let mergedPrevious :=
        w ← previousWindow;
        Some (mergeQueryRunResults toLowerCase
                (shiftRunResults bucket_parse (List.filter (is_plotted set) (allResults w)) shiftMs)
                (display_names set) suffix_prev usedSeriesNames).1 in
      let rows :=
        combineRows localeCompare String_ (mergedCurrent :: match mergedPrevious with Some m => [m] | None => [] end) in
      Ok {| tr_rows :=
              match mergedPrevious with
              | Some m =>
                  if includePercentChange then
                    appendPercentChangeSeries rows (seriesNameByStableKey mergedCurrent) (seriesNameByStableKey m)
                  else rows
              | None => rows
              end;
            tr_diagnostics :=
              {| td_mode := mode; td_includePercentChange := includePercentChange; td_shiftedByMs := Z.max 0 shiftMs;
                 td_previous := previous; td_queries := wr_diagnostics current;
                 td_previousQueries := match previousWindow with Some w => wr_diagnostics w | None => [] end |} |}
  end.

(** ** Breakdowns and lists *)

Context (buildBreakdownQuerySpec : QueryDraft -> option Z -> BuildSpecResult S).
Context (buildListQuerySpec : QueryDraft -> option Z -> option (list text) -> BuildSpecResult S).

Definition breakdown_error (q : QueryDraft) (error : text) : BreakdownQueryResult :=
  {| br_queryId := qd_id q; br_queryName := qd_name q; br_status := run_error; br_error := Some error; br_data := [] |}.

Definition run_breakdown (startTime endTime : string) (defaultLimit : option Z) (q : QueryDraft) :
    BreakdownQueryResult :=
  let built := buildBreakdownQuerySpec q defaultLimit in
  match bs_query built with
  | None => breakdown_error q (default (lit "Failed to build breakdown query") (bs_error built))
  | Some spec =>
      match execute executor {| er_startTime := startTime; er_endTime := endTime; er_query := spec |} with
      | Err error => breakdown_error q (describeError executor error)
      | Ok (RBreakdown data) =>
          {| br_queryId := qd_id q; br_queryName := qd_name q; br_status := run_success; br_error := None;
             br_data := data |}
      | Ok r => breakdown_error q (lit "Unexpected result kind: " ++ result_kind r)
      end
  end.

Record BreakdownQuerySetResult := { bk_rows : list Row; bk_diagnostics : list BreakdownQueryResult }.

Definition runBreakdownQuerySet (set : QuerySet) (startTime endTime : string) (defaultLimit : option Z) :
    result (QuerySetError E) BreakdownQuerySetResult :=
  let queries :=
    List.filter (fun q => negb (bool_decide (qd_enabled q = Some false)) && negb (default false (qd_hidden q)))
      (qs_queries set) in
  match queries with
  | [] => Err (QuerySetInputError (lit "runBreakdownQuerySet") (lit "No enabled queries to run"))
  | _ =>
      let results := List.map (run_breakdown startTime endTime defaultLimit) queries in
      if existsb br_success results then
        Ok {| bk_rows := mergeBreakdownResults results queries; bk_diagnostics := results |}
      else
        let details := omap (fun r => truthy (br_error r)) results in
        Err (QuerySetNoDataError (default (lit "No breakdown data found in selected time range") (head details)) details)
  end.

Definition runListQuerySet (set : QuerySet) (startTime endTime : string) (limit : option Z)
    (columns : option (list text)) : result (QuerySetError E) (list L) :=
  let fail {A} message : result (QuerySetError E) A := Err (QuerySetInputError (lit "runListQuerySet") message) in
  match enabled_queries set with
  | [] => fail (lit "No enabled queries to run")
  | query :: _ =>
      let built := buildListQuerySpec query limit columns in
      match bs_query built with
      | None => fail (default (lit "Failed to build list query") (bs_error built))
      | Some spec =>
          match execute executor {| er_startTime := startTime; er_endTime := endTime; er_query := spec |} with
          | Err error => Err (ExecutorError error)
          | Ok (RList data) => Ok data
          | Ok r => fail (lit "Unexpected result kind: " ++ result_kind r)
          end
      end
  end.

(** ** Dispatch *)

Inductive QueryResultContract := shape_timeseries | shape_breakdown | shape_list.

Inductive QuerySetRunOutput :=
  | OutTimeseries (r : TimeseriesQuerySetResult)
  | OutBreakdown (r : BreakdownQuerySetResult)
  | OutList (rows : list L).

Record RunQuerySetInput := {
  rq_querySet : QuerySet;
  rq_resultShape : QueryResultContract;
  rq_startTime : string;
  rq_endTime : string;
  rq_defaultLimit : option Z;
  rq_limit : option Z;
  rq_columns : option (list text);
  rq_fallback : option EmptyRangeFallbackStrategy;
  rq_maxDataPoints : option Z;
}.

Definition runQuerySet (input : RunQuerySetInput) (finished finishedPrevious : list nat) :
    result (QuerySetError E) QuerySetRunOutput :=
  match rq_resultShape input with
  | shape_timeseries =>
      let! r := runTimeseriesQuerySet (rq_querySet input) (rq_startTime input) (rq_endTime input) (rq_fallback input)
                  (rq_maxDataPoints input) finished finishedPrevious in
      Ok (OutTimeseries r)
  | shape_breakdown =>
      let! r := runBreakdownQuerySet (rq_querySet input) (rq_startTime input) (rq_endTime input)
                  (rq_defaultLimit input) in
      Ok (OutBreakdown r)
  | shape_list =>
      let! rows := runListQuerySet (rq_querySet input) (rq_startTime input) (rq_endTime input) (rq_limit input)
                     (rq_columns input) in
      Ok (OutList rows)
  end.

End Runner.

(** ** A concrete set

    A query grouped by status, one that cannot be lowered, and a formula; the
    host answers for an hour and the hour before it. *)

(** ASCII text as a string. *)
Definition ascii_text (a : text) : string := foldr (fun c s => String (ascii_of_N (Z.to_N c)) s) EmptyString a.

Definition units_parse (a : text) : option Z := rfc3339_parse (ascii_text a).

Definition draft (id name : string) : QueryDraft :=
  {| qd_id := lit id; qd_name := lit name; qd_enabled := None; qd_hidden := None; qd_dataSource := lit "traces";
     qd_whereClause := None; qd_aggregation := lit "count"; qd_stepInterval := None; qd_orderByDirection := None;
     qd_addOns := None; qd_groupBy := None; qd_having := None; qd_orderBy := None; qd_limit := None;
     qd_seriesLimit := None; qd_legend := None; qd_valueField := None; qd_signalSource := None;
     qd_metricName := None; qd_metricType := None; qd_isMonotonic := None |}.

Definition requests : QueryDraft := draft "q1" "A".
Definition broken : QueryDraft := draft "q2" "B".

Definition doubled : QueryFormula :=
  {| qf_id := lit "f1"; qf_name := lit "F"; qf_expression := lit "A * 2"; qf_legend := lit "Doubled"; qf_hidden := None |}.

Definition compared_set (queries : list QueryDraft) : QuerySet :=
  {| qs_queries := queries; qs_formulas := [doubled]; qs_mode := Some previous_period; qs_includePercentChange := None |}.

Definition build_example (q : QueryDraft) : BuildSpecResult unit :=
  if bool_decide (qd_id q = lit "q2") then {| bs_query := None; bs_warnings := []; bs_error := Some (lit "no") |}
  else {| bs_query := Some (SpecTimeseries None tt); bs_warnings := []; bs_error := None |}.

Definition sample (bucket : string) (series : list (string * Z)) : TimeseriesPoint :=
  {| tp_bucket := lit bucket; tp_series := List.map (fun e => (lit e.1, num_of_Z e.2)) series |}.

Definition host : QuerySetExecutor unit unit unit :=
  {| execute := fun r =>
       if bool_decide (er_startTime r = "2026-08-25 10:00:00"%string) then
         Ok (RTimeseries [sample "2026-08-25T10:00:00.000Z" [("500", 3); ("200", 7)]%string;
                          sample "2026-08-25T10:01:00.000Z" [("500", 1)]%string])
       else if bool_decide (er_startTime r = "2026-08-25 09:00:00"%string) then
         Ok (RTimeseries [sample "2026-08-25T09:00:00.000Z" [("500", 2)]%string])
       else Err tt;
     describeError := fun _ => lit "refused" |}.

Definition hour_chart (queries : list QueryDraft) (finished finishedPrevious : list nat) :=
  runTimeseriesQuerySet rfc3339_parse host build_example id id units_compare (fun _ => []) units_parse
    (compared_set queries) "2026-08-25 10:00:00" "2026-08-25 11:00:00" None None finished finishedPrevious.

Definition number_cell (name : string) (z : Z) : text * cell := (lit name, CNum (num_of_Z z)).

Example hour_chart_ex :
  match hour_chart [requests; broken] [1; 0]%nat [0; 1]%nat with
  | Ok r =>
      List.map (fun row => map_get (lit "bucket") row) (tr_rows r) =
        [Some (CText (lit "2026-08-25T10:00:00.000Z")); Some (CText (lit "2026-08-25T10:01:00.000Z"))] /\
      List.map (fun row => (row_number (lit "A: 500") row, row_number (lit "A: 500 (prev)") row,
                            row_number (delta_name (lit "A: 500")) row, row_number (lit "Doubled") row)) (tr_rows r) =
        [(Some (num_of_Z 3), Some (num_of_Z 2), Some (num_of_Z 50), Some (num_of_Z 20));
         (Some (num_of_Z 1), Some num_zero, None, Some (num_of_Z 2))]
  | Err _ => False
  end.
Proof. by vm_compute. Qed.
