(* ===== verification/QueryLadder.v ===== *)
(** * Wider windows

    The ladder of packages/query-engine/src/query-set/bucketing.ts and the search
    of window.ts: which windows a query may ask for, and whose answer it keeps. *)

From Stdlib Require Import Ascii String.
From stdpp Require Import prelude list.
From Stdlib Require Import ZArith Lia Sorting.Sorted.
From S2P Require Import Prelude.
From S2P Require Import JsString.
From S2P Require Import EventTime.
From S2P Require Import WarehouseTime.
From S2P Require Import QueryWindow.
From S2P Require Import IngestSha256.
From S2P Require Import IngestRegex.
From S2P Require Import JsUnits.
From S2P Require Import Formula.
From S2P Require Import QuerySeries.
From S2P Require Import QueryRunner.

Open Scope Z_scope.
Local Open Scope maple_scope.

(** ** Strategies *)

(** The search for a width always ends. *)
Lemma auto_width_found date_parse startTime endTime points :
  is_Some (computeBucketSecondsForWidthRange date_parse startTime endTime points 6).
Proof.
  unfold computeBucketSecondsForWidthRange. destruct (parsed_range date_parse startTime endTime) as [[s e]|]; [|by eexists].
  destruct (width_budget_kept s e points 6 ltac:(lia)) as (b & Hb & _). by exists b.
Qed.

(** The rungs in force are positive, distinct and in order. *)
Lemma resolved_rungs enabled windowSeconds maxRangeSeconds base :
  let rungs := fs_windowSeconds (resolveFallbackStrategy enabled windowSeconds maxRangeSeconds base) in
  StronglySorted Z.le rungs /\ NoDup rungs /\
  forall s, s ∈ rungs <-> 0 < s /\ Some s ∈ default (List.map Some (fs_windowSeconds base)) windowSeconds.
Proof.
  cbn [resolveFallbackStrategy fs_windowSeconds]. set (given := default _ windowSeconds).
  set (positive := List.filter _ _). split_and!.
  - pose proof (js_sort_sorted (fun l r => l - r) (dedupe positive)) as H.
    eapply StronglySorted_ind with (P := StronglySorted Z.le) in H; [done|constructor|].
    intros a l _ IH Ha. constructor; [done|]. eapply Forall_impl; [exact Ha|]. cbn. lia.
  - rewrite (js_sort_perm (fun l r => l - r)). apply NoDup_dedupe.
  - intros s. rewrite elem_of_js_sort, elem_of_dedupe. unfold positive.
    rewrite list_elem_of_In, List.filter_In, Z.ltb_lt, <- list_elem_of_In, list_elem_of_omap. split.
    + intros [(x & Hx & E) H]. unfold id in E. subst x. by split.
    + intros [H Hx]. split; [|done]. by exists (Some s).
Qed.

(** ** The ladder *)

Definition requested (startTime endTime : string) : ExecutionWindow :=
  {| ew_startTime := startTime; ew_endTime := endTime; ew_kind := primary |}.

#[local] Opaque formatWarehouseDateTime.

Lemma rung_window_span endMs s s' :
  span_of (rung_window endMs s) = span_of (rung_window endMs s') -> rung_window endMs s = rung_window endMs s'.
Proof. unfold span_of, rung_window. cbn [ew_startTime ew_endTime]. intros [= ->]. done. Qed.

Lemma wider_windows_spec endMs rangeMs maxSeconds rungs : forall seen,
  let ws := wider_windows endMs rangeMs maxSeconds seen rungs in
  (forall w, w ∈ ws -> exists s, s ∈ rungs /\ rangeMs < s * 1000 /\ s <= maxSeconds /\ w = rung_window endMs s) /\
  NoDup (List.map span_of ws) /\ (forall w, w ∈ ws -> span_of w ∉ seen) /\
  (forall s, s ∈ rungs -> rangeMs < s * 1000 -> s <= maxSeconds ->
     span_of (rung_window endMs s) ∈ seen \/ rung_window endMs s ∈ ws).
Proof.
  induction rungs as [|s rungs IH]; intros seen; cbn [wider_windows].
  { split_and!; [by intros w ?%elem_of_nil|constructor|by intros w ?%elem_of_nil|by intros s ?%elem_of_nil]. }
  destruct (Z.leb_spec (s * 1000) rangeMs), (Z.ltb_spec maxSeconds s); cbn [orb].
  1,2,3: destruct (IH seen) as (H1 & H2 & H3 & H4); split_and!; [|done|done|];
    [intros w Hw; destruct (H1 w Hw) as (s' & ? & ?); exists s'; split; [set_solver|done]
    |intros s' [->|Hs]%elem_of_cons ? ?; [lia|by apply H4]].
  destruct (bool_decide_reflect (span_of (rung_window endMs s) ∈ seen)) as [Hin|Hni].
  - destruct (IH seen) as (H1 & H2 & H3 & H4). split_and!; [|done|done|].
    + intros w Hw. destruct (H1 w Hw) as (s' & ? & ?). exists s'. split; [set_solver|done].
    + intros s' [->|Hs]%elem_of_cons ? ?; [by left|by apply H4].
  - destruct (IH (span_of (rung_window endMs s) :: seen)) as (H1 & H2 & H3 & H4).
    split_and!.
    + intros w [->|Hw]%elem_of_cons; [exists s; split_and!; [set_solver|lia|lia|done]|].
      destruct (H1 w Hw) as (s' & ? & ?). exists s'. split; [set_solver|done].
    + cbn [List.map]. apply NoDup_cons. split; [|done]. intros (w & Ew & Hw)%list_elem_of_fmap.
      apply (H3 w Hw). rewrite <- Ew. set_solver.
    + intros w [->|Hw]%elem_of_cons; [done|]. intros Hs. apply (H3 w Hw). set_solver.
    + intros s' [->|Hs]%elem_of_cons ? ?; [right; set_solver|]. destruct (H4 s') as [H'|H']; [done..| |right; set_solver].
      apply elem_of_cons in H' as [E|H']; [right|by left].
      rewrite (rung_window_span endMs s' s E). apply list_elem_of_here.
Qed.

(** The windows of a query: the requested one first, then, if widening is on and
    the window is a range of dates, wider and wider ones that end with it. *)
Lemma execution_windows date_parse startTime endTime strategy allowFallback :
  exists wider, buildExecutionWindows date_parse startTime endTime strategy allowFallback =
      requested startTime endTime :: wider /\
    Forall (fun w => ew_kind w = fallback) wider /\
    NoDup (List.map span_of (requested startTime endTime :: wider)) /\
    (wider <> [] -> allowFallback = true /\ fs_enabled strategy = true) /\
    forall w, w ∈ wider -> exists startMs endMs s,
      parseWarehouseDateTime date_parse startTime = Some startMs /\
      parseWarehouseDateTime date_parse endTime = Some endMs /\ startMs < endMs /\
      s ∈ fs_windowSeconds strategy /\ endMs - startMs < s * 1000 /\ s <= fs_maxRangeSeconds strategy /\
      w = rung_window endMs s.
Proof.
  unfold buildExecutionWindows.
  assert (NoDup (List.map span_of [requested startTime endTime])) as Hone by apply NoDup_singleton.
  destruct (parseWarehouseDateTime date_parse startTime) as [startMs|]; [|by exists []; split_and!; try set_solver].
  destruct (parseWarehouseDateTime date_parse endTime) as [endMs|]; [|by exists []; split_and!; try set_solver].
  destruct (Z.leb_spec endMs startMs) as [?|Hlt]; [by exists []; split_and!; try set_solver|].
  destruct allowFallback, (fs_enabled strategy); cbn [negb orb]; try by exists []; split_and!; try set_solver.
  destruct (wider_windows_spec endMs (Z.max (endMs - startMs) 1000) (fs_maxRangeSeconds strategy)
    (fs_windowSeconds strategy) [(startTime, endTime)]) as (H1 & H2 & H3 & _).
  set (wider := wider_windows _ _ _ _ _) in *. exists wider. split_and!; [done| | |done|].
  - apply Forall_forall. intros w Hw. by destruct (H1 w Hw) as (s & _ & _ & _ & ->).
  - cbn [List.map]. apply NoDup_cons. split; [|done]. intros (w & Ew & Hw)%list_elem_of_fmap.
    apply (H3 w Hw). rewrite <- Ew. set_solver.
  - intros w Hw. destruct (H1 w Hw) as (s & Hs & Hr & Hm & ->). exists startMs, endMs, s. split_and!; try done. lia.
Qed.

(** ** The search *)

Section Search.
Context {S L E : Type} (date_parse : string -> option Z) (executor : QuerySetExecutor S L E).
Context (spec : QuerySpec S) (maxDataPoints : option Z).

(** The host's answer for a window. *)
Definition answer (w : ExecutionWindow) : result E (QueryEngineResult L) :=
  execute executor (window_request date_parse spec maxDataPoints w).

Definition points_at (w : ExecutionWindow) : list TimeseriesPoint :=
  match answer w with Ok r => timeseries_points r | Err _ => [] end.

Definition gives_data (w : ExecutionWindow) : bool := hasAnySeriesData (points_at w).

(** The record of an attempt. *)
Definition attempt_at (w : ExecutionWindow) : QuerySetAttempt :=
  match answer w with
  | Ok r => attempt w (length (timeseries_points r)) (gives_data w) None
  | Err e => attempt w 0 false (Some (describeError executor e))
  end.

(** The windows asked for: up to the first with data. *)
Fixpoint tried (windows : list ExecutionWindow) : list ExecutionWindow :=
  match windows with
  | [] => []
  | w :: windows' => w :: if gives_data w then [] else tried windows'
  end.

Notation search := (tryWindow date_parse executor spec maxDataPoints).

Lemma search_step w windows index attempts points :
  search (w :: windows) index attempts points =
  match answer w with
  | Err e => match ew_kind w with
             | primary => Err e
             | fallback => search windows (1 + index) (attempts ++ [attempt_at w]) points
             end
  | Ok r => if gives_data w then
              Ok {| we_points := points_at w; we_attempts := attempts ++ [attempt_at w];
                    we_fallbackUsed := (0 <? Z.of_nat index) |}
            else search windows (1 + index) (attempts ++ [attempt_at w]) (points_at w)
  end.
Proof using.
  unfold attempt_at, gives_data, points_at. cbn [tryWindow]. unfold answer at 1 2 3 4. fold (answer w).
  by destruct (answer w).
Qed.

(** Among wider windows: failures are skipped, the first window with data ends
    the search. *)
Lemma search_wider windows : forall index attempts points,
  Forall (fun w => ew_kind w = fallback) windows -> (0 < index)%nat -> hasAnySeriesData points = false ->
  exists x, search windows index attempts points = Ok x /\
    we_attempts x = attempts ++ List.map attempt_at (tried windows) /\
    match List.find gives_data windows with
    | Some w => we_points x = points_at w /\ we_fallbackUsed x = true
    | None => hasAnySeriesData (we_points x) = false /\ we_fallbackUsed x = false
    end.
Proof using.
  induction windows as [|w windows IH]; intros index attempts points Hkind Hindex Hpoints.
  - cbn. eexists. split; [done|]. by rewrite app_nil_r.
  - apply Forall_cons in Hkind as [Hw Hkind]. rewrite search_step, Hw. cbn [tried List.find].
    destruct (gives_data w) eqn:Ed.
    + destruct (answer w) as [r|e] eqn:Ea.
      * eexists. split; [done|]. cbn. split_and!; [done|done|]. lia.
      * exfalso. unfold gives_data, points_at in Ed. by rewrite Ea in Ed.
    + assert (exists points', match answer w with Err e => search windows (1 + index) (attempts ++ [attempt_at w]) points
          | Ok r => search windows (1 + index) (attempts ++ [attempt_at w]) (points_at w) end =
          search windows (1 + index) (attempts ++ [attempt_at w]) points' /\ hasAnySeriesData points' = false)
        as (points' & -> & Hp).
      { destruct (answer w); [by exists (points_at w)|by exists points]. }
      destruct (IH (1 + index)%nat (attempts ++ [attempt_at w]) points' Hkind ltac:(lia) Hp) as (x & -> & Hx & Hr).
      exists x. split; [done|]. split; [|done]. rewrite Hx. cbn [List.map]. by rewrite <- app_assoc.
Qed.

(** The answer of a query over an empty range. If the host refuses the
    requested window, the query fails with that error. Otherwise it never
    fails: the windows tried are the requested one and then the wider ones in
    order, failures skipped, up to the first that has data, whose points are the
    answer; and when none has data the answer has no series. *)
Theorem first_window_with_data startTime endTime strategy allowFallback :
  exists wider, buildExecutionWindows date_parse startTime endTime strategy allowFallback =
      requested startTime endTime :: wider /\
    match answer (requested startTime endTime) with
    | Err e => executeWithFallback date_parse executor startTime endTime spec strategy allowFallback maxDataPoints = Err e
    | Ok _ => exists x,
        executeWithFallback date_parse executor startTime endTime spec strategy allowFallback maxDataPoints = Ok x /\
        we_attempts x = List.map attempt_at (tried (requested startTime endTime :: wider)) /\
        match List.find gives_data (requested startTime endTime :: wider) with
        | Some w => we_points x = points_at w /\ we_fallbackUsed x = bool_decide (ew_kind w = fallback)
        | None => hasAnySeriesData (we_points x) = false /\ we_fallbackUsed x = false
        end
    end.
Proof using.
  destruct (execution_windows date_parse startTime endTime strategy allowFallback) as (wider & Ew & Hkind & _).
  exists wider. split; [done|]. unfold executeWithFallback. rewrite Ew, search_step.
  set (w0 := requested startTime endTime) in *. destruct (answer w0) as [r|e] eqn:Ea; [|done].
  cbn [tried List.find]. destruct (gives_data w0) eqn:Ed.
  - eexists. split; [done|]. cbn. by split_and!.
  - change (1 + 0)%nat with 1%nat. cbn [app].
    destruct (search_wider wider 1 [attempt_at w0] (points_at w0) Hkind ltac:(lia) Ed) as (x & -> & Hx & Hr).
    exists x. split; [done|]. split; [by rewrite Hx|].
    destruct (List.find gives_data wider) as [w|] eqn:Ef; [|done].
    apply List.find_some in Ef as [Hin _]. rewrite Forall_forall in Hkind.
    rewrite bool_decide_eq_true_2; [done|]. by apply Hkind, list_elem_of_In.
Qed.
End Search.

(** Widening stays within its bounds. Only when widening is on does a query
    ask for more than the requested window, each window at most once, and every
    further window ends at the requested end and is a rung of the ladder long,
    longer than the request and no longer than the maximum; when the ladder is
    resolved from a request, its rungs are positive. *)
Theorem widening_bounded date_parse startTime endTime enabled windowSeconds maxRangeSeconds base allowFallback w :
  let strategy := resolveFallbackStrategy enabled windowSeconds maxRangeSeconds base in
  w ∈ buildExecutionWindows date_parse startTime endTime strategy allowFallback ->
  NoDup (List.map span_of (buildExecutionWindows date_parse startTime endTime strategy allowFallback)) /\
  (w = requested startTime endTime \/
   allowFallback = true /\ default (fs_enabled base) enabled = true /\
   exists startMs endMs s,
     parseWarehouseDateTime date_parse startTime = Some startMs /\
     parseWarehouseDateTime date_parse endTime = Some endMs /\
     0 < endMs - startMs < s * 1000 /\ s <= default (fs_maxRangeSeconds base) maxRangeSeconds /\
     w = rung_window endMs s /\
     Some s ∈ default (List.map Some (fs_windowSeconds base)) windowSeconds).
Proof.
  intros strategy. destruct (execution_windows date_parse startTime endTime strategy allowFallback)
    as (wider & -> & _ & Hnd & Hon & Hw).
  intros Hin. split; [done|]. apply elem_of_cons in Hin as [->|Hin]; [by left|right].
  destruct (Hw w Hin) as (startMs & endMs & s & Es & Ee & Hlt & Hs & Hr & Hm & ->).
  destruct Hon as [-> Hen]; [by intros ->; apply elem_of_nil in Hin|].
  split_and!; [done|done|]. exists startMs, endMs, s. split_and!; try done; [lia|].
  by apply (resolved_rungs enabled windowSeconds maxRangeSeconds base).
Qed.

(** An hour without data, widened over the lab ladder. *)
Definition lab_windows : list ExecutionWindow :=
  buildExecutionWindows rfc3339_parse "2026-08-25 10:00:00" "2026-08-25 11:00:00"
    (resolveFallbackStrategy None None (Some 700000) LAB_EMPTY_RANGE_STRATEGY) true.

Example lab_windows_ex :
  List.map span_of lab_windows =
  [("2026-08-25 10:00:00", "2026-08-25 11:00:00"); ("2026-08-24 11:00:00", "2026-08-25 11:00:00");
   ("2026-08-18 11:00:00", "2026-08-25 11:00:00")]%string.
Proof. by vm_compute. Qed.

Lemma widening_bounded_witness :
  exists w, w ∈ lab_windows /\ NoDup (List.map span_of lab_windows) /\
    (w = requested "2026-08-25 10:00:00" "2026-08-25 11:00:00" \/
     exists s, w = rung_window 1787655600000 s /\ s <= 700000).
Proof.
  assert (rung_window 1787655600000 86400 ∈ lab_windows) as Hin by (vm_compute; right; left).
  exists (rung_window 1787655600000 86400). split; [exact Hin|].
  destruct (widening_bounded rfc3339_parse "2026-08-25 10:00:00" "2026-08-25 11:00:00" None None (Some 700000)
    LAB_EMPTY_RANGE_STRATEGY true _ Hin) as (Hnd & [H|(_ & _ & startMs & endMs & s & _ & Ee & _ & Hs & Hw & _)]);
    (split; [exact Hnd|]); [by left|right].
  exists s. split; [|exact Hs]. rewrite Hw. vm_compute in Ee. by injection Ee as <-.
Defined.
