(* ===== verification/QueryCharts.v ===== *)
(** * The chart of a query set

    What packages/query-engine/src/query-set/timeseries.ts returns: the exact
    content of every row, and behaviours that follow from it. *)

From Stdlib Require Import Ascii String.
From stdpp Require Import prelude list.
From Stdlib Require Import ZArith Lia Sorting.Sorted Floats.SpecFloat.
From S2P Require Import Prelude.
From S2P Require Import JsNum.
From S2P Require Import JsString.
From S2P Require Import WarehouseTime.
From S2P Require Import IngestSha256.
From S2P Require Import IngestRegex.
From S2P Require Import JsUnits.
From S2P Require Import Formula.
From S2P Require Import QuerySeries.
From S2P Require Import QueryMerge.
From S2P Require Import QueryRows.
From S2P Require Import FormulaResults.
From S2P Require Import QueryRunner.

Open Scope Z_scope.
Local Open Scope maple_scope.

(** ** Percent change columns *)

Section Changes.
Context (previous : jsmap text text).

Definition change_step (row : Row) (e : text * text) : Row :=
  match truthy (map_get e.1 previous) with Some p => append_change e.2 p row | None => row end.

Definition change_row (current : jsmap text text) (row : Row) : Row := fold_left change_step current row.

(** The columns are added row by row. *)
Lemma append_rows current : forall rows,
  appendPercentChangeSeries rows current previous = List.map (change_row current) rows.
Proof using.
  unfold appendPercentChangeSeries, change_row. induction current as [|e current IH]; intros rows; cbn [fold_left].
  - symmetry. apply List.map_id.
  - rewrite IH. destruct (truthy (map_get e.1 previous)) as [p|] eqn:Et; [rewrite List.map_map|];
      apply List.map_ext; intros row; f_equal; unfold change_step; by rewrite Et.
Qed.

Lemma delta_not_plain c name : plain_name name -> delta_name c <> name.
Proof using.
  intros [_ H] <-. apply not_true_iff_false in H. apply H, ends_with_spec. by exists c.
Qed.

Lemma delta_not_proto c : delta_name c <> lit "__proto__".
Proof using.
  intros E. apply (f_equal last) in E. unfold delta_name, delta_suffix in E. rewrite !app_assoc in E.
  change (lit ")") with [41] in E. rewrite last_snoc in E. by vm_compute in E.
Qed.

Lemma delta_name_inj c d : delta_name c = delta_name d -> c = d.
Proof using. apply app_inv_tail. Qed.

(** One column: only its own cell changes. *)
Lemma change_step_other row e name : name <> delta_name e.2 -> map_get name (change_step row e) = map_get name row.
Proof using.
  intros H. unfold change_step, append_change. destruct (truthy _); [|done].
  destruct (percent_change _ _); [|done]. unfold row_set. case_bool_decide; [done|]. by rewrite map_get_set_ne.
Qed.

Lemma change_row_other current : forall row name,
  (forall e, e ∈ current -> name <> delta_name e.2) -> map_get name (change_row current row) = map_get name row.
Proof using.
  induction current as [|e current IH]; intros row name H; [done|]. cbn [change_row fold_left].
  fold (change_row current (change_step row e)). rewrite IH by (intros; apply H; set_solver).
  apply change_step_other, H. set_solver.
Qed.

Lemma change_row_plain current row name :
  plain_name name -> map_get name (change_row current row) = map_get name row.
Proof using. intros H. apply change_row_other. intros e _ E. by apply (delta_not_plain e.2 name). Qed.

(** The cell of a pair of columns. *)
Lemma change_row_cell current : forall row key c p,
  NoDup (List.map snd current) -> Forall plain_name (List.map snd current) ->
  (key, c) ∈ current -> map_get key previous = Some p -> plain_name p ->
  map_get (delta_name c) row = None ->
  row_number (delta_name c) (change_row current row) =
    percent_change (finite_or_zero (row_number c row)) (finite_or_zero (row_number p row)).
Proof using.
  induction current as [|e current IH]; intros row key c p Hnd Hplain Hin Hp Hpp Hnone; [by apply elem_of_nil in Hin|].
  cbn [List.map] in Hnd, Hplain. apply NoDup_cons in Hnd as [Hni Hnd]. apply Forall_cons in Hplain as [He Hplain].
  cbn [change_row fold_left]. fold (change_row current (change_step row e)).
  apply elem_of_cons in Hin as [<-|Hin].
  - cbn [snd] in *. unfold row_number at 1. rewrite change_row_other.
    2:{ intros e' He' E%delta_name_inj. apply Hni. rewrite E. apply list_elem_of_fmap. by exists e'. }
    unfold change_step, append_change. cbn [fst snd]. rewrite Hp, plain_truthy by done.
    destruct (percent_change _ _) as [d|]; [|by rewrite Hnone].
    unfold row_set. rewrite bool_decide_eq_false_2 by apply delta_not_proto. by rewrite map_get_set_eq.
  - assert (plain_name c) as Hc.
    { rewrite Forall_forall in Hplain. apply Hplain. apply list_elem_of_fmap. by exists (key, c). }
    rewrite (IH _ key c p); [|done..|].
    + unfold row_number. rewrite !change_step_other; [done|..]; intros E; by eapply delta_not_plain; [|symmetry; exact E].
    + rewrite change_step_other; [done|]. intros E%delta_name_inj. apply Hni. rewrite <- E.
      apply list_elem_of_fmap. by exists (key, c).
Qed.
End Changes.

(** ** Rows of a chart *)

(** A row of the chart: its bucket, one column per series of each period, and,
    if asked for, the percent change of every series both periods have. *)
Record chart_row (percent : bool) (rs1 rs2 : list reading) (names1 names2 : jsmap text text) (b : text) (row : Row) :
    Prop := {
  cr_bucket : map_get (lit "bucket") row = Some (CText b);
  cr_current : forall key name, map_get key names1 = Some name -> row_number name row = Some (series_value key b rs1);
  cr_previous : forall key name, map_get key names2 = Some name -> row_number name row = Some (series_value key b rs2);
  cr_change : percent = true -> forall key name name', map_get key names1 = Some name -> map_get key names2 = Some name' ->
    row_number (delta_name name) row = percent_change (series_value key b rs1) (series_value key b rs2);
  cr_own : forall name, is_Some (map_get name row) ->
    name = lit "bucket" \/ name ∈ map_values names1 \/ name ∈ map_values names2 \/
    percent = true /\ exists key c, map_get key names1 = Some c /\ name = delta_name c;
}.

Definition finite_readings (rs : list reading) : Prop := Forall (fun r => num_is_finite (rd_value r) = true) rs.

Lemma finite_series_value key b rs :
  finite_readings rs -> finite_or_zero (Some (series_value key b rs)) = series_value key b rs.
Proof.
  intros H. unfold finite_or_zero, series_value, last_reading.
  destruct (last (List.filter (matches key b) rs)) as [r|] eqn:E; [|reflexivity]. cbn [option_map default].
  assert (r ∈ rs) as Hr.
  { apply last_Some in E as [l E]. assert (r ∈ List.filter (matches key b) rs) as Hr by (rewrite E; set_solver).
    apply list_elem_of_In, List.filter_In in Hr as [Hr _]. by apply list_elem_of_In. }
  pose proof (proj1 (Forall_forall _ _) H r Hr) as Hf. cbv beta in Hf. unfold id. by rewrite Hf.
Qed.

Lemma set_readings_finite toLowerCase names results : finite_readings (set_readings toLowerCase names results).
Proof.
  apply Forall_forall. intros r Hr. unfold set_readings in Hr.
  apply list_elem_of_In, List.in_flat_map in Hr as (q & _ & Hr). unfold result_readings in Hr.
  destruct (has_data q); [|done]. apply List.in_flat_map in Hr as (p & _ & Hr).
  apply List.in_flat_map in Hr as (e & _ & Hr). unfold entry_readings in Hr.
  destruct (num_is_finite e.2) eqn:Ef; [|done]. by destruct Hr as [<-|[]].
Qed.

Section Finish.
Context (localeCompare : text -> text -> Z) (String_ : num -> text) `{!Comparator localeCompare}.
Context (rs1 rs2 : list reading) (bs1 bs2 : list text) (m1 m2 : MergedSeries).
Hypothesis exact1 : exact_merge [] rs1 bs1 m1.
Hypothesis exact2 : exact_merge (seriesNames m1) rs2 bs2 m2.
Hypothesis finite1 : finite_readings rs1.
Hypothesis finite2 : finite_readings rs2.

Notation names1 := (seriesNameByStableKey m1).
Notation names2 := (seriesNameByStableKey m2).

Lemma shows_row b row : shows rs1 rs2 names1 names2 b row -> chart_row false rs1 rs2 names1 names2 b row.
Proof using.
  intros [Hb H1 H2 Hown]. constructor; try done. intros name Hn. destruct (Hown name Hn) as [?|[?|?]]; auto.
Qed.

Lemma changed_row b row :
  shows rs1 rs2 names1 names2 b row -> chart_row true rs1 rs2 names1 names2 b (change_row names2 names1 row).
Proof using exact1 exact2 finite1 finite2.
  intros [Hb H1 H2 Hown].
  assert (NoDup (List.map snd names1) /\ Forall plain_name (List.map snd names1)) as [Hnd Hplain].
  { change (List.map snd names1) with (map_values names1). rewrite <- (em_order _ _ _ _ exact1). split; apply exact1. }
  assert (forall e : text * text, delta_name e.2 <> lit "bucket") as Hbucket.
  { intros e E. apply (f_equal last) in E. unfold delta_name, delta_suffix in E. rewrite !app_assoc in E.
    change (lit ")") with [41] in E. rewrite last_snoc in E. by vm_compute in E. }
  constructor.
  - rewrite change_row_other; [done|]. intros e _ E. by apply (Hbucket e).
  - intros key name Hk. unfold row_number. rewrite change_row_plain by by eapply (column_name_of _ _ _ _ _ _ exact1).
    by apply H1.
  - intros key name Hk. unfold row_number. rewrite change_row_plain by by eapply (column_name_of _ _ _ _ _ _ exact2).
    by apply H2.
  - intros _ key name name' Hk Hk'.
    rewrite (change_row_cell names2 names1 row key name name'); [|done|done|by apply map_get_elem_of|done|..].
    + rewrite (H1 key name Hk), (H2 key name' Hk'). by rewrite !finite_series_value.
    + by eapply (column_name_of _ _ _ _ _ _ exact2).
    + destruct (map_get (delta_name name) row) eqn:Ec; [|done]. exfalso.
      destruct (Hown (delta_name name)) as [E|[E|E]]; [by eexists|by apply (Hbucket (key, name))|..].
      * rewrite <- (em_order _ _ _ _ exact1) in E. eapply (delta_not_plain name); [|done].
        by apply (Forall_forall plain_name (seriesNames m1)); [apply exact1|].
      * rewrite <- (em_order _ _ _ _ exact2) in E. eapply (delta_not_plain name); [|done].
        by apply (Forall_forall plain_name (seriesNames m2)); [apply exact2|].
  - intros name Hn.
    destruct (decide (Exists (fun e => name = delta_name e.2) names1)) as [He|He].
    + apply Exists_exists in He as ([key c] & Hin & ->). do 3 right. split; [done|]. exists key, c.
      split; [|done]. apply elem_of_map_get; [apply exact1|done].
    + rewrite change_row_other in Hn by (intros e Hin E; apply He, Exists_exists; by exists e).
      destruct (Hown name Hn) as [?|[?|?]]; auto.
Qed.
End Finish.

(** ** The whole chart *)

Section Chart.
Context {S L E : Type} (date_parse : string -> option Z) (executor : QuerySetExecutor S L E).
Context (build : QueryDraft -> BuildSpecResult S) (toUpperCase toLowerCase : text -> text).
Context (localeCompare : text -> text -> Z) (String_ : num -> text) (bucket_parse : text -> option Z).
Context (fb : option EmptyRangeFallbackStrategy) (maxDataPoints : option Z).

Definition window_of (set : QuerySet) (startTime endTime : string) (allowFallback : bool) (finished : list nat) :
    QuerySetWindowResult :=
  runQuerySetWindow date_parse executor build toUpperCase (enabled_queries set)
    (List.map formula_draft (qs_formulas set)) (run_input startTime endTime fb allowFallback maxDataPoints) finished.

(** The results of a window that are drawn. *)
Definition drawn (set : QuerySet) (startTime endTime : string) (allowFallback : bool) : list QueryRunResult :=
  List.filter (is_plotted set) (allResults (window_of set startTime endTime allowFallback [])).

(** The results of the previous period, moved onto the current one. *)
Definition drawn_before (set : QuerySet) (startTime endTime : string) : list QueryRunResult :=
  match previous_period_of date_parse (default none (qs_mode set)) startTime endTime with
  | Some (s, e) => shiftRunResults bucket_parse (drawn set s e false) (shift_ms date_parse startTime endTime)
  | None => []
  end.

Definition run_chart (set : QuerySet) (startTime endTime : string) (finished finishedPrevious : list nat) :
    result (QuerySetError E) (@TimeseriesQuerySetResult S) :=
  runTimeseriesQuerySet date_parse executor build toUpperCase toLowerCase localeCompare String_ bucket_parse set
    startTime endTime fb maxDataPoints finished finishedPrevious.

(** The rows of the chart of the two sets of results. *)
Definition chart_rows (set : QuerySet) (startTime endTime : string) : list Row :=
  let '(m1, used) := mergeQueryRunResults toLowerCase (drawn set startTime endTime true) (display_names set) [] [] in
  match previous_period_of date_parse (default none (qs_mode set)) startTime endTime with
  | Some _ =>
      let m2 := (mergeQueryRunResults toLowerCase (drawn_before set startTime endTime) (display_names set) suffix_prev
                   used).1 in
      let rows := combineRows localeCompare String_ [m1; m2] in
      if default true (qs_includePercentChange set) then
        appendPercentChangeSeries rows (seriesNameByStableKey m1) (seriesNameByStableKey m2)
      else rows
  | None => combineRows localeCompare String_ [m1]
  end.

(** A run either fails one of its checks or returns the rows of the chart,
    whatever the order in which its queries finish. *)
Lemma run_chart_cases set startTime endTime finished finishedPrevious :
  match run_chart set startTime endTime finished finishedPrevious with
  | Ok r => enabled_queries set <> [] /\ check_plottable (E := E) set (window_of set startTime endTime true []) = Ok tt /\
            tr_rows r = chart_rows set startTime endTime
  | Err e => enabled_queries set = [] \/ check_plottable set (window_of set startTime endTime true []) = Err e
  end.
Proof using.
  unfold run_chart, runTimeseriesQuerySet, chart_rows, drawn_before, drawn.
  fold (window_of set startTime endTime true finished).
  change (check_plottable set (window_of set startTime endTime true finished))
    with (check_plottable (E := E) set (window_of set startTime endTime true [])).
  change (allResults (window_of set startTime endTime true finished))
    with (allResults (window_of set startTime endTime true [])).
  destruct (enabled_queries set) as [|q qs] eqn:Eq; [by left|].
  destruct (check_plottable set (window_of set startTime endTime true [])) as [[]|e] eqn:Ec; cbn [result_bind]; [|by right].
  destruct (mergeQueryRunResults _ _ _ [] []) as [m1 used] eqn:E1.
  split; [done|]. split; [done|]. cbn [tr_rows].
  destruct (previous_period_of _ _ _ _) as [[s e]|]; [|done]. cbn [mbind option_bind].
  unfold window_of. by rewrite Eq.
Qed.
(** Percent changes are shown for a comparison that asks for them. *)
Definition shows_change (set : QuerySet) (startTime endTime : string) : bool :=
  match previous_period_of date_parse (default none (qs_mode set)) startTime endTime with
  | Some _ => default true (qs_includePercentChange set)
  | None => false
  end.

End Chart.

(** No failure of the host escapes: a query the host refuses is a failed result
    of its own. *)
Lemma host_failures_folded {S L E} date_parse (executor : QuerySetExecutor S L E) build toUpperCase toLowerCase
    localeCompare String_ bucket_parse fb maxDataPoints set startTime endTime finished finishedPrevious e :
  runTimeseriesQuerySet date_parse executor build toUpperCase toLowerCase localeCompare String_ bucket_parse set
    startTime endTime fb maxDataPoints finished finishedPrevious <> Err (ExecutorError e).
Proof.
  intros Hrun. unfold runTimeseriesQuerySet in Hrun. destruct (enabled_queries set) as [|q qs]; [done|].
  unfold check_plottable in Hrun. cbn zeta in Hrun.
  repeat match type of Hrun with
  | (let! _ := ?m in _) = _ => destruct m eqn:Em; cbn [result_bind] in Hrun
  | context [mergeQueryRunResults ?a ?b ?c ?d ?e] => destruct (mergeQueryRunResults a b c d e)
  end; [done|]. injection Hrun as ->. by repeat case_match.
Qed.

(** ** On concrete sets *)

(** The labels of some results, checked one by one. *)
Lemma labels_check toLowerCase names suffix results :
  Forall (fun r => Forall (fun p => Forall (fun e => plain_name
    (series_label toLowerCase r (preferred_name names r) suffix (single_query results) e.1)) (tp_series p)) (qr_data r))
    results -> set_labels_plain toLowerCase names suffix results.
Proof.
  intros H r p e Hr Hp He. rewrite Forall_forall in H. specialize (H r Hr). rewrite Forall_forall in H.
  specialize (H p Hp). rewrite Forall_forall in H. by apply H.
Qed.

#[export] Instance plain_name_dec name : Decision (plain_name name).
Proof. unfold plain_name. apply _. Defined.

Notation example_drawn := (drawn rfc3339_parse host build_example id None None).
Notation example_before := (drawn_before rfc3339_parse host build_example id units_parse None None).


Definition alone (id : text) (name : string) (data : list TimeseriesPoint) : QueryRunResult :=
  {| qr_queryId := id; qr_queryName := lit name; qr_source := lit "traces"; qr_status := run_success;
     qr_error := None; qr_warnings := []; qr_data := data |}.

(** A group named [bucket] takes the place of the bucket of its row. *)
Example bucket_label_overwrites :
  let m := mergeQueryRunResults id [alone (lit "q") "A" [sample "t1" [("bucket", 5)]%string]] [] [] [] in
  List.map (map_get (lit "bucket")) (combineRows units_compare (fun _ => []) [m.1]) = [Some (CNum (num_of_Z 5))].
Proof. by vm_compute. Qed.

(** A query without a name or a legend gets a column for every point. *)
Example unnamed_query_splits :
  let m := mergeQueryRunResults id
    [alone (lit "q") EmptyString [sample "t1" [("all", 5)]%string; sample "t2" [("all", 6)]%string]] [] [] [] in
  seriesNames m.1 = [[]; lit " (2)"].
Proof. by vm_compute. Qed.
