(* ===== verification/QueryFaults.v ===== *)
(** * Charts with a failing query, and periods that do not pair

    A query that fails leaves the rest of its chart as it is; the two periods of
    a comparison meet in a row exactly when the shift is a multiple of the
    bucket width. *)

From Stdlib Require Import Ascii String.
From stdpp Require Import prelude list.
From Stdlib Require Import ZArith Lia Sorting.Sorted Floats.SpecFloat.
From S2P Require Import Prelude.
From S2P Require Import JsNum.
From S2P Require Import JsString.
From S2P Require Import EventTime.
From S2P Require Import WarehouseTime.
From S2P Require Import IngestSha256.
From S2P Require Import IngestRegex.
From S2P Require Import JsUnits.
From S2P Require Import Formula.
From S2P Require Import QuerySeries.
From S2P Require Import QueryMerge.
From S2P Require Import QueryRows.
From S2P Require Import QueryRunner.
From S2P Require Import QueryCharts.

Open Scope Z_scope.
Local Open Scope maple_scope.

(** ** Results without data do not matter *)

Lemma filter_filter_same {A} (p : A -> bool) l : List.filter p (List.filter p l) = List.filter p l.
Proof. induction l as [|x l IH]; [done|]. cbn. destruct (p x) eqn:E; [cbn; rewrite E; by f_equal|done]. Qed.

Lemma filter_insert {A} (p : A -> bool) l1 x l2 : p x = false -> List.filter p (l1 ++ x :: l2) = List.filter p (l1 ++ l2).
Proof. intros H. rewrite !List.filter_app. cbn. by rewrite H. Qed.

Lemma filter_swap {A} (p q : A -> bool) l : List.filter p (List.filter q l) = List.filter q (List.filter p l).
Proof.
  induction l as [|x l IH]; [done|]. cbn.
  destruct (q x) eqn:Eq, (p x) eqn:Ep; cbn; rewrite ?Ep, ?Eq, ?IH; done.
Qed.

Section Merge.
Context (toLowerCase : text -> text) (suffix : text) (singleQuery : bool).

Lemma merge_fold_filter names results : forall s,
  fold_left (merge_result toLowerCase names suffix singleQuery) results s =
  fold_left (merge_result toLowerCase names suffix singleQuery) (List.filter has_data results) s.
Proof using.
  induction results as [|r results IH]; intros s; [done|]. cbn [fold_left List.filter]. rewrite IH.
  destruct (has_data r) eqn:E; [done|]. unfold merge_result at 2. by rewrite E.
Qed.

Lemma merge_fold_names names names' results : forall s,
  (forall r, r ∈ results -> map_get (qr_queryId r) names = map_get (qr_queryId r) names') ->
  fold_left (merge_result toLowerCase names suffix singleQuery) results s =
  fold_left (merge_result toLowerCase names' suffix singleQuery) results s.
Proof using.
  induction results as [|r results IH]; intros s H; [done|]. cbn [fold_left].
  assert (merge_result toLowerCase names suffix singleQuery s r = merge_result toLowerCase names' suffix singleQuery s r)
    as -> by (unfold merge_result, preferred_name; rewrite (H r); [done|set_solver]).
  apply IH. intros r' Hr'. apply H. set_solver.
Qed.
End Merge.

(** The merge depends on the results with data and on the names of these. *)
Lemma merge_depends toLowerCase suffix used names names' results results' :
  List.filter has_data results = List.filter has_data results' ->
  (forall r, r ∈ List.filter has_data results -> map_get (qr_queryId r) names = map_get (qr_queryId r) names') ->
  mergeQueryRunResults toLowerCase results names suffix used =
  mergeQueryRunResults toLowerCase results' names' suffix used.
Proof.
  intros Hf Hn. unfold mergeQueryRunResults, countSuccessfulQuerySeries.
  rewrite (merge_fold_filter _ _ _ names), (merge_fold_filter _ _ _ names'), Hf.
  rewrite (merge_fold_names _ _ _ names names'); [done|]. intros r Hr. apply Hn. by rewrite Hf.
Qed.

Lemma shift_has_data bucket_parse offset r :
  has_data (with_data r (shiftResultPoints bucket_parse (qr_data r) offset)) = has_data r.
Proof.
  unfold has_data, is_success, hasAnySeriesData. cbn. f_equal. unfold shiftResultPoints.
  by induction (qr_data r) as [|p ps IH]; cbn; [|rewrite IH].
Qed.

Lemma shift_filter bucket_parse offset results :
  List.filter has_data (shiftRunResults bucket_parse results offset) =
  shiftRunResults bucket_parse (List.filter has_data results) offset.
Proof.
  unfold shiftRunResults. induction results as [|r results IH]; [done|].
  cbn [List.map List.filter]. rewrite shift_has_data, IH. by destruct (has_data r).
Qed.

(** ** Display names *)

(** An entry of another id changes no name. *)
Lemma display_fold_insert (e : text * text * option text) id :
  e.1.1 <> id -> forall entries1 entries2 (m : jsmap text text),
  map_get id (fold_left (fun m e => map_set e.1.1 (display_name e.2 e.1.2) m) (entries1 ++ e :: entries2) m) =
  map_get id (fold_left (fun m e => map_set e.1.1 (display_name e.2 e.1.2) m) (entries1 ++ entries2) m).
Proof.
  intros Hne entries1 entries2 m. rewrite !fold_left_app. cbn [fold_left].
  set (m1 := fold_left _ entries1 m). clearbody m1.
  assert (forall entries (a b : jsmap text text), map_get id a = map_get id b ->
    map_get id (fold_left (fun m e => map_set e.1.1 (display_name e.2 e.1.2) m) entries a) =
    map_get id (fold_left (fun m e => map_set e.1.1 (display_name e.2 e.1.2) m) entries b)) as Hfold.
  { induction entries as [|e' entries IH]; intros a b H; [done|]. cbn [fold_left]. apply IH.
    rewrite !map_get_set. by case_decide. }
  apply Hfold. by rewrite map_get_set_ne.
Qed.

(** ** The ids of results *)

Lemma evaluate_formula_id toUpperCase all series f :
  qr_queryId (evaluate_formula toUpperCase all series f).1 = fd_id f.
Proof. unfold evaluate_formula. by repeat case_match. Qed.

Lemma formula_result_ids toUpperCase all formulas : forall series r,
  r ∈ formulas_loop toUpperCase all series formulas -> exists f, f ∈ formulas /\ qr_queryId r = fd_id f.
Proof.
  induction formulas as [|f formulas IH]; intros series r; cbn [formulas_loop]; [by intros ?%elem_of_nil|].
  pose proof (evaluate_formula_id toUpperCase all series f) as Hid.
  destruct (evaluate_formula toUpperCase all series f) as [r0 series']. cbn [fst] in Hid.
  intros [->|Hr]%elem_of_cons; [exists f; set_solver|]. destruct (IH _ _ Hr) as (f' & Hf & E). exists f'. set_solver.
Qed.

(** A failed query adds no series for the formulas. *)
Lemma series_of_insert toUpperCase l1 r l2 : qr_status r = run_error ->
  series_of_results toUpperCase (l1 ++ r :: l2) = series_of_results toUpperCase (l1 ++ l2).
Proof. intros H. unfold series_of_results. rewrite !foldl_app. cbn [foldl]. by rewrite H. Qed.

Section Failing.
Context {S L E : Type} (date_parse : string -> option Z) (executor : QuerySetExecutor S L E).
Context (build : QueryDraft -> BuildSpecResult S) (toUpperCase toLowerCase : text -> text).
Context (localeCompare : text -> text -> Z) (String_ : num -> text) (bucket_parse : text -> option Z).
Context (fb : option EmptyRangeFallbackStrategy) (maxDataPoints : option Z).

Notation run_one input q := (run_query date_parse executor build input q).1.

Lemma run_query_id input q : qr_queryId (run_one input q) = qd_id q.
Proof using. unfold run_query. by repeat case_match. Qed.

Lemma run_query_failed input q : qr_status (run_one input q) = run_error -> qr_data (run_one input q) = [].
Proof using. unfold run_query. by repeat case_match. Qed.

(** A set with one more query. *)
Definition with_query (q1 q2 : list QueryDraft) (q : QueryDraft) (set : QuerySet) : QuerySet :=
  {| qs_queries := q1 ++ q :: q2; qs_formulas := qs_formulas set; qs_mode := qs_mode set;
     qs_includePercentChange := qs_includePercentChange set |}.

Context (set : QuerySet) (q1 q2 : list QueryDraft) (q : QueryDraft).
Hypothesis queries : qs_queries set = q1 ++ q2.
Hypothesis own_id : forall q', q' ∈ q1 ++ q2 -> qd_id q' <> qd_id q.
Hypothesis own_formula_id : forall f, f ∈ qs_formulas set -> qf_id f <> qd_id q.
Hypothesis enabled : qd_enabled q <> Some false.
Hypothesis fails : forall input, qr_status (run_one input q) = run_error.

Notation set' := (with_query q1 q2 q set).
Notation keep := (fun q => negb (bool_decide (qd_enabled q = Some false))).
Notation window s := (window_of date_parse executor build toUpperCase fb maxDataPoints s).

Lemma enabled_with : enabled_queries set' = List.filter keep q1 ++ q :: List.filter keep q2.
Proof using enabled.
  unfold enabled_queries. cbn [with_query qs_queries]. rewrite List.filter_app. cbn [List.filter].
  by rewrite bool_decide_eq_false_2.
Qed.

Lemma enabled_without : enabled_queries set = List.filter keep q1 ++ List.filter keep q2.
Proof using queries. unfold enabled_queries. by rewrite queries, List.filter_app. Qed.

(** The window of the larger set has one more result, the failure. *)
Lemma window_with startTime endTime allowFallback :
  let w' := window set' startTime endTime allowFallback [] in
  let w := window set startTime endTime allowFallback [] in
  let failure := run_one (run_input startTime endTime fb allowFallback maxDataPoints) q in
  exists l1 l2, wr_queryResults w' = l1 ++ failure :: l2 /\ wr_queryResults w = l1 ++ l2 /\
    wr_formulaResults w' = wr_formulaResults w.
Proof using enabled queries fails.
  cbn zeta. unfold window_of, runQuerySetWindow. rewrite enabled_with, enabled_without. cbn [wr_queryResults wr_formulaResults].
  set (input := run_input _ _ _ _ _). rewrite !List.map_map, !List.map_app. cbn [List.map].
  set (l1 := List.map _ (List.filter keep q1)). set (l2 := List.map _ (List.filter keep q2)).
  assert (has_data (run_one input q) = false) as Hd by (unfold has_data, is_success; by rewrite fails).
  exists l1, l2. split_and!; [done|done|]. unfold countSuccessfulQuerySeries.
  rewrite filter_insert by done. destruct (0 <? _)%nat; [|done].
  unfold buildFormulaResults. destruct (List.map formula_draft _); [done|].
  by rewrite series_of_insert by apply fails.
Qed.

(** The results of the smaller set have other ids. *)
Lemma window_ids startTime endTime allowFallback r :
  r ∈ allResults (window set startTime endTime allowFallback []) -> qr_queryId r <> qd_id q.
Proof using own_id own_formula_id queries.
  unfold allResults, window_of, runQuerySetWindow. cbn [wr_queryResults wr_formulaResults].
  intros [Hr|Hr]%elem_of_app.
  - rewrite List.map_map in Hr. apply list_elem_of_fmap in Hr as (q' & -> & Hq'). rewrite run_query_id. apply own_id.
    rewrite <- queries. apply list_elem_of_In in Hq'. apply list_elem_of_In. by apply List.filter_In in Hq' as [? _].
  - destruct (0 <? _)%nat; [|by apply elem_of_nil in Hr]. unfold buildFormulaResults in Hr.
    destruct (List.map formula_draft (qs_formulas set)) as [|f0 fs] eqn:Ef; [by apply elem_of_nil in Hr|].
    rewrite <- Ef in Hr. apply formula_result_ids in Hr as (f & Hf & ->).
    apply list_elem_of_fmap in Hf as (f' & -> & Hf'). by apply own_formula_id.
Qed.

Lemma plotted_same r : qr_queryId r <> qd_id q -> is_plotted set' r = is_plotted set r.
Proof using queries.
  intros H. unfold is_plotted. f_equal. apply bool_decide_ext.
  unfold hidden_ids, collectHiddenResultIds. cbn [with_query qs_queries qs_formulas]. rewrite queries.
  rewrite !elem_of_app, !List.filter_app, !List.map_app, !elem_of_app. cbn [List.filter].
  destruct (default false (qd_hidden q)); cbn [List.map]; [|done]. rewrite elem_of_cons. naive_solver.
Qed.

Lemma names_same id : id <> qd_id q -> map_get id (display_names set') = map_get id (display_names set).
Proof using queries enabled.
  intros H. unfold display_names, toDisplayNameById. rewrite enabled_with, enabled_without.
  cbn [with_query qs_formulas]. rewrite !List.map_app. cbn [List.map]. rewrite <- !app_assoc. cbn [app].
  apply display_fold_insert. cbn. congruence.
Qed.

Notation window_drawn s := (drawn date_parse executor build toUpperCase fb maxDataPoints s).

Lemma drawn_same startTime endTime allowFallback :
  List.filter has_data (window_drawn set' startTime endTime allowFallback) =
  List.filter has_data (window_drawn set startTime endTime allowFallback).
Proof using queries own_id own_formula_id enabled fails.
  unfold drawn. rewrite !(filter_swap has_data).
  destruct (window_with startTime endTime allowFallback) as (l1 & l2 & E' & E0 & Ef). cbn zeta in E', E0, Ef.
  set (input := run_input _ _ _ _ _) in *.
  assert (has_data (run_one input q) = false) as Hd by (unfold has_data, is_success; by rewrite fails).
  assert (List.filter has_data (allResults (window set' startTime endTime allowFallback [])) =
          List.filter has_data (allResults (window set startTime endTime allowFallback []))) as ->.
  { unfold allResults. rewrite E', E0, Ef, <- !app_assoc. cbn [app]. by rewrite filter_insert. }
  apply List.filter_ext_in. intros r Hr. apply List.filter_In in Hr as [Hr _]. apply list_elem_of_In in Hr.
  apply plotted_same. by apply (window_ids startTime endTime allowFallback).
Qed.

Lemma drawn_ids startTime endTime allowFallback r :
  r ∈ List.filter has_data (window_drawn set startTime endTime allowFallback) -> qr_queryId r <> qd_id q.
Proof using queries own_id own_formula_id.
  intros Hr. apply list_elem_of_In, List.filter_In in Hr as [Hr _]. apply List.filter_In in Hr as [Hr _].
  apply list_elem_of_In in Hr. by apply (window_ids startTime endTime allowFallback).
Qed.

Lemma chart_rows_same startTime endTime :
  chart_rows date_parse executor build toUpperCase toLowerCase localeCompare String_ bucket_parse fb maxDataPoints set'
    startTime endTime =
  chart_rows date_parse executor build toUpperCase toLowerCase localeCompare String_ bucket_parse fb maxDataPoints set
    startTime endTime.
Proof using queries own_id own_formula_id enabled fails.
  unfold chart_rows, drawn_before. cbn [with_query qs_mode qs_includePercentChange].
  rewrite (merge_depends toLowerCase [] [] (display_names set') (display_names set) _
    (window_drawn set startTime endTime true)); [|by apply drawn_same|].
  2:{ intros r Hr. apply names_same. rewrite drawn_same in Hr. by eapply drawn_ids. }
  destruct (mergeQueryRunResults _ _ _ [] []) as [m1 used].
  destruct (previous_period_of _ _ _ _) as [[s e]|]; [|done].
  rewrite (merge_depends toLowerCase suffix_prev used (display_names set') (display_names set) _
    (shiftRunResults bucket_parse (window_drawn set s e false) (shift_ms date_parse startTime endTime))); [done|..].
  - by rewrite !shift_filter, drawn_same.
  - intros r Hr. apply names_same. rewrite shift_filter, drawn_same in Hr.
    apply list_elem_of_fmap in Hr as (r0 & -> & Hr). cbn. by eapply drawn_ids.
Qed.

(** Adding a failure breaks no check. *)
Lemma still_plottable startTime endTime :
  check_plottable (E := E) set (window set startTime endTime true []) = Ok tt ->
  check_plottable (E := E) set' (window set' startTime endTime true []) = Ok tt.
Proof using queries own_id own_formula_id enabled fails.
  destruct (window_with startTime endTime true) as (l1 & l2 & E' & E0 & Ef). cbn zeta in E', E0, Ef.
  set (input := run_input _ _ _ _ _) in *. set (w' := window set' startTime endTime true []) in *.
  set (w := window set startTime endTime true []) in *.
  assert (has_data (run_one input q) = false) as Hd by (unfold has_data, is_success; by rewrite fails).
  unfold check_plottable. intros H.
  assert (countSuccessfulQuerySeries (wr_queryResults w') = countSuccessfulQuerySeries (wr_queryResults w)) as ->
    by (unfold countSuccessfulQuerySeries; by rewrite E', E0, filter_insert).
  destruct (_ =? 0)%nat; [done|].
  destruct (existsb has_data (allResults w)) eqn:Ed; cbn [negb] in H; [|done].
  assert (existsb has_data (allResults w') = true) as ->.
  { apply List.existsb_exists in Ed as (r & Hr & Hrd). apply List.existsb_exists. exists r. split; [|done].
    unfold allResults in *. rewrite E', Ef. rewrite E0 in Hr. rewrite !List.in_app_iff in *. cbn. tauto. }
  cbn [negb]. destruct (existsb _ (allResults w)) eqn:Ep in H; cbn [negb] in H; [|done].
  assert (existsb (fun r => is_plotted set' r && hasAnySeriesData (qr_data r)) (allResults w') = true) as ->; [|done].
  apply List.existsb_exists in Ep as (r & Hr & Hrd). apply List.existsb_exists. exists r. split.
  - unfold allResults in *. rewrite E', Ef. rewrite E0 in Hr. rewrite !List.in_app_iff in *. cbn. tauto.
  - rewrite plotted_same; [done|]. apply (window_ids startTime endTime true). by apply list_elem_of_In.
Qed.
End Failing.

(** C15: one broken query does not blank a chart. If a set has a chart, then the
    set with one more query that always fails (its draft cannot be lowered or
    the host refuses it) has a chart too, and with the same rows: the failure
    neither removes nor renames a column, and no formula changes. *)
Theorem broken_query_changes_nothing {S L E} date_parse (executor : QuerySetExecutor S L E) build toUpperCase toLowerCase
    localeCompare String_ bucket_parse fb maxDataPoints set q1 q2 q startTime endTime finished finishedPrevious finished'
    finishedPrevious' r :
  qs_queries set = q1 ++ q2 ->
  (forall q', q' ∈ q1 ++ q2 -> qd_id q' <> qd_id q) -> (forall f, f ∈ qs_formulas set -> qf_id f <> qd_id q) ->
  qd_enabled q <> Some false ->
  (forall input, qr_status (run_query date_parse executor build input q).1 = run_error) ->
  runTimeseriesQuerySet date_parse executor build toUpperCase toLowerCase localeCompare String_ bucket_parse set
    startTime endTime fb maxDataPoints finished finishedPrevious = Ok r ->
  exists r', runTimeseriesQuerySet date_parse executor build toUpperCase toLowerCase localeCompare String_ bucket_parse
      (with_query q1 q2 q set) startTime endTime fb maxDataPoints finished' finishedPrevious' = Ok r' /\
    tr_rows r' = tr_rows r.
Proof.
  intros Hq Hid Hfid Hen Hfails Hrun.
  pose proof (run_chart_cases date_parse executor build toUpperCase toLowerCase localeCompare String_ bucket_parse fb
    maxDataPoints set startTime endTime finished finishedPrevious) as H.
  unfold run_chart in H. rewrite Hrun in H. destruct H as (_ & Hc & ->).
  pose proof (run_chart_cases date_parse executor build toUpperCase toLowerCase localeCompare String_ bucket_parse fb
    maxDataPoints (with_query q1 q2 q set) startTime endTime finished' finishedPrevious') as H.
  unfold run_chart in H. destruct (runTimeseriesQuerySet _ _ _ _ _ _ _ _ (with_query q1 q2 q set) _ _ _ _ _ _) as [r'|e].
  - destruct H as (_ & _ & Er). exists r'. split; [done|]. rewrite Er. by apply chart_rows_same.
  - exfalso. destruct H as [H|H].
    + rewrite enabled_with in H by done. by destruct (List.filter _ q1).
    + by rewrite (still_plottable date_parse executor build toUpperCase fb maxDataPoints set q1 q2 q Hq Hid Hfid Hen Hfails
        startTime endTime Hc) in H.
Qed.

(** ** Two periods *)

Section Periods.
Context (bucket_parse : text -> option Z) (toLowerCase : text -> text) (names : jsmap text text).

(** The name of the bucket that starts at an instant. *)
Definition bucket_at (ms : Z) : text := lit (toISOString ms).

Definition reads_buckets : Prop := forall ms, four_digit_year ms -> bucket_parse (bucket_at ms) = Some ms.

Hypothesis reads : reads_buckets.

Lemma bucket_at_inj a b : four_digit_year a -> four_digit_year b -> bucket_at a = bucket_at b -> a = b.
Proof using reads. intros Ha Hb E. pose proof (reads a Ha) as H. rewrite E, (reads b Hb) in H. by injection H. Qed.

Lemma shift_at ms offset : four_digit_year ms -> shiftBucket bucket_parse (bucket_at ms) offset = bucket_at (ms + offset).
Proof using reads. intros H. unfold shiftBucket. by rewrite (reads ms H). Qed.

Definition shift_reading (offset : Z) (r : reading) : reading :=
  {| rd_key := rd_key r; rd_bucket := shiftBucket bucket_parse (rd_bucket r) offset; rd_value := rd_value r |}.

Lemma flat_map_map {A B C} (f : B -> list C) (g : A -> B) l : flat_map f (List.map g l) = flat_map (fun x => f (g x)) l.
Proof using. induction l as [|x l IH]; [done|]. cbn. by rewrite IH. Qed.

Lemma map_flat_map {A B C} (f : B -> C) (g : A -> list B) l :
  List.map f (flat_map g l) = flat_map (fun x => List.map f (g x)) l.
Proof using. induction l as [|x l IH]; [done|]. cbn. by rewrite List.map_app, IH. Qed.

(** Shifting the results shifts their readings. *)
Lemma shifted_readings results offset :
  set_readings toLowerCase names (shiftRunResults bucket_parse results offset) =
  List.map (shift_reading offset) (set_readings toLowerCase names results).
Proof using.
  unfold set_readings, single_query, countSuccessfulQuerySeries. rewrite shift_filter.
  set (filtered := List.filter has_data results). unfold shiftRunResults at 1 2. rewrite List.length_map.
  set (single := (length filtered <=? 1)%nat). rewrite flat_map_map, map_flat_map. apply List.flat_map_ext. intros r.
  unfold result_readings. rewrite shift_has_data. destruct (has_data r); [|done].
  unfold with_data at 2. cbn [qr_data]. unfold shiftResultPoints. rewrite flat_map_map, map_flat_map.
  apply List.flat_map_ext. intros p. unfold point_readings. cbn [tp_series tp_bucket]. rewrite map_flat_map.
  apply List.flat_map_ext. intros e. unfold entry_readings. by destruct (num_is_finite e.2).
Qed.

Lemma filter_map {A B} (p : B -> bool) (f : A -> B) l : List.filter p (List.map f l) = List.map f (List.filter (fun x => p (f x)) l).
Proof using. induction l as [|x l IH]; [done|]. cbn. destruct (p (f x)); cbn; by rewrite IH. Qed.

(** Instants at which a period has readings, before and after the shift. *)
Definition dated (offset : Z) (rs : list reading) : Prop :=
  forall r, r ∈ rs -> exists ms, rd_bucket r = bucket_at ms /\ four_digit_year ms /\ four_digit_year (ms + offset).

Lemma shifted_last key ms offset rs :
  dated offset rs -> four_digit_year ms -> four_digit_year (ms + offset) ->
  last_reading key (bucket_at (ms + offset)) (List.map (shift_reading offset) rs) = last_reading key (bucket_at ms) rs.
Proof using reads.
  intros Hd Hm Hm'. unfold last_reading. rewrite filter_map.
  rewrite (List.filter_ext_in _ (matches key (bucket_at ms))).
  - unfold shift_reading. rewrite fmap_last. by destruct (last _).
  - intros r Hr. apply list_elem_of_In in Hr. destruct (Hd r Hr) as (t & Eb & Ht & Ht').
    unfold matches. cbn [shift_reading rd_key rd_bucket]. rewrite Eb, shift_at by done. f_equal.
    apply bool_decide_ext. split; intros E; f_equal; apply bucket_at_inj in E; try done; lia.
Qed.

(** The periods of a comparison are laid over each other bucket by bucket.
    A previous bucket is shown at its start plus the length of the window, with
    its own value. If the bucket width divides that length, it is a bucket of
    the grid again and can meet a current one; if it does not, no row ever holds
    values of both periods. *)
Theorem comparison_pairs results offset width (current : list reading) :
  let before := set_readings toLowerCase names results in
  let moved := set_readings toLowerCase names (shiftRunResults bucket_parse results offset) in
  (forall r, r ∈ before -> exists k, rd_bucket r = bucket_at (k * width) /\
     four_digit_year (k * width) /\ four_digit_year (k * width + offset)) ->
  (forall r, r ∈ current -> exists k, rd_bucket r = bucket_at (k * width) /\ four_digit_year (k * width)) ->
  (forall key ms, four_digit_year ms -> four_digit_year (ms + offset) ->
     series_value key (bucket_at (ms + offset)) moved = series_value key (bucket_at ms) before) /\
  ((width | offset) -> forall r, r ∈ moved -> exists k, rd_bucket r = bucket_at (k * width)) /\
  (~ (width | offset) -> forall r r', r ∈ current -> r' ∈ moved -> rd_bucket r <> rd_bucket r').
Proof using reads.
  intros before moved Hgrid Hcur. unfold moved. rewrite shifted_readings. fold before.
  assert (forall r', r' ∈ List.map (shift_reading offset) before ->
    exists k, rd_bucket r' = bucket_at (k * width + offset) /\ four_digit_year (k * width + offset)) as Hmoved.
  { intros r' (r & -> & Hr)%list_elem_of_fmap. destruct (Hgrid r Hr) as (k & Et & Ht & Ht').
    cbn [shift_reading rd_bucket]. exists k. by rewrite Et, shift_at. }
  split_and!.
  - intros key ms Hm Hm'. unfold series_value. rewrite shifted_last; [done| |done..].
    intros r Hr. destruct (Hgrid r Hr) as (k & ? & ? & ?). by exists (k * width).
  - intros [j ->] r' Hr'. destruct (Hmoved r' Hr') as (k & E & _). exists (k + j). rewrite E. f_equal. lia.
  - intros Hnd r r' Hr Hr' E. destruct (Hmoved r' Hr') as (k' & E' & Hy'), (Hcur r Hr) as (k & E0 & Hy).
    rewrite E0, E' in E. apply bucket_at_inj in E; [|done..]. apply Hnd. exists (k - k'). lia.
Qed.
End Periods.

(** ** On concrete sets *)

Lemma broken_query_changes_nothing_witness :
  exists r r', hour_chart [requests] [0]%nat [0]%nat = Ok r /\
    hour_chart [requests; broken] [1; 0]%nat [0; 1]%nat = Ok r' /\ tr_rows r' = tr_rows r.
Proof.
  destruct (hour_chart [requests] [0]%nat [0]%nat) as [r|e] eqn:E; [|by vm_compute in E].
  destruct (broken_query_changes_nothing rfc3339_parse host build_example id id units_compare (fun _ => []) units_parse
    None None (compared_set [requests]) [requests] [] broken "2026-08-25 10:00:00" "2026-08-25 11:00:00" [0]%nat [0]%nat
    [1; 0]%nat [0; 1]%nat r) as (r' & Hr' & Hrows).
  - reflexivity.
  - intros q' Hq. apply list_elem_of_singleton in Hq as ->. by vm_compute.
  - intros f Hf. apply list_elem_of_singleton in Hf as ->. by vm_compute.
  - discriminate.
  - intros input. reflexivity.
  - exact E.
  - exists r, r'. split; [reflexivity|]. split; [exact Hr'|exact Hrows].
Defined.

(** Dates are ASCII. *)
Lemma pad_digits_ascii n : forall k s, plain_ascii s = true -> plain_ascii (pad_digits n k s) = true.
Proof.
  induction n as [|n IH]; intros k s Hs; [done|]. cbn [pad_digits]. apply IH. cbn [plain_ascii]. rewrite Hs, andb_true_r.
  pose proof (Z.mod_pos_bound k 10 ltac:(lia)). unfold digit_char, byte_of. rewrite N_ascii_embedding; lia.
Qed.

Lemma toISOString_ascii ms : plain_ascii (toISOString ms) = true.
Proof.
  unfold toISOString, wall. destruct (civil_from_days (ms / 86400000)) as [[y mo] d]. unfold iso_year.
  destruct ((0 <=? y) && (y <=? 9999)); [|cbn [plain_ascii]; rewrite andb_true_iff; split; [by destruct (y <? 0)|]];
    repeat (apply pad_digits_ascii; cbn [plain_ascii]; rewrite ?andb_true_iff; repeat (split; [reflexivity|]));
    reflexivity.
Qed.

Lemma ascii_text_units s : plain_ascii s = true -> ascii_text (utf16_units s) = s.
Proof.
  induction s as [|c s IH]; [done|]. cbn [plain_ascii utf16_units]. intros [Hc Hs]%andb_true_iff. rewrite Hc.
  cbn [ascii_text foldr]. fold (ascii_text (utf16_units s)). rewrite IH by done. f_equal.
  unfold byte_of. by rewrite N2Z.id, ascii_N_embedding.
Qed.

Lemma units_parse_reads : reads_buckets units_parse.
Proof.
  intros ms Hms. unfold units_parse, bucket_at. change (lit (toISOString ms)) with (utf16_units (toISOString ms)).
  rewrite ascii_text_units by apply toISOString_ascii. by apply (parse_formatted rfc3339_parse rfc3339_reads).
Qed.

(** Minute buckets of a window of an hour and of one of fifty-nine minutes and a
    half, in minutes since the epoch. *)
Definition minute_reading (k : Z) : reading :=
  {| rd_key := lit "q1::500"; rd_bucket := bucket_at (k * 60000); rd_value := num_of_Z 1 |}.

Definition minute_results (k : Z) : list QueryRunResult :=
  [{| qr_queryId := lit "q1"; qr_queryName := lit "A"; qr_source := lit "traces"; qr_status := run_success;
      qr_error := None; qr_warnings := []; qr_data := [{| tp_bucket := bucket_at (k * 60000);
        tp_series := [(lit "500", num_of_Z 2)] |}] |}].

Lemma comparison_pairs_witness :
  series_value (lit "q1::500") (bucket_at (29794320 * 60000 + 3600000))
    (set_readings id [] (shiftRunResults units_parse (minute_results 29794320) 3600000)) = num_of_Z 2 /\
  (forall r, r ∈ set_readings id [] (shiftRunResults units_parse (minute_results 29794320) 3570000) ->
     rd_bucket r <> bucket_at (29794380 * 60000)).
Proof.
  assert (forall r, r ∈ set_readings id [] (minute_results 29794320) ->
    rd_bucket r = bucket_at (29794320 * 60000)) as Hr.
  { intros r Hr. change (set_readings id [] (minute_results 29794320)) with
      [{| rd_key := lit "q1::500"; rd_bucket := bucket_at (29794320 * 60000); rd_value := num_of_Z 2 |}] in Hr.
    by apply list_elem_of_singleton in Hr as ->. }
  split.
  - destruct (comparison_pairs units_parse id [] units_parse_reads (minute_results 29794320) 3600000 60000 [])
      as (H & _ & _).
    + intros r H. exists 29794320. split; [by apply Hr|]. unfold four_digit_year. lia.
    + intros r H. by apply elem_of_nil in H.
    + rewrite H; [|unfold four_digit_year; lia..]. by vm_compute.
  - destruct (comparison_pairs units_parse id [] units_parse_reads (minute_results 29794320) 3570000 60000
      [minute_reading 29794380]) as (_ & _ & H).
    + intros r H. exists 29794320. split; [by apply Hr|]. unfold four_digit_year. lia.
    + intros r H. apply list_elem_of_singleton in H as ->. exists 29794380. split; [reflexivity|].
      unfold four_digit_year. lia.
    + intros r Hin E. apply (H ltac:(intros [j Hj]; lia) (minute_reading 29794380) r); [apply list_elem_of_here|exact Hin|].
      by rewrite E.
Defined.
