(* ===== verification/WhereClause.v ===== *)
(** * Where clauses

    packages/domain/src/where-clause.ts: the grammar of query filters,
    [key op value] clauses joined by AND, with one level of OR groups in
    parentheses. Texts are UTF-16 code units; the regular expressions of the
    code are written out as scanners. [toLowerCase] and [Number] are
    arguments. *)

From Stdlib Require Import Ascii String.
From stdpp Require Import prelude list.
From Stdlib Require Import ZArith Lia Floats.SpecFloat.
From S2P Require Import Prelude.
From S2P Require Import JsNum.
From S2P Require Import JsString.
From S2P Require Import IngestSha256.
From S2P Require Import IngestRegex.
From S2P Require Import JsUnits.

Open Scope Z_scope.
Local Open Scope maple_scope.

(** ** Data *)

Inductive Operator :=
  | op_eq | op_ne | op_gt | op_lt | op_ge | op_le
  | op_contains | op_not_contains | op_exists | op_not_exists.

#[export] Instance Operator_eq_dec : EqDecision Operator.
Proof. solve_decision. Defined.

Record ParsedClause := { pc_key : text; pc_rawKey : text; pc_operator : Operator; pc_value : text }.

Record WhereClauseParseWarning := { pw_message : text; pw_clause : text }.

Record ParseWhereClauseResult := {
  clauses : list ParsedClause;
  groups : list (list ParsedClause);
  warnings : list WhereClauseParseWarning;
}.

(** ** Values *)

Section Values.
Context (toLowerCase : text -> text) (Number : text -> num).

Definition normalizeKey (raw : text) : text :=
  let k := toLowerCase (trim_text raw) in
  if bool_decide (k = lit "service") then lit "service.name"
  else if bool_decide (k = lit "span") then lit "span.name"
  else if bool_decide (k ∈ [lit "environment"; lit "env"; lit "deployment.environment.name"]) then
    lit "deployment.environment"
  else if bool_decide (k ∈ [lit "commit_sha"; lit "deployment.commit_sha"]) then lit "vcs.ref.head.revision"
  else if bool_decide (k = lit "root.only") then lit "root_only"
  else if bool_decide (k = lit "errors_only") then lit "has_error"
  else k.

Definition TRUE_VALUES : list text := List.map lit ["1"; "true"; "yes"; "y"]%string.
Definition FALSE_VALUES : list text := List.map lit ["0"; "false"; "no"; "n"]%string.

Definition parseBoolean (value : text) : option bool :=
  let normalized := toLowerCase (trim_text value) in
  if bool_decide (normalized ∈ TRUE_VALUES) then Some true
  else if bool_decide (normalized ∈ FALSE_VALUES) then Some false
  else None.

Definition parseNumber (value : text) : option num :=
  match trim_text value with
  | [] => None
  | _ => let parsed := Number value in if num_is_finite parsed then Some parsed else None
  end.
End Values.

Definition not_empty (a : text) : bool := match a with [] => false | _ => true end.

Definition splitCsv (input : text) : list text :=
  List.filter not_empty (List.map trim_text (split_text (lit ",") input)).

(** ** Splitting *)

Definition upper_ascii (c : Z) : Z := if (97 <=? c) && (c <=? 122) then c - 32 else c.
Definition lower_ascii (c : Z) : Z := if (65 <=? c) && (c <=? 90) then c + 32 else c.

(** The rest after a word, upper case in [w], in any case. *)
Fixpoint strip_word (w a : text) : option text :=
  match w with
  | [] => Some a
  | x :: w' => match a with c :: a' => if upper_ascii c =? x then strip_word w' a' else None | [] => None end
  end.

(** [\s+]: the rest after some white space. *)
Definition skip_spaces (a : text) : option text :=
  match a with c :: a' => if is_space c then Some (skip_space a') else None | [] => None end.

(** The length of [^\s+KEYWORD\s+] at the start of a text. *)
Definition separator (keyword a : text) : option nat :=
  r1 ← skip_spaces a; r2 ← strip_word keyword r1; r3 ← skip_spaces r2; Some (length a - length r3)%nat.

Definition is_quote (c : Z) : bool := (c =? 34) || (c =? 39).
Definition is_gap (c : Z) : bool := (c =? 32) || (c =? 9) || (c =? 10) || (c =? 13).

(** The scan of [splitOnKeyword]: [skip] counts the units of a separator still
    to drop, [piece] is the part read so far. *)
Fixpoint split_scan (keyword : text) (depth : Z) (quote : option Z) (skip : nat) (piece a : text) : list text :=
  match a with
  | [] => [piece]
  | c :: a' =>
      match skip with
      | S n => split_scan keyword depth quote n piece a'
      | O =>
          let go depth quote := split_scan keyword depth quote 0 (piece ++ [c]) a' in
          match quote with
          | Some q => go depth (if c =? q then None else quote)
          | None =>
              if is_quote c then go depth (Some c)
              else if c =? 40 then go (depth + 1) None
              else if c =? 41 then go (Z.max 0 (depth - 1)) None
              else if (depth =? 0) && is_gap c then
                match separator keyword a with
                | Some n => piece :: split_scan keyword depth None (n - 1) [] a'
                | None => go depth None
                end
              else go depth None
          end
      end
  end.

Definition splitOnKeyword (keyword expression : text) : list text :=
  List.filter not_empty (List.map trim_text (split_scan keyword 0 None 0 [] expression)).

Definition AND : text := lit "AND".
Definition OR : text := lit "OR".

Definition splitWhereClause (expression : text) : list text := splitOnKeyword AND expression.

Definition quoteWhereValue (value : text) : text :=
  if negb (existsb (fun c => c =? 34) value) then [34] ++ value ++ [34]
  else if negb (existsb (fun c => c =? 39) value) then [39] ++ value ++ [39]
  else [34] ++ value ++ [34].

(** ** Clauses *)

Definition is_key_char (c : Z) : bool :=
  ((97 <=? c) && (c <=? 122)) || ((65 <=? c) && (c <=? 90)) || is_decimal c || (c =? 95) || (c =? 46) || (c =? 45).

Fixpoint span_key (a : text) : text * text :=
  match a with
  | c :: a' => if is_key_char c then let '(k, r) := span_key a' in (c :: k, r) else ([], a)
  | [] => ([], [])
  end.

(** A text between two quotes [q] with none inside. *)
Definition between (q : Z) (a : text) : option text :=
  match a with
  | c :: a' =>
      if c =? q then
        match rev a' with
        | d :: body => if (d =? q) && negb (existsb (fun c => c =? q) body) then Some (rev body) else None
        | [] => None
        end
      else None
  | [] => None
  end.

(** A value to the end of a clause: quoted either way, or a text without white
    space; which of the last it was. *)
Definition read_value (a : text) : option (text * bool) :=
  match between 34 a with
  | Some v => Some (v, false)
  | None =>
      match between 39 a with
      | Some v => Some (v, false)
      | None =>
          match a with
          | [] => None
          | _ => if existsb is_space a then None else Some (a, true)
          end
      end
  end.

Definition word_end (w a : text) : bool := match strip_word w a with Some [] => true | _ => false end.

(** The value after [CONTAINS\s+]. *)
Definition after_contains (a : text) : option text :=
  r ← strip_word (lit "CONTAINS") a; r' ← skip_spaces r; fst <$> read_value r'.

(** The comparison operators in the order the expression tries them. *)
Definition comparisons : list (text * Operator) :=
  [(lit "!=", op_ne); (lit "<=", op_le); (lit ">=", op_ge); (lit "<", op_lt); (lit ">", op_gt); (lit "=", op_eq)].

Fixpoint read_comparison (ops : list (text * Operator)) (a : text) : option (Operator * text * bool) :=
  match ops with
  | [] => None
  | (w, op) :: ops' =>
      match (if starts_with a w then read_value (skip_space (drop (length w) a)) else None) with
      | Some (v, bare) => Some (op, v, bare)
      | None => read_comparison ops' a
      end
  end.

Definition unsupported (part : text) : WhereClauseParseWarning :=
  {| pw_message := lit "Unsupported clause syntax ignored: " ++ part; pw_clause := part |}.

Definition unclosed (part : text) : WhereClauseParseWarning :=
  {| pw_message := lit "Unclosed quote in clause: " ++ part; pw_clause := part |}.

Definition clause_of (key : text) (op : Operator) (value : text) : ParsedClause :=
  {| pc_key := List.map lower_ascii key; pc_rawKey := key; pc_operator := op; pc_value := trim_text value |}.

(** The rest after an exclamation mark and white space. *)
Definition after_bang (a : text) : option text :=
  match a with c :: r => if c =? 33 then Some (skip_space r) else None | [] => None end.

(** One clause, or the warning that says why it is none. *)
Definition parseSimpleClause (part : text) : result WhereClauseParseWarning ParsedClause :=
  match span_key part with
  | ([], _) => Err (unsupported part)
  | (key, rest) =>
      let after_key := skip_spaces rest in
      let negated := after_key ≫= after_bang in
      if default false (word_end (lit "EXISTS") <$> negated) then Ok (clause_of key op_not_exists [])
      else if default false (word_end (lit "EXISTS") <$> after_key) then Ok (clause_of key op_exists [])
      else
        match negated ≫= after_contains with
        | Some value => Ok (clause_of key op_not_contains value)
        | None =>
            match after_key ≫= after_contains with
            | Some value => Ok (clause_of key op_contains value)
            | None =>
                match read_comparison comparisons (skip_space rest) with
                | Some (op, value, bare) =>
                    if bare && match value with c :: _ => is_quote c | [] => false end then Err (unclosed part)
                    else Ok (clause_of key op value)
                | None => Err (unsupported part)
                end
            end
        end
  end.

(** ** Groups *)

(** The scan of [unwrapParentheses]: the depth at the end, or none if the
    parentheses close before. *)
Fixpoint unwrap_scan (depth : Z) (quote : option Z) (a : text) : option Z :=
  match a with
  | [] => Some depth
  | c :: a' =>
      match quote with
      | Some q => unwrap_scan depth (if c =? q then None else quote) a'
      | None =>
          if is_quote c then unwrap_scan depth (Some c) a'
          else if c =? 40 then unwrap_scan (depth + 1) None a'
          else if c =? 41 then
            if (depth - 1 =? 0) && not_empty a' then None else unwrap_scan (depth - 1) None a'
          else unwrap_scan depth None a'
      end
  end.

Definition unwrapParentheses (part : text) : option text :=
  if starts_with part (lit "(") && ends_with part (lit ")") then
    match unwrap_scan 0 None part with
    | Some 0 => Some (trim_text (take (length part - 2) (drop 1 part)))
    | _ => None
    end
  else None.

Definition add_clause (c : ParsedClause) (r : ParseWhereClauseResult) : ParseWhereClauseResult :=
  {| clauses := clauses r ++ [c]; groups := groups r; warnings := warnings r |}.
Definition add_group (g : list ParsedClause) (r : ParseWhereClauseResult) : ParseWhereClauseResult :=
  {| clauses := clauses r; groups := groups r ++ [g]; warnings := warnings r |}.
Definition add_warning (w : WhereClauseParseWarning) (r : ParseWhereClauseResult) : ParseWhereClauseResult :=
  {| clauses := clauses r; groups := groups r; warnings := warnings r ++ [w] |}.

Definition group_ignored (part : text) : WhereClauseParseWarning :=
  {| pw_message := lit "OR group ignored: every member must be a single clause, without AND or nested parentheses: " ++
                     part;
     pw_clause := part |}.

(** The clauses among some results. *)
Definition valid_clauses (l : list (result WhereClauseParseWarning ParsedClause)) : list ParsedClause :=
  omap (fun r => match r with Ok c => Some c | Err _ => None end) l.

Definition parse_part (orGroups : bool) (r : ParseWhereClauseResult) (part : text) : ParseWhereClauseResult :=
  match unwrapParentheses part with
  | None =>
      match parseSimpleClause part with Err w => add_warning w r | Ok c => add_clause c r end
  | Some inner =>
      let members := splitOnKeyword OR inner in
      if bool_decide (length members = 1%nat) then
        match parseSimpleClause inner with Err _ => add_warning (unsupported part) r | Ok c => add_clause c r end
      else if negb orGroups then add_warning (unsupported part) r
      else
        let parsedMembers := List.map parseSimpleClause members in
        let valid := valid_clauses parsedMembers in
        if bool_decide (length valid = length parsedMembers) then add_group valid r
        else add_warning (group_ignored part) r
  end.

Definition parseWhereClause (expression : text) (orGroups : bool) : ParseWhereClauseResult :=
  let none := {| clauses := []; groups := []; warnings := [] |} in
  match trim_text expression with
  | [] => none
  | trimmed => fold_left (parse_part orGroups) (splitWhereClause trimmed) none
  end.

Example where_ex :
  let r := parseWhereClause (lit "service.name = 'a and b' AND (Status >= 500 or error exists) and x !contains y") true in
  List.map (fun c => (pc_key c, pc_operator c, pc_value c)) (clauses r) =
    [(lit "service.name", op_eq, lit "a and b"); (lit "x", op_not_contains, lit "y")] /\
  List.map (List.map (fun c => (pc_rawKey c, pc_operator c))) (groups r) =
    [[(lit "Status", op_ge); (lit "error", op_exists)]] /\ warnings r = [].
Proof. by vm_compute. Qed.
