(* ===== verification/WhereReads.v ===== *)
(** * Where clauses read back

    Whatever the spacing, the letter case of the words and the kind of quotes,
    a conjunction of clauses and OR groups is read as the clauses it writes. *)

From Stdlib Require Import Ascii String.
From stdpp Require Import prelude list.
From Stdlib Require Import ZArith Lia ZifyBool.
From S2P Require Import Prelude.
From S2P Require Import JsNum.
From S2P Require Import JsString.
From S2P Require Import IngestSha256.
From S2P Require Import IngestRegex.
From S2P Require Import JsUnits.
From S2P Require Import WhereClause.

Open Scope Z_scope.
Local Open Scope maple_scope.

(** ** Written clauses *)

(** A word in any letter case. *)
Definition cased (w a : text) : Prop := List.map upper_ascii a = w.

Definition key_text (key : text) : Prop := key <> [] /\ Forall (fun c => is_key_char c = true) key.

(** A unit of a value without quotes. *)
Definition bare_char (c : Z) : bool := negb (is_space c) && negb (is_quote c) && negb (c =? 40) && negb (c =? 41).

(** A value: between quotes that do not occur in it, or bare; a bare value is no
    keyword and does not start with an equals sign. *)
Inductive value_written : text -> text -> Prop :=
  | value_quoted q v : is_quote q = true -> Forall (fun c => c <> q) v -> value_written v (q :: v ++ [q])
  | value_bare v : v <> [] -> Forall (fun c => bare_char c = true) v ->
      ~ cased AND v -> ~ cased OR v -> head v <> Some 61 -> value_written v v.

(** White space before and after the word of a clause. *)
Inductive clause_written : ParsedClause -> text -> Prop :=
  | clause_compare key g1 w op g2 v t : key_text key -> spaces g1 -> (w, op) ∈ comparisons -> spaces g2 ->
      value_written v t -> clause_written (clause_of key op v) (key ++ g1 ++ w ++ g2 ++ t)
  | clause_contains key g1 w g2 v t : key_text key -> spaces g1 -> g1 <> [] -> cased (lit "CONTAINS") w ->
      spaces g2 -> g2 <> [] -> value_written v t -> clause_written (clause_of key op_contains v) (key ++ g1 ++ w ++ g2 ++ t)
  | clause_not_contains key g1 g w g2 v t : key_text key -> spaces g1 -> g1 <> [] -> spaces g ->
      cased (lit "CONTAINS") w -> spaces g2 -> g2 <> [] -> value_written v t ->
      clause_written (clause_of key op_not_contains v) (key ++ g1 ++ 33 :: g ++ w ++ g2 ++ t)
  | clause_exists key g1 w : key_text key -> spaces g1 -> g1 <> [] -> cased (lit "EXISTS") w ->
      clause_written (clause_of key op_exists []) (key ++ g1 ++ w)
  | clause_not_exists key g1 g w : key_text key -> spaces g1 -> g1 <> [] -> spaces g -> cased (lit "EXISTS") w ->
      clause_written (clause_of key op_not_exists []) (key ++ g1 ++ 33 :: g ++ w).

(** [\s+KEYWORD\s+]; a separator starts with a space, a tab or a line break. *)
Definition separator_written (keyword s : text) : Prop :=
  exists g1 c w g2, s = c :: g1 ++ w ++ g2 /\ is_gap c = true /\ spaces g1 /\ cased keyword w /\ spaces g2 /\ g2 <> [].

(** ** Words *)

Lemma cased_cons x w a : cased (x :: w) a -> exists c a', a = c :: a' /\ upper_ascii c = x /\ cased w a'.
Proof. destruct a as [|c a]; [done|]. intros [= <- <-]. by exists c, a. Qed.

Lemma strip_cased w a rest : cased w a -> strip_word w (a ++ rest) = Some rest.
Proof.
  revert a. induction w as [|x w IH]; intros a H; [by destruct a|].
  apply cased_cons in H as (c & a' & -> & Hc & Ha). cbn. rewrite Hc, Z.eqb_refl. by apply IH.
Qed.

Lemma strip_word_head x w c a : upper_ascii c <> x -> strip_word (x :: w) (c :: a) = None.
Proof. intros H. cbn. by rewrite (proj2 (Z.eqb_neq _ _) H). Qed.

(** A word that is read up to [rest] is the word and [rest]. *)
Lemma strip_word_inv w : forall a rest, strip_word w a = Some rest -> exists a', a = a' ++ rest /\ cased w a'.
Proof.
  induction w as [|x w IH]; intros a rest; cbn; [intros [= ->]; by exists []|].
  destruct a as [|c a]; [done|]. destruct (Z.eqb_spec (upper_ascii c) x) as [<-|]; [|done].
  intros (a' & -> & Ha)%IH. exists (c :: a'). split; [done|]. unfold cased. cbn. by rewrite Ha.
Qed.

Lemma skip_space_id a : solid a \/ a = [] -> skip_space a = a.
Proof. intros [H| ->]; [|done]. destruct a as [|c a]; [done|]. cbn in *. by rewrite H. Qed.

Lemma skip_spaces_app g a : spaces g -> g <> [] -> solid a \/ a = [] -> skip_spaces (g ++ a) = Some a.
Proof.
  intros Hg Hne Ha. destruct g as [|c g]; [done|]. apply Forall_cons in Hg as [Hc Hg]. cbn. rewrite Hc.
  by rewrite skip_space_app, skip_space_id.
Qed.

Lemma skip_space_before g a : spaces g -> solid a \/ a = [] -> skip_space (g ++ a) = a.
Proof. intros Hg Ha. by rewrite skip_space_app, skip_space_id. Qed.

Lemma key_char_facts c : is_key_char c = true ->
  is_space c = false /\ is_quote c = false /\ (c =? 40) = false /\ (c =? 41) = false /\ is_gap c = false.
Proof. unfold is_key_char, is_space, is_quote, is_gap, is_decimal. lia. Qed.

Lemma key_solid key a : key_text key -> solid (key ++ a).
Proof. intros [Hne H]. destruct key as [|c key]; [done|]. apply Forall_cons in H as [Hc _]. by destruct (key_char_facts c Hc). Qed.

Lemma span_key_app key a : key_text key -> match a with c :: _ => is_key_char c = false | [] => True end ->
  span_key (key ++ a) = (key, a).
Proof.
  intros [_ H] Ha. induction H as [|c key Hc H IH]; cbn; [|by rewrite Hc, IH].
  destruct a as [|c a]; [done|]. cbn. by rewrite Ha.
Qed.

Lemma space_not_key c : is_space c = true -> is_key_char c = false.
Proof. destruct (is_key_char c) eqn:E; [|done]. apply key_char_facts in E. by destruct E as [-> _]. Qed.

(** ** Values *)

Lemma quote_cases q : is_quote q = true -> q = 34 \/ q = 39.
Proof. unfold is_quote. lia. Qed.

Lemma existsb_none {A} (p : A -> bool) l : Forall (fun x => p x = false) l -> existsb p l = false.
Proof. induction 1 as [|x l Hx _ IH]; [done|]. cbn. by rewrite Hx, IH. Qed.

Lemma between_quoted q v : Forall (fun c => c <> q) v -> between q (q :: v ++ [q]) = Some v.
Proof.
  intros Hv. cbn. rewrite Z.eqb_refl, rev_app_distr. cbn. rewrite Z.eqb_refl, existsb_none; [cbn; by rewrite rev_involutive|].
  apply Forall_rev. eapply Forall_impl; [exact Hv|]. intros c Hc. cbv beta. by apply Z.eqb_neq.
Qed.

Lemma bare_char_facts c : bare_char c = true ->
  is_space c = false /\ is_quote c = false /\ (c =? 40) = false /\ (c =? 41) = false /\ is_gap c = false.
Proof.
  unfold bare_char. rewrite !andb_true_iff, !negb_true_iff. intros [[[Hs Hq] H1] H2]. split_and!; [done..|].
  unfold is_gap, is_space in *. lia.
Qed.

(** A written value is read; it never looks unclosed. *)
Lemma value_is_read v t : value_written v t ->
  exists bare, read_value t = Some (v, bare) /\ bare && match v with c :: _ => is_quote c | [] => false end = false.
Proof.
  intros [q v' Hq Hv|v' Hne Hv _ _ _]; unfold read_value.
  - exists false. split; [|done]. apply quote_cases in Hq as [-> | ->].
    + by rewrite between_quoted.
    + change (between 34 (39 :: v' ++ [39])) with (@None text). by rewrite between_quoted.
  - destruct v' as [|c v']; [done|]. pose proof (proj1 (Forall_cons _ _ _) Hv) as [Hc _].
    apply bare_char_facts in Hc as (Hs & Hq & _). exists true. cbn [andb]. rewrite Hq. split; [|done].
    unfold between. apply orb_false_iff in Hq as [H34 H39]. rewrite H34, H39.
    rewrite existsb_none; [done|]. eapply Forall_impl; [exact Hv|]. intros d Hd. by destruct (bare_char_facts d Hd).
Qed.

(** A written value starts with a unit that is neither white space nor an
    equals sign, and ends with one that is no white space. *)
Lemma value_ends v t : value_written v t ->
  exists c t', t = c :: t' /\ is_space c = false /\ c <> 61 /\ solid (rev t).
Proof.
  intros [q v' Hq Hv|v' Hne Hv _ _ He].
  - exists q, (v' ++ [q]). split; [done|]. apply quote_cases in Hq as Hq'.
    split_and!; [by destruct Hq' as [->| ->]|by destruct Hq' as [->| ->]|].
    cbn. rewrite rev_app_distr. cbn. by destruct Hq' as [->| ->].
  - destruct v' as [|c v']; [done|]. pose proof (proj1 (Forall_cons _ _ _) Hv) as [Hc _].
    exists c, v'. split_and!; [done|by destruct (bare_char_facts c Hc)|by intros ->|].
    destruct (rev (c :: v')) as [|d r] eqn:E; [by apply (f_equal length) in E; rewrite length_rev in E|].
    assert (d ∈ c :: v') as Hd by (apply list_elem_of_In, in_rev; rewrite E; by left).
    rewrite Forall_forall in Hv. by destruct (bare_char_facts d (Hv d Hd)).
Qed.

Lemma value_solid v t : value_written v t -> solid t.
Proof. intros (c & t' & -> & Hc & _)%value_ends. done. Qed.

Lemma after_contains_written w g v t : cased (lit "CONTAINS") w -> spaces g -> g <> [] -> value_written v t ->
  after_contains (w ++ g ++ t) = Some v.
Proof.
  intros Hw Hg Hne Hv. unfold after_contains. rewrite strip_cased by done. cbn [mbind option_bind].
  rewrite skip_spaces_app; [|done|done|left; by eapply value_solid]. cbn [mbind option_bind].
  destruct (value_is_read v t Hv) as (bare & -> & _). done.
Qed.

(** The tail after an operator cannot lengthen the operator. *)
Lemma tail_not_eq g v t : spaces g -> value_written v t -> starts_with (g ++ t) [61] = false.
Proof.
  intros Hg Hv. destruct g as [|c g].
  - destruct (value_ends v t Hv) as (c & t' & -> & _ & Hc & _). cbn. by rewrite (proj2 (Z.eqb_neq _ _) Hc).
  - apply Forall_cons in Hg as [Hc _]. cbn. unfold is_space in Hc. destruct (Z.eqb_spec c 61); [by subst|by destruct (g ++ t)].
Qed.

Lemma read_comparison_written w op g v t : (w, op) ∈ comparisons -> spaces g -> value_written v t ->
  exists bare, read_comparison comparisons (w ++ g ++ t) = Some (op, v, bare) /\
    bare && match v with c :: _ => is_quote c | [] => false end = false.
Proof.
  intros Hop Hg Hv. pose proof (tail_not_eq g v t Hg Hv) as Htail.
  destruct (value_is_read v t Hv) as (bare & Hread & Hbare). exists bare. split; [|done].
  assert (skip_space (g ++ t) = t) as Hskip by (apply skip_space_before; [done|left; by eapply value_solid]).
  assert (forall c, starts_with (c :: g ++ t) [c; 61] = starts_with (g ++ t) [61]) as Heq
    by (intros c; cbn; by rewrite Z.eqb_refl).
  unfold comparisons in Hop. rewrite !elem_of_cons, elem_of_nil in Hop.
  unfold comparisons.
  change (lit "!=") with [33; 61] in *. change (lit "<=") with [60; 61] in *. change (lit ">=") with [62; 61] in *.
  change (lit "<") with [60] in *. change (lit ">") with [62] in *. change (lit "=") with [61] in *.
  destruct Hop as [[= -> ->]|[[= -> ->]|[[= -> ->]|[[= -> ->]|[[= -> ->]|[[= -> ->]|[]]]]]]];
    cbn [read_comparison app]; rewrite ?Heq, ?Htail; cbn [starts_with Z.eqb Pos.eqb andb drop length];
    rewrite ?Hskip, ?Hread; try done.
  all: destruct (g ++ t); cbn [starts_with drop length]; rewrite ?Hskip, ?Hread; done.
Qed.

(** ** One clause *)

Definition CONTAINS : text := lit "CONTAINS".
Definition EXISTS : text := lit "EXISTS".

(** A text that starts with no letter of these words is neither. *)
Definition no_word (a : text) : Prop :=
  match a with c :: _ => upper_ascii c <> 67 /\ upper_ascii c <> 69 | [] => True end.

Lemma no_word_reads a : no_word a -> word_end EXISTS a = false /\ after_contains a = None.
Proof.
  destruct a as [|c a]; [done|]. intros [H1 H2]. unfold word_end, after_contains.
  change EXISTS with (69 :: lit "XISTS"). change (lit "CONTAINS") with (67 :: lit "ONTAINS").
  by rewrite !strip_word_head.
Qed.

Lemma word_end_cased w : cased EXISTS w -> word_end EXISTS w = true.
Proof. intros H. unfold word_end. rewrite <- (app_nil_r w). by rewrite strip_cased. Qed.

Lemma contains_not_exists w a : cased CONTAINS w -> word_end EXISTS (w ++ a) = false.
Proof.
  intros H. change CONTAINS with (67 :: lit "ONTAINS") in H. apply cased_cons in H as (c & w' & -> & Hc & _).
  unfold word_end. change EXISTS with (69 :: lit "XISTS"). cbn [app]. by rewrite strip_word_head by lia.
Qed.

Lemma cased_solid x w a b : cased (x :: w) a -> (65 <=? x) && (x <=? 90) = true -> solid (a ++ b).
Proof.
  intros (c & a' & -> & Hc & _)%cased_cons Hx. cbn. unfold upper_ascii in Hc. unfold is_space.
  destruct ((97 <=? c) && (c <=? 122)) eqn:E; lia.
Qed.

Lemma contains_solid w a : cased CONTAINS w -> solid (w ++ a).
Proof. intros H. by apply (cased_solid 67 (lit "ONTAINS")). Qed.

Lemma exists_solid w : cased EXISTS w -> solid w.
Proof. intros H. rewrite <- (app_nil_r w). by apply (cased_solid 69 (lit "XISTS")). Qed.

(** What the readers of a clause see after its key. *)
Lemma key_rest key g a : key_text key -> spaces g -> (g <> [] \/ match a with c :: _ => is_key_char c = false | [] => True end) ->
  span_key (key ++ g ++ a) = (key, g ++ a).
Proof.
  intros Hk Hg Ha. apply span_key_app; [done|]. destruct g as [|c g].
  - by destruct Ha.
  - apply Forall_cons in Hg as [Hc _]. by apply space_not_key.
Qed.

Lemma parse_key key rest : key_text key -> span_key (key ++ rest) = (key, rest) ->
  parseSimpleClause (key ++ rest) =
  let after_key := skip_spaces rest in
  let negated := after_key ≫= after_bang in
  if default false (word_end EXISTS <$> negated) then Ok (clause_of key op_not_exists [])
  else if default false (word_end EXISTS <$> after_key) then Ok (clause_of key op_exists [])
  else
    match negated ≫= after_contains with
    | Some value => Ok (clause_of key op_not_contains value)
    | None =>
        match after_key ≫= after_contains with
        | Some value => Ok (clause_of key op_contains value)
        | None =>
            match read_comparison comparisons (skip_space rest) with
            | Some (op, value, bare) =>
                if bare && match value with c :: _ => is_quote c | [] => false end then Err (unclosed (key ++ rest))
                else Ok (clause_of key op value)
            | None => Err (unsupported (key ++ rest))
            end
        end
    end.
Proof. intros [Hne _] E. unfold parseSimpleClause. rewrite E. by destruct key. Qed.

(** The word of a comparison is no word of the other clauses. *)
Lemma comparison_facts w op : (w, op) ∈ comparisons ->
  exists c w', w = c :: w' /\ is_space c = false /\ is_key_char c = false /\ upper_ascii c <> 67 /\ upper_ascii c <> 69 /\
    upper_ascii c <> 65 /\ upper_ascii c <> 79 /\ is_quote c = false /\ (c =? 40) = false /\ (c =? 41) = false /\
    (c = 33 -> w' = [61]) /\ Forall (fun d => is_quote d = false /\ (d =? 40) = false /\ (d =? 41) = false /\ is_gap d = false) w'.
Proof.
  intros H. unfold comparisons in H. rewrite !elem_of_cons, elem_of_nil in H.
  destruct H as [[= -> ->]|[[= -> ->]|[[= -> ->]|[[= -> ->]|[[= -> ->]|[[= -> ->]|[]]]]]]];
    eexists _, _; (split; [reflexivity|]); vm_compute; split_and!; try done; repeat constructor; done.
Qed.

Lemma word_no_bang x w a b : cased (x :: w) a -> x <> 33 -> after_bang (a ++ b) = None.
Proof.
  intros (c & a' & -> & Hc & _)%cased_cons Hx. cbn. destruct (Z.eqb_spec c 33) as [->|]; [by destruct Hx|done].
Qed.

Lemma parse_written c t : clause_written c t -> parseSimpleClause t = Ok c.
Proof.
  intros [key g1 w op g2 v t' Hk Hg1 Hop Hg2 Hv|key g1 w g2 v t' Hk Hg1 Hn1 Hw Hg2 Hn2 Hv
    |key g1 g w g2 v t' Hk Hg1 Hn1 Hg Hw Hg2 Hn2 Hv|key g1 w Hk Hg1 Hn1 Hw|key g1 g w Hk Hg1 Hn1 Hg Hw].
  - destruct (comparison_facts w op Hop) as (c0 & w' & Ew & Hc & Hck & H1 & H2 & _ & _ & _ & _ & _ & H33 & _).
    rewrite parse_key; [|done|apply key_rest; [done|done|right; by rewrite Ew]].
    destruct (read_comparison_written w op g2 v t' Hop Hg2 Hv) as (bare & Hread & Hbare).
    assert (solid (w ++ g2 ++ t')) as Hsolid by (by rewrite Ew).
    assert (skip_spaces (g1 ++ w ++ g2 ++ t') = match g1 with [] => None | _ => Some (w ++ g2 ++ t') end) as ->.
    { destruct g1 as [|d g1]; [|by apply skip_spaces_app; [| |left]]. cbn. rewrite Ew. cbn. by rewrite Hc. }
    rewrite skip_space_before by (done || by left). cbn zeta.
    assert (word_end EXISTS (w ++ g2 ++ t') = false /\ after_contains (w ++ g2 ++ t') = None) as [Hn1 Hn2]
      by (apply no_word_reads; rewrite Ew; by split).
    set (after := match g1 with [] => None | _ => Some (w ++ g2 ++ t') end).
    assert (default false (word_end EXISTS <$> after) = false /\ (after ≫= after_contains) = None) as [-> ->]
      by (unfold after; destruct g1;
        cbn [mbind option_bind fmap option_fmap option_map from_option]; rewrite ?Hn1, ?Hn2; done).
    set (negated := after ≫= after_bang).
    assert (default false (word_end EXISTS <$> negated) = false /\ (negated ≫= after_contains) = None) as [-> ->].
    { unfold negated, after. destruct g1; [done|]. rewrite Ew. cbn [app mbind option_bind after_bang].
      destruct (Z.eqb_spec c0 33) as [->|Hne]; [|done].
      rewrite (H33 eq_refl). cbn [app]. change (skip_space (61 :: g2 ++ t')) with (61 :: g2 ++ t').
      destruct (no_word_reads (61 :: g2 ++ t')) as [E1 E2]; [by vm_compute|]. cbn [fmap option_fmap option_map from_option].
      cbn [mbind option_bind]. rewrite E2. split; [by rewrite E1|done]. }
    rewrite Hread, Hbare. done.
  - rewrite parse_key; [|done|apply key_rest; [done|done|by left]].
    rewrite skip_spaces_app; [|done|done|left; by apply contains_solid]. cbn zeta.
    assert (after_contains (w ++ g2 ++ t') = Some v) as Hafter by by apply after_contains_written.
    cbn [mbind option_bind]. rewrite (word_no_bang 67 (lit "ONTAINS")) by done.
    cbn [fmap option_fmap option_map from_option mbind option_bind]. unfold id.
    rewrite contains_not_exists by done. by rewrite Hafter.
  - rewrite parse_key; [|done|apply key_rest; [done|done|by left]].
    rewrite skip_spaces_app by (done || by left). cbn zeta. cbn [mbind option_bind after_bang].
    change (33 =? 33) with true. cbv iota. rewrite skip_space_before by (done || left; by apply contains_solid).
    cbn [fmap option_fmap option_map from_option mbind option_bind].
    rewrite contains_not_exists by done. rewrite (after_contains_written w g2 v t') by done.
    destruct (no_word_reads (33 :: g ++ w ++ g2 ++ t')) as [-> _]; [by vm_compute|]. done.
  - rewrite parse_key; [|done|apply key_rest; [done|done|by left]].
    rewrite skip_spaces_app; [|done|done|left; by apply exists_solid]. cbn zeta.
    cbn [mbind option_bind]. rewrite <- (app_nil_r w), (word_no_bang 69 (lit "XISTS")), app_nil_r by done.
    cbn [fmap option_fmap option_map from_option]. unfold id. by rewrite word_end_cased.
  - rewrite parse_key; [|done|apply key_rest; [done|done|by left]].
    rewrite skip_spaces_app by (done || by left). cbn zeta. cbn [mbind option_bind after_bang].
    change (33 =? 33) with true. cbv iota. rewrite skip_space_before by (done || left; by apply exists_solid).
    cbn [fmap option_fmap option_map from_option]. by rewrite word_end_cased.
Qed.
