(* ===== verification/WhereSplit.v ===== *)
(** * Where clauses: splitting

    Clauses and OR groups joined by keywords are split exactly at the
    keywords, and a whole filter is read as what it writes. *)

From Stdlib Require Import Ascii String.
From stdpp Require Import prelude list.
From Stdlib Require Import ZArith Lia ZifyBool.
From S2P Require Import Prelude.
From S2P Require Import JsNum.
From S2P Require Import JsString.
From S2P Require Import IngestSha256.
From S2P Require Import IngestRegex.
From S2P Require Import JsUnits.
From S2P Require Import WhereClause.
From S2P Require Import WhereReads.

Open Scope Z_scope.
Local Open Scope maple_scope.

(** ** Filters as they are written *)

(** Texts joined by a keyword. *)
Inductive joined (keyword : text) : list text -> text -> Prop :=
  | joined_one t : joined keyword [t] t
  | joined_more t s ts rest : separator_written keyword s -> joined keyword ts rest ->
      joined keyword (t :: ts) (t ++ s ++ rest).

(** A filter is a conjunction of clauses and of alternatives. *)
Inductive Item := One (c : ParsedClause) | Any (cs : list ParsedClause).

Inductive item_written : Item -> text -> Prop :=
  | written_clause c t : clause_written c t -> item_written (One c) t
  | written_parens c t g1 g2 : clause_written c t -> spaces g1 -> spaces g2 ->
      item_written (One c) (40 :: g1 ++ t ++ g2 ++ [41])
  | written_group cs ts inner g1 g2 : (2 <= length cs)%nat -> Forall2 clause_written cs ts -> joined OR ts inner ->
      spaces g1 -> spaces g2 -> item_written (Any cs) (40 :: g1 ++ inner ++ g2 ++ [41]).

(** The texts of the items of a filter, and the filter. *)
Definition filter_written (items : list Item) (ts : list text) (e : text) : Prop :=
  Forall2 item_written items ts /\
  exists g1 a g2, spaces g1 /\ spaces g2 /\ joined AND ts a /\ e = g1 ++ a ++ g2.

Definition item_clause (i : Item) : option ParsedClause := match i with One c => Some c | Any _ => None end.
Definition item_group (i : Item) : option (list ParsedClause) := match i with One _ => None | Any cs => Some cs end.

(** The warnings of the groups of a caller without OR groups. *)
Definition refused (items : list Item) (ts : list text) : list WhereClauseParseWarning :=
  omap (fun '(i, t) => match i with One _ => None | Any _ => Some (unsupported t) end) (zip items ts).

(** ** The scan *)

Definition scan (keyword : text) (depth : Z) (piece a : text) : list text := split_scan keyword depth None 0 piece a.

Definition plain (c : Z) : Prop := is_quote c = false /\ (c =? 40) = false /\ (c =? 41) = false.

(** Plain units and quoted values. *)
Inductive flat : text -> Prop :=
  | flat_nil : flat []
  | flat_plain c a : plain c -> flat a -> flat (c :: a)
  | flat_quoted q v a : is_quote q = true -> Forall (fun c => c <> q) v -> flat a -> flat ((q :: v ++ [q]) ++ a).

Lemma flat_app a b : flat a -> flat b -> flat (a ++ b).
Proof.
  intros Ha Hb. induction Ha as [|c a Hc _ IH|q v a Hq Hv _ IH]; [done|by constructor|].
  rewrite <- app_assoc. by constructor.
Qed.

Lemma flat_plains a : Forall plain a -> flat a.
Proof. induction 1; by constructor. Qed.

Lemma scan_quote keyword d q v r p : Forall (fun c => c <> q) v ->
  split_scan keyword d (Some q) 0 p (v ++ q :: r) = scan keyword d (p ++ v ++ [q]) r.
Proof.
  intros H. revert p. induction H as [|c v Hc H IH]; intros p; cbn.
  - by rewrite Z.eqb_refl.
  - rewrite (proj2 (Z.eqb_neq _ _) Hc), IH. by rewrite <- app_assoc.
Qed.

Lemma scan_quoted keyword d q v r p : is_quote q = true -> Forall (fun c => c <> q) v ->
  scan keyword d p ((q :: v ++ [q]) ++ r) = scan keyword d (p ++ q :: v ++ [q]) r.
Proof.
  intros Hq Hv. unfold scan. cbn. rewrite Hq, <- app_assoc. cbn. rewrite scan_quote by done.
  by rewrite <- app_assoc.
Qed.

Lemma scan_plain keyword d c r p : plain c -> (d =? 0) && is_gap c = false ->
  scan keyword d p (c :: r) = scan keyword d (p ++ [c]) r.
Proof. intros (Hq & H1 & H2) Hg. unfold scan. cbn. by rewrite Hq, H1, H2, Hg. Qed.

(** Inside parentheses nothing splits. *)
Lemma scan_flat keyword d a r p : d <> 0 -> flat a -> scan keyword d p (a ++ r) = scan keyword d (p ++ a) r.
Proof.
  intros Hd H. revert p. induction H as [|c a Hc _ IH|q v a Hq Hv _ IH]; intros p.
  - by rewrite app_nil_r.
  - cbn [app]. rewrite scan_plain; [|done|by rewrite (proj2 (Z.eqb_neq _ _) Hd)]. by rewrite IH, <- app_assoc.
  - rewrite <- app_assoc, scan_quoted, IH by done. by rewrite <- !app_assoc.
Qed.

(** Where a keyword with white space after it does not start. *)
Definition no_separator (keyword a : text) : Prop := strip_word keyword a ≫= skip_spaces = None.

Lemma scan_spaces keyword g a p : spaces g -> solid a -> no_separator keyword a ->
  scan keyword 0 p (g ++ a) = scan keyword 0 (p ++ g) a.
Proof.
  intros Hg Ha Hno. revert p. induction Hg as [|c g Hc Hg IH]; intros p; [by rewrite app_nil_r|].
  assert (plain c) as (Hq & H1 & H2) by (unfold plain, is_space, is_quote in *; lia).
  cbn [app]. destruct (is_gap c) eqn:E.
  - unfold scan. cbn [split_scan]. rewrite Hq, H1, H2, E. cbn [Z.eqb andb].
    unfold separator. cbn [skip_spaces]. rewrite Hc, skip_space_before by (done || by left).
    cbn [mbind option_bind]. unfold no_separator in Hno.
    destruct (strip_word keyword a) as [r2|]; [cbn in *; rewrite Hno; cbn|]; fold (scan keyword 0 (p ++ [c]) (g ++ a));
      by rewrite IH, <- app_assoc.
  - rewrite scan_plain by done. by rewrite IH, <- app_assoc.
Qed.

Lemma scan_solid keyword a r p : Forall (fun c => plain c /\ is_gap c = false) a ->
  scan keyword 0 p (a ++ r) = scan keyword 0 (p ++ a) r.
Proof.
  intros H. revert p. induction H as [|c a [Hc Hg] _ IH]; intros p; [by rewrite app_nil_r|].
  cbn [app]. rewrite scan_plain; [|done|by rewrite Hg]. by rewrite IH, <- app_assoc.
Qed.

(** What may follow a clause. *)
Definition boundary (r : text) : Prop := match r with c :: _ => is_space c = true | [] => True end.

Definition split_word (keyword : text) : Prop := keyword = AND \/ keyword = OR.

Lemma no_letter keyword c a : split_word keyword -> upper_ascii c <> 65 -> upper_ascii c <> 79 ->
  no_separator keyword (c :: a).
Proof.
  intros Hk H1 H2. unfold no_separator. destruct Hk as [-> | ->].
  - change AND with (65 :: lit "ND"). by rewrite strip_word_head.
  - change OR with (79 :: lit "R"). by rewrite strip_word_head.
Qed.

(** ** The parts of a clause *)

Definition wordy (c : Z) : Prop := plain c /\ is_gap c = false /\ is_space c = false.

Lemma wordy_solid a : a <> [] -> Forall wordy a -> solid a.
Proof. intros Hne H. destruct H as [|c a (_ & _ & Hs)]; [done|exact Hs]. Qed.

Lemma cased_wordy w a : Forall (fun x => 65 <= x <= 90) w -> cased w a -> Forall wordy a.
Proof.
  intros Hw <-. rewrite Forall_map in Hw. eapply Forall_impl; [exact Hw|]. intros c. cbv beta.
  unfold wordy, plain, upper_ascii, is_quote, is_gap, is_space. destruct ((97 <=? c) && (c <=? 122)) eqn:E; lia.
Qed.

Ltac letters := vm_compute; repeat first [constructor | done].

Lemma keyword_wordy keyword a : split_word keyword -> cased keyword a -> Forall wordy a /\ a <> [].
Proof.
  intros Hk Ha. split; [|by destruct Hk as [-> | ->], a].
  eapply cased_wordy; [|exact Ha]. destruct Hk as [-> | ->]; letters.
Qed.

Lemma wordy_spaced a : Forall wordy a -> Forall (fun c => plain c /\ is_gap c = false) a.
Proof. intros H. eapply Forall_impl; [exact H|]. by intros c (H1 & H2 & _). Qed.

Lemma bare_wordy v : Forall (fun c => bare_char c = true) v -> Forall wordy v.
Proof.
  intros H. eapply Forall_impl; [exact H|]. intros c (Hs & Hq & H1 & H2 & Hg)%bare_char_facts. by split_and!.
Qed.

Lemma key_wordy key : key_text key -> Forall wordy key.
Proof.
  intros [_ H]. eapply Forall_impl; [exact H|]. intros c (Hs & Hq & H1 & H2 & Hg)%key_char_facts. by split_and!.
Qed.

Lemma spaces_plain g : spaces g -> Forall plain g.
Proof.
  intros H. eapply Forall_impl; [exact H|]. intros c. cbv beta. unfold plain, is_quote, is_space. lia.
Qed.

(** A bare value is no keyword. *)
Lemma bare_no_separator keyword v r : split_word keyword -> Forall wordy v -> ~ cased keyword v -> boundary r ->
  no_separator keyword (v ++ r).
Proof.
  intros Hk Hv Hn Hr. unfold no_separator. destruct (strip_word keyword (v ++ r)) as [rest|] eqn:E; [|done].
  apply strip_word_inv in E as (a' & E & Ha). cbn. destruct (keyword_wordy keyword a' Hk Ha) as [Hw _].
  apply app_eq_inv in E as [(k & -> & ->)|(k & -> & ->)]; (destruct k as [|x k]; [by rewrite ?app_nil_r in *|]).
  - apply Forall_app in Hv as [_ [(_ & _ & Hx) _]%Forall_cons]. cbn. by rewrite Hx.
  - apply Forall_app in Hw as [_ [(_ & _ & Hx) _]%Forall_cons]. cbn in Hr. by rewrite Hr in Hx.
Qed.

Lemma value_flat v t : value_written v t -> flat t.
Proof.
  intros [q v' Hq Hv|v' _ Hv _ _ _].
  - rewrite <- (app_nil_r (q :: v' ++ [q])). by repeat constructor.
  - apply flat_plains, (Forall_impl _ _ _ (bare_wordy _ Hv)). by intros c [H _].
Qed.

Lemma value_no_separator keyword v t r : split_word keyword -> value_written v t -> boundary r ->
  no_separator keyword (t ++ r).
Proof.
  intros Hk [q v' Hq Hv|v' _ Hv Ha Ho _] Hr.
  - apply no_letter; [done|..]; by apply quote_cases in Hq as [-> | ->].
  - apply bare_no_separator; [done|by apply bare_wordy| |done]. by destruct Hk as [-> | ->].
Qed.

Lemma scan_value keyword v t r p : value_written v t ->
  scan keyword 0 p (t ++ r) = scan keyword 0 (p ++ t) r.
Proof.
  intros [q v' Hq Hv|v' _ Hv _ _ _]; [by apply scan_quoted|]. by apply scan_solid, wordy_spaced, bare_wordy.
Qed.

(** A text the splitting passes over. *)
Definition steady (keyword t : text) : Prop :=
  forall p r, boundary r -> scan keyword 0 p (t ++ r) = scan keyword 0 (p ++ t) r.

Lemma scan_wordy keyword a r p : Forall wordy a -> scan keyword 0 p (a ++ r) = scan keyword 0 (p ++ a) r.
Proof. intros H. by apply scan_solid, wordy_spaced. Qed.

Lemma comparison_wordy w op : (w, op) ∈ comparisons -> Forall wordy w.
Proof.
  intros H. unfold comparisons in H. rewrite !elem_of_cons, elem_of_nil in H.
  destruct H as [[= -> _]|[[= -> _]|[[= -> _]|[[= -> _]|[[= -> _]|[[= -> _]|[]]]]]]]; letters.
Qed.

Lemma contains_wordy w : cased CONTAINS w -> Forall wordy w.
Proof. apply cased_wordy. letters. Qed.

Lemma exists_wordy w : cased EXISTS w -> Forall wordy w.
Proof. apply cased_wordy. letters. Qed.

Lemma bang_wordy : wordy 33.
Proof. by vm_compute. Qed.

Lemma wordy_flat a : Forall wordy a -> flat a.
Proof. intros H. apply flat_plains. eapply Forall_impl; [exact H|]. by intros c [Hc _]. Qed.

Lemma spaces_flat g : spaces g -> flat g.
Proof. intros H. by apply flat_plains, spaces_plain. Qed.

Lemma clause_flat c t : clause_written c t -> flat t.
Proof.
  intros H. destruct H as [key g1 w op g2 v t' Hk Hg1 Hop Hg2 Hv|key g1 w g2 v t' Hk Hg1 _ Hw Hg2 _ Hv
    |key g1 g w g2 v t' Hk Hg1 _ Hg Hw Hg2 _ Hv|key g1 w Hk Hg1 _ Hw|key g1 g w Hk Hg1 _ Hg Hw];
    apply key_wordy in Hk; apply wordy_flat in Hk; apply spaces_flat in Hg1;
    repeat (apply flat_app; [done|]); try (apply flat_plain; [exact (proj1 bang_wordy)|]);
    repeat first [apply spaces_flat; done | apply flat_app; [by apply spaces_flat|] | eapply value_flat; exact Hv
      | apply wordy_flat; by eapply comparison_wordy | apply wordy_flat; by apply contains_wordy
      | apply wordy_flat; by apply exists_wordy | apply flat_app].
Qed.

(** ** The scan passes over clauses *)

Lemma scan_key keyword key g a p : key_text key -> spaces g -> solid a -> no_separator keyword a ->
  scan keyword 0 p (key ++ g ++ a) = scan keyword 0 (p ++ key ++ g) a.
Proof.
  intros Hk Hg Ha Hno. rewrite scan_wordy by by apply key_wordy. rewrite scan_spaces by done. by rewrite <- app_assoc.
Qed.

Lemma scan_operand keyword w g v t r p : split_word keyword -> Forall wordy w -> spaces g -> value_written v t -> boundary r ->
  scan keyword 0 p (w ++ g ++ t ++ r) = scan keyword 0 (p ++ w ++ g ++ t) r.
Proof.
  intros Hk Hw Hg Hv Hr. rewrite scan_wordy, scan_spaces, (scan_value _ v) by
    first [done | by eapply value_no_separator | destruct (value_ends v t Hv) as (c & t' & -> & Hc & _); exact Hc].
  by rewrite <- !app_assoc.
Qed.

Lemma word_no_separator keyword x w a b : split_word keyword -> cased (x :: w) a -> x <> 65 -> x <> 79 ->
  no_separator keyword (a ++ b).
Proof. intros Hk (c & a' & -> & Hc & _)%cased_cons H1 H2. apply no_letter; [done|lia..]. Qed.

Lemma comparison_start keyword w op a : split_word keyword -> (w, op) ∈ comparisons ->
  solid (w ++ a) /\ no_separator keyword (w ++ a).
Proof.
  intros Hk Hop. destruct (comparison_facts w op Hop) as (c & w' & -> & Hs & _ & _ & _ & H1 & H2 & _).
  split; [done|by apply no_letter].
Qed.

Lemma contains_start keyword w a : split_word keyword -> cased CONTAINS w ->
  solid (w ++ a) /\ no_separator keyword (w ++ a).
Proof. intros Hk Hw. split; [by apply contains_solid|by apply (word_no_separator _ 67 (lit "ONTAINS"))]. Qed.

Lemma exists_start keyword w a : split_word keyword -> cased EXISTS w ->
  solid (w ++ a) /\ no_separator keyword (w ++ a).
Proof. intros Hk Hw. split; [by apply (cased_solid 69 (lit "XISTS"))|by apply (word_no_separator _ 69 (lit "XISTS"))]. Qed.

Lemma scan_bang keyword g a p : spaces g -> solid a -> no_separator keyword a ->
  scan keyword 0 p (33 :: g ++ a) = scan keyword 0 (p ++ 33 :: g) a.
Proof.
  intros Hg Ha Hno. rewrite scan_plain by by vm_compute. rewrite scan_spaces by done. by rewrite <- app_assoc.
Qed.

Lemma bang_start keyword a : split_word keyword -> solid (33 :: a) /\ no_separator keyword (33 :: a).
Proof. intros Hk. split; [done|by apply no_letter]. Qed.

Lemma clause_steady keyword c t : split_word keyword -> clause_written c t -> steady keyword t.
Proof.
  intros Hk H p r Hr. destruct H as [key g1 w op g2 v t' Hkey Hg1 Hop Hg2 Hv|key g1 w g2 v t' Hkey Hg1 _ Hw Hg2 _ Hv
    |key g1 g w g2 v t' Hkey Hg1 _ Hg Hw Hg2 _ Hv|key g1 w Hkey Hg1 _ Hw|key g1 g w Hkey Hg1 _ Hg Hw];
    rewrite <- ?app_assoc; cbn [app]; rewrite <- ?app_assoc.
  - destruct (comparison_start keyword w op (g2 ++ t' ++ r) Hk Hop) as [Hs Hno]. rewrite scan_key by done.
    rewrite (scan_operand _ _ _ v) by (done || by eapply comparison_wordy). by rewrite <- !app_assoc.
  - destruct (contains_start keyword w (g2 ++ t' ++ r) Hk Hw) as [Hs Hno]. rewrite scan_key by done.
    rewrite (scan_operand _ _ _ v) by (done || by apply contains_wordy). by rewrite <- !app_assoc.
  - destruct (contains_start keyword w (g2 ++ t' ++ r) Hk Hw) as [Hs Hno].
    destruct (bang_start keyword (g ++ w ++ g2 ++ t' ++ r) Hk) as [Hbs Hbn].
    rewrite scan_key, scan_bang by done. rewrite (scan_operand _ _ _ v) by (done || by apply contains_wordy).
    rewrite <- !app_assoc. cbn [app]. by rewrite <- ?app_assoc.
  - destruct (exists_start keyword w r Hk Hw) as [Hs Hno]. rewrite scan_key by done.
    rewrite scan_wordy by by apply exists_wordy. by rewrite <- !app_assoc.
  - destruct (exists_start keyword w r Hk Hw) as [Hs Hno]. destruct (bang_start keyword (g ++ w ++ r) Hk) as [Hbs Hbn].
    rewrite scan_key, scan_bang by done. rewrite scan_wordy by by apply exists_wordy.
    rewrite <- !app_assoc. cbn [app]. by rewrite <- ?app_assoc.
Qed.

(** ** Ends *)

Lemma solid_app a b : solid a -> solid (a ++ b).
Proof. by destruct a. Qed.

Lemma wordy_end w : w <> [] -> Forall wordy w -> solid (rev w).
Proof.
  intros Hne Hw. apply wordy_solid; [|by apply Forall_rev]. intros E. apply Hne.
  by rewrite <- (rev_involutive w), E.
Qed.

Lemma solid_end a b : solid (rev b) -> solid (rev (a ++ b)).
Proof. intros H. rewrite rev_app_distr. by apply solid_app. Qed.

Lemma exists_end w : cased EXISTS w -> solid (rev w).
Proof. intros H. apply wordy_end; [by destruct w|by apply exists_wordy]. Qed.

Lemma value_end v t : value_written v t -> solid (rev t).
Proof. by intros (? & ? & _ & _ & _ & H)%value_ends. Qed.

(** A text without white space at either end, that opens no group. *)
Definition tight (t : text) : Prop := solid t /\ solid (rev t).

Lemma clause_tight c t : clause_written c t -> tight t /\ starts_with t (lit "(") = false.
Proof.
  intros H. assert (exists key a, t = key ++ a /\ key_text key /\ solid (rev t)) as (key & a & -> & Hk & Ht).
  { destruct H as [key g1 w op g2 v t' Hk Hg1 Hop Hg2 Hv|key g1 w g2 v t' Hk Hg1 _ Hw Hg2 _ Hv
      |key g1 g w g2 v t' Hk Hg1 _ Hg Hw Hg2 _ Hv|key g1 w Hk Hg1 _ Hw|key g1 g w Hk Hg1 _ Hg Hw];
      eexists key, _; (split_and!; [reflexivity|done|]); rewrite ?(app_comm_cons _ _ 33);
      repeat apply solid_end; [by eapply value_end..|by apply exists_end| ].
    change (33 :: g ++ w) with ([33] ++ g ++ w). repeat apply solid_end. by apply exists_end. }
  split; [by split; [apply key_solid|]|].
  destruct Hk as [Hne Hk]. destruct key as [|x key]; [done|]. apply Forall_cons in Hk as [Hx _].
  destruct (key_char_facts x Hx) as (_ & _ & H1 & _). change (lit "(") with [40]. cbn. by rewrite H1.
Qed.

(** ** Joined texts *)

Lemma skipped keyword d q n p r : forall s, length s = n -> split_scan keyword d q n p (s ++ r) = split_scan keyword d q 0 p r.
Proof.
  induction n as [|n IH]; intros [|c s] Hn; try done. injection Hn as Hn. cbn. by apply IH.
Qed.

Lemma scan_separator keyword s r p : separator_written keyword s -> split_word keyword -> solid r ->
  scan keyword 0 p (s ++ r) = p :: scan keyword 0 [] r.
Proof.
  intros (g1 & c & w & g2 & -> & Hc & Hg1 & Hw & Hg2 & Hne) Hk Hr.
  assert (is_space c = true /\ plain c) as [Hs (Hq & H1 & H2)]
    by (unfold plain, is_gap, is_space, is_quote in *; lia).
  destruct (keyword_wordy keyword w Hk Hw) as [Hww Hwne].
  assert (separator keyword (c :: (g1 ++ w ++ g2) ++ r) = Some (length (c :: g1 ++ w ++ g2))) as E.
  { unfold separator. cbn [skip_spaces]. rewrite Hs, <- !app_assoc.
    rewrite skip_space_before; [|done|left; by apply solid_app, wordy_solid]. cbn [mbind option_bind].
    rewrite strip_cased by done. cbn [mbind option_bind]. rewrite skip_spaces_app by (done || by left).
    cbn [mbind option_bind length]. f_equal. rewrite !length_app. lia. }
  unfold scan. cbn [split_scan app]. rewrite Hq, H1, H2, Hc. cbn [Z.eqb andb]. rewrite E. f_equal.
  cbn [length]. rewrite Nat.sub_0_r || replace (S (length (g1 ++ w ++ g2)) - 1)%nat with (length (g1 ++ w ++ g2)) by lia.
  by apply skipped.
Qed.

Lemma joined_tight keyword ts a : joined keyword ts a -> Forall tight ts -> tight a.
Proof.
  induction 1 as [t|t s ts rest Hs _ IH]; intros H; [by inversion H|].
  apply Forall_cons in H as [[H1 _] H]. destruct (IH H) as [_ H2].
  split; [by apply solid_app|by do 2 apply solid_end].
Qed.

Lemma separator_boundary keyword s r : separator_written keyword s -> boundary (s ++ r).
Proof. intros (g1 & c & w & g2 & -> & Hc & _). cbn. unfold is_gap, is_space in *. lia. Qed.

(** Joined texts are split where they were joined. *)
Lemma scan_joined keyword ts a : split_word keyword -> joined keyword ts a -> Forall tight ts -> Forall (steady keyword) ts ->
  scan keyword 0 [] a = ts.
Proof.
  intros Hk. induction 1 as [t|t s ts rest Hs Hj IH]; intros Ht Hst.
  - apply Forall_cons in Hst as [Hst _]. rewrite <- (app_nil_r t) at 1. by rewrite Hst.
  - apply Forall_cons in Ht as [_ Ht]. apply Forall_cons in Hst as [Hst1 Hst].
    rewrite Hst1 by (by apply (separator_boundary keyword)). rewrite scan_separator; [|done|done|].
    + by rewrite IH.
    + by destruct (joined_tight _ _ _ Hj Ht).
Qed.

Lemma trim_tight a g1 g2 : spaces g1 -> tight a -> spaces g2 -> trim_text (g1 ++ a ++ g2) = a.
Proof. intros H1 [Ha Hr] H2. by apply trim_core. Qed.

Lemma trim_tight_id a : tight a -> trim_text a = a.
Proof.
  intros H. assert (trim_text ([] ++ a ++ []) = a) as E by (by apply trim_tight; [constructor| |constructor]).
  by rewrite app_nil_r in E.
Qed.

Lemma split_joined keyword ts a : split_word keyword -> joined keyword ts a -> Forall tight ts -> Forall (steady keyword) ts ->
  splitOnKeyword keyword a = ts.
Proof.
  intros Hk Hj Ht Hs. unfold splitOnKeyword. fold (scan keyword 0 [] a). rewrite (scan_joined keyword ts a) by done. clear -Ht.
  induction Ht as [|t ts Ht _ IH]; [done|]. cbn. rewrite trim_tight_id, IH by done. destruct t; [by destruct Ht|done].
Qed.

(** ** Groups *)

Lemma joined_flat keyword ts a : split_word keyword -> joined keyword ts a -> Forall flat ts -> flat a.
Proof.
  intros Hk. induction 1 as [t|t s ts rest Hs _ IH]; intros H; [by inversion H|].
  apply Forall_cons in H as [H1 H]. apply flat_app; [done|]. apply flat_app; [|by apply IH].
  destruct Hs as (g1 & c & w & g2 & -> & Hc & Hg1 & Hw & Hg2 & _).
  apply flat_plain; [unfold plain, is_gap, is_quote in *; lia|].
  destruct (keyword_wordy keyword w Hk Hw) as [Hww _].
  repeat apply flat_app; first [by apply spaces_flat | by apply wordy_flat].
Qed.

Lemma unwrap_quote d q v r : Forall (fun c => c <> q) v -> unwrap_scan d (Some q) (v ++ q :: r) = unwrap_scan d None r.
Proof.
  induction 1 as [|c v Hc _ IH]; cbn; [by rewrite Z.eqb_refl|]. by rewrite (proj2 (Z.eqb_neq _ _) Hc).
Qed.

Lemma unwrap_flat d a r : flat a -> unwrap_scan d None (a ++ r) = unwrap_scan d None r.
Proof.
  induction 1 as [|c a (Hq & H1 & H2) _ IH|q v a Hq Hv _ IH]; [done|..].
  - cbn. by rewrite Hq, H1, H2.
  - rewrite <- app_assoc. cbn. rewrite Hq, <- app_assoc. cbn. by rewrite unwrap_quote.
Qed.

Lemma unwrap_parens g1 a g2 : spaces g1 -> spaces g2 -> tight a -> flat a ->
  unwrapParentheses (40 :: g1 ++ a ++ g2 ++ [41]) = Some a.
Proof.
  intros H1 H2 Ht Hf. unfold unwrapParentheses.
  assert (flat (g1 ++ a ++ g2)) as Hflat by (repeat apply flat_app; try done; by apply spaces_flat).
  assert (g1 ++ a ++ g2 ++ [41] = (g1 ++ a ++ g2) ++ [41]) as -> by by rewrite <- !app_assoc.
  assert (starts_with (40 :: (g1 ++ a ++ g2) ++ [41]) (lit "(") = true) as -> by (apply starts_with_spec; by eexists).
  assert (ends_with (40 :: (g1 ++ a ++ g2) ++ [41]) (lit ")") = true) as ->
    by (apply ends_with_spec; by exists (40 :: g1 ++ a ++ g2)).
  cbn [andb]. change (unwrap_scan 0 None (40 :: (g1 ++ a ++ g2) ++ [41])) with (unwrap_scan 1 None ((g1 ++ a ++ g2) ++ [41])).
  rewrite unwrap_flat by done. change (unwrap_scan 1 None [41]) with (Some 0). f_equal.
  cbn [drop length]. rewrite length_app. cbn [length].
  replace (S (length (g1 ++ a ++ g2) + 1) - 2)%nat with (length (g1 ++ a ++ g2)) by lia.
  rewrite ?drop_0, take_app_length. by apply trim_tight.
Qed.

Lemma parens_steady keyword a : flat a -> steady keyword (40 :: a ++ [41]).
Proof.
  intros Hf p r _. unfold scan at 1. cbn [split_scan app]. change (is_quote 40) with false. change (40 =? 40) with true.
  cbv iota. fold (scan keyword (0 + 1) (p ++ [40]) ((a ++ [41]) ++ r)). rewrite <- app_assoc, scan_flat by done.
  unfold scan. cbn [split_scan app]. change (is_quote 41) with false. change (41 =? 40) with false.
  change (41 =? 41) with true. cbv iota. change (Z.max 0 (0 + 1 - 1)) with 0. by rewrite <- !app_assoc.
Qed.

Lemma parens_tight a : tight (40 :: a ++ [41]).
Proof. split; [done|]. cbn. by rewrite rev_app_distr. Qed.

(** The members of a group are split and read. *)
Lemma members_facts keyword cs ts inner : split_word keyword -> Forall2 clause_written cs ts -> joined keyword ts inner ->
  tight inner /\ flat inner /\ splitOnKeyword keyword inner = ts.
Proof.
  intros Hk H Hj. assert (Forall (fun t => exists c, clause_written c t) ts) as Hall.
  { clear -H. induction H; constructor; eauto. }
  assert (Forall tight ts) as Ht by (eapply Forall_impl; [exact Hall|]; intros t (c & Hc); by destruct (clause_tight c t Hc)).
  split_and!.
  - by eapply joined_tight.
  - eapply joined_flat; [done..|]. eapply Forall_impl; [exact Hall|]. intros t (c & Hc). by eapply clause_flat.
  - apply split_joined; [done..|]. eapply Forall_impl; [exact Hall|]. intros t (c & Hc). by eapply clause_steady.
Qed.

Lemma members_parsed cs ts : Forall2 clause_written cs ts -> List.map parseSimpleClause ts = List.map Ok cs.
Proof. induction 1 as [|c t cs ts Hc _ IH]; [done|]. cbn. by rewrite (parse_written c t), IH. Qed.

Lemma valid_all cs : valid_clauses (List.map Ok cs) = cs.
Proof. induction cs as [|c cs IH]; [done|]. unfold valid_clauses in *. cbn. by rewrite IH. Qed.

(** ** A whole filter *)

Lemma no_unwrap c t : clause_written c t -> unwrapParentheses t = None.
Proof. intros H. unfold unwrapParentheses. by destruct (clause_tight c t H) as [_ ->]. Qed.

Lemma parens_assoc g1 a g2 : 40 :: g1 ++ a ++ g2 ++ [41] = 40 :: (g1 ++ a ++ g2) ++ [41].
Proof. by rewrite <- !app_assoc. Qed.

Lemma item_steady i t : item_written i t -> tight t /\ steady AND t.
Proof.
  assert (split_word AND) as Hk by by left.
  intros [c t' Hc|c t' g1 g2 Hc H1 H2|cs ts inner g1 g2 _ Hcs Hj H1 H2].
  - split; [by destruct (clause_tight c t' Hc)|by eapply clause_steady].
  - rewrite parens_assoc. split; [apply parens_tight|]. apply parens_steady.
    repeat apply flat_app; [by apply spaces_flat|by eapply clause_flat|by apply spaces_flat].
  - rewrite parens_assoc. split; [apply parens_tight|]. apply parens_steady.
    destruct (members_facts OR cs ts inner) as (_ & Hf & _); [by right|done..|].
    repeat apply flat_app; [by apply spaces_flat|done|by apply spaces_flat].
Qed.

(** What one part of a filter adds. *)
Definition read_item (orGroups : bool) (r : ParseWhereClauseResult) (i : Item) (t : text) : ParseWhereClauseResult :=
  match i with
  | One c => add_clause c r
  | Any cs => if orGroups then add_group cs r else add_warning (unsupported t) r
  end.

Lemma parse_item orGroups r i t : item_written i t -> parse_part orGroups r t = read_item orGroups r i t.
Proof.
  assert (split_word OR) as Hk by by right.
  intros [c t' Hc|c t' g1 g2 Hc H1 H2|cs ts inner g1 g2 Hl Hcs Hj H1 H2]; unfold parse_part.
  - by rewrite (no_unwrap c), (parse_written c).
  - destruct (members_facts OR [c] [t'] t') as (Ht & Hf & Hs); [done|by repeat constructor|constructor|].
    rewrite unwrap_parens by done. rewrite Hs. cbn [length]. rewrite bool_decide_true by done. by rewrite (parse_written c).
  - destruct (members_facts OR cs ts inner) as (Ht & Hf & Hs); [done..|].
    rewrite unwrap_parens by done. rewrite Hs. cbv zeta. rewrite (members_parsed cs) by done.
    rewrite valid_all, length_map. apply Forall2_length in Hcs as Hlen.
    rewrite bool_decide_false by lia. rewrite bool_decide_true by done. cbn [read_item]. by destruct orGroups.
Qed.

Lemma read_items orGroups items ts : Forall2 item_written items ts -> forall r,
  fold_left (parse_part orGroups) ts r =
  {| clauses := clauses r ++ omap item_clause items;
     groups := groups r ++ (if orGroups then omap item_group items else []);
     warnings := warnings r ++ (if orGroups then [] else refused items ts) |}.
Proof.
  induction 1 as [|i t items ts Hi _ IH]; intros r; cbn [fold_left].
  - destruct r, orGroups; cbn; by rewrite !app_nil_r.
  - rewrite (parse_item _ _ i), IH by done. unfold refused.
    destruct i, orGroups; cbn; rewrite <- ?app_assoc; done.
Qed.

Lemma items_split items ts : Forall2 item_written items ts -> Forall tight ts /\ Forall (steady AND) ts.
Proof.
  intros Hi. assert (Forall (fun t => exists i, item_written i t) ts) as Hall by (induction Hi; constructor; eauto).
  split; (eapply Forall_impl; [exact Hall|]); intros t (i & Hit); by destruct (item_steady i t Hit).
Qed.

(** The parts of a filter are read one after the other. *)
Lemma filter_parts items ts e orGroups : filter_written items ts e ->
  parseWhereClause e orGroups =
  fold_left (parse_part orGroups) ts {| clauses := []; groups := []; warnings := [] |}.
Proof.
  intros (Hi & g1 & a & g2 & H1 & H2 & Hj & ->). unfold parseWhereClause. destruct (items_split items ts Hi) as [Ht Hs].
  assert (tight a) as Ha by by eapply joined_tight. rewrite trim_tight by done.
  destruct a as [|x a]; [by destruct Ha|]. unfold splitWhereClause. by rewrite (split_joined AND ts) by (done || by left).
Qed.

Lemma join_joined t ts : joined AND (t :: ts) (join_text (lit " AND ") (t :: ts)).
Proof.
  revert t. induction ts as [|t' ts IH]; intros t; [constructor|].
  change (join_text (lit " AND ") (t :: t' :: ts)) with (t ++ lit " AND " ++ join_text (lit " AND ") (t' :: ts)).
  constructor; [|apply IH]. exists [], 32, (lit "AND"), [32]. by split_and!; repeat constructor.
Qed.

(** C11: A filter written as clauses and OR groups joined by AND, with any
    spacing, any letter case of the words, any quotes and any parentheses
    around single clauses, is read as exactly its clauses and its groups, in
    order. Text inside quotes, keywords included, splits nothing. For a caller
    without OR groups every group becomes a warning that names it, and the
    clauses are the same. *)
Theorem where_clause_reads_back items ts e orGroups (H : filter_written items ts e) :
  parseWhereClause e orGroups =
  {| clauses := omap item_clause items;
     groups := if orGroups then omap item_group items else [];
     warnings := if orGroups then [] else refused items ts |}.
Proof. rewrite (filter_parts items ts e orGroups H). destruct H as [Hi _]. by rewrite (read_items _ items). Qed.

Lemma where_clause_reads_back_witness :
  parseWhereClause (lit " service.name = 'a AND b' and (Status>=500 Or error EXISTS) ") true =
  {| clauses := [clause_of (lit "service.name") op_eq (lit "a AND b")];
     groups := [[clause_of (lit "Status") op_ge (lit "500"); clause_of (lit "error") op_exists []]];
     warnings := [] |}.
Proof.
  refine (where_clause_reads_back
    [One (clause_of (lit "service.name") op_eq (lit "a AND b"));
     Any [clause_of (lit "Status") op_ge (lit "500"); clause_of (lit "error") op_exists []]]
    [lit "service.name = 'a AND b'"; lit "(Status>=500 Or error EXISTS)"] _ true _).
  split.
  - repeat constructor.
    + apply (clause_compare (lit "service.name") [32] (lit "=") op_eq [32] (lit "a AND b") (lit "'a AND b'")).
      * split; [done|]. vm_compute. repeat constructor.
      * vm_compute. repeat constructor.
      * by apply (list_elem_of_lookup_2 _ 5%nat).
      * vm_compute. repeat constructor.
      * apply (value_quoted 39); [done|]. vm_compute. repeat constructor; done.
    + apply (written_group _ [lit "Status>=500"; lit "error EXISTS"] (lit "Status>=500 Or error EXISTS") [] []).
      * cbn. lia.
      * constructor; [|constructor; [|constructor]].
        -- apply (clause_compare (lit "Status") [] (lit ">=") op_ge [] (lit "500") (lit "500")).
           ++ split; [done|]. vm_compute. repeat constructor.
           ++ constructor.
           ++ by apply (list_elem_of_lookup_2 _ 2%nat).
           ++ constructor.
           ++ apply value_bare; [done| |done|done|done]. vm_compute. repeat constructor.
        -- apply (clause_exists (lit "error") [32] (lit "EXISTS")); [|vm_compute; repeat constructor|done|done].
           split; [done|]. vm_compute. repeat constructor.
      * assert (lit "Status>=500 Or error EXISTS" = lit "Status>=500" ++ lit " Or " ++ lit "error EXISTS") as ->
          by by vm_compute.
        apply (joined_more _ (lit "Status>=500") (lit " Or ") [lit "error EXISTS"] (lit "error EXISTS")); [|constructor].
        exists [], 32, (lit "Or"), [32]. split_and!; done || constructor; done || constructor.
      * constructor.
      * constructor.
  - exists [32], (lit "service.name = 'a AND b' and (Status>=500 Or error EXISTS)"), [32].
    split_and!; [vm_compute; repeat constructor..| |done].
    assert (lit "service.name = 'a AND b' and (Status>=500 Or error EXISTS)" =
      lit "service.name = 'a AND b'" ++ lit " and " ++ lit "(Status>=500 Or error EXISTS)") as -> by by vm_compute.
    apply (joined_more _ (lit "service.name = 'a AND b'") (lit " and ") [lit "(Status>=500 Or error EXISTS)"]
      (lit "(Status>=500 Or error EXISTS)")); [|constructor].
    exists [], 32, (lit "and"), [32]. split_and!; done || constructor; done || constructor.
Defined.

(** A value written by [quoteWhereValue] is read back, white space at its ends
    aside, unless it holds both kinds of quotes. *)
Lemma quoted_value_written v : ~ (34 ∈ v /\ 39 ∈ v) -> value_written v (quoteWhereValue v).
Proof.
  intros H. assert (forall q, existsb (fun c => c =? q) v = false <-> q ∉ v) as E.
  { intros q. split.
    - intros Ex Hq. apply not_true_iff_false in Ex. apply Ex, existsb_exists. exists q.
      by rewrite <- list_elem_of_In, Z.eqb_refl.
    - intros Hn. apply not_true_iff_false. intros (c & Hc & Ec)%existsb_exists. apply Z.eqb_eq in Ec as ->.
      by apply Hn, list_elem_of_In. }
  assert (forall q, q ∉ v -> Forall (fun c => c <> q) v) as Hne by (intros q Hn; apply Forall_forall; by intros c Hc ->).
  unfold quoteWhereValue. destruct (existsb (fun c => c =? 34) v) eqn:E1; cbn [negb].
  - destruct (existsb (fun c => c =? 39) v) eqn:E2; cbn [negb].
    + exfalso. apply H. split; [destruct (decide (34 ∈ v)) as [|Hn%E]|destruct (decide (39 ∈ v)) as [|Hn%E]]; congruence || done.
    + apply (value_quoted 39); [done|]. by apply Hne, E.
  - apply (value_quoted 34); [done|]. by apply Hne, E.
Qed.

(** A clause that compares a key with a value quoted by [quoteWhereValue]
    is read as that key and that value, unless the value holds both kinds of
    quotes; the value loses the white space at its ends. *)
Theorem quoted_value_reads_back key v w op (Hk : key_text key) (Hop : (w, op) ∈ comparisons) (Hv : ~ (34 ∈ v /\ 39 ∈ v)) :
  parseWhereClause (key ++ [32] ++ w ++ [32] ++ quoteWhereValue v) true =
  {| clauses := [{| pc_key := List.map lower_ascii key; pc_rawKey := key; pc_operator := op; pc_value := trim_text v |}];
     groups := []; warnings := [] |}.
Proof.
  assert (spaces [32]) as Hs by by repeat constructor.
  assert (clause_written (clause_of key op v) (key ++ [32] ++ w ++ [32] ++ quoteWhereValue v)) as Hc
    by (apply clause_compare; try done; by apply quoted_value_written).
  set (e := key ++ [32] ++ w ++ [32] ++ quoteWhereValue v) in *.
  destruct (members_facts AND [clause_of key op v] [e] e) as (Ht & _ & Hsplit); [by left|by constructor|constructor|].
  unfold parseWhereClause. rewrite trim_tight_id by done. clearbody e.
  destruct e as [|x e]; [by destruct Ht|]. unfold splitWhereClause. rewrite Hsplit. cbn [fold_left].
  by rewrite (parse_item _ _ (One (clause_of key op v))) by by constructor.
Qed.
