(* ===== verification/DashVariables.v ===== *)
(** * Dashboard variables and widget requests

    packages/query-engine/src/dashboard-variables (interpolate.ts, options.ts,
    time-macros.ts) and widget-request.ts: the value of a variable, the
    substitution of [$name] references by the kind of text they stand in, and
    the request a tile sends.

    Texts are UTF-16 code units; [escapeClickHouseString] of the SQL package and
    [JSON.stringify] are arguments. Values are looked up among own properties. *)

From Stdlib Require Import Ascii String.
From stdpp Require Import prelude list.
From Stdlib Require Import ZArith Lia.
From S2P Require Import Prelude.
From S2P Require Import JsNum.
From S2P Require Import JsString.
From S2P Require Import WarehouseTime.
From S2P Require Import QueryWindow.
From S2P Require Import IngestSha256.
From S2P Require Import IngestRegex.
From S2P Require Import JsUnits.
From S2P Require Import SqlTokens.
From S2P Require Import WhereClause.

Open Scope Z_scope.
Local Open Scope maple_scope.

(** ** Values of variables *)

Definition ALL_VALUE : text := lit "$__all".

Record ResolvedVariable := { rv_value : text; rv_isAll : bool; rv_options : list text }.

Abbreviation VariableValues := (jsmap text ResolvedVariable).

Record DashboardVariableOptionsState := { os_options : list text; os_loading : bool }.

Definition NO_VARIABLE_OPTIONS : DashboardVariableOptionsState := {| os_options := []; os_loading := false |}.
Definition LOADING_VARIABLE_OPTIONS : DashboardVariableOptionsState := {| os_options := []; os_loading := true |}.

Inductive variable_type := query_variable | custom_variable | textbox_variable.

#[export] Instance variable_type_eq_dec : EqDecision variable_type.
Proof. solve_decision. Defined.

(** Selection, declared default, All when enabled, first loaded option. *)
Definition resolveDashboardVariableValue (type : variable_type) (includeAll : option bool) (defaultValue : option text)
    (selected : option text) (options : DashboardVariableOptionsState) : option text :=
  let allEnabled := bool_decide (includeAll = Some true) in
  let otherwise :=
    match defaultValue with
    | Some (c :: d) => Some (c :: d)
    | _ =>
        if bool_decide (type = textbox_variable) then Some []
        else if allEnabled then Some ALL_VALUE
        else
          match os_options options with
          | o :: _ => Some o
          | [] => if os_loading options then None else Some []
          end
    end in
  match selected with
  | Some (c :: s) =>
      if bool_decide (c :: s = ALL_VALUE) then (if allEnabled then Some ALL_VALUE else otherwise) else Some (c :: s)
  | _ => otherwise
  end.

(** ** References *)

Definition is_letter (c : Z) : bool := ((65 <=? c) && (c <=? 90)) || ((97 <=? c) && (c <=? 122)).

(** A name at the start of a text, and the rest. *)
Definition read_name (a : text) : option (text * text) :=
  match a with
  | c :: a' => if is_letter c then let '(n, r) := span_ident a' in Some (c :: n, r) else None
  | [] => None
  end.

(** The name of a reference after its dollar sign, braced or bare, and the units
    it takes. *)
Definition read_ref (a : text) : option (text * nat) :=
  match a with
  | c :: a' =>
      if c =? 123 then
        match read_name a' with
        | Some (n, d :: _) => if d =? 125 then Some (n, (length n + 2)%nat) else None
        | _ => None
        end
      else '(n, _) ← read_name a; Some (n, length n)
  | [] => None
  end.

(** A unit of a text, or a reference: its name and the text it matched. *)
Inductive piece := Unit_ (c : Z) | Ref (name whole : text).

(** The matches of the expression from left to right; [skip] counts the units of
    a match still to pass. *)
Fixpoint pieces (skip : nat) (a : text) : list piece :=
  match a with
  | [] => []
  | c :: a' =>
      match skip with
      | S n => pieces n a'
      | O =>
          if c =? 36 then
            match read_ref a' with
            | Some (name, n) => Ref name (c :: take n a') :: pieces n a'
            | None => Unit_ c :: pieces 0 a'
            end
          else Unit_ c :: pieces 0 a'
      end
  end.

Definition put (resolve : text -> option text) (p : piece) : text :=
  match p with Unit_ c => [c] | Ref name whole => default whole (resolve name) end.

Definition replaceRefs (input : text) (resolve : text -> option text) : text :=
  concat (List.map (put resolve) (pieces 0 input)).

Definition ref_name (p : piece) : option text := match p with Unit_ _ => None | Ref name _ => Some name end.

Definition collectVariableRefs (input : text) : list text := dedupe (omap ref_name (pieces 0 input)).

(** ** Interpolation *)

Section Interpolate.
Context (escapeClickHouseString : text -> text).

Definition quoted (value : text) : text := [39] ++ escapeClickHouseString value ++ [39].

Definition sqlLiteral (variable : ResolvedVariable) : text :=
  if rv_isAll variable then
    match rv_options variable with [] => lit "''" | options => join_text (lit ",") (List.map quoted options) end
  else quoted (rv_value variable).

Definition is_all (values : VariableValues) (name : text) : bool :=
  match map_get name values with Some variable => rv_isAll variable | None => false end.

Definition value_of (values : VariableValues) (name : text) : option text := rv_value <$> map_get name values.

Definition interpolateWhereClause (input : text) (values : VariableValues) : text :=
  join_text (lit " AND ")
    (List.map (fun clause => replaceRefs clause (value_of values))
       (List.filter (fun clause => negb (existsb (is_all values) (collectVariableRefs clause))) (splitWhereClause input))).

Definition is_where_key (key : text) : bool := ends_with (List.map lower_ascii key) (lit "whereclause").

Definition interpolateString (input : text) (key : option text) (values : VariableValues) : text :=
  if negb (existsb (fun c => c =? 36) input) then input
  else if bool_decide (key = Some (lit "sql")) then
    replaceRefs input (fun name => sqlLiteral <$> map_get name values)
  else if match key with Some k => is_where_key k | None => false end then interpolateWhereClause input values
  else
    replaceRefs input (fun name =>
      (fun v => if rv_isAll v then join_text (lit ",") (rv_options v) else rv_value v) <$> map_get name values).

(** ** Params *)

(** The JSON values widget params hold. *)
Inductive param :=
  | PNull
  | PBool (b : bool)
  | PNum (x : num)
  | PText (t : text)
  | PList (items : list param)
  | PObj (entries : list (text * param)).

(** [out[key] = ...] over the entries of an object: the key [__proto__] makes no
    own property. *)
Definition own_key (key : text) : bool := negb (bool_decide (key = lit "__proto__")).

Fixpoint walk (key : option text) (values : VariableValues) (value : param) : param :=
  match value with
  | PText t => PText (interpolateString t key values)
  | PList items => PList (List.map (walk key values) items)
  | PObj entries =>
      PObj (List.filter (fun e => own_key e.1) (List.map (fun '(k, v) => (k, walk (Some k) values v)) entries))
  | _ => value
  end.

Definition interpolateWidgetParams (params : list (text * param)) (values : VariableValues) : list (text * param) :=
  List.filter (fun e => own_key e.1) (List.map (fun '(k, v) => (k, walk (Some k) values v)) params).

Definition interpolateDisplayText (t : text) (values : VariableValues) : text :=
  if negb (existsb (fun c => c =? 36) t) then t
  else replaceRefs t (fun name => (fun v => if rv_isAll v then lit "All" else rv_value v) <$> map_get name values).

Definition hasUnresolvedVariableRefs (stringify : list (text * param) -> text) (params : option (list (text * param)))
    (definedNames : list text) (values : VariableValues) : bool :=
  match params, definedNames with
  | None, _ | _, [] => false
  | Some ps, _ =>
      existsb (fun name => bool_decide (name ∈ definedNames) && negb (map_has name values))
        (collectVariableRefs (stringify ps))
  end.

Definition START_TIME_MACRO : text := lit "$__startTime".
Definition END_TIME_MACRO : text := lit "$__endTime".

Definition time_macro (startTime endTime : text) (value : param) : param :=
  match value with
  | PText t =>
      if bool_decide (t = START_TIME_MACRO) then PText startTime
      else if bool_decide (t = END_TIME_MACRO) then PText endTime
      else value
  | _ => value
  end.

Definition interpolateTimeMacros (params : list (text * param)) (startTime endTime : text) : list (text * param) :=
  List.filter (fun e => own_key e.1) (List.map (fun '(k, v) => (k, time_macro startTime endTime v)) params).

(** ** Widget requests *)

Record PlanWidgetRequestInput := {
  pi_endpoint : text;
  pi_params : list (text * param);
  pi_dashboardWindow : string * string;
  pi_widgetTimeRange : option TimeRangeInput;
  pi_variableValues : option VariableValues;
  pi_maxDataPoints : option num;
  pi_nowMs : Z;
  pi_snap : bool;
}.

Inductive disabled_reason := invalid_widget_time_range | metric_not_selected.

Inductive WidgetRequestPlan :=
  | PlannedWidgetRequest (endpoint : text) (params : list (text * param)) (window : string * string)
      (exceedsListCap : bool)
  | DisabledWidgetRequest (reason : disabled_reason).

Definition WIDGET_FETCH_STRATEGY : param := PObj [(lit "enableEmptyRangeFallback", PBool false)].

Definition TIMESERIES_ENDPOINT : text := lit "custom_query_builder_timeseries".

Definition QUERY_SET_ENDPOINTS : list text :=
  List.map lit ["custom_query_builder_timeseries"; "custom_query_builder_breakdown"; "custom_query_builder_list"]%string.

Definition CUSTOM_CHART_ENDPOINTS : list text := List.map lit ["custom_timeseries"; "custom_breakdown"]%string.

Definition LIST_ENDPOINTS : list text := List.map lit ["custom_query_builder_list"; "list_traces"; "list_logs"]%string.

Definition MAX_LIST_RANGE_SECONDS : Z := 60 * 60 * 24 * 7.

Definition isBlank (value : option param) : bool :=
  match value with Some (PText t) => bool_decide (trim_text t = []) | _ => true end.

(** An enabled metrics query without a metric name. *)
Definition blank_metric_query (query : param) : bool :=
  match query with
  | PObj q =>
      match map_get (lit "dataSource") q with Some (PText s) => bool_decide (s = lit "metrics") | _ => false end &&
      match map_get (lit "enabled") q with Some (PBool false) => false | _ => true end &&
      isBlank (map_get (lit "metricName") q)
  | _ => false
  end.

Definition isMetricNotSelected (endpoint : text) (params : list (text * param)) : bool :=
  if bool_decide (endpoint ∈ QUERY_SET_ENDPOINTS) then
    match map_get (lit "queries") params with
    | Some (PList queries) => existsb blank_metric_query queries
    | _ => false
    end
  else if bool_decide (endpoint ∈ CUSTOM_CHART_ENDPOINTS) then
    match map_get (lit "source") params with
    | Some (PText s) =>
        if bool_decide (s = lit "metrics") then
          match map_get (lit "filters") params with
          | Some (PObj filters) => isBlank (map_get (lit "metricName") filters)
          | _ => true
          end
        else false
    | _ => false
    end
  else false.

Section Plan.
Context (date_parse : string -> option Z) (zone : Z -> ZonedDateParts).

(** [windowSeconds] in milliseconds; none when an end is not a date. *)
Definition window_ms (window : string * string) : option Z :=
  endMs ← parseWarehouseDateTime date_parse window.2;
  startMs ← parseWarehouseDateTime date_parse window.1;
  Some (Z.max 0 (endMs - startMs)).

(** The window of a request: the tile's own, or the board's. *)
Definition widget_window (input : PlanWidgetRequestInput) : option (string * string) :=
  match pi_widgetTimeRange input with
  | Some range => resolveTimeRangeWindow date_parse zone (pi_snap input) (pi_nowMs input) range
  | None => Some (pi_dashboardWindow input)
  end.

(** The params with the strategy, the number of points and the window. *)
Definition with_window (input : PlanWidgetRequestInput) (window : string * string) : list (text * param) :=
  let params := map_set (lit "strategy") WIDGET_FETCH_STRATEGY (pi_params input) in
  let params :=
    match pi_maxDataPoints input with
    | Some x => if bool_decide (pi_endpoint input = TIMESERIES_ENDPOINT) then map_set (lit "maxDataPoints") (PNum x) params
                else params
    | None => params
    end in
  map_set (lit "endTime") (PText (utf16_units window.2))
    (map_set (lit "startTime") (PText (utf16_units window.1)) params).

Definition planWidgetRequest (input : PlanWidgetRequestInput) : WidgetRequestPlan :=
  match widget_window input with
  | None => DisabledWidgetRequest invalid_widget_time_range
  | Some window =>
      let withMacros :=
        interpolateTimeMacros (with_window input window) (utf16_units window.1) (utf16_units window.2) in
      let interpolated :=
        match pi_variableValues input with
        | None => withMacros
        | Some values => interpolateWidgetParams withMacros values
        end in
      if isMetricNotSelected (pi_endpoint input) interpolated then DisabledWidgetRequest metric_not_selected
      else
        PlannedWidgetRequest (pi_endpoint input) interpolated window
          (bool_decide (pi_endpoint input ∈ LIST_ENDPOINTS) &&
           match window_ms window with Some ms => MAX_LIST_RANGE_SECONDS * 1000 <? ms | None => false end)
  end.
End Plan.
End Interpolate.

(** ** Examples *)

(** Quotes and backslashes behind a backslash. *)
Definition backslash_escape (a : text) : text :=
  flat_map (fun c => if (c =? 39) || (c =? 92) then [92; c] else [c]) a.

Definition chosen (value : string) : ResolvedVariable :=
  {| rv_value := lit value; rv_isAll := false; rv_options := [] |}.

Example interpolate_ex :
  let values := [(lit "svc", chosen "a'b"); (lit "env", {| rv_value := ALL_VALUE; rv_isAll := true; rv_options := [lit "x"; lit "y"] |})] in
  interpolateString backslash_escape (lit "s = $svc AND e IN (${env}) AND t > $__startTime AND q = $other") (Some (lit "sql")) values =
    lit "s = 'a\'b' AND e IN ('x','y') AND t > $__startTime AND q = $other" /\
  interpolateString backslash_escape (lit "svc = '$svc' and env = $env and z = 1") (Some (lit "WhereClause")) values =
    lit "svc = 'a'b' AND z = 1" /\
  collectVariableRefs (lit "$a${b}$a$_x${c") = [lit "a"; lit "b"].
Proof. by vm_compute. Qed.
