(* ===== verification/DashSafe.v ===== *)
(** * Dashboard variables: what substitution can change

    In SQL the value of a variable stays inside string literals; in a filter a
    clause on an All selection disappears and the others read as their values. *)

From Stdlib Require Import Ascii String.
From stdpp Require Import prelude list.
From Stdlib Require Import ZArith Lia ZifyBool.
From S2P Require Import Prelude.
From S2P Require Import JsNum.
From S2P Require Import JsString.
From S2P Require Import WarehouseTime.
From S2P Require Import QueryWindow.
From S2P Require Import IngestSha256.
From S2P Require Import IngestRegex.
From S2P Require Import JsUnits.
From S2P Require Import SqlTokens.
From S2P Require Import SqlLexer.
From S2P Require Import QueryRunner.
From S2P Require Import WhereClause.
From S2P Require Import WhereReads.
From S2P Require Import WhereSplit.
From S2P Require Import DashVariables.

Open Scope Z_scope.
Local Open Scope maple_scope.

(** ** Pieces *)

Definition units (a : text) : list piece := List.map Unit_ a.

Lemma pieces_plain a r : 36 ∉ a -> pieces 0 (a ++ r) = units a ++ pieces 0 r.
Proof.
  induction a as [|c a IH]; [done|]. intros [Hc Ha]%not_elem_of_cons. cbn.
  rewrite (proj2 (Z.eqb_neq c 36)) by congruence. by rewrite IH.
Qed.

Lemma pieces_skip n : forall a r, length a = n -> pieces n (a ++ r) = pieces 0 r.
Proof. induction n as [|n IH]; intros [|c a] r H; try done. injection H as H. cbn. by apply IH. Qed.

(** A name a reference can have. *)
Definition name_text (n : text) : Prop :=
  match n with c :: n' => is_letter c = true /\ Forall (fun c => is_ident_part c = true) n' | [] => False end.

Lemma pieces_bare name r : name_text name -> starts_not is_ident_part r ->
  pieces 0 (36 :: name ++ r) = Ref name (36 :: name) :: pieces 0 r.
Proof.
  destruct name as [|c n]; [done|]. intros [Hc Hn] Hr. cbn [pieces]. change (36 =? 36) with true. cbv iota.
  assert (read_ref ((c :: n) ++ r) = Some (c :: n, length (c :: n))) as ->.
  { cbn [read_ref app]. assert ((c =? 123) = false) as -> by (unfold is_letter in Hc; lia).
    cbn [read_name]. rewrite Hc, span_ident_spec by done. done. }
  rewrite take_app_length, pieces_skip by done. done.
Qed.

Lemma replace_units a f : concat (List.map (put f) (units a)) = a.
Proof. unfold units. induction a as [|c a IH]; [done|]. cbn in *. by rewrite IH. Qed.

Lemma replace_app l1 l2 f :
  concat (List.map (put f) (l1 ++ l2)) = concat (List.map (put f) l1) ++ concat (List.map (put f) l2).
Proof. by rewrite List.map_app, concat_app. Qed.

Lemma no_dollar a : existsb (fun c => c =? 36) a = false -> 36 ∉ a.
Proof.
  intros H Hin. apply list_elem_of_In in Hin. apply not_true_iff_false in H. apply H, existsb_exists.
  exists 36. by split.
Qed.

Lemma plain_replace a f : 36 ∉ a -> replaceRefs a f = a.
Proof.
  intros H. unfold replaceRefs. rewrite <- (app_nil_r a) at 1. rewrite pieces_plain by done. cbn [pieces].
  by rewrite app_nil_r, replace_units.
Qed.

Lemma plain_replace_units a f : 36 ∉ a -> concat (List.map (put f) (pieces 0 a)) = a.
Proof. exact (plain_replace a f). Qed.

(** ** SQL *)

(** One lexical element, its tokens, and what may come after it. *)
Inductive lexeme (toLowerCase : text -> text) : text -> list SqlToken -> (option Z -> bool) -> Prop :=
  | lex_space c : is_space c = true -> lexeme toLowerCase [c] [] (fun _ => true)
  | lex_dashes b : Forall (fun c => (c =? 10) = false) b ->
      lexeme toLowerCase (45 :: 45 :: b) [] (fun h => match h with Some c => c =? 10 | None => true end)
  | lex_hash b : Forall (fun c => (c =? 10) = false) b ->
      lexeme toLowerCase (35 :: b) [] (fun h => match h with Some c => c =? 10 | None => true end)
  | lex_block b : comment_body (b ++ [42]) = true -> lexeme toLowerCase (47 :: 42 :: b ++ [42; 47]) [] (fun _ => true)
  | lex_string b : string_body b ->
      lexeme toLowerCase (39 :: b ++ [39]) [] (fun h => match h with Some c => negb (c =? 39) | None => true end)
  | lex_quoted open close b n : QUOTE_CLOSE open = Some close -> quoted_name close b n ->
      lexeme toLowerCase (open :: b ++ [close]) [name_token toLowerCase n]
        (fun h => match h with Some c => (close =? 0x201d) || negb (c =? close) | None => true end)
  | lex_bare c n : is_ident_start c = true -> Forall (fun c => is_ident_part c = true) n ->
      lexeme toLowerCase (c :: n) [name_token toLowerCase (c :: n)]
        (fun h => match h with Some c => negb (is_ident_part c) | None => true end)
  | lex_symbol c : lexeme toLowerCase [c] [symbol_token c]
      (fun h => is_symbol c (match h with Some d => [d] | None => [] end)).

Section Sql.
Context (toLowerCase escapeClickHouseString : text -> text) (values : VariableValues).

(** The escaped text is the inside of a string literal. *)
Hypothesis escape_body : forall a, string_body (escapeClickHouseString a).

(** The first unit of a template; a reference becomes a literal. *)
Definition first_unit (ps : list piece) : option Z :=
  match ps with Unit_ c :: _ => Some c | Ref _ _ :: _ => Some 39 | [] => None end.

(** SQL whose references stand where a token may stand: its tokens, and the
    names referenced between them. *)
Inductive template : list piece -> list (SqlToken + text) -> Prop :=
  | template_nil : template [] []
  | template_lexeme w ts follow ps rest : lexeme toLowerCase w ts follow -> follow (first_unit ps) = true ->
      template ps rest -> template (units w ++ ps) (List.map inl ts ++ rest)
  | template_ref name whole ps rest : is_Some (map_get name values) -> first_unit ps <> Some 39 ->
      template ps rest -> template (Ref name whole :: ps) (inr name :: rest).

Definition comma : SqlToken := symbol_token 44.

(** The tokens of a literal: the commas between the options of an All selection. *)
Definition ref_tokens (name : text) : list SqlToken :=
  match map_get name values with
  | Some variable => if rv_isAll variable then repeat comma (length (rv_options variable) - 1) else []
  | None => []
  end.

Definition filled (t : SqlToken + text) : list SqlToken := match t with inl tok => [tok] | inr name => ref_tokens name end.

Lemma lexeme_written w ts follow s rest : lexeme toLowerCase w ts follow -> follow (head s) = true ->
  written toLowerCase s rest -> written toLowerCase (w ++ s) (ts ++ rest).
Proof.
  intros Hl Hf Hs. destruct Hl as [c Hc|b Hb|b Hb|b Hb|b Hb|open close b n Ho Hb|c n Hc Hn|c]; cbn [app];
    rewrite <- ?app_assoc; cbn [app].
  - by apply written_space.
  - apply written_dashes; [done| |done]. destruct s as [|c s]; [done|]. cbn in *. by rewrite Hf.
  - apply written_hash; [done| |done]. destruct s as [|c s]; [done|]. cbn in *. by rewrite Hf.
  - by apply written_block.
  - apply written_string; [done| |done]. destruct s as [|c s]; [done|]. by apply negb_true_iff in Hf.
  - apply (written_quoted _ open close); [done..| |done]. intros Hne. destruct s as [|c s]; [done|].
    cbn in *. apply (proj2 (Z.eqb_neq _ _)) in Hne. rewrite Hne in Hf. by apply negb_true_iff in Hf.
  - apply written_bare; [done..| |done]. destruct s as [|d s]; [done|]. by apply negb_true_iff in Hf.
  - apply written_symbol; [|done]. destruct s as [|d s]; [done|]. cbn [head] in Hf. rewrite <- Hf. unfold is_symbol. by destruct s.
Qed.

Definition sql_put : text -> option text := fun name => sqlLiteral escapeClickHouseString <$> map_get name values.

Lemma quoted_written a s rest : head s <> Some 39 -> written toLowerCase s rest ->
  written toLowerCase (quoted escapeClickHouseString a ++ s) rest.
Proof.
  intros Hh Hs. unfold quoted. rewrite <- !app_assoc. cbn [app]. apply written_string; [by apply escape_body| |done].
  destruct s as [|c s]; [done|]. cbn in *. apply Z.eqb_neq. congruence.
Qed.

(** The literal of a variable adds commas only. *)
Lemma literal_written name variable s rest : map_get name values = Some variable -> head s <> Some 39 ->
  written toLowerCase s rest ->
  written toLowerCase (sqlLiteral escapeClickHouseString variable ++ s) (ref_tokens name ++ rest).
Proof.
  intros Hv Hh Hs. unfold ref_tokens, sqlLiteral. rewrite Hv. destruct (rv_isAll variable); [|by apply quoted_written].
  destruct (rv_options variable) as [|o os].
  - change (written toLowerCase (39 :: [] ++ 39 :: s) rest). apply written_string; [constructor| |done].
    destruct s as [|c s]; [done|]. cbn in *. apply Z.eqb_neq. congruence.
  - cbn [length]. rewrite Nat.sub_succ, Nat.sub_0_r. revert o. induction os as [|o' os IH]; intros o; cbn [List.map join_text].
    + by apply quoted_written.
    + rewrite <- !app_assoc. apply quoted_written; [done|]. cbn [length repeat app]. change (lit ",") with [44].
      cbn [app]. apply (written_symbol _ 44); [done|]. exact (IH o').
Qed.

(** The first unit of a filled template. *)
Lemma filled_head ps ts : template ps ts ->
  head (concat (List.map (put sql_put) ps)) = first_unit ps.
Proof.
  intros H. destruct H as [|w ts follow ps rest Hl _ _|name whole ps rest [variable Hv] _ _]; [done|..].
  - by destruct Hl.
  - cbn. unfold sql_put. rewrite Hv. cbn. unfold sqlLiteral.
    destruct (rv_isAll variable); [|done]. by destruct (rv_options variable) as [|o [|o' os]].
Qed.

Lemma template_written ps ts : template ps ts ->
  written toLowerCase (concat (List.map (put sql_put) ps)) (concat (List.map filled ts)).
Proof.
  induction 1 as [|w ts follow ps rest Hl Hf Ht IH|name whole ps rest [variable Hv] Hf Ht IH]; [constructor|..].
  - rewrite replace_app, replace_units, List.map_app, concat_app.
    assert (concat (List.map filled (List.map inl ts)) = ts) as -> by (clear; induction ts as [|t ts IH]; [done|cbn; by rewrite IH]).
    apply (lexeme_written w ts follow); [done| |done]. by rewrite (filled_head _ _ Ht).
  - cbn [List.map concat put filled]. unfold sql_put at 1. rewrite Hv. cbn [fmap option_fmap option_map from_option].
    unfold default, id. apply literal_written; [done| |done]. by rewrite (filled_head _ _ Ht).
Qed.

(** C13: The value of a variable stays inside string literals. Where the
    references of a SQL text stand where a token may stand, the SQL that is sent
    has exactly the tokens of the text: the names and symbols the author wrote,
    and for an All selection the commas between its options. No value, whatever
    it holds, adds a name, a call or any other token. *)
Theorem variables_stay_literals input ts :
  template (pieces 0 input) ts ->
  tokenizeSql toLowerCase (interpolateString escapeClickHouseString input (Some (lit "sql")) values) =
  concat (List.map filled ts).
Proof using escape_body.
  intros H. apply tokenizeSql_written. unfold interpolateString. rewrite bool_decide_true by done.
  destruct (existsb (fun c => c =? 36) input) eqn:E; cbn [negb]; [exact (template_written _ _ H)|].
  apply no_dollar in E. rewrite <- (plain_replace input sql_put E) at 1. exact (template_written _ _ H).
Qed.
End Sql.

Lemma backslash_escape_body a : string_body (backslash_escape a).
Proof.
  unfold backslash_escape. induction a as [|c a IH]; [constructor|]. cbn.
  destruct (Z.eqb_spec c 39) as [->|H1]; [by apply string_escape|].
  destruct (Z.eqb_spec c 92) as [->|H2]; [by apply string_escape|]. by apply string_plain.
Qed.

Definition dash_values : VariableValues :=
  [(lit "a", chosen "x') OR url('"); (lit "b", {| rv_value := ALL_VALUE; rv_isAll := true; rv_options := [lit "p"; lit "q"] |})].

Definition dash_sql : text := Eval vm_compute in lit "f($a,${b})".

Lemma variables_stay_literals_witness :
  tokenizeSql (List.map lower_ascii) (interpolateString backslash_escape dash_sql (Some (lit "sql")) dash_values) =
  [name_token (List.map lower_ascii) (lit "f"); symbol_token 40; symbol_token 44; symbol_token 44; symbol_token 41].
Proof.
  refine (variables_stay_literals (List.map lower_ascii) backslash_escape dash_values backslash_escape_body dash_sql
    [inl (name_token (List.map lower_ascii) [102]); inl (symbol_token 40); inr (lit "a"); inl (symbol_token 44);
     inr (lit "b"); inl (symbol_token 41)] _).
  change (pieces 0 dash_sql) with (units [102] ++ units [40] ++ Ref (lit "a") [36; 97] :: units [44] ++
    Ref (lit "b") (lit "${b}") :: units [41] ++ []).
  eapply (template_lexeme _ _ [102] [_]); [by apply lex_bare|done|].
  eapply (template_lexeme _ _ [40] [_]); [by apply lex_symbol|done|].
  apply template_ref; [by eexists|done|]. eapply (template_lexeme _ _ [44] [_]); [by apply lex_symbol|done|].
  apply template_ref; [by eexists|done|]. eapply (template_lexeme _ _ [41] [_]); [by apply lex_symbol|done|].
  apply template_nil.
Defined.

(** A reference the author put inside quotes is no such place: the literal it
    becomes closes those quotes, and the value is read as SQL. *)
Example quoted_reference_spills :
  let sql value := interpolateString backslash_escape (lit "x LIKE '%$v%'") (Some (lit "sql")) [(lit "v", chosen value)] in
  disallowedServerFunction (List.map lower_ascii) (sql "ok"%string) = None /\
  disallowedServerFunction (List.map lower_ascii) (sql " OR getMacro(1) OR "%string) = Some (lit "getmacro").
Proof. by vm_compute. Qed.

(** ** Filters *)

(** A clause of a filter: without references, or one that compares a key with a
    quoted reference. *)
Inductive FilterClause :=
  | Fixed (c : ParsedClause) (t : text)
  | ByVariable (key g1 w : text) (op : Operator) (g2 : text) (q : Z) (name : text).

(** A comparison with a quoted value. *)
Definition compared (key g1 w g2 : text) (q : Z) (v : text) : text := key ++ g1 ++ w ++ g2 ++ q :: v ++ [q].

Definition clause_text (f : FilterClause) : text :=
  match f with
  | Fixed _ t => t
  | ByVariable key g1 w _ g2 q name => compared key g1 w g2 q (36 :: name)
  end.

Definition clause_ok (f : FilterClause) : Prop :=
  match f with
  | Fixed c t => clause_written c t /\ 36 ∉ t
  | ByVariable key g1 w op g2 q name =>
      key_text key /\ spaces g1 /\ (w, op) ∈ comparisons /\ spaces g2 /\ is_quote q = true /\ name_text name
  end.

Section Filters.
Context (values : VariableValues).

(** The value a clause is compared with does not hold its quote. *)
Definition value_fits (f : FilterClause) : Prop :=
  match f with
  | Fixed _ _ => True
  | ByVariable _ _ _ _ _ q name => forall variable, map_get name values = Some variable ->
      rv_isAll variable = true \/ q ∉ rv_value variable
  end.

(** What a clause means once its variable has a value; none for All. A variable
    that is not defined stays as it is written. *)
Definition meaning (f : FilterClause) : option ParsedClause :=
  match f with
  | Fixed c _ => Some c
  | ByVariable key _ _ op _ _ name =>
      match map_get name values with
      | Some variable => if rv_isAll variable then None else Some (clause_of key op (rv_value variable))
      | None => Some (clause_of key op (36 :: name))
      end
  end.

(** The text of a clause after substitution. *)
Definition filled_text (f : FilterClause) : text :=
  match f with
  | Fixed _ t => t
  | ByVariable key g1 w _ g2 q name => compared key g1 w g2 q (default (36 :: name) (value_of values name))
  end.

Lemma comparison_no_dollar w op : (w, op) ∈ comparisons -> 36 ∉ w.
Proof.
  intros H. unfold comparisons in H. rewrite !elem_of_cons, elem_of_nil in H.
  destruct H as [[= -> _]|[[= -> _]|[[= -> _]|[[= -> _]|[[= -> _]|[[= -> _]|[]]]]]]];
    apply (bool_decide_unpack _); by vm_compute.
Qed.

Lemma forall_no_dollar (P : Z -> Prop) a : Forall P a -> ~ P 36 -> 36 ∉ a.
Proof. intros H Hn Hin. rewrite Forall_forall in H. by apply Hn, H. Qed.

Lemma name_no_dollar name : name_text name -> 36 ∉ name.
Proof.
  destruct name as [|c n]; [done|]. intros [Hc Hn] [<-|Hin]%elem_of_cons; [done|].
  by apply (forall_no_dollar _ _ Hn).
Qed.

Lemma prefix_no_dollar key g1 w op g2 q : Forall (fun c => is_key_char c = true) key -> spaces g1 -> (w, op) ∈ comparisons ->
  spaces g2 -> is_quote q = true -> 36 ∉ key ++ g1 ++ w ++ g2 ++ [q].
Proof.
  intros Hk Hg1 Hw Hg2 Hq. rewrite !elem_of_app, list_elem_of_singleton. intros [H|[H|[H|[H|H]]]].
  - by apply (forall_no_dollar _ _ Hk).
  - by apply (forall_no_dollar _ _ Hg1).
  - by apply (comparison_no_dollar w op).
  - by apply (forall_no_dollar _ _ Hg2).
  - by subst q.
Qed.

Lemma filled_clause f : clause_ok f -> forall g, (forall name, g name = value_of values name) ->
  replaceRefs (clause_text f) g = filled_text f.
Proof.
  destruct f as [c t|key g1 w op g2 q name]; intros Hok g Hg; [by apply plain_replace; destruct Hok|].
  destruct Hok as ([_ Hk] & Hg1 & Hw & Hg2 & Hq & Hn). unfold replaceRefs. cbn [clause_text filled_text].
  assert (forall v, compared key g1 w g2 q v = (key ++ g1 ++ w ++ g2 ++ [q]) ++ v ++ [q]) as E
    by (intros v; unfold compared; by rewrite <- !app_assoc).
  rewrite !E. assert (36 ∉ key ++ g1 ++ w ++ g2 ++ [q]) as Hpre by by apply (prefix_no_dollar key g1 w op).
  assert (starts_not is_ident_part [q]) as Hend by by (apply quote_cases in Hq as [-> | ->]).
  rewrite pieces_plain by done. cbn [app]. rewrite pieces_bare by done.
  rewrite replace_app, replace_units. f_equal. cbn [List.map concat put]. rewrite Hg.
  rewrite (plain_replace_units [q]); [done|]. rewrite list_elem_of_singleton. apply quote_cases in Hq. lia.
Qed.

Lemma filled_written f c : clause_ok f -> value_fits f -> meaning f = Some c -> clause_written c (filled_text f).
Proof.
  destruct f as [c' t|key g1 w op g2 q name]; cbn [meaning filled_text]; [by intros [H _] _ [= <-]|].
  intros (Hk & Hg1 & Hw & Hg2 & Hq & Hn) Hfits. unfold value_of. cbn [value_fits] in Hfits.
  assert (forall v, q ∉ v -> clause_written (clause_of key op v) (compared key g1 w g2 q v)) as Hc.
  { intros v Hv. unfold compared. apply clause_compare; try done. apply value_quoted; [done|].
    apply Forall_forall. intros x Hx ->. done. }
  destruct (map_get name values) as [variable|] eqn:E; cbn.
  - destruct (rv_isAll variable) eqn:Ea; [done|]. intros [= <-]. apply Hc. by destruct (Hfits _ eq_refl) as [|]; [congruence|].
  - intros [= <-]. apply Hc. intros [Hx|Hx]%elem_of_cons.
    + apply quote_cases in Hq. lia.
    + destruct name as [|x n]; [done|]. destruct Hn as [Hl Hn]. apply quote_cases in Hq.
      apply elem_of_cons in Hx as [->|Hx]; [unfold is_letter in Hl; lia|].
      rewrite Forall_forall in Hn. specialize (Hn q Hx). unfold is_ident_part, is_ident_start, is_decimal in Hn. lia.
Qed.

Lemma clause_ok_written f : clause_ok f -> exists c, clause_written c (clause_text f).
Proof.
  destruct f as [c t|key g1 w op g2 q name]; intros Hok; [by exists c; destruct Hok|].
  exists (clause_of key op (36 :: name)). destruct Hok as (Hk & Hg1 & Hw & Hg2 & Hq & Hn).
  unfold clause_text, compared. apply clause_compare; try done. apply value_quoted; [done|].
  apply quote_cases in Hq. destruct name as [|x n]; [done|]. destruct Hn as [Hl Hn].
  constructor; [lia|]. constructor; [unfold is_letter in Hl; lia|].
  eapply Forall_impl; [exact Hn|]. intros c Hc. cbv beta in Hc. unfold is_ident_part, is_ident_start, is_decimal in Hc. lia.
Qed.

(** A clause is dropped exactly when it has no meaning. *)
Lemma dropped_clause f : clause_ok f ->
  existsb (is_all values) (collectVariableRefs (clause_text f)) = bool_decide (meaning f = None).
Proof.
  intros Hok. unfold collectVariableRefs.
  assert (existsb (is_all values) (dedupe (omap ref_name (pieces 0 (clause_text f)))) =
          existsb (is_all values) (omap ref_name (pieces 0 (clause_text f)))) as ->.
  { apply eq_true_iff_eq. rewrite !existsb_exists. by setoid_rewrite <- list_elem_of_In; setoid_rewrite elem_of_dedupe. }
  assert (forall a, omap ref_name (units a) = []) as Hun by (intros a; induction a; by rewrite ?IHa).
  destruct f as [c t|key g1 w op g2 q name]; cbn [clause_text meaning].
  - rewrite <- (app_nil_r t), pieces_plain by by destruct Hok. cbn [pieces]. by rewrite app_nil_r, Hun.
  - destruct Hok as ([_ Hk] & Hg1 & Hw & Hg2 & Hq & Hn).
    assert (compared key g1 w g2 q (36 :: name) = (key ++ g1 ++ w ++ g2 ++ [q]) ++ 36 :: name ++ [q]) as ->
      by (unfold compared; by rewrite <- !app_assoc).
    rewrite pieces_plain by by apply (prefix_no_dollar key g1 w op).
    rewrite pieces_bare; [|done|by apply quote_cases in Hq as [-> | ->]].
    rewrite omap_app, Hun. cbn [app]. change (omap ref_name (Ref name (36 :: name) :: pieces 0 [q])) with (name :: omap ref_name (pieces 0 [q])).
    assert (omap ref_name (pieces 0 [q]) = []) as -> by by apply quote_cases in Hq as [-> | ->].
    cbn [existsb]. rewrite orb_false_r. unfold is_all. destruct (map_get name values) as [variable|]; cbn; [|done]. by destruct (rv_isAll variable).
Qed.

(** What substitution makes of a filter. *)
Lemma interpolated_filter fs e : Forall clause_ok fs -> joined AND (List.map clause_text fs) e ->
  interpolateWhereClause e values =
  join_text (lit " AND ") (List.map filled_text (List.filter (fun f => negb (bool_decide (meaning f = None))) fs)).
Proof.
  intros Hok Hj. unfold interpolateWhereClause, splitWhereClause.
  assert (Forall (fun t => exists c, clause_written c t) (List.map clause_text fs)) as Hall.
  { rewrite Forall_map. eapply Forall_impl; [exact Hok|]. apply clause_ok_written. }
  rewrite (split_joined AND (List.map clause_text fs)); [|by left|done|..];
    [|eapply Forall_impl; [exact Hall|]; intros t (c & Hc); by destruct (clause_tight c t Hc)
     |eapply Forall_impl; [exact Hall|]; intros t (c & Hc); apply (clause_steady AND c t); [by left|done]].
  f_equal. clear Hj Hall. induction Hok as [|f fs Hf _ IH]; [done|]. cbn [List.map List.filter].
  rewrite dropped_clause by done. destruct (bool_decide (meaning f = None)); cbn [negb List.map]; [done|].
  rewrite IH. f_equal. by apply filled_clause.
Qed.

Definition kept (fs : list FilterClause) : list FilterClause :=
  List.filter (fun f => negb (bool_decide (meaning f = None))) fs.

Lemma kept_written fs : Forall clause_ok fs -> Forall value_fits fs ->
  Forall2 item_written (List.map One (omap meaning fs)) (List.map filled_text (kept fs)).
Proof.
  intros Hok. induction Hok as [|f fs Hf _ IH]; [constructor|]. intros [Hfit Hfits]%Forall_cons. cbn.
  destruct (meaning f) as [c|] eqn:E; cbn; [|by apply IH].
  constructor; [|by apply IH]. apply written_clause. by apply filled_written.
Qed.

(** A text that joins the kept clauses is read as their meanings. *)
Lemma kept_read fs a orGroups : Forall clause_ok fs -> Forall value_fits fs ->
  joined AND (List.map filled_text (kept fs)) a ->
  parseWhereClause a orGroups = {| clauses := omap meaning fs; groups := []; warnings := [] |}.
Proof.
  intros Hok Hfits Hj. pose proof (kept_written fs Hok Hfits) as Hi.
  rewrite (filter_parts (List.map One (omap meaning fs)) (List.map filled_text (kept fs))).
  - rewrite (read_items orGroups _ _ Hi). cbn [clauses groups warnings app].
    assert (forall l, omap item_clause (List.map One l) = l /\ omap item_group (List.map One l) = [] /\
      forall ts, refused (List.map One l) ts = []) as Hone.
    { induction l as [|c l (IH1 & IH2 & IH3)]; [done|]. cbn. rewrite IH1. split_and!; [done..|].
      intros [|t ts]; [done|]. apply IH3. }
    destruct (Hone (omap meaning fs)) as (-> & -> & ->). by destruct orGroups.
  - split; [done|]. exists [], a, []. rewrite app_nil_r. by split_and!; [constructor..| |].
Qed.

Lemma joined_parts keyword ts a : joined keyword ts a -> forall t, t ∈ ts -> forall x, x ∈ t -> x ∈ a.
Proof.
  induction 1 as [t|t s ts rest _ _ IH]; intros t' Ht x Hx.
  - by apply list_elem_of_singleton in Ht as ->.
  - rewrite !elem_of_app. apply elem_of_cons in Ht as [->|Ht]; [by left|]. right. right. by apply (IH t').
Qed.

(** Without references nothing changes. *)
Lemma fixed_filter fs e : Forall clause_ok fs -> joined AND (List.map clause_text fs) e -> 36 ∉ e ->
  List.map filled_text (kept fs) = List.map clause_text fs.
Proof.
  intros Hok Hj Hd. assert (forall f, f ∈ fs -> 36 ∉ clause_text f) as Hall.
  { intros f Hf Hin. apply Hd, (joined_parts _ _ _ Hj (clause_text f)); [|done]. by apply list_elem_of_fmap_2. }
  clear Hj Hd. induction fs as [|f fs IH]; [done|]. apply Forall_cons in Hok as [Hf Hok]. unfold kept in *. cbn.
  destruct f as [c t|key g1 w op g2 q name].
  - cbn. f_equal. apply IH; [done|]. intros f Hin. apply Hall. by right.
  - exfalso. apply (Hall _ (list_elem_of_here _ _)). cbn. unfold compared. do 4 (apply elem_of_app; right). right. left.
Qed.

(** C20: A filter is read with the values of its variables. For a conjunction of
    clauses, some of which compare a key with a quoted reference, the filter that
    is sent is read as exactly: the clauses without references, the clauses of
    variables with a value as comparisons with that value, and no clause for a
    variable whose selection is All, in order and without warnings; provided no
    value holds the quote it stands in. *)
Theorem variable_filters_read fs e key orGroups :
  is_where_key key = true -> Forall clause_ok fs -> Forall value_fits fs -> joined AND (List.map clause_text fs) e ->
  parseWhereClause (interpolateString id e (Some key) values) orGroups =
  {| clauses := omap meaning fs; groups := []; warnings := [] |}.
Proof.
  intros Hkey Hok Hfits Hj. unfold interpolateString.
  rewrite bool_decide_false by (intros [= ->]; by vm_compute in Hkey). rewrite Hkey.
  destruct (existsb (fun c => c =? 36) e) eqn:Ed; cbn [negb].
  - rewrite (interpolated_filter fs) by done. fold (kept fs). destruct (kept fs) as [|f ks] eqn:E.
    + pose proof (kept_written fs Hok Hfits) as Hi. rewrite E in Hi. by destruct (omap meaning fs); [|inversion Hi].
    + apply kept_read; [done..|]. rewrite E. apply join_joined.
  - apply kept_read; [done..|]. by rewrite (fixed_filter fs e Hok Hj (no_dollar _ Ed)).
Qed.
End Filters.

Definition filter_values : VariableValues :=
  [(lit "svc", chosen "a AND b"); (lit "env", {| rv_value := ALL_VALUE; rv_isAll := true; rv_options := [] |})].

Definition filter_text : text := Eval vm_compute in lit "x=1 AND svc='$svc' AND env='$env'".

Definition filter_clauses : list FilterClause :=
  [Fixed (clause_of (lit "x") op_eq (lit "1")) (lit "x=1");
   ByVariable (lit "svc") [] (lit "=") op_eq [] 39 (lit "svc"); ByVariable (lit "env") [] (lit "=") op_eq [] 39 (lit "env")].

Lemma compared_ok key w op q name i : is_quote q = true -> key_text key -> name_text name -> comparisons !! i = Some (w, op) ->
  clause_ok (ByVariable key [] w op [] q name).
Proof. intros Hq Hk Hn Hi. split_and!; try done; [constructor| |constructor]. by eapply list_elem_of_lookup_2. Qed.

Lemma variable_filters_read_witness :
  parseWhereClause (interpolateString id filter_text (Some (lit "whereClause")) filter_values) false =
  {| clauses := [clause_of (lit "x") op_eq (lit "1"); clause_of (lit "svc") op_eq (lit "a AND b")];
     groups := []; warnings := [] |}.
Proof.
  refine (variable_filters_read filter_values filter_clauses filter_text (lit "whereClause") false eq_refl _ _ _).
  - constructor; [|constructor; [|constructor; [|constructor]]].
    + split; [|by apply (bool_decide_unpack _); vm_compute].
      apply (clause_compare (lit "x") [] (lit "=") op_eq [] (lit "1") (lit "1")); [..|by constructor|]; try by constructor.
      * split; [done|]. by repeat constructor.
      * by apply (list_elem_of_lookup_2 _ 5%nat).
      * apply value_bare; [done|by repeat constructor|done..].
    + apply (compared_ok _ _ _ _ _ 5); [done| |by split; [|repeat constructor]|done]. split; [done|]. by repeat constructor.
    + apply (compared_ok _ _ _ _ _ 5); [done| |by split; [|repeat constructor]|done]. split; [done|]. by repeat constructor.
  - constructor; [done|]. constructor; [|constructor; [|constructor]].
    + intros variable [= <-]. right. by apply (bool_decide_unpack _); vm_compute.
    + intros variable [= <-]. by left.
  - change filter_text with (lit "x=1" ++ lit " AND " ++ lit "svc='$svc'" ++ lit " AND " ++ lit "env='$env'").
    apply joined_more; [|apply joined_more; [|apply joined_one]]; exists [], 32, (lit "AND"), [32];
      by split_and!; repeat constructor.
Defined.

(** A value that holds the quote it stands in writes clauses of its own. *)
Example quoted_value_adds_clauses :
  List.map pc_key (clauses (parseWhereClause (interpolateString id (lit "svc = '$svc'") (Some (lit "whereClause"))
    [(lit "svc", chosen "a' AND env = 'prod")]) false)) = [lit "svc"; lit "env"].
Proof. by vm_compute. Qed.
