(* ===== verification/DashPlan.v ===== *)
(** * The request of a tile

    Whatever its stored params and its variables hold, a planned request asks
    for the window of the tile and never for a wider one. *)

From Stdlib Require Import Ascii String.
From stdpp Require Import prelude list.
From Stdlib Require Import ZArith Lia.
From S2P Require Import Prelude.
From S2P Require Import JsNum.
From S2P Require Import JsString.
From S2P Require Import WarehouseTime.
From S2P Require Import QueryWindow.
From S2P Require Import IngestSha256.
From S2P Require Import IngestRegex.
From S2P Require Import JsUnits.
From S2P Require Import QueryRunner.
From S2P Require Import QueryLadder.
From S2P Require Import DashVariables.

Open Scope Z_scope.
Local Open Scope maple_scope.

(** ** Properties of params *)

Lemma get_entries (f : text -> param -> param) k m :
  map_get k (List.filter (fun e => own_key e.1) (List.map (fun '(k, v) => (k, f k v)) m)) =
  if own_key k then f k <$> map_get k m else None.
Proof.
  induction m as [|[k' v] m IH]; cbn; [by destruct (own_key k)|].
  destruct (decide (k = k')) as [->|Hne].
  - destruct (own_key k') eqn:E; cbn; [by rewrite decide_True|exact IH].
  - destruct (own_key k') eqn:E; cbn; [by rewrite decide_False, IH|exact IH].
Qed.

Lemma get_macros params startTime endTime k :
  map_get k (interpolateTimeMacros params startTime endTime) =
  if own_key k then time_macro startTime endTime <$> map_get k params else None.
Proof. exact (get_entries (fun _ => time_macro startTime endTime) k params). Qed.

Lemma get_interpolated escape params values k :
  map_get k (interpolateWidgetParams escape params values) =
  if own_key k then walk escape (Some k) values <$> map_get k params else None.
Proof. exact (get_entries (fun k => walk escape (Some k) values) k params). Qed.

(** ** Plans *)

Section Plan.
Context (escapeClickHouseString : text -> text) (date_parse : string -> option Z) (zone : Z -> ZonedDateParts).

Notation plan := (planWidgetRequest escapeClickHouseString date_parse zone).

(** The params a request is planned from. *)
Definition planned_params (input : PlanWidgetRequestInput) (window : string * string) : list (text * param) :=
  let withMacros :=
    interpolateTimeMacros (with_window input window) (utf16_units window.1) (utf16_units window.2) in
  match pi_variableValues input with
  | None => withMacros
  | Some values => interpolateWidgetParams escapeClickHouseString withMacros values
  end.

Lemma plan_cases input ep params window over : plan input = PlannedWidgetRequest ep params window over ->
  widget_window date_parse zone input = Some window /\ ep = pi_endpoint input /\ params = planned_params input window /\
  isMetricNotSelected ep params = false /\
  over = bool_decide (ep ∈ LIST_ENDPOINTS) &&
         match window_ms date_parse window with Some ms => MAX_LIST_RANGE_SECONDS * 1000 <? ms | None => false end.
Proof.
  unfold planWidgetRequest. destruct (widget_window _ _ _) as [w|]; [|done]. fold (planned_params input w).
  destruct (isMetricNotSelected _ _) eqn:E; [done|]. by intros [= <- <- <- <-].
Qed.

(** A value that neither a macro nor a variable changes. *)
Definition settled (key : text) (v : param) : Prop :=
  (forall s e, time_macro s e v = v) /\ forall values, walk escapeClickHouseString (Some key) values v = v.

Lemma planned_get input window k v : own_key k = true -> map_get k (with_window input window) = Some v -> settled k v ->
  map_get k (planned_params input window) = Some v.
Proof.
  intros Hk Hv [Hm Hw]. unfold planned_params.
  destruct (pi_variableValues input) as [values|]; rewrite ?get_interpolated, get_macros, Hk, Hv; cbn; by rewrite Hm, ?Hw.
Qed.

Lemma settled_text key t : 36 ∉ t -> settled key (PText t).
Proof.
  intros Ht. split.
  - intros s e. cbn [time_macro].
    rewrite !bool_decide_false; [done|intros ->..]; apply Ht, (bool_decide_unpack _); by vm_compute.
  - intros values. cbn [walk]. unfold interpolateString.
    destruct (existsb (fun c => c =? 36) t) eqn:E; [|done]. exfalso. apply Ht.
    apply existsb_exists in E as (c & Hc & ->%Z.eqb_eq). by apply list_elem_of_In.
Qed.

Lemma settled_strategy key : settled key WIDGET_FETCH_STRATEGY.
Proof. split; [done|]. intros values. by vm_compute. Qed.

Lemma window_params input window :
  map_get (lit "startTime") (with_window input window) = Some (PText (utf16_units window.1)) /\
  map_get (lit "endTime") (with_window input window) = Some (PText (utf16_units window.2)) /\
  map_get (lit "strategy") (with_window input window) = Some WIDGET_FETCH_STRATEGY.
Proof.
  assert (lit "endTime" <> lit "startTime" /\ lit "endTime" <> lit "strategy" /\ lit "startTime" <> lit "strategy" /\
          lit "maxDataPoints" <> lit "strategy") as (H1 & H2 & H3 & H4) by (split_and!; by vm_compute).
  unfold with_window. revert H1 H2 H3 H4. generalize (lit "startTime") (lit "endTime") (lit "strategy") (lit "maxDataPoints").
  intros s e st m H1 H2 H3 H4. split_and!; [by rewrite map_get_set_ne, map_get_set_eq|by rewrite map_get_set_eq|].
  rewrite !map_get_set_ne by done.
  destruct (pi_maxDataPoints input); [case_bool_decide; [rewrite map_get_set_ne by done|]|]; by rewrite map_get_set_eq.
Qed.

(** C30: The request of a tile keeps its window. Whatever the stored params and
    the values of the variables hold, a strategy or a window of their own
    included, a planned request carries the window of the tile, or of the board,
    and the strategy that forbids widening, with which a query set runs over
    that window alone; a list endpoint that is not flagged spans at most a week;
    and no enabled metrics query without a metric is sent. *)
Theorem planned_tile_keeps_window input ep params window over :
  plan input = PlannedWidgetRequest ep params window over ->
  36 ∉ utf16_units window.1 -> 36 ∉ utf16_units window.2 ->
  widget_window date_parse zone input = Some window /\
  map_get (lit "startTime") params = Some (PText (utf16_units window.1)) /\
  map_get (lit "endTime") params = Some (PText (utf16_units window.2)) /\
  map_get (lit "strategy") params = Some (PObj [(lit "enableEmptyRangeFallback", PBool false)]) /\
  (forall windowSeconds maxRange base allowFallback,
     buildExecutionWindows date_parse window.1 window.2
       (fallbackStrategyFromWire (Some {| wf_enableEmptyRangeFallback := Some false;
          wf_fallbackWindowSeconds := windowSeconds; wf_maxFallbackRangeSeconds := maxRange |}) base) allowFallback =
     [requested window.1 window.2]) /\
  (ep ∈ LIST_ENDPOINTS -> over = false -> forall ms, window_ms date_parse window = Some ms -> ms <= 7 * 86400000) /\
  (forall queries query, ep ∈ QUERY_SET_ENDPOINTS -> map_get (lit "queries") params = Some (PList queries) ->
     query ∈ queries -> blank_metric_query query = false).
Proof.
  intros Hplan H1 H2. destruct (plan_cases _ _ _ _ _ Hplan) as (Hw & -> & -> & Hmetric & ->).
  destruct (window_params input window) as (Hs & He & Hst).
  split; [done|]. split; [by apply planned_get, settled_text|]. split; [by apply planned_get, settled_text|].
  split; [by apply planned_get, settled_strategy|]. split_and!.
  - intros ws mr base allow. unfold buildExecutionWindows. cbn [fallbackStrategyFromWire resolveFallbackStrategy fs_enabled].
    destruct (parseWarehouseDateTime date_parse window.1) as [s|], (parseWarehouseDateTime date_parse window.2) as [e|]; try done.
    cbn. rewrite orb_true_r. by destruct (e <=? s).
  - intros Hin Hover ms Hms. rewrite bool_decide_true, Hms in Hover by done. cbn [andb] in Hover.
    apply Z.ltb_ge in Hover. exact Hover.
  - intros queries query Hin Hq Hqq. unfold isMetricNotSelected in Hmetric. rewrite bool_decide_true, Hq in Hmetric by done.
    by apply (existsb_false blank_metric_query queries).
Qed.
End Plan.

(** A tile whose params carry a strategy of their own, on the board's window. *)
Definition tile : PlanWidgetRequestInput :=
  {| pi_endpoint := lit "list_logs";
     pi_params := [(lit "strategy", PText (lit "wide")); (lit "service", PText (lit "$svc"))];
     pi_dashboardWindow := ("2026-08-25 10:00:00", "2026-08-25 11:00:00")%string; pi_widgetTimeRange := None;
     pi_variableValues := Some [(lit "svc", chosen "api")]; pi_maxDataPoints := None; pi_nowMs := 0; pi_snap := true |}.

Lemma planned_tile_keeps_window_witness :
  exists params, planWidgetRequest id rfc3339_parse utc_parts tile =
      PlannedWidgetRequest (lit "list_logs") params ("2026-08-25 10:00:00", "2026-08-25 11:00:00")%string false /\
    map_get (lit "service") params = Some (PText (lit "api")) /\
    map_get (lit "strategy") params = Some (PObj [(lit "enableEmptyRangeFallback", PBool false)]).
Proof.
  assert (planWidgetRequest id rfc3339_parse utc_parts tile =
    PlannedWidgetRequest (lit "list_logs") (planned_params id tile (pi_dashboardWindow tile)) (pi_dashboardWindow tile) false)
    as E by by vm_compute.
  exists (planned_params id tile (pi_dashboardWindow tile)). split; [exact E|]. split; [by vm_compute|].
  refine (proj1 (proj2 (proj2 (proj2 (planned_tile_keeps_window id rfc3339_parse utc_parts tile _ _ _ _ E _ _)))));
    apply (bool_decide_unpack _); by vm_compute.
Defined.
