(* ===== verification/QueryLower.v ===== *)
(** * Lowering a query draft

    packages/query-engine/src/query-builder/model.ts: the filters of a draft,
    its group-by tokens and its limits as the specification the engine runs,
    for traces, logs, metrics and product events.

    A filter object is an association list of the fields that are set; its two
    lists of attribute filters are kept apart. Whole numbers are exact, as they
    are below 2^53. [toLowerCase] and [Number] are arguments. *)

From Stdlib Require Import Ascii String.
From stdpp Require Import prelude list.
From Stdlib Require Import ZArith Lia Floats.SpecFloat.
From S2P Require Import Prelude.
From S2P Require Import JsNum.
From S2P Require Import JsString.
From S2P Require Import IngestSha256.
From S2P Require Import IngestRegex.
From S2P Require Import JsUnits.
From S2P Require Import Formula.
From S2P Require Import QuerySeries.
From S2P Require Import QueryRunner.
From S2P Require Import WhereClause.

Open Scope Z_scope.
Local Open Scope maple_scope.

(** ** Vocabulary *)

Definition words (l : list string) : list text := List.map lit l.

(** The aggregations of a source. *)
Definition ALLOWED_AGGREGATIONS (source : text) : list text :=
  if bool_decide (source = lit "traces") then
    words ["count"; "avg_duration"; "p50_duration"; "p95_duration"; "p99_duration"; "error_rate"]%string
  else if bool_decide (source = lit "logs") then words ["count"]%string
  else if bool_decide (source = lit "product_events") then
    words ["count"; "sessions"; "persons"; "users"; "visitors"]%string
  else words ["avg"; "sum"; "min"; "max"; "count"; "rate"; "increase"]%string.

Definition TRACES_NUMERIC_AGGREGATIONS : list text := words ["avg"; "sum"; "min"; "max"; "p50"; "p95"; "p99"]%string.

Definition QUERY_BUILDER_METRIC_TYPES : list text := words ["sum"; "gauge"; "histogram"; "exponential_histogram"]%string.

Definition getMetricsAggregations (metricType : text) (isMonotonic : option bool) : list text :=
  if bool_decide (metricType = lit "sum") && negb (bool_decide (isMonotonic = Some false)) then
    words ["rate"; "increase"; "sum"]%string
  else words ["avg"; "sum"; "min"; "max"; "count"]%string.

Definition resetAggregationForMetricType (current metricType : text) (isMonotonic : bool) : text :=
  let valid := getMetricsAggregations metricType (Some isMonotonic) in
  if bool_decide (current ∈ valid) then current else default (lit "avg") (head valid).

Fixpoint span_decimal (a : text) : text * text :=
  match a with
  | c :: a' => if is_decimal c then let '(d, r) := span_decimal a' in (c :: d, r) else ([], a)
  | [] => ([], [])
  end.

(** The number decimal digits write. *)
Definition decimal_value (digits : text) : Z := fold_left (fun n c => 10 * n + (c - 48)) digits 0.

Definition SECOND_UNITS : list text := words ["s"; "sec"; "secs"; "second"; "seconds"]%string.
Definition MINUTE_UNITS : list text := words ["m"; "min"; "mins"; "minute"; "minutes"]%string.
Definition HOUR_UNITS : list text := words ["h"; "hr"; "hrs"; "hour"; "hours"]%string.
Definition DAY_UNITS : list text := words ["d"; "day"; "days"]%string.

(** [Number.parseInt(raw, 10)]; none for [NaN]. *)
Definition parse_int (raw : text) : option Z :=
  let unsigned a := match (span_decimal a).1 with [] => None | d => Some (decimal_value d) end in
  match skip_space raw with
  | c :: a => if c =? 45 then Z.opp <$> unsigned a else if c =? 43 then unsigned a else unsigned (c :: a)
  | [] => None
  end.

(** ** Filters *)

Inductive FilterMode := mode_equals | mode_exists | mode_gt | mode_gte | mode_lt | mode_lte | mode_contains.

#[export] Instance FilterMode_eq_dec : EqDecision FilterMode.
Proof. solve_decision. Defined.

Record AttributeFilterLeaf := { af_key : text; af_value : option text; af_mode : FilterMode; af_negated : bool }.

(** A filter with the other members of its group, when it has one. *)
Record AttributeFilter := { af_first : AttributeFilterLeaf; af_or : option (list AttributeFilterLeaf) }.

(** The fields of the filter objects of all sources. *)
Inductive Field :=
  | f_serviceName | f_spanName | f_deploymentEnv | f_rootSpansOnly | f_errorsOnly | f_environments | f_commitShas
  | f_minDurationMs | f_maxDurationMs | f_matchModes | f_excludedServiceNames | f_excludedSpanNames
  | f_excludedEnvironments | f_excludedCommitShas | f_groupByAttributeKeys | f_severity | f_excludedSeverities
  | f_eventNames | f_kinds | f_sources | f_hosts | f_pagePaths | f_serviceNames | f_userIds | f_groupIds
  | f_excludedEventNames | f_excludedKinds | f_excludedSources | f_excludedHosts | f_excludedPagePaths
  | f_referrerHost | f_country | f_deviceType | f_browserName | f_osName | f_language | f_utmSource | f_utmMedium
  | f_utmCampaign | f_visitorType | f_groupByAttributeKey | f_metricName | f_metricType | f_groupByResourceAttributeKey
  | f_attributeFilters | f_resourceAttributeFilters | f_numericAggregation.

#[export] Instance Field_eq_dec : EqDecision Field.
Proof. solve_decision. Defined.

Inductive FieldValue :=
  | VText (t : text)
  | VTexts (l : list text)
  | VBool (b : bool)
  | VNum (x : num)
  | VModes (contains : list Field)                  (* the fields matched by containment *)
  | VAttrs (l : list AttributeFilter)
  | VNumeric (key fn : text).

Record Accumulator := {
  fields : jsmap Field FieldValue;
  attributeFilters : list AttributeFilter;
  resourceAttributeFilters : list AttributeFilter;
}.

Definition nothing : Accumulator := {| fields := []; attributeFilters := []; resourceAttributeFilters := [] |}.

(** [{ ...filters, [field]: value }] *)
Definition set_field (f : Field) (v : FieldValue) (acc : Accumulator) : Accumulator :=
  {| fields := map_set f v (fields acc); attributeFilters := attributeFilters acc;
     resourceAttributeFilters := resourceAttributeFilters acc |}.

Definition unset_field (f : Field) (acc : Accumulator) : Accumulator :=
  {| fields := map_delete f (fields acc); attributeFilters := attributeFilters acc;
     resourceAttributeFilters := resourceAttributeFilters acc |}.

Definition text_field (f : Field) (acc : Accumulator) : option text :=
  match map_get f (fields acc) with Some (VText t) => Some t | _ => None end.

Definition texts_field (f : Field) (acc : Accumulator) : list text :=
  match map_get f (fields acc) with Some (VTexts l) => l | _ => [] end.

(** The members of a set of filters: span attributes, or resource attributes. *)
Definition attr_list (resource : bool) (acc : Accumulator) : list AttributeFilter :=
  if resource then resourceAttributeFilters acc else attributeFilters acc.

Definition push_attr (resource : bool) (f : AttributeFilter) (acc : Accumulator) : Accumulator :=
  if resource then
    {| fields := fields acc; attributeFilters := attributeFilters acc;
       resourceAttributeFilters := resourceAttributeFilters acc ++ [f] |}
  else
    {| fields := fields acc; attributeFilters := attributeFilters acc ++ [f];
       resourceAttributeFilters := resourceAttributeFilters acc |}.

(** ** Clauses *)

Definition op_text (op : Operator) : text :=
  lit match op with
      | op_eq => "=" | op_ne => "!=" | op_gt => ">" | op_lt => "<" | op_ge => ">=" | op_le => "<="
      | op_contains => "contains" | op_not_contains => "!contains" | op_exists => "exists" | op_not_exists => "!exists"
      end.

Definition typedKey (clause : ParsedClause) (prefixLength : nat) : text := drop prefixLength (trim_text (pc_rawKey clause)).

Definition operatorToAttrFilter (op : Operator) : FilterMode * bool :=
  match op with
  | op_exists => (mode_exists, false) | op_not_exists => (mode_exists, true)
  | op_gt => (mode_gt, false) | op_ge => (mode_gte, false)
  | op_lt => (mode_lt, false) | op_le => (mode_lte, false)
  | op_contains => (mode_contains, false) | op_not_contains => (mode_contains, true)
  | op_ne => (mode_equals, true) | op_eq => (mode_equals, false)
  end.

Definition makeAttrFilter (attributeKey : text) (op : Operator) (value : text) : AttributeFilter :=
  let '(mode, negated) := operatorToAttrFilter op in
  {| af_first := {| af_key := attributeKey; af_mode := mode; af_negated := negated;
                    af_value := if bool_decide (mode = mode_exists) then None else Some value |};
     af_or := None |}.

(** A handler's answer: the filters after a clause, and the warnings it adds. *)
Definition Handled : Type := Accumulator * list text.

Definition warn (acc : Accumulator) (w : text) : Handled := (acc, [w]).

Definition warn_only (acc : Accumulator) (source : text) (clause : ParsedClause) (supported : text) : Handled :=
  warn acc (source ++ lit " filter " ++ pc_key clause ++ lit " supports only " ++ supported ++ lit "; ignoring " ++
              op_text (pc_operator clause)).

(** Another attribute filter, up to five of a kind. *)
Definition add_attr (resource : bool) (key ignored : text) (clause : ParsedClause) (acc : Accumulator) : Handled :=
  let prefix := lit (if resource then "resource" else "attr") in
  if (5 <=? length (attr_list resource acc))%nat then
    warn acc (lit "Maximum of 5 " ++ prefix ++ lit ".* filters supported; ignoring " ++ ignored)
  else (push_attr resource (makeAttrFilter key (pc_operator clause) (pc_value clause)) acc, []).

(** A clause on a prefixed key. *)
Definition prefixed_attr (resource : bool) (clause : ParsedClause) (acc : Accumulator) : Handled :=
  let prefix := lit (if resource then "resource." else "attr.") in
  let key := typedKey clause (length prefix) in
  add_attr resource key (prefix ++ key) clause acc.

Inductive DimensionPredicate := Include (values : list text) (contains : bool) | Exclude (values : list text).

Definition dimensionPredicate (clause : ParsedClause) (csv contains : bool) : option DimensionPredicate :=
  let values := if csv then splitCsv (pc_value clause) else [pc_value clause] in
  match pc_operator clause with
  | op_eq => Some (Include values false)
  | op_ne => Some (Exclude values)
  | op_contains => if contains then Some (Include [pc_value clause] true) else None
  | _ => None
  end.

Definition dimension_operators (contains : bool) : text := lit (if contains then "=, != and contains" else "= and !=").

Definition modes (acc : Accumulator) : list Field :=
  match map_get f_matchModes (fields acc) with Some (VModes l) => l | _ => [] end.

(** [matchModes] with the mode of one field replaced; no field without modes. *)
Definition withMatchMode (field : Field) (contains : bool) (acc : Accumulator) : Accumulator :=
  let rest := List.filter (fun g => negb (bool_decide (g = field))) (modes acc) in
  match rest ++ (if contains then [field] else []) with
  | [] => unset_field f_matchModes acc
  | next => set_field f_matchModes (VModes next) acc
  end.

Definition first_text (values : list text) : FieldValue := VText (default [] (head values)).

Section Lower.
Context (toLowerCase : text -> text) (Number : text -> num).

(** A column-backed dimension of traces: its field, its list of exclusions and
    the field of its match mode. *)
Definition applyTracesDimension (csv contains : bool) (field excluded : Field) (matchMode : option Field)
    (clause : ParsedClause) (acc : Accumulator) : Handled :=
  match dimensionPredicate clause csv contains with
  | None => warn_only acc (lit "Traces") clause (dimension_operators contains)
  | Some (Exclude values) => (set_field excluded (VTexts (texts_field excluded acc ++ values)) acc, [])
  | Some (Include values isContains) =>
      let acc' := set_field field (if csv then VTexts values else first_text values) acc in
      (match matchMode with Some m => withMatchMode m isContains acc' | None => acc' end, [])
  end.

(** A scalar field, which takes [=] only. *)
Definition requireEquals (source : text) (clause : ParsedClause) (acc : Accumulator) (k : Handled) : Handled :=
  if bool_decide (pc_operator clause = op_eq) then k else warn_only acc source clause (lit "=").

Definition invalid_value (acc : Accumulator) (name : text) (clause : ParsedClause) : Handled :=
  warn acc (lit "Invalid " ++ name ++ lit " value ignored: " ++ pc_value clause).

Definition flag_field (field : Field) (name : text) (clause : ParsedClause) (acc : Accumulator) : Handled :=
  requireEquals (lit "Traces") clause acc
    match parseBoolean toLowerCase (pc_value clause) with
    | Some b => (set_field field (VBool b) acc, [])
    | None => invalid_value acc name clause
    end.

Definition number_field (field : Field) (name : text) (clause : ParsedClause) (acc : Accumulator) : Handled :=
  requireEquals (lit "Traces") clause acc
    match parseNumber Number (pc_value clause) with
    | Some x => (set_field field (VNum x) acc, [])
    | None => invalid_value acc name clause
    end.

Definition applyTracesClause (clause : ParsedClause) (acc : Accumulator) : Handled :=
  let key := normalizeKey toLowerCase (pc_key clause) in
  if starts_with key (lit "attr.") then prefixed_attr false clause acc
  else if starts_with key (lit "resource.") then prefixed_attr true clause acc
  else if bool_decide (key = lit "service.name") then
    applyTracesDimension false true f_serviceName f_excludedServiceNames (Some f_serviceName) clause acc
  else if bool_decide (key = lit "span.name") then
    applyTracesDimension false true f_spanName f_excludedSpanNames (Some f_spanName) clause acc
  else if bool_decide (key = lit "deployment.environment") then
    applyTracesDimension true true f_environments f_excludedEnvironments (Some f_deploymentEnv) clause acc
  else if bool_decide (key = lit "vcs.ref.head.revision") then
    applyTracesDimension true false f_commitShas f_excludedCommitShas None clause acc
  else if bool_decide (key = lit "root_only") then flag_field f_rootSpansOnly key clause acc
  else if bool_decide (key = lit "has_error") then flag_field f_errorsOnly key clause acc
  else if bool_decide (key = lit "min_duration_ms") then number_field f_minDurationMs key clause acc
  else if bool_decide (key = lit "max_duration_ms") then number_field f_maxDurationMs key clause acc
  else add_attr false (typedKey clause 0) (pc_key clause) clause acc.

(** A dimension of logs. *)
Definition logs_dimension (field excluded : Field) (clause : ParsedClause) (acc : Accumulator) : Handled :=
  match dimensionPredicate clause false false with
  | None => warn_only acc (lit "Logs") clause (dimension_operators false)
  | Some (Include values _) => (set_field field (first_text values) acc, [])
  | Some (Exclude values) => (set_field excluded (VTexts (texts_field excluded acc ++ values)) acc, [])
  end.

Definition applyLogsClause (clause : ParsedClause) (acc : Accumulator) : Handled :=
  let key := normalizeKey toLowerCase (pc_key clause) in
  if starts_with key (lit "attr.") then prefixed_attr false clause acc
  else if starts_with key (lit "resource.") then prefixed_attr true clause acc
  else if bool_decide (key = lit "service.name") then logs_dimension f_serviceName f_excludedServiceNames clause acc
  else if bool_decide (key = lit "severity") then logs_dimension f_severity f_excludedSeverities clause acc
  else warn acc (lit "Unsupported logs filter ignored: " ++ pc_key clause).

(** ** Metrics and product events *)

(** The equality checks of the metrics keys come before their handlers. *)
Definition applyMetricsClause (clause : ParsedClause) (acc : Accumulator) : Handled :=
  let key := normalizeKey toLowerCase (pc_key clause) in
  if starts_with key (lit "attr.") then prefixed_attr false clause acc
  else if starts_with key (lit "resource.") then prefixed_attr true clause acc
  else if bool_decide (key = lit "service.name") then
    requireEquals (lit "Metrics") clause acc (set_field f_serviceName (VText (pc_value clause)) acc, [])
  else if bool_decide (key = lit "deployment.environment") then
    requireEquals (lit "Metrics") clause acc (set_field f_environments (VTexts (splitCsv (pc_value clause))) acc, [])
  else if bool_decide (key = lit "metric.type") then
    requireEquals (lit "Metrics") clause acc
      (if bool_decide (pc_value clause ∈ QUERY_BUILDER_METRIC_TYPES) then
         (set_field f_metricType (VText (pc_value clause)) acc, [])
       else warn acc (lit "Invalid metric.type ignored: " ++ pc_value clause))
  else warn acc (lit "Unsupported metrics filter ignored: " ++ pc_key clause).

(** The entry of a key in a table of names. *)
Definition table {A} (key : text) (l : list (string * A)) : option A :=
  snd <$> List.find (fun e => bool_decide (lit e.1 = key)) l.

Definition PRODUCT_EVENT_LIST_FIELDS : list (string * (Field * Field)) :=
  [("event.name", (f_eventNames, f_excludedEventNames)); ("event", (f_eventNames, f_excludedEventNames));
   ("event_name", (f_eventNames, f_excludedEventNames)); ("event.kind", (f_kinds, f_excludedKinds));
   ("kind", (f_kinds, f_excludedKinds)); ("source", (f_sources, f_excludedSources));
   ("host", (f_hosts, f_excludedHosts)); ("page.path", (f_pagePaths, f_excludedPagePaths));
   ("page_path", (f_pagePaths, f_excludedPagePaths)); ("path", (f_pagePaths, f_excludedPagePaths));
   ("service.name", (f_serviceNames, f_excludedServiceNames)); ("service", (f_serviceNames, f_excludedServiceNames));
   ("user.id", (f_userIds, f_userIds)); ("group.id", (f_groupIds, f_groupIds))]%string.

Definition PRODUCT_EVENT_SESSION_FIELDS : list (string * Field) :=
  [("referrer.host", f_referrerHost); ("referrer_host", f_referrerHost); ("referrer", f_referrerHost);
   ("country", f_country); ("device.type", f_deviceType); ("device_type", f_deviceType); ("device", f_deviceType);
   ("browser", f_browserName); ("browser.name", f_browserName); ("os", f_osName); ("os.name", f_osName);
   ("language", f_language); ("utm.source", f_utmSource); ("utm_source", f_utmSource); ("utm.medium", f_utmMedium);
   ("utm_medium", f_utmMedium); ("utm.campaign", f_utmCampaign); ("utm_campaign", f_utmCampaign)]%string.

Definition PRODUCT : text := lit "Product events".

(** A property of an event. *)
Definition event_property (key : text) (clause : ParsedClause) (acc : Accumulator) : Handled :=
  match key with
  | [] => warn acc (lit "Invalid attr.* filter ignored: " ++ pc_key clause)
  | _ => add_attr false key (pc_key clause) clause acc
  end.

Definition applyProductEventsClause (clause : ParsedClause) (acc : Accumulator) : Handled :=
  let key := normalizeKey toLowerCase (pc_key clause) in
  if starts_with key (lit "attr.") then event_property (typedKey clause 5) clause acc
  else
    match table key PRODUCT_EVENT_LIST_FIELDS with
    | Some (positive, negative) =>
        match pc_operator clause with
        | op_eq => (set_field positive (VTexts (splitCsv (pc_value clause))) acc, [])
        | op_ne =>
            if bool_decide (positive = negative) then warn_only acc PRODUCT clause (lit "=")
            else (set_field negative (VTexts (splitCsv (pc_value clause))) acc, [])
        | _ => warn_only acc PRODUCT clause (lit "= and !=")
        end
    | None =>
        match table key PRODUCT_EVENT_SESSION_FIELDS with
        | Some field => requireEquals PRODUCT clause acc (set_field field (VText (pc_value clause)) acc, [])
        | None =>
            if bool_decide (key ∈ words ["visitor.type"; "visitor_type"]%string) then
              requireEquals PRODUCT clause acc
                (if bool_decide (pc_value clause ∈ words ["new"; "returning"]%string) then
                   (set_field f_visitorType (VText (pc_value clause)) acc, [])
                 else warn acc (lit "Invalid visitor.type value ignored: " ++ pc_value clause))
            else event_property (typedKey clause 0) clause acc
        end
    end.

(** ** Groups *)

Definition group_label (group : list ParsedClause) : text :=
  lit "(" ++ join_text (lit " OR ")
    (List.map (fun c => trim_text (typedKey c 0 ++ lit " " ++ op_text (pc_operator c) ++ lit " " ++ pc_value c)) group) ++
  lit ")".

(** [value !== emptyFields.get(field)]: texts compare by value, other values are
    never the ones of the empty filters. *)
Definition sets_other_field (empty next : Accumulator) : bool :=
  existsb (fun e => match e.2, text_field e.1 empty with
                    | VText a, Some b => negb (bool_decide (a = b))
                    | _, _ => true
                    end) (fields next).

(** The one attribute filter a member sets, and in which list. *)
Definition group_member (apply : ParsedClause -> Accumulator -> Handled) (empty : Accumulator) (clause : ParsedClause) :
    option (bool * AttributeFilter) :=
  let '(next, memberWarnings) := apply clause empty in
  match memberWarnings, sets_other_field empty next, attributeFilters next, resourceAttributeFilters next with
  | [], false, [f], [] => Some (false, f)
  | [], false, [], [f] => Some (true, f)
  | _, _, _, _ => None
  end.

Definition applyOrGroup (apply : ParsedClause -> Accumulator -> Handled) (empty : Accumulator) (source : text)
    (group : list ParsedClause) (acc : Accumulator) : Handled :=
  let label := group_label group in
  match mapM (group_member apply empty) group with
  | None => warn acc (source ++ lit " OR group ignored: only attribute filters can be OR-ed: " ++ label)
  | Some [] => (acc, [])
  | Some ((resource, first) :: rest) =>
      if existsb (fun m => negb (eqb m.1 resource)) rest then
        warn acc (source ++ lit " OR group ignored: its members mix span and resource attributes: " ++ label)
      else if (5 <=? length (attr_list resource acc))%nat then
        warn acc (lit "Maximum of 5 filters per attribute map; ignoring " ++ label)
      else
        (push_attr resource {| af_first := af_first first; af_or := Some (List.map (fun m => af_first m.2) rest) |} acc, [])
  end.

(** Handlers one after the other. *)
Definition run_handlers {A} (handle : A -> Accumulator -> Handled) (l : list A) (start : Handled) : Handled :=
  fold_left (fun s x => let '(acc, ws) := handle x s.1 in (acc, s.2 ++ ws)) l start.

(** ** Group by *)

Record GroupByPrefix := { gp_prefix : text; gp_token : text; gp_resource : bool }.

Definition ATTRIBUTE_PREFIX : GroupByPrefix :=
  {| gp_prefix := lit "attr."; gp_token := lit "attribute"; gp_resource := false |}.
Definition RESOURCE_PREFIX : GroupByPrefix :=
  {| gp_prefix := lit "resource."; gp_token := lit "resource_attribute"; gp_resource := true |}.
Definition ALL_GROUP_BY_PREFIXES : list GroupByPrefix := [ATTRIBUTE_PREFIX; RESOURCE_PREFIX].

Definition GROUP_BY_ALIASES (source : text) : list (string * string) * list GroupByPrefix :=
  if bool_decide (source = lit "traces") then
    ([("service", "service"); ("service.name", "service"); ("service_name", "service"); ("span", "span_name");
      ("span.name", "span_name"); ("span_name", "span_name"); ("status", "status_code"); ("status.code", "status_code");
      ("status_code", "status_code"); ("http.method", "http_method"); ("none", "none"); ("all", "none")]%string,
     [ATTRIBUTE_PREFIX])
  else if bool_decide (source = lit "logs") then
    ([("service", "service"); ("service.name", "service"); ("service_name", "service"); ("severity", "severity");
      ("severity_text", "severity"); ("none", "none"); ("all", "none")]%string, [])
  else if bool_decide (source = lit "metrics") then
    ([("service", "service"); ("service.name", "service"); ("none", "none"); ("all", "none")]%string,
     [ATTRIBUTE_PREFIX; RESOURCE_PREFIX])
  else
    ([("event", "event_name"); ("event.name", "event_name"); ("event_name", "event_name"); ("kind", "kind");
      ("event.kind", "kind"); ("source", "source"); ("host", "host"); ("page", "page_path"); ("page.path", "page_path");
      ("page_path", "page_path"); ("service", "service"); ("service.name", "service"); ("service_name", "service");
      ("group", "group"); ("group.id", "group"); ("none", "none"); ("all", "none")]%string, [ATTRIBUTE_PREFIX]).

Inductive GroupByTokenResolution :=
  | Empty
  | Literal (token : text)
  | Prefixed (token : text) (resource : bool) (key : text)
  | Rejected (warning : text).

Definition resolveGroupByToken (source raw : text) : GroupByTokenResolution :=
  let '(aliases, prefixes) := GROUP_BY_ALIASES source in
  match toLowerCase (trim_text raw) with
  | [] => Empty
  | token =>
      match List.find (fun p => starts_with token (gp_prefix p)) ALL_GROUP_BY_PREFIXES with
      | Some known =>
          match drop (length (gp_prefix known)) (trim_text raw) with
          | [] => Rejected (lit "Invalid " ++ gp_prefix known ++ lit "* group by ignored")
          | key =>
              match List.find (fun p => bool_decide (gp_prefix p = gp_prefix known)) prefixes with
              | None =>
                  Rejected (source ++ lit " source does not support " ++ gp_prefix known ++ lit "* group by: " ++ raw)
              | Some supported => Prefixed (gp_token supported) (gp_resource supported) key
              end
          end
      | None =>
          match table token aliases with
          | Some resolved => Literal (lit resolved)
          | None => Rejected (lit "Unsupported " ++ source ++ lit " group by ignored: " ++ raw)
          end
      end
  end.

(** [resolveGroupBy]: tokens, span keys, resource keys, warnings. *)
Record ResolvedGroupBy := {
  rg_tokens : list text;
  rg_attributeKeys : list text;
  rg_resourceAttributeKeys : list text;
  rg_warnings : list text;
}.

Definition resolve_group_step (source : text) (r : ResolvedGroupBy) (raw : text) : ResolvedGroupBy :=
  match resolveGroupByToken source raw with
  | Empty => r
  | Rejected w =>
      {| rg_tokens := rg_tokens r; rg_attributeKeys := rg_attributeKeys r;
         rg_resourceAttributeKeys := rg_resourceAttributeKeys r; rg_warnings := rg_warnings r ++ [w] |}
  | Literal token =>
      {| rg_tokens := set_add token (rg_tokens r); rg_attributeKeys := rg_attributeKeys r;
         rg_resourceAttributeKeys := rg_resourceAttributeKeys r; rg_warnings := rg_warnings r |}
  | Prefixed token resource key =>
      {| rg_tokens := set_add token (rg_tokens r);
         rg_attributeKeys := if resource then rg_attributeKeys r else set_add key (rg_attributeKeys r);
         rg_resourceAttributeKeys :=
           if resource then set_add key (rg_resourceAttributeKeys r) else rg_resourceAttributeKeys r;
         rg_warnings := rg_warnings r |}
  end.

Definition resolveGroupBy (source : text) (rawTokens : list text) : ResolvedGroupBy :=
  fold_left (resolve_group_step source) rawTokens
    {| rg_tokens := []; rg_attributeKeys := []; rg_resourceAttributeKeys := []; rg_warnings := [] |}.

(** A group-by token of a draft: the token it gives, the filters with its key,
    and its warnings. *)
Definition Grouped : Type := list text * Accumulator * list text.

Definition group_token (keep : bool -> text -> Accumulator -> result text Accumulator) (source raw : text)
    (s : Grouped) : Grouped :=
  let '(tokens, acc, ws) := s in
  match resolveGroupByToken source raw with
  | Empty => s
  | Rejected w => (tokens, acc, ws ++ [w])
  | Literal token => (tokens ++ [token], acc, ws)
  | Prefixed token resource key =>
      match keep resource key acc with
      | Ok acc' => (tokens ++ [token], acc', ws)
      | Err w => (tokens, acc, ws ++ [w])
      end
  end.

(** Traces keep every key. *)
Definition keep_all_keys (resource : bool) (key : text) (acc : Accumulator) : result text Accumulator :=
  Ok (set_field f_groupByAttributeKeys (VTexts (texts_field f_groupByAttributeKeys acc ++ [key])) acc).

(** Metrics and product events keep one key of a kind. *)
Definition keep_one_key (source : text) (resource : bool) (key : text) (acc : Accumulator) : result text Accumulator :=
  let field := if resource then f_groupByResourceAttributeKey else f_groupByAttributeKey in
  let prefix := lit (if resource then "resource." else "attr.") in
  match text_field field acc with
  | Some k =>
      if bool_decide (k = key) then Ok (set_field field (VText key) acc)
      else Err (source ++ lit " queries support a single " ++ prefix ++ lit "* group by; ignoring " ++ prefix ++ key)
  | None => Ok (set_field field (VText key) acc)
  end.

Definition resolve_group_by (keep : bool -> text -> Accumulator -> result text Accumulator) (source : text)
    (query : QueryDraft) (s : Handled) : Grouped :=
  let start := ([], s.1, s.2) in
  if match qd_addOns query with Some a => ao_groupBy a | None => false end then
    fold_left (fun s raw => group_token keep source raw s) (default [] (qd_groupBy query)) start
  else start.
End Lower.
