(* ===== verification/QueryBuild.v ===== *)
(** * Building query specifications

    packages/query-engine/src/query-builder/model.ts, second half: a draft as a
    timeseries, breakdown or list specification, and the filters of a
    specification as a where clause. *)

From Stdlib Require Import Ascii String.
From stdpp Require Import prelude list.
From Stdlib Require Import ZArith Lia Floats.SpecFloat.
From S2P Require Import Prelude.
From S2P Require Import JsNum.
From S2P Require Import JsString.
From S2P Require Import IngestSha256.
From S2P Require Import IngestRegex.
From S2P Require Import JsUnits.
From S2P Require Import Formula.
From S2P Require Import QuerySeries.
From S2P Require Import QueryRunner.
From S2P Require Import WhereClause.
From S2P Require Import QueryLower.

Open Scope Z_scope.
Local Open Scope maple_scope.

(** ** Specifications *)

Abbreviation SpecFilters := (jsmap Field FieldValue).

Inductive spec_kind := spec_timeseries | spec_breakdown | spec_list.

(** A specification without its bucket width. *)
Record SpecBody := {
  sb_kind : spec_kind;
  sb_source : text;
  sb_metric : option text;
  sb_groupBy : option (list text);
  sb_filters : option SpecFilters;
  sb_seriesLimit : option Z;
  sb_limit : option Z;
  sb_columns : option (list text);
}.

(** [if (values?.length) filters[field] = values], and the like. *)
Definition present (v : FieldValue) : bool :=
  match v with
  | VText t => not_empty t
  | VTexts l => negb (bool_decide (l = []))
  | VModes l => negb (bool_decide (l = []))
  | VAttrs l => match l with [] => false | _ => true end
  | VBool _ | VNum _ | VNumeric _ _ => true
  end.

(** The fields of a traces specification in the order they are written. *)
Definition TRACES_SPEC_FIELDS : list Field :=
  [f_serviceName; f_spanName; f_rootSpansOnly; f_errorsOnly; f_environments; f_commitShas; f_minDurationMs;
   f_maxDurationMs; f_matchModes; f_excludedServiceNames; f_excludedSpanNames; f_excludedEnvironments;
   f_excludedCommitShas; f_groupByAttributeKeys].

(** [rootSpansOnly] is kept only when it is true. *)
Definition traces_field (acc : Accumulator) (f : Field) : option (Field * FieldValue) :=
  v ← map_get f (fields acc);
  if present v && negb (bool_decide (f = f_rootSpansOnly) && match v with VBool false => true | _ => false end) then
    Some (f, v)
  else None.

Definition attr_fields (acc : Accumulator) : SpecFilters :=
  List.filter (fun e => present e.2)
    [(f_attributeFilters, VAttrs (attributeFilters acc)); (f_resourceAttributeFilters, VAttrs (resourceAttributeFilters acc))].

Definition or_undefined (filters : SpecFilters) : option SpecFilters := match filters with [] => None | _ => Some filters end.

Definition buildTracesSpecFilters (acc : Accumulator) : option SpecFilters :=
  or_undefined (omap (traces_field acc) TRACES_SPEC_FIELDS ++ attr_fields acc).

(** Logs and product events leave out empty lists only. *)
Definition kept_entry (e : Field * FieldValue) : bool := match e.2 with VTexts [] => false | _ => true end.

Definition buildLogsSpecFilters (acc : Accumulator) : option SpecFilters :=
  or_undefined (List.filter kept_entry (fields acc) ++ attr_fields acc).

Definition buildProductEventsSpecFilters (acc : Accumulator) : option SpecFilters :=
  or_undefined (List.filter kept_entry (fields acc) ++ attr_fields acc).

Definition UNIT_SECONDS (unit : text) : option Z :=
  if bool_decide (unit = []) || bool_decide (unit ∈ SECOND_UNITS) then Some 1
  else if bool_decide (unit ∈ MINUTE_UNITS) then Some 60
  else if bool_decide (unit ∈ HOUR_UNITS) then Some 3600
  else if bool_decide (unit ∈ DAY_UNITS) then Some 86400
  else None.

(** [attr.] in any case. *)
Definition strip_attr_prefix (a : text) : text := default a (strip_word (lit "ATTR.") a).

Section Build.
Context (toLowerCase : text -> text) (Number : text -> num) (String_ : num -> text).

Definition parseBucketSeconds (raw : text) : option Z :=
  let '(digits, rest) := span_decimal (toLowerCase (trim_text raw)) in
  match digits with
  | [] => None
  | _ =>
      seconds ← UNIT_SECONDS (skip_space rest);
      if decimal_value digits <=? 0 then None else Some (decimal_value digits * seconds)
  end.

Definition failed (warnings : list text) (error : text) : BuildSpecResult SpecBody :=
  {| bs_query := None; bs_warnings := warnings; bs_error := Some error |}.

(** A timeseries specification. *)
Definition timeseries_spec (source : text) (metric : text) (groupBy : list text) (filters : option SpecFilters)
    (bucketSeconds seriesLimit : option Z) (warnings : list text) : BuildSpecResult SpecBody :=
  {| bs_query := Some (SpecTimeseries bucketSeconds
       {| sb_kind := spec_timeseries; sb_source := source; sb_metric := Some metric;
          sb_groupBy := match groupBy with [] => None | _ => Some (dedupe groupBy) end; sb_filters := filters;
          sb_seriesLimit := seriesLimit; sb_limit := None; sb_columns := None |});
     bs_warnings := warnings; bs_error := None |}.

(** The clauses, then the groups, of a source. *)
Definition lower_where (apply : ParsedClause -> Accumulator -> Handled) (empty : Accumulator) (source : text)
    (where_ : ParseWhereClauseResult) (warnings : list text) : Handled :=
  run_handlers (applyOrGroup apply empty source) (groups where_) (run_handlers apply (clauses where_) (empty, warnings)).

Definition build_traces (query : QueryDraft) (where_ : ParseWhereClauseResult) (bucketSeconds seriesLimit : option Z)
    (warnings : list text) : BuildSpecResult SpecBody :=
  let numericValueField := trim_text (default [] (qd_valueField query)) in
  let isNumeric := not_empty numericValueField in
  let numericAttributeKey := if isNumeric then trim_text (strip_attr_prefix numericValueField) else [] in
  let aggregation := qd_aggregation query in
  if isNumeric && negb (bool_decide (aggregation ∈ TRACES_NUMERIC_AGGREGATIONS)) then
    failed warnings (lit "Numeric-attribute aggregation requires one of " ++
      join_text (lit "/") TRACES_NUMERIC_AGGREGATIONS ++ lit " (got: " ++ aggregation ++ lit ")")
  else if negb isNumeric && negb (bool_decide (aggregation ∈ ALLOWED_AGGREGATIONS (lit "traces"))) then
    failed warnings (lit "Unsupported traces metric: " ++ aggregation ++ lit ". Valid: " ++
      join_text (lit ", ") (ALLOWED_AGGREGATIONS (lit "traces")) ++
      if bool_decide (aggregation ∈ TRACES_NUMERIC_AGGREGATIONS) then
        lit " " ++ [0x2014] ++ lit " `" ++ aggregation ++
          lit "` is a numeric-attribute aggregation and requires `valueField`"
      else [])
  else if isNumeric && negb (not_empty numericAttributeKey) then
    failed warnings (lit "valueField must reference a span attribute, e.g. attr.result.rowCount")
  else
    let lowered := lower_where (applyTracesClause toLowerCase Number) nothing (lit "Traces") where_ warnings in
    let '(groupByKeys, acc, warnings') := resolve_group_by toLowerCase keep_all_keys (lit "traces") query lowered in
    if bool_decide (lit "attribute" ∈ groupByKeys) && bool_decide (texts_field f_groupByAttributeKeys acc = []) then
      failed warnings' (lit "groupBy=attribute requires attr.<key> in Group By or Where clause")
    else
      let specFilters := buildTracesSpecFilters acc in
      timeseries_spec (lit "traces") (if isNumeric then lit "count" else aggregation) groupByKeys
        (if isNumeric then
           Some (default [] specFilters ++ [(f_numericAggregation, VNumeric numericAttributeKey aggregation)])
         else specFilters)
        bucketSeconds seriesLimit warnings'.

Definition build_logs (query : QueryDraft) (where_ : ParseWhereClauseResult) (bucketSeconds seriesLimit : option Z)
    (warnings : list text) : BuildSpecResult SpecBody :=
  let aggregation := qd_aggregation query in
  if negb (bool_decide (aggregation ∈ ALLOWED_AGGREGATIONS (lit "logs"))) then
    failed warnings (lit "Logs source currently supports only " ++
      join_text (lit "/") (ALLOWED_AGGREGATIONS (lit "logs")) ++ lit " metric (got: " ++ aggregation ++ lit ")")
  else
    let lowered := lower_where (applyLogsClause toLowerCase) nothing (lit "Logs") where_ warnings in
    let '(groupByKeys, acc, warnings') :=
      resolve_group_by toLowerCase (fun _ _ acc => Ok acc) (lit "logs") query lowered in
    timeseries_spec (lit "logs") (lit "count") groupByKeys (buildLogsSpecFilters acc) bucketSeconds seriesLimit warnings'.

Definition build_product_events (query : QueryDraft) (where_ : ParseWhereClauseResult)
    (bucketSeconds seriesLimit : option Z) (warnings : list text) : BuildSpecResult SpecBody :=
  let aggregation := qd_aggregation query in
  if negb (bool_decide (aggregation ∈ ALLOWED_AGGREGATIONS (lit "product_events"))) then
    failed warnings (lit "Unsupported product events aggregation: " ++ aggregation ++ lit ". Valid: " ++
      join_text (lit ", ") (ALLOWED_AGGREGATIONS (lit "product_events")))
  else
    let lowered := run_handlers (applyProductEventsClause toLowerCase) (clauses where_) (nothing, warnings) in
    let '(groupByKeys, acc, warnings') :=
      resolve_group_by toLowerCase (keep_one_key PRODUCT) (lit "product_events") query lowered in
    timeseries_spec (lit "product_events") aggregation groupByKeys (buildProductEventsSpecFilters acc) bucketSeconds
      seriesLimit warnings'.

(** The attribute group column metrics keep when a draft asks for both kinds:
    the one that comes first. *)
Definition single_attribute_group (s : Grouped) : Grouped :=
  let '(tokens, acc, warnings) := s in
  let attr := lit "attribute" in
  let resource := lit "resource_attribute" in
  if bool_decide (attr ∈ tokens) && bool_decide (resource ∈ tokens) then
    let dropResource := bool_decide (List.find (fun t => bool_decide (t ∈ [attr; resource])) tokens = Some attr) in
    let field := if dropResource then f_groupByResourceAttributeKey else f_groupByAttributeKey in
    (List.filter (fun t => negb (bool_decide (t = if dropResource then resource else attr))) tokens, unset_field field acc,
     warnings ++ [lit "Metrics queries support a single attribute group by; ignoring " ++
                  lit (if dropResource then "resource." else "attr.") ++ default (lit "undefined") (text_field field acc)])
  else s.

Definition empty_metrics (query : QueryDraft) (metricName : text) : Accumulator :=
  {| fields := [(f_metricName, VText metricName); (f_metricType, VText (default (lit "gauge") (qd_metricType query)))];
     attributeFilters := []; resourceAttributeFilters := [] |}.

Definition build_metrics (query : QueryDraft) (where_ : ParseWhereClauseResult) (bucketSeconds : option Z)
    (warnings : list text) : BuildSpecResult SpecBody :=
  let aggregation := qd_aggregation query in
  if negb (bool_decide (aggregation ∈ ALLOWED_AGGREGATIONS (lit "metrics"))) then
    failed warnings (lit "Unsupported metrics aggregation: " ++ aggregation ++ lit ". Valid: " ++
      join_text (lit ", ") (ALLOWED_AGGREGATIONS (lit "metrics")))
  else
    match truthy (qd_metricName query) with
    | None => failed warnings (lit "Metric source requires a metric name")
    | Some metricName =>
        let lowered :=
          lower_where (applyMetricsClause toLowerCase) (empty_metrics query metricName) (lit "Metrics") where_ warnings in
        let '(groupByKeys, acc, warnings') :=
          single_attribute_group (resolve_group_by toLowerCase (keep_one_key (lit "Metrics")) (lit "metrics") query lowered) in
        timeseries_spec (lit "metrics") aggregation groupByKeys (Some (fields acc ++ attr_fields acc)) bucketSeconds None
          warnings'
    end.

(** Whether a source lowers OR groups. *)
Definition lowers_groups (source : text) : bool :=
  bool_decide (source ∈ words ["traces"; "logs"; "metrics"]%string).

Definition buildTimeseriesQuerySpec (query : QueryDraft) : BuildSpecResult SpecBody :=
  let source := qd_dataSource query in
  let where_ := parseWhereClause (default [] (qd_whereClause query)) (lowers_groups source) in
  let stepInterval := default [] (qd_stepInterval query) in
  let bucketSeconds := parseBucketSeconds stepInterval in
  let seriesLimitRaw := trim_text (default [] (qd_seriesLimit query)) in
  let seriesLimit := n ← parse_int seriesLimitRaw; if 0 <? n then Some n else None in
  let warnings :=
    List.map pw_message (warnings where_) ++
    (if not_empty (trim_text stepInterval) && bool_decide (bucketSeconds = None) then
       [lit "Invalid step interval ignored; auto interval will be used"] else []) ++
    (if not_empty seriesLimitRaw && bool_decide (seriesLimit = None) then
       [lit "Invalid series limit ignored; all series will be fetched"] else []) in
  if bool_decide (source = lit "traces") then build_traces query where_ bucketSeconds seriesLimit warnings
  else if bool_decide (source = lit "logs") then build_logs query where_ bucketSeconds seriesLimit warnings
  else if bool_decide (source = lit "product_events") then
    build_product_events query where_ bucketSeconds seriesLimit warnings
  else build_metrics query where_ bucketSeconds warnings.

Definition spec_body (spec : QuerySpec SpecBody) : SpecBody :=
  match spec with SpecTimeseries _ body => body | SpecOther body => body end.

Definition buildBreakdownQuerySpec (query : QueryDraft) (defaultLimit : option Z) : BuildSpecResult SpecBody :=
  let timeseriesResult := buildTimeseriesQuerySpec query in
  match bs_query timeseriesResult with
  | None => timeseriesResult
  | Some spec =>
      let body := spec_body spec in
      match List.find (fun g => negb (bool_decide (g = lit "none"))) (default [] (sb_groupBy body)) with
      | None => failed (bs_warnings timeseriesResult) (lit "Breakdown requires a non-none group-by field")
      | Some breakdownGroupBy =>
          let limitRaw :=
            if match qd_addOns query with Some a => ao_limit a | None => false end then
              trim_text (default [] (qd_limit query))
            else [] in
          let limit :=
            match parse_int limitRaw with
            | Some n => if (0 <? n) && (n <=? 100) then Some n else defaultLimit
            | None => defaultLimit
            end in
          {| bs_query := Some (SpecOther
               {| sb_kind := spec_breakdown; sb_source := sb_source body; sb_metric := sb_metric body;
                  sb_groupBy := Some [breakdownGroupBy]; sb_filters := sb_filters body; sb_seriesLimit := None;
                  sb_limit := limit; sb_columns := None |});
             bs_warnings := bs_warnings timeseriesResult; bs_error := None |}
      end
  end.

Definition buildListQuerySpec (query : QueryDraft) (limit : option Z) (columns : option (list text)) :
    BuildSpecResult SpecBody :=
  let timeseriesResult := buildTimeseriesQuerySpec query in
  match bs_query timeseriesResult with
  | None => timeseriesResult
  | Some spec =>
      let body := spec_body spec in
      {| bs_query := Some (SpecOther
           {| sb_kind := spec_list; sb_source := sb_source body; sb_metric := None; sb_groupBy := None;
              sb_filters := sb_filters body; sb_seriesLimit := None; sb_limit := limit;
              sb_columns := match columns with Some [] => None | _ => columns end |});
         bs_warnings := bs_warnings timeseriesResult; bs_error := None |}
  end.

(** ** Filters as a where clause *)

Definition FILTER_MODE_TO_DISPLAY (mode : FilterMode) : text :=
  lit match mode with
      | mode_equals => "=" | mode_gt => ">" | mode_gte => ">=" | mode_lt => "<" | mode_lte => "<="
      | mode_contains => "contains" | mode_exists => "="
      end.

Definition format_leaf (prefix : text) (af : AttributeFilterLeaf) : text :=
  let value := quoteWhereValue (default [] (af_value af)) in
  prefix ++ lit "." ++ af_key af ++ lit " " ++
  match af_mode af with
  | mode_exists => lit (if af_negated af then "!exists" else "exists")
  | mode_contains => lit (if af_negated af then "!contains" else "contains") ++ lit " " ++ value
  | mode => (if af_negated af && bool_decide (mode = mode_equals) then lit "!=" else FILTER_MODE_TO_DISPLAY mode) ++
              lit " " ++ value
  end.

Definition formatAttrFilterClause (prefix : text) (af : AttributeFilter) : text :=
  match af_or af with
  | Some (m :: members) =>
      lit "(" ++ join_text (lit " OR ") (List.map (format_leaf prefix) (af_first af :: m :: members)) ++ lit ")"
  | _ => format_leaf prefix (af_first af)
  end.

Definition spec_texts (f : Field) (filters : SpecFilters) : list text :=
  match map_get f filters with Some (VTexts l) => l | _ => [] end.

Definition spec_modes (filters : SpecFilters) : list Field :=
  match map_get f_matchModes filters with Some (VModes l) => l | _ => [] end.

(** A comparison or containment clause. *)
Definition format_scalar (key : text) (f : Field) (contains : bool) (filters : SpecFilters) : list text :=
  match map_get f filters with
  | Some (VText value) =>
      match trim_text value with
      | [] => []
      | trimmed => [key ++ lit (if contains then " contains " else " = ") ++ quoteWhereValue trimmed]
      end
  | _ => []
  end.

Definition format_excluded (key : text) (f : Field) (filters : SpecFilters) : list text :=
  List.map (fun item => key ++ lit " != " ++ quoteWhereValue item) (spec_texts f filters).

Definition format_list (key : text) (f : Field) (contains : bool) (filters : SpecFilters) : list text :=
  match spec_texts f filters with
  | [] => []
  | values =>
      [key ++ lit (if contains && bool_decide (length values = 1%nat) then " contains " else " = ") ++
       quoteWhereValue (join_text (lit ",") values)]
  end.

Definition format_number (key : text) (f : Field) (filters : SpecFilters) : list text :=
  match map_get f filters with Some (VNum x) => [key ++ lit " = " ++ String_ x] | _ => [] end.

Definition format_attrs (prefix : text) (f : Field) (filters : SpecFilters) : list text :=
  match map_get f filters with Some (VAttrs l) => List.map (formatAttrFilterClause prefix) l | _ => [] end.

(** The clauses of the filters of a specification. *)
Definition filter_clauses (filters : SpecFilters) : list text :=
  let contains f := bool_decide (f ∈ spec_modes filters) in
  format_scalar (lit "service.name") f_serviceName (contains f_serviceName) filters ++
  format_scalar (lit "span.name") f_spanName (contains f_spanName) filters ++
  format_scalar (lit "severity") f_severity false filters ++
  match map_get f_rootSpansOnly filters with Some (VBool true) => [lit "root_only = true"] | _ => [] end ++
  match map_get f_errorsOnly filters with
  | Some (VBool b) => [lit (if b then "has_error = true" else "has_error = false")]
  | _ => []
  end ++
  format_list (lit "deployment.environment") f_environments (contains f_deploymentEnv) filters ++
  format_list (lit "vcs.ref.head.revision") f_commitShas false filters ++
  format_number (lit "min_duration_ms") f_minDurationMs filters ++
  format_number (lit "max_duration_ms") f_maxDurationMs filters ++
  format_excluded (lit "service.name") f_excludedServiceNames filters ++
  format_excluded (lit "span.name") f_excludedSpanNames filters ++
  format_excluded (lit "severity") f_excludedSeverities filters ++
  format_excluded (lit "deployment.environment") f_excludedEnvironments filters ++
  format_excluded (lit "vcs.ref.head.revision") f_excludedCommitShas filters ++
  format_attrs (lit "attr") f_attributeFilters filters ++
  format_attrs (lit "resource") f_resourceAttributeFilters filters.

Definition formatFiltersAsWhereClause (filters : option SpecFilters) : text :=
  join_text (lit " AND ") (filter_clauses (default [] filters)).
End Build.

(** ** An example *)

Definition numeral (t : text) : num := match parse_int t with Some n => num_of_Z n | None => S754_nan end.

Definition lowered_example (where_ : string) : BuildSpecResult SpecBody :=
  buildTimeseriesQuerySpec (List.map lower_ascii) numeral
    {| qd_id := lit "q"; qd_name := lit "A"; qd_enabled := None; qd_hidden := None; qd_dataSource := lit "traces";
       qd_whereClause := Some (lit where_); qd_aggregation := lit "count"; qd_stepInterval := Some (lit "5 min");
       qd_orderByDirection := None; qd_addOns := None; qd_groupBy := None; qd_having := None; qd_orderBy := None;
       qd_limit := None; qd_seriesLimit := Some (lit "x"); qd_legend := None; qd_valueField := None;
       qd_signalSource := None; qd_metricName := None; qd_metricType := None; qd_isMonotonic := None |}.

Example lowered_ex :
  let r := lowered_example "Service = 'api' AND attr.Http.Status >= 500 AND (a = 1 OR b exists) AND env < 3" in
  match bs_query r with
  | Some (SpecTimeseries (Some 300) body) =>
      match sb_filters body with
      | Some filters =>
          map_get f_serviceName filters = Some (VText (lit "api")) /\
          formatFiltersAsWhereClause (fun _ => []) (Some filters) =
            lit "service.name = " ++ quoteWhereValue (lit "api") ++ lit " AND attr.Http.Status >= " ++
            quoteWhereValue (lit "500") ++ lit " AND (attr.a = " ++ quoteWhereValue (lit "1") ++ lit " OR attr.b exists)"
      | None => False
      end
  | _ => False
  end /\
  bs_warnings r = [lit "Invalid series limit ignored; all series will be fetched";
                   lit "Traces filter env supports only =, != and contains; ignoring <"].
Proof. by vm_compute. Qed.

(** A second equality on a dimension replaces the first one without a warning,
    and an empty value drops its clause, although no value can match both. *)
Example second_equality_replaces :
  let r := lowered_example "service.name = 'a' AND service.name = 'b' AND span.name = ''" in
  match bs_query r with
  | Some spec => sb_filters (spec_body spec) = Some [(f_serviceName, VText (lit "b"))]
  | None => False
  end /\ length (bs_warnings r) = 1%nat.
Proof. by vm_compute. Qed.
