(* ===== verification/QueryRound.v ===== *)
(** * Filters shown and read back

    The where clause that shows the filters of a traces specification is lowered
    to the same filters again. *)

From Stdlib Require Import Ascii String.
From stdpp Require Import prelude list.
From Stdlib Require Import ZArith Lia ZifyBool.
From S2P Require Import Prelude.
From S2P Require Import JsNum.
From S2P Require Import JsString.
From S2P Require Import IngestSha256.
From S2P Require Import IngestRegex.
From S2P Require Import JsUnits.
From S2P Require Import QuerySeries.
From S2P Require Import QueryRunner.
From S2P Require Import WhereClause.
From S2P Require Import WhereReads.
From S2P Require Import WhereSplit.
From S2P Require Import QueryLower.
From S2P Require Import QueryBuild.

Open Scope Z_scope.
Local Open Scope maple_scope.

(** ** Traces filters *)

(** The filters a traces draft can hold: single values with their match mode,
    lists, exclusions, and attribute filters, plain ones before groups. *)
Record TracesFilter := {
  tf_service : option (text * bool);
  tf_span : option (text * bool);
  tf_root : bool;
  tf_error : option bool;
  tf_envs : list text;
  tf_envContains : bool;
  tf_shas : list text;
  tf_min : option num;
  tf_max : option num;
  tf_notServices : list text;
  tf_notSpans : list text;
  tf_notEnvs : list text;
  tf_notShas : list text;
  tf_attrs : list AttributeFilterLeaf;
  tf_attrGroups : list (AttributeFilterLeaf * list AttributeFilterLeaf);
  tf_resources : list AttributeFilterLeaf;
  tf_resourceGroups : list (AttributeFilterLeaf * list AttributeFilterLeaf);
}.

Definition entry (f : Field) (v : option FieldValue) : SpecFilters := match v with Some v => [(f, v)] | None => [] end.

Definition texts_value (l : list text) : option FieldValue := match l with [] => None | _ => Some (VTexts l) end.

Definition tf_modes (t : TracesFilter) : list Field :=
  match tf_service t with Some (_, true) => [f_serviceName] | _ => [] end ++
  match tf_span t with Some (_, true) => [f_spanName] | _ => [] end ++
  (if tf_envContains t then [f_deploymentEnv] else []).

Definition plain_filter (l : AttributeFilterLeaf) : AttributeFilter := {| af_first := l; af_or := None |}.
Definition group_filter (g : AttributeFilterLeaf * list AttributeFilterLeaf) : AttributeFilter :=
  {| af_first := g.1; af_or := Some g.2 |}.

Definition all_attrs (plains : list AttributeFilterLeaf) (gs : list (AttributeFilterLeaf * list AttributeFilterLeaf)) :
    list AttributeFilter := List.map plain_filter plains ++ List.map group_filter gs.

Definition attrs_value (l : list AttributeFilter) : option FieldValue := match l with [] => None | _ => Some (VAttrs l) end.

(** The value of a field of the specification. *)
Definition tf_value (t : TracesFilter) (f : Field) : option FieldValue :=
  match f with
  | f_serviceName => VText ∘ fst <$> tf_service t
  | f_spanName => VText ∘ fst <$> tf_span t
  | f_rootSpansOnly => if tf_root t then Some (VBool true) else None
  | f_errorsOnly => VBool <$> tf_error t
  | f_environments => texts_value (tf_envs t)
  | f_commitShas => texts_value (tf_shas t)
  | f_minDurationMs => VNum <$> tf_min t
  | f_maxDurationMs => VNum <$> tf_max t
  | f_matchModes => match tf_modes t with [] => None | l => Some (VModes l) end
  | f_excludedServiceNames => texts_value (tf_notServices t)
  | f_excludedSpanNames => texts_value (tf_notSpans t)
  | f_excludedEnvironments => texts_value (tf_notEnvs t)
  | f_excludedCommitShas => texts_value (tf_notShas t)
  | f_attributeFilters => attrs_value (all_attrs (tf_attrs t) (tf_attrGroups t))
  | f_resourceAttributeFilters => attrs_value (all_attrs (tf_resources t) (tf_resourceGroups t))
  | _ => None
  end.

(** The specification of the filters. *)
Definition spec_of (t : TracesFilter) : SpecFilters :=
  flat_map (fun f => entry f (tf_value t f)) (TRACES_SPEC_FIELDS ++ [f_attributeFilters; f_resourceAttributeFilters]).

(** ** Values that can be written *)

(** White space at neither end, and not both kinds of quotes. *)
Definition value_ok (v : text) : Prop := trim_text v = v /\ ~ (34 ∈ v /\ 39 ∈ v).

(** One of several values in a list. *)
Definition item_ok (v : text) : Prop := value_ok v /\ v <> [] /\ 44 ∉ v.

Definition list_ok (l : list text) : Prop := Forall item_ok l /\ ~ (34 ∈ join_text (lit ",") l /\ 39 ∈ join_text (lit ",") l).

Definition leaf_ok (l : AttributeFilterLeaf) : Prop :=
  Forall (fun c => is_key_char c = true) (af_key l) /\
  match af_mode l with
  | mode_exists => af_value l = None
  | mode_equals | mode_contains => exists v, af_value l = Some v /\ value_ok v
  | _ => af_negated l = false /\ exists v, af_value l = Some v /\ value_ok v
  end.

Definition group_ok (g : AttributeFilterLeaf * list AttributeFilterLeaf) : Prop :=
  leaf_ok g.1 /\ Forall leaf_ok g.2 /\ g.2 <> [].

Section Round.
Context (toLowerCase : text -> text) (Number : text -> num) (String_ : num -> text).

(** Lower case changes the letters of ASCII text only. *)
Hypothesis lower_keys : forall k, Forall (fun c => is_key_char c = true) k -> toLowerCase k = List.map lower_ascii k.

(** A number that is printed as a word and read back. *)
Definition number_ok (x : num) : Prop :=
  num_is_finite x = true /\ value_written (String_ x) (String_ x) /\ trim_text (String_ x) = String_ x /\
  Number (String_ x) = x.

Definition filter_ok (t : TracesFilter) : Prop :=
  (forall v c, tf_service t = Some (v, c) -> value_ok v /\ v <> []) /\
  (forall v c, tf_span t = Some (v, c) -> value_ok v /\ v <> []) /\
  list_ok (tf_envs t) /\ (tf_envContains t = true -> length (tf_envs t) = 1%nat) /\ list_ok (tf_shas t) /\
  (forall x, tf_min t = Some x -> number_ok x) /\ (forall x, tf_max t = Some x -> number_ok x) /\
  Forall value_ok (tf_notServices t) /\ Forall value_ok (tf_notSpans t) /\
  Forall item_ok (tf_notEnvs t) /\ Forall item_ok (tf_notShas t) /\
  Forall leaf_ok (tf_attrs t) /\ Forall group_ok (tf_attrGroups t) /\
  Forall leaf_ok (tf_resources t) /\ Forall group_ok (tf_resourceGroups t) /\
  (length (tf_attrs t) + length (tf_attrGroups t) <= 5)%nat /\
  (length (tf_resources t) + length (tf_resourceGroups t) <= 5)%nat.

(** ** The clauses of the filters *)

Lemma get_entries_of (val : Field -> option FieldValue) L f :
  map_get f (flat_map (fun g => entry g (val g)) L) = if decide (f ∈ L) then val f else None.
Proof.
  induction L as [|g L IH]; [done|]. cbn [flat_map].
  assert (forall m, map_get f (entry g (val g) ++ m) =
    if decide (f = g) then match val g with Some v => Some v | None => map_get f m end else map_get f m) as ->.
  { intros m. unfold entry. destruct (val g) as [v|]; cbn; [done|]. by destruct (decide (f = g)). }
  rewrite IH. destruct (decide (f = g)) as [->|Hne].
  - rewrite (decide_True (P := g ∈ g :: L)) by by left. destruct (val g); [done|]. by destruct (decide (g ∈ L)).
  - destruct (decide (f ∈ L)) as [Hin|Hin].
    + rewrite decide_True; [done|by right].
    + rewrite decide_False; [done|]. by intros [->|?]%elem_of_cons.
Qed.

Definition spec_fields : list Field := TRACES_SPEC_FIELDS ++ [f_attributeFilters; f_resourceAttributeFilters].

Lemma get_spec t f : bool_decide (f ∈ spec_fields) = true -> map_get f (spec_of t) = tf_value t f.
Proof. intros H%bool_decide_eq_true. unfold spec_of. rewrite (get_entries_of (tf_value t)). by rewrite decide_True. Qed.

Lemma get_spec_none t f : bool_decide (f ∈ spec_fields) = false -> map_get f (spec_of t) = None.
Proof. intros H%bool_decide_eq_false. unfold spec_of. rewrite (get_entries_of (tf_value t)). by rewrite decide_False. Qed.

Definition scalar_clause (key : text) (v : option (text * bool)) : list ParsedClause :=
  match v with Some (v, c) => [clause_of key (if c then op_contains else op_eq) v] | None => [] end.

Definition excluded_clauses (key : text) (l : list text) : list ParsedClause := List.map (clause_of key op_ne) l.

Definition list_clause (key : text) (contains : bool) (l : list text) : list ParsedClause :=
  match l with [] => [] | _ => [clause_of key (if contains then op_contains else op_eq) (join_text (lit ",") l)] end.

Definition flag_clause (key : text) (b : bool) : ParsedClause := clause_of key op_eq (lit (if b then "true" else "false")).

Definition number_clause (key : text) (x : option num) : list ParsedClause :=
  match x with Some x => [clause_of key op_eq (String_ x)] | None => [] end.

Definition leaf_op (l : AttributeFilterLeaf) : Operator :=
  match af_mode l, af_negated l with
  | mode_exists, false => op_exists | mode_exists, true => op_not_exists
  | mode_contains, false => op_contains | mode_contains, true => op_not_contains
  | mode_gt, _ => op_gt | mode_gte, _ => op_ge | mode_lt, _ => op_lt | mode_lte, _ => op_le
  | mode_equals, true => op_ne | mode_equals, false => op_eq
  end.

Definition leaf_clause (prefix : text) (l : AttributeFilterLeaf) : ParsedClause :=
  clause_of (prefix ++ lit "." ++ af_key l) (leaf_op l) (default [] (af_value l)).

Definition group_clauses (prefix : text) (g : AttributeFilterLeaf * list AttributeFilterLeaf) : list ParsedClause :=
  List.map (leaf_clause prefix) (g.1 :: g.2).

(** The clauses on named keys, in the order they are written. *)
Definition named_clauses (t : TracesFilter) : list ParsedClause :=
  scalar_clause (lit "service.name") (tf_service t) ++
  scalar_clause (lit "span.name") (tf_span t) ++
  (if tf_root t then [flag_clause (lit "root_only") true] else []) ++
  match tf_error t with Some b => [flag_clause (lit "has_error") b] | None => [] end ++
  list_clause (lit "deployment.environment") (tf_envContains t) (tf_envs t) ++
  list_clause (lit "vcs.ref.head.revision") false (tf_shas t) ++
  number_clause (lit "min_duration_ms") (tf_min t) ++
  number_clause (lit "max_duration_ms") (tf_max t) ++
  excluded_clauses (lit "service.name") (tf_notServices t) ++
  excluded_clauses (lit "span.name") (tf_notSpans t) ++
  excluded_clauses (lit "deployment.environment") (tf_notEnvs t) ++
  excluded_clauses (lit "vcs.ref.head.revision") (tf_notShas t).

Definition ATTR : text := lit "attr".
Definition RESOURCE : text := lit "resource".

Definition filter_items (t : TracesFilter) : list Item :=
  List.map One (named_clauses t) ++
  List.map (One ∘ leaf_clause ATTR) (tf_attrs t) ++ List.map (Any ∘ group_clauses ATTR) (tf_attrGroups t) ++
  List.map (One ∘ leaf_clause RESOURCE) (tf_resources t) ++ List.map (Any ∘ group_clauses RESOURCE) (tf_resourceGroups t).

Lemma spaced key w op v t : key_text key -> (w, op) ∈ comparisons -> value_written v t ->
  clause_written (clause_of key op v) (key ++ [32] ++ w ++ [32] ++ t).
Proof. intros Hk Hw Hv. by apply clause_compare; [|repeat constructor| |repeat constructor|]. Qed.

Lemma spaced_contains key w v t : key_text key -> cased (lit "CONTAINS") w -> value_written v t ->
  clause_written (clause_of key op_contains v) (key ++ [32] ++ w ++ [32] ++ t).
Proof. intros Hk Hw Hv. by apply clause_contains; [|repeat constructor| | |repeat constructor| |]. Qed.

Definition all_written (cs : list ParsedClause) (ts : list text) : Prop :=
  Forall2 item_written (List.map One cs) ts.

Lemma all_written_one c t : clause_written c t -> all_written [c] [t].
Proof. intros H. constructor; [|constructor]. by apply written_clause. Qed.

Lemma eq_written key v : key_text key -> ~ (34 ∈ v /\ 39 ∈ v) ->
  clause_written (clause_of key op_eq v) (key ++ lit " = " ++ quoteWhereValue v).
Proof.
  intros Hk Hv. apply (spaced key (lit "=") op_eq v); [done| |by apply quoted_value_written].
  by apply (list_elem_of_lookup_2 _ 5%nat).
Qed.

Lemma contains_written key v : key_text key -> ~ (34 ∈ v /\ 39 ∈ v) ->
  clause_written (clause_of key op_contains v) (key ++ lit " contains " ++ quoteWhereValue v).
Proof.
  intros Hk Hv. assert (lit " contains " ++ quoteWhereValue v = [32] ++ lit "contains" ++ [32] ++ quoteWhereValue v) as ->
    by by vm_compute.
  by apply spaced_contains, quoted_value_written.
Qed.

Lemma scalar_written key f v contains spec : key_text key -> map_get f spec = (VText ∘ fst <$> v) ->
  (forall x c, v = Some (x, c) -> (value_ok x /\ x <> []) /\ contains = c) ->
  all_written (scalar_clause key v) (format_scalar key f contains spec).
Proof.
  intros Hk Hget Hv. unfold format_scalar. rewrite Hget. destruct v as [[x c]|]; [|constructor].
  change (VText ∘ fst <$> Some (x, c)) with (Some (VText x)). cbv iota. cbn [scalar_clause]. destruct (Hv x c eq_refl) as [[[Ht Hq] Hne] ->]. rewrite Ht. destruct x as [|y x]; [done|].
  apply all_written_one. destruct c; [by apply contains_written|by apply eq_written].
Qed.

Lemma excluded_written key f l spec : key_text key -> map_get f spec = texts_value l -> Forall value_ok l ->
  all_written (excluded_clauses key l) (format_excluded key f spec).
Proof.
  intros Hk Hget Hl. unfold format_excluded, spec_texts. rewrite Hget.
  assert (match texts_value l with Some (VTexts l) => l | _ => [] end = l) as -> by by destruct l.
  clear Hget. induction Hl as [|v l [_ Hv] _ IH]; cbn; [constructor|]. constructor; [|exact IH]. apply written_clause.
  apply (spaced key (lit "!=") op_ne v); [done| |by apply quoted_value_written]. by apply (list_elem_of_lookup_2 _ 0%nat).
Qed.

Lemma list_written key f l contains contains' spec : key_text key -> map_get f spec = texts_value l -> list_ok l ->
  (contains && bool_decide (length l = 1%nat) = contains') ->
  all_written (list_clause key contains' l) (format_list key f contains spec).
Proof.
  intros Hk Hget [_ Hq] <-. unfold format_list, spec_texts. rewrite Hget.
  assert (match texts_value l with Some (VTexts l) => l | _ => [] end = l) as -> by by destruct l.
  destruct l as [|v l]; [constructor|]. apply all_written_one.
  destruct (contains && _); [by apply contains_written|by apply eq_written].
Qed.

Lemma number_written key f x spec : key_text key -> map_get f spec = (VNum <$> x) ->
  (forall y, x = Some y -> number_ok y) -> all_written (number_clause key x) (format_number String_ key f spec).
Proof.
  intros Hk Hget Hx. unfold format_number. rewrite Hget. destruct x as [y|]; cbn; [|constructor].
  apply all_written_one. destruct (Hx y eq_refl) as (_ & Hw & _).
  apply (spaced key (lit "=") op_eq); [done| |done]. by apply (list_elem_of_lookup_2 _ 5%nat).
Qed.

(** ** Attribute filters *)

Lemma key_chars a : forallb is_key_char a = true -> Forall (fun c => is_key_char c = true) a.
Proof. intros H. apply Forall_forall. intros c Hc%list_elem_of_In. by apply (proj1 (forallb_forall _ _) H). Qed.

Lemma prefix_key prefix key : prefix = ATTR \/ prefix = RESOURCE -> Forall (fun c => is_key_char c = true) key ->
  key_text (prefix ++ lit "." ++ key).
Proof.
  intros Hp Hk. split; [by destruct Hp as [-> | ->]|]. rewrite !Forall_app. split_and!; [|by apply key_chars|done].
  destruct Hp as [-> | ->]; by apply key_chars.
Qed.

Lemma not_contains_written key w v t : key_text key -> cased (lit "CONTAINS") w -> value_written v t ->
  clause_written (clause_of key op_not_contains v) (key ++ [32] ++ (33 :: [] ++ w ++ [32] ++ t)).
Proof. intros Hk Hw Hv. by apply clause_not_contains; [|repeat constructor| |constructor| |repeat constructor| |]. Qed.

(** An operator between spaces. *)
Definition operator_written (op : Operator) (w : text) : Prop :=
  forall key v t, key_text key -> value_written v t ->
    clause_written (clause_of key op v) (key ++ lit " " ++ w ++ lit " " ++ t).

Lemma compare_operator i w op : comparisons !! i = Some (w, op) -> operator_written op w.
Proof.
  intros Hi key v t Hk Hv. change (lit " ") with [32]. apply spaced; [done| |done]. by eapply list_elem_of_lookup_2.
Qed.

Lemma containment_operators : operator_written op_contains (lit "contains") /\ operator_written op_not_contains (lit "!contains").
Proof.
  split; intros key v t Hk Hv; change (lit " ") with [32]; [by apply spaced_contains|].
  assert (lit "!contains" ++ [32] ++ t = 33 :: [] ++ lit "contains" ++ [32] ++ t) as -> by by vm_compute.
  by apply not_contains_written.
Qed.

Lemma leaf_written prefix l : prefix = ATTR \/ prefix = RESOURCE -> leaf_ok l ->
  clause_written (leaf_clause prefix l) (format_leaf prefix l).
Proof.
  intros Hp [Hk Hl]. pose proof (prefix_key prefix (af_key l) Hp Hk) as Hkey.
  unfold leaf_clause, format_leaf, leaf_op.
  assert (forall op w, operator_written op w -> (exists v, af_value l = Some v /\ value_ok v) ->
    clause_written (clause_of (prefix ++ lit "." ++ af_key l) op (default [] (af_value l)))
      (prefix ++ lit "." ++ af_key l ++ lit " " ++ w ++ lit " " ++ quoteWhereValue (default [] (af_value l)))) as Hop.
  { intros op w Hw (v & -> & _ & Hq). rewrite !(app_assoc prefix), !(app_assoc (prefix ++ lit ".")).
    rewrite <- (app_assoc prefix). apply Hw; [done|]. by apply quoted_value_written. }
  destruct containment_operators as [Hc Hnc].
  destruct (af_mode l); cbn [FILTER_MODE_TO_DISPLAY bool_decide]; rewrite ?andb_false_r.
  - destruct (af_negated l); apply Hop; try done; [by apply (compare_operator 0)|by apply (compare_operator 5)].
  - rewrite Hl. destruct (af_negated l); change (default [] None) with (@nil Z);
      rewrite !(app_assoc prefix), !(app_assoc (prefix ++ lit ".")); rewrite <- (app_assoc prefix); change (lit " ") with [32].
    + apply (clause_not_exists _ [32] [] (lit "exists")); [done|by repeat constructor|done|constructor|done].
    + apply (clause_exists _ [32] (lit "exists")); [done|by repeat constructor|done|done].
  - destruct Hl as [_ Hv]. apply Hop; [by apply (compare_operator 4)|done].
  - destruct Hl as [_ Hv]. apply Hop; [by apply (compare_operator 2)|done].
  - destruct Hl as [_ Hv]. apply Hop; [by apply (compare_operator 3)|done].
  - destruct Hl as [_ Hv]. apply Hop; [by apply (compare_operator 1)|done].
  - destruct (af_negated l); by apply Hop.
Qed.

Lemma leaves_written prefix ls : prefix = ATTR \/ prefix = RESOURCE -> Forall leaf_ok ls ->
  Forall2 clause_written (List.map (leaf_clause prefix) ls) (List.map (format_leaf prefix) ls).
Proof. intros Hp H. induction H as [|l ls Hl _ IH]; [constructor|]. constructor; [by apply leaf_written|done]. Qed.

Lemma join_or ts t : joined OR (t :: ts) (join_text (lit " OR ") (t :: ts)).
Proof.
  revert t. induction ts as [|t' ts IH]; intros t; [constructor|].
  change (join_text (lit " OR ") (t :: t' :: ts)) with (t ++ lit " OR " ++ join_text (lit " OR ") (t' :: ts)).
  constructor; [|apply IH]. exists [], 32, (lit "OR"), [32]. by split_and!; repeat constructor.
Qed.

Lemma group_written prefix g : prefix = ATTR \/ prefix = RESOURCE -> group_ok g ->
  item_written (Any (group_clauses prefix g)) (formatAttrFilterClause prefix (group_filter g)).
Proof.
  intros Hp (H1 & H2 & Hne). destruct g as [l ls]. cbn [fst snd] in *.
  unfold formatAttrFilterClause. cbn [group_filter af_or af_first]. destruct ls as [|m ls]; [done|].
  pose proof (leaves_written prefix (l :: m :: ls) Hp (Forall_cons_2 _ _ _ H1 H2)) as Hw.
  change (lit "(") with [40]. change (lit ")") with [41]. cbn [app].
  apply (written_group _ (List.map (format_leaf prefix) (l :: m :: ls)) _ [] []).
  - unfold group_clauses. rewrite length_map. cbn. lia.
  - exact Hw.
  - apply join_or.
  - constructor.
  - constructor.
Qed.

Lemma attrs_written prefix f plains gs spec : prefix = ATTR \/ prefix = RESOURCE ->
  map_get f spec = attrs_value (all_attrs plains gs) -> Forall leaf_ok plains -> Forall group_ok gs ->
  Forall2 item_written (List.map (One ∘ leaf_clause prefix) plains ++ List.map (Any ∘ group_clauses prefix) gs)
    (format_attrs prefix f spec).
Proof.
  intros Hp Hget Hl Hg. unfold format_attrs. rewrite Hget.
  assert (match attrs_value (all_attrs plains gs) with
          | Some (VAttrs l) => List.map (formatAttrFilterClause prefix) l | _ => [] end =
          List.map (formatAttrFilterClause prefix) (all_attrs plains gs)) as -> by by destruct (all_attrs plains gs).
  unfold all_attrs. rewrite List.map_app. apply Forall2_app.
  - clear -Hp Hl. induction Hl as [|l ls Hl _ IH]; [constructor|]. constructor; [|done]. by apply written_clause, leaf_written.
  - clear -Hp Hg. induction Hg as [|g gs Hg _ IH]; [constructor|]. constructor; [|done]. by apply group_written.
Qed.

Lemma flag_written key b : key_text key -> clause_written (flag_clause key b) (key ++ lit " = " ++ lit (if b then "true" else "false")).
Proof.
  intros Hk. change (lit " = ") with ([32] ++ lit "=" ++ [32]). rewrite <- !app_assoc.
  apply spaced; [done|by apply (list_elem_of_lookup_2 _ 5%nat)|].
  destruct b; (apply value_bare; [done| |done|done|done]); vm_compute; by repeat constructor.
Qed.

Ltac named_key := by split; [|apply key_chars].

(** The text of a filter writes its items. *)
Lemma filter_text_written t : filter_ok t ->
  Forall2 item_written (filter_items t) (filter_clauses String_ (spec_of t)).
Proof.
  intros (Hs & Hp & He & Hec & Hh & Hmin & Hmax & Hns & Hnp & Hne & Hnh & Ha & Hag & Hr & Hrg & _).
  assert (forall l, Forall item_ok l -> Forall value_ok l) as Hitems
    by (intros l H; eapply Forall_impl; [exact H|]; by intros v [Hv _]).
  assert (spec_modes (spec_of t) = tf_modes t) as Em by (unfold spec_modes; rewrite get_spec by done; cbn [tf_value]; by destruct (tf_modes t)).
  assert (format_scalar (lit "severity") f_severity false (spec_of t) = []) as E1 by (unfold format_scalar; rewrite get_spec_none by done; reflexivity).
  assert (format_excluded (lit "severity") f_excludedSeverities (spec_of t) = []) as E2
    by (unfold format_excluded, spec_texts; rewrite get_spec_none by done; reflexivity).
  unfold filter_items, filter_clauses, named_clauses. rewrite Em, E1, E2, !List.map_app, <- !app_assoc, !app_nil_l.
  apply Forall2_app; [|apply Forall2_app; [|apply Forall2_app; [|apply Forall2_app]]].
  - apply scalar_written; [named_key|by apply get_spec|]. intros x c E. split; [by apply (Hs x c)|].
    unfold tf_modes. rewrite E. destruct (tf_span t) as [[? []]|], c, (tf_envContains t); by vm_compute.
  - apply scalar_written; [named_key|by apply get_spec|]. intros x c E. split; [by apply (Hp x c)|].
    unfold tf_modes. rewrite E. destruct (tf_service t) as [[? []]|], c, (tf_envContains t); by vm_compute.
  - rewrite get_spec by done. cbn [tf_value]. destruct (tf_root t); constructor; [|constructor].
    apply written_clause. apply (flag_written (lit "root_only") true). named_key.
  - rewrite get_spec by done. cbn [tf_value]. destruct (tf_error t) as [b|]; constructor; [|constructor].
    apply written_clause. destruct b; apply (flag_written (lit "has_error")); named_key.
  - apply Forall2_app; [|apply Forall2_app; [|apply Forall2_app; [|apply Forall2_app; [|apply Forall2_app; [|apply Forall2_app; [|apply Forall2_app; [|apply Forall2_app]]]]]]].
    + apply list_written; [named_key|by apply get_spec|done|]. unfold tf_modes.
      destruct (tf_envContains t) eqn:E; [rewrite (Hec eq_refl)|];
        destruct (tf_service t) as [[? []]|], (tf_span t) as [[? []]|]; by vm_compute.
    + apply list_written; [named_key|by apply get_spec|done|done].
    + apply number_written; [named_key|by apply get_spec|done].
    + apply number_written; [named_key|by apply get_spec|done].
    + apply excluded_written; [named_key|by apply get_spec|done].
    + apply excluded_written; [named_key|by apply get_spec|done].
    + apply excluded_written; [named_key|by apply get_spec|by apply Hitems].
    + apply excluded_written; [named_key|by apply get_spec|by apply Hitems].
    + rewrite app_assoc. apply Forall2_app; (apply attrs_written; [by (left + right)|by apply get_spec|done|done]).
Qed.
End Round.
