(* ===== verification/QueryLayers.v ===== *)
(** * Lowering the clauses of a filter

    The handlers of traces clauses, one segment of a shown filter after the
    other, and the field each leaves behind. *)

From Stdlib Require Import Ascii String.
From stdpp Require Import prelude list.
From Stdlib Require Import ZArith Lia ZifyBool.
From S2P Require Import Prelude.
From S2P Require Import JsNum.
From S2P Require Import JsString.
From S2P Require Import IngestSha256.
From S2P Require Import IngestRegex.
From S2P Require Import JsUnits.
From S2P Require Import QuerySeries.
From S2P Require Import QueryRunner.
From S2P Require Import WhereClause.
From S2P Require Import WhereReads.
From S2P Require Import WhereSplit.
From S2P Require Import QueryLower.
From S2P Require Import QueryBuild.
From S2P Require Import QueryRound.

Open Scope Z_scope.
Local Open Scope maple_scope.

(** ** Fields *)

Definition get (f : Field) (acc : Accumulator) : option FieldValue := map_get f (fields acc).

Definition put_field (f : Field) (o : option FieldValue) (acc : Accumulator) : Accumulator :=
  match o with Some v => set_field f v acc | None => acc end.

Lemma get_set_field f g v acc : get g (set_field f v acc) = if decide (f = g) then Some v else get g acc.
Proof. unfold get. cbn. apply map_get_set. Qed.

Lemma get_put_eq f o acc : get f acc = None -> get f (put_field f o acc) = o.
Proof. intros H. destruct o as [v|]; cbn [put_field]; [|done]. by rewrite get_set_field, decide_True. Qed.

Lemma get_put_ne f g o acc : f <> g -> get g (put_field f o acc) = get g acc.
Proof. intros H. destruct o as [v|]; cbn [put_field]; [|done]. by rewrite get_set_field, decide_False. Qed.

Lemma modes_get acc : modes acc = match get f_matchModes acc with Some (VModes l) => l | _ => [] end.
Proof. done. Qed.

(** The modes a mode leaves. *)
Definition next_modes (m : Field) (contains : bool) (l : list Field) : list Field :=
  List.filter (fun g => negb (bool_decide (g = m))) l ++ (if contains then [m] else []).

Definition modes_value (l : list Field) : option FieldValue := match l with [] => None | _ => Some (VModes l) end.

Lemma get_mode m c g acc :
  get g (withMatchMode m c acc) = if decide (f_matchModes = g) then modes_value (next_modes m c (modes acc)) else get g acc.
Proof.
  unfold withMatchMode, next_modes. destruct (_ ++ _) as [|x l]; [|apply get_set_field].
  unfold get. cbn. by rewrite map_delete_get.
Qed.

(** A value with a match mode. *)
Definition put_moded (f m : Field) (o : option (FieldValue * bool)) (acc : Accumulator) : Accumulator :=
  match o with Some (v, c) => withMatchMode m c (set_field f v acc) | None => acc end.

Lemma get_moded_eq f m o acc : f <> f_matchModes -> get f acc = None -> get f (put_moded f m o acc) = fst <$> o.
Proof.
  intros Hf H. destruct o as [[v c]|]; cbn [put_moded]; [|done]. rewrite get_mode, decide_False by done.
  by rewrite get_set_field, decide_True.
Qed.

Lemma get_moded_ne f m g o acc : f <> g -> f_matchModes <> g -> get g (put_moded f m o acc) = get g acc.
Proof.
  intros Hf Hg. destruct o as [[v c]|]; cbn [put_moded]; [|done]. rewrite get_mode, decide_False by done.
  by rewrite get_set_field, decide_False.
Qed.

Lemma get_moded_modes f m o acc l : f <> f_matchModes -> m ∉ l -> get f_matchModes acc = modes_value l ->
  get f_matchModes (put_moded f m o acc) = modes_value (l ++ match o with Some (_, true) => [m] | _ => [] end).
Proof.
  intros Hf Hm Hl. destruct o as [[v c]|]; cbn [put_moded]; [|by rewrite app_nil_r].
  rewrite get_mode, decide_True by done.
  assert (modes (set_field f v acc) = l) as ->.
  { rewrite modes_get, get_set_field, decide_False, Hl by done. by destruct l. }
  unfold next_modes. assert (List.filter (fun g => negb (bool_decide (g = m))) l = l) as ->; [|by destruct c].
  clear Hl. induction l as [|g l IH]; [done|].
  apply not_elem_of_cons in Hm as [Hne Hm]. cbn. rewrite bool_decide_false by congruence. cbn. by rewrite IH.
Qed.

(** Attribute filters. *)
Definition push_all (resource : bool) (l : list AttributeFilter) (acc : Accumulator) : Accumulator :=
  fold_left (fun acc f => push_attr resource f acc) l acc.

Lemma push_all_facts resource l : forall acc,
  fields (push_all resource l acc) = fields acc /\
  attributeFilters (push_all resource l acc) = attributeFilters acc ++ (if resource then [] else l) /\
  resourceAttributeFilters (push_all resource l acc) = resourceAttributeFilters acc ++ (if resource then l else []).
Proof.
  induction l as [|f l IH]; intros acc; cbn [push_all fold_left].
  - by destruct resource; rewrite !app_nil_r.
  - destruct (IH (push_attr resource f acc)) as (E1 & E2 & E3). unfold push_all in *. rewrite E1, E2, E3.
    destruct resource; cbn; by rewrite ?app_nil_r, <- ?app_assoc.
Qed.

Lemma pushed_length resource f acc : length (attr_list resource (push_attr resource f acc)) = S (length (attr_list resource acc)).
Proof. destruct resource; cbn [push_attr attr_list resourceAttributeFilters attributeFilters]; rewrite length_app, Nat.add_comm; done. Qed.

Section Layers.
Context (toLowerCase : text -> text) (Number : text -> num).
Hypothesis lower_keys : forall k, Forall (fun c => is_key_char c = true) k -> toLowerCase k = List.map lower_ascii k.

Notation handle := (applyTracesClause toLowerCase Number).

(** ** Keys *)

Lemma trim_key k : Forall (fun c => is_key_char c = true) k -> trim_text k = k.
Proof.
  intros H. destruct k as [|c k]; [done|]. assert (key_text (c :: k)) as Hk by done.
  apply trim_tight_id. split; [rewrite <- (app_nil_r (c :: k)); by apply key_solid|].
  apply wordy_end; [done|by apply key_wordy].
Qed.

Lemma lower_key_char c : is_key_char c = true -> is_key_char (lower_ascii c) = true.
Proof. unfold lower_ascii. destruct ((65 <=? c) && (c <=? 90)) eqn:E; [|done]. unfold is_key_char, is_decimal. lia. Qed.

Lemma lower_twice c : lower_ascii (lower_ascii c) = lower_ascii c.
Proof.
  unfold lower_ascii at 2 3. destruct ((65 <=? c) && (c <=? 90)) eqn:E; unfold lower_ascii; [|by rewrite E].
  assert ((65 <=? c + 32) && (c + 32 <=? 90) = false) as -> by lia. done.
Qed.

Lemma lowered_key k : Forall (fun c => is_key_char c = true) k ->
  toLowerCase (trim_text (List.map lower_ascii k)) = List.map lower_ascii k.
Proof.
  intros H. assert (Forall (fun c => is_key_char c = true) (List.map lower_ascii k)) as Hl.
  { rewrite Forall_map. eapply Forall_impl; [exact H|]. apply lower_key_char. }
  rewrite trim_key, lower_keys by done. rewrite List.map_map. apply map_ext. apply lower_twice.
Qed.

(** A key that is its own canonical name. *)
Lemma named_key k op v : forallb is_key_char k = true -> normalizeKey id (List.map lower_ascii k) = k ->
  normalizeKey toLowerCase (pc_key (clause_of k op v)) = k.
Proof.
  intros Hk Hn. cbn [clause_of pc_key]. rewrite <- Hn at 2. unfold normalizeKey. rewrite lowered_key by by apply key_chars.
  unfold id. rewrite (trim_key (List.map lower_ascii k)); [done|].
  rewrite Forall_map. eapply Forall_impl; [by apply key_chars|]. apply lower_key_char.
Qed.

Lemma service_step op v acc : handle (clause_of (lit "service.name") op v) acc =
  applyTracesDimension false true f_serviceName f_excludedServiceNames (Some f_serviceName)
    (clause_of (lit "service.name") op v) acc.
Proof. unfold applyTracesClause. rewrite named_key by by vm_compute. done. Qed.

Lemma span_step op v acc : handle (clause_of (lit "span.name") op v) acc =
  applyTracesDimension false true f_spanName f_excludedSpanNames (Some f_spanName) (clause_of (lit "span.name") op v) acc.
Proof. unfold applyTracesClause. rewrite named_key by by vm_compute. done. Qed.

Lemma environment_step op v acc : handle (clause_of (lit "deployment.environment") op v) acc =
  applyTracesDimension true true f_environments f_excludedEnvironments (Some f_deploymentEnv)
    (clause_of (lit "deployment.environment") op v) acc.
Proof. unfold applyTracesClause. rewrite named_key by by vm_compute. done. Qed.

Lemma commit_step op v acc : handle (clause_of (lit "vcs.ref.head.revision") op v) acc =
  applyTracesDimension true false f_commitShas f_excludedCommitShas None (clause_of (lit "vcs.ref.head.revision") op v) acc.
Proof. unfold applyTracesClause. rewrite named_key by by vm_compute. done. Qed.

Lemma root_step op v acc : handle (clause_of (lit "root_only") op v) acc =
  flag_field toLowerCase f_rootSpansOnly (lit "root_only") (clause_of (lit "root_only") op v) acc.
Proof. unfold applyTracesClause. rewrite named_key by by vm_compute. done. Qed.

Lemma error_step op v acc : handle (clause_of (lit "has_error") op v) acc =
  flag_field toLowerCase f_errorsOnly (lit "has_error") (clause_of (lit "has_error") op v) acc.
Proof. unfold applyTracesClause. rewrite named_key by by vm_compute. done. Qed.

Lemma min_step op v acc : handle (clause_of (lit "min_duration_ms") op v) acc =
  number_field Number f_minDurationMs (lit "min_duration_ms") (clause_of (lit "min_duration_ms") op v) acc.
Proof. unfold applyTracesClause. rewrite named_key by by vm_compute. done. Qed.

Lemma max_step op v acc : handle (clause_of (lit "max_duration_ms") op v) acc =
  number_field Number f_maxDurationMs (lit "max_duration_ms") (clause_of (lit "max_duration_ms") op v) acc.
Proof. unfold applyTracesClause. rewrite named_key by by vm_compute. done. Qed.

(** ** Segments *)

Notation run := (run_handlers handle).

Lemma run_app {A} (h : A -> Accumulator -> Handled) l1 l2 s : run_handlers h (l1 ++ l2) s = run_handlers h l2 (run_handlers h l1 s).
Proof. apply fold_left_app. Qed.

Lemma run_one c acc ws acc' : handle c acc = (acc', []) -> run [c] (acc, ws) = (acc', ws).
Proof. intros H. cbn. rewrite H. by rewrite app_nil_r. Qed.

Lemma run_service o acc ws : (forall v c, o = Some (v, c) -> trim_text v = v) ->
  run (scalar_clause (lit "service.name") o) (acc, ws) =
  (put_moded f_serviceName f_serviceName ((fun x => (VText x.1, x.2)) <$> o) acc, ws).
Proof.
  intros H. destruct o as [[v c]|]; [|done]. apply run_one. rewrite service_step.
  unfold applyTracesDimension, dimensionPredicate. cbn [clause_of pc_operator pc_value]. rewrite (H v c eq_refl). by destruct c.
Qed.

Lemma run_span o acc ws : (forall v c, o = Some (v, c) -> trim_text v = v) ->
  run (scalar_clause (lit "span.name") o) (acc, ws) =
  (put_moded f_spanName f_spanName ((fun x => (VText x.1, x.2)) <$> o) acc, ws).
Proof.
  intros H. destruct o as [[v c]|]; [|done]. apply run_one. rewrite span_step.
  unfold applyTracesDimension, dimensionPredicate. cbn [clause_of pc_operator pc_value]. rewrite (H v c eq_refl). by destruct c.
Qed.

Lemma bool_words (b : bool) : toLowerCase (trim_text (lit (if b then "true" else "false")%string)) = lit (if b then "true" else "false")%string.
Proof. rewrite trim_key, lower_keys by (apply key_chars; by destruct b). by destruct b. Qed.

Lemma run_flag f name b acc ws : (forall op v acc, handle (clause_of name op v) acc =
    flag_field toLowerCase f name (clause_of name op v) acc) ->
  run [flag_clause name b] (acc, ws) = (set_field f (VBool b) acc, ws).
Proof.
  intros H. apply run_one. unfold flag_clause. rewrite H. unfold flag_field, requireEquals, parseBoolean.
  cbn [clause_of pc_operator pc_value]. rewrite bool_decide_true by done.
  assert (trim_text (trim_text (lit (if b then "true" else "false")%string)) = lit (if b then "true" else "false")%string) as -> by by destruct b; vm_compute.
  assert (toLowerCase (lit (if b then "true" else "false")%string) = lit (if b then "true" else "false")%string) as ->
    by (rewrite <- (bool_words b) at 2; f_equal; by destruct b; vm_compute).
  by destruct b.
Qed.

Lemma run_number f name o acc ws String_ : (forall op v acc, handle (clause_of name op v) acc =
    number_field Number f name (clause_of name op v) acc) ->
  (forall x, o = Some x -> number_ok Number String_ x) ->
  run (number_clause String_ name o) (acc, ws) = (put_field f (VNum <$> o) acc, ws).
Proof.
  intros H Hx. destruct o as [x|]; [|done]. apply run_one. rewrite H.
  destruct (Hx x eq_refl) as (Hf & Hw & Ht & Hn). unfold number_field, requireEquals, parseNumber.
  cbn [clause_of pc_operator pc_value]. rewrite bool_decide_true, !Ht, Hn, Hf by done.
  destruct (value_ends _ _ Hw) as (c & t' & E & _). by rewrite E.
Qed.

(** ** Lists *)

Lemma split_piece v : forall p r, 44 ∉ v -> split_units [44] 0 p (v ++ 44 :: r) = (p ++ v) :: split_units [44] 0 [] r.
Proof.
  induction v as [|c v IH]; intros p r Hv.
  - cbn. rewrite app_nil_r. by destruct r.
  - apply not_elem_of_cons in Hv as [Hc Hv]. cbn. rewrite (proj2 (Z.eqb_neq c 44)) by congruence. cbn.
    rewrite IH by done. by rewrite <- app_assoc.
Qed.

Lemma split_last v : forall p, 44 ∉ v -> split_units [44] 0 p v = [p ++ v].
Proof.
  induction v as [|c v IH]; intros p Hv; [by rewrite app_nil_r|].
  apply not_elem_of_cons in Hv as [Hc Hv]. cbn. rewrite (proj2 (Z.eqb_neq c 44)) by congruence. cbn.
  rewrite IH by done. by rewrite <- app_assoc.
Qed.

Lemma split_csv v l : Forall item_ok (v :: l) -> splitCsv (join_text (lit ",") (v :: l)) = v :: l.
Proof.
  intros H. unfold splitCsv. change (lit ",") with [44].
  assert (split_text [44] (join_text [44] (v :: l)) = v :: l) as ->.
  { unfold split_text. revert v H. induction l as [|v' l IH]; intros v [(_ & _ & Hv) H]%Forall_cons.
    - by apply split_last.
    - change (join_text [44] (v :: v' :: l)) with (v ++ 44 :: join_text [44] (v' :: l)). rewrite split_piece by done.
      by rewrite IH. }
  induction H as [|x xs ((Ht & _) & Hne & _) _ IH]; [done|]. cbn [List.map List.filter]. rewrite Ht, IH. by destruct x.
Qed.

Lemma skip_space_length a : (length (skip_space a) <= length a)%nat.
Proof. induction a as [|c a IH]; cbn; [lia|]. destruct (is_space c); cbn; lia. Qed.

Lemma item_tight v : item_ok v -> tight v.
Proof.
  intros ((Ht & _) & Hne & _). unfold trim_text in Ht.
  assert (solid v) as Hs.
  { destruct v as [|c v]; [done|]. cbn in *. destruct (is_space c) eqn:E; [|done]. exfalso.
    apply (f_equal (@length Z)) in Ht. rewrite length_rev in Ht. cbn in Ht.
    pose proof (skip_space_length (rev (skip_space v))). pose proof (skip_space_length v). rewrite length_rev in *. lia. }
  split; [done|]. assert (skip_space v = v) as E by (by rewrite skip_space_id; [|left]). rewrite E in Ht.
  destruct (rev v) as [|d r] eqn:Er; [exfalso; apply Hne; by rewrite <- (rev_involutive v), Er|].
  cbn. destruct (is_space d) eqn:Ed; [|done]. exfalso. cbn in Ht. rewrite Ed in Ht.
  apply (f_equal (@length Z)) in Ht. rewrite length_rev in Ht. apply (f_equal (@length Z)) in Er. rewrite length_rev in Er. cbn in Er.
  pose proof (skip_space_length r). lia.
Qed.

Lemma trim_join v l : Forall item_ok (v :: l) -> trim_text (join_text (lit ",") (v :: l)) = join_text (lit ",") (v :: l).
Proof.
  intros H. apply trim_tight_id. revert v H. induction l as [|v' l IH]; intros v [Hv H]%Forall_cons; [by apply item_tight|].
  change (join_text (lit ",") (v :: v' :: l)) with (v ++ [44] ++ join_text (lit ",") (v' :: l)).
  destruct (IH v' H) as [_ Hr]. destruct (item_tight v Hv) as [Hs _]. split; [by apply solid_app|by do 2 apply solid_end].
Qed.

Lemma run_environments contains l acc ws : list_ok l -> (contains = true -> length l = 1%nat) ->
  run (list_clause (lit "deployment.environment") contains l) (acc, ws) =
  (put_moded f_environments f_deploymentEnv (match l with [] => None | _ => Some (VTexts l, contains) end) acc, ws).
Proof.
  intros [Hl _] Hc. destruct l as [|v l]; [done|]. apply run_one. rewrite environment_step.
  unfold applyTracesDimension, dimensionPredicate. cbn [clause_of pc_operator pc_value]. rewrite trim_join by done.
  destruct contains; [|by rewrite split_csv].
  specialize (Hc eq_refl). destruct l as [|]; [|done]. cbn [join_text]. done.
Qed.

Lemma run_commits l acc ws : list_ok l ->
  run (list_clause (lit "vcs.ref.head.revision") false l) (acc, ws) = (put_field f_commitShas (texts_value l) acc, ws).
Proof.
  intros [Hl _]. destruct l as [|v l]; [done|]. apply run_one. rewrite commit_step.
  unfold applyTracesDimension, dimensionPredicate. cbn [clause_of pc_operator pc_value].
  by rewrite trim_join, split_csv.
Qed.

(** ** Exclusions *)

Lemma set_field_twice f v v' acc : set_field f v (set_field f v' acc) = set_field f v acc.
Proof.
  unfold set_field. cbn. f_equal. induction (fields acc) as [|[g w] m IH]; cbn; [by rewrite decide_True|].
  destruct (decide (f = g)) as [->|Hne]; cbn; [by rewrite decide_True|]. by rewrite decide_False, IH.
Qed.

Section Excluded.
Context (key : text) (f : Field) (ok : text -> Prop).
Hypothesis one : forall v acc, ok v ->
  handle (clause_of key op_ne v) acc = (set_field f (VTexts (texts_field f acc ++ [v])) acc, []).

Lemma texts_set l acc : texts_field f (set_field f (VTexts l) acc) = l.
Proof. unfold texts_field. cbn. by rewrite map_get_set_eq. Qed.

Lemma run_more l : forall t acc ws, Forall ok l ->
  run (excluded_clauses key l) (set_field f (VTexts t) acc, ws) = (set_field f (VTexts (t ++ l)) acc, ws).
Proof.
  induction l as [|v l IH]; intros t acc ws; [by rewrite app_nil_r|]. intros [Hv Hl]%Forall_cons.
  change (excluded_clauses key (v :: l)) with ([clause_of key op_ne v] ++ excluded_clauses key l). rewrite run_app.
  rewrite (run_one _ _ _ _ (one v _ Hv)), texts_set, set_field_twice, IH by done. by rewrite <- app_assoc.
Qed.

Lemma run_excluded l acc ws : get f acc = None -> Forall ok l ->
  run (excluded_clauses key l) (acc, ws) = (put_field f (texts_value l) acc, ws).
Proof using one.
  intros Hget Hl. destruct l as [|v l]; [done|]. apply Forall_cons in Hl as [Hv Hl].
  change (excluded_clauses key (v :: l)) with ([clause_of key op_ne v] ++ excluded_clauses key l). rewrite run_app.
  rewrite (run_one _ _ _ _ (one v _ Hv)). unfold texts_field. unfold get in Hget. rewrite Hget. by apply run_more.
Qed.
End Excluded.

Lemma exclude_service v acc : value_ok v -> handle (clause_of (lit "service.name") op_ne v) acc =
  (set_field f_excludedServiceNames (VTexts (texts_field f_excludedServiceNames acc ++ [v])) acc, []).
Proof.
  intros [Ht _]. rewrite service_step. unfold applyTracesDimension, dimensionPredicate.
  cbn [clause_of pc_operator pc_value]. by rewrite Ht.
Qed.

Lemma exclude_span v acc : value_ok v -> handle (clause_of (lit "span.name") op_ne v) acc =
  (set_field f_excludedSpanNames (VTexts (texts_field f_excludedSpanNames acc ++ [v])) acc, []).
Proof.
  intros [Ht _]. rewrite span_step. unfold applyTracesDimension, dimensionPredicate.
  cbn [clause_of pc_operator pc_value]. by rewrite Ht.
Qed.

Lemma csv_one v : item_ok v -> splitCsv (trim_text v) = [v].
Proof. intros Hv. destruct Hv as ((Ht & Hq) & Hne & Hc). rewrite Ht. by apply (split_csv v []); repeat constructor. Qed.

Lemma exclude_environment v acc : item_ok v -> handle (clause_of (lit "deployment.environment") op_ne v) acc =
  (set_field f_excludedEnvironments (VTexts (texts_field f_excludedEnvironments acc ++ [v])) acc, []).
Proof.
  intros Hv. rewrite environment_step. unfold applyTracesDimension, dimensionPredicate.
  cbn [clause_of pc_operator pc_value]. by rewrite csv_one.
Qed.

Lemma exclude_commit v acc : item_ok v -> handle (clause_of (lit "vcs.ref.head.revision") op_ne v) acc =
  (set_field f_excludedCommitShas (VTexts (texts_field f_excludedCommitShas acc ++ [v])) acc, []).
Proof.
  intros Hv. rewrite commit_step. unfold applyTracesDimension, dimensionPredicate.
  cbn [clause_of pc_operator pc_value]. by rewrite csv_one.
Qed.

(** ** Attribute filters *)

Definition prefix_of (resource : bool) : text := if resource then RESOURCE else ATTR.

Lemma prefix_cases resource : prefix_of resource = ATTR \/ prefix_of resource = RESOURCE.
Proof. destruct resource; [by right|by left]. Qed.

Lemma other_text p r w : starts_with w p = false -> p ++ r <> w.
Proof. intros H <-. apply not_true_iff_false in H. apply H, starts_with_spec. by eexists. Qed.

Lemma other_name p r w : starts_with w p = false -> bool_decide (p ++ r = w) = false.
Proof. intros H. by apply bool_decide_eq_false, other_text. Qed.

Lemma other_names p r ws : Forall (fun w => starts_with w p = false) ws -> bool_decide (p ++ r ∈ ws) = false.
Proof.
  intros H. apply bool_decide_eq_false. intros Hin. rewrite Forall_forall in H. by apply (other_text p r (p ++ r)); [apply H|].
Qed.

Lemma keep_prefixed p r : (p = lit "attr." \/ p = lit "resource.") -> trim_text (p ++ r) = p ++ r ->
  toLowerCase (p ++ r) = p ++ r -> normalizeKey toLowerCase (p ++ r) = p ++ r.
Proof.
  intros Hp Ht Hl. unfold normalizeKey. rewrite Ht, Hl.
  rewrite (other_names p r [lit "environment"; lit "env"; lit "deployment.environment.name"]),
    (other_names p r [lit "commit_sha"; lit "deployment.commit_sha"]) by (destruct Hp as [-> | ->]; by repeat constructor).
  rewrite (other_name p r (lit "service")) by by destruct Hp as [-> | ->].
  rewrite (other_name p r (lit "span")) by by destruct Hp as [-> | ->].
  rewrite (other_name p r (lit "root.only")) by by destruct Hp as [-> | ->].
  by rewrite (other_name p r (lit "errors_only")) by by destruct Hp as [-> | ->].
Qed.

Lemma normal_prefixed resource key : Forall (fun c => is_key_char c = true) key ->
  normalizeKey toLowerCase (List.map lower_ascii (prefix_of resource ++ lit "." ++ key)) =
  prefix_of resource ++ lit "." ++ List.map lower_ascii key.
Proof.
  intros Hk. assert (key_text (prefix_of resource ++ lit "." ++ key)) as [_ Hall]
    by (apply prefix_key; [apply prefix_cases|done]).
  pose proof (lowered_key _ Hall) as Hl.
  assert (Forall (fun c => is_key_char c = true) (List.map lower_ascii (prefix_of resource ++ lit "." ++ key))) as Hc.
  { rewrite Forall_map. eapply Forall_impl; [exact Hall|]. apply lower_key_char. }
  pose proof (trim_key _ Hc) as Ht. rewrite Ht in Hl. revert Ht Hl.
  assert (List.map lower_ascii (prefix_of resource ++ lit "." ++ key) =
          lit (if resource then "resource." else "attr.")%string ++ List.map lower_ascii key) as ->
    by (rewrite !List.map_app; by destruct resource).
  intros Ht Hl. rewrite keep_prefixed by (done || by destruct resource; [right|left]). by destruct resource.
Qed.

Lemma leaf_handled resource l acc : leaf_ok l ->
  handle (leaf_clause (prefix_of resource) l) acc =
  if (5 <=? length (attr_list resource acc))%nat then handle (leaf_clause (prefix_of resource) l) acc
  else (push_attr resource (plain_filter l) acc, []).
Proof.
  intros [Hk Hl]. destruct (5 <=? length (attr_list resource acc))%nat eqn:E; [done|].
  unfold applyTracesClause.
  assert (normalizeKey toLowerCase (pc_key (leaf_clause (prefix_of resource) l)) =
          prefix_of resource ++ lit "." ++ List.map lower_ascii (af_key l)) as -> by exact (normal_prefixed resource (af_key l) Hk).
  assert (prefixed_attr resource (leaf_clause (prefix_of resource) l) acc = (push_attr resource (plain_filter l) acc, [])) as Hp.
  { unfold prefixed_attr, add_attr. rewrite E. f_equal. f_equal.
    assert (typedKey (leaf_clause (prefix_of resource) l) (length (lit (if resource then "resource." else "attr.")%string)) =
            af_key l) as ->.
    { unfold typedKey, leaf_clause. cbn [clause_of pc_rawKey].
      rewrite trim_key by (apply prefix_key; [apply prefix_cases|done]). by destruct resource. }
    unfold makeAttrFilter, leaf_clause, leaf_op, plain_filter. cbn [clause_of pc_operator pc_value].
    destruct l as [key value mode negated]. cbn [af_key af_value af_mode af_negated] in *.
    destruct mode.
    all: repeat match goal with
      | H : exists _, _ |- _ => destruct H as (? & -> & ? & _)
      | H : _ /\ _ |- _ => destruct H
      end; try subst value; cbn [default from_option]; unfold id; try match goal with H : trim_text _ = _ |- _ => rewrite H end.
    all: first [by subst negated | by destruct negated | done]. }
  set (key := prefix_of resource ++ lit "." ++ List.map lower_ascii (af_key l)).
  assert (starts_with key (lit (if resource then "resource." else "attr.")%string) = true) as Hs
    by (apply starts_with_spec; exists (List.map lower_ascii (af_key l)); by destruct resource).
  destruct resource; rewrite Hs; [|exact Hp].
  assert (starts_with key (lit "attr.") = false) as -> by done. exact Hp.
Qed.

Lemma run_leaves resource ls : forall acc ws, Forall leaf_ok ls -> (length (attr_list resource acc) + length ls <= 5)%nat ->
  run (List.map (leaf_clause (prefix_of resource)) ls) (acc, ws) =
  (push_all resource (List.map plain_filter ls) acc, ws).
Proof.
  induction ls as [|l ls IH]; intros acc ws; [done|]. intros [Hl Hls]%Forall_cons Hlen. cbn [length] in Hlen.
  change (List.map (leaf_clause (prefix_of resource)) (l :: ls)) with
    ([leaf_clause (prefix_of resource) l] ++ List.map (leaf_clause (prefix_of resource)) ls). rewrite run_app.
  rewrite (run_one _ acc ws (push_attr resource (plain_filter l) acc)).
  - rewrite IH; [done|done|]. rewrite pushed_length. lia.
  - rewrite leaf_handled by done. destruct (Nat.leb_spec 5 (length (attr_list resource acc))); [lia|done].
Qed.

Lemma leaf_member resource l : leaf_ok l ->
  group_member handle nothing (leaf_clause (prefix_of resource) l) = Some (resource, plain_filter l).
Proof. intros Hl. unfold group_member. rewrite leaf_handled by done. by destruct resource. Qed.

Lemma run_groups resource gs : forall acc ws, Forall group_ok gs -> (length (attr_list resource acc) + length gs <= 5)%nat ->
  run_handlers (applyOrGroup handle nothing (lit "Traces")) (List.map (group_clauses (prefix_of resource)) gs) (acc, ws) =
  (push_all resource (List.map group_filter gs) acc, ws).
Proof.
  induction gs as [|g gs IH]; intros acc ws; [done|]. intros [(H1 & H2 & _) Hgs]%Forall_cons Hlen. cbn [length] in Hlen.
  change (List.map (group_clauses (prefix_of resource)) (g :: gs)) with
    ([group_clauses (prefix_of resource) g] ++ List.map (group_clauses (prefix_of resource)) gs). rewrite run_app.
  assert (mapM (group_member handle nothing) (group_clauses (prefix_of resource) g) =
          Some (List.map (fun l => (resource, plain_filter l)) (g.1 :: g.2))) as Em.
  { unfold group_clauses. assert (Forall leaf_ok (g.1 :: g.2)) as H by by constructor.
    clear -H lower_keys. induction H as [|l ls Hl _ IH]; [done|]. cbn [List.map mapM]. rewrite leaf_member by done.
    cbn [mbind option_bind]. by rewrite IH. }
  assert (applyOrGroup handle nothing (lit "Traces") (group_clauses (prefix_of resource) g) acc =
          (push_attr resource (group_filter g) acc, [])) as Eg.
  { unfold applyOrGroup. rewrite Em. cbn [List.map].
    assert (existsb (fun m => negb (eqb m.1 resource)) (List.map (fun l => (resource, plain_filter l)) g.2) = false) as ->.
    { clear. induction g.2 as [|l ls IH]; [done|]. cbn. by rewrite eqb_reflx. }
    destruct (Nat.leb_spec 5 (length (attr_list resource acc))); [lia|]. rewrite List.map_map.
    assert (List.map (fun x => af_first (resource, plain_filter x).2) g.2 = g.2) as -> by apply map_id. done. }
  cbn [run_handlers fold_left]. cbn [fst snd]. rewrite Eg, app_nil_r. fold (run_handlers (applyOrGroup handle nothing (lit "Traces"))).
  rewrite (IH (push_attr resource (group_filter g) acc) ws); [done|done|].
  rewrite pushed_length. lia.
Qed.
End Layers.
