(* ===== verification/QueryRoundTrip.v ===== *)
(** * Filters read back

    The filters of a traces specification, shown as a where clause and lowered
    again. *)

From Stdlib Require Import Ascii String.
From stdpp Require Import prelude list.
From Stdlib Require Import ZArith Lia.
From S2P Require Import Prelude.
From S2P Require Import JsNum.
From S2P Require Import JsString.
From S2P Require Import IngestSha256.
From S2P Require Import IngestRegex.
From S2P Require Import JsUnits.
From S2P Require Import QuerySeries.
From S2P Require Import QueryRunner.
From S2P Require Import WhereClause.
From S2P Require Import WhereReads.
From S2P Require Import WhereSplit.
From S2P Require Import QueryLower.
From S2P Require Import QueryBuild.
From S2P Require Import QueryRound.
From S2P Require Import QueryLayers.

Open Scope Z_scope.
Local Open Scope maple_scope.

Definition with_text (o : option (text * bool)) : option (FieldValue * bool) := (fun x => (VText x.1, x.2)) <$> o.

Definition with_environments (t : TracesFilter) : option (FieldValue * bool) :=
  match tf_envs t with [] => None | _ => Some (VTexts (tf_envs t), tf_envContains t) end.

Definition root_value (t : TracesFilter) : option FieldValue := if tf_root t then Some (VBool true) else None.

(** The three dimensions with a match mode. *)
Definition moded_fields (t : TracesFilter) : Accumulator :=
  put_moded f_environments f_deploymentEnv (with_environments t)
  (put_field f_errorsOnly (VBool <$> tf_error t)
  (put_field f_rootSpansOnly (root_value t)
  (put_moded f_spanName f_spanName (with_text (tf_span t))
  (put_moded f_serviceName f_serviceName (with_text (tf_service t)) nothing)))).

(** What the named clauses leave. *)
Definition named_fields (t : TracesFilter) : Accumulator :=
  put_field f_excludedCommitShas (texts_value (tf_notShas t))
  (put_field f_excludedEnvironments (texts_value (tf_notEnvs t))
  (put_field f_excludedSpanNames (texts_value (tf_notSpans t))
  (put_field f_excludedServiceNames (texts_value (tf_notServices t))
  (put_field f_maxDurationMs (VNum <$> tf_max t)
  (put_field f_minDurationMs (VNum <$> tf_min t)
  (put_field f_commitShas (texts_value (tf_shas t)) (moded_fields t))))))).

Ltac peel := repeat first [rewrite get_put_ne by done | rewrite get_moded_ne by done].

Lemma attrs_put resource f o acc : attr_list resource (put_field f o acc) = attr_list resource acc.
Proof. by destruct o, resource. Qed.

Lemma attrs_moded resource f m o acc : attr_list resource (put_moded f m o acc) = attr_list resource acc.
Proof.
  destruct o as [[v c]|]; [|done]. cbn [put_moded]. unfold withMatchMode. by destruct (_ ++ _), resource.
Qed.

Lemma named_attrs resource t : attr_list resource (named_fields t) = [].
Proof. unfold named_fields, moded_fields. rewrite !attrs_put, !attrs_moded, !attrs_put, !attrs_moded. by destruct resource. Qed.

(** The field of a specification, by name. *)
Lemma named_modes t : (tf_envContains t = true -> length (tf_envs t) = 1%nat) ->
  get f_matchModes (named_fields t) = tf_value t f_matchModes.
Proof.
  intros He. unfold named_fields. peel. unfold moded_fields.
  assert (get f_matchModes (put_moded f_serviceName f_serviceName (with_text (tf_service t)) nothing) =
          modes_value ([] ++ match with_text (tf_service t) with Some (_, true) => [f_serviceName] | _ => [] end)) as H1
    by (apply (get_moded_modes _ _ _ _ []); [done|apply not_elem_of_nil|done]).
  rewrite app_nil_l in H1. set (l1 := match with_text (tf_service t) with Some (_, true) => [f_serviceName] | _ => [] end) in *.
  assert (f_spanName ∉ l1) as N1 by (subst l1; destruct (with_text (tf_service t)) as [[? []]|]; by apply (bool_decide_unpack _)).
  apply (get_moded_modes f_spanName f_spanName (with_text (tf_span t)) _ _ ltac:(done) N1) in H1.
  set (l2 := l1 ++ _) in H1. assert (f_deploymentEnv ∉ l2) as N2.
  { subst l2 l1. destruct (with_text (tf_service t)) as [[? []]|], (with_text (tf_span t)) as [[? []]|];
      by apply (bool_decide_unpack _). }
  rewrite (get_moded_modes f_environments f_deploymentEnv _ _ l2 ltac:(done) N2) by by peel.
  subst l2 l1. unfold tf_value, tf_modes, with_environments, with_text.
  destruct (tf_envs t) as [|e es]; [destruct (tf_envContains t); [by specialize (He eq_refl)|]|];
    destruct (tf_service t) as [[? []]|], (tf_span t) as [[? []]|]; try done; by destruct (tf_envContains t).
Qed.

Lemma named_get t f : (tf_envContains t = true -> length (tf_envs t) = 1%nat) -> f ∈ TRACES_SPEC_FIELDS ->
  get f (named_fields t) = tf_value t f.
Proof.
  intros He Hf. unfold TRACES_SPEC_FIELDS in Hf. repeat (apply elem_of_cons in Hf as [-> | Hf]).
  9: by apply named_modes.
  all: try (by apply not_elem_of_nil in Hf); unfold named_fields, moded_fields; peel.
  all: rewrite ?get_put_eq, ?get_moded_eq by (done || by peel).
  all: unfold with_text, with_environments; cbn [tf_value].
  all: try done.
  - by destruct (tf_service t).
  - by destruct (tf_span t).
  - by destruct (tf_envs t).
Qed.

Section RoundTrip.
Context (toLowerCase : text -> text) (Number : text -> num) (String_ : num -> text).
Hypothesis lower_keys : forall k, Forall (fun c => is_key_char c = true) k -> toLowerCase k = List.map lower_ascii k.

Notation handle := (applyTracesClause toLowerCase Number).

Lemma run_seq {A} (h : A -> Accumulator -> Handled) l1 l2 s s1 s2 :
  run_handlers h l1 s = s1 -> run_handlers h l2 s1 = s2 -> run_handlers h (l1 ++ l2) s = s2.
Proof. intros H1 H2. by rewrite run_app, H1. Qed.

Lemma run_root t acc ws :
  run_handlers handle (if tf_root t then [flag_clause (lit "root_only") true] else []) (acc, ws) =
  (put_field f_rootSpansOnly (root_value t) acc, ws).
Proof.
  unfold root_value. destruct (tf_root t); [|done].
  apply (run_flag _ _ lower_keys f_rootSpansOnly (lit "root_only") true). apply root_step, lower_keys.
Qed.

Lemma run_error t acc ws :
  run_handlers handle match tf_error t with Some b => [flag_clause (lit "has_error") b] | None => [] end (acc, ws) =
  (put_field f_errorsOnly (VBool <$> tf_error t) acc, ws).
Proof.
  destruct (tf_error t) as [b|]; [|done].
  apply (run_flag _ _ lower_keys f_errorsOnly (lit "has_error") b). apply error_step, lower_keys.
Qed.

Lemma run_named t ws : filter_ok Number String_ t ->
  run_handlers handle (named_clauses String_ t) (nothing, ws) = (named_fields t, ws).
Proof.
  intros (Hs & Hp & He & Hec & Hh & Hmin & Hmax & Hns & Hnp & Hne & Hnh & _).
  unfold named_clauses, named_fields, moded_fields.
  eapply run_seq; [apply (run_service _ _ lower_keys); intros v c E; by destruct (Hs v c E) as [[? _] _]|].
  eapply run_seq; [apply (run_span _ _ lower_keys); intros v c E; by destruct (Hp v c E) as [[? _] _]|].
  eapply run_seq; [apply run_root|]. eapply run_seq; [apply run_error|].
  eapply run_seq; [by apply (run_environments _ _ lower_keys)|]. eapply run_seq; [by apply (run_commits _ _ lower_keys)|].
  eapply run_seq; [apply (run_number _ _ f_minDurationMs); [apply min_step, lower_keys|exact Hmin]|].
  eapply run_seq; [apply (run_number _ _ f_maxDurationMs); [apply max_step, lower_keys|exact Hmax]|].
  eapply run_seq; [apply (run_excluded _ _ _ f_excludedServiceNames value_ok (exclude_service _ _ lower_keys)); [by peel|done]|].
  eapply run_seq; [apply (run_excluded _ _ _ f_excludedSpanNames value_ok (exclude_span _ _ lower_keys)); [by peel|done]|].
  eapply run_seq; [apply (run_excluded _ _ _ f_excludedEnvironments item_ok (exclude_environment _ _ lower_keys)); [by peel|done]|].
  apply (run_excluded _ _ _ f_excludedCommitShas item_ok (exclude_commit _ _ lower_keys)); [by peel|done].
Qed.
(** ** Attributes *)

Lemma items_clauses t : omap item_clause (filter_items String_ t) =
  named_clauses String_ t ++ List.map (leaf_clause ATTR) (tf_attrs t) ++ List.map (leaf_clause RESOURCE) (tf_resources t).
Proof.
  assert (forall {A} (f : A -> ParsedClause) l, omap item_clause (List.map (One ∘ f) l) = List.map f l) as H1
    by (intros A f l; induction l as [|x l IH]; [done|]; cbn in *; by rewrite IH).
  assert (forall {A} (f : A -> list ParsedClause) l, omap item_clause (List.map (Any ∘ f) l) = []) as H2
    by (intros A f l; induction l as [|x l IH]; [done|]; cbn in *; by rewrite IH).
  unfold filter_items. rewrite !omap_app, !H1, !H2, app_nil_r. f_equal.
  rewrite (H1 _ (fun c => c)). apply map_id.
Qed.

Lemma items_groups t : omap item_group (filter_items String_ t) =
  List.map (group_clauses ATTR) (tf_attrGroups t) ++ List.map (group_clauses RESOURCE) (tf_resourceGroups t).
Proof.
  assert (forall {A} (f : A -> ParsedClause) l, omap item_group (List.map (One ∘ f) l) = []) as H1
    by (intros A f l; induction l as [|x l IH]; [done|]; cbn in *; by rewrite IH).
  assert (forall {A} (f : A -> list ParsedClause) l, omap item_group (List.map (Any ∘ f) l) = List.map f l) as H2
    by (intros A f l; induction l as [|x l IH]; [done|]; cbn in *; by rewrite IH).
  unfold filter_items. rewrite !omap_app, !H1, !H2. by rewrite (H1 _ (fun c => c)).
Qed.

(** The filters of a draft that shows [t]. *)
Definition lowered_filters (t : TracesFilter) : Accumulator :=
  push_all true (List.map group_filter (tf_resourceGroups t))
  (push_all false (List.map group_filter (tf_attrGroups t))
  (push_all true (List.map plain_filter (tf_resources t))
  (push_all false (List.map plain_filter (tf_attrs t)) (named_fields t)))).

Lemma push_attrs resource resource' l acc : attr_list resource (push_all resource' l acc) =
  attr_list resource acc ++ (if eqb resource resource' then l else []).
Proof.
  destruct (push_all_facts resource' l acc) as (_ & E1 & E2).
  destruct resource, resource'; cbn in *; by rewrite ?E1, ?E2.
Qed.

Lemma lowered_lists resource t : attr_list resource (lowered_filters t) =
  if resource then all_attrs (tf_resources t) (tf_resourceGroups t) else all_attrs (tf_attrs t) (tf_attrGroups t).
Proof. unfold lowered_filters. rewrite !push_attrs, named_attrs. destruct resource; cbn; by rewrite ?app_nil_r. Qed.

Lemma lowered_fields t : fields (lowered_filters t) = fields (named_fields t).
Proof. unfold lowered_filters. by rewrite !(proj1 (push_all_facts _ _ _)). Qed.

Lemma run_items t ws : filter_ok Number String_ t ->
  run_handlers (applyOrGroup handle nothing (lit "Traces")) (omap item_group (filter_items String_ t))
    (run_handlers handle (omap item_clause (filter_items String_ t)) (nothing, ws)) = (lowered_filters t, ws).
Proof.
  intros H. pose proof (run_named t ws H) as Hn.
  destruct H as (_ & _ & _ & _ & _ & _ & _ & _ & _ & _ & _ & Ha & Hag & Hr & Hrg & Hla & Hlr).
  rewrite items_clauses, items_groups. unfold lowered_filters.
  assert (forall r, attr_list r (push_all true (List.map plain_filter (tf_resources t))
    (push_all false (List.map plain_filter (tf_attrs t)) (named_fields t))) =
    List.map plain_filter (if r then tf_resources t else tf_attrs t)) as Hlists
    by (intros r; rewrite !push_attrs, named_attrs; by destruct r; cbn; rewrite ?app_nil_r).
  erewrite (run_seq handle (named_clauses String_ t)); [|exact Hn|].
  2: { eapply run_seq; [apply (run_leaves _ _ lower_keys false); [done|rewrite named_attrs; cbn; lia]|].
       apply (run_leaves _ _ lower_keys true); [done|]. rewrite push_attrs, named_attrs. cbn. lia. }
  eapply run_seq.
  - apply (run_groups _ _ lower_keys false); [done|]. rewrite (Hlists false), length_map. lia.
  - apply (run_groups _ _ lower_keys true); [done|]. rewrite push_attrs, (Hlists true). cbn [eqb].
    rewrite app_nil_r, length_map. lia.
Qed.

(** ** The specification *)

Lemma kept_field t f : filter_ok Number String_ t -> f ∈ TRACES_SPEC_FIELDS ->
  traces_field (lowered_filters t) f = (fun v => (f, v)) <$> tf_value t f.
Proof.
  intros (Hs & Hp & _ & He & _) Hf. unfold traces_field. rewrite lowered_fields.
  change (map_get f (fields (named_fields t))) with (get f (named_fields t)). rewrite named_get by done.
  unfold TRACES_SPEC_FIELDS in Hf. repeat (apply elem_of_cons in Hf as [-> | Hf]); cbn [tf_value].
  - destruct (tf_service t) as [[v c]|] eqn:E; [|done]. destruct (Hs v c eq_refl) as [_ Hne]. by destruct v.
  - destruct (tf_span t) as [[v c]|] eqn:E; [|done]. destruct (Hp v c eq_refl) as [_ Hne]. by destruct v.
  - by destruct (tf_root t).
  - by destruct (tf_error t) as [[]|].
  - by destruct (tf_envs t).
  - by destruct (tf_shas t).
  - by destruct (tf_min t).
  - by destruct (tf_max t).
  - by destruct (tf_modes t).
  - by destruct (tf_notServices t).
  - by destruct (tf_notSpans t).
  - by destruct (tf_notEnvs t).
  - by destruct (tf_notShas t).
  - done.
  - by apply not_elem_of_nil in Hf.
Qed.

Lemma kept_fields t L : filter_ok Number String_ t -> L ⊆ TRACES_SPEC_FIELDS ->
  omap (traces_field (lowered_filters t)) L = flat_map (fun f => entry f (tf_value t f)) L.
Proof.
  intros Ht. induction L as [|f L IH]; intros HL; [done|].
  change (omap (traces_field (lowered_filters t)) (f :: L)) with
    (match traces_field (lowered_filters t) f with
     | Some e => e :: omap (traces_field (lowered_filters t)) L
     | None => omap (traces_field (lowered_filters t)) L
     end).
  rewrite kept_field by (done || apply HL; by left). cbn [flat_map].
  rewrite <- IH by (intros g Hg; apply HL; by right). by destruct (tf_value t f).
Qed.

(** The specification built from the filters of a draft. *)
Lemma built_filters t : filter_ok Number String_ t -> buildTracesSpecFilters (lowered_filters t) = or_undefined (spec_of t).
Proof.
  intros Ht. unfold buildTracesSpecFilters, spec_of. rewrite kept_fields by done. rewrite flat_map_app. f_equal. f_equal.
  unfold attr_fields. change (attributeFilters (lowered_filters t)) with (attr_list false (lowered_filters t)).
  change (resourceAttributeFilters (lowered_filters t)) with (attr_list true (lowered_filters t)).
  rewrite !lowered_lists. cbn [flat_map tf_value]. by destruct (all_attrs (tf_attrs t) _), (all_attrs (tf_resources t) _).
Qed.

Lemma filter_parsed t : filter_ok Number String_ t ->
  parseWhereClause (formatFiltersAsWhereClause String_ (Some (spec_of t))) true =
  {| clauses := omap item_clause (filter_items String_ t); groups := omap item_group (filter_items String_ t);
     warnings := [] |}.
Proof.
  intros Ht. pose proof (filter_text_written Number String_ t Ht) as Hw.
  unfold formatFiltersAsWhereClause. cbn [default from_option]. unfold id.
  destruct (filter_clauses String_ (spec_of t)) as [|x xs] eqn:E.
  - apply Forall2_length in Hw as Hl. by destruct (filter_items String_ t).
  - rewrite (filter_parts (filter_items String_ t) (x :: xs)), (read_items true (filter_items String_ t)); [done|done|].
    split; [done|]. exists [], (join_text (lit " AND ") (x :: xs)), []. split_and!; [constructor|constructor| |by rewrite app_nil_r].
    apply join_joined.
Qed.

Lemma traces_draft query : qd_dataSource query = lit "traces" -> qd_stepInterval query = None -> qd_seriesLimit query = None ->
  buildTimeseriesQuerySpec toLowerCase Number query =
  let where_ := parseWhereClause (default [] (qd_whereClause query)) true in
  build_traces toLowerCase Number query where_ None None (List.map pw_message (warnings where_)).
Proof.
  intros H1 H2 H3. unfold buildTimeseriesQuerySpec. rewrite H1, H2, H3.
  assert (lowers_groups (lit "traces") = true) as -> by by vm_compute.
  rewrite (bool_decide_true (lit "traces" = lit "traces")) by done.
  assert (parseBucketSeconds toLowerCase (default [] None) = None) as ->
    by (unfold parseBucketSeconds; change (trim_text (default [] None)) with (@nil Z); by rewrite (lower_keys []) by constructor).
  cbv zeta. change (trim_text (default [] None)) with (@nil Z).
  assert (parse_int [] = None) as -> by done. cbn [not_empty andb mbind option_bind].
  by rewrite !app_nil_r.
Qed.

Lemma traces_lowered query where_ acc : qd_aggregation query ∈ ALLOWED_AGGREGATIONS (lit "traces") ->
  qd_valueField query = None -> qd_addOns query = None ->
  lower_where (applyTracesClause toLowerCase Number) nothing (lit "Traces") where_ [] = (acc, []) ->
  build_traces toLowerCase Number query where_ None None [] =
  timeseries_spec (lit "traces") (qd_aggregation query) [] (buildTracesSpecFilters acc) None None [].
Proof.
  intros H1 H2 H3 H4. unfold build_traces. rewrite H2, (bool_decide_true _ H1), H4.
  change (trim_text (default [] None)) with (@nil Z). cbn [not_empty andb negb]. unfold resolve_group_by. rewrite H3.
  cbn [fst snd]. rewrite (bool_decide_false (lit "attribute" ∈ [])) by apply not_elem_of_nil. done.
Qed.

(** C10: a draft of a traces query whose where clause shows the filters of a
    specification ([formatFiltersAsWhereClause]) is built into a specification
    with exactly these filters, each dimension with its match mode, every
    exclusion, every attribute filter and every group, and without a warning.
    The filters are those a clause can hold ([filter_ok]): values have white
    space at neither end and not both kinds of quotes; the service and span
    names are not empty; the items of a list are not empty, have no comma, and
    together not both kinds of quotes; a list of environments matched by
    [contains] has one item; the durations print and read back; attribute keys
    are made of key characters; only equality, [contains] and [exists] are
    negated; each scope has at most five attribute filters, plain ones before
    groups. The draft has an aggregation that traces allow, and no value field,
    add-ons, step interval or series limit. *)
Theorem shown_filters_read_back query t (Hsource : qd_dataSource query = lit "traces") (Ht : filter_ok Number String_ t)
    (Hwhere : qd_whereClause query = Some (formatFiltersAsWhereClause String_ (Some (spec_of t))))
    (Hmetric : qd_aggregation query ∈ ALLOWED_AGGREGATIONS (lit "traces")) (Hvalue : qd_valueField query = None)
    (Hgroup : qd_addOns query = None) (Hstep : qd_stepInterval query = None) (Hlimit : qd_seriesLimit query = None) :
  buildTimeseriesQuerySpec toLowerCase Number query =
  timeseries_spec (lit "traces") (qd_aggregation query) [] (or_undefined (spec_of t)) None None [].
Proof.
  rewrite traces_draft by done. rewrite Hwhere. cbn [default from_option]. unfold id. rewrite filter_parsed by done.
  cbv zeta. rewrite (traces_lowered _ _ (lowered_filters t)); [by rewrite built_filters|done..|].
  unfold lower_where. by apply run_items.
Qed.
End RoundTrip.

(** A filter of every kind. *)
Definition shown_example : TracesFilter := {|
  tf_service := Some (lit "checkout api", true); tf_span := None; tf_root := true; tf_error := Some false;
  tf_envs := [lit "prod"; lit "it's"]; tf_envContains := false; tf_shas := []; tf_min := Some (num_of_Z 250); tf_max := None;
  tf_notServices := [lit "a AND b"]; tf_notSpans := []; tf_notEnvs := []; tf_notShas := [];
  tf_attrs := [{| af_key := lit "http.Status"; af_value := Some (lit "500"); af_mode := mode_gte; af_negated := false |}];
  tf_attrGroups :=
    [({| af_key := lit "tier"; af_value := Some (lit "gold"); af_mode := mode_equals; af_negated := true |},
      [{| af_key := lit "vip"; af_value := None; af_mode := mode_exists; af_negated := false |}])];
  tf_resources := []; tf_resourceGroups := [] |}.

Definition shown_draft : QueryDraft := {|
  qd_id := lit "q"; qd_name := lit "A"; qd_enabled := None; qd_hidden := None; qd_dataSource := lit "traces";
  qd_whereClause := Some (formatFiltersAsWhereClause (fun _ => lit "250") (Some (spec_of shown_example)));
  qd_aggregation := lit "count"; qd_stepInterval := None; qd_orderByDirection := None; qd_addOns := None;
  qd_groupBy := None; qd_having := None; qd_orderBy := None; qd_limit := None; qd_seriesLimit := None; qd_legend := None;
  qd_valueField := None; qd_signalSource := None; qd_metricName := None; qd_metricType := None; qd_isMonotonic := None |}.

Lemma plain_value v : bool_decide (trim_text v = v /\ 34 ∉ v) = true -> value_ok v.
Proof. intros [H1 H2]%bool_decide_eq_true. split; [done|by intros [? _]]. Qed.

Lemma plain_item v : bool_decide (trim_text v = v /\ 34 ∉ v) && bool_decide (v <> [] /\ 44 ∉ v) = true -> item_ok v.
Proof. intros [H1 H2%bool_decide_eq_true]%andb_true_iff. split; [by apply plain_value|done]. Qed.

Lemma shown_example_ok : filter_ok numeral (fun _ => lit "250") shown_example.
Proof.
  assert (value_ok (lit "checkout api") /\ lit "checkout api" <> []) as Hs
    by (split; [apply plain_value; by vm_compute|by apply (bool_decide_unpack _)]).
  assert (number_ok numeral (fun _ => lit "250") (num_of_Z 250)) as Hn.
  { split_and!; try by vm_compute. apply value_bare; [by apply (bool_decide_unpack _)| |by intros ?|by intros ?|by apply (bool_decide_unpack _)].
    by repeat constructor. }
  split_and!; try (by constructor); try (intros; discriminate).
  - by intros v c [= <- <-].
  - split; [repeat constructor; apply plain_item; by vm_compute|]. intros [H _]. by apply (bool_decide_unpack (34 ∉ _)) in H.
  - split; [constructor|by intros [H%elem_of_nil _]].
  - by intros x [= <-].
  - repeat constructor; apply plain_value; by vm_compute.
  - apply Forall_singleton. split; [by apply key_chars|]. split; [done|]. eexists. split; [done|]. apply plain_value. by vm_compute.
  - apply Forall_singleton. split_and!; [|apply Forall_singleton|done].
    + split; [by apply key_chars|]. eexists. split; [done|]. apply plain_value. by vm_compute.
    + split; [by apply key_chars|done].
  - by vm_compute; lia.
  - by vm_compute; lia.
Qed.

Lemma shown_filters_read_back_witness :
  buildTimeseriesQuerySpec (List.map lower_ascii) numeral shown_draft =
  timeseries_spec (lit "traces") (lit "count") [] (Some (spec_of shown_example)) None None [].
Proof.
  refine (shown_filters_read_back (List.map lower_ascii) numeral (fun _ => lit "250") (fun k _ => eq_refl) shown_draft
    shown_example eq_refl shown_example_ok eq_refl _ eq_refl eq_refl eq_refl eq_refl).
  by apply (bool_decide_unpack _).
Defined.
