(* ===== verification/StatusPage.v ===== *)
(** * Status pages

    packages/domain/src/status-page.ts: the snapshot a publisher writes and the
    status worker serves, the status of its components, the overlay of updates
    posted while the publisher is down, the bars of uptime and freshness.

    Times are whole milliseconds. The incidents of a snapshot are different
    objects, so the one that is identical to a given element is its first
    occurrence. *)

From Stdlib Require Import Ascii String.
From stdpp Require Import prelude list strings.
From Stdlib Require Import ZArith Lia.
From S2P Require Import Prelude.
From S2P Require Import JsNum.
From S2P Require Import JsString.
From S2P Require Import EventTime.
From S2P Require Import WarehouseTime.

Open Scope Z_scope.
Local Open Scope maple_scope.

(** ** Vocabulary *)

Inductive component_status := operational | st_maintenance | degraded | partial_outage | major_outage.

Inductive incident_kind := k_incident | k_maintenance.

Inductive incident_status := investigating | identified | monitoring | resolved | scheduled | in_progress | completed.

Inductive incident_impact := i_none | i_minor | i_major | i_critical.

Inductive update_source := from_dashboard | from_api | from_mcp | from_auto | break_glass.

Inductive monitor_status := m_pending | m_up | m_down | m_paused.

Inductive day_state := d_none | d_ok | d_degraded | d_down.

#[export] Instance component_status_eq_dec : EqDecision component_status.
Proof. solve_decision. Defined.
#[export] Instance incident_kind_eq_dec : EqDecision incident_kind.
Proof. solve_decision. Defined.
#[export] Instance incident_status_eq_dec : EqDecision incident_status.
Proof. solve_decision. Defined.
#[export] Instance incident_impact_eq_dec : EqDecision incident_impact.
Proof. solve_decision. Defined.
#[export] Instance update_source_eq_dec : EqDecision update_source.
Proof. solve_decision. Defined.

Definition STATUS_PAGE_HISTORY_DAYS : Z := 365.
Definition STATUS_PAGE_WINDOW_DAYS : Z := 90.
Definition STATUS_PAGE_INCIDENT_HISTORY_DAYS : Z := 14.
Definition STATUS_PAGE_STALE_AFTER_MS : Z := 5 * 60000.
Definition STATUS_PAGE_OVERLAY_MAX_ENTRIES : nat := 50.
Definition DAY_MS : Z := 86400000.

(** ** The snapshot *)

Record StatusPageDayBar := { db_day : string; db_checks : Z; db_failures : Z; db_downChecks : Z }.

Record StatusPageSnapshotComponent := {
  sc_id : string;
  sc_name : string;
  sc_description : option string;
  sc_group : option string;
  sc_status : component_status;
  sc_baseStatus : component_status;
  sc_showUptime : bool;
  sc_monitored : bool;
  sc_days : list StatusPageDayBar;
}.

Record StatusPageSnapshotUpdate := {
  su_id : string;
  su_status : incident_status;
  su_body : string;
  su_at : Z;
  su_source : update_source;
  su_overlayEntryId : option string;
}.

Record StatusPageSnapshotIncident := {
  si_id : string;
  si_kind : incident_kind;
  si_title : string;
  si_impact : incident_impact;
  si_status : incident_status;
  si_startedAt : Z;
  si_resolvedAt : option Z;
  si_scheduledStart : option Z;
  si_scheduledEnd : option Z;
  si_componentIds : list string;
  si_openedByOverlayEntryId : option string;
  si_updates : list StatusPageSnapshotUpdate;
}.

Record StatusPageIncidentHistoryEntry := {
  he_id : string;
  he_title : string;
  he_kind : incident_kind;
  he_impact : incident_impact;
  he_startedAt : Z;
  he_resolvedAt : option Z;
}.

(** The choices of a theme: literals and hex colours. *)
Record StatusPageTheme := {
  th_preset : string;
  th_appearance : string;
  th_accent : option string;
  th_background : option string;
  th_text : option string;
  th_card : option string;
  th_border : option string;
  th_radius : string;
  th_font : string;
}.

(** What a page looks like: name, links and theme. *)
Record StatusPageSnapshotPage := {
  sp_name : string;
  sp_slug : string;
  sp_description : option string;
  sp_websiteUrl : option string;
  sp_logoUrl : option string;
  sp_privacyUrl : option string;
  sp_termsUrl : option string;
  sp_theme : StatusPageTheme;
  sp_showPoweredBy : bool;
}.

Record StatusPageSnapshot := {
  sn_pageId : string;
  sn_revision : Z;
  sn_generatedAt : Z;
  sn_page : StatusPageSnapshotPage;
  sn_breakGlassTokenSha256 : option string;
  sn_components : list StatusPageSnapshotComponent;
  sn_incidents : list StatusPageSnapshotIncident;
  sn_incidentHistory : list StatusPageIncidentHistoryEntry;
}.

Record StatusPagePublisherHeartbeat := { hb_at : Z; hb_probesSeenAt : option Z }.

Record StatusPageOverlayEntry := {
  oe_id : string;
  oe_at : Z;
  oe_incidentId : option string;
  oe_title : option string;
  oe_status : option incident_status;
  oe_impact : option incident_impact;
  oe_body : string;
  oe_componentIds : list string;
}.

(** ** Component status *)

Definition STATUS_RANK (s : component_status) : Z :=
  match s with operational => 0 | st_maintenance => 1 | degraded => 2 | partial_outage => 3 | major_outage => 4 end.

Definition worse (worst status : component_status) : component_status :=
  if STATUS_RANK worst <? STATUS_RANK status then status else worst.

Definition worstStatus (statuses : list component_status) : component_status := fold_left worse statuses operational.

Definition IMPACT_STATUS (i : incident_impact) : component_status :=
  match i with i_none => operational | i_minor => degraded | i_major => partial_outage | i_critical => major_outage end.

Definition isActive (kind : incident_kind) (status : incident_status) : bool :=
  match kind with
  | k_incident => negb (bool_decide (status = resolved))
  | k_maintenance => bool_decide (status = in_progress)
  end.

Definition isActiveIncident (i : StatusPageSnapshotIncident) : bool := isActive (si_kind i) (si_status i).

Definition isListedIncident (published : bool) (kind : incident_kind) (status : incident_status)
    (scheduledEnd resolvedAt : option Z) (nowMs : Z) : bool :=
  if negb published then false
  else if isActive kind status then true
  else if bool_decide (kind = k_maintenance) && bool_decide (status = scheduled) then
    match scheduledEnd with Some end_ => nowMs <? end_ | None => false end
  else
    match resolvedAt with
    | Some at_ => nowMs - STATUS_PAGE_INCIDENT_HISTORY_DAYS * DAY_MS <=? at_
    | None => false
    end.

Definition incidentComponentStatus (kind : incident_kind) (impact : incident_impact) : component_status :=
  match kind with k_maintenance => st_maintenance | k_incident => IMPACT_STATUS impact end.

Definition deriveComponentStatus (monitorStatus : option monitor_status) (manualStatus : option component_status)
    (incidentStatuses : list component_status) : component_status :=
  worstStatus ((match monitorStatus with Some m_down => major_outage | _ => operational end) ::
               default operational manualStatus :: incidentStatuses).

(** The statuses of the active incidents that name a component. *)
Definition statuses_on (incidents : list StatusPageSnapshotIncident) (component : string) : list component_status :=
  List.map (fun i => incidentComponentStatus (si_kind i) (si_impact i))
    (List.filter (fun i => bool_decide (component ∈ si_componentIds i)) (List.filter isActiveIncident incidents)).

Definition with_status (s : component_status) (c : StatusPageSnapshotComponent) : StatusPageSnapshotComponent :=
  {| sc_id := sc_id c; sc_name := sc_name c; sc_description := sc_description c; sc_group := sc_group c;
     sc_status := s; sc_baseStatus := sc_baseStatus c; sc_showUptime := sc_showUptime c;
     sc_monitored := sc_monitored c; sc_days := sc_days c |}.

Definition withIncidentImpact (components : list StatusPageSnapshotComponent)
    (incidents : list StatusPageSnapshotIncident) : list StatusPageSnapshotComponent :=
  List.map (fun c => with_status (worstStatus (sc_baseStatus c :: statuses_on incidents (sc_id c))) c) components.

Definition overallStatus (s : StatusPageSnapshot) : component_status := worstStatus (List.map sc_status (sn_components s)).

(** ** The overlay *)

Definition statusFitsKind (kind : incident_kind) (status : incident_status) : bool :=
  match kind with
  | k_incident => bool_decide (status ∈ [investigating; identified; monitoring; resolved])
  | k_maintenance => bool_decide (status ∈ [scheduled; in_progress; completed])
  end.

Definition overlayIncidentId (entryId : string) : string := "bg-" ++ entryId.

Definition isResolvedStatus (status : incident_status) : bool :=
  bool_decide (status = resolved) || bool_decide (status = completed).

(** The entries the updates of some incidents carry. *)
Definition entry_ids (incidents : list StatusPageSnapshotIncident) : list string :=
  flat_map (fun i => omap su_overlayEntryId (si_updates i)) incidents.

Definition importedEntryIds (s : StatusPageSnapshot) : list string := entry_ids (sn_incidents s).

Definition matchesTarget (targetId : string) (i : StatusPageSnapshotIncident) : bool :=
  bool_decide (si_id i = targetId) ||
  match si_openedByOverlayEntryId i with Some e => bool_decide (overlayIncidentId e = targetId) | None => false end.

(** The status an entry asks for, when it is one of the kind. *)
Definition entry_status (kind : incident_kind) (current : incident_status) (e : StatusPageOverlayEntry) : incident_status :=
  match oe_status e with Some s => if statusFitsKind kind s then s else current | None => current end.

Definition entry_update (status : incident_status) (e : StatusPageOverlayEntry) : StatusPageSnapshotUpdate :=
  {| su_id := oe_id e; su_status := status; su_body := oe_body e; su_at := oe_at e; su_source := break_glass;
     su_overlayEntryId := Some (oe_id e) |}.

Definition overlay_open (targetId : string) (e : StatusPageOverlayEntry) : StatusPageSnapshotIncident :=
  let status := entry_status k_incident investigating e in
  {| si_id := targetId; si_kind := k_incident; si_title := default "Service disruption"%string (oe_title e);
     si_impact := default i_major (oe_impact e); si_status := status; si_startedAt := oe_at e;
     si_resolvedAt := if isResolvedStatus status then Some (oe_at e) else None;
     si_scheduledStart := None; si_scheduledEnd := None; si_componentIds := oe_componentIds e;
     si_openedByOverlayEntryId := Some (oe_id e); si_updates := [entry_update status e] |}.

Definition overlay_update (e : StatusPageOverlayEntry) (i : StatusPageSnapshotIncident) : StatusPageSnapshotIncident :=
  let status := entry_status (si_kind i) (si_status i) e in
  {| si_id := si_id i; si_kind := si_kind i; si_title := default (si_title i) (oe_title e);
     si_impact := default (si_impact i) (oe_impact e); si_status := status; si_startedAt := si_startedAt i;
     si_resolvedAt := if isResolvedStatus status then Some (default (oe_at e) (si_resolvedAt i)) else None;
     si_scheduledStart := si_scheduledStart i; si_scheduledEnd := si_scheduledEnd i;
     si_componentIds := match oe_componentIds e with [] => si_componentIds i | ids => ids end;
     si_openedByOverlayEntryId := si_openedByOverlayEntryId i;
     si_updates := entry_update status e :: si_updates i |}.

(** The first incident that matches, updated. *)
Fixpoint update_first (p : StatusPageSnapshotIncident -> bool)
    (f : StatusPageSnapshotIncident -> StatusPageSnapshotIncident) (l : list StatusPageSnapshotIncident) :
    list StatusPageSnapshotIncident :=
  match l with [] => [] | i :: l' => if p i then f i :: l' else i :: update_first p f l' end.

Definition overlay_step (l : list StatusPageSnapshotIncident) (e : StatusPageOverlayEntry) :
    list StatusPageSnapshotIncident :=
  let targetId := default (overlayIncidentId (oe_id e)) (oe_incidentId e) in
  if existsb (matchesTarget targetId) l then update_first (matchesTarget targetId) (overlay_update e) l
  else overlay_open targetId e :: l.

Definition by_time (a b : StatusPageOverlayEntry) : Z := oe_at a - oe_at b.

(** The entries a snapshot does not carry yet, oldest first. *)
Definition pending_entries (s : StatusPageSnapshot) (overlay : list StatusPageOverlayEntry) : list StatusPageOverlayEntry :=
  js_sort by_time (List.filter (fun e => negb (bool_decide (oe_id e ∈ importedEntryIds s))) overlay).

Definition with_incidents (s : StatusPageSnapshot) (incidents : list StatusPageSnapshotIncident) : StatusPageSnapshot :=
  {| sn_pageId := sn_pageId s; sn_revision := sn_revision s; sn_generatedAt := sn_generatedAt s; sn_page := sn_page s;
     sn_breakGlassTokenSha256 := sn_breakGlassTokenSha256 s;
     sn_components := withIncidentImpact (sn_components s) incidents; sn_incidents := incidents;
     sn_incidentHistory := sn_incidentHistory s |}.

Definition applyOverlay (s : StatusPageSnapshot) (overlay : list StatusPageOverlayEntry) : StatusPageSnapshot :=
  match pending_entries s overlay with
  | [] => s
  | entries => with_incidents s (fold_left overlay_step entries (sn_incidents s))
  end.

(** ** Bars *)

Definition dayState (bar : StatusPageDayBar) : day_state :=
  if db_checks bar =? 0 then d_none
  else if 0 <? db_downChecks bar then d_down
  else if 0 <? db_failures bar then d_degraded
  else d_ok.

Definition total (f : StatusPageDayBar -> Z) (days : list StatusPageDayBar) : Z := fold_left (fun sum d => sum + f d) days 0.

Definition uptimePercent (days : list StatusPageDayBar) : option num :=
  let checks := total db_checks days in
  if checks =? 0 then None
  else Some (num_mul (num_div (num_of_Z (checks - total db_downChecks days)) (num_of_Z checks)) (num_of_Z 100)).

Definition utcDay (ms : Z) : string := String.substring 0 10 (toISOString ms).

Definition lastDays (nowMs : Z) (count : nat) : list string :=
  List.map (fun index => utcDay (nowMs - (Z.of_nat count - 1 - Z.of_nat index) * DAY_MS)) (seq 0 count).

Definition empty_bar (day : string) : StatusPageDayBar :=
  {| db_day := day; db_checks := 0; db_failures := 0; db_downChecks := 0 |}.

Definition fillDays (days : list string) (rows : list StatusPageDayBar) : list StatusPageDayBar :=
  let byDay := map_of (List.map (fun row => (db_day row, row)) rows) in
  List.map (fun day => default (empty_bar day) (map_get day byDay)) days.

(** ** Freshness *)

Inductive StatusPageFreshness := live (updatedAt : Z) | delayed (updatedAt : Z).

Definition pageFreshness (s : StatusPageSnapshot) (heartbeat : option StatusPagePublisherHeartbeat) (nowMs : Z) :
    StatusPageFreshness :=
  let publisherAt := Z.max (sn_generatedAt s) (match heartbeat with Some h => hb_at h | None => 0 end) in
  let monitored := existsb sc_monitored (sn_components s) in
  let judge updatedAt := if STATUS_PAGE_STALE_AFTER_MS <? nowMs - updatedAt then delayed updatedAt else live updatedAt in
  match monitored, h ← heartbeat; hb_probesSeenAt h with
  | true, None => delayed publisherAt
  | true, Some probes => judge (Z.min publisherAt probes)
  | false, _ => judge publisherAt
  end.
