(* ===== verification/StatusImport.v ===== *)
(** * Status pages: publishing and importing

    The rows of one page (packages/db/src/tables/status-pages.ts) as lists, the
    snapshot built from them (StatusPageSnapshotBuilder.ts, [toSnapshot]) and the
    import of break-glass entries into them (StatusPageReconciler.ts). An insert
    that conflicts with a unique key inserts nothing, and a transaction that
    fails leaves the rows as they were.

    The order of two identifiers ([localeCompare]) and the test for a UUID are
    arguments; so are the identifiers a random source gives. *)

From Stdlib Require Import Ascii String.
From stdpp Require Import prelude list strings.
From Stdlib Require Import ZArith Lia.
From S2P Require Import Prelude.
From S2P Require Import JsString.
From S2P Require Import StatusPage.

Open Scope Z_scope.
Local Open Scope maple_scope.

(** ** Rows *)

Record SnapshotPageInput := {
  pi_id : string;
  pi_page : StatusPageSnapshotPage;
  pi_breakGlassTokenSha256 : option string;
  pi_revision : Z;
}.

Record SnapshotComponentInput := {
  ci_id : string;
  ci_name : string;
  ci_description : option string;
  ci_groupName : option string;
  ci_monitorId : option string;
  ci_manualStatus : option component_status;
  ci_showUptime : bool;
  ci_monitorStatus : option monitor_status;
}.

(** A daily row: its monitor and its bar. *)
Record SnapshotDailyInput := { di_monitorId : string; di_bar : StatusPageDayBar }.

Record SnapshotIncidentInput := {
  ri_id : string;
  ri_kind : incident_kind;
  ri_title : string;
  ri_impact : incident_impact;
  ri_status : incident_status;
  ri_published : bool;
  ri_startedAt : Z;
  ri_resolvedAt : option Z;
  ri_scheduledStart : option Z;
  ri_scheduledEnd : option Z;
}.

Record SnapshotUpdateInput := {
  ru_id : string;
  ru_incidentId : string;
  ru_status : incident_status;
  ru_body : string;
  ru_source : update_source;
  ru_overlayEntryId : option string;
  ru_createdAt : Z;
}.

Record SnapshotInput := {
  in_page : SnapshotPageInput;
  in_components : list SnapshotComponentInput;
  in_daily : list SnapshotDailyInput;
  in_incidents : list SnapshotIncidentInput;
  in_updates : list SnapshotUpdateInput;
  in_incidentComponents : list (string * string);
  in_nowMs : Z;
}.

(** ** The snapshot *)

Definition isIndexedIncident (i : SnapshotIncidentInput) (nowMs : Z) : bool :=
  ri_published i && negb (bool_decide (ri_kind i = k_maintenance) && bool_decide (ri_status i = scheduled)) &&
  (nowMs - STATUS_PAGE_HISTORY_DAYS * DAY_MS <=? default nowMs (ri_resolvedAt i)).

Definition listed_at (nowMs : Z) (i : SnapshotIncidentInput) : bool :=
  isListedIncident (ri_published i) (ri_kind i) (ri_status i) (ri_scheduledEnd i) (ri_resolvedAt i) nowMs.

(** An imported update keeps the id visitors saw. *)
Definition snapshot_update (u : SnapshotUpdateInput) : StatusPageSnapshotUpdate :=
  {| su_id := default (ru_id u) (ru_overlayEntryId u); su_status := ru_status u; su_body := ru_body u;
     su_at := ru_createdAt u; su_source := ru_source u; su_overlayEntryId := ru_overlayEntryId u |}.

Definition newest_start (a b : SnapshotIncidentInput) : Z := ri_startedAt b - ri_startedAt a.

(** The entry the oldest update came from. *)
Definition opened_by (updates : list SnapshotUpdateInput) : option string :=
  match last updates with
  | Some u => if bool_decide (ru_source u = break_glass) then ru_overlayEntryId u else None
  | None => None
  end.

Section Build.
Context (localeCompare : string -> string -> Z).

(** Newest first; the ids of two at the same time decide. *)
Definition newest_update (a b : SnapshotUpdateInput) : Z :=
  if ru_createdAt b - ru_createdAt a =? 0 then localeCompare (ru_id b) (ru_id a) else ru_createdAt b - ru_createdAt a.

Definition snapshot_incident (updates : list SnapshotUpdateInput) (links : list (string * string))
    (i : SnapshotIncidentInput) : StatusPageSnapshotIncident :=
  let own := js_sort newest_update (List.filter (fun u => bool_decide (ru_incidentId u = ri_id i)) updates) in
  {| si_id := ri_id i; si_kind := ri_kind i; si_title := ri_title i; si_impact := ri_impact i; si_status := ri_status i;
     si_startedAt := ri_startedAt i; si_resolvedAt := ri_resolvedAt i; si_scheduledStart := ri_scheduledStart i;
     si_scheduledEnd := ri_scheduledEnd i;
     si_componentIds := List.map snd (List.filter (fun l => bool_decide (l.1 = ri_id i)) links);
     si_openedByOverlayEntryId := opened_by own; si_updates := List.map snapshot_update own |}.

Definition history_entry (i : SnapshotIncidentInput) : StatusPageIncidentHistoryEntry :=
  {| he_id := ri_id i; he_title := ri_title i; he_kind := ri_kind i; he_impact := ri_impact i;
     he_startedAt := ri_startedAt i; he_resolvedAt := ri_resolvedAt i |}.

Definition component_days (days : list string) (daily : list SnapshotDailyInput) (c : SnapshotComponentInput) :
    list StatusPageDayBar :=
  match ci_monitorId c with
  | Some m =>
      if ci_showUptime c then
        fillDays days (List.map di_bar (List.filter (fun row => bool_decide (di_monitorId row = m)) daily))
      else []
  | None => []
  end.

Definition snapshot_component (days : list string) (daily : list SnapshotDailyInput)
    (incidents : list StatusPageSnapshotIncident) (c : SnapshotComponentInput) : StatusPageSnapshotComponent :=
  {| sc_id := ci_id c; sc_name := ci_name c; sc_description := ci_description c; sc_group := ci_groupName c;
     sc_status := deriveComponentStatus (ci_monitorStatus c) (ci_manualStatus c) (statuses_on incidents (ci_id c));
     sc_baseStatus := deriveComponentStatus (ci_monitorStatus c) (ci_manualStatus c) [];
     sc_showUptime := ci_showUptime c; sc_monitored := bool_decide (is_Some (ci_monitorId c));
     sc_days := component_days days daily c |}.

Definition toSnapshot (input : SnapshotInput) : StatusPageSnapshot :=
  let days := lastDays (in_nowMs input) (Z.to_nat STATUS_PAGE_HISTORY_DAYS) in
  let firstDay := default EmptyString (head days) in
  let daily := List.filter (fun row => 0 <=? string_compare (db_day (di_bar row)) firstDay) (in_daily input) in
  let incidents :=
    List.map (snapshot_incident (in_updates input) (in_incidentComponents input))
      (js_sort newest_start (List.filter (listed_at (in_nowMs input)) (in_incidents input))) in
  {| sn_pageId := pi_id (in_page input); sn_revision := pi_revision (in_page input); sn_generatedAt := in_nowMs input;
     sn_page := pi_page (in_page input); sn_breakGlassTokenSha256 := pi_breakGlassTokenSha256 (in_page input);
     sn_components := List.map (snapshot_component days daily incidents) (in_components input);
     sn_incidents := incidents;
     sn_incidentHistory :=
       List.map history_entry
         (js_sort newest_start (List.filter (fun i => isIndexedIncident i (in_nowMs input)) (in_incidents input))) |}.
End Build.

(** ** The import *)

(** The rows an import writes, and the revision of the page. *)
Record PageRows := {
  pr_incidents : list SnapshotIncidentInput;
  pr_updates : list SnapshotUpdateInput;
  pr_links : list (string * string);
  pr_revision : Z;
}.

Definition OVERLAY_INCIDENT_PREFIX : string := "bg-".

(** The identifiers drawn for one entry: of an incident, and of an update. *)
Record Drawn := { dr_incident : string; dr_update : string }.

Section Importing.
Context (isIncidentId : string -> bool).

(** [text.slice(prefix.length)] of a text that starts with [prefix]. *)
Definition after_prefix (prefix a : string) : option string :=
  if String.prefix prefix a then Some (String.substring (String.length prefix) (String.length a) a) else None.

Definition by_id (rows : PageRows) (id : string) : option SnapshotIncidentInput :=
  List.find (fun i => bool_decide (ri_id i = id)) (pr_incidents rows).

Definition findTarget (rows : PageRows) (e : StatusPageOverlayEntry) : option SnapshotIncidentInput :=
  match oe_incidentId e with
  | None => None
  | Some target =>
      match after_prefix OVERLAY_INCIDENT_PREFIX target with
      | Some opening =>
          u ← List.find (fun u => bool_decide (ru_overlayEntryId u = Some opening)) (pr_updates rows);
          by_id rows (ru_incidentId u)
      | None => if isIncidentId target then by_id rows target else None
      end
  end.

Definition linkComponents (scope : list string) (incidentId : string) (requested : list string)
    (links : list (string * string)) : list (string * string) :=
  links ++ List.filter (fun l => negb (bool_decide (l ∈ links)))
    (List.map (fun c => (incidentId, c)) (List.filter (fun c => bool_decide (c ∈ requested)) scope)).

(** The row of an incident after an entry. *)
Definition import_update (e : StatusPageOverlayEntry) (i : SnapshotIncidentInput) : SnapshotIncidentInput :=
  let status := entry_status (ri_kind i) (ri_status i) e in
  {| ri_id := ri_id i; ri_kind := ri_kind i; ri_title := default (ri_title i) (oe_title e);
     ri_impact := default (ri_impact i) (oe_impact e); ri_status := status; ri_published := ri_published i;
     ri_startedAt := ri_startedAt i;
     ri_resolvedAt := if isResolvedStatus status then Some (default (oe_at e) (ri_resolvedAt i)) else None;
     ri_scheduledStart := ri_scheduledStart i; ri_scheduledEnd := ri_scheduledEnd i |}.

(** The row an entry without a target opens. *)
Definition import_open (id : string) (e : StatusPageOverlayEntry) : SnapshotIncidentInput :=
  let status := entry_status k_incident investigating e in
  {| ri_id := id; ri_kind := k_incident; ri_title := default "Service disruption"%string (oe_title e);
     ri_impact := default i_major (oe_impact e); ri_status := status; ri_published := true; ri_startedAt := oe_at e;
     ri_resolvedAt := if isResolvedStatus status then Some (oe_at e) else None; ri_scheduledStart := None;
     ri_scheduledEnd := None |}.

(** [applyToIncident]: the incident rows, the incident and its status. *)
Definition applyToIncident (rows : PageRows) (drawn : Drawn) (e : StatusPageOverlayEntry) :
    list SnapshotIncidentInput * string * incident_status :=
  match findTarget rows e with
  | Some existing =>
      let next := import_update e existing in
      (List.map (fun i => if bool_decide (ri_id i = ri_id existing) then import_update e existing else i) (pr_incidents rows),
       ri_id existing, ri_status next)
  | None =>
      let opened := import_open (dr_incident drawn) e in
      (pr_incidents rows ++ [opened], dr_incident drawn, ri_status opened)
  end.

Definition import_row (drawn : Drawn) (incidentId : string) (status : incident_status) (e : StatusPageOverlayEntry) :
    SnapshotUpdateInput :=
  {| ru_id := dr_update drawn; ru_incidentId := incidentId; ru_status := status; ru_body := oe_body e;
     ru_source := break_glass; ru_overlayEntryId := Some (oe_id e); ru_createdAt := oe_at e |}.

(** Whether an update of the entry is there already. *)
Definition claimed (rows : PageRows) (e : StatusPageOverlayEntry) : bool :=
  existsb (fun u => bool_decide (ru_overlayEntryId u = Some (oe_id e))) (pr_updates rows).

(** One transaction; [false] when the entry was imported before. *)
Definition importEntry (scope : list string) (drawn : Drawn) (e : StatusPageOverlayEntry) (rows : PageRows) :
    bool * PageRows :=
  let '(incidents, incidentId, status) := applyToIncident rows drawn e in
  let links := linkComponents scope incidentId (oe_componentIds e) (pr_links rows) in
  if claimed rows e then (false, rows)
  else
    (true, {| pr_incidents := incidents; pr_updates := pr_updates rows ++ [import_row drawn incidentId status e];
              pr_links := links; pr_revision := pr_revision rows + 1 |}).

(** The entries of the keys of a page, oldest first; a key names its entry. *)
Definition trusted_entries (entryIds : list string) (read : string -> option StatusPageOverlayEntry) :
    list StatusPageOverlayEntry :=
  js_sort by_time (List.filter (fun e => bool_decide (oe_id e ∈ entryIds)) (omap read entryIds)).

(** The entries not imported when a run starts, in order. *)
Definition import_all (scope : list string) (entries : list (StatusPageOverlayEntry * Drawn)) (rows : PageRows) :
    list bool * PageRows :=
  fold_left (fun s e => let '(ok, next) := importEntry scope e.2 e.1 s.2 in (s.1 ++ [ok], next)) entries ([], rows).

(** The entries whose keys a run deletes: a snapshot at or past the revision
    read, and after the update, was published. *)
Definition carried (rows : PageRows) (entries : list StatusPageOverlayEntry) (publishedRevision : Z)
    (publishedAt : option Z) : list string :=
  match publishedAt with
  | Some at_ =>
      if pr_revision rows <=? publishedRevision then
        omap (fun u =>
          match ru_overlayEntryId u with
          | Some id => if bool_decide (id ∈ List.map oe_id entries) && (ru_createdAt u <? at_) then Some id else None
          | None => None
          end) (pr_updates rows)
      else []
  | None => []
  end.

Record ReconcileResult := { rr_imported : Z; rr_cleared : list string; rr_rows : PageRows }.

Definition reconcileEntries (scope : list string) (draw : nat -> Drawn) (publishedRevision : Z) (publishedAt : option Z)
    (entryIds : list string) (read : string -> option StatusPageOverlayEntry) (rows : PageRows) : ReconcileResult :=
  let entries := trusted_entries entryIds read in
  let pending := List.filter (fun e => negb (claimed rows e)) entries in
  let '(outcomes, next) := import_all scope (imap (fun index e => (e, draw index)) pending) rows in
  {| rr_imported := Z.of_nat (length (List.filter id outcomes));
     rr_cleared := carried rows entries publishedRevision publishedAt; rr_rows := next |}.
End Importing.
