(* ===== verification/StatusOverlay.v ===== *)
(** * Status pages: the overlay

    The overlay is applied once, in the order of time, and leaves every
    component with the worst of its own status and the active incidents on it. *)

From Stdlib Require Import Ascii String.
From stdpp Require Import prelude list strings sorting.
From Stdlib Require Import ZArith Lia Sorting.Permutation Sorting.Sorted.
From S2P Require Import Prelude.
From S2P Require Import JsString.
From S2P Require Import StatusPage.
From S2P Require Import StatusImport.

Open Scope Z_scope.
Local Open Scope maple_scope.

(** ** Ranks *)

Lemma worse_rank a b : STATUS_RANK (worse a b) = Z.max (STATUS_RANK a) (STATUS_RANK b).
Proof. unfold worse. destruct (Z.ltb_spec (STATUS_RANK a) (STATUS_RANK b)); lia. Qed.

Lemma rank_inj a b : STATUS_RANK a = STATUS_RANK b -> a = b.
Proof. by destruct a, b. Qed.

Lemma worst_from l : forall s, STATUS_RANK s <= STATUS_RANK (fold_left worse l s) /\
  (forall x, x ∈ l -> STATUS_RANK x <= STATUS_RANK (fold_left worse l s)) /\ fold_left worse l s ∈ s :: l.
Proof.
  induction l as [|y l IH]; intros s; cbn [fold_left].
  - split_and!; [lia|by intros x ?%elem_of_nil|by left].
  - destruct (IH (worse s y)) as (H1 & H2 & H3). pose proof (worse_rank s y) as Hw. split_and!; [lia| |].
    + intros x [->|Hx]%elem_of_cons; [lia|by apply H2].
    + apply elem_of_cons in H3 as [E|H3]; [|by do 2 right]. rewrite E. unfold worse.
      destruct (_ <? _); [right; by left|by left].
Qed.

(** The worst status: a bound of all of them, and one of them or the best. *)
Lemma worst_bound l x : x ∈ l -> STATUS_RANK x <= STATUS_RANK (worstStatus l).
Proof. intros H. by apply (worst_from l operational). Qed.

Lemma worst_member l : worstStatus l = operational \/ worstStatus l ∈ l.
Proof. destruct (worst_from l operational) as (_ & _ & [H|H]%elem_of_cons); [by left|by right]. Qed.

Lemma worst_unique l s : (forall x, x ∈ l -> STATUS_RANK x <= STATUS_RANK s) -> (s = operational \/ s ∈ l) -> worstStatus l = s.
Proof.
  intros Hb Hs. apply rank_inj. apply Z.le_antisymm.
  - destruct (worst_member l) as [->|H]; [by destruct s|by apply Hb].
  - destruct Hs as [->|H]; [by destruct (worstStatus l)|by apply worst_bound].
Qed.

Lemma worst_app l1 l2 : worstStatus (l1 ++ l2) = worstStatus (worstStatus l1 :: l2).
Proof.
  apply worst_unique.
  - intros x [Hx|Hx]%elem_of_app.
    + pose proof (worst_bound l1 x Hx). pose proof (worst_bound (worstStatus l1 :: l2) (worstStatus l1) ltac:(by left)). lia.
    + apply worst_bound. by right.
  - destruct (worst_member (worstStatus l1 :: l2)) as [H|[H|H]%elem_of_cons]; [by left| |right; rewrite elem_of_app; by right].
    rewrite H. destruct (worst_member l1) as [H'|H']; [by left|right; rewrite elem_of_app; by left].
Qed.

(** ** Applied once *)

Lemma elem_of_entry_ids id l : id ∈ entry_ids l <-> exists i u, i ∈ l /\ u ∈ si_updates i /\ su_overlayEntryId u = Some id.
Proof.
  unfold entry_ids. rewrite list_elem_of_In, in_flat_map. split.
  - intros (i & Hi & Hu). apply list_elem_of_In in Hi, Hu. apply list_elem_of_omap in Hu as (u & Hu & E). eauto.
  - intros (i & u & Hi & Hu & E). exists i. split; [by apply list_elem_of_In|].
    apply list_elem_of_In, list_elem_of_omap. eauto.
Qed.

Lemma update_first_spec p f l : existsb p l = true ->
  exists l1 i l2, l = l1 ++ i :: l2 /\ p i = true /\ existsb p l1 = false /\ update_first p f l = l1 ++ f i :: l2.
Proof.
  induction l as [|i l IH]; [done|]. cbn. destruct (p i) eqn:E; cbn; [intros _; by exists [], i, l|].
  intros (l1 & j & l2 & -> & Hj & Hn & ->)%IH. exists (i :: l1), j, l2. split_and!; [done|done|cbn; by rewrite E|done].
Qed.

(** What a step does: an incident is opened, or the first one that matches is updated. *)
Lemma overlay_step_spec l e :
  (exists t, overlay_step l e = overlay_open t e :: l) \/
  (exists l1 i l2, l = l1 ++ i :: l2 /\ overlay_step l e = l1 ++ overlay_update e i :: l2).
Proof.
  unfold overlay_step. set (t := default _ _). destruct (existsb (matchesTarget t) l) eqn:E; [|by left; exists t].
  right. destruct (update_first_spec (matchesTarget t) (overlay_update e) l E) as (l1 & i & l2 & -> & _ & _ & ->). by exists l1, i, l2.
Qed.

Lemma step_keeps_ids l e id : id ∈ entry_ids l -> id ∈ entry_ids (overlay_step l e).
Proof.
  rewrite !elem_of_entry_ids. intros (i & u & Hi & Hu & E).
  destruct (overlay_step_spec l e) as [(t & ->)|(l1 & j & l2 & -> & ->)]; [exists i, u; split; [by right|done]|].
  apply elem_of_app in Hi as [Hi|[->|Hi]%elem_of_cons].
  - exists i, u. split; [rewrite elem_of_app; by left|done].
  - exists (overlay_update e j), u. split; [rewrite elem_of_app; right; by left|]. split; [by right|done].
  - exists i, u. split; [rewrite elem_of_app; right; by right|done].
Qed.

Lemma step_adds_id l e : oe_id e ∈ entry_ids (overlay_step l e).
Proof.
  apply elem_of_entry_ids. destruct (overlay_step_spec l e) as [(t & ->)|(l1 & j & l2 & -> & ->)].
  - eexists _, _. split; [by left|]. split; [by left|done].
  - eexists _, _. split; [rewrite elem_of_app; right; by left|]. split; [by left|done].
Qed.

Lemma steps_ids es : forall l id, id ∈ entry_ids l \/ (exists e, e ∈ es /\ oe_id e = id) -> id ∈ entry_ids (fold_left overlay_step es l).
Proof.
  induction es as [|e es IH]; intros l id; cbn [fold_left]; [by intros [?|(? & ?%elem_of_nil & _)]|].
  intros [H|(x & [->|Hx]%elem_of_cons & <-)]; apply IH; [left; by apply step_keeps_ids|left; apply step_adds_id|right; eauto].
Qed.

Lemma elem_of_pending e s overlay : e ∈ pending_entries s overlay <-> e ∈ overlay /\ oe_id e ∉ importedEntryIds s.
Proof.
  unfold pending_entries. rewrite elem_of_js_sort, list_elem_of_In, filter_In, <- list_elem_of_In, negb_true_iff.
  by rewrite bool_decide_eq_false.
Qed.

Lemma no_pending s overlay : (forall e, e ∈ overlay -> oe_id e ∈ importedEntryIds s) -> pending_entries s overlay = [].
Proof.
  intros H. destruct (pending_entries s overlay) as [|e l] eqn:E; [done|].
  assert (e ∈ pending_entries s overlay) as [He Hn]%elem_of_pending by (rewrite E; by left). by apply H in He.
Qed.

(** What an overlay shows carries its entries. *)
Lemma applied_ids s overlay e : e ∈ overlay -> oe_id e ∈ importedEntryIds (applyOverlay s overlay).
Proof.
  intros He. unfold applyOverlay. destruct (decide (oe_id e ∈ importedEntryIds s)) as [Hi|Hi].
  - destruct (pending_entries s overlay) as [|x es]; [done|]. apply steps_ids. by left.
  - assert (e ∈ pending_entries s overlay) as Hp by by apply elem_of_pending.
    destruct (pending_entries s overlay) as [|x es]; [by apply elem_of_nil in Hp|]. apply steps_ids. right. eauto.
Qed.

(** Entries are applied once: a snapshot that shows an overlay is not
    changed by the same overlay, nor by any part of it, as the update of each
    entry carries its id. *)
Theorem overlay_applied_once s overlay part (H : part ⊆ overlay) :
  applyOverlay (applyOverlay s overlay) part = applyOverlay s overlay.
Proof. unfold applyOverlay at 1. rewrite no_pending; [done|]. intros e He%H. by apply applied_ids. Qed.

(** ** In the order of time *)

#[export] Instance by_time_comparator : Comparator by_time := key_comparator oe_at.

Lemma list_filter_perm {A} (p : A -> bool) (l l' : list A) : Permutation l l' -> Permutation (List.filter p l) (List.filter p l').
Proof.
  induction 1 as [|x l l' _ IH|x y l|l1 l2 l3 _ IH1 _ IH2]; cbn; [done| | |by transitivity (List.filter p l2)].
  - destruct (p x); [by constructor|done].
  - destruct (p x), (p y); try done. apply perm_swap.
Qed.

(** The keys of an overlay are listed in any order; what visitors see
    depends on the times of its entries only. *)
Theorem overlay_order_irrelevant s overlay listed (Hp : Permutation overlay listed)
    (Ht : forall a b, a ∈ overlay -> b ∈ overlay -> oe_at a = oe_at b -> a = b) :
  applyOverlay s listed = applyOverlay s overlay.
Proof.
  unfold applyOverlay. assert (pending_entries s listed = pending_entries s overlay) as ->; [|done].
  apply (StronglySorted_unique_strong (fun a b => by_time a b <= 0)).
  - intros a b [Ha _]%elem_of_pending [Hb _]%elem_of_pending H1 H2. unfold by_time in *.
    apply Ht; [by rewrite Hp|done|lia].
  - apply (js_sort_sorted by_time).
  - apply (js_sort_sorted by_time).
  - unfold pending_entries. rewrite !js_sort_perm. by apply list_filter_perm.
Qed.

(** ** Statuses *)

Lemma statuses_on_elem incidents c x : x ∈ statuses_on incidents c <->
  exists i, i ∈ incidents /\ isActiveIncident i = true /\ c ∈ si_componentIds i /\
            x = incidentComponentStatus (si_kind i) (si_impact i).
Proof.
  unfold statuses_on. rewrite list_elem_of_In, in_map_iff. split.
  - intros (i & <- & [[Hi%list_elem_of_In Ha]%filter_In Hc%bool_decide_eq_true]%filter_In). by exists i.
  - intros (i & Hi & Ha & Hc & ->). exists i. split; [done|]. apply filter_In. split; [|by apply bool_decide_eq_true].
    apply filter_In. split; [by apply list_elem_of_In|done].
Qed.

(** A snapshot whose components have the statuses of its incidents. *)
Definition consistent (s : StatusPageSnapshot) : Prop := sn_components s = withIncidentImpact (sn_components s) (sn_incidents s).

Lemma impact_twice components l1 l2 : withIncidentImpact (withIncidentImpact components l1) l2 = withIncidentImpact components l2.
Proof. unfold withIncidentImpact. rewrite List.map_map. by apply map_ext. Qed.

Lemma applied_consistent s overlay : consistent s -> consistent (applyOverlay s overlay).
Proof.
  intros H. unfold applyOverlay. destruct (pending_entries s overlay) as [|e es]; [done|].
  unfold consistent. cbn [with_incidents sn_components sn_incidents]. by rewrite impact_twice.
Qed.

Lemma built_status m manual l :
  deriveComponentStatus m manual l = worstStatus (deriveComponentStatus m manual [] :: l).
Proof. unfold deriveComponentStatus. set (a := match m with Some m_down => _ | _ => _ end). apply (worst_app [a; default operational manual] l). Qed.

Lemma built_consistent lc input : consistent (toSnapshot lc input).
Proof.
  unfold consistent, withIncidentImpact. cbn [toSnapshot sn_components sn_incidents]. rewrite List.map_map.
  apply map_ext. intros c. unfold with_status, snapshot_component.
  cbn [sc_id sc_name sc_description sc_group sc_status sc_baseStatus sc_showUptime sc_monitored sc_days].
  by rewrite <- built_status.
Qed.

(** C16: no outage is hidden and none is made up. On a page as visitors see it
    (the published rows with the overlay of break-glass updates), an active
    incident or maintenance makes every component it names at least as bad as it
    is, the status of a component is its own or that of an active incident that
    names it, and the banner is at least as bad as every component. *)
Theorem visible_status_exact lc input overlay c (Hc : c ∈ sn_components (applyOverlay (toSnapshot lc input) overlay)) :
  let view := applyOverlay (toSnapshot lc input) overlay in
  (forall i, i ∈ sn_incidents view -> isActiveIncident i = true -> sc_id c ∈ si_componentIds i ->
     STATUS_RANK (incidentComponentStatus (si_kind i) (si_impact i)) <= STATUS_RANK (sc_status c)) /\
  STATUS_RANK (sc_baseStatus c) <= STATUS_RANK (sc_status c) <= STATUS_RANK (overallStatus view) /\
  (sc_status c = sc_baseStatus c \/
   exists i, i ∈ sn_incidents view /\ isActiveIncident i = true /\ sc_id c ∈ si_componentIds i /\
             sc_status c = incidentComponentStatus (si_kind i) (si_impact i)).
Proof.
  cbv zeta. set (view := applyOverlay _ _) in *.
  assert (STATUS_RANK (sc_status c) <= STATUS_RANK (overallStatus view)) as Hall.
  { apply worst_bound, list_elem_of_In, in_map, list_elem_of_In, Hc. }
  assert (consistent view) as Hv by (apply applied_consistent, built_consistent). rewrite Hv in Hc.
  unfold withIncidentImpact in Hc. apply list_elem_of_In, in_map_iff in Hc as (c' & <- & _).
  cbn [with_status sc_id sc_status sc_baseStatus] in *. set (l := statuses_on _ _) in *.
  split_and!; [|apply worst_bound; by left|done|].
  - intros i Hi Ha Hn. apply worst_bound. right. apply statuses_on_elem. eauto.
  - destruct (worst_member (sc_baseStatus c' :: l)) as [E|[E|E]%elem_of_cons]; [|by left|].
    + left. pose proof (worst_bound (sc_baseStatus c' :: l) (sc_baseStatus c') ltac:(by left)) as Hb. rewrite E in Hb |- *.
      by destruct (sc_baseStatus c').
    + right. apply statuses_on_elem in E as (i & ? & ? & ? & ?). by exists i.
Qed.

(** ** Lifecycles *)

(** An incident with a status of its kind, resolved exactly when it has a time
    of resolution. *)
Definition coherent (i : StatusPageSnapshotIncident) : Prop :=
  statusFitsKind (si_kind i) (si_status i) = true /\
  (isResolvedStatus (si_status i) = true <-> is_Some (si_resolvedAt i)).

Lemma entry_status_fits kind current e :
  statusFitsKind kind current = true -> statusFitsKind kind (entry_status kind current e) = true.
Proof. intros H. unfold entry_status. destruct (oe_status e) as [s|]; [|done]. by destruct (statusFitsKind kind s) eqn:E. Qed.

Lemma step_coherent l e : Forall coherent l -> Forall coherent (overlay_step l e).
Proof.
  intros H. destruct (overlay_step_spec l e) as [(t & ->)|(l1 & i & l2 & -> & ->)].
  - constructor; [|done]. split; [by apply (entry_status_fits k_incident investigating)|].
    cbn [overlay_open si_status si_resolvedAt]. destruct (isResolvedStatus _); [by split|]. by split; [|intros [? ?]].
  - apply Forall_app in H as [H1 [[Hi _] H2]%Forall_cons]. apply Forall_app. split; [done|]. constructor; [|done].
    split; [by apply entry_status_fits|]. cbn [overlay_update si_status si_resolvedAt].
    destruct (isResolvedStatus _); [by split|]. by split; [|intros [? ?]].
Qed.

Lemma steps_coherent es : forall l, Forall coherent l -> Forall coherent (fold_left overlay_step es l).
Proof. induction es as [|e es IH]; intros l H; [done|]. by apply IH, step_coherent. Qed.

(** C31: the overlay keeps the lifecycles apart: whatever the entries say, an
    incident never takes a status of maintenance or the reverse, and has a time
    of resolution exactly while it is resolved or completed. *)
Theorem overlay_keeps_lifecycles s overlay (H : Forall coherent (sn_incidents s)) :
  Forall coherent (sn_incidents (applyOverlay s overlay)).
Proof. unfold applyOverlay. destruct (pending_entries s overlay) as [|e es]; [done|]. by apply steps_coherent. Qed.

(** ** A page *)

Definition row_of (id : string) (impact : incident_impact) (status : incident_status) (startedAt : Z) : SnapshotIncidentInput :=
  {| ri_id := id; ri_kind := k_incident; ri_title := "API is down"; ri_impact := impact; ri_status := status;
     ri_published := true; ri_startedAt := startedAt; ri_resolvedAt := None; ri_scheduledStart := None;
     ri_scheduledEnd := None |}.

Definition update_of (id incident : string) (at_ : Z) : SnapshotUpdateInput :=
  {| ru_id := id; ru_incidentId := incident; ru_status := investigating; ru_body := "Checks fail."; ru_source := from_auto;
     ru_overlayEntryId := None; ru_createdAt := at_ |}.

Definition plain_component (id : string) : SnapshotComponentInput :=
  {| ci_id := id; ci_name := id; ci_description := None; ci_groupName := None; ci_monitorId := None; ci_manualStatus := None;
     ci_showUptime := false; ci_monitorStatus := None |}.

Definition page_look : StatusPageSnapshotPage :=
  {| sp_name := "Acme"; sp_slug := "acme"; sp_description := None; sp_websiteUrl := None; sp_logoUrl := None;
     sp_privacyUrl := None; sp_termsUrl := None; sp_showPoweredBy := true;
     sp_theme := {| th_preset := "default"; th_appearance := "auto"; th_accent := None; th_background := None; th_text := None;
                    th_card := None; th_border := None; th_radius := "md"; th_font := "sans" |} |}.

(** A page with two components and an incident on the first one. *)
Definition acme : SnapshotInput :=
  {| in_page := {| pi_id := "p"; pi_page := page_look; pi_breakGlassTokenSha256 := Some "t"%string; pi_revision := 7 |};
     in_components := [plain_component "api"; plain_component "web"]; in_daily := [];
     in_incidents := [row_of "i1" i_major investigating 1000]; in_updates := [update_of "u1" "i1" 1000];
     in_incidentComponents := [("i1", "api")%string]; in_nowMs := 5000 |}.

Definition entry_of (id : string) (at_ : Z) (incident : option string) (status : option incident_status)
    (components : list string) : StatusPageOverlayEntry :=
  {| oe_id := id; oe_at := at_; oe_incidentId := incident; oe_title := None; oe_status := status; oe_impact := None;
     oe_body := "We know."; oe_componentIds := components |}.

Definition acme_overlay : list StatusPageOverlayEntry :=
  [entry_of "e2" 9000 (Some "bg-e1"%string) (Some completed) []; entry_of "e1" 8000 None (Some identified) ["web"%string]].

Definition acme_snapshot : StatusPageSnapshot := toSnapshot string_compare acme.

(** An entry opens an incident, and the other updates it under the identifier it
    is shown with; a status of maintenance does nothing to it. *)
Example acme_view :
  List.map (fun i => (si_id i, si_status i, length (si_updates i))) (sn_incidents (applyOverlay acme_snapshot acme_overlay)) =
    [("bg-e1"%string, identified, 2%nat); ("i1"%string, investigating, 1%nat)] /\
  List.map sc_status (sn_components (applyOverlay acme_snapshot acme_overlay)) = [partial_outage; partial_outage].
Proof. by vm_compute. Qed.

Lemma overlay_applied_once_witness :
  applyOverlay (applyOverlay acme_snapshot acme_overlay) (take 1 acme_overlay) = applyOverlay acme_snapshot acme_overlay.
Proof. apply (overlay_applied_once acme_snapshot acme_overlay (take 1 acme_overlay)). intros x Hx. by apply subseteq_take in Hx. Defined.

Lemma overlay_order_irrelevant_witness :
  applyOverlay acme_snapshot (rev acme_overlay) = applyOverlay acme_snapshot acme_overlay.
Proof.
  apply (overlay_order_irrelevant acme_snapshot acme_overlay (rev acme_overlay)); [apply Permutation_rev|].
  intros a b Ha Hb E. repeat apply elem_of_cons in Ha as [-> | Ha]; try by apply elem_of_nil in Ha.
  all: repeat apply elem_of_cons in Hb as [-> | Hb]; try by apply elem_of_nil in Hb.
  all: done.
Defined.

Definition acme_web : StatusPageSnapshotComponent :=
  Eval vm_compute in default (snapshot_component [] [] [] (plain_component "web"))
    (sn_components (applyOverlay acme_snapshot acme_overlay) !! 1%nat).

Lemma visible_status_exact_witness :
  STATUS_RANK partial_outage <= STATUS_RANK (overallStatus (applyOverlay acme_snapshot acme_overlay)).
Proof.
  assert (acme_web ∈ sn_components (applyOverlay acme_snapshot acme_overlay)) as H
    by (apply (list_elem_of_lookup_2 _ 1%nat); by vm_compute).
  destruct (visible_status_exact string_compare acme acme_overlay acme_web H) as (_ & [_ Hb] & _). exact Hb.
Defined.

Lemma overlay_keeps_lifecycles_witness : Forall coherent (sn_incidents (applyOverlay acme_snapshot acme_overlay)).
Proof.
  apply (overlay_keeps_lifecycles acme_snapshot acme_overlay). constructor; [|constructor].
  split; [by vm_compute|]. split; [by vm_compute|by intros [? ?]].
Defined.
