(* ===== verification/StatusReconcile.v ===== *)
(** * Status pages: overlay and import agree

    Importing an entry into the rows of a page publishes what the overlay showed
    of it, components apart, and imports it once. *)

From Stdlib Require Import Ascii String.
From stdpp Require Import prelude list strings.
From Stdlib Require Import ZArith Lia Sorting.Permutation Sorting.Sorted.
From S2P Require Import Prelude.
From S2P Require Import JsString.
From S2P Require Import StatusPage.
From S2P Require Import StatusImport.
From S2P Require Import StatusOverlay.

Open Scope Z_scope.
Local Open Scope maple_scope.

(** ** One incident *)

Definition with_components (ids : list string) (i : StatusPageSnapshotIncident) : StatusPageSnapshotIncident :=
  {| si_id := si_id i; si_kind := si_kind i; si_title := si_title i; si_impact := si_impact i; si_status := si_status i;
     si_startedAt := si_startedAt i; si_resolvedAt := si_resolvedAt i; si_scheduledStart := si_scheduledStart i;
     si_scheduledEnd := si_scheduledEnd i; si_componentIds := ids;
     si_openedByOverlayEntryId := si_openedByOverlayEntryId i; si_updates := si_updates i |}.

(** An element after all others of a list goes first when they all exceed it. *)
Lemma sort_newest {A} (cmp : A -> A -> Z) x l : (forall y, y ∈ l -> 0 < cmp y x) -> js_sort cmp (l ++ [x]) = x :: js_sort cmp l.
Proof.
  unfold js_sort. induction l as [|y l IH]; intros H; [done|]. cbn [app foldr].
  rewrite IH by (intros z Hz; apply H; by right). cbn [insert_by].
  destruct (Z.leb_spec (cmp y x) 0); [|done]. specialize (H y ltac:(by left)). lia.
Qed.

Lemma filter_last {A} (p : A -> bool) l x : List.filter p (l ++ [x]) = List.filter p l ++ (if p x then [x] else []).
Proof. rewrite List.filter_app. cbn. by destruct (p x). Qed.

Lemma map_filter_fst (id : string) (l : list string) :
  List.filter (fun x : string * string => bool_decide (x.1 = id)) (List.map (fun c => (id, c)) l) = List.map (fun c => (id, c)) l.
Proof. induction l as [|c l IH]; [done|]. cbn. by rewrite bool_decide_true, IH. Qed.

(** The components of an incident. *)
Definition linked (id : string) (links : list (string * string)) : list string :=
  List.map snd (List.filter (fun l => bool_decide (l.1 = id)) links).

Lemma elem_of_linked id c links : c ∈ linked id links <-> (id, c) ∈ links.
Proof.
  unfold linked. rewrite list_elem_of_In, in_map_iff. split.
  - intros ([i c'] & <- & [H%list_elem_of_In E%bool_decide_eq_true]%filter_In). cbn in *. by subst.
  - intros H. exists (id, c). split; [done|]. apply filter_In. split; [by apply list_elem_of_In|by apply bool_decide_eq_true].
Qed.

Lemma filter_comm {A} (p q : A -> bool) l : List.filter p (List.filter q l) = List.filter q (List.filter p l).
Proof.
  induction l as [|x l IH]; [done|]. cbn. destruct (q x) eqn:Eq, (p x) eqn:Ep; cbn; rewrite ?Ep, ?Eq, IH; done.
Qed.

Lemma kept_of_map {A B} (f : A -> B) (p : B -> bool) l : List.filter p (List.map f l) = List.map f (List.filter (fun x => p (f x)) l).
Proof. induction l as [|x l IH]; [done|]. cbn. destruct (p (f x)); cbn; by rewrite IH. Qed.

(** The components an import adds. *)
Definition added (scope requested old : list string) : list string :=
  List.filter (fun c => negb (bool_decide (c ∈ old))) (List.filter (fun c => bool_decide (c ∈ requested)) scope).

Lemma linked_own scope id requested links :
  linked id (linkComponents scope id requested links) = linked id links ++ added scope requested (linked id links).
Proof.
  unfold linked at 1, linkComponents. rewrite List.filter_app, List.map_app. f_equal.
  rewrite filter_comm, map_filter_fst, kept_of_map, List.map_map. unfold added. cbn. rewrite map_id.
  apply List.filter_ext. intros c. f_equal. apply bool_decide_ext. by rewrite elem_of_linked.
Qed.

Lemma linked_other scope id j requested links : j <> id -> linked j (linkComponents scope id requested links) = linked j links.
Proof.
  intros H. unfold linked, linkComponents. rewrite List.filter_app, filter_comm.
  assert (List.filter (fun l : string * string => bool_decide (l.1 = j))
    (List.map (fun c => (id, c)) (List.filter (fun c => bool_decide (c ∈ requested)) scope)) = []) as ->.
  { apply filter_none. intros x Hx%list_elem_of_In%in_map_iff. destruct Hx as (c & <- & _). by apply bool_decide_eq_false. }
  cbn. by rewrite app_nil_r.
Qed.

(** ** Identifiers of entries *)

Definition claims (rows : PageRows) : list string := omap ru_overlayEntryId (pr_updates rows).

Lemma claimed_elem rows e : claimed rows e = true <-> oe_id e ∈ claims rows.
Proof.
  unfold claimed, claims. rewrite existsb_exists, list_elem_of_omap. split.
  - intros (u & Hu & E%bool_decide_eq_true). exists u. by rewrite list_elem_of_In.
  - intros (u & Hu & E). exists u. split; [by apply list_elem_of_In|by apply bool_decide_eq_true].
Qed.

Lemma omap_inj {A B} (f : A -> option B) l x y b : NoDup (omap f l) -> x ∈ l -> y ∈ l -> f x = Some b -> f y = Some b -> x = y.
Proof.
  induction l as [|a l IH]; [by intros _ ?%elem_of_nil|]. cbn [omap list_omap].
  assert (forall z, z ∈ l -> f z = Some b -> b ∈ omap f l) as Hin by (intros z Hz Hb; apply list_elem_of_omap; by exists z).
  destruct (f a) as [c|] eqn:Ea.
  - intros [Hc Hn]%NoDup_cons [->|Hx]%elem_of_cons [->|Hy]%elem_of_cons Fx Fy; [done| | |by apply IH];
      exfalso; apply Hc; (replace c with b by congruence); eauto.
  - intros Hn [->|Hx]%elem_of_cons [->|Hy]%elem_of_cons Fx Fy; [done|congruence|congruence|by apply IH].
Qed.

Lemma after_overlay_id o : after_prefix OVERLAY_INCIDENT_PREFIX (overlayIncidentId o) = Some o.
Proof.
  assert (forall n (s : string), (String.length s <= n)%nat -> String.substring 0 n s = s) as Hall.
  { induction n as [|n IH]; intros [|c s]; cbn; [done|lia|done|]. intros Hl. rewrite IH; [done|lia]. }
  unfold after_prefix, overlayIncidentId, OVERLAY_INCIDENT_PREFIX.
  replace (String.prefix "bg-" ("bg-" ++ o)) with true by by destruct o.
  f_equal. change (String.substring 0 (S (S (S (String.length o)))) o = o). apply Hall. lia.
Qed.

(** ** Sorting and updating in place *)

Lemma sort_map {A B} (cmp : A -> A -> Z) (cmp' : B -> B -> Z) (f : A -> B) l : (forall x y, cmp' (f x) (f y) = cmp x y) ->
  js_sort cmp' (List.map f l) = List.map f (js_sort cmp l).
Proof.
  intros Hf. unfold js_sort. induction l as [|x l IH]; [done|]. cbn [List.map foldr]. rewrite IH. clear IH.
  induction (foldr (insert_by cmp) [] l) as [|y m IH]; [done|]. cbn [List.map insert_by]. rewrite Hf.
  destruct (cmp x y <=? 0); [done|]. cbn [List.map]. by rewrite IH.
Qed.

(** With one match, updating the first match updates the match. *)
Lemma update_only {A} (p : StatusPageSnapshotIncident -> bool) f (sh : A -> StatusPageSnapshotIncident) (is_i : A -> bool) l :
  (forall j, j ∈ l -> p (sh j) = is_i j) -> (forall j k, j ∈ l -> k ∈ l -> is_i j = true -> is_i k = true -> j = k) -> NoDup l ->
  update_first p f (List.map sh l) = List.map (fun j => if is_i j then f (sh j) else sh j) l.
Proof.
  induction l as [|j l IH]; intros Hp Hu Hn; [done|]. cbn [List.map update_first]. rewrite (Hp j) by by left.
  apply NoDup_cons in Hn as [Hj Hn]. destruct (is_i j) eqn:Ej.
  - f_equal. apply map_ext_in. intros k Hk%list_elem_of_In. destruct (is_i k) eqn:Ek; [|done].
    rewrite (Hu j k) in Hj; [done|by left|by right|done|done].
  - f_equal. apply IH; [intros k Hk; apply Hp; by right| |done]. intros k m Hk Hm. by apply Hu; right.
Qed.

(** ** One entry *)

Section Entry.
Context (lc : string -> string -> Z) (isIncidentId : string -> bool).

(** An incident of the rows as a snapshot shows it. *)
Definition shown (rows : PageRows) (i : SnapshotIncidentInput) : StatusPageSnapshotIncident :=
  snapshot_incident lc (pr_updates rows) (pr_links rows) i.

Definition own_updates (rows : PageRows) (id : string) : list SnapshotUpdateInput :=
  List.filter (fun u => bool_decide (ru_incidentId u = id)) (pr_updates rows).

Lemma target_row rows e i : findTarget isIncidentId rows e = Some i -> i ∈ pr_incidents rows.
Proof.
  assert (forall id, by_id rows id = Some i -> i ∈ pr_incidents rows) as Hb
    by (intros id [H _]%find_some; by apply list_elem_of_In).
  unfold findTarget. destruct (oe_incidentId e) as [t|]; [|done]. destruct (after_prefix _ t) as [o|].
  - destruct (List.find _ _) as [u|]; [|done]. apply Hb.
  - destruct (isIncidentId t); [|done]. apply Hb.
Qed.

Lemma newest_after u drawn id status e : ru_createdAt u < oe_at e -> 0 < newest_update lc u (import_row drawn id status e).
Proof. intros H. unfold newest_update. cbn. destruct (Z.eqb_spec (oe_at e - ru_createdAt u) 0); lia. Qed.

(** An incident the entry is not for. *)
Lemma shown_other rows drawn scope id status e j incidents : ri_id j <> id ->
  snapshot_incident lc (pr_updates rows ++ [import_row drawn id status e]) (linkComponents scope id (oe_componentIds e) (pr_links rows)) j
  = shown {| pr_incidents := incidents; pr_updates := pr_updates rows; pr_links := pr_links rows; pr_revision := 0 |} j.
Proof.
  intros H. unfold shown, snapshot_incident. cbn [pr_updates pr_links].
  rewrite filter_last. cbn [import_row ru_incidentId]. rewrite bool_decide_false by done. rewrite app_nil_r.
  f_equal. by apply (linked_other scope id (ri_id j)).
Qed.

(** The row of an entry's incident is shown as the overlay changed it; of its
    components the import keeps the ones it had and adds the entry's. *)
Lemma import_shown scope drawn e rows i (Htarget : findTarget isIncidentId rows e = Some i)
    (Hclaim : claimed rows e = false) (Hids : NoDup (List.map ri_id (pr_incidents rows)))
    (Hsome : own_updates rows (ri_id i) <> [])
    (Hnew : forall u, u ∈ own_updates rows (ri_id i) -> ru_createdAt u < oe_at e) :
  let rows' := (importEntry isIncidentId scope drawn e rows).2 in
  let components := si_componentIds (shown rows i) in
  import_update e i ∈ pr_incidents rows' /\
  shown rows' (import_update e i) =
    with_components (components ++ added scope (oe_componentIds e) components) (overlay_update e (shown rows i)) /\
  (forall j, j ∈ pr_incidents rows -> j <> i -> j ∈ pr_incidents rows' /\ shown rows' j = shown rows j).
Proof.
  cbv zeta. pose proof (target_row _ _ _ Htarget) as Hi. unfold importEntry, applyToIncident. rewrite Htarget, Hclaim. cbn [snd].
  split_and!.
  - apply list_elem_of_In, in_map_iff. exists i. split; [by rewrite bool_decide_true|by apply list_elem_of_In].
  - unfold shown, snapshot_incident, own_updates in *. cbn [pr_updates pr_links import_update ri_id ri_kind ri_title ri_impact
      ri_status ri_startedAt ri_resolvedAt ri_scheduledStart ri_scheduledEnd].
    rewrite filter_last. cbn [import_row ru_incidentId]. rewrite bool_decide_true by done.
    rewrite sort_newest by (intros y Hy; by apply newest_after, Hnew).
    change (List.map snd (List.filter (fun l : string * string => bool_decide (l.1 = ri_id i)) (linkComponents scope (ri_id i)
      (oe_componentIds e) (pr_links rows)))) with (linked (ri_id i) (linkComponents scope (ri_id i) (oe_componentIds e) (pr_links rows))).
    rewrite linked_own. unfold overlay_update, with_components. cbn. fold (linked (ri_id i) (pr_links rows)).
    f_equal. unfold opened_by. set (own := js_sort _ _).
    assert (own <> []) as Hne.
    { intros E. apply Hsome. apply (f_equal (@length _)) in E. subst own. rewrite length_js_sort in E.
      by apply length_zero_iff_nil in E. }
    by destruct own as [|u own].
  - intros j Hj Hne. assert (ri_id j <> ri_id i) as Hid.
    { intros E. apply Hne. apply list_elem_of_lookup in Hj as [a Ha], Hi as [b Hb].
      assert (a = b) as ->; [|congruence]. apply (NoDup_lookup (List.map ri_id (pr_incidents rows)) a b (ri_id i)); [done| |];
        rewrite list_lookup_fmap; [by rewrite Ha, <- E|by rewrite Hb]. }
    split; [|by apply (shown_other rows drawn scope (ri_id i) _ e j [])].
    apply list_elem_of_In, in_map_iff. exists j. split; [by rewrite bool_decide_false|by apply list_elem_of_In].
Qed.

(** An entry without a target opens the incident the overlay showed, under the
    identifier drawn for it; follow-ups to the shown one reach it. *)
Lemma import_opens_the_overlay scope drawn e rows : findTarget isIncidentId rows e = None -> claimed rows e = false ->
  own_updates rows (dr_incident drawn) = [] -> linked (dr_incident drawn) (pr_links rows) = [] ->
  let rows' := (importEntry isIncidentId scope drawn e rows).2 in
  import_open (dr_incident drawn) e ∈ pr_incidents rows' /\
  shown rows' (import_open (dr_incident drawn) e) =
    with_components (added scope (oe_componentIds e) []) (overlay_open (dr_incident drawn) e) /\
  matchesTarget (overlayIncidentId (oe_id e)) (shown rows' (import_open (dr_incident drawn) e)) = true.
Proof.
  intros Ht Hc Hu Hl. cbv zeta. unfold importEntry, applyToIncident. rewrite Ht, Hc. cbn [snd].
  assert (forall rows', pr_updates rows' = pr_updates rows ++ [import_row drawn (dr_incident drawn) (ri_status (import_open (dr_incident drawn) e)) e] ->
    pr_links rows' = linkComponents scope (dr_incident drawn) (oe_componentIds e) (pr_links rows) ->
    shown rows' (import_open (dr_incident drawn) e) =
    with_components (added scope (oe_componentIds e) []) (overlay_open (dr_incident drawn) e)) as Hs.
  { intros rows' E1 E2. unfold shown, snapshot_incident. rewrite E1, E2, filter_last.
    change (ri_id (import_open (dr_incident drawn) e)) with (dr_incident drawn). unfold own_updates in Hu. rewrite Hu.
    cbn [import_row ru_incidentId]. rewrite bool_decide_true by done.
    change (List.map snd (List.filter (fun l : string * string => bool_decide (l.1 = dr_incident drawn)) (linkComponents scope
      (dr_incident drawn) (oe_componentIds e) (pr_links rows)))) with
      (linked (dr_incident drawn) (linkComponents scope (dr_incident drawn) (oe_componentIds e) (pr_links rows))).
    by rewrite linked_own, Hl. }
  split_and!; [apply elem_of_app; right; by left|by apply Hs|].
  rewrite Hs by done. unfold matchesTarget. cbn. rewrite (bool_decide_true (overlayIncidentId _ = _)) by done. by rewrite orb_true_r.
Qed.

(** *** The whole page *)

(** The page with other rows. *)
Definition with_rows (input : SnapshotInput) (rows : PageRows) : SnapshotInput :=
  {| in_page := in_page input; in_components := in_components input; in_daily := in_daily input;
     in_incidents := pr_incidents rows; in_updates := pr_updates rows; in_incidentComponents := pr_links rows;
     in_nowMs := in_nowMs input |}.

(** The rows the database keeps: identifiers of incidents are unique UUIDs (none
    starts as an overlay identifier does), an entry is imported once. *)
Record rows_ok (rows : PageRows) : Prop := {
  ok_ids : NoDup (List.map ri_id (pr_incidents rows));
  ok_uuid : forall j, j ∈ pr_incidents rows -> isIncidentId (ri_id j) = true /\ after_prefix OVERLAY_INCIDENT_PREFIX (ri_id j) = None;
  ok_claims : NoDup (claims rows);
}.

(** The entry is for the incident: it names it, or the entry that opened it. *)
Definition entry_for (rows : PageRows) (i : SnapshotIncidentInput) (e : StatusPageOverlayEntry) : Prop :=
  oe_incidentId e = Some (ri_id i) \/
  exists o, si_openedByOverlayEntryId (shown rows i) = Some o /\ oe_incidentId e = Some (overlayIncidentId o).

Lemma same_row rows i j : NoDup (List.map ri_id (pr_incidents rows)) -> i ∈ pr_incidents rows -> j ∈ pr_incidents rows ->
  ri_id i = ri_id j -> i = j.
Proof.
  intros Hn [a Ha]%list_elem_of_lookup [b Hb]%list_elem_of_lookup E.
  assert (a = b) as ->; [|congruence]. apply (NoDup_lookup _ a b (ri_id i) Hn); rewrite list_lookup_fmap; [by rewrite Ha|by rewrite Hb, E].
Qed.

Lemma by_id_row rows i : NoDup (List.map ri_id (pr_incidents rows)) -> i ∈ pr_incidents rows -> by_id rows (ri_id i) = Some i.
Proof.
  intros Hn Hi. unfold by_id. destruct (List.find _ _) as [j|] eqn:E.
  - apply find_some in E as [Hj%list_elem_of_In E%bool_decide_eq_true]. f_equal. by apply (same_row rows).
  - eapply find_none in E; [|by apply list_elem_of_In]. by rewrite bool_decide_true in E.
Qed.

(** The update that opened an incident. *)
Lemma opener rows i o : si_openedByOverlayEntryId (shown rows i) = Some o ->
  exists u, u ∈ pr_updates rows /\ ru_overlayEntryId u = Some o /\ ru_incidentId u = ri_id i.
Proof.
  unfold shown, snapshot_incident, opened_by. cbn [si_openedByOverlayEntryId]. set (own := js_sort _ _).
  destruct (last own) as [u|] eqn:El; [|done]. case_bool_decide; [|done]. intros Ho. exists u.
  assert (u ∈ own) as Hu by (apply last_Some in El as [l ->]; apply elem_of_app; right; by left).
  subst own. rewrite elem_of_js_sort in Hu. apply list_elem_of_In, filter_In in Hu as [Hu E%bool_decide_eq_true].
  split_and!; [by apply list_elem_of_In|done|done].
Qed.

(** Overlay and import agree on the incident of an entry. *)
Lemma target_found rows i e : rows_ok rows -> i ∈ pr_incidents rows -> entry_for rows i e -> findTarget isIncidentId rows e = Some i.
Proof.
  intros [Hids Huuid Hcl] Hi Hfor. destruct (Huuid i Hi) as [Hu Hp]. unfold findTarget. destruct Hfor as [->|(o & Ho & ->)].
  - rewrite Hp, Hu. by apply by_id_row.
  - rewrite after_overlay_id. apply opener in Ho as (u & Hin & Hov & Hinc).
    destruct (List.find _ (pr_updates rows)) as [u'|] eqn:E.
    + apply find_some in E as [Hu'%list_elem_of_In E%bool_decide_eq_true].
      assert (u' = u) as -> by by apply (omap_inj ru_overlayEntryId (pr_updates rows) u' u o).
      cbn. rewrite Hinc. by apply by_id_row.
    + eapply find_none in E; [|by apply list_elem_of_In]. by rewrite bool_decide_true in E.
Qed.

Lemma target_matches rows i e j : rows_ok rows -> i ∈ pr_incidents rows -> j ∈ pr_incidents rows -> entry_for rows i e ->
  matchesTarget (default (overlayIncidentId (oe_id e)) (oe_incidentId e)) (shown rows j) = bool_decide (ri_id j = ri_id i).
Proof.
  intros Hok Hi Hj Hfor. unfold matchesTarget. change (si_id (shown rows j)) with (ri_id j).
  destruct Hfor as [->|(o & Ho & ->)]; cbn [default from_option id].
  - destruct (bool_decide (ri_id j = ri_id i)) eqn:E; [done|]. cbn [orb].
    destruct (si_openedByOverlayEntryId (shown rows j)) as [x|]; [|done]. apply bool_decide_eq_false. intros Ex.
    destruct (ok_uuid _ Hok i Hi) as [_ Hp]. by rewrite <- Ex, after_overlay_id in Hp.
  - rewrite (bool_decide_false (ri_id j = overlayIncidentId o)).
    2:{ intros Ex. destruct (ok_uuid _ Hok j Hj) as [_ Hp]. by rewrite Ex, after_overlay_id in Hp. }
    cbn [orb]. apply opener in Ho as Hu. destruct Hu as (u & Hin & Hov & Hinc).
    destruct (decide (ri_id j = ri_id i)) as [E|E].
    + rewrite (bool_decide_true (ri_id j = ri_id i)) by done. rewrite (same_row rows j i (ok_ids _ Hok) Hj Hi E), Ho.
      by apply bool_decide_eq_true.
    + rewrite (bool_decide_false (ri_id j = ri_id i)) by done.
      destruct (si_openedByOverlayEntryId (shown rows j)) as [x|] eqn:Ex; [|done]. apply bool_decide_eq_false. intros Eo.
      apply E. apply (f_equal (after_prefix OVERLAY_INCIDENT_PREFIX)) in Eo. rewrite !after_overlay_id in Eo. injection Eo as ->.
      apply opener in Ex as (u' & Hin' & Hov' & Hinc').
      rewrite <- Hinc, <- Hinc'. f_equal. by apply (omap_inj ru_overlayEntryId (pr_updates rows) u' u o (ok_claims _ Hok)).
Qed.

(** What a page shows of an entry does not depend on its position. *)
Lemma shown_claims input rows x : x ∈ importedEntryIds (toSnapshot lc (with_rows input rows)) -> x ∈ claims rows.
Proof.
  intros Hx. apply elem_of_entry_ids in Hx as (i & u & Hi & Hu & Ho). unfold claims. apply list_elem_of_omap.
  cbn [toSnapshot sn_incidents] in Hi. apply list_elem_of_In, in_map_iff in Hi as (r & <- & _).
  unfold snapshot_incident in Hu. cbn [si_updates] in Hu. apply list_elem_of_In, in_map_iff in Hu as (v & <- & Hv%list_elem_of_In).
  rewrite elem_of_js_sort in Hv. apply list_elem_of_In, filter_In in Hv as [Hv%list_elem_of_In _]. by exists v.
Qed.

(** The listed rows of a page, newest start first. *)
Definition listed_rows (input : SnapshotInput) (rows : PageRows) : list SnapshotIncidentInput :=
  js_sort newest_start (List.filter (listed_at (in_nowMs input)) (pr_incidents rows)).

Lemma elem_of_listed input rows j : j ∈ listed_rows input rows <-> j ∈ pr_incidents rows /\ listed_at (in_nowMs input) j = true.
Proof. unfold listed_rows. by rewrite elem_of_js_sort, list_elem_of_In, filter_In, <- list_elem_of_In. Qed.

Lemma page_incidents input rows : sn_incidents (toSnapshot lc (with_rows input rows)) = List.map (shown rows) (listed_rows input rows).
Proof. done. Qed.

(** Components built with some incidents and given the impact of others are
    built with the others. *)
Lemma rebuilt_components days daily incidents incidents' components :
  withIncidentImpact (List.map (snapshot_component days daily incidents) components) incidents' =
  List.map (snapshot_component days daily incidents') components.
Proof.
  unfold withIncidentImpact. rewrite List.map_map. apply map_ext. intros c. unfold with_status, snapshot_component.
  cbn [sc_id sc_name sc_description sc_group sc_status sc_baseStatus sc_showUptime sc_monitored sc_days].
  by rewrite <- built_status.
Qed.

(** The rows after an import, as a map of the rows before. *)
Definition imported_row (e : StatusPageOverlayEntry) (i j : SnapshotIncidentInput) : SnapshotIncidentInput :=
  if bool_decide (ri_id j = ri_id i) then import_update e j else j.

Lemma listed_after input scope drawn e rows i : findTarget isIncidentId rows e = Some i -> claimed rows e = false ->
  NoDup (List.map ri_id (pr_incidents rows)) -> i ∈ pr_incidents rows ->
  listed_at (in_nowMs input) (import_update e i) = listed_at (in_nowMs input) i ->
  listed_rows input (importEntry isIncidentId scope drawn e rows).2 = List.map (imported_row e i) (listed_rows input rows).
Proof.
  intros Ht Hc Hn Hi Hl. unfold listed_rows, importEntry, applyToIncident. rewrite Ht, Hc. cbn [snd pr_incidents].
  rewrite (map_ext_in _ (imported_row e i)).
  2:{ intros j Hj%list_elem_of_In. unfold imported_row. case_bool_decide as E; [|done]. by rewrite (same_row rows j i Hn Hj Hi E). }
  rewrite kept_of_map. rewrite (sort_map newest_start newest_start).
  - f_equal. f_equal. apply filter_ext_in. intros j Hj%list_elem_of_In. unfold imported_row. case_bool_decide as E; [|done].
    by rewrite (same_row rows j i Hn Hj Hi E).
  - intros x y. unfold newest_start, imported_row. by repeat case_bool_decide.
Qed.

(** The incidents of the overlay view, position by position. *)
Lemma view_incidents input rows e i : rows_ok rows -> i ∈ pr_incidents rows -> entry_for rows i e -> claimed rows e = false ->
  listed_at (in_nowMs input) i = true ->
  let s := toSnapshot lc (with_rows input rows) in
  let view := applyOverlay s [e] in
  sn_incidents view =
    List.map (fun j => if bool_decide (ri_id j = ri_id i) then overlay_update e (shown rows j) else shown rows j) (listed_rows input rows) /\
  sn_components view = withIncidentImpact (sn_components s) (sn_incidents view).
Proof.
  intros Hok Hi Hfor Hc Hl. cbv zeta. set (s := toSnapshot lc (with_rows input rows)).
  assert (pending_entries s [e] = [e]) as Hp.
  { unfold pending_entries. cbn [List.filter]. rewrite bool_decide_false; [done|].
    intros Hx%shown_claims%claimed_elem. congruence. }
  unfold applyOverlay. rewrite Hp. cbn [fold_left with_incidents sn_incidents sn_components]. split; [|done].
  unfold overlay_step. unfold s at 1 2 3. rewrite page_incidents.
  set (target := default _ _). assert (forall j, j ∈ listed_rows input rows ->
    matchesTarget target (shown rows j) = bool_decide (ri_id j = ri_id i)) as Hm.
  { intros j [Hj _]%elem_of_listed. by apply target_matches. }
  assert (i ∈ listed_rows input rows) as Hil by by apply elem_of_listed.
  replace (existsb _ _) with true.
  - apply update_only; [done| |].
    + intros j k [Hj _]%elem_of_listed [Hk _]%elem_of_listed Ej%bool_decide_eq_true Ek%bool_decide_eq_true.
      apply (same_row rows); [apply Hok|done|done|congruence].
    + unfold listed_rows. rewrite js_sort_perm. apply NoDup_ListNoDup, List.NoDup_filter, NoDup_ListNoDup.
      destruct Hok as [Hn _ _]. by apply NoDup_fmap_1 in Hn.
  - symmetry. apply existsb_exists. exists (shown rows i). split; [by apply in_map, list_elem_of_In|].
    rewrite Hm by done. by apply bool_decide_eq_true.
Qed.

(** C6: importing a break-glass entry publishes what the overlay showed. Take a
    page whose database keeps its identifiers unique, an entry that is not
    imported yet and is for an incident of the page (named by its identifier, or
    by the entry that opened it), later than the updates the incident has, of
    which there is at least one, and an incident that is listed before the import and after it. Then the page
    published after the import lists the same incidents, in the same order, as
    the page that was published before with the entry laid over it, equal in
    title, impact, status, times and updates. Only the components of the one
    incident may differ: the import adds the entry's to those it had, where the
    overlay shows the entry's alone. For an entry that names no component the two
    pages agree on every incident, the status of every component and the
    banner. *)
Theorem import_publishes_the_overlay input scope drawn e rows i (Hok : rows_ok rows) (Hi : i ∈ pr_incidents rows)
    (Hfor : entry_for rows i e) (Hclaim : claimed rows e = false) (Hsome : own_updates rows (ri_id i) <> [])
    (Hnew : forall u, u ∈ own_updates rows (ri_id i) -> ru_createdAt u < oe_at e)
    (Hbefore : listed_at (in_nowMs input) i = true) (Hafter : listed_at (in_nowMs input) (import_update e i) = true) :
  let view := applyOverlay (toSnapshot lc (with_rows input rows)) [e] in
  let published := toSnapshot lc (with_rows input (importEntry isIncidentId scope drawn e rows).2) in
  let components := si_componentIds (shown rows i) in
  Forall2 (fun shown_ laid => shown_ = laid \/
      si_id laid = ri_id i /\ shown_ = with_components (components ++ added scope (oe_componentIds e) components) laid)
    (sn_incidents published) (sn_incidents view) /\
  (oe_componentIds e = [] ->
     sn_incidents published = sn_incidents view /\ sn_components published = sn_components view /\
     overallStatus published = overallStatus view).
Proof.
  cbv zeta. pose proof (target_found rows i e Hok Hi Hfor) as Ht.
  destruct (view_incidents input rows e i Hok Hi Hfor Hclaim Hbefore) as [Hv Hvc]. cbv zeta in Hv, Hvc.
  destruct (import_shown scope drawn e rows i Ht Hclaim (ok_ids _ Hok) Hsome Hnew) as (_ & Hsi & Hsj). cbv zeta in Hsi, Hsj.
  set (view := applyOverlay _ _) in *. set (rows' := (importEntry _ _ _ _ _).2) in *.
  set (ids := si_componentIds (shown rows i)) in *.
  assert (sn_incidents (toSnapshot lc (with_rows input rows')) =
    List.map (fun j => if bool_decide (ri_id j = ri_id i)
      then with_components (ids ++ added scope (oe_componentIds e) ids) (overlay_update e (shown rows j)) else shown rows j)
      (listed_rows input rows)) as Hp.
  { rewrite page_incidents. subst rows'. rewrite (listed_after input scope drawn e rows i); [|done|done|apply Hok|done|congruence].
    rewrite List.map_map. apply map_ext_in. intros j [Hj _]%list_elem_of_In%elem_of_listed. unfold imported_row.
    case_bool_decide as E; [by rewrite (same_row rows j i (ok_ids _ Hok) Hj Hi E)|].
    apply Hsj; [done|]. intros ->. done. }
  split.
  - rewrite Hp, Hv. apply Forall2_fmap, Forall_Forall2_diag, Forall_forall. intros j [Hj _]%elem_of_listed.
    case_bool_decide as E; [|by left]. by right.
  - intros Hnone. assert (sn_incidents (toSnapshot lc (with_rows input rows')) = sn_incidents view) as Hsame.
    { rewrite Hp, Hv. apply map_ext_in. intros j [Hj _]%list_elem_of_In%elem_of_listed. case_bool_decide as E; [|done].
      rewrite (same_row rows j i (ok_ids _ Hok) Hj Hi E), Hnone. unfold added. rewrite (filter_none (fun c => bool_decide (c ∈ []))).
      - cbn [List.filter]. rewrite app_nil_r. unfold overlay_update. by rewrite Hnone.
      - intros c _. apply bool_decide_eq_false, not_elem_of_nil. }
    assert (sn_components (toSnapshot lc (with_rows input rows')) = sn_components view) as Hc.
    { rewrite Hvc, <- Hsame. cbn [toSnapshot sn_components with_rows in_nowMs in_daily in_components]. by rewrite rebuilt_components. }
    split_and!; [done|done|]. unfold overallStatus. by rewrite Hc.
Qed.
End Entry.

(** ** A run *)

Section Run.
Context (isIncidentId : string -> bool) (scope : list string).

Lemma import_facts drawn e rows : let r := importEntry isIncidentId scope drawn e rows in
  claims r.2 = claims rows ++ (if claimed rows e then [] else [oe_id e]) /\
  r.1 = negb (claimed rows e) /\
  pr_revision r.2 = pr_revision rows + (if claimed rows e then 0 else 1) /\
  length (pr_updates r.2) = (length (pr_updates rows) + (if claimed rows e then 0 else 1))%nat.
Proof.
  cbv zeta. unfold importEntry. destruct (applyToIncident isIncidentId rows drawn e) as [[incidents id] status].
  destruct (claimed rows e); cbn [fst snd negb]; [rewrite app_nil_r; split_and!; (done || lia)|].
  unfold claims. cbn [pr_updates pr_revision]. rewrite omap_app, length_app. by split_and!.
Qed.

Definition run_step (s : list bool * PageRows) (e : StatusPageOverlayEntry * Drawn) : list bool * PageRows :=
  let '(ok, next) := importEntry isIncidentId scope e.2 e.1 s.2 in (s.1 ++ [ok], next).

Definition successes (oks : list bool) : Z := Z.of_nat (length (List.filter id oks)).

Lemma run_facts es : forall s, NoDup (claims s.2) -> let r := fold_left run_step es s in
  NoDup (claims r.2) /\ (forall x, x ∈ claims s.2 -> x ∈ claims r.2) /\ (forall e, e ∈ es -> oe_id e.1 ∈ claims r.2) /\
  successes r.1 - successes s.1 = Z.of_nat (length (pr_updates r.2)) - Z.of_nat (length (pr_updates s.2)) /\
  pr_revision r.2 - pr_revision s.2 = successes r.1 - successes s.1.
Proof.
  induction es as [|e es IH]; intros s Hs; cbv zeta; cbn [fold_left].
  - split_and!; [done|done|by intros e ?%elem_of_nil|lia|lia].
  - assert (exists r, importEntry isIncidentId scope e.2 e.1 s.2 = r) as [[ok next] E] by eauto.
    pose proof (import_facts e.2 e.1 s.2) as (H1 & H2 & H3 & H4). rewrite E in H1, H2, H3, H4. cbn [fst snd] in *.
    assert (run_step s e = (s.1 ++ [ok], next)) as Es by (unfold run_step; by rewrite E).
    rewrite Es. clear Es. assert (NoDup (claims next)) as Hn.
    { rewrite H1. destruct (claimed s.2 e.1) eqn:Ec; [by rewrite app_nil_r|].
      apply NoDup_app. split_and!; [done| |apply NoDup_singleton].
      intros x Hx ->%list_elem_of_singleton. apply claimed_elem in Hx. congruence. }
    destruct (IH (s.1 ++ [ok], next) Hn) as (I1 & I2 & I3 & I4 & I5). cbn [fst snd] in *.
    assert (successes (s.1 ++ [ok]) = successes s.1 + (if claimed s.2 e.1 then 0 else 1)) as Hok.
    { unfold successes. rewrite List.filter_app, length_app, H2. destruct (claimed s.2 e.1); cbn; lia. }
    split_and!; [done| | | |].
    + intros x Hx. apply I2. rewrite H1. apply elem_of_app. by left.
    + intros x [->|Hx]%elem_of_cons; [|by apply I3]. apply I2. rewrite H1. destruct (claimed s.2 e.1) eqn:Ec.
      * apply claimed_elem in Ec. apply elem_of_app. by left.
      * apply elem_of_app. right. by left.
    + destruct (claimed s.2 e.1); lia.
    + destruct (claimed s.2 e.1); lia.
Qed.

Lemma elem_of_trusted entryIds read e : e ∈ trusted_entries entryIds read <-> oe_id e ∈ entryIds /\ exists key, key ∈ entryIds /\ read key = Some e.
Proof.
  unfold trusted_entries. rewrite elem_of_js_sort, list_elem_of_In, filter_In, <- list_elem_of_In, list_elem_of_omap, bool_decide_eq_true.
  split; intros [? ?]; by split.
Qed.

(** C19: a run imports every entry it reads exactly once: it skips the ones
    imported before, counts the updates it writes, asks for as many publishes,
    and lets go of a key only when its update was in the rows before the run and
    a snapshot at this revision was published after it. *)
Theorem reconcile_imports_once draw publishedRevision publishedAt entryIds read rows (H : NoDup (claims rows)) :
  let r := reconcileEntries isIncidentId scope draw publishedRevision publishedAt entryIds read rows in
  NoDup (claims (rr_rows r)) /\
  (forall e, e ∈ trusted_entries entryIds read -> claimed (rr_rows r) e = true) /\
  rr_imported r = Z.of_nat (length (pr_updates (rr_rows r))) - Z.of_nat (length (pr_updates rows)) /\
  pr_revision (rr_rows r) = pr_revision rows + rr_imported r /\
  (forall id, id ∈ rr_cleared r -> pr_revision rows <= publishedRevision /\
     exists at_ u, publishedAt = Some at_ /\ u ∈ pr_updates rows /\ ru_overlayEntryId u = Some id /\ ru_createdAt u < at_).
Proof.
  cbv zeta. unfold reconcileEntries. set (entries := trusted_entries entryIds read).
  set (pending := imap _ _). unfold import_all. fold run_step.
  pose proof (run_facts pending ([], rows) H) as (H1 & H2 & H3 & H4 & H5). cbn [fst snd] in *.
  change (fold_left _ pending ([], rows)) with (fold_left run_step pending ([], rows)).
  destruct (fold_left run_step pending ([], rows)) as [oks next]. cbn [fst snd] in *.
  cbn [rr_rows rr_imported rr_cleared]. fold (successes oks). change (successes []) with 0 in *. split_and!; [done| |lia|lia|].
  - intros e He. apply claimed_elem. destruct (claimed rows e) eqn:Ec; [by apply H2, claimed_elem|].
    assert (e ∈ List.filter (fun e => negb (claimed rows e)) entries) as Hp.
    { apply list_elem_of_In, filter_In. split; [by apply list_elem_of_In|by rewrite Ec]. }
    apply list_elem_of_lookup in Hp as [k Hk]. apply (H3 (e, draw k)). apply list_elem_of_lookup. exists k.
    subst pending. rewrite list_lookup_imap, Hk. done.
  - intros id. unfold carried. destruct publishedAt as [at_|]; [|by intros ?%elem_of_nil].
    destruct (Z.leb_spec (pr_revision rows) publishedRevision); [|by intros ?%elem_of_nil].
    intros (u & Hu & E)%list_elem_of_omap. split; [done|]. exists at_, u. split_and!; [done|done| |];
      destruct (ru_overlayEntryId u) as [o|]; try done; destruct (_ && _) eqn:Ea; try done.
    apply andb_true_iff in Ea as [_ ?%Z.ltb_lt]. done.
Qed.
End Run.

(** ** The page *)

Definition acme_rows : PageRows :=
  {| pr_incidents := in_incidents acme; pr_updates := in_updates acme; pr_links := in_incidentComponents acme; pr_revision := 7 |}.

Definition acme_drawn : Drawn := {| dr_incident := "i2"; dr_update := "u2" |}.

Definition acme_entry : StatusPageOverlayEntry := entry_of "e3" 8000 (Some "i1"%string) (Some monitoring) ["web"%string].

Definition acme_note : StatusPageOverlayEntry := entry_of "e3" 8000 (Some "i1"%string) (Some monitoring) [].

Lemma import_publishes_the_overlay_witness :
  overallStatus (toSnapshot string_compare (with_rows acme
    (importEntry (fun _ => true) ["api"; "web"]%string acme_drawn acme_note acme_rows).2)) =
  overallStatus (applyOverlay (toSnapshot string_compare (with_rows acme acme_rows)) [acme_note]).
Proof.
  apply (import_publishes_the_overlay string_compare (fun _ => true) acme ["api"; "web"]%string acme_drawn acme_note acme_rows
    (row_of "i1" i_major investigating 1000)).
  - split; [by apply (bool_decide_unpack _)| |by vm_compute; constructor].
    intros j Hj. apply list_elem_of_singleton in Hj as ->. by vm_compute.
  - by left.
  - by left.
  - by vm_compute.
  - done.
  - intros u Hu. vm_compute in Hu. apply list_elem_of_singleton in Hu as ->. by vm_compute.
  - by vm_compute.
  - by vm_compute.
  - done.
Defined.

(** The published page after an import. *)
Definition published (rows : PageRows) : StatusPageSnapshot :=
  toSnapshot string_compare
    {| in_page := in_page acme; in_components := in_components acme; in_daily := []; in_incidents := pr_incidents rows;
       in_updates := pr_updates rows; in_incidentComponents := pr_links rows; in_nowMs := 9000 |}.

(** An entry that names another component: the overlay shows the first one as
    operational while its incident lasts, the import shows it out again. *)
Example overlay_drops_component :
  List.map sc_status (sn_components (applyOverlay acme_snapshot [acme_entry])) = [operational; partial_outage] /\
  List.map sc_status (sn_components (published
    (importEntry (fun _ => true) ["api"; "web"]%string acme_drawn acme_entry acme_rows).2)) = [partial_outage; partial_outage].
Proof. by vm_compute. Qed.

(** A key whose entry has the id of another listed key is imported. *)
Example misnamed_key_trusted :
  List.map oe_id (trusted_entries ["e1"; "e3"]%string (fun key => if bool_decide (key = "e1"%string) then Some acme_entry else None)) =
  ["e3"%string].
Proof. by vm_compute. Qed.

Lemma reconcile_imports_once_witness :
  rr_imported (reconcileEntries (fun _ => true) ["api"; "web"]%string (fun _ => acme_drawn) 7 None ["e3"%string]
    (fun _ => Some acme_entry) acme_rows) = 1.
Proof.
  destruct (reconcile_imports_once (fun _ => true) ["api"; "web"]%string (fun _ => acme_drawn) 7 None ["e3"%string]
    (fun _ => Some acme_entry) acme_rows) as (_ & _ & H & _); [by vm_compute; constructor|]. rewrite H. by vm_compute.
Defined.
