(* ===== verification/StatusEdge.v ===== *)
(** * Status pages: the status worker

    apps/status/src/snapshot.ts, break-glass.ts and the routing of handler.ts:
    what the worker reads from its cache, the key-value store and the object
    store, the overlay it assembles and the update it accepts from a form.

    A request runs against the three stores and a record of what fails while it
    runs; the listing of keys, which may lag behind writes, is part of that
    record. The three loads of a view touch different keys, so their order does
    not matter. JSON, the digest of a token and [toLowerCase] are arguments. *)

From Stdlib Require Import Ascii String.
From stdpp Require Import prelude list strings.
From Stdlib Require Import ZArith Lia.
From S2P Require Import Prelude.
From S2P Require Import JsString.
From S2P Require Import EventTime.
From S2P Require Import WarehouseTime.
From S2P Require Import StatusPage.

Open Scope Z_scope.
Local Open Scope maple_scope.

(** ** Stores *)

Record CachedValue := { cv_value : string; cv_storedAt : Z }.

Record Stores := { kv : jsmap string string; r2 : jsmap string string; cache : jsmap string CachedValue }.

(** One request: its time, the failures it meets and the keys a listing gives
    ([None] when the listing fails). *)
Record StatusEnv := {
  nowMs : Z;
  kvGet_fails : string -> bool;
  kvPut_fails : string -> bool;
  kv_keys : string -> option (list string);
  r2_fails : string -> bool;
  cacheGet_fails : string -> bool;
  cachePut_fails : string -> bool;
}.

Definition kvGet (env : StatusEnv) (key : string) (st : Stores) : result unit (option string) :=
  if kvGet_fails env key then Err tt else Ok (map_get key (kv st)).

Definition kvPut (env : StatusEnv) (key value : string) (st : Stores) : result unit Stores :=
  if kvPut_fails env key then Err tt else Ok {| kv := map_set key value (kv st); r2 := r2 st; cache := cache st |}.

(** Up to [limit] keys. *)
Definition kvList (env : StatusEnv) (prefix : string) (limit : nat) : result unit (list string) :=
  match kv_keys env prefix with Some keys => Ok (take limit keys) | None => Err tt end.

Definition r2Get (env : StatusEnv) (key : string) (st : Stores) : result unit (option string) :=
  if r2_fails env key then Err tt else Ok (map_get key (r2 st)).

Definition cacheGet (env : StatusEnv) (key : string) (st : Stores) : option CachedValue :=
  if cacheGet_fails env key then None else map_get key (cache st).

(** [cachePut], a failure ignored. *)
Definition cachePut (env : StatusEnv) (key : string) (entry : CachedValue) (st : Stores) : Stores :=
  if cachePut_fails env key then st else {| kv := kv st; r2 := r2 st; cache := map_set key entry (cache st) |}.

Definition hex_digit (d : Z) : ascii := ascii_of_N (Z.to_N (if d <? 10 then 48 + d else 55 + d)).

Definition unreserved (c : ascii) : bool :=
  let b := byte_of c in
  ((65 <=? b) && (b <=? 90)) || ((97 <=? b) && (b <=? 122)) || is_digit c || has_char c "-_.!~*'()"%string.

Fixpoint encodeURIComponent (s : string) : string :=
  match s with
  | EmptyString => EmptyString
  | String c s' =>
      if unreserved c then String c (encodeURIComponent s')
      else String "%"%char (String (hex_digit (byte_of c / 16)) (String (hex_digit (byte_of c mod 16)) (encodeURIComponent s')))
  end.

Definition cacheKey (kind id : string) : string := ("https://status-cache.invalid/" ++ kind ++ "/" ++ encodeURIComponent id)%string.

Definition host_key (lower : string) : string := ("host:" ++ lower)%string.
Definition slug_key (slug : string) : string := ("slug:" ++ slug)%string.
Definition snapshot_key (pageId : string) : string := ("page:" ++ pageId ++ ":snapshot")%string.
Definition overlayPage (pageId : string) : string := ("overlay:" ++ pageId ++ ":")%string.
Definition overlayEntry (pageId entryId : string) : string := ("overlay:" ++ pageId ++ ":" ++ entryId)%string.
Definition heartbeat_key : string := ("meta:heartbeat")%string.
Definition snapshotObject (pageId : string) : string := ("pages/" ++ pageId ++ "/snapshot.json")%string.
Definition hostObject (lower : string) : string := ("hosts/" ++ lower)%string.
Definition slugObject (slug : string) : string := ("slugs/" ++ slug)%string.

Definition CACHE_FRESH_MS : Z := 30000.
Definition OVERLAY_CACHE_FRESH_MS : Z := 10000.
Definition LIST_LAG_MS : Z := 120000.

(** ** Reading through *)

Inductive Lookup (A : Type) := found (value : A) | missing | unavailable.
Arguments found {A} value.
Arguments missing {A}.
Arguments unavailable {A}.

(** What a read is for. *)
Record ReadInput (A : Type) := {
  ri_cacheKey : string;
  ri_kvKey : string;
  ri_r2Key : option string;
  ri_kvMissIsFinal : bool;
  ri_decode : string -> option A;
}.
Arguments ri_cacheKey {A}.
Arguments ri_kvKey {A}.
Arguments ri_r2Key {A}.
Arguments ri_kvMissIsFinal {A}.
Arguments ri_decode {A}.

(** The text of a successful read, when it decodes. *)
Definition decodeFound {A} (decode : string -> option A) (raw : result unit (option string)) : option (string * A) :=
  match raw with Ok (Some text) => (fun v => (text, v)) <$> decode text | _ => None end.

Definition readThrough {A} (env : StatusEnv) (input : ReadInput A) (st : Stores) : Lookup A * Stores :=
  let cached := cacheGet env (ri_cacheKey input) st in
  let fromCache := decodeFound (ri_decode input) (Ok (cv_value <$> cached)) in
  let fresh := match cached, fromCache with Some c, Some _ => nowMs env - cv_storedAt c <? CACHE_FRESH_MS | _, _ => false end in
  let remember (hit : string * A) :=
    (found hit.2, cachePut env (ri_cacheKey input) {| cv_value := hit.1; cv_storedAt := nowMs env |} st) in
  let old := match fromCache with Some hit => Some (found hit.2, st) | None => None end in
  let answer := kvGet env (ri_kvKey input) st in
  match fresh, old with
  | true, Some copy => copy
  | _, _ =>
      match decodeFound (ri_decode input) answer with
      | Some hit => remember hit
      | None =>
          if ri_kvMissIsFinal input && match answer with Ok None => true | _ => false end then (missing, st)
          else
            let second := match ri_r2Key input with Some key => r2Get env key st | None => Err tt end in
            match decodeFound (ri_decode input) second, old with
            | Some hit, _ => remember hit
            | None, Some copy => copy
            | None, None => (if negb (is_ok answer) && negb (is_ok second) then unavailable else missing, st)
            end
      end
  end.

(** ** Pages and overlays *)

Definition hex_or_dash (c : ascii) : bool := let b := byte_of c in is_digit c || ((97 <=? b) && (b <=? 102)) || (b =? 45).

Definition decodePageId (raw : string) : option string :=
  let id := trim raw in
  if bool_decide (String.length id = 36%nat) && forallb hex_or_dash (string_chars id) then Some id else None.

(** The texts of values and back. *)
Class StatusJson := {
  decodeStatusPageSnapshotJson : string -> option StatusPageSnapshot;
  decodeStatusPageOverlayEntryJson : string -> option StatusPageOverlayEntry;
  decodeStatusPageHeartbeatJson : string -> option StatusPagePublisherHeartbeat;
  decodeOverlayJson : string -> option (list StatusPageOverlayEntry);
  overlay_entry_json : StatusPageOverlayEntry -> string;
  overlay_json : list StatusPageOverlayEntry -> string;
}.

Class StatusJsonLaws `{StatusJson} : Prop := {
  entry_json_reads : forall e, decodeStatusPageOverlayEntryJson (overlay_entry_json e) = Some e;
  overlay_json_reads : forall l, decodeOverlayJson (overlay_json l) = Some l;
}.

Record ListedOverlay := { lo_keys : list string; lo_entries : list StatusPageOverlayEntry }.

Record PageView := { pv_snapshot : StatusPageSnapshot; pv_freshness : StatusPageFreshness }.

Section Worker.
Context (toLowerCase : string -> string) `{!StatusJson}.

Definition pageIdForHost (env : StatusEnv) (hostname : string) (st : Stores) : Lookup string * Stores :=
  readThrough env
    {| ri_cacheKey := cacheKey "host" (toLowerCase hostname); ri_kvKey := host_key (toLowerCase hostname);
       ri_r2Key := Some (hostObject (toLowerCase hostname)); ri_kvMissIsFinal := true; ri_decode := decodePageId |} st.

Definition pageIdForSlug (env : StatusEnv) (slug : string) (st : Stores) : Lookup string * Stores :=
  readThrough env
    {| ri_cacheKey := cacheKey "slug" slug; ri_kvKey := slug_key slug; ri_r2Key := Some (slugObject slug);
       ri_kvMissIsFinal := true; ri_decode := decodePageId |} st.

Definition loadSnapshot (env : StatusEnv) (pageId : string) (st : Stores) : option StatusPageSnapshot * Stores :=
  let '(lookup, next) := readThrough env
    {| ri_cacheKey := cacheKey "snapshot" pageId; ri_kvKey := snapshot_key pageId; ri_r2Key := Some (snapshotObject pageId);
       ri_kvMissIsFinal := false; ri_decode := decodeStatusPageSnapshotJson |} st in
  (match lookup with found s => Some s | _ => None end, next).

(** One entry of a listing; a key gone or corrupt gives none. *)
Definition read_entry (env : StatusEnv) (st : Stores) (key : string) : result unit (option StatusPageOverlayEntry) :=
  let! raw := kvGet env key st in Ok (raw ≫= decodeStatusPageOverlayEntryJson).

Fixpoint read_entries (env : StatusEnv) (st : Stores) (keys : list string) : result unit (list StatusPageOverlayEntry) :=
  match keys with
  | [] => Ok []
  | key :: keys' =>
      let! entry := read_entry env st key in
      let! rest := read_entries env st keys' in
      Ok (match entry with Some e => e :: rest | None => rest end)
  end.

Definition listOverlay (env : StatusEnv) (pageId : string) (st : Stores) : result unit ListedOverlay :=
  let! keys := kvList env (overlayPage pageId) STATUS_PAGE_OVERLAY_MAX_ENTRIES in
  let! entries := read_entries env st keys in
  Ok {| lo_keys := keys; lo_entries := entries |}.

Definition readCachedOverlay (env : StatusEnv) (pageId : string) (st : Stores) : option (list StatusPageOverlayEntry * Z) :=
  cached ← cacheGet env (cacheKey "overlay" pageId) st;
  overlay ← decodeOverlayJson (cv_value cached);
  Some (overlay, cv_storedAt cached).

Definition cachedOverlayEntries (env : StatusEnv) (pageId : string) (st : Stores) : list StatusPageOverlayEntry :=
  match readCachedOverlay env pageId st with Some (entries, _) => entries | None => [] end.

(** The cached entries a lagging list has not caught up with. *)
Definition recent (env : StatusEnv) (entries previous : list StatusPageOverlayEntry) : list StatusPageOverlayEntry :=
  List.filter (fun e => negb (bool_decide (oe_id e ∈ List.map oe_id entries)) && (nowMs env - oe_at e <? LIST_LAG_MS)) previous.

Definition rememberOverlay (env : StatusEnv) (pageId : string) (entries : list StatusPageOverlayEntry) (st : Stores) :
    list StatusPageOverlayEntry * Stores :=
  let overlay := entries ++ recent env entries (cachedOverlayEntries env pageId st) in
  (overlay, cachePut env (cacheKey "overlay" pageId) {| cv_value := overlay_json overlay; cv_storedAt := nowMs env |} st).

Definition loadOverlay (env : StatusEnv) (pageId : string) (st : Stores) : list StatusPageOverlayEntry * Stores :=
  let listed :=
    match listOverlay env pageId st with
    | Ok l => rememberOverlay env pageId (lo_entries l) st
    | Err _ => (cachedOverlayEntries env pageId st, st)
    end in
  match readCachedOverlay env pageId st with
  | Some (overlay, storedAt) => if nowMs env - storedAt <? OVERLAY_CACHE_FRESH_MS then (overlay, st) else listed
  | None => listed
  end.

Definition loadHeartbeat (env : StatusEnv) (st : Stores) : option StatusPagePublisherHeartbeat :=
  match kvGet env heartbeat_key st with Ok (Some raw) => decodeStatusPageHeartbeatJson raw | _ => None end.

Definition loadView (env : StatusEnv) (pageId : string) (st : Stores) : option PageView * Stores :=
  let '(snapshot, st1) := loadSnapshot env pageId st in
  let '(overlay, st2) := loadOverlay env pageId st1 in
  let heartbeat := loadHeartbeat env st2 in
  (s ← snapshot;
   let merged := applyOverlay s overlay in
   Some {| pv_snapshot := merged; pv_freshness := pageFreshness merged heartbeat (nowMs env) |}, st2).

(** ** Routes *)

Definition slug_char (c : ascii) : bool := let b := byte_of c in is_digit c || ((97 <=? b) && (b <=? 122)) || (b =? 45).
Definition slug_end (c : ascii) : bool := slug_char c && negb (bool_decide (c = "-"%char)).

(** The text up to a slash, and the rest. *)
Fixpoint to_slash (s : string) : string * string :=
  match s with
  | EmptyString => (EmptyString, EmptyString)
  | String c s' => if bool_decide (c = "/"%char) then (EmptyString, s) else let '(a, r) := to_slash s' in (String c a, r)
  end.

(** [SLUG_PATH]: the slug, and the path after it when there is one. *)
Definition slug_path (path : string) : option (string * option string) :=
  if String.prefix "/s/" path then
    let '(slug, rest) := to_slash (String.substring 3 (String.length path) path) in
    let chars := string_chars slug in
    if (3 <=? length chars)%nat && (length chars <=? 48)%nat && forallb slug_char chars &&
       match head chars, last chars with Some a, Some b => slug_end a && slug_end b | _, _ => false end
    then Some (slug, match rest with EmptyString => None | _ => Some rest end)
    else None
  else None.

Record Target := { tg_pageId : string; tg_basePath : string; tg_path : string; tg_slug : option string }.

Definition resolveTarget (env : StatusEnv) (hostname path : string) (st : Stores) : Lookup Target * Stores :=
  let '(byHost, st1) := pageIdForHost env hostname st in
  let failed := match byHost with unavailable => unavailable | _ => missing end in
  match byHost with
  | found id => (found {| tg_pageId := id; tg_basePath := EmptyString; tg_path := path; tg_slug := None |}, st1)
  | _ =>
      match slug_path path with
      | None => (failed, st1)
      | Some (slug, rest) =>
          let '(bySlug, st2) := pageIdForSlug env slug st1 in
          match bySlug, failed with
          | found id, _ =>
              (found {| tg_pageId := id; tg_basePath := ("/s/" ++ slug)%string; tg_path := default "/"%string rest;
                        tg_slug := Some slug |}, st2)
          | unavailable, _ => (unavailable, st2)
          | missing, f => (f, st2)
          end
      end
  end.

(** What a request is answered with: the page itself is rendered elsewhere. *)
Inductive Answer := healthy | no_page | unreachable | page (target : Target) (view : PageView).

Definition handleRequest (env : StatusEnv) (hostname path : string) (st : Stores) : Answer * Stores :=
  if bool_decide (path = "/_health"%string) then (healthy, st)
  else
    let '(target, st1) := resolveTarget env hostname path st in
    match target with
    | unavailable => (unreachable, st1)
    | missing => (no_page, st1)
    | found t =>
        let '(view, st2) := loadView env (tg_pageId t) st1 in
        match view with
        | None => (unreachable, st2)
        | Some v =>
            match tg_slug t with
            | Some slug => if bool_decide (sp_slug (sn_page (pv_snapshot v)) = slug) then (page t v, st2) else (no_page, st2)
            | None => (page t v, st2)
            end
        end
    end.

(** ** Break-glass updates *)

Record BreakGlassForm := {
  bf_token : string;
  bf_incidentId : string;
  bf_title : string;
  bf_status : option incident_status;
  bf_impact : option incident_impact;
  bf_body : string;
  bf_componentIds : list string;
}.

Definition NEW_INCIDENT : string := "new".

(** [charCodeAt] past the end is [NaN], which a bit operation reads as 0. *)
Definition code_at (a : list Z) (index : nat) : Z := default 0 (a !! index).

Definition constantTimeEqual (a b : list Z) : bool :=
  fold_left (fun diff index => js_or diff (js_xor (code_at a index) (code_at b index)))
    (seq 0 (Nat.max (length a) (length b))) (js_xor (Z.of_nat (length a)) (Z.of_nat (length b))) =? 0.

(** A refusal with the status of its answer, or an update that could not be saved. *)
Inductive PostError := rejected (status : Z) (message : string) | not_saved (message : string).

Definition require (b : bool) (status : Z) (message : string) : result PostError () :=
  if b then Ok tt else Err (rejected status message).

Definition saved {A} (message : string) (m : result unit A) : result PostError A :=
  match m with Ok a => Ok a | Err _ => Err (not_saved message) end.

(** The checks before anything is written, and the entry the form asks for. *)
Definition check_post (sha256Base64Url : string -> string) (env : StatusEnv) (randomId : string) (s : StatusPageSnapshot)
    (form : BreakGlassForm) (st : Stores) : result PostError (StatusPageOverlayEntry * ListedOverlay) :=
  let! expected := match sn_breakGlassTokenSha256 s with
    | Some expected => Ok expected
    | None => Err (rejected 403 "Break-glass updates are not enabled for this page.")
    end in
  let! _ := require (constantTimeEqual (utf16_units (sha256Base64Url (bf_token form))) (utf16_units expected)) 403
    "That token is not valid for this page." in
  let isNew := bool_decide (bf_incidentId form = NEW_INCIDENT) || bool_decide (bf_incidentId form = EmptyString) in
  let! _ := require (negb (isNew && bool_decide (bf_title form = EmptyString))) 400 "Give the new incident a title." in
  let target := if isNew then None else List.find (fun i => bool_decide (si_id i = bf_incidentId form)) (sn_incidents s) in
  let! _ := require (isNew || bool_decide (is_Some target)) 400 "That incident is not on this page." in
  let kind := match target with Some i => si_kind i | None => k_incident end in
  let! _ := require (match bf_status form with Some status => statusFitsKind kind status | None => true end) 400
    (match kind with
     | k_incident => "That status is for maintenance; pick an incident status."
     | k_maintenance => "That status is for incidents; pick a maintenance status."
     end) in
  let componentIds := dedupe (bf_componentIds form) in
  let! _ := require (forallb (fun id => bool_decide (id ∈ List.map sc_id (sn_components s))) componentIds) 400
    "One of the selected components is not on this page." in
  let! listed := saved "The overlay could not be read." (listOverlay env (sn_pageId s) st) in
  let! _ := require (negb (STATUS_PAGE_OVERLAY_MAX_ENTRIES <=? length (lo_keys listed))%nat) 409
    "This page holds the most break-glass updates it can until Maple imports them." in
  Ok ({| oe_id := randomId; oe_at := nowMs env; oe_incidentId := if isNew then None else Some (bf_incidentId form);
         oe_title := if bool_decide (bf_title form = EmptyString) then None else Some (bf_title form);
         oe_status := if isNew then Some (default investigating (bf_status form)) else bf_status form;
         oe_impact := if isNew then Some (default i_major (bf_impact form)) else bf_impact form;
         oe_body := bf_body form; oe_componentIds := componentIds |}, listed).

Definition postBreakGlassUpdate (sha256Base64Url : string -> string) (env : StatusEnv) (randomId : string)
    (s : StatusPageSnapshot) (form : BreakGlassForm) (st : Stores) : result PostError StatusPageOverlayEntry * Stores :=
  match check_post sha256Base64Url env randomId s form st with
  | Err error => (Err error, st)
  | Ok (entry, listed) =>
      match kvPut env (overlayEntry (sn_pageId s) randomId) (overlay_entry_json entry) st with
      | Err _ => (Err (not_saved "The overlay could not be written."), st)
      | Ok written => (Ok entry, (rememberOverlay env (sn_pageId s) (lo_entries listed ++ [entry]) written).2)
      end
  end.
End Worker.
