(* ===== verification/StatusEdgeProof.v ===== *)
(** * Status pages: the worker through an outage

    What the worker answers while stores fail. *)

From Stdlib Require Import Ascii String.
From stdpp Require Import prelude list strings relations.
From Stdlib Require Import ZArith Lia.
From S2P Require Import Prelude.
From S2P Require Import JsString.
From S2P Require Import StatusPage.
From S2P Require Import StatusOverlay.
From S2P Require Import StatusEdge.

Open Scope Z_scope.
Local Open Scope maple_scope.

(** ** Reading through *)

Section Read.
Context {A : Type} (env : StatusEnv) (input : ReadInput A) (st : Stores).

Definition kv_answer : result unit (option string) := kvGet env (ri_kvKey input) st.
Definition r2_answer : result unit (option string) :=
  match ri_r2Key input with Some key => r2Get env key st | None => Err tt end.
Definition cached_copy : option (string * A) :=
  decodeFound (ri_decode input) (Ok (cv_value <$> cacheGet env (ri_cacheKey input) st)).

(** What it takes to say that there is no page: the store that is asked first
    says so and its word is final, or one of the two stores answers and no
    answer, nor a copy in the cache, can be read. *)
Definition says_missing : Prop :=
  (ri_kvMissIsFinal input = true /\ kv_answer = Ok None) \/
  ((is_ok kv_answer = true \/ is_ok r2_answer = true) /\ decodeFound (ri_decode input) kv_answer = None /\
   decodeFound (ri_decode input) r2_answer = None /\ cached_copy = None).

(** A miss was said by a store and changes nothing; nothing is unavailable while a
    store or the cache has an answer. *)
Lemma read_through_absence :
  ((readThrough env input st).1 = missing -> says_missing /\ (readThrough env input st).2 = st) /\
  ((readThrough env input st).1 = unavailable -> is_ok kv_answer = false /\ is_ok r2_answer = false /\ cached_copy = None).
Proof.
  unfold readThrough, says_missing. change (kvGet env (ri_kvKey input) st) with kv_answer.
  change (match ri_r2Key input with Some key => r2Get env key st | None => Err tt end) with r2_answer.
  change (decodeFound (ri_decode input) (Ok (cv_value <$> cacheGet env (ri_cacheKey input) st))) with cached_copy.
  destruct (cacheGet env _ st) as [c|]; destruct cached_copy as [hit|]; try destruct (_ <? _); cbn [fst snd];
    try done; destruct (decodeFound (ri_decode input) kv_answer) as [fresh|]; try done;
    destruct kv_answer as [[raw|]|]; cbn [is_ok]; destruct (ri_kvMissIsFinal input); cbn [andb fst snd];
    destruct (decodeFound (ri_decode input) r2_answer) as [old|]; try done; destruct r2_answer as [o|]; cbn; split; intros ?;
    try done; naive_solver.
Qed.

(** A copy in the cache, of any age, is served unless the store says there is
    no page. *)
Lemma read_through_copy hit : cached_copy = Some hit -> is_ok kv_answer = false -> is_ok r2_answer = false ->
  readThrough env input st = (found hit.2, st).
Proof.
  intros H Hkv Hr2. unfold readThrough. change (kvGet env (ri_kvKey input) st) with kv_answer.
  change (match ri_r2Key input with Some key => r2Get env key st | None => Err tt end) with r2_answer.
  change (decodeFound (ri_decode input) (Ok (cv_value <$> cacheGet env (ri_cacheKey input) st))) with cached_copy. rewrite H.
  destruct kv_answer as [o|]; [done|]. destruct r2_answer as [o|]; [done|]. cbn [decodeFound is_ok].
  destruct (cacheGet env _ st) as [c|]; [destruct (_ <? _)|]; destruct (ri_kvMissIsFinal input); done.
Qed.
End Read.

(** ** Outages *)

Section Requests.
Context (toLowerCase : string -> string) {J : StatusJson}.

(** Both stores are down, the cache is not. *)
Definition stores_down (env : StatusEnv) : Prop :=
  (forall key, kvGet_fails env key = true) /\ (forall key, r2_fails env key = true) /\
  (forall prefix, kv_keys env prefix = None) /\ (forall key, cacheGet_fails env key = false).

Lemma down_kv env key st : stores_down env -> kvGet env key st = Err tt.
Proof. intros (H & _). unfold kvGet. by rewrite H. Qed.

Lemma down_overlay env pageId st : stores_down env -> loadOverlay env pageId st = (cachedOverlayEntries env pageId st, st).
Proof.
  intros (_ & _ & H & _). unfold loadOverlay, listOverlay, kvList, cachedOverlayEntries. rewrite H. cbn [result_bind].
  destruct (readCachedOverlay env pageId st) as [[overlay storedAt]|]; [|done]. by destruct (_ <? _).
Qed.

Lemma down_read {A} env (input : ReadInput A) st c v : stores_down env ->
  map_get (ri_cacheKey input) (cache st) = Some c -> ri_decode input (cv_value c) = Some v ->
  readThrough env input st = (found v, st).
Proof.
  intros (H1 & H2 & _ & H4) Hc Hv. apply (read_through_copy env input st (cv_value c, v)).
  - unfold cached_copy, cacheGet. rewrite H4, Hc. cbn. by rewrite Hv.
  - unfold kv_answer, kvGet. by rewrite H1.
  - unfold r2_answer, r2Get. destruct (ri_r2Key input); [|done]. by rewrite H2.
Qed.

(** The status a page falls back to without a heartbeat. *)
Lemma quiet_freshness s now : existsb sc_monitored (sn_components s) = true ->
  pageFreshness s None now = delayed (Z.max (sn_generatedAt s) 0).
Proof. intros H. unfold pageFreshness. by rewrite H. Qed.

(** C17: with both stores down, a page whose route and snapshot are in the cache,
    however old, is served from them with the cached updates applied; nothing is
    written, and a page with monitors says that it is delayed. *)
Theorem outage_serves_last_copy env hostname path st route copy id s (Hdown : stores_down env)
    (Hpath : path <> "/_health"%string)
    (Hroute : map_get (cacheKey "host" (toLowerCase hostname)) (cache st) = Some route)
    (Hid : decodePageId (cv_value route) = Some id)
    (Hcopy : map_get (cacheKey "snapshot" id) (cache st) = Some copy)
    (Hs : decodeStatusPageSnapshotJson (cv_value copy) = Some s) :
  let view := applyOverlay s (cachedOverlayEntries env id st) in
  let target := {| tg_pageId := id; tg_basePath := EmptyString; tg_path := path; tg_slug := None |} in
  handleRequest toLowerCase env hostname path st =
    (page target {| pv_snapshot := view; pv_freshness := pageFreshness view None (nowMs env) |}, st) /\
  (existsb sc_monitored (sn_components view) = true -> pageFreshness view None (nowMs env) = delayed (Z.max (sn_generatedAt s) 0)).
Proof.
  cbv zeta. split.
  - unfold handleRequest. rewrite bool_decide_false by done. unfold resolveTarget, pageIdForHost.
    rewrite (down_read env _ st route id) by done. cbn [tg_pageId tg_slug].
    unfold loadView, loadSnapshot. rewrite (down_read env _ st copy s) by done. rewrite down_overlay by done.
    unfold loadHeartbeat. by rewrite down_kv.
  - intros Hm. rewrite quiet_freshness by done. f_equal. f_equal. unfold applyOverlay. by destruct (pending_entries _ _).
Qed.

(** Nothing read names a page. *)
Definition no_id (answer : result unit (option string)) : Prop :=
  forall raw, answer = Ok (Some raw) -> decodePageId raw = None.

(** A route that is known not to be there: the key-value store says so, or a store
    answers and neither an answer nor a copy in the cache names a page. *)
Definition route_missing (env : StatusEnv) (key object slot : string) (st : Stores) : Prop :=
  kvGet env key st = Ok None \/
  ((is_ok (kvGet env key st) = true \/ is_ok (r2Get env object st) = true) /\ no_id (kvGet env key st) /\
   no_id (r2Get env object st) /\ no_id (Ok (cv_value <$> cacheGet env slot st))).

Lemma found_none answer : decodeFound decodePageId answer = None -> no_id answer.
Proof. intros Hf raw ->. cbn in Hf. by destruct (decodePageId raw). Qed.

Lemma missing_route env key object slot st :
  let input := {| ri_cacheKey := slot; ri_kvKey := key; ri_r2Key := Some object; ri_kvMissIsFinal := true;
                  ri_decode := decodePageId |} in
  (readThrough env input st).1 = missing -> route_missing env key object slot st /\ (readThrough env input st).2 = st.
Proof.
  cbv zeta. intros [[[_ Hn]|(Ha & Hk & Hr & Hc)] Hst]%read_through_absence; (split; [|exact Hst]); [by left|right].
  split_and!; [exact Ha|by apply found_none..].
Qed.

(** A resolved route that is missing. *)
Lemma missing_target env hostname path st : (resolveTarget toLowerCase env hostname path st).1 = missing ->
  route_missing env (host_key (toLowerCase hostname)) (hostObject (toLowerCase hostname))
    (cacheKey "host" (toLowerCase hostname)) st /\
  (forall slug rest, slug_path path = Some (slug, rest) ->
     route_missing env (slug_key slug) (slugObject slug) (cacheKey "slug" slug) st).
Proof.
  unfold resolveTarget, pageIdForHost, pageIdForSlug. intros Hm.
  pose proof (missing_route env (host_key (toLowerCase hostname)) (hostObject (toLowerCase hostname))
    (cacheKey "host" (toLowerCase hostname)) st) as Hh. cbv zeta in Hh.
  destruct (readThrough env _ st) as [byHost st1] eqn:E1. cbn [fst snd] in Hh.
  destruct (slug_path path) as [[slug rest]|]; [|destruct byHost; [done|split; [by apply Hh|done]|done]].
  pose proof (missing_route env (slug_key slug) (slugObject slug) (cacheKey "slug" slug) st1) as Hs. cbv zeta in Hs.
  destruct (readThrough env _ st1) as [bySlug st2] eqn:E2. cbn [fst snd] in Hs.
  destruct byHost as [id| |]; [done| |by destruct bySlug].
  destruct (Hh eq_refl) as [Hhost ->]. split; [done|]. intros slug' rest' [= <- <-].
  destruct bySlug as [id| |]; [done| |done]. by apply Hs.
Qed.

(** C33: an outage is never told as a missing page. When the answer is that there
    is no page, the route of the host is known to be missing and, for a path that
    names a slug, so is the route of the slug: the key-value store said so, or a
    store answered and neither an answer nor a cached copy names a page. The only
    other case is a slug whose page was found and goes by another slug now. *)
Theorem absence_is_confirmed env hostname path st (H : (handleRequest toLowerCase env hostname path st).1 = no_page) :
  (route_missing env (host_key (toLowerCase hostname)) (hostObject (toLowerCase hostname))
     (cacheKey "host" (toLowerCase hostname)) st /\
   forall slug rest, slug_path path = Some (slug, rest) ->
     route_missing env (slug_key slug) (slugObject slug) (cacheKey "slug" slug) st) \/
  (exists slug rest t v, slug_path path = Some (slug, rest) /\
     (resolveTarget toLowerCase env hostname path st).1 = found t /\
     (loadView env (tg_pageId t) (resolveTarget toLowerCase env hostname path st).2).1 = Some v /\
     sp_slug (sn_page (pv_snapshot v)) <> slug).
Proof.
  unfold handleRequest in H. destruct (bool_decide (path = _)); [done|].
  destruct (resolveTarget toLowerCase env hostname path st) as [[t| |] st1] eqn:E; cbn [fst snd] in *;
    [|left; apply missing_target; by rewrite E|done].
  right. destruct (loadView env (tg_pageId t) st1) as [[v|] st2] eqn:Ev; [|done].
  destruct (tg_slug t) as [slug|] eqn:Et; [|done]. destruct (bool_decide (_ = slug)) eqn:Es; [done|].
  unfold resolveTarget in E. destruct (pageIdForHost toLowerCase env hostname st) as [byHost st3].
  destruct byHost as [id| |]; [by injection E as <- <-| |];
    destruct (slug_path path) as [[slug' rest]|] eqn:Ep; try done;
    destruct (pageIdForSlug env slug' st3) as [[id| |] st4]; try done; injection E as <- <-;
    cbn in Et; injection Et as ->; exists slug, rest, {| tg_pageId := id; tg_basePath := ("/s/" ++ slug)%string;
      tg_path := default "/"%string rest; tg_slug := Some slug |}, v; cbn [tg_pageId] in *;
    (split_and!; [done|done|by rewrite Ev|by apply bool_decide_eq_false in Es]).
Qed.
End Requests.
