(* ===== verification/StatusPosts.v ===== *)
(** * Status pages: break-glass updates

    Who may post an update, what a post writes, and that the update stays
    visible in its colo while the listing of the store lags. *)

From Stdlib Require Import Ascii String.
From stdpp Require Import prelude list strings relations countable.
From Stdlib Require Import ZArith Lia.
From S2P Require Import Prelude.
From S2P Require Import JsString.
From S2P Require Import StatusPage.
From S2P Require Import StatusImport.
From S2P Require Import StatusOverlay.
From S2P Require Import StatusEdge.
From S2P Require Import StatusEdgeProof.

Open Scope Z_scope.
Local Open Scope maple_scope.

(** ** Comparison in constant time *)

Definition small (v : Z) : Prop := 0 <= v < 2 ^ 31.

Lemma log2_small v : 0 <= v -> (Z.log2 v < 31 <-> v < 2 ^ 31).
Proof.
  intros H. destruct (Z.eq_dec v 0) as [->|Hne]; [by vm_compute|]. symmetry. apply Z.log2_lt_pow2. lia.
Qed.

Lemma lor_small a b : small a -> small b -> small (Z.lor a b).
Proof.
  intros [Ha1 Ha2] [Hb1 Hb2]. assert (0 <= Z.lor a b) by by apply Z.lor_nonneg. split; [done|].
  apply log2_small; [done|]. rewrite Z.log2_lor by done. apply log2_small in Ha2, Hb2; lia.
Qed.

Lemma lxor_small a b : small a -> small b -> small (Z.lxor a b).
Proof.
  intros [Ha1 Ha2] [Hb1 Hb2]. assert (0 <= Z.lxor a b) by (apply Z.lxor_nonneg; lia). split; [done|].
  apply log2_small; [done|]. apply log2_small in Ha2, Hb2; [|lia..].
  pose proof (Z.log2_lxor a b ltac:(lia) ltac:(lia)). lia.
Qed.

Lemma js_or_small a b : small a -> small b -> js_or a b = Z.lor a b.
Proof. intros Ha Hb. unfold js_or. pose proof (lor_small a b Ha Hb). unfold small in *. rewrite !to_int32_small; rewrite ?to_int32_small; lia. Qed.

Lemma js_xor_small a b : small a -> small b -> js_xor a b = Z.lxor a b.
Proof. intros Ha Hb. unfold js_xor. pose proof (lxor_small a b Ha Hb). unfold small in *. rewrite !to_int32_small; rewrite ?to_int32_small; lia. Qed.

Lemma fold_or f l : forall d, small d -> (forall x : nat, x ∈ l -> small (f x)) ->
  fold_left (fun diff x => js_or diff (f x)) l d = 0 <-> d = 0 /\ forall x, x ∈ l -> f x = 0.
Proof.
  induction l as [|x l IH]; intros d Hd Hf; cbn [fold_left].
  - split; [intros ->|by intros [-> _]]. split; [done|]. intros x Hx. by apply elem_of_nil in Hx.
  - assert (small (f x)) as Hx by (apply Hf; by left). rewrite js_or_small by done.
    rewrite IH; [|by apply lor_small|intros y Hy; apply Hf; by right].
    rewrite Z.lor_eq_0_iff. split.
    + intros [[-> H] Hl]. split; [done|]. intros y [->|Hy]%elem_of_cons; [done|by apply Hl].
    + intros [-> H]. split_and!; [done|apply H; by left|]. intros y Hy. apply H. by right.
Qed.

Definition units_small (a : list Z) : Prop := Forall small a.

Lemma code_small a i : units_small a -> small (code_at a i).
Proof.
  intros H. unfold code_at. destruct (a !! i) as [c|] eqn:E; [|by vm_compute]. eapply Forall_lookup_1 in H; done.
Qed.

(** The comparison is equality of texts. *)
Lemma constant_time_exact a b : units_small a -> units_small b -> Z.of_nat (length a) < 2 ^ 31 -> Z.of_nat (length b) < 2 ^ 31 ->
  constantTimeEqual a b = true <-> a = b.
Proof.
  intros Ha Hb La Lb. unfold constantTimeEqual. rewrite Z.eqb_eq.
  assert (forall n, Z.of_nat n < 2 ^ 31 -> small (Z.of_nat n)) as Hs by (intros n Hn; split; [lia|done]).
  rewrite (fold_or (fun i => js_xor (code_at a i) (code_at b i))).
  - rewrite js_xor_small by by apply Hs. rewrite Z.lxor_eq_0_iff. split.
    + intros [Hl Hc]. apply Nat2Z.inj in Hl. apply list_eq. intros i.
      destruct (decide (i < length a)%nat) as [Hi|Hi].
      * specialize (Hc i). rewrite js_xor_small in Hc by by apply code_small. rewrite Z.lxor_eq_0_iff in Hc.
        destruct (lookup_lt_is_Some_2 a i Hi) as [x Ex], (lookup_lt_is_Some_2 b i ltac:(lia)) as [y Ey].
        unfold code_at in Hc. rewrite Ex, Ey in *. cbn in Hc. f_equal. apply Hc. apply elem_of_seq. lia.
      * by rewrite !lookup_ge_None_2 by lia.
    + intros ->. split; [done|]. intros i _. rewrite js_xor_small by by apply code_small. apply Z.lxor_nilpotent.
  - rewrite js_xor_small by by apply Hs. by apply lxor_small; apply Hs.
  - intros i _. rewrite js_xor_small by by apply code_small. by apply lxor_small; apply code_small.
Qed.

Lemma units_are_small s : units_small (utf16_units s).
Proof.
  assert (forall c, 0 <= byte_of c < 256) as Hb.
  { intros c. unfold byte_of. pose proof (N_ascii_bounded c). lia. }
  induction s as [|c s IH]; cbn [utf16_units]; [constructor|].
  destruct (Z.ltb_spec (byte_of c) 128).
  { constructor; [|done]. pose proof (Hb c). unfold small. lia. }
  destruct (byte_of c <? 192); [done|].
  assert (forall d, 0 <= byte_of d mod 64 < 64) as Hm by (intros; apply Z.mod_pos_bound; lia).
  destruct (byte_of c <? 224).
  { destruct s as [|c1 s]; [constructor|]. constructor; [|done]. pose proof (Hm c1). pose proof (Z.mod_pos_bound (byte_of c) 32 ltac:(lia)).
    unfold small. lia. }
  destruct (byte_of c <? 240).
  { destruct s as [|c1 [|c2 s]]; [constructor|constructor|]. constructor; [|done].
    pose proof (Hm c1). pose proof (Hm c2). pose proof (Z.mod_pos_bound (byte_of c) 16 ltac:(lia)). unfold small. lia. }
  destruct s as [|c1 [|c2 [|c3 s]]]; [constructor|constructor|constructor|].
  pose proof (Hm c1). pose proof (Hm c2). pose proof (Hm c3). pose proof (Z.mod_pos_bound (byte_of c) 8 ltac:(lia)).
  set (v := _ - 65536). assert (-65536 <= v < 2 ^ 21) as Hv by (subst v; lia).
  constructor; [|constructor; [|done]]; unfold small.
  - assert (-64 <= v / 1024 < 2 ^ 11) by (split; [apply Z.div_le_lower_bound; lia|apply Z.div_lt_upper_bound; lia]). lia.
  - pose proof (Z.mod_pos_bound v 1024 ltac:(lia)). lia.
Qed.

(** ** What a post writes *)

Section Post.
Context {J : StatusJson} {L : StatusJsonLaws} (sha256Base64Url : string -> string).

Lemma require_ok b status message {A} (k : result PostError A) a :
  result_bind (require b status message) (fun _ => k) = Ok a -> b = true /\ k = Ok a.
Proof. by destruct b. Qed.

(** The target of a form: an incident of the page, or a new one. *)
Definition form_is_new (form : BreakGlassForm) : Prop := bf_incidentId form = NEW_INCIDENT \/ bf_incidentId form = EmptyString.

(** A form a page takes: the token is the page's, an incident it names is one of
    the page and takes its status, and its components are the page's. *)
Definition form_fits (s : StatusPageSnapshot) (form : BreakGlassForm) : Prop :=
  (exists expected, sn_breakGlassTokenSha256 s = Some expected /\
     utf16_units (sha256Base64Url (bf_token form)) = utf16_units expected) /\
  (form_is_new form /\ bf_title form <> EmptyString /\
     (forall status, bf_status form = Some status -> statusFitsKind k_incident status = true) \/
   exists i, i ∈ sn_incidents s /\ si_id i = bf_incidentId form /\
     (forall status, bf_status form = Some status -> statusFitsKind (si_kind i) status = true)) /\
  (forall id, id ∈ bf_componentIds form -> id ∈ List.map sc_id (sn_components s)).

(** JavaScript texts are shorter than 2^31 units. *)
Definition short (s : string) : Prop := Z.of_nat (length (utf16_units s)) < 2 ^ 31.

(** The entry a form asks for. *)
Definition entry_of_form (form : BreakGlassForm) (e : StatusPageOverlayEntry) : Prop :=
  (form_is_new form -> oe_incidentId e = None /\ oe_status e = Some (default investigating (bf_status form)) /\
     oe_impact e = Some (default i_major (bf_impact form))) /\
  (~ form_is_new form -> oe_incidentId e = Some (bf_incidentId form) /\ oe_status e = bf_status form /\
     oe_impact e = bf_impact form) /\
  oe_body e = bf_body form /\ (bf_title form <> EmptyString -> oe_title e = Some (bf_title form)) /\
  NoDup (oe_componentIds e) /\ (forall id, id ∈ oe_componentIds e <-> id ∈ bf_componentIds form).

Lemma checked_facts env randomId s form st e listed :
  check_post sha256Base64Url env randomId s form st = Ok (e, listed) ->
  (short (sha256Base64Url (bf_token form)) -> (forall expected, sn_breakGlassTokenSha256 s = Some expected -> short expected) ->
     form_fits s form) /\
  oe_id e = randomId /\ oe_at e = nowMs env /\ entry_of_form form e /\
  (length (lo_keys listed) < 50)%nat /\ listOverlay env (sn_pageId s) st = Ok listed.
Proof.
  unfold check_post. destruct (sn_breakGlassTokenSha256 s) as [expected|] eqn:Et; [|done]. cbn [result_bind].
  intros [Htoken H]%require_ok.
  set (isNew := bool_decide (bf_incidentId form = NEW_INCIDENT) || bool_decide (bf_incidentId form = EmptyString)) in *.
  apply require_ok in H as [Htitle H].
  set (target := if isNew then None else _) in *. apply require_ok in H as [Htarget H].
  set (kind := match target with Some i => si_kind i | None => k_incident end) in *.
  apply require_ok in H as [Hstatus H]. apply require_ok in H as [Hcomponents H].
  destruct (listOverlay env (sn_pageId s) st) as [l|] eqn:El; [|done]. cbn [saved result_bind] in H.
  apply require_ok in H as [Hroom H]. injection H as <- <-.
  split_and!; try done; [| |by apply negb_true_iff, Nat.leb_gt in Hroom]; cycle 1.
  { assert (isNew = true <-> form_is_new form) as Hnew
      by (subst isNew; rewrite orb_true_iff, !bool_decide_eq_true; done).
    unfold entry_of_form. cbn. split_and!.
    - intros ->%Hnew. done.
    - intros Hn. destruct isNew; [by destruct Hn; apply Hnew|done].
    - done.
    - intros Ht. by rewrite bool_decide_false.
    - apply NoDup_dedupe.
    - intros id. apply elem_of_dedupe. }
  intros Hshort Hexp. split_and!; [exists expected; split; [done|]; by apply constant_time_exact; [apply units_are_small..|exact Hshort|by apply Hexp|]| |].
  - destruct isNew eqn:En.
    + left. split_and!.
      * subst isNew. apply orb_true_iff in En as [En%bool_decide_eq_true|En%bool_decide_eq_true]; [by left|by right].
      * apply negb_true_iff in Htitle. cbn in Htitle. by apply bool_decide_eq_false in Htitle.
      * intros status E. rewrite E in Hstatus. exact Hstatus.
    + right. subst target. cbn [orb] in Htarget. apply bool_decide_eq_true in Htarget as [i Hi]. exists i.
      apply find_some in Hi as Hf. destruct Hf as [Hin Hid]. split_and!; [by apply list_elem_of_In|by apply bool_decide_eq_true in Hid|].
      intros status E. rewrite E in Hstatus. subst kind. by rewrite Hi in Hstatus.
  - intros id Hid. eapply forallb_forall in Hcomponents; [by apply bool_decide_eq_true in Hcomponents|].
    by apply list_elem_of_In, elem_of_dedupe.
Qed.

(** C18: a post is refused without a trace, or it writes one key of its own. It is
    taken only when the digest of the form's token is the page's (the comparison
    in constant time is equality, for texts shorter than 2^31 units), its
    incident, status and components are the page's, and fewer than fifty updates
    were listed as waiting; what it writes is the entry the form asks for, under
    the key of its own identifier, and every other key of the store, including
    the ones of posts that run at the same time, is left alone. *)
Theorem post_writes_its_own_key env randomId s form st (Hdigest : short (sha256Base64Url (bf_token form)))
    (Hexpected : forall expected, sn_breakGlassTokenSha256 s = Some expected -> short expected) :
  match postBreakGlassUpdate sha256Base64Url env randomId s form st with
  | (Err _, st') => st' = st
  | (Ok e, st') =>
      form_fits s form /\
      (exists listed, listOverlay env (sn_pageId s) st = Ok listed /\ (length (lo_keys listed) < 50)%nat) /\
      oe_id e = randomId /\ oe_at e = nowMs env /\ entry_of_form form e /\
      map_get (overlayEntry (sn_pageId s) randomId) (kv st') ≫= decodeStatusPageOverlayEntryJson = Some e /\
      (forall key, key <> overlayEntry (sn_pageId s) randomId -> map_get key (kv st') = map_get key (kv st)) /\
      r2 st' = r2 st
  end.
Proof using L.
  unfold postBreakGlassUpdate. destruct (check_post _ env randomId s form st) as [[e listed]|error] eqn:E; [|done].
  apply checked_facts in E as (H1 & H2 & H3 & H4 & Hroom & Hlist). unfold kvPut. destruct (kvPut_fails env _); [done|].
  cbn [rememberOverlay snd]. set (st2 := {| kv := _; r2 := _; cache := _ |}).
  assert (forall key entry, kv (cachePut env key entry st2) = kv st2 /\ r2 (cachePut env key entry st2) = r2 st2) as Hc
    by (intros key entry; unfold cachePut; by destruct (cachePut_fails env key)).
  unfold rememberOverlay. cbn [snd]. destruct (Hc (cacheKey "overlay" (sn_pageId s))
    {| cv_value := overlay_json ((lo_entries listed ++ [e]) ++ recent env (lo_entries listed ++ [e]) (cachedOverlayEntries env (sn_pageId s) st2));
       cv_storedAt := nowMs env |}) as [-> ->].
  split_and!; try done.
  - by apply H1.
  - by exists listed.
  - subst st2. cbn [kv]. rewrite map_get_set_eq. cbn. apply entry_json_reads.
  - intros key Hk. subst st2. cbn [kv]. by rewrite map_get_set_ne by congruence.
Qed.
End Post.

(** ** Visible while the listing lags *)

Section Visible.
Context {J : StatusJson} {L : StatusJsonLaws} (toLowerCase sha256Base64Url : string -> string) (pageId : string)
  (e : StatusPageOverlayEntry).

Definition overlay_slot : string := cacheKey "overlay" pageId.

(** The overlay in the cache of the colo. *)
Definition cached_overlay (st : Stores) : option (list StatusPageOverlayEntry * Z) :=
  c ← map_get overlay_slot (cache st); o ← decodeOverlayJson (cv_value c); Some (o, cv_storedAt c).

(** No other entry has the identifier of [e]. *)
Definition own_id (st : Stores) : Prop :=
  forall key e', map_get key (kv st) ≫= decodeStatusPageOverlayEntryJson = Some e' -> oe_id e' = oe_id e -> e' = e.

Definition kept (st : Stores) : Prop := (exists o t, cached_overlay st = Some (o, t) /\ e ∈ o) /\ own_id st.

(** A request while a listing may lag: the cache answers it. *)
Definition in_time (env : StatusEnv) : Prop := cacheGet_fails env overlay_slot = false /\ nowMs env - oe_at e < LIST_LAG_MS.

Lemma read_cached env st : in_time env -> readCachedOverlay env pageId st = cached_overlay st.
Proof. intros [H _]. unfold readCachedOverlay, cacheGet, cached_overlay, overlay_slot in *. by rewrite H. Qed.

Lemma kept_other env st key entry : key <> overlay_slot -> kept st -> kept (cachePut env key entry st).
Proof.
  intros Hk H. unfold cachePut. destruct (cachePut_fails env key); [done|]. destruct H as [H Ho]. split; [|done].
  unfold cached_overlay in *. cbn [cache]. by rewrite map_get_set_ne.
Qed.

Lemma kept_put env st o t : kept st -> e ∈ o -> kept (cachePut env overlay_slot {| cv_value := overlay_json o; cv_storedAt := t |} st).
Proof using L.
  intros H He. unfold cachePut. destruct (cachePut_fails env overlay_slot); [done|]. destruct H as [_ Ho]. split; [|done].
  exists o, t. split; [|done]. unfold cached_overlay. cbn [cache]. rewrite map_get_set_eq. cbn. by rewrite overlay_json_reads.
Qed.

Lemma recent_keeps env st entries : in_time env -> kept st -> (forall x, x ∈ entries -> oe_id x = oe_id e -> x = e) ->
  e ∈ entries ++ recent env entries (cachedOverlayEntries env pageId st).
Proof.
  intros Henv [(o & t & Hc & He) _] Hx. apply elem_of_app.
  destruct (decide (oe_id e ∈ List.map oe_id entries)) as [Hin|Hin].
  - left. apply list_elem_of_In, in_map_iff in Hin as (x & Hid & Hi%list_elem_of_In). by rewrite <- (Hx x Hi Hid).
  - right. unfold cachedOverlayEntries. rewrite read_cached, Hc by done. unfold recent. apply list_elem_of_In, filter_In.
    split; [by apply list_elem_of_In|]. rewrite bool_decide_false by done. cbn. apply Z.ltb_lt. apply Henv.
Qed.

Lemma listed_own env other st listed : own_id st -> listOverlay env other st = Ok listed ->
  forall x, x ∈ lo_entries listed -> oe_id x = oe_id e -> x = e.
Proof.
  intros Ho. unfold listOverlay. destruct (kvList env _ _) as [keys|]; [|done]. cbn [result_bind].
  destruct (read_entries env st keys) as [entries|] eqn:E; [|done]. cbn [result_bind]. intros [= <-]. cbn [lo_entries].
  revert entries E. induction keys as [|key keys IH]; intros entries; cbn [read_entries].
  - intros [= <-] x Hx. by apply elem_of_nil in Hx.
  - unfold read_entry, kvGet. destruct (kvGet_fails env key); [done|]. cbn [result_bind].
    destruct (read_entries env st keys) as [rest|]; [|done]. cbn [result_bind].
    destruct (map_get key (kv st) ≫= decodeStatusPageOverlayEntryJson) as [x|] eqn:Ex; intros [= <-].
    + intros y [->|Hy]%elem_of_cons; [by apply (Ho key)|by apply (IH rest)].
    + by apply (IH rest).
Qed.

Lemma remember_keeps env other st entries : in_time env -> kept st -> (forall x, x ∈ entries -> oe_id x = oe_id e -> x = e) ->
  kept (rememberOverlay env other entries st).2.
Proof using L.
  intros Henv Hk Hx. cbn [rememberOverlay snd]. destruct (decide (cacheKey "overlay" other = overlay_slot)) as [E|E].
  - assert (cachedOverlayEntries env other st = cachedOverlayEntries env pageId st) as ->
      by (unfold cachedOverlayEntries, readCachedOverlay, overlay_slot in *; by rewrite E).
    rewrite E. apply kept_put; [done|]. by apply recent_keeps.
  - by apply kept_other.
Qed.

Lemma load_keeps env other st : in_time env -> kept st -> kept (loadOverlay env other st).2.
Proof using L.
  intros Henv Hk. unfold loadOverlay.
  assert (kept (match listOverlay env other st with
                | Ok l => rememberOverlay env other (lo_entries l) st
                | Err _ => (cachedOverlayEntries env other st, st)
                end).2) as Hl.
  { destruct (listOverlay env other st) as [l|] eqn:El; [|done]. apply remember_keeps; [done|done|].
    by apply (listed_own env other st); [apply Hk|]. }
  destruct (readCachedOverlay env other st) as [[o t]|]; [|done]. by destruct (_ <? _).
Qed.

Lemma load_shows env st : in_time env -> kept st -> e ∈ (loadOverlay env pageId st).1.
Proof.
  intros Henv Hk. assert (e ∈ cachedOverlayEntries env pageId st) as Hc.
  { destruct Hk as [(o & t & Ho & He) _]. unfold cachedOverlayEntries. by rewrite read_cached, Ho. }
  unfold loadOverlay.
  assert (e ∈ (match listOverlay env pageId st with
               | Ok l => rememberOverlay env pageId (lo_entries l) st
               | Err _ => (cachedOverlayEntries env pageId st, st)
               end).1) as Hl.
  { destruct (listOverlay env pageId st) as [l|] eqn:El; [|done]. apply recent_keeps; [done|done|].
    by apply (listed_own env pageId st); [apply Hk|]. }
  unfold cachedOverlayEntries in Hc. destruct (readCachedOverlay env pageId st) as [[o t]|] eqn:Er; [|done].
  by destruct (_ <? _).
Qed.

Lemma read_keeps {A} env (input : ReadInput A) st : ri_cacheKey input <> overlay_slot -> kept st -> kept (readThrough env input st).2.
Proof.
  intros Hk H. unfold readThrough.
  destruct (decodeFound (ri_decode input) (Ok (cv_value <$> _))) as [hit|]; destruct (cacheGet env _ st) as [c|];
    try destruct (_ <? _); try exact H; destruct (decodeFound _ (kvGet _ _ _)) as [fresh|]; try by apply kept_other.
  all: destruct (_ && _); [exact H|]; destruct (decodeFound _ _) as [second|]; [by apply kept_other|exact H].
Qed.

Lemma slots_apart kind id : kind = "host"%string \/ kind = "slug"%string \/ kind = "snapshot"%string -> cacheKey kind id <> overlay_slot.
Proof. intros [-> | [-> | ->]]; unfold overlay_slot, cacheKey; cbn; intros E; by repeat injection E as E. Qed.

(** A request of a visitor. *)
Lemma request_keeps env hostname path st : in_time env -> kept st -> kept (handleRequest toLowerCase env hostname path st).2.
Proof using L.
  intros Henv H. unfold handleRequest. destruct (bool_decide _); [done|].
  assert (kept (resolveTarget toLowerCase env hostname path st).2) as Hr.
  { unfold resolveTarget. pose proof (read_keeps env {| ri_cacheKey := cacheKey "host" (toLowerCase hostname);
      ri_kvKey := host_key (toLowerCase hostname); ri_r2Key := Some (hostObject (toLowerCase hostname));
      ri_kvMissIsFinal := true; ri_decode := decodePageId |} st (slots_apart "host" _ ltac:(by left)) H) as Hh.
    unfold pageIdForHost. destruct (readThrough _ _ st) as [byHost st1]. cbn [snd] in Hh.
    assert (forall slug, kept (pageIdForSlug env slug st1).2) as Hs
      by (intros slug; apply read_keeps; [apply slots_apart; by right; left|done]).
    destruct byHost as [id| |]; [done| |]; (destruct (slug_path path) as [[slug rest]|]; [|done]);
      specialize (Hs slug); destruct (pageIdForSlug env slug st1) as [[id| |] st2]; done. }
  destruct (resolveTarget toLowerCase env hostname path st) as [[t| |] st1]; [|done|done]. cbn [snd] in Hr.
  assert (kept (loadView env (tg_pageId t) st1).2) as Hv.
  { unfold loadView. assert (kept (loadSnapshot env (tg_pageId t) st1).2) as Hs.
    { unfold loadSnapshot. pose proof (read_keeps env {| ri_cacheKey := cacheKey "snapshot" (tg_pageId t);
        ri_kvKey := snapshot_key (tg_pageId t); ri_r2Key := Some (snapshotObject (tg_pageId t));
        ri_kvMissIsFinal := false; ri_decode := decodeStatusPageSnapshotJson |} st1
        (slots_apart "snapshot" _ ltac:(by right; right)) Hr) as Hs. by destruct (readThrough _ _ st1). }
    destruct (loadSnapshot env (tg_pageId t) st1) as [s st2]. cbn [snd] in Hs.
    pose proof (load_keeps env (tg_pageId t) st2 Henv Hs) as Hl. by destruct (loadOverlay env (tg_pageId t) st2). }
  destruct (loadView env (tg_pageId t) st1) as [[v|] st2]; [|done]. destruct (tg_slug t); [|done]. by destruct (bool_decide _).
Qed.

(** Another post. *)
Lemma post_keeps env randomId s form st : in_time env -> randomId <> oe_id e -> kept st ->
  kept (postBreakGlassUpdate sha256Base64Url env randomId s form st).2.
Proof using L.
  intros Henv Hid H. unfold postBreakGlassUpdate.
  destruct (check_post _ env randomId s form st) as [[x listed]|error] eqn:E; [|done].
  apply checked_facts in E as (_ & Hx & _ & _ & _ & Hlist). unfold kvPut. destruct (kvPut_fails env _); [done|].
  cbn [snd]. apply remember_keeps; [done| |].
  - destruct H as [Hc Ho]. split; [done|]. intros key e'. cbn [kv]. rewrite map_get_set. destruct (decide _) as [_|_]; [|apply Ho].
    cbn. rewrite entry_json_reads. intros [= <-]. congruence.
  - intros y [Hy| ->%list_elem_of_singleton]%elem_of_app; [|congruence].
    apply (listed_own env (sn_pageId s) st listed); [apply H|done|done].
Qed.

(** The requests a colo answers after the post. *)
Inductive colo_step : Stores -> Stores -> Prop :=
  | visit env hostname path st : in_time env -> colo_step st (handleRequest toLowerCase env hostname path st).2
  | other_post env randomId s form st : in_time env -> randomId <> oe_id e ->
      colo_step st (postBreakGlassUpdate sha256Base64Url env randomId s form st).2.

Lemma steps_keep st st' : rtc colo_step st st' -> kept st -> kept st'.
Proof using L.
  induction 1 as [|st st' st'' Hs _ IH]; [done|]. intros Hk. apply IH.
  inversion Hs; subst; [by apply request_keeps|by apply post_keeps].
Qed.

Lemma post_is_kept env randomId s form st st' : (forall key e', map_get key (kv st) ≫= decodeStatusPageOverlayEntryJson = Some e' ->
    oe_id e' <> randomId) -> cachePut_fails env overlay_slot = false -> sn_pageId s = pageId ->
  postBreakGlassUpdate sha256Base64Url env randomId s form st = (Ok e, st') -> kept st'.
Proof using L.
  intros Hfresh Hput Hpage. unfold postBreakGlassUpdate.
  destruct (check_post _ env randomId s form st) as [[x listed]|error] eqn:E; [|done].
  apply checked_facts in E as (_ & Hx & _ & _ & _ & Hlist). unfold kvPut. destruct (kvPut_fails env _); [done|].
  intros [= -> <-]. cbn [rememberOverlay snd]. rewrite Hpage. fold overlay_slot. unfold cachePut. rewrite Hput. split.
  - eexists _, _. unfold cached_overlay. cbn [cache]. rewrite map_get_set_eq. cbn. rewrite overlay_json_reads.
    split; [done|]. apply elem_of_app. left. apply elem_of_app. right. by left.
  - intros key e'. cbn [kv]. rewrite map_get_set. destruct (decide _) as [_|_]; [|by intros H1%Hfresh H2; congruence].
    cbn. rewrite entry_json_reads. by intros [= <-].
Qed.
End Visible.

(** C7: a posted update stays on the page of its colo. Provided the cache of the
    colo took the write of the post and its overlay can be read while requests
    are answered, and for the two minutes in which the listing of the store may
    lag behind the write, every view of any snapshot of the page shows the
    update, whatever the colo answers in between: visits of any page and other
    posts (identifiers are drawn once), with listings that miss the new key or
    fail, with further writes to the cache that fail, and with the two stores up
    or down. *)
Theorem posted_update_stays_visible {J : StatusJson} {L : StatusJsonLaws} toLowerCase sha256Base64Url env randomId s form st
    e st1 st2 later snapshot
    (Hfresh : forall key e', map_get key (kv st) ≫= decodeStatusPageOverlayEntryJson = Some e' -> oe_id e' <> randomId)
    (Hput : cachePut_fails env (overlay_slot (sn_pageId s)) = false)
    (Hpost : postBreakGlassUpdate sha256Base64Url env randomId s form st = (Ok e, st1))
    (Hsteps : rtc (colo_step toLowerCase sha256Base64Url (sn_pageId s) e) st1 st2) (Htime : in_time (sn_pageId s) e later) :
  oe_id e ∈ importedEntryIds (applyOverlay snapshot (loadOverlay later (sn_pageId s) st2).1).
Proof.
  apply applied_ids, load_shows; [done|]. eapply steps_keep; [done|]. by eapply post_is_kept.
Qed.

(** ** A codec *)

#[export] Instance incident_status_countable : Countable incident_status.
Proof.
  apply (inj_countable' (fun s => match s with investigating => 0 | identified => 1 | monitoring => 2 | resolved => 3 | scheduled => 4
    | in_progress => 5 | completed => 6 end : Z)
    (fun n => if n =? 0 then investigating else if n =? 1 then identified else if n =? 2 then monitoring else if n =? 3 then resolved
      else if n =? 4 then scheduled else if n =? 5 then in_progress else completed)).
  by intros [].
Defined.

#[export] Instance incident_impact_countable : Countable incident_impact.
Proof.
  apply (inj_countable' (fun s => match s with i_none => 0 | i_minor => 1 | i_major => 2 | i_critical => 3 end : Z)
    (fun n => if n =? 0 then i_none else if n =? 1 then i_minor else if n =? 2 then i_major else i_critical)).
  by intros [].
Defined.

#[export] Instance overlay_entry_eq_dec : EqDecision StatusPageOverlayEntry.
Proof. solve_decision. Defined.

#[export] Instance overlay_entry_countable : Countable StatusPageOverlayEntry.
Proof.
  apply (inj_countable' (fun e => (oe_id e, oe_at e, oe_incidentId e, oe_title e, (oe_status e, oe_impact e, oe_body e, oe_componentIds e)))
    (fun '(id, at_, incident, title, (status, impact, body, components)) =>
       {| oe_id := id; oe_at := at_; oe_incidentId := incident; oe_title := title; oe_status := status; oe_impact := impact;
          oe_body := body; oe_componentIds := components |})).
  by intros [].
Defined.

(** The bits of a number as a text. *)
Fixpoint bits (p : positive) : string :=
  match p with xH => EmptyString | xO p => String "0" (bits p) | xI p => String "1" (bits p) end.

Fixpoint of_bits (s : string) : positive :=
  match s with
  | EmptyString => xH
  | String c s => if bool_decide (c = "0"%char) then xO (of_bits s) else xI (of_bits s)
  end.

Lemma of_bits_bits p : of_bits (bits p) = p.
Proof. induction p as [p IH|p IH|]; cbn; by rewrite ?IH. Qed.

Definition bit_json : StatusJson :=
  {| decodeStatusPageSnapshotJson := fun _ => Some acme_snapshot;
     decodeStatusPageOverlayEntryJson := fun s => decode (of_bits s);
     decodeStatusPageHeartbeatJson := fun _ => None;
     decodeOverlayJson := fun s => decode (of_bits s);
     overlay_entry_json := fun e => bits (encode e);
     overlay_json := fun l => bits (encode l) |}.

Lemma bit_json_laws : @StatusJsonLaws bit_json.
Proof. split; intros; cbn; by rewrite of_bits_bits, decode_encode. Qed.

(** ** A page in an outage *)

Definition acme_id : string := "0d7a3b1e-55aa-4c0f-9e1b-000000000001".

Definition env_at (now : Z) (down : bool) (keys : option (list string)) : StatusEnv :=
  {| nowMs := now; kvGet_fails := fun _ => down; kvPut_fails := fun _ => down; kv_keys := fun _ => keys;
     r2_fails := fun _ => down; cacheGet_fails := fun _ => false; cachePut_fails := fun _ => false |}.

Definition warm : Stores :=
  {| kv := []; r2 := [];
     cache := [(cacheKey "host" "status.acme.dev", {| cv_value := acme_id; cv_storedAt := 0 |});
               (cacheKey "snapshot" acme_id, {| cv_value := EmptyString; cv_storedAt := 0 |})] |}.

Lemma outage_serves_last_copy_witness :
  (@handleRequest (fun s => s) bit_json (env_at 700000 true None) "status.acme.dev" "/" warm).1 =
  page {| tg_pageId := acme_id; tg_basePath := EmptyString; tg_path := "/"; tg_slug := None |}
       {| pv_snapshot := acme_snapshot; pv_freshness := delayed 5000 |}.
Proof.
  destruct (@outage_serves_last_copy (fun s => s) bit_json (env_at 700000 true None) "status.acme.dev" "/" warm
    {| cv_value := acme_id; cv_storedAt := 0 |} {| cv_value := EmptyString; cv_storedAt := 0 |} acme_id acme_snapshot)
    as [H _]; [done|done|by vm_compute|by vm_compute|by vm_compute|done|]. rewrite H. by vm_compute.
Defined.

Lemma absence_is_confirmed_witness :
  route_missing (env_at 0 false None) (slug_key "acme") (slugObject "acme") (cacheKey "slug" "acme") warm.
Proof.
  destruct (@absence_is_confirmed (fun s => s) bit_json (env_at 0 false None) "nobody.dev" "/s/acme" warm)
    as [[_ H]|(slug & rest & t & v & _ & H & _)]; [by vm_compute|by apply (H "acme"%string None); vm_compute|by vm_compute in H].
Defined.

Definition acme_form : BreakGlassForm :=
  {| bf_token := "t"; bf_incidentId := "i1"; bf_title := EmptyString; bf_status := Some monitoring; bf_impact := None;
     bf_body := "A fix is out."; bf_componentIds := [] |}.

Definition acme_posted : StatusPageOverlayEntry :=
  {| oe_id := "n1"; oe_at := 6000; oe_incidentId := Some "i1"%string; oe_title := None; oe_status := Some monitoring;
     oe_impact := None; oe_body := "A fix is out."; oe_componentIds := [] |}.

Definition acme_post : result PostError StatusPageOverlayEntry * Stores :=
  @postBreakGlassUpdate bit_json (fun s => s) (env_at 6000 false (Some [])) "n1" acme_snapshot acme_form warm.

Lemma post_writes_its_own_key_witness :
  acme_post.1 = Ok acme_posted /\ r2 acme_post.2 = [].
Proof.
  pose proof (@post_writes_its_own_key bit_json bit_json_laws (fun s => s) (env_at 6000 false (Some [])) "n1" acme_snapshot
    acme_form warm ltac:(by vm_compute) ltac:(intros expected [= <-]; by vm_compute)) as H.
  assert (acme_post.1 = Ok acme_posted) as E by by vm_compute. split; [done|].
  unfold acme_post in *. destruct (@postBreakGlassUpdate _ _ _ _ _ _ _) as [[e|error] st'] eqn:Ep; [|done].
  destruct H as (_ & _ & _ & _ & _ & _ & _ & H). exact H.
Defined.

Lemma posted_update_stays_visible_witness :
  "n1"%string ∈ importedEntryIds (applyOverlay acme_snapshot (@loadOverlay bit_json (env_at 40000 true None) "p" acme_post.2).1).
Proof.
  apply (@posted_update_stays_visible bit_json bit_json_laws (fun s => s) (fun s => s) (env_at 6000 false (Some [])) "n1"
    acme_snapshot acme_form warm acme_posted acme_post.2 acme_post.2 (env_at 40000 true None) acme_snapshot).
  - intros key e'. done.
  - done.
  - by vm_compute.
  - apply rtc_refl.
  - by vm_compute.
Defined.
