(* ===== verification/StatusHistory.v ===== *)
(** * Status pages: history

    packages/status-page/src/history.ts and select.ts: the windows of bars, the
    months of the calendar and the days its entries touch. A day is the text
    [YYYY-MM-DD] the snapshot's schema asks for. *)

From Stdlib Require Import Ascii String.
From stdpp Require Import prelude list strings.
From Stdlib Require Import ZArith Lia.
From S2P Require Import Prelude.
From S2P Require Import JsString.
From S2P Require Import EventTime.
From S2P Require Import WarehouseTime.
From S2P Require Import StatusPage.

Open Scope Z_scope.
Local Open Scope maple_scope.

(** ** Days *)

(** [day.split("-").map(Number)] of a day of the schema. *)
Definition day_parts (day : string) : option (Z * Z * Z) :=
  '(year, s1) ← read_digits 4 0 day; s2 ← read_char "-" s1;
  '(month, s3) ← read_digits 2 0 s2; s4 ← read_char "-" s3;
  '(date, s5) ← read_digits 2 0 s4;
  if bool_decide (s5 = EmptyString) then Some (year, month, date) else None.

(** The day number of [Date.UTC(year, month - 1, date)]: a year below 100 is one
    of the twentieth century, and months and dates carry over. *)
Definition date_utc (year month date : Z) : Z :=
  let full := if (0 <=? year) && (year <=? 99) then 1900 + year else year in
  make_day (full + (month - 1) / 12) ((month - 1) mod 12 + 1) date.

Definition dayMs (day : string) : option Z := (fun '(year, month, date) => date_utc year month date * DAY_MS) <$> day_parts day.

Definition shiftDay (day : string) (offset : Z) : option string := (fun ms => utcDay (ms + offset * DAY_MS)) <$> dayMs day.

Definition MONTHS : list string := ["Jan"; "Feb"; "Mar"; "Apr"; "May"; "Jun"; "Jul"; "Aug"; "Sep"; "Oct"; "Nov"; "Dec"]%string.

(** An element at an index that may be negative. *)
Definition at_index {A} (l : list A) (index : Z) : option A := if index <? 0 then None else l !! Z.to_nat index.

Definition monthLabel (day : string) : option string :=
  (fun '(_, month, _) => (default EmptyString (at_index MONTHS (month - 1)) ++ " " ++ String.substring 0 4 day)%string) <$> day_parts day.

(** ** Windows *)

Definition windowBounds (length page : Z) : Z * Z :=
  let to := length - page * STATUS_PAGE_WINDOW_DAYS in (to - STATUS_PAGE_WINDOW_DAYS, to).

Definition window_bar (days : list StatusPageDayBar) (last_ : StatusPageDayBar) (index : Z) : option StatusPageDayBar :=
  match at_index days index with
  | Some bar => Some bar
  | None => empty_bar <$> shiftDay (db_day last_) (index - (Z.of_nat (length days) - 1))
  end.

(** [None] when a day is not one of the schema. *)
Definition windowDays (days : list StatusPageDayBar) (page : Z) : option (list StatusPageDayBar) :=
  match last days with
  | None => Some []
  | Some last_ =>
      let from := (windowBounds (Z.of_nat (length days)) page).1 in
      mapM (fun offset => window_bar days last_ (from + Z.of_nat offset)) (seq 0 (Z.to_nat STATUS_PAGE_WINDOW_DAYS))
  end.

Definition rangeLabel (days : list StatusPageDayBar) : option string :=
  match head days, last days with
  | Some a, Some b => x ← monthLabel (db_day a); y ← monthLabel (db_day b); Some (x ++ " - " ++ y)%string
  | _, _ => Some EmptyString
  end.

Definition barComponents (components : list StatusPageSnapshotComponent) : list StatusPageSnapshotComponent :=
  List.filter (fun c => sc_showUptime c && negb (bool_decide (length (sc_days c) = 0%nat))) components.

(** [findIndex] *)
Fixpoint find_index {A} (p : A -> bool) (l : list A) : option nat :=
  match l with [] => None | x :: l' => if p x then Some 0%nat else S <$> find_index p l' end.

Definition checked (bar : StatusPageDayBar) : bool := 0 <? db_checks bar.

Definition windowCount (components : list StatusPageSnapshotComponent) : Z :=
  fold_left (fun count c =>
    match find_index checked (sc_days c) with
    | None => count
    | Some oldest =>
        Z.max count ((Z.of_nat (length (sc_days c)) - 1 - Z.of_nat oldest) / STATUS_PAGE_WINDOW_DAYS + 1)
    end) (barComponents components) 1.

(** ** Months *)

(** [getUTCDay()]: Sunday is 0. *)
Definition weekday (day : Z) : Z := (day + 4) mod 7.

Definition month_lead (year month : Z) : Z := (weekday (date_utc year month 1) + 6) mod 7.

(** [getUTCDate()] of the day before the first of the next month. *)
Definition month_length (year month : Z) : Z := (civil_from_days (date_utc year (month + 1) 0)).2.

Definition monthCells (year month : Z) : list Z :=
  let lead := month_lead year month in
  let length := month_length year month in
  let cells := - (- (lead + length) / 7) * 7 in
  List.map (fun index => let date := Z.of_nat index - lead + 1 in if (1 <=? date) && (date <=? length) then date else 0)
    (seq 0 (Z.to_nat cells)).

Definition pad2 (n : Z) : string := let s := show n in if (String.length s <? 2)%nat then String "0" s else s.

Definition monthBefore (day : string) (back : Z) : option string :=
  (fun '(year, month, _) =>
     let index := year * 12 + (month - 1) - back in
     (show (index / 12) ++ "-" ++ pad2 (Z.rem index 12 + 1))%string) <$> day_parts day.

Definition calendarMonthCount (today : string) : option Z :=
  '(year, month, _) ← day_parts today;
  oldest ← shiftDay today (1 - STATUS_PAGE_HISTORY_DAYS);
  '(oldYear, oldMonth, _) ← day_parts oldest;
  Some ((year - oldYear) * 12 + (month - oldMonth) + 1).

(** ** Calendar *)

Inductive CalendarTone := t_notice | t_maintenance | t_degraded | t_partial_outage | t_major_outage.

Definition TONE_RANK (t : CalendarTone) : Z :=
  match t with t_notice => 0 | t_maintenance => 1 | t_degraded => 2 | t_partial_outage => 3 | t_major_outage => 4 end.

Record CalendarEntry := {
  ce_id : string;
  ce_title : string;
  ce_tone : CalendarTone;
  ce_impact : incident_impact;
  ce_kind : incident_kind;
  ce_status : string;
  ce_listed : bool;
  ce_startedAt : Z;
  ce_resolvedAt : option Z;
}.

Definition INCIDENT_STATUS_LABEL (s : incident_status) : string :=
  match s with
  | investigating => "Investigating" | identified => "Identified" | monitoring => "Monitoring" | resolved => "Resolved"
  | scheduled => "Scheduled" | in_progress => "In progress" | completed => "Completed"
  end.

Definition toneOf (kind : incident_kind) (impact : incident_impact) : CalendarTone :=
  match incidentComponentStatus kind impact with
  | operational => t_notice
  | st_maintenance => t_maintenance
  | degraded => t_degraded
  | partial_outage => t_partial_outage
  | major_outage => t_major_outage
  end.

Definition upcoming (kind : incident_kind) (status : incident_status) : bool :=
  bool_decide (kind = k_maintenance) && bool_decide (status = scheduled).

(** An entry before its tone and listing are known. *)
Definition calendar_entry (listed : bool) (id title : string) (kind : incident_kind) (impact : incident_impact)
    (status : string) (startedAt : Z) (resolvedAt : option Z) : CalendarEntry :=
  {| ce_id := id; ce_title := title; ce_tone := toneOf kind impact; ce_impact := impact; ce_kind := kind;
     ce_status := status; ce_listed := listed; ce_startedAt := startedAt; ce_resolvedAt := resolvedAt |}.

Definition newest_entry (a b : CalendarEntry) : Z := ce_startedAt b - ce_startedAt a.

Definition calendarEntries (s : StatusPageSnapshot) : list CalendarEntry :=
  let listed := List.filter (fun i => negb (upcoming (si_kind i) (si_status i))) (sn_incidents s) in
  let on_page id := bool_decide (id ∈ List.map si_id (sn_incidents s)) in
  let from_index (e : StatusPageIncidentHistoryEntry) :=
    calendar_entry (on_page (he_id e)) (he_id e) (he_title e) (he_kind e) (he_impact e)
      (match he_resolvedAt e with
       | None => "Ongoing"
       | Some _ => INCIDENT_STATUS_LABEL (match he_kind e with k_incident => resolved | k_maintenance => completed end)
       end) (he_startedAt e) (he_resolvedAt e) in
  let from_list (i : StatusPageSnapshotIncident) :=
    calendar_entry (on_page (si_id i)) (si_id i) (si_title i) (si_kind i) (si_impact i)
      (INCIDENT_STATUS_LABEL (si_status i)) (si_startedAt i) (si_resolvedAt i) in
  js_sort newest_entry
    (List.map from_list listed ++
     List.map from_index
       (List.filter (fun e => negb (existsb (fun i => bool_decide (si_id i = he_id e)) listed)) (sn_incidentHistory s))).

Record CalendarDay := { cd_tone : CalendarTone; cd_entries : list nat }.

(** The days an entry touches, within the history. *)
Definition first_day (entry : CalendarEntry) (now : Z) : Z :=
  Z.max (ce_startedAt entry / DAY_MS) (now / DAY_MS + 1 - STATUS_PAGE_HISTORY_DAYS).
Definition end_day (entry : CalendarEntry) (now : Z) : Z :=
  Z.min (Z.min (default now (ce_resolvedAt entry)) now / DAY_MS) (now / DAY_MS).

Definition entry_days (entry : CalendarEntry) (now : Z) : list Z :=
  List.map (fun offset => first_day entry now + Z.of_nat offset)
    (seq 0 (Z.to_nat (Z.max 0 (end_day entry now - first_day entry now + 1)))).

Definition mark_day (tone : CalendarTone) (index : nat) (byDay : jsmap Z CalendarDay) (day : Z) : jsmap Z CalendarDay :=
  map_set day
    match map_get day byDay with
    | None => {| cd_tone := tone; cd_entries := [index] |}
    | Some current =>
        {| cd_tone := if TONE_RANK (cd_tone current) <? TONE_RANK tone then tone else cd_tone current;
           cd_entries := cd_entries current ++ [index] |}
    end byDay.

Definition mark_entry (now : Z) (byDay : jsmap Z CalendarDay) (e : nat * CalendarEntry) : jsmap Z CalendarDay :=
  fold_left (mark_day (ce_tone e.2) e.1) (entry_days e.2 now) byDay.

Definition days_by_number (entries : list CalendarEntry) (now : Z) : jsmap Z CalendarDay :=
  fold_left (mark_entry now) (imap pair entries) [].

Definition calendarDays (entries : list CalendarEntry) (now : Z) : jsmap string CalendarDay :=
  map_of (List.map (fun e => (utcDay (e.1 * DAY_MS), e.2)) (days_by_number entries now)).

(** ** What a page lists *)

Definition activeIncidents (s : StatusPageSnapshot) : list StatusPageSnapshotIncident :=
  List.filter isActiveIncident (sn_incidents s).

Definition upcomingMaintenance (s : StatusPageSnapshot) : list StatusPageSnapshotIncident :=
  let key i := default (si_startedAt i) (si_scheduledStart i) in
  js_sort (fun a b => key a - key b) (List.filter (fun i => upcoming (si_kind i) (si_status i)) (sn_incidents s)).

Definition pastIncidents (s : StatusPageSnapshot) : list StatusPageSnapshotIncident :=
  let key i := default (si_startedAt i) (si_resolvedAt i) in
  js_sort (fun a b => key b - key a) (List.filter (fun i => isResolvedStatus (si_status i)) (sn_incidents s)).

Record ComponentGroup := { cg_name : option string; cg_status : component_status; cg_components : list StatusPageSnapshotComponent }.

Definition group_step (groups : list (option string * list StatusPageSnapshotComponent)) (c : StatusPageSnapshotComponent) :
    list (option string * list StatusPageSnapshotComponent) :=
  if existsb (fun g => bool_decide (g.1 = sc_group c)) groups then
    List.map (fun g => if bool_decide (g.1 = sc_group c) then (g.1, g.2 ++ [c]) else g) groups
  else groups ++ [(sc_group c, [c])].

Definition groupComponents (components : list StatusPageSnapshotComponent) : list ComponentGroup :=
  List.map (fun g => {| cg_name := g.1; cg_status := worstStatus (List.map sc_status g.2); cg_components := g.2 |})
    (fold_left group_step components []).

Definition latestActivityAt (s : StatusPageSnapshot) : Z :=
  fold_left (fun latest i => fold_left Z.max (List.map su_at (si_updates i)) (Z.max latest (si_startedAt i)))
    (sn_incidents s) (sn_generatedAt s).

Example cells_ex : monthCells 2024 2 = [0; 0; 0] ++ seqZ 1 29 ++ [0; 0; 0].
Proof. by vm_compute. Qed.

Example months_ex : monthBefore "2026-01-15" 2 = Some "2025-11"%string /\ calendarMonthCount "2026-01-15" = Some 13 /\
  monthLabel "2026-10-28" = Some "Oct 2026"%string /\ shiftDay "2024-03-01" (-1) = Some "2024-02-29"%string.
Proof. by vm_compute. Qed.
