(* ===== verification/StatusCalendar.v ===== *)
(** * Status pages: the days of the calendar

    A day reads back as the day it shows; the calendar marks exactly the days an
    entry touches; the windows show every checked day. *)

From Stdlib Require Import Ascii String.
From stdpp Require Import prelude list strings.
From Stdlib Require Import ZArith Lia.
From S2P Require Import Prelude.
From S2P Require Import JsString.
From S2P Require Import EventTime.
From S2P Require Import WarehouseTime.
From S2P Require Import StatusPage.
From S2P Require Import StatusHistory.

Open Scope Z_scope.
Local Open Scope maple_scope.

(** ** Days read back *)

(** The instants of the years 100 to 9999. *)
Definition modern (ms : Z) : Prop := -59011459200000 <= ms < 253402300800000.

Lemma modern_date ms : modern ms -> exists year month date, civil_from_days (ms / DAY_MS) = (year, month, date) /\
  100 <= year <= 9999 /\ 1 <= month <= 12 /\ 1 <= date <= 31 /\ make_day year month date = ms / DAY_MS.
Proof.
  intros Hr. unfold modern in Hr. destruct (civil_from_days (ms / DAY_MS)) as [[y mo] d] eqn:Hc.
  assert (-683003 <= ms / DAY_MS < 2932897) as Hd by (unfold DAY_MS; clear Hc; Z.to_euclidean_division_equations; lia).
  pose proof (civil_from_days_year (ms / DAY_MS) y mo d ltac:(lia) Hc) as Hy.
  apply civil_from_days_make in Hc as (Hm & Hmo & Hday). exists y, mo, d. split; [done|].
  pose proof (days_in_month_le y mo). split_and!; try lia.
  destruct (Z.le_gt_cases 100 y); [done|]. exfalso. unfold make_day in Hm.
  pose proof (days_before_bounds y (Z.to_nat (mo - 1)) ltac:(lia)) as Hb.
  replace (Z.of_nat (Z.to_nat (mo - 1)) + 1) with mo in Hb by lia.
  pose proof (day_from_year_next y). pose proof (day_from_year_mono (y + 1) 100 ltac:(lia)).
  change (day_from_year 100) with (-683003) in *. lia.
Qed.

Lemma day_shown ms year month date : 0 <= year <= 9999 -> civil_from_days (ms / DAY_MS) = (year, month, date) ->
  utcDay ms = pad_digits 4 year (String "-" (pad_digits 2 month (String "-" (pad_digits 2 date EmptyString)))).
Proof.
  intros Hy Hc. unfold utcDay, toISOString, wall. change 86400000 with DAY_MS. rewrite Hc. unfold iso_year.
  rewrite (proj2 (andb_true_iff _ _)) by lia.
  change 10%nat with (4 + S (2 + S (2 + 0)))%nat.
  by rewrite substring_pad, substring_cons, substring_pad, substring_cons, substring_pad, substring_0.
Qed.

Lemma day_reads_back ms : modern ms -> dayMs (utcDay ms) = Some (ms / DAY_MS * DAY_MS).
Proof.
  intros (y & mo & d & Hc & Hy & Hmo & Hd & Hm)%modern_date. rewrite (day_shown ms y mo d) by (lia || done).
  unfold dayMs, day_parts. do 5 read_field. rewrite bool_decide_true by done. cbn [fmap option_fmap option_map].
  f_equal. f_equal. unfold date_utc. assert ((0 <=? y) && (y <=? 99) = false) as -> by lia.
  rewrite Z.div_small, Z.mod_small by lia. replace (y + 0) with y by lia. by replace (mo - 1 + 1) with mo by lia.
Qed.

Lemma day_injective a b : modern (a * DAY_MS) -> modern (b * DAY_MS) -> utcDay (a * DAY_MS) = utcDay (b * DAY_MS) -> a = b.
Proof.
  intros Ha%day_reads_back Hb%day_reads_back E. rewrite E in Ha. rewrite Ha in Hb. injection Hb as Hb.
  unfold DAY_MS in *. rewrite !Z.div_mul in Hb by lia. lia.
Qed.

(** ** Marked days *)

(** An entry touches a day when it started before the end of the day and was not
    resolved before the day began. *)
Definition touches (d : Z) (e : nat * CalendarEntry) : bool :=
  (ce_startedAt e.2 <? (d + 1) * 86400000) &&
  match ce_resolvedAt e.2 with Some until => d * 86400000 <=? until | None => true end.

(** The days of the history: the year that ends today. *)
Definition in_history (now d : Z) : Prop := now / 86400000 - 365 < d <= now / 86400000.

Lemma touches_days now d entry : in_history now d ->
  touches d entry = true <-> first_day entry.2 now <= d <= end_day entry.2 now.
Proof.
  unfold in_history, touches, first_day, end_day, STATUS_PAGE_HISTORY_DAYS, DAY_MS. intros Hd.
  rewrite andb_true_iff, Z.ltb_lt. destruct (ce_resolvedAt entry.2) as [r|]; cbn [default from_option id];
    [rewrite Z.leb_le|]; Z.to_euclidean_division_equations; lia.
Qed.

(** The tones from the mildest to the worst. *)
Definition tones : list CalendarTone := [t_notice; t_maintenance; t_degraded; t_partial_outage; t_major_outage].

Definition no_worse (a b : CalendarTone) : Prop :=
  exists i j, tones !! i = Some a /\ tones !! j = Some b /\ (i <= j)%nat.

Lemma rank_no_worse a b : TONE_RANK a <= TONE_RANK b -> no_worse a b.
Proof.
  intros H. exists (Z.to_nat (TONE_RANK a)), (Z.to_nat (TONE_RANK b)). split_and!; [by destruct a|by destruct b|lia].
Qed.

Lemma elem_of_entry_days entry now d : d ∈ entry_days entry now <-> first_day entry now <= d <= end_day entry now.
Proof.
  unfold entry_days. rewrite list_elem_of_In, in_map_iff. split.
  - intros (k & <- & [_ Hk]%in_seq). lia.
  - intros Hd. exists (Z.to_nat (d - first_day entry now)). split; [lia|]. apply in_seq. lia.
Qed.

Lemma NoDup_entry_days entry now : NoDup (entry_days entry now).
Proof. unfold entry_days. apply NoDup_ListNoDup, Finite.Injective_map_NoDup; [intros a b E; lia|apply seq_NoDup]. Qed.

(** What a mark makes of a day. *)
Definition marked (tone : CalendarTone) (index : nat) (day : option CalendarDay) : CalendarDay :=
  match day with
  | None => {| cd_tone := tone; cd_entries := [index] |}
  | Some current =>
      {| cd_tone := if TONE_RANK (cd_tone current) <? TONE_RANK tone then tone else cd_tone current;
         cd_entries := cd_entries current ++ [index] |}
  end.

Lemma marks_get tone index l d : forall byDay, NoDup l ->
  map_get d (fold_left (mark_day tone index) l byDay) =
  if decide (d ∈ l) then Some (marked tone index (map_get d byDay)) else map_get d byDay.
Proof.
  induction l as [|x l IH]; intros byDay; cbn [fold_left]; [intros _; by rewrite decide_False by apply not_elem_of_nil|].
  intros [Hx Hl]%NoDup_cons. rewrite IH by done. unfold mark_day at 1 2. rewrite !map_get_set.
  destruct (decide (x = d)) as [->|Hne].
  - rewrite decide_False by done. rewrite decide_True by by left. done.
  - destruct (decide (d ∈ l)) as [Hd|Hd]; [by rewrite decide_True by by right|].
    rewrite decide_False; [done|]. by intros [->|?]%elem_of_cons.
Qed.

(** A day as the entries that touch it make it. *)
Definition day_of (es : list (nat * CalendarEntry)) (day : option CalendarDay) : Prop :=
  match day with
  | None => es = []
  | Some day =>
      cd_entries day = List.map fst es /\
      (exists e, e ∈ es /\ ce_tone e.2 = cd_tone day) /\
      (forall e, e ∈ es -> TONE_RANK (ce_tone e.2) <= TONE_RANK (cd_tone day))
  end.

Lemma day_of_mark es day e : day_of es day -> day_of (es ++ [e]) (Some (marked (ce_tone e.2) e.1 day)).
Proof.
  intros H. destruct day as [day|]; cbn [marked day_of cd_tone cd_entries] in *.
  - destruct H as (H1 & (x & Hx & Ht) & H2). rewrite List.map_app, H1. split_and!; [done| |].
    + destruct (Z.ltb_spec (TONE_RANK (cd_tone day)) (TONE_RANK (ce_tone e.2))).
      * exists e. split; [apply elem_of_app; right; by left|done].
      * exists x. split; [apply elem_of_app; by left|done].
    + intros y [Hy| ->%list_elem_of_singleton]%elem_of_app; [specialize (H2 y Hy)|];
        destruct (Z.ltb_spec (TONE_RANK (cd_tone day)) (TONE_RANK (ce_tone e.2))); lia.
  - subst es. cbn. split_and!; [done|exists e; split; [by left|done]|]. by intros y ->%list_elem_of_singleton.
Qed.

Lemma days_marked now es d : in_history now d -> forall byDay pre, day_of (List.filter (touches d) pre) (map_get d byDay) ->
  day_of (List.filter (touches d) (pre ++ es)) (map_get d (fold_left (mark_entry now) es byDay)).
Proof.
  intros Hh. induction es as [|e es IH]; intros byDay pre H; cbn [fold_left]; [by rewrite app_nil_r|].
  replace (pre ++ e :: es) with ((pre ++ [e]) ++ es) by by rewrite <- app_assoc. apply IH.
  unfold mark_entry. rewrite marks_get by apply NoDup_entry_days. rewrite List.filter_app. cbn [List.filter].
  destruct (decide (d ∈ entry_days e.2 now)) as [Hd|Hd]; rewrite elem_of_entry_days in Hd.
  - assert (touches d e = true) as -> by by apply (touches_days now). by apply day_of_mark.
  - assert (touches d e = false) as -> by (apply not_true_iff_false; by rewrite (touches_days now)). by rewrite app_nil_r.
Qed.

Lemma marked_range now es : forall byDay, (forall d, d ∈ map_keys byDay -> now / DAY_MS + 1 - STATUS_PAGE_HISTORY_DAYS <= d <= now / DAY_MS) ->
  NoDup (map_keys byDay) -> let r := fold_left (mark_entry now) es byDay in
  (forall d, d ∈ map_keys r -> now / DAY_MS + 1 - STATUS_PAGE_HISTORY_DAYS <= d <= now / DAY_MS) /\ NoDup (map_keys r).
Proof.
  assert (forall tone index l byDay, (forall d, d ∈ l -> now / DAY_MS + 1 - STATUS_PAGE_HISTORY_DAYS <= d <= now / DAY_MS) ->
    (forall d, d ∈ map_keys byDay -> now / DAY_MS + 1 - STATUS_PAGE_HISTORY_DAYS <= d <= now / DAY_MS) ->
    NoDup (map_keys byDay) -> let r := fold_left (mark_day tone index) l byDay in
    (forall d, d ∈ map_keys r -> now / DAY_MS + 1 - STATUS_PAGE_HISTORY_DAYS <= d <= now / DAY_MS) /\ NoDup (map_keys r)) as Hm.
  { intros tone index l. induction l as [|x l IH]; intros byDay Hl H1 H2; cbn [fold_left]; [done|].
    apply IH; [intros d Hd; apply Hl; by right| |by apply map_set_NoDup].
    intros d [->|Hd]%elem_of_map_set_keys; [apply Hl; by left|by apply H1]. }
  induction es as [|e es IH]; intros byDay H1 H2; cbn [fold_left]; [done|].
  destruct (Hm (ce_tone e.2) e.1 (entry_days e.2 now) byDay) as [H3 H4]; [|done|done|by apply IH].
  intros d Hd%elem_of_entry_days. unfold first_day, end_day in Hd. lia.
Qed.

Lemma map_of_id {V} (l : jsmap string V) : NoDup (map_keys l) -> map_of l = l.
Proof.
  assert (forall l m : jsmap string V, NoDup (map_keys (m ++ l)) -> fold_left (fun m e => map_set e.1 e.2 m) l m = m ++ l) as H.
  { clear l. induction l as [|[k v] l IH]; intros m Hn; [by rewrite app_nil_r|]. cbn [fold_left fst snd].
    rewrite map_set_fresh; [|apply map_get_None_keys].
    - rewrite IH; rewrite <- app_assoc; [done|exact Hn].
    - unfold map_keys in *. rewrite List.map_app in Hn. apply NoDup_app in Hn as (_ & Hn & _). intros Hk. apply (Hn k Hk). by left. }
  intros Hn. by apply (H l []).
Qed.

(** The days counted as numbers, under their texts. *)
Lemma days_by_text now (m : jsmap Z CalendarDay) : modern now -> modern ((now / DAY_MS - 364) * DAY_MS) ->
  (forall d, d ∈ map_keys m -> in_history now d) -> NoDup (map_keys m) ->
  let r := map_of (List.map (fun e => (utcDay (e.1 * DAY_MS), e.2)) m) in
  (forall d, in_history now d -> map_get (utcDay (d * DAY_MS)) r = map_get d m) /\
  (forall key, key ∈ map_keys r -> exists d, in_history now d /\ key = utcDay (d * DAY_MS)).
Proof.
  intros Hnow Hold Hr Hn. cbv zeta.
  assert (forall x, in_history now x -> modern (x * DAY_MS)) as Hmod.
  { intros x Hx. unfold in_history, modern in *. change 86400000 with DAY_MS in *.
    assert (now / DAY_MS * DAY_MS <= now) by (unfold DAY_MS; Z.to_euclidean_division_equations; lia).
    unfold DAY_MS in *. lia. }
  rewrite map_of_id.
  - split.
    + intros d Hd. clear Hn. induction m as [|[x v] l IH]; [done|]. cbn [List.map map_get fst snd].
      rewrite IH by (intros y Hy; apply Hr; by right).
      destruct (decide (d = x)) as [->|Hne]; [by rewrite decide_True|]. rewrite decide_False; [done|].
      intros E. apply Hne. apply day_injective; [by apply Hmod|apply Hmod, Hr; by left|done].
    + intros key Hk. unfold map_keys in *. rewrite List.map_map in Hk. cbn [fst] in Hk.
      apply list_elem_of_In, in_map_iff in Hk as ([x v] & <- & Hx). exists x. split; [|done].
      apply Hr, list_elem_of_In, in_map_iff. by exists (x, v).
  - unfold map_keys in *. rewrite List.map_map. induction m as [|[x v] m IH]; [constructor|].
    cbn [List.map fst snd] in *. apply NoDup_cons in Hn as [Hx Hn]. constructor; [|apply IH; [intros y Hy; apply Hr; by right|done]].
    intros Hin%list_elem_of_In%in_map_iff. destruct Hin as ([y w] & E & Hy). cbn [fst snd] in E. apply Hx.
    assert (y ∈ List.map fst m) as Hk by (apply list_elem_of_In, in_map_iff; by exists (y, w)).
    apply day_injective in E as ->; [done|apply Hmod, Hr; by right|apply Hmod, Hr; by left].
Qed.

(** The entries that touch a day, with their positions. *)
Definition touching (entries : list CalendarEntry) (d : Z) : list (nat * CalendarEntry) :=
  List.filter (touches d) (imap pair entries).

(** C32: the calendar marks a day of the year that ends today exactly when an
    entry touches it (it started before the end of the day and was not resolved
    before the day began), with the positions of the entries that do, in their
    order, and with the worst of their tones; it marks no other day. (For years
    100 to 9999.) *)
Theorem calendar_days_exact entries now (Hnow : modern now) (Hold : modern ((now / 86400000 - 364) * 86400000)) :
  (forall d, in_history now d ->
     match map_get (utcDay (d * 86400000)) (calendarDays entries now) with
     | None => touching entries d = []
     | Some day =>
         cd_entries day = List.map fst (touching entries d) /\
         (exists e, e ∈ touching entries d /\ ce_tone e.2 = cd_tone day) /\
         (forall e, e ∈ touching entries d -> no_worse (ce_tone e.2) (cd_tone day))
     end) /\
  (forall key, key ∈ map_keys (calendarDays entries now) -> exists d, in_history now d /\ key = utcDay (d * 86400000)).
Proof.
  change 86400000 with DAY_MS in *. assert (forall d, now / DAY_MS + 1 - STATUS_PAGE_HISTORY_DAYS <= d <= now / DAY_MS <-> in_history now d) as Hrange
    by (intros d; unfold in_history, STATUS_PAGE_HISTORY_DAYS; change 86400000 with DAY_MS; lia).
  destruct (marked_range now (imap pair entries) [] ltac:(intros x Hx; by apply elem_of_nil in Hx) ltac:(constructor)) as [Hr Hn].
  setoid_rewrite Hrange in Hr. pose proof (days_by_text now (days_by_number entries now) Hnow Hold Hr Hn) as [Hget Hkeys].
  split; [|exact Hkeys]. intros d Hd. unfold calendarDays. rewrite (Hget d Hd).
  pose proof (days_marked now (imap pair entries) d Hd [] [] eq_refl) as H. cbn [app] in H.
  fold (days_by_number entries now) in H. fold (touching entries d) in H.
  destruct (map_get d (days_by_number entries now)) as [day|]; [|exact H]. destruct H as (H1 & H2 & H3).
  split_and!; [done|done|]. intros e He. by apply rank_no_worse, H3.
Qed.

(** ** Windows *)

Lemma count_from count c components : count <= fold_left (fun count c =>
    match find_index checked (sc_days c) with
    | None => count
    | Some oldest => Z.max count ((Z.of_nat (length (sc_days c)) - 1 - Z.of_nat oldest) / STATUS_PAGE_WINDOW_DAYS + 1)
    end) components count /\
  (forall oldest, c ∈ components -> find_index checked (sc_days c) = Some oldest ->
    (Z.of_nat (length (sc_days c)) - 1 - Z.of_nat oldest) / STATUS_PAGE_WINDOW_DAYS + 1 <=
    fold_left (fun count c =>
    match find_index checked (sc_days c) with
    | None => count
    | Some oldest => Z.max count ((Z.of_nat (length (sc_days c)) - 1 - Z.of_nat oldest) / STATUS_PAGE_WINDOW_DAYS + 1)
    end) components count).
Proof.
  revert count. induction components as [|x l IH]; intros count; cbn [fold_left].
  - split; [lia|]. intros oldest H. by apply elem_of_nil in H.
  - set (next := match find_index checked (sc_days x) with None => count | Some o => _ end).
    assert (count <= next) by (subst next; destruct (find_index checked (sc_days x)); lia).
    destruct (IH next) as [H1 H2]. split; [lia|]. intros oldest [->|Hc]%elem_of_cons Ho; [|by apply H2].
    subst next. rewrite Ho in *. lia.
Qed.

Lemma find_index_first {A} (p : A -> bool) l i x : l !! i = Some x -> p x = true -> exists j, find_index p l = Some j /\ (j <= i)%nat.
Proof.
  revert i. induction l as [|y l IH]; intros i Hi Hp; [done|]. cbn. destruct (p y) eqn:E; [exists 0%nat; split; [done|lia]|].
  destruct i as [|i]; [cbn in Hi; congruence|]. destruct (IH i Hi Hp) as (j & -> & Hj). exists (S j). split; [done|lia].
Qed.

(** The bars of a window: those of the days, or empty ones before the oldest. *)
Lemma window_bars days last_ page : last days = Some last_ -> is_Some (dayMs (db_day last_)) ->
  exists w, windowDays days page = Some w /\ length w = Z.to_nat STATUS_PAGE_WINDOW_DAYS /\
    forall k, (k < Z.to_nat STATUS_PAGE_WINDOW_DAYS)%nat ->
      w !! k = window_bar days last_ ((windowBounds (Z.of_nat (length days)) page).1 + Z.of_nat k).
Proof.
  intros Hl [ms Hms]. unfold windowDays. rewrite Hl. set (from := (windowBounds _ _).1).
  assert (forall l, exists w, mapM (fun offset => window_bar days last_ (from + Z.of_nat offset)) l = Some w) as Hw.
  { intros l. apply mapM_is_Some, Forall_forall. intros k _. change (is_Some (window_bar days last_ (from + Z.of_nat k))). unfold window_bar. destruct (at_index days (from + Z.of_nat k)); [by eexists|].
    unfold shiftDay. rewrite Hms. by eexists. }
  destruct (Hw (seq 0 (Z.to_nat STATUS_PAGE_WINDOW_DAYS))) as [w E]. exists w. split; [done|].
  apply mapM_Some in E. split; [apply Forall2_length in E; by rewrite length_seq in E|].
  intros k Hk. destruct (lookup_lt_is_Some_2 w k) as [bar Hb].
  { apply Forall2_length in E. rewrite length_seq in E. lia. }
  rewrite Hb. symmetry. pose proof (Forall2_lookup_lr _ _ _ k (0 + k)%nat bar E) as Hf. apply Hf; [by rewrite lookup_seq_lt|done].
Qed.

(** Nothing that was checked is out of reach: every bar of a component with
    a check is in one of the windows the page counts, and each window has ninety
    bars. *)
Theorem windows_show_every_check components c i bar (Hc : c ∈ barComponents components) (Hi : sc_days c !! i = Some bar)
    (Hbar : checked bar = true) (Hday : forall b, b ∈ sc_days c -> is_Some (dayMs (db_day b))) :
  exists page w, 0 <= page < windowCount components /\ windowDays (sc_days c) page = Some w /\
    length w = 90%nat /\ bar ∈ w.
Proof.
  assert (i < length (sc_days c))%nat as Hlt by by eapply lookup_lt_Some.
  destruct (last (sc_days c)) as [last_|] eqn:El; [|apply last_None in El; by rewrite El in Hi].
  set (n := Z.of_nat (length (sc_days c))). set (page := (n - 1 - Z.of_nat i) / STATUS_PAGE_WINDOW_DAYS).
  destruct (window_bars (sc_days c) last_ page El) as (w & Hw & Hlen & Hk); [by apply Hday, last_Some_elem_of|].
  exists page, w. destruct (find_index_first checked (sc_days c) i bar Hi Hbar) as (oldest & Ho & Hle).
  destruct (count_from 1 c (barComponents components)) as [_ Hcount]. specialize (Hcount oldest Hc Ho).
  fold (windowCount components) in Hcount. fold n in Hcount.
  assert (0 <= page) by (apply Z.div_pos; [lia|done]).
  assert (page <= (n - 1 - Z.of_nat oldest) / STATUS_PAGE_WINDOW_DAYS) by (apply Z.div_le_mono; [done|lia]).
  split_and!; [done|lia|done|by rewrite Hlen|].
  set (k := Z.to_nat (Z.of_nat i - (n - page * STATUS_PAGE_WINDOW_DAYS - STATUS_PAGE_WINDOW_DAYS))).
  assert (0 <= Z.of_nat i - (n - page * STATUS_PAGE_WINDOW_DAYS - STATUS_PAGE_WINDOW_DAYS) < STATUS_PAGE_WINDOW_DAYS) as Hr.
  { subst page. unfold STATUS_PAGE_WINDOW_DAYS. Z.to_euclidean_division_equations; lia. }
  apply (list_elem_of_lookup_2 w k). rewrite Hk by (subst k; lia). unfold window_bar, at_index, windowBounds. cbn [fst]. fold n.
  replace (n - page * STATUS_PAGE_WINDOW_DAYS - STATUS_PAGE_WINDOW_DAYS + Z.of_nat k) with (Z.of_nat i) by (subst k; lia).
  rewrite (proj2 (Z.ltb_ge _ _)) by lia. by rewrite Nat2Z.id, Hi.
Qed.

(** ** A year of a page *)

Definition one_now : Z := 1700000000000.

Definition two_entries : list CalendarEntry :=
  [calendar_entry true "i2" "API is slow" k_incident i_minor "Ongoing" (one_now - 2 * DAY_MS) None;
   calendar_entry false "i1" "API is down" k_incident i_critical "Resolved" (one_now - 9 * DAY_MS) (Some (one_now - DAY_MS))].

Lemma calendar_days_exact_witness :
  map_get "2023-11-13"%string (calendarDays two_entries one_now) = Some {| cd_tone := t_major_outage; cd_entries := [0; 1]%nat |} /\
  List.map fst (touching two_entries 19674) = [0; 1]%nat.
Proof.
  destruct (calendar_days_exact two_entries one_now ltac:(by vm_compute) ltac:(by vm_compute)) as [H _].
  assert (in_history one_now 19674) as Hd by (split; by vm_compute).
  apply H in Hd. clear H. rename Hd into H.
  assert (map_get "2023-11-13"%string (calendarDays two_entries one_now) =
    Some {| cd_tone := t_major_outage; cd_entries := [0; 1]%nat |}) as E by by vm_compute.
  change (utcDay (19674 * 86400000)) with "2023-11-13"%string in H. rewrite E in H. split; [done|]. by destruct H as [<- _].
Defined.

Definition checked_once : StatusPageSnapshotComponent :=
  {| sc_id := "api"; sc_name := "API"; sc_description := None; sc_group := None; sc_status := operational;
     sc_baseStatus := operational; sc_showUptime := true; sc_monitored := true;
     sc_days := fillDays (lastDays one_now 100)
       [{| db_day := "2023-08-08"; db_checks := 5; db_failures := 1; db_downChecks := 0 |}] |}.

Lemma windows_show_every_check_witness :
  exists page w, 0 <= page < windowCount [checked_once] /\ windowDays (sc_days checked_once) page = Some w /\ length w = 90%nat /\
    {| db_day := "2023-08-08"; db_checks := 5; db_failures := 1; db_downChecks := 0 |} ∈ w.
Proof.
  apply (windows_show_every_check [checked_once] checked_once 1).
  - apply list_elem_of_In. by left.
  - by vm_compute.
  - by vm_compute.
  - apply Forall_forall.
    apply (bool_decide_unpack (Forall (fun b => is_Some (dayMs (db_day b))) (sc_days checked_once))). vm_compute. exact I.
Defined.
